(* ===== verification/_CoqProject ===== *)
-Q . S2P
Prelude.v
Text.v
Order.v
Vocabulary.v
CapError.v
Host.v
Resource.v
Names.v
Verbs.v
Constraints.v
Scopes.v
Capabilities.v
CapSet.v
ConstraintText.v
CapParse.v
CapRoundTrip.v
CapTheorems.v
PolicyContext.v
PolicyValue.v
PolicyValueFacts.v
Predicate.v
Obligation.v
Rule.v
Eval.v
Compose.v
PolicyTheorems.v
Toml.v
Loader.v
LoaderFacts.v
LoaderTheorems.v
Utf8.v
Numerals.v
Float64.v
Float64Facts.v
ProtoError.v
JsonValue.v
JsonLex.v
JsonRead.v
JsonRoundTrip.v
JsonCanonical.v
JsonSound.v
JsonTheorems.v
Digest.v
StateError.v
AuditRecord.v
Machine.v
AuditStore.v
AuditRecovery.v
AuditRecordFacts.v
AuditStoreFacts.v
RecoveryFacts.v
AuditTheorems.v
WireId.v
Scalar.v
Sandbox.v
Db.v
WorkOps.v
Egress.v
Guard.v
ConnectRequest.v
ClientHello.v
Tunnel.v
TunnelFacts.v
EgressTheorems.v
Environment.v
Lease.v
WorkFacts.v
LeaseFacts.v
SessionFacts.v
Reconcile.v
SessionRuns.v
SessionTheorems.v
Redaction.v
SecretShapes.v
RedactTheorems.v
Url.v
NetPlan.v
NetHttp.v
NetRun.v
NetTheorems.v
