(* ===== verification/Prelude.v ===== *)
(** * DireWolf: the authority core

    DireWolf separates a runtime that may be compromised from an authority that
    decides what the runtime may do. This development models the two gates every
    action passes in the authority ([src/crates/dwkd-authority]): the
    capability gate, which asks whether the run holds the authority an action
    needs, and the policy gate, which asks whether the operator's rules permit
    it; the JSON every message of the protocol is read as; and the record the
    authority keeps of what it decided, which no crash may lose or fork. The
    definitions are translations of the code, executable on concrete inputs:
    pure functions where the code is pure, and a small effect monad over a
    scripted world where it writes files and commits transactions.

    ** The program's parts

    - [dwkd-authority/src/capability] — the vocabulary of verbs, scopes and
      constraints, containment between capabilities, attenuation and delegation,
      sorted minimal sets, and the text a capability is declared in. It uses the
      host-name grammar of the wire crate ([dwk-proto/src/wire/host.rs]) and the
      canonical identities of [dwkd-authority/src/resource/mod.rs].
    - [dwkd-authority/src/policy] — the strict loader of policy documents, the
      composition of a profile with what it extends, and the two-phase
      evaluation of a composed policy on a canonical action in a run's context.
      An action carries the capability it requires, so the policy layer is
      built on the capability layer.
    - [dwk-proto/src/json], [error.rs], [version.rs] — the strict JSON reader
      every message of the protocol passes, canonical JSON (RFC 8785), protocol
      errors and version negotiation.
    - [dwkd-authority/src/state] — transactions over SQLite and the audit log.
      A transaction appends its audit records to an outbox table, commits, and
      then flushes them to a log of hash-chained lines before it answers;
      starting up reconciles the log with the store. Records are canonical
      JSON, and their hashes domain-separated SHA-256.
    - the operations those transactions are for: a session's lease, whose epoch
      fences every request; a run, admitted under it; a run's execution
      environment, prepared, judged, destroyed and reconciled with what the
      container runtime lists. Their rows are kept in tables whose constraints
      and triggers are part of the program.
    - [dwkd-broker/src/egress] and [dwk-proto/src/wire/guard.rs] — the proxy that
      is the one way out of an environment: a strict CONNECT request, the grant,
      one resolution judged whole, the server name of the client's hello, and
      then an opaque tunnel within budgets, many of them at once. Its grant is
      what the session layer gives a run.
    - [dwkd-authority/src/secret/redact] — what keeps an accidental copy of a
      secret from returning to the model: an index of the live values that holds
      none of them, scanners for the shapes of known credentials, and the buffer
      with what they find cut out.
    - [dwkd-authority/src/state/net_http], [state/secret_use.rs] and
      [dwk-proto/src/wire/url.rs], [wire/http.rs] — the requests the authority
      makes for a run: a call is made canonical, decided hop by hop at the
      addresses its host resolves to, recorded and charged before anything is
      sent, given a credential where both gates allow one, followed through its
      redirects, and answered redacted. They meet the capability and policy
      gates, the address guard and the index of live secrets.
    - the rest — envelopes and frames, the remaining operations, servers,
      broker, sandbox, command line — is listed at the end.

    ** The files

    Shared:
    - [Prelude]: Rust's [Result] with [?] as [let?], options, [filter_map], and
      the tactics [bool_to_prop] and [walk_ok].
    - [Text]: UTF-8 strings as Coq strings of bytes; split, strip, join; decimal
      numerals as [Display] and [str::parse] write and read them.
    - [Order]: the class [RustOrd] with its laws [LawfulOrd], instances for what
      [derive(Ord)] builds, sorting, binary search and insertion in a vector.
    - [Vocabulary]: the classes [Contains], [ContainsPreorder], [ContainsAntisym],
      [ContainsSound] and [ContainsComplete], what each kind of scope promises the
      capability layer; the class of closed enumerations with distinct spellings.

    Capability layer ([capability/*.rs], [wire/host.rs], [resource/mod.rs]):
    - [CapError]: constraint names and error values ([error.rs]).
    - [Host]: host names and host patterns ([host.rs], [scope.rs]).
    - [Resource]: path components, canonical paths, digests and executable
      identities ([resource/mod.rs]).
    - [Names]: ports, endpoints, labels, name patterns, provider models and
      channel targets ([scope.rs]).
    - [Verbs]: namespaces, actions, verbs and scope families ([verb.rs]).
    - [Constraints]: methods, argv allowlists, privacy classes and the eight-field
      constraint set ([constraint.rs]).
    - [Scopes]: scopes and their containment, with the resources they denote.
    - [Capabilities]: capabilities, [attenuate], [delegate], declarations and their
      resolution ([mod.rs], [attenuate.rs], [spec.rs]).
    - [CapSet]: sorted minimal sets of anything contained in anything ([set.rs]).
    - [ConstraintText], [CapParse], [CapRoundTrip]: constraint values, capability
      texts ([parse.rs]) and the proof that they agree.
    - [CapTheorems]: the properties.

    Policy layer ([policy/*.rs]):
    - [PolicyContext]: effects, the run's context, the action ([effect.rs],
      [context.rs], [action.rs]).
    - [PolicyValue], [PolicyValueFacts]: limits, rule paths, executables, address
      ranges ([limits.rs], [value.rs]).
    - [Predicate]: match values, [when], [unless] and their evaluation
      ([predicate.rs]).
    - [Obligation], [Rule]: identifiers, obligations, durations,
      approval shapes, reasons, rules, postconditions, profiles and decisions
      ([rule.rs], [mod.rs], [obligation.rs], [approval.rs], [reason.rs]).
    - [Eval]: [evaluate] and its two phases ([eval.rs]).
    - [Compose]: load errors ([error.rs]) and composition ([compose.rs]).
    - [Toml], [Loader], [LoaderFacts]: parsed documents and the walk over them
      ([load.rs]).
    - [PolicyTheorems], [LoaderTheorems]: the properties.

    Wire layer, JSON ([dwk-proto/src/json/*.rs], [error.rs], [version.rs]):
    - [Utf8]: scalar values, UTF-8 as [str::from_utf8] checks it, UTF-16.
    - [Numerals]: the grammar of JSON numbers and [i64]'s [str::parse].
    - [Float64], [Float64Facts]: doubles as [SpecFloat], correctly rounded
      reading of a numeral, the shortest digits that read back, the ECMAScript
      layout ([json/number.rs], [json/jcs.rs]), and the proof that they agree.
    - [ProtoError]: error codes, protocol errors, versions and [negotiate].
    - [JsonValue]: values, objects and their canonical text.
    - [JsonLex]: options and the parser ([json/lex.rs]), one definition per method.
    - [JsonRead], [JsonRoundTrip], [JsonCanonical], [JsonSound]: what each parser
      step reads, that canonical text reads back, that it is one text per value,
      that every parse ends in a value or an error of its list.
    - [JsonTheorems]: the properties.

    State layer ([dwkd-authority/src/state/*.rs]):
    - [Digest]: hashes, their text, framed domain-separated hashing
      ([digest.rs]). SHA-256 is the class [Sha256].
    - [StateError]: crash points, poison reasons, errors and the classification
      of SQLite's ([crash.rs], [error.rs], [db.rs]).
    - [AuditRecord]: events, fields, records, [verify_line]; the log read in
      chunks, verified and decoded ([audit.rs]).
    - [Machine]: the world: a file with what a crash may leave of it, the audit
      tables as committed, the data of the other tables, the writer, the poison,
      and a script of what the next effects do; the monad [M] over it and the
      weakest preconditions of its effects.
    - [AuditStore]: the tables' constraints and triggers ([schema.rs]),
      [append], and the comparison of log and store ([audit.rs]).
    - [AuditRecovery]: [recover], the writer's [flush_through] ([audit.rs]),
      poisoning, [flush], [transact] and the start of the log ([mod.rs]).
    - [AuditRecordFacts], [AuditStoreFacts], [RecoveryFacts]: what a verified line
      is, that what [append] writes verifies, logs as lines, the tables'
      invariant, the comparison characterised, what recovery and flushing keep
      and establish, and the worlds a history reaches.
    - [AuditTheorems]: the properties.

    Session layer ([dwkd-authority/src/state/*.rs], [sandbox.rs]):
    - [WireId], [Scalar]: identifiers and their text ([wire/id.rs]), minting
      UUIDv7 ([ids.rs]); epochs and refusals ([wire/scalar.rs]).
    - [Sandbox], [Egress]: invariants, levels and verdicts, the judgement of a
      probe's report ([brokerp/sandbox.rs], [sandbox.rs]); grants of egress and
      their counters ([brokerp/egress.rs], [sandbox.rs]).
    - [Db]: the tables [store_meta], [session_lease], [run] and [environment]
      with their constraints and triggers ([schema.rs]), the statements on
      them, and [evolves], the order every statement moves them along.
    - [WorkOps]: subjects, holders and callers ([identity.rs]), the monad [op]
      of the bodies of transactions, [Work]'s statements and identifiers
      ([mod.rs]).
    - [Environment]: an environment's records and their lifecycle
      ([environment.rs]).
    - [Lease]: acquisition, heartbeat, release, reaping, the fence
      ([lease.rs]), and a run's release ([admission.rs]).
    - [Reconcile]: records against the runtime's listing ([environment.rs]),
      with a reference that judges each record on its own.
    - [WorkFacts], [LeaseFacts], [SessionFacts]: [keeps R], a
      body that moves the state along the preorder [R], with the rules of its
      constructs in a hint database; what each operation answered and left.
    - [SessionRuns]: the operations as transactions and the histories of a store;
      the abstract lock and that the operations implement it.
    - [SessionTheorems]: the properties.

    Egress proxy ([dwkd-broker/src/egress/*.rs], [wire/guard.rs]):
    - [Guard]: blocked addresses and names, answers judged ([wire/guard.rs],
      [egress/guard.rs]), and that a masked comparison is an interval.
    - [ConnectRequest]: the request ([request.rs]), the strict form it accepts,
      and that what arrives later changes no decision.
    - [ClientHello]: records, the hello and its server name ([hello.rs]), with
      the encodings they are read from.
    - [Tunnel]: what the connections of an environment share, a connection as a
      state of [connection], [pump] and [carry], a turn of it ([advance]), and
      [proxy_step], any connection's turn ([tunnel.rs], [mod.rs]).
    - [TunnelFacts]: what each turn keeps, and the invariant of all of them.
    - [EgressTheorems]: the properties.

    Redaction ([dwkd-authority/src/secret/redact/*.rs], [state/secrets.rs]):
    - [Redaction]: handles ([secret/metadata.rs]), the index and its rolling
      search ([exact.rs]), the merge of spans and the rendered buffer
      ([mod.rs]); that the rolling hash is each window's, that the index holds
      the abstract map of live values, and what a merge covers and labels.
    - [SecretShapes]: the scanners ([pattern.rs]), [redact] and its bounded use;
      what a shape is, and that each scanner finds its own.
    - [RedactTheorems]: histories of the index and the properties.

    Requests ([dwk-proto/src/wire/url.rs], [wire/http.rs], [brokerp/http.rs],
    [dwkd-authority/src/state/net_http/*.rs], [state/secret_use.rs]):
    - [Url]: origins, parsing, the canonical text, references ([wire/url.rs]),
      and what the spellings of a URL are.
    - [NetPlan]: the decision record of a requirement ([state/query.rs]), the
      decisions on a hop and on a credential ([net_http/plan.rs]).
    - [NetHttp]: the rules of headers ([wire/http.rs]), the call and its
      canonical form ([canon.rs]), hops and what follows a response ([hop.rs]),
      the exchange and the broker's check of it ([brokerp/http.rs]), its answers
      ([broker/link.rs]) and the call's ([net_http/mod.rs]).
    - [NetRun]: the tables of requests, hops, keys and injections ([schema.rs]),
      the transactions on them ([ledger.rs], [secret_use.rs]), the selection of
      a secret ([secret/select.rs]), and a request's loop ([net_http/mod.rs]).
    - [NetTheorems]: what a request did, turn by turn ([chronicle]), and the
      properties.

    ** What the theorems show

    Authority never grows. A chain of attenuations and delegations of any length
    ends in a capability the first one contains, and authorises no request the
    first did not; containment is a partial order and is exactly inclusion of the
    resources denoted; attenuation reaches exactly the valid contained
    capabilities; an absent constraint is never read as a satisfied one.

    Sets have one representation. Insertion keeps them sorted and minimal, and
    lists covering the same capabilities build the same set in any order.

    Decisions are the first matching rule's, only narrowed. The first rule in
    source order that holds decides; postconditions enter by meet; a value that
    is missing denies and is named; denials carry no approval and no
    obligations; a loaded policy never falls off its end; an unattended run is
    never left waiting when the policy says so.

    Extension never widens. A profile that extends another composes into a policy
    that, for every action in every context, denies or takes the very decision
    of the policy extended; composition terminates, and ids stay unambiguous.

    Text means one value. Capabilities, host patterns, digests, ranges, rule
    paths, obligations and durations print to texts that parse back to them, and
    the theorems say where a second spelling is accepted. Ranges are intervals of
    addresses, rule paths prefixes of names. Documents with an undefined member
    do not load, and no value is coerced.

    Canonical JSON is the value. A value's canonical text parses to an equal
    value; values are equal exactly when their canonical bytes are; parsing any
    bytes ends, with a value within its profile or an error of its list at an
    offset in the input; a repeated key is refused where it begins.

    The record survives. A head hash binds every byte of the log, or SHA-256
    collides. A transaction answers only once its records are durable, and one
    that does not answer committed nothing or all of it. Whatever a crash at any
    effect leaves, the next start that meets no fault makes the log exactly the
    committed records. The log checks against the store exactly when it is a
    beginning of those that holds the acknowledged ones.

    Authority is fenced. A session's lease is a lock with an epoch: after an
    acquisition was answered, whatever is committed, crashes or starts, the fence
    passes nobody at an earlier epoch and nobody else at that one. A run is
    active only while its session holds its lease at the run's epoch, and an
    environment ready only while its run is active. Identifiers are minted once
    and have one text. An environment is usable only when every invariant asked
    of it was seen to hold, once; a proxy lets through what the run's grants
    name; reconciliation gives each record the verdict its own containers
    deserve, and touches no other container.

    Nothing leaves but what was granted. However its connections interleave and
    whatever the network answers, a proxy connects only to a public address a
    granted name resolved to, after a hello for that name; all connections
    together send no more than the budget; what is sent is what was read; and
    closing ends every connection in a bounded number of turns. The guard is
    exactly the reserved intervals; requests and hellos are accepted exactly in
    their strict forms, however they arrive.

    What returns holds no live secret. After any history of values indexed and
    forgotten, every occurrence of a live value is found and cut, whatever else
    overlaps it; nothing is cut that neither reads as a live value, by length,
    hash and tag, nor has a credential's shape; and the rest of the buffer is
    kept as it was, in order.

    A request sends what was decided, and no more. Each exchange follows its
    recorded intent, under a current lease, at addresses the host resolved to of
    which each passes the guard and both gates; a credential goes only to the
    origins its metadata names, after its value is registered for redaction, and
    no value registered comes back in the answer. A redirect carries no body, and
    to another origin neither headers nor credential. A run's budgets hold after
    every request, which ends within six hops; what a crash left open a restart
    ends as unknown, and nothing is sent again. A URL is accepted exactly when it
    is one of its spellings; the broker's own check of an exchange agrees with
    the authority wherever the canonical URL is within its bound, and the
    theorem says where it is not.

    ** Conventions

    Machine integers are [N] with their bounds written out ([U16_MAX],
    [U32_MAX], [U64_MAX]); an operation that is checked in the code is checked
    here. Strings are bytes; a test on characters says so ([chars_count]).
    Every type is a module whose type is [t], every function keeps its name, and
    [display] is its [Display]. A struct's accessors are its projections.
    [derive(Ord)] is the order of a view into products and sums, in field order.
    Loops are structural recursions on what they consume, with the state they
    carry as arguments, and early returns are results. One loop needs fuel:
    [Compose.resolve_loop] follows [extends] and gets [MAX_EXTENDS_DEPTH] steps,
    which [resolve_chain_total] proves enough, since each step lengthens a chain
    bounded by that limit. The JSON parser is a state of the bytes left, the
    offset and the path; [value] recurses once per container with
    [MAX_DEPTH + 1] levels, and the loops of arrays, objects and strings get one
    unit more than the bytes left; [JsonSound] proves that neither runs out.
    The reader of the log gets a unit per byte and consumes one each time;
    [append_pending] gets the number of records to append.
    Rust's float formatting is specified, not translated: [shortest_from] looks
    for the shortest numeral that reads back among those of up to [exact_digits]
    digits, a count at which the exact one is among them. [wf] predicates state
    what constructors establish.

    Effects are run against a script that says, for each in turn, whether it
    goes through or fails, and how much of it happened when it failed. A file
    keeps what was synced and any part of what was appended after; a commit
    that is reported to have failed may have happened; a rolled-back transaction
    leaves nothing. Statements of one transaction fail together: the fate of the
    first read stands for them. Files are shorter than [FILE_MAX], the largest
    offset.

    A table is a map from its primary key, and a statement checks the constraints
    and triggers that bear on it; rows it returns unordered come in an order of
    the map's, which no theorem names. A clock reading is an argument of a transaction.

    A connection to the proxy advances by turns, each of which makes at most one
    access to what other connections depend on; sockets, resolver and clocks are
    a turn's input, so a theorem over all turns holds against any of them. A
    reader gets a unit of fuel per byte left and one more.

    A buffer to redact is a list of bytes, with positions in [nat]; the scan gets
    a turn per byte and one more, and the rolling search a turn per byte and one
    more, which [shapes_scanned] and [roll_windows] prove enough.

    A request is a body of transactions and effects in a monad over its tables
    and a trace of what it did. What a transaction reads of other operations'
    tables is its [Reads]; what a hop meets of clocks, resolver, broker, secret
    backend and commits is its [World]; both are inputs, and the theorems hold of
    all of them. The loop over the hops gets a unit of fuel each, and
    [request_ends] proves six, [MAX_HOPS], enough.

    There are three parameters. The TOML parser, a third-party crate, is an
    argument of [Loader.load], and no property of it is assumed. SHA-256, a
    third-party crate, is the class [Sha256]: a function to thirty-two bytes;
    where distinct inputs matter, a theorem has [collision] as an alternative.
    HMAC, likewise, is the class [Hmac]: a function of a key and a message, of
    which the theorems assume nothing.

    ** What is not modelled, and why

    - The prose of error messages: no code reads it.
    - The compiled-in policy packs (constants in TOML) and the benchmark.
    - The operating-system side of resource resolution (descriptors, inodes), the
      servers, the broker's sockets, the sandbox and its helpers, and the command
      line: input and output.
    - Two processes writing one log at once: the store's lock file excludes it,
      and the lock is the operating system's.
    - Of the start of an incarnation ([begin_incarnation]), what it does to the
      tables that are not modelled; of an environment's preparation, its
      beginning, which reads the run's plan, and the exchange with the broker.
    - Of the proxy: its listener, the resolver, and the lengths of its deadlines.
    - Of secrets: the configuration file and the revisions of its metadata, the
      use of one by a process, and the backends that read values; values in
      memory are zeroed by the code, which a functional model does not show.
    - Of requests: the fields of audit records that report who asked, when, in
      which incarnation, and digests of the URL and the call; the hooks tests
      crash at; what the broker does with an exchange.
    - The wire crate's frames and most of its scalars, which are declarations
      that macros expand; the derived encodings of messages.
    - Admission, plans, and the ledgers of tools, processes and workloads:
      transactions over tables this development has no model of. Their machinery
      (transactions, audit records, fencing) is the one modelled here. *)

From Stdlib Require Export Ascii String NArith.
From stdpp Require Export base tactics numbers list strings.

(** * Results

    Rust's [Result<T, E>], with the [?] operator as a [let]. *)

Declare Scope rust_scope.
Delimit Scope rust_scope with rust.
Open Scope rust_scope.

Inductive result (A E : Type) : Type :=
| Ok (a : A)
| Err (e : E).
Arguments Ok {A E} a.
Arguments Err {A E} e.

Notation "'let?' x ':=' c 'in' k" :=
  (match c with Ok x => k | Err e => Err e end)
  (at level 10, x pattern, c at level 100, k at level 200,
   format "'[v' 'let?'  x  ':='  c  'in' '/' k ']'") : rust_scope.

(** [Option::ok_or]. *)
Definition ok_or {A E} (o : option A) (e : E) : result A E :=
  match o with Some a => Ok a | None => Err e end.

(** [Result::map_err]. *)
Definition map_err {A E F} (f : E -> F) (r : result A E) : result A F :=
  match r with Ok a => Ok a | Err e => Err (f e) end.

(** [bool::then_some]. *)
Definition then_some {A} (b : bool) (a : A) : option A :=
  if b then Some a else None.

(** [Option::is_none_or]. *)
Definition is_none_or {A} (o : option A) (f : A -> bool) : bool :=
  match o with Some a => f a | None => true end.

(** [Option::is_some_and]. *)
Definition is_some_and {A} (o : option A) (f : A -> bool) : bool :=
  match o with Some a => f a | None => false end.

Definition is_some {A} (o : option A) : bool :=
  match o with Some _ => true | None => false end.

#[global] Instance result_eq_dec {A E} `{EqDecision A, EqDecision E} :
  EqDecision (result A E).
Proof. solve_decision. Defined.

Lemma ok_or_Ok {A E} (o : option A) (e : E) a : ok_or o e = Ok a <-> o = Some a.
Proof. destruct o; simpl; split; congruence. Qed.

Lemma map_err_Ok {A E F} (f : E -> F) (r : result A E) a :
  map_err f r = Ok a <-> r = Ok a.
Proof. destruct r; simpl; split; congruence. Qed.

Lemma then_some_Some {A} b (a a' : A) : then_some b a = Some a' <-> b = true /\ a = a'.
Proof. destruct b; simpl; split; intros; destruct_and?; split_and?; congruence. Qed.

Lemma ok_or_Err {A E} (o : option A) (e e' : E) :
  ok_or o e = Err e' <-> o = None /\ e = e'.
Proof. destruct o; simpl; split; intros; destruct_and?; split_and?; congruence. Qed.

(** ** The hint database of the development

    Reflexivity, bounds and memberships that proofs discharge by [auto]. *)

Create HintDb direwolf.

(** Where an element of a list is, in the forms loops leave it. *)
Lemma elem_of_here {A} (x : A) l : x ∈ x :: l.
Proof. apply elem_of_cons. by left. Qed.

Lemma elem_of_later {A} (x y : A) l : x ∈ l -> x ∈ y :: l.
Proof. intros. apply elem_of_cons. by right. Qed.

Lemma elem_of_middle {A} (x : A) l k : x ∈ l ++ x :: k.
Proof. apply elem_of_app. right. apply elem_of_here. Qed.

#[export] Hint Resolve elem_of_here elem_of_later elem_of_middle : direwolf.

(** ** Tactics *)

(** Turn the boolean tests a guard leaves in the context into propositions. *)
Ltac bool_to_prop :=
  repeat match goal with
  | H : (_ && _) = true |- _ => apply andb_true_iff in H as [? ?]
  | H : (_ || _) = false |- _ => apply orb_false_iff in H as [? ?]
  | H : negb _ = true |- _ => apply negb_true_iff in H
  | H : negb _ = false |- _ => apply negb_false_iff in H
  | H : bool_decide _ = true |- _ => apply bool_decide_eq_true in H
  | H : bool_decide _ = false |- _ => apply bool_decide_eq_false in H
  | H : ok_or _ _ = Ok _ |- _ => apply ok_or_Ok in H
  | H : map_err _ _ = Ok _ |- _ => apply map_err_Ok in H
  | H : then_some _ _ = Some _ |- _ => apply then_some_Some in H as [? ?]
  end.

(** Follow a computation that ended in [Ok] (or [Some]) backwards through its
    [match]es: every early return is discharged by discrimination. *)
Ltac walk_ok :=
  repeat (match goal with
  | H : Ok _ = Ok _ |- _ => injection H as H
  | H : Some _ = Some _ |- _ => injection H as H
  | H : Err _ = Ok _ |- _ => discriminate H
  | H : None = Some _ |- _ => discriminate H
  | H : context [match ?c with _ => _ end] |- _ =>
      lazymatch type of H with
      | _ = Ok _ => destruct c eqn:?
      | _ = Some _ => destruct c eqn:?
      end
  end; simplify_eq; bool_to_prop).


(** [iter.filter_map(f).collect()]. *)
Fixpoint filter_map {A B} (f : A -> option B) (l : list A) : list B :=
  match l with
  | [] => []
  | a :: r => match f a with Some b => b :: filter_map f r | None => filter_map f r end
  end.

Lemma filter_map_perm {A B} (f : A -> option B) (l k : list A) :
  l ≡ₚ k -> filter_map f l ≡ₚ filter_map f k.
Proof.
  induction 1; simpl.
  - done.
  - destruct (f x); [by constructor|done].
  - destruct (f x), (f y); try done. constructor.
  - by etrans.
Qed.

Lemma elem_of_filter_map {A B} (f : A -> option B) (l : list A) b :
  b ∈ filter_map f l <-> exists a, a ∈ l /\ f a = Some b.
Proof.
  induction l as [|a l IH]; simpl.
  - split; [by intros ?%not_elem_of_nil|]. by intros (? & ?%not_elem_of_nil & _).
  - setoid_rewrite elem_of_cons. destruct (f a) as [b'|] eqn:E; [rewrite elem_of_cons|]; rewrite IH.
    + split; [intros [->|(a' & ? & ?)]; eauto|].
      intros (a' & [->|Ha'] & Hb); [left; congruence|right; eauto].
    + split; [intros (a' & ? & ?); eauto|].
      intros (a' & [->|Ha'] & Hb); [congruence|eauto].
Qed.

(** A boolean property of the first [m] numbers, by inspection. *)
Lemma N_forall_below (f : N -> bool) (m : nat) :
  forallb (fun k => f (N.of_nat k)) (seq 0 m) = true ->
  forall n, (n < N.of_nat m)%N -> f n = true.
Proof.
  rewrite forallb_forall. intros Hf n Hn. rewrite <- (N2Nat.id n).
  apply Hf, in_seq. lia.
Qed.

(** [iter.collect::<Result<Vec<_>, _>>()]: the first error, or all the values. *)
Fixpoint collect {A E} (l : list (result A E)) : result (list A) E :=
  match l with
  | [] => Ok []
  | Ok a :: r => let? k := collect r in Ok (a :: k)
  | Err e :: _ => Err e
  end.

Lemma collect_Ok {A E} (l : list (result A E)) k : collect l = Ok k <-> l = map Ok k.
Proof.
  revert k; induction l as [|[a|e] l IH]; intros [|b k]; simpl; try done.
  - destruct (collect l); done.
  - destruct (collect l) as [k'|] eqn:Ec.
    + split; [intros [= -> ->]; f_equal; by apply IH|].
      intros [= -> H]. apply IH in H. congruence.
    + split; [done|]. intros [= -> H]. apply IH in H. done.
Qed.
