(* ===== verification/Text.v ===== *)
(** Byte strings: the operations of Rust's [str] the code uses, decimal
    numerals, and the lemmas the parsers and printers share. *)

From S2P Require Export Prelude.
From Stdlib Require Import DecimalString DecimalN DecimalFacts DecimalPos.

(** * Strings

    A Rust [str] is its UTF-8 bytes, so a [string] here is a byte sequence:
    [len], comparison, prefixes and searches for an ASCII character are byte
    operations in both.  A test such as [chars().all(is_ascii_digit)] is false
    of every byte of a non-ASCII character, hence also a byte test. *)

Definition byte_of (a : ascii) : N := N_of_ascii a.

Definition in_range (lo hi : N) (a : ascii) : bool :=
  (lo <=? byte_of a)%N && (byte_of a <=? hi)%N.

(** [is_ascii_digit], [is_ascii_lowercase], [is_ascii_uppercase] and
    [is_ascii_alphanumeric]. *)
Definition is_digit : ascii -> bool := in_range 48 57.
Definition is_lower : ascii -> bool := in_range 97 122.
Definition is_upper : ascii -> bool := in_range 65 90.
Definition is_alphanumeric (a : ascii) : bool :=
  is_digit a || is_lower a || is_upper a.

(** [is_ascii_hexdigit]. *)
Definition is_hexdigit (a : ascii) : bool :=
  is_digit a || in_range 97 102 a || in_range 65 70 a.

Definition one_of (cs : list ascii) (a : ascii) : bool := existsb (Ascii.eqb a) cs.

(** [s.bytes().all(f)]. *)
Fixpoint str_all (f : ascii -> bool) (s : string) : bool :=
  match s with
  | EmptyString => true
  | String a r => f a && str_all f r
  end.

(** [s.contains(c)] for an ASCII [c]. *)
Fixpoint str_contains (c : ascii) (s : string) : bool :=
  match s with
  | EmptyString => false
  | String a r => Ascii.eqb a c || str_contains c r
  end.

(** [s.chars().count()]: the bytes of a UTF-8 sequence that are not
    continuation bytes [0b10xxxxxx]. *)
Definition is_continuation : ascii -> bool := in_range 128 191.

Fixpoint chars_count (s : string) : nat :=
  match s with
  | EmptyString => 0
  | String a r => (if is_continuation a then 0 else 1) + chars_count r
  end.

Definition is_empty (s : string) : bool :=
  match s with EmptyString => true | String _ _ => false end.

(** [s.strip_prefix(p)]. *)
Fixpoint str_strip_prefix (p s : string) : option string :=
  match p, s with
  | EmptyString, _ => Some s
  | String a p, String b s => if Ascii.eqb a b then str_strip_prefix p s else None
  | String _ _, EmptyString => None
  end.

(** [s.starts_with(p)]. *)
Definition str_starts_with (p s : string) : bool := is_some (str_strip_prefix p s).

(** [s.strip_suffix(c)] for an ASCII [c]. *)
Fixpoint str_strip_suffix (c : ascii) (s : string) : option string :=
  match s with
  | EmptyString => None
  | String a EmptyString => if Ascii.eqb a c then Some EmptyString else None
  | String a r => String a <$> str_strip_suffix c r
  end.

(** [s.ends_with(c)]. *)
Definition str_ends_with (c : ascii) (s : string) : bool := is_some (str_strip_suffix c s).

(** [s.split_once(c)]: at the first [c]. *)
Fixpoint str_split_once (c : ascii) (s : string) : option (string * string) :=
  match s with
  | EmptyString => None
  | String a r =>
      if Ascii.eqb a c then Some (EmptyString, r)
      else '(h, t) ← str_split_once c r; Some (String a h, t)
  end.

(** [s.rsplit_once(c)]: at the last [c]. *)
Fixpoint str_rsplit_once (c : ascii) (s : string) : option (string * string) :=
  match s with
  | EmptyString => None
  | String a r =>
      match str_rsplit_once c r with
      | Some (h, t) => Some (String a h, t)
      | None => if Ascii.eqb a c then Some (EmptyString, r) else None
      end
  end.

(** [s.split(c)], which always yields at least one part. *)
Fixpoint str_split (c : ascii) (s : string) : list string :=
  match s with
  | EmptyString => [EmptyString]
  | String a r =>
      if Ascii.eqb a c then EmptyString :: str_split c r
      else match str_split c r with
           | h :: t => String a h :: t
           | [] => [String a EmptyString]
           end
  end.

(** The parts of a [Display] that writes a separator between its elements. *)
Fixpoint str_join (sep : ascii) (l : list string) : string :=
  match l with
  | [] => EmptyString
  | [s] => s
  | s :: r => (s +:+ String sep (str_join sep r))%string
  end.

(** The first character a Rust [starts_with(c)] looks at. *)
Definition starts_with_char (c : ascii) (s : string) : bool :=
  match s with String a _ => Ascii.eqb a c | EmptyString => false end.

(** ** Characters and predicates *)

#[global] Arguments String.append !_ _ / : simpl nomatch.
#[global] Arguments Ascii.eqb : simpl nomatch.

(** A boolean property of every byte, by inspection of the 256. *)
Lemma ascii_forall (f : ascii -> bool) :
  forallb (fun k => f (ascii_of_N (N.of_nat k))) (seq 0 256) = true ->
  forall a, f a = true.
Proof.
  intros Hf a. rewrite <- (ascii_N_embedding a).
  apply (N_forall_below (fun n => f (ascii_of_N n)) 256 Hf).
  apply N_ascii_bounded.
Qed.

Lemma string_app_assoc (s t u : string) : (s +:+ t) +:+ u = s +:+ (t +:+ u).
Proof. induction s as [|a s IH]; simpl; congruence. Qed.

Lemma string_app_nil_r (s : string) : s +:+ "" = s.
Proof. induction s as [|a s IH]; simpl; congruence. Qed.

Lemma str_length_app s t : String.length (s +:+ t) = String.length s + String.length t.
Proof. induction s as [|a s IH]; simpl; [done|]. by rewrite IH. Qed.

Lemma str_all_app f s t : str_all f (s +:+ t) = str_all f s && str_all f t.
Proof. induction s as [|a s IH]; simpl; [done|]. by rewrite IH, andb_assoc. Qed.

Lemma str_contains_app c s t :
  str_contains c (s +:+ t) = str_contains c s || str_contains c t.
Proof. induction s as [|a s IH]; simpl; [done|]. by rewrite IH, orb_assoc. Qed.

Lemma chars_count_app s t : chars_count (s +:+ t) = chars_count s + chars_count t.
Proof. induction s as [|a s IH]; simpl; [done|]. rewrite IH; lia. Qed.

(** A class that excludes [c] keeps [c] out of the string. *)
Lemma str_all_not_contains f c s :
  f c = false -> str_all f s = true -> str_contains c s = false.
Proof.
  intros Hc; induction s as [|a s IH]; simpl; [done|].
  intros [Ha Hs]%andb_true_iff. rewrite IH by done.
  destruct (Ascii.eqb_spec a c); [congruence|done].
Qed.

Lemma str_all_impl (f g : ascii -> bool) s :
  (forall a, f a = true -> g a = true) -> str_all f s = true -> str_all g s = true.
Proof.
  intros Hfg; induction s as [|a s IH]; simpl; [done|].
  intros [Ha Hs]%andb_true_iff. by rewrite (Hfg _ Ha), IH.
Qed.

Lemma is_empty_true s : is_empty s = true <-> s = EmptyString.
Proof. by destruct s. Qed.

(** ** Splitting *)

Lemma str_split_once_Some_1 c s h t :
  str_split_once c s = Some (h, t) -> s = h +:+ String c t /\ str_contains c h = false.
Proof.
  revert h; induction s as [|a s IH]; intros h; simpl; [done|].
  destruct (Ascii.eqb a c) eqn:Hac.
  - apply Ascii.eqb_eq in Hac as ->. by intros [= <- <-].
  - destruct (str_split_once c s) as [[h' t']|]; simpl; [|done].
    intros [= <- <-]. destruct (IH h' eq_refl) as [-> Hn]. simpl. by rewrite Hac.
Qed.

Lemma str_split_once_app c h t :
  str_contains c h = false -> str_split_once c (h +:+ String c t) = Some (h, t).
Proof.
  induction h as [|a h IH]; simpl; [by rewrite Ascii.eqb_refl|].
  intros [Ha Hh]%orb_false_iff. by rewrite Ha, IH.
Qed.

Lemma str_split_once_Some c s h t :
  str_split_once c s = Some (h, t) <-> s = h +:+ String c t /\ str_contains c h = false.
Proof.
  split; [apply str_split_once_Some_1|]. intros [-> ?]; by apply str_split_once_app.
Qed.

Lemma str_split_once_None c s : str_split_once c s = None <-> str_contains c s = false.
Proof.
  induction s as [|a s IH]; simpl; [done|].
  destruct (Ascii.eqb a c); simpl; [done|].
  rewrite <- IH. by destruct (str_split_once c s) as [[??]|].
Qed.

Lemma str_split_not_nil c s : str_split c s <> [].
Proof.
  destruct s as [|a s]; simpl; [done|]. destruct (Ascii.eqb a c); [done|].
  by destruct (str_split c s).
Qed.

Lemma str_join_cons sep s l :
  l <> [] -> str_join sep (s :: l) = s +:+ String sep (str_join sep l).
Proof. by destruct l. Qed.

Lemma str_join_split c s : str_join c (str_split c s) = s.
Proof.
  induction s as [|a s IH]; simpl; [done|].
  pose proof (str_split_not_nil c s) as Hne.
  destruct (Ascii.eqb_spec a c) as [->|Hac].
  - rewrite str_join_cons by done. simpl. by rewrite IH.
  - destruct (str_split c s) as [|h t]; [done|].
    rewrite <- IH. by destruct t.
Qed.

Lemma str_split_no_sep c s : Forall (fun p => str_contains c p = false) (str_split c s).
Proof.
  induction s as [|a s IH]; simpl; [by constructor|].
  destruct (Ascii.eqb a c) eqn:Ha; [by constructor|].
  destruct (str_split c s) as [|h t]; simpl; inversion IH; subst;
    constructor; simpl; rewrite ?Ha; done.
Qed.

Lemma str_split_contains_false c s : str_contains c s = false -> str_split c s = [s].
Proof.
  induction s as [|a s IH]; simpl; [done|].
  intros [Ha Hs]%orb_false_iff. by rewrite Ha, IH.
Qed.

Lemma str_split_app c s t :
  str_contains c s = false -> str_split c (s +:+ String c t) = s :: str_split c t.
Proof.
  induction s as [|a s IH]; simpl; [by rewrite Ascii.eqb_refl|].
  intros [Ha Hs]%orb_false_iff. by rewrite Ha, IH.
Qed.

Lemma str_split_join c l :
  l <> [] -> Forall (fun p => str_contains c p = false) l -> str_split c (str_join c l) = l.
Proof.
  induction l as [|s l IH]; [done|]. intros _ Hl; inversion Hl; subst.
  destruct (decide (l = [])) as [->|Hne].
  - by apply str_split_contains_false.
  - rewrite str_join_cons, str_split_app by done. by rewrite IH.
Qed.

Lemma chars_count_join sep l :
  is_continuation sep = false ->
  chars_count (str_join sep l) = sum_list_with chars_count l + pred (length l).
Proof.
  intros Hsep; induction l as [|s l IH]; [done|].
  destruct (decide (l = [])) as [->|Hne]; [simpl; lia|].
  rewrite str_join_cons, chars_count_app by done. simpl chars_count at 2.
  rewrite Hsep, IH. simpl. destruct l; [done|]. simpl; lia.
Qed.

(** A separator-free string is found only inside a part. *)
Lemma str_join_not_contains c sep l :
  Ascii.eqb sep c = false ->
  Forall (fun p => str_contains c p = false) l -> str_contains c (str_join sep l) = false.
Proof.
  intros Hsep; induction 1 as [|s l Hs Hl IH]; [done|].
  destruct (decide (l = [])) as [->|Hne]; [done|].
  rewrite str_join_cons, str_contains_app by done. simpl. by rewrite Hs, Hsep, IH.
Qed.

Lemma starts_no_contains c s : str_contains c s = false -> starts_with_char c s = false.
Proof. destruct s; [done|]. by intros [? _]%orb_false_iff. Qed.

(** ** Prefixes and suffixes *)

Lemma str_strip_prefix_Some p s r : str_strip_prefix p s = Some r <-> s = p +:+ r.
Proof.
  revert s; induction p as [|a p IH]; intros s; simpl.
  - split; congruence.
  - destruct s as [|b s]; simpl; [done|].
    destruct (Ascii.eqb_spec a b) as [->|Hab]; [rewrite IH; split; congruence|].
    split; congruence.
Qed.

Lemma str_starts_with_spec p s : str_starts_with p s = true <-> exists r, s = p +:+ r.
Proof.
  unfold str_starts_with. destruct (str_strip_prefix p s) as [r|] eqn:E; simpl.
  - apply str_strip_prefix_Some in E. naive_solver.
  - split; [done|]. intros [r Hr]. apply str_strip_prefix_Some in Hr. congruence.
Qed.

Lemma str_starts_with_refl s : str_starts_with s s = true.
Proof. apply str_starts_with_spec. exists ""%string. by rewrite string_app_nil_r. Qed.

Lemma str_starts_with_trans p q s :
  str_starts_with p q = true -> str_starts_with q s = true -> str_starts_with p s = true.
Proof.
  rewrite !str_starts_with_spec. intros [r ->] [r' ->].
  exists (r +:+ r'). by rewrite string_app_assoc.
Qed.

Lemma str_starts_with_antisym p q :
  str_starts_with p q = true -> str_starts_with q p = true -> p = q.
Proof.
  rewrite !str_starts_with_spec. intros [r ->] [r' E].
  rewrite string_app_assoc in E.
  assert (r +:+ r' = "") as Er.
  { revert E; induction p as [|a p IH]; simpl; [done|]. intros [= E]. auto. }
  destruct r; simpl in Er; [by rewrite string_app_nil_r|done].
Qed.

Lemma str_strip_suffix_Some c s r : str_strip_suffix c s = Some r <-> s = r +:+ String c "".
Proof.
  revert r; induction s as [|a s IH]; intros r; simpl.
  - split; [done|]. by destruct r.
  - destruct s as [|b s].
    + destruct (Ascii.eqb_spec a c) as [->|Hac].
      * split; [by intros [= <-]|]. destruct r as [|? r]; simpl; [done|].
        intros [= _ E]. by destruct r.
      * split; [done|]. destruct r as [|? r]; simpl; [congruence|].
        intros [= _ E]. by destruct r.
    + destruct (str_strip_suffix c (String b s)) as [r'|] eqn:E; simpl.
      * pose proof (proj1 (IH r') eq_refl) as Er'. split.
        -- intros [= <-]. simpl. congruence.
        -- rewrite Er'. destruct r as [|? r]; simpl; [intros [= <- ?]; by destruct r'|].
           intros [= -> Er]. f_equal. f_equal.
           assert (Some r' = Some r) as [= ->]; [|done]. apply IH. congruence.
      * split; [done|]. destruct r as [|? r]; simpl; [done|].
        intros [= -> Er]. exfalso.
        assert (@None string = Some r) by (apply IH; congruence). done.
Qed.

(** * Decimal numerals *)

(** [Display] of an unsigned integer. *)
Definition show_N (n : N) : string := NilZero.string_of_uint (N.to_uint n).

(** The value of a non-empty string of digits. *)
Definition parse_N (s : string) : option N := N.of_uint <$> NilZero.uint_of_string s.

(** [str::parse::<uN>().ok()]: one optional leading [+], then digits, within
    the type's maximum. *)
Definition parse_uint (max : N) (s : string) : option N :=
  let digits :=
    match str_strip_prefix "+" s with Some r => r | None => s end in
  n ← parse_N digits; if (n <=? max)%N then Some n else None.

Definition U8_MAX : N := 255.
Definition U16_MAX : N := 65535.
Definition U32_MAX : N := 4294967295.
Definition U64_MAX : N := 18446744073709551615.
Definition I64_MAX : Z := 9223372036854775807.

(** [u64::saturating_add] and [u64::saturating_sub]. *)
Definition saturating_add (a b : N) : N := N.min (a + b) U64_MAX.
Definition saturating_sub (a b : N) : N := (a - b)%N.

(** [len()], a [usize], as a [u64]. *)
Definition str_len (s : string) : N := N.of_nat (String.length s).

(** The one spelling [show_N] produces. *)
Definition canonical_decimal (s : string) : bool :=
  negb (is_empty s) && str_all is_digit s
  && negb ((1 <? String.length s)%nat && starts_with_char "0" s).

(** ** From characters to digits *)

Definition digit_of (a : ascii) (d : Decimal.uint) : Decimal.uint :=
  match byte_of a with
  | 48 => Decimal.D0 d | 49 => Decimal.D1 d | 50 => Decimal.D2 d | 51 => Decimal.D3 d
  | 52 => Decimal.D4 d | 53 => Decimal.D5 d | 54 => Decimal.D6 d | 55 => Decimal.D7 d
  | 56 => Decimal.D8 d | _ => Decimal.D9 d
  end%N.

Lemma uint_of_char_digit a d :
  is_digit a = true -> uint_of_char a (Some d) = Some (digit_of a d).
Proof. by destruct a as [[] [] [] [] [] [] [] []]. Qed.

Lemma uint_of_char_not_digit a o : is_digit a = false -> uint_of_char a o = None.
Proof. by destruct a as [[] [] [] [] [] [] [] []]; destruct o. Qed.

Lemma uint_of_string_digits s :
  str_all is_digit s = true -> exists d, NilEmpty.uint_of_string s = Some d.
Proof.
  induction s as [|a s IH]; simpl; [eauto|].
  intros [Ha Hs]%andb_true_iff. destruct (IH Hs) as [d ->].
  rewrite uint_of_char_digit by done. eauto.
Qed.

Lemma string_of_uint_digits d : str_all is_digit (NilEmpty.string_of_uint d) = true.
Proof. induction d; simpl; done. Qed.

Lemma show_N_spec n :
  exists d, show_N n = NilEmpty.string_of_uint d /\ d <> Decimal.Nil /\
    N.of_uint d = n /\ Decimal.unorm d = d.
Proof.
  exists (N.to_uint n). pose proof (DecimalN.Unsigned.of_to n) as Hn.
  assert (N.to_uint n <> Decimal.Nil) as Hne.
  { destruct n as [|p]; [done|]. apply DecimalPos.Unsigned.to_uint_nonnil. }
  split_and!; [|done|done|].
  - unfold show_N. by destruct (N.to_uint n).
  - by rewrite <- (DecimalN.Unsigned.to_of (N.to_uint n)), Hn.
Qed.

Lemma parse_N_show n : parse_N (show_N n) = Some n.
Proof.
  destruct (show_N_spec n) as (d & -> & Hd & Hn & _).
  unfold parse_N, NilZero.uint_of_string. rewrite NilEmpty.usu.
  destruct (NilEmpty.string_of_uint d) eqn:E; [by destruct d|]. simpl. by rewrite Hn.
Qed.

Lemma show_N_digits n : str_all is_digit (show_N n) = true.
Proof. destruct (show_N_spec n) as (d & -> & _). apply string_of_uint_digits. Qed.

Lemma show_N_no c n : is_digit c = false -> str_contains c (show_N n) = false.
Proof. intros Hc. apply (str_all_not_contains is_digit); [done|apply show_N_digits]. Qed.

Lemma unorm_D0 d : Decimal.unorm (Decimal.D0 d) = Decimal.D0 d -> d = Decimal.Nil.
Proof.
  unfold Decimal.unorm; simpl. pose proof (DecimalFacts.nb_digits_nzhead d) as Hle.
  destruct (Decimal.nzhead d); intros [= <-]; simpl in *; try lia; done.
Qed.

Lemma show_N_canonical n : canonical_decimal (show_N n) = true.
Proof.
  unfold canonical_decimal. rewrite show_N_digits.
  destruct (show_N_spec n) as (d & -> & Hd & _ & Hu).
  destruct d as [|d|d|d|d|d|d|d|d|d|d]; [done| |simpl; by rewrite ?andb_false_r..].
  apply unorm_D0 in Hu as ->. done.
Qed.

Lemma show_N_not_empty n : is_empty (show_N n) = false.
Proof.
  pose proof (show_N_canonical n) as H. unfold canonical_decimal in H.
  by destruct (is_empty (show_N n)).
Qed.

Lemma canonical_decimal_unorm d s :
  NilEmpty.uint_of_string s = Some d -> canonical_decimal s = true ->
  Decimal.unorm d = d.
Proof.
  intros Hd Hc. apply NilEmpty.sus in Hd as <-.
  destruct d as [|d|d|d|d|d|d|d|d|d|d]; [done| |done..].
  unfold canonical_decimal in Hc. destruct d; [done|by rewrite andb_false_r in Hc..].
Qed.

(** A canonical decimal is what its value prints as. *)
Lemma canonical_decimal_show s :
  canonical_decimal s = true -> exists n, parse_N s = Some n /\ show_N n = s.
Proof.
  intros Hc. pose proof Hc as Hc'. unfold canonical_decimal in Hc'. bool_to_prop.
  destruct (uint_of_string_digits s) as [d Hd]; [done|].
  exists (N.of_uint d). split.
  - unfold parse_N, NilZero.uint_of_string. destruct s; [done|]. by rewrite Hd.
  - unfold show_N. rewrite DecimalN.Unsigned.to_of, (canonical_decimal_unorm d s) by done.
    apply NilEmpty.sus in Hd as <-. by destruct d.
Qed.

Lemma parse_N_not_digits s : str_all is_digit s = false -> parse_N s = None.
Proof.
  intros Hs. unfold parse_N, NilZero.uint_of_string. destruct s as [|a s]; [done|].
  cut (NilEmpty.uint_of_string (String a s) = None); [by intros ->|].
  revert Hs; generalize (String a s); clear; intros s.
  induction s as [|a s IH]; simpl; [done|].
  destruct (is_digit a) eqn:Ha; simpl.
  - intros Hs. rewrite IH by done. by destruct a as [[] [] [] [] [] [] [] []].
  - intros _. by apply uint_of_char_not_digit.
Qed.

(** On digits alone [str::parse] is [parse_N] with a bound. *)
Lemma parse_uint_digits max s :
  str_all is_digit s = true ->
  parse_uint max s = (n ← parse_N s; if (n <=? max)%N then Some n else None).
Proof.
  intros Hs. unfold parse_uint.
  destruct (str_strip_prefix "+" s) eqn:E; [|done].
  apply str_strip_prefix_Some in E as ->. by simpl in Hs.
Qed.

Lemma parse_uint_bound max s n : parse_uint max s = Some n -> (n <= max)%N.
Proof.
  unfold parse_uint. destruct (parse_N _) as [m|]; simpl; [|done].
  destruct (N.leb_spec m max); [by intros [= <-]|done].
Qed.

Lemma parse_uint_show max n : (n <= max)%N -> parse_uint max (show_N n) = Some n.
Proof.
  intros Hn. rewrite parse_uint_digits by apply show_N_digits.
  rewrite parse_N_show; simpl. by apply N.leb_le in Hn as ->.
Qed.

Lemma parse_uint_canonical max s n :
  canonical_decimal s = true -> parse_uint max s = Some n -> show_N n = s.
Proof.
  intros Hc. destruct (canonical_decimal_show s Hc) as (m & Hm & Hs).
  unfold canonical_decimal in Hc; bool_to_prop.
  rewrite parse_uint_digits, Hm by done. simpl.
  destruct (m <=? max)%N; [congruence|done].
Qed.

Lemma sum_list_perm {A} (f : A -> nat) (l k : list A) :
  l ≡ₚ k -> sum_list_with f l = sum_list_with f k.
Proof. induction 1; simpl; lia. Qed.

(** * Beginnings of texts *)

(** The first [n] bytes. *)
Fixpoint str_take (n : N) (s : string) : string :=
  match s with
  | EmptyString => ""
  | String a r => if (n =? 0)%N then "" else String a (str_take (n - 1) r)
  end.

(** All but the first [n] bytes. *)
Fixpoint str_drop (n : N) (s : string) : string :=
  match s with
  | EmptyString => ""
  | String a r => if (n =? 0)%N then s else str_drop (n - 1) r
  end.

(** [p] begins [s]. *)
Definition sprefix (p s : string) : Prop := exists t, s = p +:+ t.

Lemma sprefix_refl s : sprefix s s.
Proof. exists "". by rewrite string_app_nil_r. Qed.

Lemma sprefix_trans p s t : sprefix p s -> sprefix s t -> sprefix p t.
Proof. intros [x ->] [y ->]. exists (x +:+ y). by rewrite string_app_assoc. Qed.

#[export] Instance sprefix_preorder : PreOrder sprefix.
Proof. split; [exact sprefix_refl|exact sprefix_trans]. Qed.

Lemma sprefix_app s t : sprefix s (s +:+ t).
Proof. by exists t. Qed.

Lemma sprefix_nil s : sprefix "" s.
Proof. by exists s. Qed.

Lemma sprefix_app_app p s t : sprefix s t -> sprefix (p +:+ s) (p +:+ t).
Proof. intros [x ->]. exists x. by rewrite string_app_assoc. Qed.

Lemma str_app_inj (p s t : string) : p +:+ s = p +:+ t -> s = t.
Proof. induction p as [|a p IH]; simpl; [done|]. intros [= E]. auto. Qed.

Lemma sprefix_app_inv p s t : sprefix (p +:+ s) (p +:+ t) -> sprefix s t.
Proof. intros [x E]. exists x. rewrite string_app_assoc in E. by apply str_app_inj in E. Qed.

Lemma sprefix_starts_with p s : str_starts_with p s = true <-> sprefix p s.
Proof. apply str_starts_with_spec. Qed.

Lemma sprefix_length p s : sprefix p s -> String.length p <= String.length s.
Proof. intros [t ->]. rewrite str_length_app. lia. Qed.

Lemma sprefix_antisym p s : sprefix p s -> String.length s <= String.length p -> p = s.
Proof.
  intros [t ->]. rewrite str_length_app. intros H. assert (t = "") as ->.
  { destruct t; [done|simpl in H; lia]. }
  by rewrite string_app_nil_r.
Qed.

(** Beginnings of one text are beginnings of one another. *)
Lemma sprefix_total p q s : sprefix p s -> sprefix q s -> sprefix p q \/ sprefix q p.
Proof.
  intros [x ->]. revert q. induction p as [|a p IH]; intros q [y E]; [left; apply sprefix_nil|].
  destruct q as [|b q]; [right; apply sprefix_nil|]. cbn in E. injection E as <- E.
  destruct (IH q) as [[z ->]|[z ->]]; [by exists y|left|right]; by exists z.
Qed.

(** The shorter of two beginnings. *)
Lemma sprefix_le p q s :
  sprefix p s -> sprefix q s -> String.length p <= String.length q -> sprefix p q.
Proof.
  intros Hp Hq Hl. destruct (sprefix_total p q s Hp Hq) as [|H]; [done|].
  by rewrite (sprefix_antisym q p H Hl).
Qed.

Lemma str_take_prefix n s : sprefix (str_take n s) s.
Proof.
  revert n. induction s as [|a s IH]; intros n; cbn [str_take]; [apply sprefix_nil|].
  destruct (n =? 0)%N; [apply sprefix_nil|]. destruct (IH (n - 1)%N) as [t Ht].
  exists t. cbn. by f_equal.
Qed.

Lemma str_take_length n s : (str_len (str_take n s) <= n)%N.
Proof.
  revert n. induction s as [|a s IH]; intros n; cbn [str_take]; [apply N.le_0_l|].
  destruct (N.eqb_spec n 0) as [->|Hn]; [done|]. specialize (IH (n - 1)%N).
  unfold str_len in *. cbn [String.length]. lia.
Qed.

Lemma str_take_app s t : str_take (str_len s) (s +:+ t) = s.
Proof.
  induction s as [|a s IH]; [by destruct t|]. cbn [String.append str_take].
  unfold str_len in *. cbn [String.length]. rewrite (proj2 (N.eqb_neq _ 0)) by lia.
  replace (N.of_nat (S (String.length s)) - 1)%N with (N.of_nat (String.length s)) by lia.
  by rewrite IH.
Qed.

Lemma str_len_append s t : str_len (s +:+ t) = (str_len s + str_len t)%N.
Proof. unfold str_len. rewrite str_length_app. lia. Qed.

Lemma sprefix_len p s : sprefix p s -> (str_len p <= str_len s)%N.
Proof. intros H%sprefix_length. unfold str_len. lia. Qed.

Lemma str_take_drop n s : str_take n s +:+ str_drop n s = s.
Proof.
  revert n. induction s as [|a s IH]; intros n; [done|]. cbn [str_take str_drop].
  destruct (n =? 0)%N; [done|]. cbn. by rewrite IH.
Qed.

Lemma str_take_len n s : str_len (str_take n s) = N.min n (str_len s).
Proof.
  revert n. induction s as [|a s IH]; intros n; cbn [str_take]; [unfold str_len; cbn; lia|].
  destruct (N.eqb_spec n 0) as [->|Hn]; [by rewrite N.min_0_l|]. specialize (IH (n - 1)%N).
  unfold str_len in *. cbn [String.length]. lia.
Qed.

(** [u8::to_ascii_lowercase] and [str::to_ascii_lowercase]. *)
Definition ascii_lowercase (a : ascii) : ascii :=
  if is_upper a then ascii_of_N (byte_of a + 32) else a.

Fixpoint to_ascii_lowercase (s : string) : string :=
  match s with
  | EmptyString => ""
  | String a r => String (ascii_lowercase a) (to_ascii_lowercase r)
  end.
