(* ===== verification/Order.v ===== *)
(** Rust's [Ord]: the class, the orders [derive(Ord)] builds for structs,
    enums and vectors, and the sorted vectors kept by them. *)

From Stdlib Require Import Sorted.
From S2P Require Export Prelude Text.

(** * The interface *)

Class RustOrd (A : Type) := cmp : A -> A -> comparison.

(** What [Ord] promises: a total order whose [Equal] is equality. *)
Class LawfulOrd (A : Type) `{RustOrd A} : Prop := {
  cmp_eq (x y : A) : cmp x y = Eq <-> x = y;
  cmp_antisym (x y : A) : cmp y x = CompOpp (cmp x y);
  cmp_trans (x y z : A) : cmp x y = Lt -> cmp y z = Lt -> cmp x z = Lt
}.

Definition lt_b {A} `{RustOrd A} (x y : A) : bool :=
  match cmp x y with Lt => true | _ => false end.

Definition le_b {A} `{RustOrd A} (x y : A) : bool :=
  match cmp x y with Gt => false | _ => true end.

Section laws.
  Context {A : Type} `{LawfulOrd A}.
  Implicit Types x y z : A.

Lemma cmp_refl x : cmp x x = Eq.
Proof. by apply cmp_eq. Qed.

Lemma lt_irrefl x : ~ cmp x x = Lt.
Proof. by rewrite cmp_refl. Qed.

Lemma cmp_gt x y : cmp x y = Gt <-> cmp y x = Lt.
Proof. rewrite (cmp_antisym x y). by destruct (cmp x y). Qed.

Lemma lt_asym x y : cmp x y = Lt -> ~ cmp y x = Lt.
Proof. intros Hxy Hyx. by apply (lt_irrefl x), (cmp_trans x y x). Qed.

Lemma lt_b_spec x y : lt_b x y = true <-> cmp x y = Lt.
Proof. unfold lt_b. by destruct (cmp x y). Qed.

Lemma lt_b_false x y : lt_b x y = false <-> cmp y x = Lt \/ x = y.
Proof.
  unfold lt_b. rewrite <- cmp_gt, <- cmp_eq.
  destruct (cmp x y); split; intros; destruct_or?; try discriminate; auto.
Qed.
End laws.

(** * Instances *)

#[global] Instance N_ord : RustOrd N := N.compare.

#[global] Instance N_lawful : LawfulOrd N.
Proof.
  split.
  - apply N.compare_eq_iff.
  - intros; apply N.compare_antisym.
  - intros x y z; unfold cmp, N_ord; rewrite !N.compare_lt_iff; lia.
Qed.

#[global] Instance unit_ord : RustOrd unit := fun _ _ => Eq.

#[global] Instance unit_lawful : LawfulOrd unit.
Proof. split; [by intros [] []|done|done]. Qed.

(** Lexicographic products: the derived order of a struct's fields. *)
#[global] Instance prod_ord {A B} `{RustOrd A, RustOrd B} : RustOrd (A * B) :=
  fun x y => match cmp x.1 y.1 with Eq => cmp x.2 y.2 | c => c end.

#[global] Instance prod_lawful {A B} `{LawfulOrd A, LawfulOrd B} : LawfulOrd (A * B).
Proof.
  split.
  - intros [a b] [a' b']; unfold cmp at 1, prod_ord; simpl. destruct (cmp a a') eqn:E.
    + apply cmp_eq in E as ->. rewrite cmp_eq. split; congruence.
    + split; [done|]. intros [= <- <-]. by rewrite cmp_refl in E.
    + split; [done|]. intros [= <- <-]. by rewrite cmp_refl in E.
  - intros [a b] [a' b']; unfold cmp at 1 2, prod_ord; simpl. rewrite (cmp_antisym a a').
    destruct (cmp a a'); simpl; [apply cmp_antisym|done|done].
  - intros [a b] [a' b'] [a'' b'']; unfold cmp, prod_ord; simpl; fold (cmp a a') (cmp a' a'') (cmp a a'').
    destruct (cmp a a') eqn:E1; [|intros _|done].
    + apply cmp_eq in E1 as ->. destruct (cmp a' a''); [apply cmp_trans|done|done].
    + destruct (cmp a' a'') eqn:E2; [|intros _|done].
      * apply cmp_eq in E2 as ->. by rewrite E1.
      * by rewrite (cmp_trans a a' a'').
Qed.

(** An enum's earlier variants come before its later ones. *)
#[global] Instance sum_ord {A B} `{RustOrd A, RustOrd B} : RustOrd (A + B) :=
  fun x y => match x, y with
  | inl a, inl a' => cmp a a' | inl _, inr _ => Lt
  | inr _, inl _ => Gt | inr b, inr b' => cmp b b'
  end.

#[global] Instance sum_lawful {A B} `{LawfulOrd A, LawfulOrd B} : LawfulOrd (A + B).
Proof.
  split.
  - intros [a|b] [a'|b']; [change (cmp a a' = Eq <-> @inl A B a = inl a')|done|done|
      change (cmp b b' = Eq <-> @inr A B b = inr b')]; rewrite cmp_eq; split; congruence.
  - intros [a|b] [a'|b']; [exact (cmp_antisym a a')|done|done|exact (cmp_antisym b b')].
  - intros [a|b] [a'|b'] [a''|b'']; try done;
      [exact (cmp_trans a a' a'')|exact (cmp_trans b b' b'')].
Qed.

(** [None] comes before [Some]. *)
#[global] Instance option_ord {A} `{RustOrd A} : RustOrd (option A) :=
  fun x y => match x, y with
  | None, None => Eq | None, Some _ => Lt | Some _, None => Gt
  | Some a, Some b => cmp a b
  end.

#[global] Instance option_lawful {A} `{LawfulOrd A} : LawfulOrd (option A).
Proof.
  split.
  - intros [a|] [a'|]; [|done..].
    change (cmp a a' = Eq <-> Some a = Some a'). rewrite cmp_eq; split; congruence.
  - intros [a|] [a'|]; [exact (cmp_antisym a a')|done..].
  - intros [a|] [a'|] [a''|]; try done; exact (cmp_trans a a' a'').
Qed.

(** Vectors compare lexicographically. *)
Fixpoint list_cmp {A} `{RustOrd A} (l k : list A) : comparison :=
  match l, k with
  | [], [] => Eq | [], _ :: _ => Lt | _ :: _, [] => Gt
  | a :: l, b :: k => match cmp a b with Eq => list_cmp l k | c => c end
  end.

#[global] Instance list_ord {A} `{RustOrd A} : RustOrd (list A) := list_cmp.

#[global] Instance list_lawful {A} `{LawfulOrd A} : LawfulOrd (list A).
Proof.
  split; unfold cmp, list_ord.
  - intros l; induction l as [|a l IH]; intros [|b k]; simpl; try done.
    destruct (cmp a b) eqn:E.
    + apply cmp_eq in E as ->. rewrite IH. split; congruence.
    + split; [done|]. intros [= <- <-]. by rewrite cmp_refl in E.
    + split; [done|]. intros [= <- <-]. by rewrite cmp_refl in E.
  - intros l; induction l as [|a l IH]; intros [|b k]; simpl; try done.
    rewrite (cmp_antisym a b). destruct (cmp a b); simpl; [apply IH|done|done].
  - intros l; induction l as [|a l IH]; intros [|b k] [|c m]; simpl; try done.
    destruct (cmp a b) eqn:E1; [|intros _|done].
    + apply cmp_eq in E1 as ->. destruct (cmp b c); [apply IH|done|done].
    + destruct (cmp b c) eqn:E2; [|intros _|done].
      * apply cmp_eq in E2 as ->. by rewrite E1.
      * by rewrite (cmp_trans a b c).
Qed.

(** A derived order read through an injective view of the type: a struct as
    the tuple of its fields, an enum as the sum of its variants. *)
Definition ord_by {A B} (f : A -> B) `{RustOrd B} : RustOrd A :=
  fun x y => cmp (f x) (f y).

Lemma ord_by_lawful {A B} (f : A -> B) `{LawfulOrd B} :
  (forall x y, f x = f y -> x = y) -> @LawfulOrd A (ord_by f).
Proof.
  intros Hf; split; unfold cmp, ord_by.
  - intros x y. rewrite cmp_eq. split; [apply Hf|by intros ->].
  - intros x y. apply cmp_antisym.
  - intros x y z. apply cmp_trans.
Qed.

(** A [String] compares by its bytes. *)
Definition bytes_of (s : string) : list N := byte_of <$> list_ascii_of_string s.

#[global] Instance string_ord : RustOrd string := ord_by bytes_of.

#[global] Instance string_lawful : LawfulOrd string.
Proof.
  apply (ord_by_lawful bytes_of). intros s t E.
  assert (Inj (=) (=) byte_of) as Hinj.
  { intros a b Eb. rewrite <- (ascii_N_embedding a), <- (ascii_N_embedding b).
    exact (f_equal ascii_of_N Eb). }
  apply (list_fmap_eq_inj byte_of Hinj) in E.
  rewrite <- (string_of_list_ascii_of_string s), E. apply string_of_list_ascii_of_string.
Qed.

(** [derive(Ord)] through the view [f]. *)
Ltac derive_ord f :=
  let E := fresh in
  apply (ord_by_lawful f); intros [] [] E; lazy in E; congruence.

(** * Sorted vectors *)

Section sorted.
  Context {A : Type} `{RustOrd A}.

(** Each element below all that follow it. *)
Fixpoint strictly_sorted (l : list A) : bool :=
  match l with
  | [] => true
  | x :: r => match r with [] => true | y :: _ => lt_b x y end && strictly_sorted r
  end.

(** [Vec::sort], a stable sort; as a function it is insertion in order. *)
Fixpoint insert_sorted (x : A) (l : list A) : list A :=
  match l with
  | [] => [x]
  | y :: r => if le_b x y then x :: y :: r else y :: insert_sorted x r
  end.

Fixpoint sort (l : list A) : list A :=
  match l with [] => [] | x :: r => insert_sorted x (sort r) end.

(** [Vec::dedup]: drops an element equal to the one kept before it. *)
Fixpoint dedup `{EqDecision A} (l : list A) : list A :=
  match l with
  | [] => []
  | x :: r => match r with
              | [] => [x]
              | y :: _ => if decide (x = y) then dedup r else x :: dedup r
              end
  end.

(** [slice::binary_search] on a sorted slice: the index of the element, or
    the index that keeps the slice sorted if it is inserted there. *)
Fixpoint partition_point (x : A) (l : list A) : nat :=
  match l with
  | [] => 0
  | y :: r => if lt_b y x then S (partition_point x r) else 0
  end.

Definition binary_search (l : list A) (x : A) : result nat nat :=
  let i := partition_point x l in
  match l !! i with
  | Some y => match cmp y x with Eq => Ok i | _ => Err i end
  | None => Err i
  end.

(** [Vec::insert]. *)
Definition vec_insert (i : nat) (x : A) (l : list A) : list A := take i l ++ x :: drop i l.
End sorted.

(** [result.unwrap_or_else(|index| index)]. *)
Definition either_index (r : result nat nat) : nat :=
  match r with Ok i => i | Err i => i end.

Section sorted_laws.
  Context {A : Type} `{LawfulOrd A}.
  Implicit Types (x y : A) (l k : list A).

Lemma strictly_sorted_cons x l :
  strictly_sorted (x :: l) = true <->
  Forall (fun y => cmp x y = Lt) l /\ strictly_sorted l = true.
Proof.
  revert x; induction l as [|y l IH]; intros x; [naive_solver|].
  change (strictly_sorted (x :: y :: l)) with (lt_b x y && strictly_sorted (y :: l)).
  rewrite andb_true_iff, Forall_cons, lt_b_spec, IH. split.
  - intros (Hxy & Hy & Hl). split_and!; [done| |done|done].
    apply (Forall_impl _ _ _ Hy). intros z. by apply cmp_trans.
  - tauto.
Qed.

Lemma strictly_sorted_NoDup l : strictly_sorted l = true -> NoDup l.
Proof.
  induction l as [|x l IH]; [constructor|].
  rewrite strictly_sorted_cons. intros [Hx Hl]. constructor; [|auto].
  intros Hin. rewrite Forall_forall in Hx. by apply (lt_irrefl x), Hx.
Qed.

(** A strictly sorted vector is determined by its elements. *)
Lemma strictly_sorted_ext l k :
  strictly_sorted l = true -> strictly_sorted k = true ->
  (forall x, x ∈ l <-> x ∈ k) -> l = k.
Proof.
  revert k; induction l as [|x l IH]; intros k Hl Hk Hext.
  - destruct k as [|y k]; [done|]. exfalso.
    apply (not_elem_of_nil y), Hext. left.
  - destruct k as [|y k].
    { exfalso. apply (not_elem_of_nil x), Hext. left. }
    apply strictly_sorted_cons in Hl as [Hx Hl], Hk as [Hy Hk].
    rewrite Forall_forall in Hx, Hy.
    assert (x = y) as <-.
    { assert (x ∈ y :: k) as Hxk by (apply Hext; left).
      assert (y ∈ x :: l) as Hyl by (apply Hext; left).
      rewrite elem_of_cons in Hxk, Hyl.
      destruct Hxk as [|Hxk]; [done|]. destruct Hyl as [|Hyl]; [done|].
      exfalso. eapply lt_asym; [apply Hx, Hyl|apply Hy, Hxk]. }
    f_equal. apply IH; [done..|]. intros z. specialize (Hext z).
    rewrite !elem_of_cons in Hext. split; intros Hz.
    + destruct (proj1 Hext (or_intror Hz)) as [->|]; [|done].
      exfalso. by apply (lt_irrefl x), Hx.
    + destruct (proj2 Hext (or_intror Hz)) as [->|]; [|done].
      exfalso. by apply (lt_irrefl x), Hy.
Qed.

Lemma strictly_sorted_filter (P : A -> bool) l :
  strictly_sorted l = true -> strictly_sorted (List.filter P l) = true.
Proof.
  induction l as [|x l IH]; [done|]. rewrite strictly_sorted_cons. intros [Hx Hl].
  simpl. destruct (P x); [|auto]. apply strictly_sorted_cons. split; [|auto].
  rewrite Forall_forall in Hx |- *. intros y Hy.
  apply list_elem_of_In, filter_In in Hy as [Hy _]. by apply Hx, list_elem_of_In.
Qed.

(** Inserting a new element where [binary_search] says keeps the vector
    strictly sorted. *)
Lemma vec_insert_elem i x y l : y ∈ vec_insert i x l <-> y = x \/ y ∈ l.
Proof.
  unfold vec_insert. rewrite <- (take_drop i l) at 3.
  rewrite !elem_of_app, elem_of_cons. tauto.
Qed.

Lemma binary_search_index l x : either_index (binary_search l x) = partition_point x l.
Proof.
  unfold binary_search. destruct (l !! _) as [y|]; [|done].
  by destruct (cmp y x).
Qed.

Lemma strictly_sorted_insert x l :
  strictly_sorted l = true -> x ∉ l ->
  strictly_sorted (vec_insert (either_index (binary_search l x)) x l) = true.
Proof.
  rewrite binary_search_index. intros Hl Hx.
  induction l as [|y l IH]; [done|].
  apply strictly_sorted_cons in Hl as [Hy Hl]. apply not_elem_of_cons in Hx as [Hxy Hx].
  simpl partition_point. destruct (lt_b y x) eqn:E.
  - change (vec_insert (S (partition_point x l)) x (y :: l))
      with (y :: vec_insert (partition_point x l) x l).
    apply strictly_sorted_cons. split; [|auto].
    apply Forall_forall. intros z Hz. apply vec_insert_elem in Hz as [->|Hz].
    + by apply lt_b_spec.
    + rewrite Forall_forall in Hy. auto.
  - apply lt_b_false in E as [E| ->]; [|done].
    unfold vec_insert; simpl. change (strictly_sorted (x :: y :: l) = true).
    apply strictly_sorted_cons. split; [|by apply strictly_sorted_cons].
    constructor; [done|]. apply (Forall_impl _ _ _ Hy). intros z. by apply cmp_trans.
Qed.
End sorted_laws.

Section sort_laws.
  Context {A : Type} `{LawfulOrd A, EqDecision A}.
  Implicit Types (x y : A) (l : list A).

Definition weakly_sorted (l : list A) : Prop := StronglySorted (fun x y => cmp x y <> Gt) l.

Lemma insert_sorted_perm x l : insert_sorted x l ≡ₚ x :: l.
Proof.
  induction l as [|y l IH]; simpl; [done|]. destruct (le_b x y); [done|].
  rewrite IH. constructor.
Qed.

Lemma sort_perm l : sort l ≡ₚ l.
Proof. induction l as [|x l IH]; simpl; [done|]. by rewrite insert_sorted_perm, IH. Qed.

Lemma cmp_not_gt_trans x y z : cmp x y <> Gt -> cmp y z <> Gt -> cmp x z <> Gt.
Proof.
  rewrite !cmp_gt. intros Hxy Hyz Hzx.
  destruct (cmp x y) eqn:E; [|..].
  - by apply cmp_eq in E as ->.
  - by apply Hyz, (cmp_trans z x y).
  - by apply Hxy, cmp_gt.
Qed.

Lemma insert_sorted_sorted x l : weakly_sorted l -> weakly_sorted (insert_sorted x l).
Proof.
  induction 1 as [|y l Hl IH Hy]; simpl; [repeat constructor|].
  destruct (le_b x y) eqn:E.
  - assert (cmp x y <> Gt) as Hxy by (unfold le_b in E; by destruct (cmp x y)).
    constructor; [by constructor|]. constructor; [done|].
    apply (Forall_impl _ _ _ Hy). intros z. by apply cmp_not_gt_trans.
  - constructor; [done|]. rewrite insert_sorted_perm. constructor; [|done].
    unfold le_b in E. destruct (cmp x y) eqn:E'; [done..|].
    rewrite (cmp_antisym x y), E'. done.
Qed.

Lemma sort_sorted l : weakly_sorted (sort l).
Proof. induction l; simpl; [constructor|by apply insert_sorted_sorted]. Qed.

Lemma weakly_strictly_sorted l : weakly_sorted l -> NoDup l -> strictly_sorted l = true.
Proof.
  induction 1 as [|x l Hl IH Hx]; [done|]. intros [Hnin Hnd]%NoDup_cons.
  apply strictly_sorted_cons. split; [|auto].
  rewrite Forall_forall in Hx |- *. intros y Hy.
  destruct (cmp x y) eqn:E; [|done|by destruct (Hx y Hy)].
  apply cmp_eq in E as ->. done.
Qed.

Lemma insert_sorted_head x l :
  Forall (fun y => cmp x y = Lt) l -> insert_sorted x l = x :: l.
Proof. destruct 1 as [|y l Hy]; simpl; [done|]. unfold le_b. by rewrite Hy. Qed.

Lemma sort_strictly_sorted l : strictly_sorted l = true -> sort l = l.
Proof.
  induction l as [|x l IH]; [done|]. rewrite strictly_sorted_cons. intros [Hx Hl].
  simpl. rewrite IH by done. by apply insert_sorted_head.
Qed.

Lemma dedup_length_le l : length (dedup l) <= length l.
Proof.
  induction l as [|x [|y l] IH]; simpl in *; [done..|].
  destruct (decide (x = y)); simpl; lia.
Qed.

Lemma dedup_full l :
  weakly_sorted l -> length (dedup l) = length l -> NoDup l /\ dedup l = l.
Proof.
  induction 1 as [|x l Hl IH Hx]; [intros; split; [constructor|done]|].
  destruct l as [|y l]; [intros; split; [apply NoDup_singleton|done]|].
  change (dedup (x :: y :: l))
    with (if decide (x = y) then dedup (y :: l) else x :: dedup (y :: l)).
  pose proof (dedup_length_le (y :: l)) as Hle.
  destruct (decide (x = y)) as [_|Hxy]; intros Hlen; simpl length in *; [lia|].
  destruct IH as [Hnd Hd]; [lia|]. split; [|by rewrite Hd].
  apply NoDup_cons; split; [|done]. rewrite elem_of_cons. intros [|Hin]; [done|].
  inversion Hx as [|?? Hxy' _]; inversion Hl as [|?? _ Hy]; subst.
  rewrite Forall_forall in Hy. specialize (Hy x Hin).
  destruct (cmp x y) eqn:E; [by apply cmp_eq in E|..|done].
  by apply Hy, cmp_gt.
Qed.

Lemma dedup_strictly_sorted l : strictly_sorted l = true -> dedup l = l.
Proof.
  induction l as [|x [|y l] IH]; [done..|]. rewrite strictly_sorted_cons. intros [Hx Hl].
  change (dedup (x :: y :: l))
    with (if decide (x = y) then dedup (y :: l) else x :: dedup (y :: l)).
  inversion Hx as [|?? Hxy _]; subst.
  destruct (decide (x = y)) as [->|_]; [by apply lt_irrefl in Hxy|]. by rewrite IH.
Qed.
End sort_laws.
