(* ===== verification/Vocabulary.v ===== *)
(** What kinds of value promise the layers built on them: containment
    ([Contains] and its laws) and closed vocabularies, an enum with one spelling
    per variant, parsed by [ALL.iter().copied().find(|x| x.as_str() == text)]. *)

From S2P Require Export Prelude Text.

Class Contains (A : Type) := contains : A -> A -> bool.

(** Covering is reflexive and composes. *)
Class ContainsPreorder (A : Type) `{Contains A} : Prop := {
  contains_refl (a : A) : contains a a = true;
  contains_trans (a b c : A) :
    contains a b = true -> contains b c = true -> contains a c = true
}.

(** Two well-formed values that cover each other are the same value. *)
Class ContainsAntisym (A : Type) `{Contains A} (wf : A -> bool) : Prop :=
  contains_antisym (a b : A) :
    wf a = true -> wf b = true -> contains a b = true -> contains b a = true -> a = b.

(** A type whose containment is equality: the exact-match families. *)
Definition exact_contains {A} `{EqDecision A} : Contains A := fun a b => bool_decide (a = b).

Lemma exact_contains_preorder {A} `{EqDecision A} : @ContainsPreorder A exact_contains.
Proof.
  split; unfold contains, exact_contains; intros *; rewrite !bool_decide_eq_true; congruence.
Qed.

(** What a value covers, as a set: [denotes a] are the concrete things [a]
    stands for.  [ContainsSound] is the direction authority needs (a covered
    value stands for nothing more); [ContainsExact] adds that nothing is
    refused without cause. *)
Class ContainsSound (A R : Type) `{Contains A} (denotes : A -> R -> Prop) : Prop :=
  contains_sound (a b : A) (r : R) : contains a b = true -> denotes b r -> denotes a r.

Class ContainsComplete (A R : Type) `{Contains A} (denotes : A -> R -> Prop) : Prop :=
  contains_complete (a b : A) :
    (forall r, denotes b r -> denotes a r) -> contains a b = true.

Lemma contains_exact {A R} `{Contains A} (denotes : A -> R -> Prop)
    `{!ContainsSound A R denotes, !ContainsComplete A R denotes} (a b : A) :
  contains a b = true <-> forall r, denotes b r -> denotes a r.
Proof.
  split; [intros Hc r Hr; by eapply contains_sound|apply contains_complete].
Qed.

(** Exactness gives the preorder for free. *)
Lemma exact_preorder {A R} `{Contains A} (denotes : A -> R -> Prop)
    `{!ContainsSound A R denotes, !ContainsComplete A R denotes} : ContainsPreorder A.
Proof.
  split.
  - intros a. by apply (contains_exact denotes).
  - intros a b c. rewrite !(contains_exact denotes). naive_solver.
Qed.

(** [ALL] lists every variant and no two variants share a spelling. *)
Class Vocabulary {A : Type} (ALL : list A) (as_str : A -> string) : Prop := {
  vocabulary_complete (a : A) : a ∈ ALL;
  vocabulary_distinct : NoDup (as_str <$> ALL)
}.

Definition find_spelling {A} (ALL : list A) (as_str : A -> string) (text : string) : option A :=
  List.find (fun a => String.eqb (as_str a) text) ALL.

Lemma NoDup_fmap_elem_inj {A B} (f : A -> B) (l : list A) a b :
  NoDup (f <$> l) -> a ∈ l -> b ∈ l -> f a = f b -> a = b.
Proof.
  intros Hnd [i Hi]%list_elem_of_lookup [j Hj]%list_elem_of_lookup E.
  assert (i = j) as ->; [|congruence].
  apply (NoDup_lookup _ i j (f a) Hnd); rewrite list_lookup_fmap.
  - by rewrite Hi.
  - by rewrite Hj, E.
Qed.

Section vocabulary.
  Context {A : Type} (ALL : list A) (as_str : A -> string) `{!Vocabulary ALL as_str}.

Lemma as_str_inj a b : as_str a = as_str b -> a = b.
Proof. apply (NoDup_fmap_elem_inj _ _ _ _ vocabulary_distinct); apply vocabulary_complete. Qed.

Lemma find_spelling_Some text a : find_spelling ALL as_str text = Some a <-> as_str a = text.
Proof.
  unfold find_spelling. split.
  - intros [_ E]%find_some. by apply String.eqb_eq.
  - intros <-. destruct (List.find _ ALL) as [b|] eqn:E.
    + apply find_some in E as [_ E%String.eqb_eq]. f_equal. by apply as_str_inj.
    + pose proof (vocabulary_complete (as_str:=as_str) a) as Ha.
      eapply find_none in E; [|by apply list_elem_of_In].
      by rewrite String.eqb_refl in E.
Qed.

Lemma find_spelling_None text :
  find_spelling ALL as_str text = None <-> forall a, as_str a <> text.
Proof.
  split.
  - intros E a Ha. apply find_spelling_Some in Ha. congruence.
  - intros Hn. destruct (find_spelling ALL as_str text) as [a|] eqn:E; [|done].
    apply find_spelling_Some in E. by destruct (Hn a).
Qed.
End vocabulary.

(** A vocabulary's laws hold by inspection of its finite list. *)
Ltac solve_vocabulary :=
  split; [intros []; apply (bool_decide_unpack _); vm_compute; exact I
         |apply (bool_decide_unpack _); vm_compute; exact I].
