(* ===== verification/CapError.v ===== *)
(** The typed failures of the capability grammar ([capability/error.rs]) that
    mention no verb, and the eight constraint names. *)

From S2P Require Export Prelude Text Vocabulary.

(** The name of one of the eight constraints. *)
Module ConstraintName.
Inductive t : Set :=
| MaxBytes | NoSymlinkTargets | Methods | MaxRequests
| ArgvAllowlist | PrivacyClass | Depth | Fanout.

#[global] Instance eq_dec : EqDecision t.
Proof. solve_decision. Defined.

Definition ALL : list t :=
  [MaxBytes; NoSymlinkTargets; Methods; MaxRequests;
   ArgvAllowlist; PrivacyClass; Depth; Fanout].

Definition as_str (name : t) : string :=
  match name with
  | MaxBytes => "max_bytes"
  | NoSymlinkTargets => "no_symlink_targets"
  | Methods => "methods"
  | MaxRequests => "max_requests"
  | ArgvAllowlist => "argv_allowlist"
  | PrivacyClass => "privacy_class"
  | Depth => "depth"
  | Fanout => "fanout"
  end.

Definition parse (text : string) : option t := find_spelling ALL as_str text.

#[global] Instance vocabulary : Vocabulary ALL as_str.
Proof. solve_vocabulary. Qed.

Lemma constraint_name_parse_Some text name : parse text = Some name <-> as_str name = text.
Proof. apply find_spelling_Some, _. Qed.
End ConstraintName.

(** Why a constraint's value was rejected. *)
Module ValueError.
Inductive t : Set :=
| MalformedInteger | LeadingZero | IntegerOverflow | MalformedBoolean
| EmptySetMember | DuplicateSetMember | UnknownMethod | MalformedArgvToken
| UnknownPrivacyClass | Empty.

#[global] Instance eq_dec : EqDecision t.
Proof. solve_decision. Defined.
End ValueError.

(** Why a scope was rejected. *)
Module ScopeError.
Inductive t : Set :=
| MalformedHost | WildcardInTldPosition | MalformedPort | MalformedProviderModel
| MalformedPattern | MalformedChannelTarget | MalformedName | MalformedPath.

#[global] Instance eq_dec : EqDecision t.
Proof. solve_decision. Defined.
End ScopeError.

(** Why a declaration could not be promoted to a capability. *)
Module UnresolvedScope.
Inductive t : Set := CanonicalPath | ExecutableIdentity | ConfiguredSecret.

#[global] Instance eq_dec : EqDecision t.
Proof. solve_decision. Defined.
End UnresolvedScope.
