(* ===== verification/Host.v ===== *)
(** Host names and the patterns over them: [wire/host.rs] of dwk-proto, and
    the host, port and endpoint types of [capability/scope.rs]. *)

From S2P Require Export Prelude Text Order Vocabulary CapError.


(** * The shared label and host rules ([dwk_proto::wire::host]) *)

Definition MAX_LABEL_BYTES : nat := 63.
Definition MAX_LABELS : nat := 16.
Definition MAX_HOST_BYTES : nat := 253.

Definition is_label_byte (b : ascii) : bool := is_lower b || is_digit b || Ascii.eqb b "-".

Definition is_label (text : string) : bool :=
  negb (is_empty text)
  && (String.length text <=? MAX_LABEL_BYTES)
  && negb (starts_with_char "-" text)
  && negb (str_ends_with "-" text)
  && str_all is_label_byte text.

(** The loop of [is_host]: [labels] parts have been counted. *)
Fixpoint is_host_loop (labels : nat) (parts : list string) : bool :=
  match parts with
  | [] => true
  | label :: rest =>
      let labels := S labels in
      if (MAX_LABELS <? labels) || negb (is_label label) then false
      else is_host_loop labels rest
  end.

Definition is_host (text : string) : bool :=
  if is_empty text || (MAX_HOST_BYTES <? String.length text) then false
  else is_host_loop 0 (str_split "." text).

(** [host.rsplit('.').next()] is the part after the last dot, or all of it. *)
Definition last_label (host : string) : string :=
  match str_rsplit_once "." host with Some (_, l) => l | None => host end.

Definition is_address_literal (host : string) : bool :=
  let last := last_label host in
  let decimal := negb (is_empty last) && str_all is_digit last in
  let hex := is_some_and (str_strip_prefix "0x" last) (str_all is_hexdigit) in
  decimal || hex.

(** [is_host], without its loop. *)
Lemma is_host_loop_spec n parts :
  n <= MAX_LABELS ->
  is_host_loop n parts = true <->
  Forall (fun p => is_label p = true) parts /\ n + length parts <= MAX_LABELS.
Proof.
  revert n; induction parts as [|p parts IH]; intros n Hn; simpl.
  - split; [intros _; split; [constructor|lia]|done].
  - rewrite Forall_cons.
    destruct (MAX_LABELS <? S n) eqn:E; simpl.
    + apply Nat.ltb_lt in E. split; [done|lia].
    + apply Nat.ltb_ge in E. destruct (is_label p); simpl.
      * rewrite IH by lia. rewrite Nat.add_succ_r. simpl. tauto.
      * split; [done|]. by intros [[? _] _].
Qed.

Lemma is_host_spec text :
  is_host text = true <->
  text <> ""%string /\ String.length text <= MAX_HOST_BYTES /\
  Forall (fun p => is_label p = true) (str_split "." text) /\
  length (str_split "." text) <= MAX_LABELS.
Proof.
  unfold is_host. destruct (is_empty text) eqn:E1; simpl.
  { destruct text; [|done]. split; [done|]. by intros [? _]. }
  destruct (MAX_HOST_BYTES <? String.length text) eqn:E2.
  { apply Nat.ltb_lt in E2. split; [done|lia]. }
  apply Nat.ltb_ge in E2. rewrite is_host_loop_spec by (unfold MAX_LABELS; lia).
  assert (text <> ""%string) by (by intros ->). simpl. tauto.
Qed.

Lemma is_label_spec text :
  is_label text = true <->
  text <> ""%string /\ String.length text <= MAX_LABEL_BYTES /\
  starts_with_char "-" text = false /\ str_ends_with "-" text = false /\
  str_all is_label_byte text = true.
Proof.
  unfold is_label. rewrite !andb_true_iff, !negb_true_iff, Nat.leb_le.
  assert (is_empty text = false <-> text <> ""%string) by (by destruct text). tauto.
Qed.

(** A label carries none of the characters a pattern or a port is written with. *)
Lemma is_label_no c text :
  is_label_byte c = false -> is_label text = true -> str_contains c text = false.
Proof. intros Hc Ht. apply is_label_spec in Ht as (_ & _ & _ & _ & Ht). by apply (str_all_not_contains _ _ _ Hc). Qed.

Lemma is_host_no c text : is_label_byte c = false -> Ascii.eqb "." c = false ->
  is_host text = true -> str_contains c text = false.
Proof.
  intros Hc Hd (_ & _ & Hl & _)%is_host_spec. rewrite <- (str_join_split "." text).
  apply str_join_not_contains; [done|]. eapply Forall_impl; [exact Hl|]. intros p Hp. by apply is_label_no.
Qed.

(** * Host patterns ([capability/scope.rs]) *)

Module HostLabel.
Record t : Set := Make { as_str : string }.

Definition new (text : string) : option t := then_some (is_label text) (Make text).

Definition wf (l : t) : bool := is_label (as_str l).

#[global] Instance eq_dec : EqDecision t.
Proof. solve_decision. Defined.

#[global] Instance ord : RustOrd t := ord_by as_str.

#[global] Instance lawful : LawfulOrd t.
Proof. derive_ord as_str. Qed.

Lemma host_label_new_Some text l : new text = Some l <-> l = Make text /\ wf l = true.
Proof. unfold new, wf. rewrite then_some_Some. split; intros [? ?]; subst; auto. Qed.
End HostLabel.

Module HostPattern.
Inductive t : Set :=
| Exact (labels : list HostLabel.t)
| Wildcard (suffix : list HostLabel.t).

#[global] Instance eq_dec : EqDecision t.
Proof. solve_decision. Defined.

Definition view (p : t) : list HostLabel.t + list HostLabel.t :=
  match p with Exact l => inl l | Wildcard l => inr l end.

#[global] Instance ord : RustOrd t := ord_by view.

#[global] Instance lawful : LawfulOrd t.
Proof. derive_ord view. Qed.

Definition MAX_LABELS : nat := Host.MAX_LABELS.

(** The loop over the parts: [labels] have been pushed. *)
Fixpoint parse_labels (labels : list HostLabel.t) (parts : list string) :
    result (list HostLabel.t) ScopeError.t :=
  match parts with
  | [] => Ok labels
  | part :: rest =>
      let? l := ok_or (HostLabel.new part) ScopeError.MalformedHost in
      let labels := labels ++ [l] in
      if (MAX_LABELS <? length labels)%nat then Err ScopeError.MalformedHost
      else parse_labels labels rest
  end.

Definition parse (text : string) : result t ScopeError.t :=
  let '(wildcard, rest) :=
    match str_strip_prefix "*." text with
    | Some rest => (true, rest)
    | None => (false, text)
    end in
  if is_empty rest || str_contains "*" rest then Err ScopeError.MalformedHost
  else
    let? labels := parse_labels [] (str_split "." rest) in
    if wildcard : bool then
      if (length labels <? 2)%nat then Err ScopeError.WildcardInTldPosition
      else Ok (Wildcard labels)
    else Ok (Exact labels).

(** [host.iter().skip(start).eq(suffix.iter())] at the only possible start. *)
Definition ends_with_labels (host suffix : list HostLabel.t) : bool :=
  if (length host <? length suffix)%nat then false
  else bool_decide (drop (length host - length suffix) host = suffix).

Definition contains (self other : t) : bool :=
  match self, other with
  | Exact a, Exact b => bool_decide (a = b)
  | Exact _, Wildcard _ => false
  | Wildcard suffix, Exact host =>
      (length suffix <? length host)%nat && ends_with_labels host suffix
  | Wildcard suffix, Wildcard inner =>
      (length suffix <=? length inner)%nat && ends_with_labels inner suffix
  end.

Definition labels_text (labels : list HostLabel.t) : string :=
  str_join "." (HostLabel.as_str <$> labels).

Definition display (p : t) : string :=
  match p with
  | Exact labels => labels_text labels
  | Wildcard labels => "*." +:+ labels_text labels
  end.

(** What a parsed pattern is: 1 to 16 labels, at least two behind a wildcard. *)
Definition wf (p : t) : bool :=
  match p with
  | Exact l => forallb HostLabel.wf l && (0 <? length l)%nat && (length l <=? MAX_LABELS)%nat
  | Wildcard l =>
      forallb HostLabel.wf l && (1 <? length l)%nat && (length l <=? MAX_LABELS)%nat
  end.

(** The concrete hosts a pattern stands for. *)
Definition matches (p : t) (host : list HostLabel.t) : Prop :=
  match p with
  | Exact l => host = l
  | Wildcard l => exists front, front <> [] /\ host = front ++ l
  end.

Lemma ends_with_labels_spec host suffix :
  ends_with_labels host suffix = true <-> exists front, host = front ++ suffix.
Proof.
  unfold ends_with_labels. destruct (length host <? length suffix)%nat eqn:E.
  - apply Nat.ltb_lt in E. split; [done|]. intros [f ->].
    rewrite length_app in E. lia.
  - rewrite bool_decide_eq_true. split.
    + intros Hd. exists (take (length host - length suffix) host).
      rewrite <- (take_drop (length host - length suffix) host) at 1. by rewrite Hd.
    + intros [f ->]. rewrite length_app, Nat.add_sub. by rewrite drop_app_length.
Qed.

#[global] Instance has_contains : Contains t := contains.

#[global] Instance sound : ContainsSound t (list HostLabel.t) matches.
Proof.
  intros [a|a] [b|b] host; unfold Vocabulary.contains, has_contains; simpl.
  - rewrite bool_decide_eq_true. congruence.
  - done.
  - intros [Hlen Hend]%andb_true_iff ->. apply Nat.ltb_lt in Hlen.
    apply ends_with_labels_spec in Hend as [f ->]. exists f. split; [|done].
    intros ->. simpl in Hlen. lia.
  - intros [_ [f ->]%ends_with_labels_spec]%andb_true_iff (f' & Hf' & ->).
    exists (f' ++ f). split; [by destruct f'|]. by rewrite app_assoc.
Qed.

#[global] Instance complete : ContainsComplete t (list HostLabel.t) matches.
Proof.
  intros [a|a] [b|b] Hsub; unfold Vocabulary.contains, has_contains; simpl in *.
  - apply bool_decide_eq_true. symmetry; auto.
  - exfalso. pose (x := HostLabel.Make "a"); pose (y := HostLabel.Make "b").
    assert (x :: b = a) as H1 by (apply Hsub; exists [x]; done).
    assert (y :: b = a) as H2 by (apply Hsub; exists [y]; done).
    rewrite <- H1 in H2. discriminate H2.
  - destruct (Hsub b eq_refl) as (f & Hf & ->). apply andb_true_iff. split.
    + apply Nat.ltb_lt. rewrite length_app. destruct f; [done|simpl; lia].
    + apply ends_with_labels_spec. by exists f.
  - pose (x := HostLabel.Make "a").
    destruct (Hsub (x :: b)) as (f & Hf & E); [by exists [x]|].
    destruct f as [|y f]; [done|]. injection E as _ ->. apply andb_true_iff. split.
    + apply Nat.leb_le. rewrite length_app. lia.
    + apply ends_with_labels_spec. by exists f.
Qed.

#[global] Instance preorder : ContainsPreorder t := exact_preorder matches.

#[global] Instance antisym : ContainsAntisym t (fun _ => true).
Proof.
  intros [a|a] [b|b] _ _; unfold Vocabulary.contains, has_contains; simpl; try done.
  - by intros ->%bool_decide_eq_true.
  - intros [Hab _]%andb_true_iff [Hba Hend]%andb_true_iff.
    apply Nat.leb_le in Hab, Hba. apply ends_with_labels_spec in Hend as [f Hf].
    destruct f; [by subst|]. rewrite Hf in Hab. rewrite length_app in Hab. simpl in Hab. lia.
Qed.

(** ** Parsing and printing *)

Lemma parse_labels_Ok acc parts labels :
  parse_labels acc parts = Ok labels ->
  exists new, labels = acc ++ new /\ HostLabel.as_str <$> new = parts /\
    forallb HostLabel.wf new = true /\
    (length acc <= MAX_LABELS -> length labels <= MAX_LABELS).
Proof.
  revert acc; induction parts as [|part parts IH]; intros acc; simpl.
  - intros [= <-]. exists []. by rewrite app_nil_r.
  - destruct (HostLabel.new part) as [l|] eqn:El; [|done]. simpl.
    apply HostLabel.host_label_new_Some in El as [-> Hl].
    destruct (MAX_LABELS <? _)%nat eqn:Hlen; [done|]. apply Nat.ltb_ge in Hlen.
    intros (new & -> & <- & Hnew & Hle)%IH.
    exists (HostLabel.Make part :: new). rewrite <- app_assoc in *. simpl.
    rewrite Hl, Hnew. auto.
Qed.

Lemma parse_labels_display acc new :
  forallb HostLabel.wf new = true -> length acc + length new <= MAX_LABELS ->
  parse_labels acc (HostLabel.as_str <$> new) = Ok (acc ++ new).
Proof.
  revert acc; induction new as [|l new IH]; intros acc; simpl; [by rewrite app_nil_r|].
  intros [Hl Hnew]%andb_true_iff Hlen.
  rewrite (proj2 (HostLabel.host_label_new_Some (HostLabel.as_str l) l)) by by destruct l.
  simpl. rewrite length_app; simpl.
  destruct (MAX_LABELS <? length acc + 1)%nat eqn:E; [apply Nat.ltb_lt in E; lia|].
  rewrite IH, <- app_assoc; [done..|]. rewrite length_app; simpl; lia.
Qed.

Lemma labels_no c labels :
  is_label_byte c = false -> forallb HostLabel.wf labels = true ->
  Forall (fun p => str_contains c p = false) (HostLabel.as_str <$> labels).
Proof.
  intros Hc. induction labels as [|l labels IH]; simpl; [constructor|].
  intros [Hl Hls]%andb_true_iff. constructor; [|auto]. by apply is_label_no.
Qed.

(** Nothing outside a label's characters and the dot occurs in a host. *)
Lemma labels_text_no c labels :
  is_label_byte c = false -> Ascii.eqb "." c = false ->
  forallb HostLabel.wf labels = true -> str_contains c (labels_text labels) = false.
Proof. intros Hc Hd Hl. apply str_join_not_contains; [done|]. by apply labels_no. Qed.

Lemma labels_text_split labels :
  labels <> [] -> forallb HostLabel.wf labels = true ->
  str_split "." (labels_text labels) = HostLabel.as_str <$> labels.
Proof.
  intros Hne Hl. apply str_split_join; [by destruct labels|by apply labels_no].
Qed.

Lemma labels_text_nonempty labels :
  labels <> [] -> forallb HostLabel.wf labels = true -> is_empty (labels_text labels) = false.
Proof.
  destruct labels as [|l labels]; [done|]. intros _ [Hl _]%andb_true_iff.
  apply is_label_spec in Hl as [Hl _]. unfold labels_text; simpl.
  destruct (HostLabel.as_str l) eqn:E; [done|]. by destruct labels.
Qed.

Lemma host_pattern_parse_display_text text p : parse text = Ok p -> display p = text /\ wf p = true.
Proof.
  unfold parse.
  destruct (match str_strip_prefix "*." text with Some r => (true, r) | None => (false, text) end)
    as [w rest] eqn:Ew.
  assert (text = (if w then "*." else "") +:+ rest) as ->.
  { destruct (str_strip_prefix "*." text) eqn:E; injection Ew as <- <-; [|done].
    by apply str_strip_prefix_Some in E. }
  clear Ew. destruct (is_empty rest || str_contains "*" rest); [done|].
  destruct (parse_labels [] _) as [labels|] eqn:El; [|done].
  apply parse_labels_Ok in El as (new & -> & Htext & Hwf & Hlen). simpl in *.
  assert (labels_text new = rest) as Hrest.
  { unfold labels_text. by rewrite Htext, str_join_split. }
  assert (length new <= MAX_LABELS) as Hmax by (apply Hlen; unfold MAX_LABELS; lia).
  assert (new <> []) as Hne.
  { intros ->. symmetry in Htext. by apply str_split_not_nil in Htext. }
  destruct w; [destruct (length new <? 2)%nat eqn:E2; [done|]|]; intros [= <-]; simpl;
    rewrite Hrest, Hwf; (split; [done|]); apply andb_true_iff; split;
    try (by apply Nat.leb_le); apply Nat.ltb_lt.
  - apply Nat.ltb_ge in E2. lia.
  - destruct new; [done|simpl; lia].
Qed.

Lemma host_pattern_parse_display p : wf p = true -> parse (display p) = Ok p.
Proof.
  destruct p as [labels|labels]; simpl; intros H; bool_to_prop;
    repeat match goal with
    | H : (_ <? _)%nat = true |- _ => apply Nat.ltb_lt in H
    | H : (_ <=? _)%nat = true |- _ => apply Nat.leb_le in H end;
    (assert (labels <> []) by (intros ->; simpl in *; lia)); unfold parse.
  - destruct (str_strip_prefix "*." (labels_text labels)) as [r|] eqn:E.
    { apply str_strip_prefix_Some in E.
      pose proof (labels_text_no "*" labels eq_refl eq_refl) as Hn.
      rewrite E in Hn. by discriminate Hn. }
    rewrite labels_text_nonempty, labels_text_no, labels_text_split by done.
    by rewrite parse_labels_display.
  - simpl. rewrite labels_text_nonempty, labels_text_no, labels_text_split by done.
    rewrite parse_labels_display by done. simpl.
    destruct (length labels <? 2)%nat eqn:E; [|done]. apply Nat.ltb_lt in E. lia.
Qed.

Lemma display_no c p :
  is_label_byte c = false -> Ascii.eqb "." c = false -> Ascii.eqb "*" c = false ->
  wf p = true -> str_contains c (display p) = false.
Proof.
  intros Hc Hd Hs. destruct p as [l|l]; simpl; intros H; bool_to_prop;
    rewrite ?Hs, ?Hd; by apply labels_text_no.
Qed.
End HostPattern.
