(* ===== verification/Resource.v ===== *)
(** Resource identities ([resource/mod.rs]): canonical paths, SHA-256 digests
    and executable identities, which authority is compared with. *)

From S2P Require Export Prelude Text Order Vocabulary.

Module PathComponent.
Record t : Set := Make { as_str : string }.

Definition MAX_BYTES : nat := 255.

Definition wf_text (name : string) : bool :=
  negb (is_empty name)
  && negb (String.eqb name ".")
  && negb (String.eqb name "..")
  && (String.length name <=? MAX_BYTES)%nat
  && negb (str_contains "/" name)
  && negb (str_contains "\" name)
  && negb (str_contains "000" name).

Definition new (name : string) : option t := then_some (wf_text name) (Make name).

Definition wf (c : t) : bool := wf_text (as_str c).

#[global] Instance eq_dec : EqDecision t.
Proof. solve_decision. Defined.

#[global] Instance ord : RustOrd t := ord_by as_str.

#[global] Instance lawful : LawfulOrd t.
Proof. derive_ord as_str. Qed.

Lemma path_component_new_Some name c : new name = Some c <-> c = Make name /\ wf c = true.
Proof. unfold new, wf. rewrite then_some_Some. split; intros [? ?]; subst; auto. Qed.
End PathComponent.

Module CanonicalPath.
Record t : Set := Make { components : list PathComponent.t }.

Definition MAX_COMPONENTS : nat := 64.

Definition root : t := Make [].

Fixpoint new_components (names : list string) : option (list PathComponent.t) :=
  match names with
  | [] => Some []
  | name :: rest =>
      c ← PathComponent.new name; cs ← new_components rest; Some (c :: cs)
  end.

Definition from_components (names : list string) : option t :=
  if (MAX_COMPONENTS <? length names)%nat then None
  else out ← new_components names; Some (Make out).

(** [self.components.iter().zip(other.components.iter()).all(|(a, b)| a == b)] *)
Fixpoint zip_all_eq (l k : list PathComponent.t) : bool :=
  match l, k with
  | a :: l, b :: k => bool_decide (a = b) && zip_all_eq l k
  | _, _ => true
  end.

Definition contains (self other : t) : bool :=
  (length (components self) <=? length (components other))%nat
  && zip_all_eq (components self) (components other).

Definition display (p : t) : string :=
  match components p with
  | [] => "/"
  | cs => List.fold_right
            (fun c acc => String "/" (PathComponent.as_str c +:+ acc)) EmptyString cs
  end.

Definition wf (p : t) : bool :=
  forallb PathComponent.wf (components p)
  && (length (components p) <=? MAX_COMPONENTS)%nat.

#[global] Instance eq_dec : EqDecision t.
Proof. solve_decision. Defined.

#[global] Instance ord : RustOrd t := ord_by components.

#[global] Instance lawful : LawfulOrd t.
Proof. derive_ord components. Qed.

(** What a path covers: itself and everything below it. *)
Definition below (p q : t) : Prop := components p `prefix_of` components q.

Lemma canonical_path_contains_spec p q : contains p q = true <-> below p q.
Proof.
  unfold contains, below. destruct p as [l], q as [k]; simpl.
  revert k; induction l as [|a l IH]; intros k; simpl.
  - split; [intros _; apply prefix_nil|done].
  - destruct k as [|b k]; simpl.
    + split; [done|]. by intros ?%prefix_nil_not.
    + specialize (IH k). rewrite andb_true_iff in IH |- *.
      rewrite andb_true_iff, bool_decide_eq_true. split.
      * intros (Hlen & <- & Hall). by apply prefix_cons, IH.
      * intros Hp. pose proof (prefix_cons_inv_1 _ _ _ _ Hp) as ->.
        apply prefix_cons_inv_2, IH in Hp as [? ?]. auto.
Qed.

#[global] Instance has_contains : Contains t := contains.

#[global] Instance sound : ContainsSound t t below.
Proof. intros p q r Hc%canonical_path_contains_spec Hr. unfold below in *. by etrans. Qed.

#[global] Instance complete : ContainsComplete t t below.
Proof. intros p q Hsub. apply canonical_path_contains_spec, Hsub. unfold below. reflexivity. Qed.

#[global] Instance preorder : ContainsPreorder t := exact_preorder below.

#[global] Instance antisym : ContainsAntisym t (fun _ => true).
Proof.
  intros [l] [k] _ _ H1%canonical_path_contains_spec H2%canonical_path_contains_spec. f_equal.
  by apply (anti_symm prefix).
Qed.

(** [from_components] accepts exactly the well-formed names, and keeps them. *)
Lemma new_components_Some names cs :
  new_components names = Some cs <->
  PathComponent.as_str <$> cs = names /\ forallb PathComponent.wf cs = true.
Proof.
  revert cs; induction names as [|n names IH]; intros cs; simpl.
  - split; [by intros [= <-]|]. intros [E _]. by destruct cs.
  - destruct (PathComponent.new n) as [c|] eqn:En; simpl.
    + apply PathComponent.path_component_new_Some in En as [-> Hc]. split.
      * destruct (new_components names) as [cs'|]; [|done]. intros [= <-].
        destruct (proj1 (IH cs') eq_refl) as [<- Hw]. simpl. by rewrite Hc, Hw.
      * intros [E Hw]. destruct cs as [|c cs]; [done|]. injection E as <- E.
        simpl in Hw. apply andb_true_iff in Hw as [_ Hw].
        rewrite (proj2 (IH cs) (conj E Hw)). by destruct c.
    + split; [done|]. intros [E Hw]. destruct cs as [|c cs]; [done|].
      injection E as <- _. simpl in Hw. apply andb_true_iff in Hw as [Hc _].
      rewrite (proj2 (PathComponent.path_component_new_Some _ c)) in En; [done|by destruct c].
Qed.

Lemma from_components_Some names p :
  from_components names = Some p <->
  PathComponent.as_str <$> components p = names /\ wf p = true.
Proof.
  unfold from_components, wf. split.
  - destruct (_ <? _)%nat eqn:E; [done|]. apply Nat.ltb_ge in E.
    destruct (new_components names) as [cs|] eqn:Ec; [|done]. intros [= <-].
    apply new_components_Some in Ec as [<- Hw]. rewrite length_fmap in E.
    simpl. rewrite Hw. split; [done|]. by apply Nat.leb_le.
  - destruct p as [cs]; simpl. intros [<- [Hw Hlen%Nat.leb_le]%andb_true_iff].
    rewrite length_fmap. apply Nat.ltb_ge in Hlen as ->.
    by rewrite (proj2 (new_components_Some _ cs) (conj eq_refl Hw)).
Qed.
End CanonicalPath.

Module Sha256Digest.
(** Thirty-two bytes. *)
Record t : Set := Make { as_bytes : list N }.

Definition from_bytes (bytes : list N) : t := Make bytes.

Definition wf (d : t) : bool :=
  (length (as_bytes d) =? 32)%nat && forallb (fun b => b <? 256)%N (as_bytes d).

Definition hex_digit (byte : ascii) : option N :=
  if in_range 48 57 byte then Some (byte_of byte - 48)%N
  else if in_range 97 102 byte then Some (byte_of byte - 97 + 10)%N
  else None.

(** The loop over the [n] bytes still to fill, reading [source]. *)
Fixpoint parse_bytes (n : nat) (source : string) : option (list N) :=
  match n with
  | O => Some []
  | S n =>
      match source with
      | String h (String l rest) =>
          hi ← hex_digit h; lo ← hex_digit l;
          bytes ← parse_bytes n rest; Some ((hi * 16 + lo)%N :: bytes)
      | _ => None
      end
  end.

Definition parse_hex (text : string) : option t :=
  if negb (String.length text =? 64)%nat then None
  else bytes ← parse_bytes 32 text; Some (Make bytes).

(** One nibble as [{:x}] writes it. *)
Definition nibble (n : N) : ascii :=
  if (n <? 10)%N then ascii_of_N (48 + n) else ascii_of_N (87 + n).

(** [{byte:02x}] for each byte. *)
Definition display (d : t) : string :=
  List.fold_right
    (fun b acc => String (nibble (b / 16)) (String (nibble (b mod 16)) acc))
    EmptyString (as_bytes d).

#[global] Instance eq_dec : EqDecision t.
Proof. solve_decision. Defined.

#[global] Instance ord : RustOrd t := ord_by as_bytes.

#[global] Instance lawful : LawfulOrd t.
Proof. derive_ord as_bytes. Qed.

(** ** Hexadecimal *)

Lemma hex_digit_Some c n :
  hex_digit c = Some n -> (n < 16)%N /\ nibble n = c.
Proof.
  intros E.
  assert (is_none_or (hex_digit c) (fun n => (n <? 16)%N && Ascii.eqb (nibble n) c) = true) as Hc.
  { clear E. revert c. apply (ascii_forall (fun c => is_none_or (hex_digit c) (fun n => (n <? 16)%N && Ascii.eqb (nibble n) c))).
    by vm_compute. }
  rewrite E in Hc. apply andb_true_iff in Hc as [?%N.ltb_lt ?%Ascii.eqb_eq]. done.
Qed.

Lemma hex_digit_nibble n : (n < 16)%N -> hex_digit (nibble n) = Some n.
Proof.
  intros Hn. apply (bool_decide_eq_true (hex_digit (nibble n) = Some n)).
  revert n Hn. by apply (N_forall_below _ 16).
Qed.

Lemma parse_bytes_Some n text bytes :
  parse_bytes n text = Some bytes -> String.length text = 2 * n ->
  display (Make bytes) = text /\ length bytes = n /\
  forallb (fun b => b <? 256)%N bytes = true.
Proof.
  revert text bytes; induction n as [|n IH]; intros text bytes; simpl.
  - intros [= <-] Hlen. by destruct text.
  - destruct text as [|h [|l rest]]; [done..|].
    destruct (hex_digit h) as [hi|] eqn:Eh; [|done]. simpl.
    destruct (hex_digit l) as [lo|] eqn:El; [|done]. simpl.
    destruct (parse_bytes n rest) as [bs|] eqn:Eb; [|done]. intros [= <-] Hlen.
    destruct (IH rest bs Eb) as (Hd & <- & Hf); [lia|].
    apply hex_digit_Some in Eh as [Hhi <-], El as [Hlo <-].
    unfold display in *; simpl in *. rewrite Hd, Hf, andb_true_r.
    replace ((hi * 16 + lo) / 16)%N with hi by (apply (N.div_unique _ 16 hi lo); lia).
    replace ((hi * 16 + lo) mod 16)%N with lo by (apply (N.mod_unique _ 16 hi lo); lia).
    split_and!; [done|done|]. apply N.ltb_lt. lia.
Qed.

Lemma parse_bytes_display bytes :
  forallb (fun b => b <? 256)%N bytes = true ->
  parse_bytes (length bytes) (display (Make bytes)) = Some bytes.
Proof.
  induction bytes as [|b bytes IH]; [done|].
  intros [Hb%N.ltb_lt Hbs]%andb_true_iff. unfold display in *; simpl in *.
  assert (b / 16 < 16)%N as Hhi by (apply N.Div0.div_lt_upper_bound; lia).
  assert (b mod 16 < 16)%N as Hlo by (apply N.mod_lt; lia).
  rewrite !hex_digit_nibble by done. simpl. rewrite IH by done. simpl.
  do 2 f_equal. pose proof (N.div_mod b 16). lia.
Qed.

Lemma length_display d : String.length (display d) = 2 * length (as_bytes d).
Proof. destruct d as [bs]. unfold display; simpl. induction bs; simpl; lia. Qed.
End Sha256Digest.

Module ExecutableIdentity.
Record t : Set := new { path : CanonicalPath.t; digest : Sha256Digest.t }.

Definition display (e : t) : string :=
  CanonicalPath.display (path e) +:+ String "@" (Sha256Digest.display (digest e)).

#[global] Instance eq_dec : EqDecision t.
Proof. solve_decision. Defined.

Definition view (e : t) : CanonicalPath.t * Sha256Digest.t := (path e, digest e).

#[global] Instance ord : RustOrd t := ord_by view.

#[global] Instance lawful : LawfulOrd t.
Proof. derive_ord view. Qed.
End ExecutableIdentity.
