(* ===== verification/Names.v ===== *)
(** The scope values of [capability/scope.rs] that are not hosts: ports and
    endpoints, declared paths, exact names, patterns, provider/model pairs and
    channel targets; each with its parser, its printer and what it covers. *)

From S2P Require Export Prelude Text Order Vocabulary CapError Host.

(** The covers relation of a pair of components is the product of theirs. *)
Section products.
  Context {A B R S : Type} `{Contains A, Contains B}.
  Context (dA : A -> R -> Prop) (dB : B -> S -> Prop).

Definition pair_contains (a a' : A) (b b' : B) : bool := contains a a' && contains b b'.

Lemma pair_sound `{!ContainsSound A R dA, !ContainsSound B S dB} a a' b b' r s :
  pair_contains a a' b b' = true -> dA a' r -> dB b' s -> dA a r /\ dB b s.
Proof.
  intros [Ha Hb]%andb_true_iff Hr Hs.
  split; [by apply (contains_sound a a')|by apply (contains_sound b b')].
Qed.

Lemma pair_complete `{!ContainsComplete A R dA, !ContainsComplete B S dB} a a' b b' :
  (exists r, dA a' r) -> (exists s, dB b' s) ->
  (forall r s, dA a' r -> dB b' s -> dA a r /\ dB b s) -> pair_contains a a' b b' = true.
Proof.
  intros [r0 Hr0] [s0 Hs0] Hsub. apply andb_true_iff. split.
  - apply (contains_complete a a'). intros r Hr. by apply (Hsub r s0).
  - apply (contains_complete b b'). intros s Hs. by apply (Hsub r0 s).
Qed.
End products.

(** * Ports *)

(** Strict decimal [u16]: digits only, no sign, no leading zero, no overflow. *)
Definition parse_u16_strict (text : string) : option N :=
  if is_empty text || negb (str_all is_digit text) then None
  else if (1 <? String.length text)%nat && starts_with_char "0" text then None
  else parse_uint U16_MAX text.

Lemma parse_u16_strict_Some text n :
  parse_u16_strict text = Some n <-> show_N n = text /\ (n <= U16_MAX)%N.
Proof.
  unfold parse_u16_strict. split.
  - destruct (is_empty text || _) eqn:E1; [done|]. destruct (_ && _) eqn:E2; [done|].
    intros Hp. split; [|by eapply parse_uint_bound].
    apply (parse_uint_canonical U16_MAX); [|done]. unfold canonical_decimal.
    apply orb_false_iff in E1 as [-> ->%negb_false_iff]. by rewrite E2.
  - intros [<- Hn]. pose proof (show_N_canonical n) as Hc. unfold canonical_decimal in Hc.
    bool_to_prop. rewrite show_N_not_empty, show_N_digits. simpl.
    match goal with H : ?x && ?y = false |- context [?x && ?y] => rewrite H end.
    by apply parse_uint_show.
Qed.

Module PortSpec.
Inductive t : Set := Any | Port (port : N).

#[global] Instance eq_dec : EqDecision t.
Proof. solve_decision. Defined.

Definition view (p : t) : unit + N := match p with Any => inl () | Port n => inr n end.

#[global] Instance ord : RustOrd t := ord_by view.

#[global] Instance lawful : LawfulOrd t.
Proof. derive_ord view. Qed.

Definition contains (self other : t) : bool :=
  match self, other with
  | Any, _ => true
  | Port _, Any => false
  | Port a, Port b => (a =? b)%N
  end.

(** A [u16]. *)
Definition wf (p : t) : bool := match p with Any => true | Port n => (n <=? U16_MAX)%N end.

Definition matches (p : t) (port : N) : Prop :=
  match p with Any => True | Port n => port = n end.

#[global] Instance has_contains : Contains t := contains.

#[global] Instance sound : ContainsSound t N matches.
Proof.
  intros [|a] [|b] n; unfold Vocabulary.contains, has_contains; simpl; try done.
  by intros ->%N.eqb_eq.
Qed.

#[global] Instance complete : ContainsComplete t N matches.
Proof.
  intros [|a] [|b]; unfold Vocabulary.contains, has_contains; simpl; intros Hsub; try done.
  - pose proof (Hsub a I). pose proof (Hsub (a + 1)%N I). lia.
  - apply N.eqb_eq. symmetry. auto.
Qed.

#[global] Instance preorder : ContainsPreorder t := exact_preorder matches.

#[global] Instance antisym : ContainsAntisym t (fun _ => true).
Proof.
  intros [|a] [|b] _ _; unfold Vocabulary.contains, has_contains; simpl; try done.
  by intros ->%N.eqb_eq.
Qed.
End PortSpec.

(** * Endpoints *)

Module Endpoint.
Record t : Set := new { host : HostPattern.t; port : PortSpec.t }.

#[global] Instance eq_dec : EqDecision t.
Proof. solve_decision. Defined.

Definition view (e : t) : HostPattern.t * PortSpec.t := (host e, port e).

#[global] Instance ord : RustOrd t := ord_by view.

#[global] Instance lawful : LawfulOrd t.
Proof. derive_ord view. Qed.

Definition parse (text : string) : result t ScopeError.t :=
  match str_split_once ":" text with
  | None => let? h := HostPattern.parse text in Ok (new h PortSpec.Any)
  | Some (host, port) =>
      if str_contains ":" port then Err ScopeError.MalformedPort
      else
        let? number := ok_or (parse_u16_strict port) ScopeError.MalformedPort in
        if (number =? 0)%N then Err ScopeError.MalformedPort
        else let? h := HostPattern.parse host in Ok (new h (PortSpec.Port number))
  end.

Definition contains (self other : t) : bool :=
  HostPattern.contains (host self) (host other) && PortSpec.contains (port self) (port other).

Definition display (e : t) : string :=
  match port e with
  | PortSpec.Any => HostPattern.display (host e)
  | PortSpec.Port p => HostPattern.display (host e) +:+ String ":" (show_N p)
  end.

Definition wf (e : t) : bool := HostPattern.wf (host e) && PortSpec.wf (port e).

Definition matches (e : t) (target : list HostLabel.t * N) : Prop :=
  HostPattern.matches (host e) target.1 /\ PortSpec.matches (port e) target.2.

#[global] Instance has_contains : Contains t := contains.

#[global] Instance sound : ContainsSound t (list HostLabel.t * N) matches.
Proof.
  intros [h p] [h' p'] [n q] Hc [Hn Hq].
  exact (pair_sound HostPattern.matches PortSpec.matches h h' p p' n q Hc Hn Hq).
Qed.

Lemma host_inhabited h : exists n, HostPattern.matches h n.
Proof.
  destruct h as [l|l]; [by exists l|]. exists (HostLabel.Make "a" :: l). by exists [HostLabel.Make "a"].
Qed.

Lemma port_inhabited p : exists n, PortSpec.matches p n.
Proof. destruct p as [|n]; [by exists 0%N|by exists n]. Qed.

#[global] Instance complete : ContainsComplete t (list HostLabel.t * N) matches.
Proof.
  intros [h p] [h' p'] Hsub.
  apply (pair_complete HostPattern.matches PortSpec.matches h h' p p');
    [apply host_inhabited|apply port_inhabited|].
  intros n q Hn Hq. exact (Hsub (n, q) (conj Hn Hq)).
Qed.

#[global] Instance preorder : ContainsPreorder t := exact_preorder matches.

#[global] Instance antisym : ContainsAntisym t (fun _ => true).
Proof.
  intros [h p] [h' p'] _ _ [Hh Hp]%andb_true_iff [Hh' Hp']%andb_true_iff; simpl in *.
  f_equal; [by apply HostPattern.antisym|by apply PortSpec.antisym].
Qed.

Lemma endpoint_parse_display_text text e :
  parse text = Ok e -> display e = text /\ wf e = true /\ port e <> PortSpec.Port 0.
Proof.
  unfold parse. destruct (str_split_once ":" text) as [[h p]|] eqn:Es.
  - apply str_split_once_Some in Es as [-> _].
    destruct (str_contains ":" p); [done|].
    destruct (parse_u16_strict p) as [n|] eqn:Ep; [|done]; simpl.
    destruct (N.eqb_spec n 0) as [|Hn]; [done|].
    destruct (HostPattern.parse h) as [hp|] eqn:Eh; [|done]. intros [= <-].
    apply HostPattern.host_pattern_parse_display_text in Eh as [<- Hw].
    apply parse_u16_strict_Some in Ep as [<- Hle].
    unfold wf; simpl. rewrite Hw. apply N.leb_le in Hle as ->. split_and!; [done..|congruence].
  - destruct (HostPattern.parse text) as [hp|] eqn:Eh; [|done]. intros [= <-].
    apply HostPattern.host_pattern_parse_display_text in Eh as [<- Hw].
    unfold wf; simpl. by rewrite Hw.
Qed.
End Endpoint.

(** * Declared paths *)

Module DeclaredPath.
Record t : Set := Make { as_str : string }.

Definition MAX_CHARS : nat := 384.

Definition wf_text (text : string) : bool :=
  negb (is_empty text)
  && starts_with_char "/" text
  && (chars_count text <=? MAX_CHARS)%nat
  && negb (str_contains "000" text)
  && negb (str_contains "?" text).

Definition new (text : string) : option t := then_some (wf_text text) (Make text).

Definition wf (p : t) : bool := wf_text (as_str p).

#[global] Instance eq_dec : EqDecision t.
Proof. solve_decision. Defined.

#[global] Instance ord : RustOrd t := ord_by as_str.

#[global] Instance lawful : LawfulOrd t.
Proof. derive_ord as_str. Qed.

Lemma declared_path_new_Some text p : new text = Some p <-> p = Make text /\ wf p = true.
Proof. unfold new, wf. rewrite then_some_Some. split; intros [? ?]; subst; auto. Qed.
End DeclaredPath.

(** * Exact names *)

Module Label.
Record t : Set := Make { as_str : string }.

Definition MAX_CHARS : nat := 128.

Definition is_char (c : ascii) : bool :=
  is_alphanumeric c || one_of ["."; "_"; "-"; "<"; ">"; "@"; "+"]%char c.

Definition wf_text (text : string) : bool :=
  negb (is_empty text) && (chars_count text <=? MAX_CHARS)%nat && str_all is_char text.

Definition new (text : string) : option t := then_some (wf_text text) (Make text).

Definition wf (l : t) : bool := wf_text (as_str l).

#[global] Instance eq_dec : EqDecision t.
Proof. solve_decision. Defined.

#[global] Instance ord : RustOrd t := ord_by as_str.

#[global] Instance lawful : LawfulOrd t.
Proof. derive_ord as_str. Qed.

Lemma label_new_Some text l : new text = Some l <-> l = Make text /\ wf l = true.
Proof. unfold new, wf. rewrite then_some_Some. split; intros [? ?]; subst; auto. Qed.

Lemma wf_no c l : is_char c = false -> wf l = true -> str_contains c (as_str l) = false.
Proof. intros Hc Hl. unfold wf, wf_text in Hl. bool_to_prop. by apply (str_all_not_contains is_char). Qed.
End Label.

(** * Patterns *)

Module Pattern.
Inductive t : Set :=
| Literal (text : string)
| Prefix (text : string).

Definition MAX_CHARS : nat := 128.

Definition is_char (c : ascii) : bool :=
  is_alphanumeric c || one_of ["."; "_"; "-"; "/"]%char c.

(** What [parse] asks of the text before a trailing [*]. *)
Definition body_ok (wildcard : bool) (body : string) : bool :=
  (wildcard || negb (is_empty body))
  && (chars_count body <=? MAX_CHARS)%nat
  && negb (str_contains "*" body)
  && str_all is_char body.

Definition parse (text : string) : result t ScopeError.t :=
  let '(body, wildcard) :=
    match str_strip_suffix "*" text with
    | Some body => (body, true)
    | None => (text, false)
    end in
  if negb (body_ok wildcard body) then Err ScopeError.MalformedPattern
  else Ok (if wildcard : bool then Prefix body else Literal body).

Definition contains (self other : t) : bool :=
  match self, other with
  | Literal a, Literal b => String.eqb a b
  | Literal _, Prefix _ => false
  | Prefix p, Literal l => str_starts_with p l
  | Prefix p, Prefix q => str_starts_with p q
  end.

Definition display (p : t) : string :=
  match p with Literal body => body | Prefix body => body +:+ "*" end.

Definition wf (p : t) : bool :=
  match p with Literal body => body_ok false body | Prefix body => body_ok true body end.

#[global] Instance eq_dec : EqDecision t.
Proof. solve_decision. Defined.

Definition view (p : t) : string + string :=
  match p with Literal b => inl b | Prefix b => inr b end.

#[global] Instance ord : RustOrd t := ord_by view.

#[global] Instance lawful : LawfulOrd t.
Proof. derive_ord view. Qed.

(** The names a pattern stands for. *)
Definition matches (p : t) (name : string) : Prop :=
  match p with
  | Literal l => name = l
  | Prefix p => exists rest, name = p +:+ rest
  end.

#[global] Instance has_contains : Contains t := contains.

#[global] Instance sound : ContainsSound t string matches.
Proof.
  intros [a|a] [b|b] n; unfold Vocabulary.contains, has_contains; simpl; try done.
  - by intros ->%String.eqb_eq.
  - rewrite str_starts_with_spec. by intros ? ->.
  - rewrite str_starts_with_spec. intros [r ->] [r' ->].
    exists (r +:+ r'). apply string_app_assoc.
Qed.

#[global] Instance complete : ContainsComplete t string matches.
Proof.
  intros [a|a] [b|b] Hsub; unfold Vocabulary.contains, has_contains; simpl in *.
  - apply String.eqb_eq. symmetry; auto.
  - exfalso. assert (b +:+ "a" = a) as H1 by eauto.
    assert (b +:+ "b" = a) as H2 by eauto. rewrite <- H1 in H2.
    revert H2; clear. induction b; simpl; intros [= E]; auto.
  - apply str_starts_with_spec. auto.
  - apply str_starts_with_spec, Hsub. exists ""%string. by rewrite string_app_nil_r.
Qed.

#[global] Instance preorder : ContainsPreorder t := exact_preorder matches.

#[global] Instance antisym : ContainsAntisym t (fun _ => true).
Proof.
  intros [a|a] [b|b] _ _; unfold Vocabulary.contains, has_contains; simpl; try done.
  - by intros ->%String.eqb_eq.
  - intros. f_equal. by apply str_starts_with_antisym.
Qed.

Lemma pattern_inhabited p : exists n, matches p n.
Proof. destruct p as [l|l]; [by exists l|]. exists (l +:+ ""), "". done. Qed.

Lemma pattern_parse_display_text text p : parse text = Ok p -> display p = text /\ wf p = true.
Proof.
  unfold parse. destruct (str_strip_suffix "*" text) as [body|] eqn:E.
  - apply str_strip_suffix_Some in E as ->.
    destruct (negb (body_ok true body)) eqn:Eb; [done|]. intros [= <-].
    by apply negb_false_iff in Eb.
  - destruct (negb (body_ok false text)) eqn:Eb; [done|]. intros [= <-].
    by apply negb_false_iff in Eb.
Qed.

Lemma pattern_parse_display p : wf p = true -> parse (display p) = Ok p.
Proof.
  destruct p as [body|body]; simpl; intros Hw; unfold parse.
  - destruct (str_strip_suffix "*" body) as [r|] eqn:E; [|by rewrite Hw].
    exfalso. apply str_strip_suffix_Some in E as ->. unfold body_ok in Hw. bool_to_prop.
    match goal with H : str_contains _ _ = false |- _ => rewrite str_contains_app in H end.
    bool_to_prop. done.
  - rewrite (proj2 (str_strip_suffix_Some _ _ body) eq_refl). by rewrite Hw.
Qed.
End Pattern.

(** * Providers and models *)

Module ProviderModel.
Record t : Set := new { provider : Label.t; model : Pattern.t }.

Definition parse (text : string) : result t ScopeError.t :=
  let? (provider, model) :=
    ok_or (str_split_once "/" text) ScopeError.MalformedProviderModel in
  if str_contains "/" model then Err ScopeError.MalformedProviderModel
  else
    let? provider := ok_or (Label.new provider) ScopeError.MalformedProviderModel in
    if str_contains "*" (Label.as_str provider) then Err ScopeError.MalformedProviderModel
    else let? model := Pattern.parse model in Ok (new provider model).

Definition contains (self other : t) : bool :=
  bool_decide (provider self = provider other) && Pattern.contains (model self) (model other).

Definition display (p : t) : string :=
  Label.as_str (provider p) +:+ String "/" (Pattern.display (model p)).

Definition wf (p : t) : bool := Label.wf (provider p) && Pattern.wf (model p).

#[global] Instance eq_dec : EqDecision t.
Proof. solve_decision. Defined.

Definition view (p : t) : Label.t * Pattern.t := (provider p, model p).

#[global] Instance ord : RustOrd t := ord_by view.

#[global] Instance lawful : LawfulOrd t.
Proof. derive_ord view. Qed.

(** The pairs of a provider and a model name it stands for. *)
Definition matches (p : t) (target : Label.t * string) : Prop :=
  target.1 = provider p /\ Pattern.matches (model p) target.2.

#[global] Instance has_contains : Contains t := contains.

#[global] Instance sound : ContainsSound t (Label.t * string) matches.
Proof.
  intros [p m] [p' m'] [q n]. unfold Vocabulary.contains, has_contains, contains, matches; simpl.
  intros [Hp Hm]%andb_true_iff [-> Hn]. apply bool_decide_eq_true in Hp as ->.
  split; [done|]. by apply (contains_sound m m').
Qed.

#[global] Instance complete : ContainsComplete t (Label.t * string) matches.
Proof.
  intros [p m] [p' m'] Hsub. unfold Vocabulary.contains, has_contains, contains; simpl.
  destruct (Pattern.pattern_inhabited m') as [n0 Hn0].
  apply andb_true_iff; split.
  - apply bool_decide_eq_true. by destruct (Hsub (p', n0)) as [? _].
  - apply (contains_complete m m'). intros n Hn. by destruct (Hsub (p', n)).
Qed.

#[global] Instance preorder : ContainsPreorder t := exact_preorder matches.

#[global] Instance antisym : ContainsAntisym t (fun _ => true).
Proof.
  intros [p m] [p' m'] _ _ [Hp Hm]%andb_true_iff [_ Hm']%andb_true_iff; simpl in *.
  apply bool_decide_eq_true in Hp as ->. f_equal. by apply Pattern.antisym.
Qed.

Lemma provider_model_parse_display_text text p :
  parse text = Ok p -> display p = text /\ wf p = true.
Proof.
  unfold parse. destruct (str_split_once "/" text) as [[a b]|] eqn:E; simpl; [|done].
  apply str_split_once_Some in E as [-> _].
  destruct (str_contains "/" b); [done|].
  destruct (Label.new a) as [l|] eqn:El; simpl; [|done].
  apply Label.label_new_Some in El as [-> Hl]. destruct (str_contains "*" _); [done|].
  destruct (Pattern.parse b) as [m|] eqn:Em; [|done]. intros [= <-].
  apply Pattern.pattern_parse_display_text in Em as [<- Hm].
  unfold wf; simpl. by rewrite Hl, Hm.
Qed.
End ProviderModel.

(** * Channels and destinations *)

Module ChannelTarget.
Record t : Set := new { channel : Label.t; destination : Label.t }.

Definition parse (text : string) : result t ScopeError.t :=
  let? (channel, destination) :=
    ok_or (str_split_once ":" text) ScopeError.MalformedChannelTarget in
  let? channel := ok_or (Label.new channel) ScopeError.MalformedChannelTarget in
  let? destination := ok_or (Label.new destination) ScopeError.MalformedChannelTarget in
  Ok (new channel destination).

Definition display (c : t) : string :=
  Label.as_str (channel c) +:+ String ":" (Label.as_str (destination c)).

Definition wf (c : t) : bool := Label.wf (channel c) && Label.wf (destination c).

#[global] Instance eq_dec : EqDecision t.
Proof. solve_decision. Defined.

Definition view (c : t) : Label.t * Label.t := (channel c, destination c).

#[global] Instance ord : RustOrd t := ord_by view.

#[global] Instance lawful : LawfulOrd t.
Proof. derive_ord view. Qed.

Lemma channel_target_parse_display_text text c :
  parse text = Ok c -> display c = text /\ wf c = true.
Proof.
  unfold parse. destruct (str_split_once ":" text) as [[a b]|] eqn:E; simpl; [|done].
  apply str_split_once_Some in E as [-> _].
  destruct (Label.new a) as [l|] eqn:El; simpl; [|done].
  destruct (Label.new b) as [m|] eqn:Em; simpl; [|done]. intros [= <-].
  apply Label.label_new_Some in El as [-> Hl], Em as [-> Hm].
  unfold wf; simpl. by rewrite Hl, Hm.
Qed.
End ChannelTarget.
