(* ===== verification/Verbs.v ===== *)
(** The closed verb vocabulary ([capability/verb.rs]): namespaces, actions and
    the pairs the architecture defines, with the scope family of each. *)

From S2P Require Export Prelude Text Order Vocabulary.

(** Which shape of scope a namespace takes ([capability/scope.rs]). *)
Module ScopeFamily.
Inductive t : Set :=
| Path | Executable | Endpoint | CredentialHandle | ProviderModel | Domain
| ServerId | AgentProfile | MemoryScope | Intent | ArtifactScope | ChannelTarget.

#[global] Instance eq_dec : EqDecision t.
Proof. solve_decision. Defined.

Definition needs_resolution (self : t) : bool :=
  match self with Path | Executable => true | _ => false end.
End ScopeFamily.

Module Namespace.
Inductive t : Set :=
| Fs | Process | Network | Secret | Model | Browser
| Mcp | Agent | Memory | Scheduler | Artifact | Channel.

#[global] Instance eq_dec : EqDecision t.
Proof. solve_decision. Defined.

Definition ALL : list t :=
  [Fs; Process; Network; Secret; Model; Browser;
   Mcp; Agent; Memory; Scheduler; Artifact; Channel].

Definition as_str (n : t) : string :=
  match n with
  | Fs => "fs" | Process => "process" | Network => "network" | Secret => "secret"
  | Model => "model" | Browser => "browser" | Mcp => "mcp" | Agent => "agent"
  | Memory => "memory" | Scheduler => "scheduler" | Artifact => "artifact"
  | Channel => "channel"
  end.

Definition parse (text : string) : option t := find_spelling ALL as_str text.

Definition scope_family (n : t) : ScopeFamily.t :=
  match n with
  | Fs => ScopeFamily.Path
  | Process => ScopeFamily.Executable
  | Network => ScopeFamily.Endpoint
  | Secret => ScopeFamily.CredentialHandle
  | Model => ScopeFamily.ProviderModel
  | Browser => ScopeFamily.Domain
  | Mcp => ScopeFamily.ServerId
  | Agent => ScopeFamily.AgentProfile
  | Memory => ScopeFamily.MemoryScope
  | Scheduler => ScopeFamily.Intent
  | Artifact => ScopeFamily.ArtifactScope
  | Channel => ScopeFamily.ChannelTarget
  end.

(** The position in the declaration, which [derive(Ord)] compares. *)
Definition discriminant (n : t) : N :=
  match n with
  | Fs => 0 | Process => 1 | Network => 2 | Secret => 3 | Model => 4 | Browser => 5
  | Mcp => 6 | Agent => 7 | Memory => 8 | Scheduler => 9 | Artifact => 10 | Channel => 11
  end.

#[global] Instance vocabulary : Vocabulary ALL as_str.
Proof. solve_vocabulary. Qed.

#[global] Instance ord : RustOrd t := ord_by discriminant.

#[global] Instance lawful : LawfulOrd t.
Proof. derive_ord discriminant. Qed.

Lemma namespace_parse_Some text n : parse text = Some n <-> as_str n = text.
Proof. apply find_spelling_Some, _. Qed.
End Namespace.

Module Action.
Inductive t : Set :=
| Read | Write | Create | Delete | List | Stat | ExecBit
| Exec | Signal | Inspect | Http | Https | Tcp | Dns
| Use | Call | Download | Upload | CredentialEntry
| Spawn | Message | Cancel | Propose | Promote | Modify | Export | Send.

#[global] Instance eq_dec : EqDecision t.
Proof. solve_decision. Defined.

Definition as_str (a : t) : string :=
  match a with
  | Read => "read" | Write => "write" | Create => "create" | Delete => "delete"
  | List => "list" | Stat => "stat" | ExecBit => "exec_bit" | Exec => "exec"
  | Signal => "signal" | Inspect => "inspect" | Http => "http" | Https => "https"
  | Tcp => "tcp" | Dns => "dns" | Use => "use" | Call => "call"
  | Download => "download" | Upload => "upload"
  | CredentialEntry => "credential_entry" | Spawn => "spawn" | Message => "message"
  | Cancel => "cancel" | Propose => "propose" | Promote => "promote"
  | Modify => "modify" | Export => "export" | Send => "send"
  end.

Definition discriminant (a : t) : N :=
  match a with
  | Read => 0 | Write => 1 | Create => 2 | Delete => 3 | List => 4 | Stat => 5
  | ExecBit => 6 | Exec => 7 | Signal => 8 | Inspect => 9 | Http => 10 | Https => 11
  | Tcp => 12 | Dns => 13 | Use => 14 | Call => 15 | Download => 16 | Upload => 17
  | CredentialEntry => 18 | Spawn => 19 | Message => 20 | Cancel => 21
  | Propose => 22 | Promote => 23 | Modify => 24 | Export => 25 | Send => 26
  end.

#[global] Instance ord : RustOrd t := ord_by discriminant.

#[global] Instance lawful : LawfulOrd t.
Proof. derive_ord discriminant. Qed.

(** Spellings are distinct, and none carries a separator of the grammar. *)
Lemma action_as_str_inj a b : as_str a = as_str b -> a = b.
Proof. by destruct a, b. Qed.
End Action.

Module Verb.
Record t : Set := of_ { namespace : Namespace.t; action : Action.t }.

#[global] Instance eq_dec : EqDecision t.
Proof. solve_decision. Defined.

(** Every verb the architecture defines, in canonical order. *)
Definition ALL : list t :=
  [of_ Namespace.Fs Action.Read; of_ Namespace.Fs Action.Write;
   of_ Namespace.Fs Action.Create; of_ Namespace.Fs Action.Delete;
   of_ Namespace.Fs Action.List; of_ Namespace.Fs Action.Stat;
   of_ Namespace.Fs Action.ExecBit;
   of_ Namespace.Process Action.Exec; of_ Namespace.Process Action.Signal;
   of_ Namespace.Process Action.Inspect;
   of_ Namespace.Network Action.Http; of_ Namespace.Network Action.Https;
   of_ Namespace.Network Action.Tcp; of_ Namespace.Network Action.Dns;
   of_ Namespace.Secret Action.Use; of_ Namespace.Model Action.Call;
   of_ Namespace.Browser Action.Use; of_ Namespace.Browser Action.Download;
   of_ Namespace.Browser Action.Upload; of_ Namespace.Browser Action.CredentialEntry;
   of_ Namespace.Mcp Action.Use;
   of_ Namespace.Agent Action.Spawn; of_ Namespace.Agent Action.Message;
   of_ Namespace.Agent Action.Cancel;
   of_ Namespace.Memory Action.Read; of_ Namespace.Memory Action.Propose;
   of_ Namespace.Memory Action.Promote;
   of_ Namespace.Scheduler Action.Create; of_ Namespace.Scheduler Action.Modify;
   of_ Namespace.Scheduler Action.Delete;
   of_ Namespace.Artifact Action.Read; of_ Namespace.Artifact Action.Create;
   of_ Namespace.Artifact Action.Export;
   of_ Namespace.Channel Action.Send].

Definition new (ns : Namespace.t) (a : Action.t) : option t :=
  List.find (fun v => bool_decide (namespace v = ns) && bool_decide (action v = a)) ALL.

Definition parse_action (ns : Namespace.t) (text : string) : option t :=
  List.find
    (fun v => bool_decide (namespace v = ns) && String.eqb (Action.as_str (action v)) text) ALL.

Definition scope_family (v : t) : ScopeFamily.t := Namespace.scope_family (namespace v).

Definition display (v : t) : string :=
  Namespace.as_str (namespace v) +:+ String "." (Action.as_str (action v)).

(** A verb only [ALL] can yield. *)
Definition wf (v : t) : bool := bool_decide (v ∈ ALL).

Definition view (v : t) : Namespace.t * Action.t := (namespace v, action v).

#[global] Instance ord : RustOrd t := ord_by view.

#[global] Instance lawful : LawfulOrd t.
Proof. derive_ord view. Qed.

Lemma parse_action_Some ns text v :
  parse_action ns text = Some v ->
  namespace v = ns /\ Action.as_str (action v) = text /\ wf v = true.
Proof.
  intros [Hin Hv]%find_some. bool_to_prop.
  split_and!; [done|by apply String.eqb_eq|].
  apply bool_decide_eq_true. by apply list_elem_of_In.
Qed.

Lemma parse_action_display v :
  wf v = true -> parse_action (namespace v) (Action.as_str (action v)) = Some v.
Proof.
  intros Hv%bool_decide_eq_true. unfold parse_action.
  destruct (List.find _ ALL) as [w|] eqn:E.
  - apply find_some in E as [_ E]. bool_to_prop.
    apply String.eqb_eq, Action.action_as_str_inj in H0. by destruct v, w; simplify_eq/=.
  - eapply find_none in E; [|by apply list_elem_of_In].
    by rewrite bool_decide_eq_true_2, String.eqb_refl in E.
Qed.

(** [new] accepts exactly the listed pairs. *)
Lemma verb_new_Some ns a v : new ns a = Some v <-> v = of_ ns a /\ wf v = true.
Proof.
  unfold new, wf. split.
  - intros [Hin Hv]%find_some. bool_to_prop. subst. split; [by destruct v|].
    apply bool_decide_eq_true. by apply list_elem_of_In.
  - intros [-> Hv%bool_decide_eq_true]. destruct (List.find _ ALL) as [w|] eqn:E.
    + apply find_some in E as [_ E]. bool_to_prop. by destruct w; simplify_eq/=.
    + eapply find_none in E; [|by apply list_elem_of_In]. simpl in E.
      by rewrite !bool_decide_eq_true_2 in E.
Qed.

(** A printed verb has exactly one dot, and neither [:] nor [?]. *)
Lemma display_shape v :
  str_contains "." (Namespace.as_str (namespace v)) = false /\
  str_contains "." (Action.as_str (action v)) = false /\
  str_contains ":" (display v) = false /\ str_contains "?" (display v) = false /\
  is_empty (Namespace.as_str (namespace v)) = false /\
  is_empty (Action.as_str (action v)) = false.
Proof. by destruct v as [[] []]. Qed.
End Verb.
