(* ===== verification/Constraints.v ===== *)
(** The eight constraints, closed ([capability/constraint.rs]): their values,
    the set a capability carries, when one set is no wider than another, and
    which verbs each constraint attaches to. *)

From S2P Require Export Prelude Text Order Vocabulary CapError Verbs.

(** * Strict integers *)

Definition parse_u64_strict (text : string) : result N ValueError.t :=
  if is_empty text || negb (str_all is_digit text) then Err ValueError.MalformedInteger
  else if (1 <? String.length text)%nat && starts_with_char "0" text
       then Err ValueError.LeadingZero
  else ok_or (parse_uint U64_MAX text) ValueError.IntegerOverflow.

(** [uN::try_from(u64)]. *)
Definition try_from (max n : N) : result N ValueError.t :=
  if (n <=? max)%N then Ok n else Err ValueError.IntegerOverflow.

Definition parse_u32_strict (text : string) : result N ValueError.t :=
  let? n := parse_u64_strict text in try_from U32_MAX n.

Definition parse_u16_strict (text : string) : result N ValueError.t :=
  let? n := parse_u64_strict text in try_from U16_MAX n.

(** * Privacy class *)

Module PrivacyClass.
Inductive t : Set := LocalOnly | VendorOk | Any.

#[global] Instance eq_dec : EqDecision t.
Proof. solve_decision. Defined.

Definition ALL : list t := [LocalOnly; VendorOk; Any].

Definition as_str (c : t) : string :=
  match c with LocalOnly => "LOCAL_ONLY" | VendorOk => "VENDOR_OK" | Any => "ANY" end.

Definition parse (text : string) : option t := find_spelling ALL as_str text.

Definition discriminant (c : t) : N :=
  match c with LocalOnly => 0 | VendorOk => 1 | Any => 2 end.

#[global] Instance vocabulary : Vocabulary ALL as_str.
Proof. solve_vocabulary. Qed.

#[global] Instance ord : RustOrd t := ord_by discriminant.

#[global] Instance lawful : LawfulOrd t.
Proof. derive_ord discriminant. Qed.

(** [self <= parent] in the declaration order. *)
Definition narrower_or_equal (self parent : t) : bool := le_b self parent.

Lemma privacy_class_parse_Some text c : parse text = Some c <-> as_str c = text.
Proof. apply find_spelling_Some, _. Qed.
End PrivacyClass.

(** * HTTP methods *)

Module Method.
Inductive t : Set := Get | Head | Post | Put | Patch | Delete | Options.

#[global] Instance eq_dec : EqDecision t.
Proof. solve_decision. Defined.

Definition ALL : list t := [Get; Head; Post; Put; Patch; Delete; Options].

Definition as_str (m : t) : string :=
  match m with
  | Get => "GET" | Head => "HEAD" | Post => "POST" | Put => "PUT"
  | Patch => "PATCH" | Delete => "DELETE" | Options => "OPTIONS"
  end.

Definition parse (text : string) : option t := find_spelling ALL as_str text.

(** One bit per method, in a [u8]. *)
Definition bit (m : t) : N :=
  match m with
  | Get => 1 | Head => 2 | Post => 4 | Put => 8
  | Patch => 16 | Delete => 32 | Options => 64
  end.

#[global] Instance vocabulary : Vocabulary ALL as_str.
Proof. solve_vocabulary. Qed.

Lemma method_parse_Some text m : parse text = Some m <-> as_str m = text.
Proof. apply find_spelling_Some, _. Qed.
End Method.

Module MethodSet.
(** A bitset in a [u8]. *)
Record t : Set := Make { bits : N }.

#[global] Instance eq_dec : EqDecision t.
Proof. solve_decision. Defined.

#[global] Instance ord : RustOrd t := ord_by bits.

#[global] Instance lawful : LawfulOrd t.
Proof. derive_ord bits. Qed.

Definition new (methods : list Method.t) : option t :=
  let bits := fold_left (fun acc m => N.lor acc (Method.bit m)) methods 0%N in
  then_some (negb (bits =? 0)%N) (Make bits).

Definition has (self : t) (m : Method.t) : bool :=
  negb (N.land (bits self) (Method.bit m) =? 0)%N.

Definition methods (self : t) : list Method.t := List.filter (has self) Method.ALL.

(** [self.0 & !parent.0 == 0]: [N.ldiff] is the and with the complement
    ([narrower_or_equal_u8] says so at eight bits). *)
Definition narrower_or_equal (self parent : t) : bool :=
  (N.ldiff (bits self) (bits parent) =? 0)%N.

(** The loop over the parts: [bits] are set. *)
Fixpoint parse_parts (bits : N) (parts : list string) : result t ValueError.t :=
  match parts with
  | [] => Ok (Make bits)
  | part :: rest =>
      if is_empty part then Err ValueError.EmptySetMember
      else
        let? method := ok_or (Method.parse part) ValueError.UnknownMethod in
        if negb (N.land bits (Method.bit method) =? 0)%N
        then Err ValueError.DuplicateSetMember
        else parse_parts (N.lor bits (Method.bit method)) rest
  end.

Definition parse (text : string) : result t ValueError.t := parse_parts 0 (str_split "," text).

Definition display (s : t) : string := str_join "," (Method.as_str <$> methods s).

(** Non-empty, and only the seven bits the methods use. *)
Definition wf (s : t) : bool := (0 <? bits s)%N && (bits s <? 128)%N.

Lemma narrower_or_equal_u8 s p :
  (bits s < 256)%N ->
  narrower_or_equal s p = (N.land (bits s) (N.lnot (bits p) 8) =? 0)%N.
Proof.
  intros Hs. unfold narrower_or_equal. destruct (N.eq_dec (bits s) 0%N) as [->|Hs0]; [done|].
  rewrite (N.ldiff_land_low _ _ 8); [done|]. apply N.log2_lt_pow2; [lia|done].
Qed.

Lemma narrower_bits s p :
  narrower_or_equal s p = true <->
  forall i, N.testbit (bits s) i = true -> N.testbit (bits p) i = true.
Proof.
  unfold narrower_or_equal. rewrite N.eqb_eq. split.
  - intros E i Hi. apply (f_equal (fun n => N.testbit n i)) in E.
    rewrite N.ldiff_spec, N.bits_0, Hi in E. by destruct (N.testbit (bits p) i).
  - intros Hsub. apply N.bits_inj_0. intros i. rewrite N.ldiff_spec.
    destruct (N.testbit (bits s) i) eqn:Hi; [|done]. by rewrite (Hsub i Hi).
Qed.

Lemma method_set_narrower_refl s : narrower_or_equal s s = true.
Proof. by apply narrower_bits. Qed.

Lemma method_set_narrower_trans a b c :
  narrower_or_equal a b = true -> narrower_or_equal b c = true ->
  narrower_or_equal a c = true.
Proof. rewrite !narrower_bits. auto. Qed.

Lemma method_set_narrower_antisym a b :
  narrower_or_equal a b = true -> narrower_or_equal b a = true -> a = b.
Proof.
  rewrite !narrower_bits. intros Hab Hba. destruct a as [a], b as [b]; simpl in *.
  f_equal. apply N.bits_inj. intros i.
  destruct (N.testbit a i) eqn:Ea, (N.testbit b i) eqn:Eb; try done.
  - by rewrite Hab in Eb.
  - by rewrite Hba in Ea.
Qed.

(** A narrower set has no method the wider one lacks. *)
Lemma narrower_has s p m :
  narrower_or_equal s p = true -> has s m = true -> has p m = true.
Proof.
  rewrite narrower_bits. unfold has. rewrite !negb_true_iff, !N.eqb_neq.
  intros Hsub Hs Hp. apply Hs, N.bits_inj_0. intros i. rewrite N.land_spec.
  apply (f_equal (fun n => N.testbit n i)) in Hp. rewrite N.land_spec, N.bits_0 in Hp.
  destruct (N.testbit (bits s) i) eqn:Ei; [|done]. by rewrite (Hsub i Ei) in Hp.
Qed.
End MethodSet.

(** * The argv allowlist *)

Module ArgvToken.
Record t : Set := Make { as_str : string }.

Definition MAX_CHARS : nat := 64.

Definition is_char (c : ascii) : bool := is_alphanumeric c || one_of ["_"; "."; "-"]%char c.

Definition wf_text (text : string) : bool :=
  negb (is_empty text) && (chars_count text <=? MAX_CHARS)%nat && str_all is_char text.

Definition new (text : string) : option t := then_some (wf_text text) (Make text).

Definition wf (token : t) : bool := wf_text (as_str token).

#[global] Instance eq_dec : EqDecision t.
Proof. solve_decision. Defined.

#[global] Instance ord : RustOrd t := ord_by as_str.

#[global] Instance lawful : LawfulOrd t.
Proof. derive_ord as_str. Qed.

Lemma argv_token_new_Some text token : new text = Some token <-> token = Make text /\ wf token = true.
Proof. unfold new, wf. rewrite then_some_Some. split; intros [? ?]; subst; auto. Qed.
End ArgvToken.

Module ArgvAllowlist.
Record t : Set := Make { tokens : list ArgvToken.t }.

Definition MAX_TOKENS : nat := 64.

#[global] Instance eq_dec : EqDecision t.
Proof. solve_decision. Defined.

#[global] Instance ord : RustOrd t := ord_by tokens.

#[global] Instance lawful : LawfulOrd t.
Proof. derive_ord tokens. Qed.

Definition is_nil {A} (l : list A) : bool := match l with [] => true | _ => false end.

Definition new (tokens : list ArgvToken.t) : option t :=
  if is_nil tokens || (MAX_TOKENS <? length tokens)%nat then None
  else
    let tokens := sort tokens in
    let before := length tokens in
    let tokens := dedup tokens in
    then_some (length tokens =? before)%nat (Make tokens).

Definition narrower_or_equal (self parent : t) : bool :=
  forallb (fun token => bool_decide (token ∈ tokens parent)) (tokens self).

(** The loop over the parts: [tokens] have been pushed. *)
Fixpoint parse_parts (tokens : list ArgvToken.t) (parts : list string) :
    result (list ArgvToken.t) ValueError.t :=
  match parts with
  | [] => Ok tokens
  | part :: rest =>
      if is_empty part then Err ValueError.EmptySetMember
      else
        let? token := ok_or (ArgvToken.new part) ValueError.MalformedArgvToken in
        if bool_decide (token ∈ tokens) then Err ValueError.DuplicateSetMember
        else parse_parts (tokens ++ [token]) rest
  end.

Definition parse (text : string) : result t ValueError.t :=
  let? tokens := parse_parts [] (str_split "," text) in
  ok_or (new tokens) ValueError.MalformedArgvToken.

Definition display (a : t) : string := str_join "," (ArgvToken.as_str <$> tokens a).

Lemma narrower_spec a p :
  narrower_or_equal a p = true <-> forall token, token ∈ tokens a -> token ∈ tokens p.
Proof.
  unfold narrower_or_equal. rewrite forallb_forall. split; intros Hsub token Hin.
  - apply list_elem_of_In in Hin. by apply (bool_decide_eq_true (token ∈ tokens p)), Hsub.
  - apply bool_decide_eq_true, Hsub. by apply list_elem_of_In.
Qed.

Definition wf (a : t) : bool :=
  negb (is_nil (tokens a)) && (length (tokens a) <=? MAX_TOKENS)%nat
  && strictly_sorted (tokens a) && forallb ArgvToken.wf (tokens a).
End ArgvAllowlist.

(** * [no_symlink_targets] *)

Module NoSymlinkTargets.
Inductive t : Set := Make.

#[global] Instance eq_dec : EqDecision t.
Proof. solve_decision. Defined.

Definition view (_ : t) : unit := tt.

#[global] Instance ord : RustOrd t := ord_by view.

#[global] Instance lawful : LawfulOrd t.
Proof. derive_ord view. Qed.

Definition parse (text : string) : result t ValueError.t :=
  if String.eqb text "true" then Ok Make else Err ValueError.MalformedBoolean.

Definition display (_ : t) : string := "true".
End NoSymlinkTargets.

(** * The set *)

(** [Option::or]. *)
Definition opt_or {A} (a b : option A) : option A :=
  match a with Some _ => a | None => b end.

(** One dimension of [narrower_or_equal]. *)
Definition narrower {A} (child parent : option A) (ok : A -> A -> bool) : bool :=
  match child, parent with
  | _, None => true
  | None, Some _ => false
  | Some c, Some p => ok c p
  end.

Section narrower.
  Context {A : Type} (ok : A -> A -> bool).

Lemma narrower_refl o : (forall a, ok a a = true) -> narrower o o ok = true.
Proof. destruct o; simpl; auto. Qed.

Lemma narrower_trans a b c :
  (forall x y z, ok x y = true -> ok y z = true -> ok x z = true) ->
  narrower a b ok = true -> narrower b c ok = true -> narrower a c ok = true.
Proof. intros Ht. destruct a, b, c; simpl; try done; eauto. Qed.

Lemma narrower_antisym a b :
  (forall x y, a = Some x -> b = Some y -> ok x y = true -> ok y x = true -> x = y) ->
  narrower a b ok = true -> narrower b a ok = true -> a = b.
Proof. intros Ha. destruct a, b; simpl; try done. intros. f_equal; auto. Qed.

(** A use a narrower limit allows is allowed by the wider one; an absent limit
    allows everything. *)
Lemma narrower_allows (allows : A -> Prop) c p :
  (forall x y, ok x y = true -> allows x -> allows y) ->
  narrower c p ok = true ->
  (forall x, c = Some x -> allows x) -> forall y, p = Some y -> allows y.
Proof. intros Hok Hn Hc y ->. destruct c as [x|]; [|done]. eauto. Qed.
End narrower.

Module ConstraintSet.
Record t : Set := Make {
  max_bytes : option N;
  no_symlink_targets : option NoSymlinkTargets.t;
  methods : option MethodSet.t;
  max_requests : option N;
  argv_allowlist : option ArgvAllowlist.t;
  privacy_class : option PrivacyClass.t;
  depth : option N;
  fanout : option N
}.

#[global] Instance eq_dec : EqDecision t.
Proof. solve_decision. Defined.

Definition view (c : t) :=
  (max_bytes c, (no_symlink_targets c, (methods c, (max_requests c,
    (argv_allowlist c, (privacy_class c, (depth c, fanout c))))))).

#[global] Instance ord : RustOrd t := ord_by view.

#[global] Instance lawful : LawfulOrd t.
Proof. derive_ord view. Qed.

(** [Default]: no constraint. *)
Definition unconstrained : t := Make None None None None None None None None.

Definition is_empty (c : t) : bool := bool_decide (c = unconstrained).

Definition narrower_or_equal (self parent : t) : bool :=
  narrower (max_bytes self) (max_bytes parent) N.leb
  && narrower (no_symlink_targets self) (no_symlink_targets parent)
       (fun c p => bool_decide (c = p))
  && narrower (methods self) (methods parent) MethodSet.narrower_or_equal
  && narrower (max_requests self) (max_requests parent) N.leb
  && narrower (argv_allowlist self) (argv_allowlist parent) ArgvAllowlist.narrower_or_equal
  && narrower (privacy_class self) (privacy_class parent) PrivacyClass.narrower_or_equal
  && narrower (depth self) (depth parent) N.leb
  && narrower (fanout self) (fanout parent) N.leb.

Definition has (self : t) (name : ConstraintName.t) : bool :=
  match name with
  | ConstraintName.MaxBytes => is_some (max_bytes self)
  | ConstraintName.NoSymlinkTargets => is_some (no_symlink_targets self)
  | ConstraintName.Methods => is_some (methods self)
  | ConstraintName.MaxRequests => is_some (max_requests self)
  | ConstraintName.ArgvAllowlist => is_some (argv_allowlist self)
  | ConstraintName.PrivacyClass => is_some (privacy_class self)
  | ConstraintName.Depth => is_some (depth self)
  | ConstraintName.Fanout => is_some (fanout self)
  end.

Definition present (self : t) : list ConstraintName.t :=
  List.filter (has self) ConstraintName.ALL.

Definition overlay (self other : t) : t :=
  Make (opt_or (max_bytes other) (max_bytes self))
       (opt_or (no_symlink_targets other) (no_symlink_targets self))
       (opt_or (methods other) (methods self))
       (opt_or (max_requests other) (max_requests self))
       (opt_or (argv_allowlist other) (argv_allowlist self))
       (opt_or (privacy_class other) (privacy_class self))
       (opt_or (depth other) (depth self))
       (opt_or (fanout other) (fanout self)).

(** The values the field types admit. *)
Definition wf (c : t) : bool :=
  is_none_or (max_bytes c) (fun n => n <=? U64_MAX)%N
  && is_none_or (methods c) MethodSet.wf
  && is_none_or (max_requests c) (fun n => n <=? U32_MAX)%N
  && is_none_or (argv_allowlist c) ArgvAllowlist.wf
  && is_none_or (depth c) (fun n => n <=? U16_MAX)%N
  && is_none_or (fanout c) (fun n => n <=? U16_MAX)%N.

(** ** What a set permits

    One use of a verb, measured in each of the eight dimensions. *)
Record use : Set := Use {
  use_bytes : N;
  use_follows_symlink : bool;
  use_method : Method.t;
  use_requests : N;
  use_argv : ArgvToken.t;
  use_privacy : PrivacyClass.t;
  use_depth : N;
  use_fanout : N
}.

(** A limit that is absent permits every use. *)
Definition permits (c : t) (u : use) : Prop :=
  (forall n, max_bytes c = Some n -> use_bytes u <= n)%N /\
  (forall f : NoSymlinkTargets.t, no_symlink_targets c = Some f -> use_follows_symlink u = false) /\
  (forall s, methods c = Some s -> MethodSet.has s (use_method u) = true) /\
  (forall n, max_requests c = Some n -> use_requests u <= n)%N /\
  (forall a, argv_allowlist c = Some a -> use_argv u ∈ ArgvAllowlist.tokens a) /\
  (forall p, privacy_class c = Some p -> le_b (use_privacy u) p = true) /\
  (forall n, depth c = Some n -> use_depth u <= n)%N /\
  (forall n, fanout c = Some n -> use_fanout u <= n)%N.

Lemma narrower_or_equal_spec c p :
  narrower_or_equal c p = true <->
  narrower (max_bytes c) (max_bytes p) N.leb = true /\
  narrower (no_symlink_targets c) (no_symlink_targets p) (fun c p => bool_decide (c = p)) = true /\
  narrower (methods c) (methods p) MethodSet.narrower_or_equal = true /\
  narrower (max_requests c) (max_requests p) N.leb = true /\
  narrower (argv_allowlist c) (argv_allowlist p) ArgvAllowlist.narrower_or_equal = true /\
  narrower (privacy_class c) (privacy_class p) PrivacyClass.narrower_or_equal = true /\
  narrower (depth c) (depth p) N.leb = true /\
  narrower (fanout c) (fanout p) N.leb = true.
Proof. unfold narrower_or_equal. rewrite !andb_true_iff. tauto. Qed.

Lemma N_leb_trans x y z : (x <=? y)%N = true -> (y <=? z)%N = true -> (x <=? z)%N = true.
Proof. rewrite !N.leb_le. lia. Qed.

Lemma privacy_refl x : PrivacyClass.narrower_or_equal x x = true.
Proof. by destruct x. Qed.

Lemma privacy_trans x y z :
  PrivacyClass.narrower_or_equal x y = true -> PrivacyClass.narrower_or_equal y z = true ->
  PrivacyClass.narrower_or_equal x z = true.
Proof. by destruct x, y, z. Qed.

Lemma flag_trans (x y z : NoSymlinkTargets.t) :
  bool_decide (x = y) = true -> bool_decide (y = z) = true -> bool_decide (x = z) = true.
Proof. by destruct x, y, z. Qed.

Lemma narrower_or_equal_refl c : narrower_or_equal c c = true.
Proof.
  apply narrower_or_equal_spec; split_and!; apply narrower_refl; try apply N.leb_refl.
  - by intros [].
  - apply MethodSet.method_set_narrower_refl.
  - intros a. by apply ArgvAllowlist.narrower_spec.
  - apply privacy_refl.
Qed.

Lemma narrower_or_equal_trans a b c :
  narrower_or_equal a b = true -> narrower_or_equal b c = true ->
  narrower_or_equal a c = true.
Proof.
  rewrite !narrower_or_equal_spec. intros Hab Hbc. destruct_and!.
  split_and!; (eapply narrower_trans; [|eassumption..]);
    try first [exact N_leb_trans|exact flag_trans|exact MethodSet.method_set_narrower_trans|exact privacy_trans].
  intros x y z. rewrite !ArgvAllowlist.narrower_spec. auto.
Qed.

(** Mutual narrowing is equality once the argv lists are the sorted,
    duplicate-free ones the constructor yields. *)
Lemma narrower_or_equal_antisym a b :
  wf a = true -> wf b = true ->
  narrower_or_equal a b = true -> narrower_or_equal b a = true -> a = b.
Proof.
  intros Ha Hb. rewrite !narrower_or_equal_spec. intros Hab Hba.
  assert (forall x y, (x <=? y)%N = true -> (y <=? x)%N = true -> x = y) as HN.
  { intros x y. rewrite !N.leb_le. lia. }
  assert (argv_allowlist a = argv_allowlist b) as Hargv.
  { destruct_and!. eapply narrower_antisym; [|eassumption..].
    intros [x] [y] Ex Ey. rewrite !ArgvAllowlist.narrower_spec. simpl. intros Hxy Hyx.
    unfold wf in Ha, Hb. rewrite Ex in Ha. rewrite Ey in Hb. bool_to_prop.
    unfold is_none_or, ArgvAllowlist.wf in *; simpl in *. bool_to_prop.
    f_equal. apply strictly_sorted_ext; [done..|]. split; auto. }
  destruct_and!. destruct a, b; simpl in *; subst. f_equal;
    (eapply narrower_antisym; [|eassumption..]);
    intros x y _ _; [apply HN|by destruct x, y|apply MethodSet.method_set_narrower_antisym|apply HN| |apply HN..].
  by destruct x, y.
Qed.

(** A narrower set permits no use the wider one does not. *)
Lemma narrower_permits c p u :
  narrower_or_equal c p = true -> permits c u -> permits p u.
Proof.
  rewrite narrower_or_equal_spec. intros Hn Hc. unfold permits in *. destruct_and!.
  split_and!; (eapply narrower_allows; [|eassumption..]); simpl.
  - intros x y ?%N.leb_le ?; lia.
  - done.
  - intros x y. apply MethodSet.narrower_has.
  - intros x y ?%N.leb_le ?; lia.
  - intros x y Hxy. by apply ArgvAllowlist.narrower_spec.
  - intros x y Hxy Hx. exact (privacy_trans _ _ _ Hx Hxy).
  - intros x y ?%N.leb_le ?; lia.
  - intros x y ?%N.leb_le ?; lia.
Qed.

(** [present] lists the names [has] reports, once each, in canonical order. *)
Lemma present_spec c name : In name (present c) <-> has c name = true.
Proof.
  unfold present. rewrite filter_In. split; [by intros [_ ?]|intros H; split; [|done]].
  by destruct name; simpl; auto 10.
Qed.

Lemma overlay_refl c : overlay c c = c.
Proof. by destruct c as [[] [] [] [] [] [] [] []]. Qed.

Lemma overlay_unconstrained c : overlay c unconstrained = c.
Proof. by destruct c as [[] [] [] [] [] [] [] []]. Qed.

Lemma has_overlay self other name :
  has (overlay self other) name = has self name || has other name.
Proof.
  destruct self, other, name; simpl;
    match goal with |- context [opt_or ?a ?b] => by destruct a, b end.
Qed.

Lemma wf_overlay self other : wf self = true -> wf other = true -> wf (overlay self other) = true.
Proof.
  assert (forall A (f : A -> bool) a b, is_none_or a f = true -> is_none_or b f = true ->
    is_none_or (opt_or b a) f = true) as Hor by (by intros A f [] []).
  unfold wf. rewrite !andb_true_iff. intros. destruct_and!. simpl. split_and!; by apply Hor.
Qed.
End ConstraintSet.

(** [ConstraintName::applies_to]. *)
Definition applies_to (self : ConstraintName.t) (verb : Verb.t) : bool :=
  match self with
  | ConstraintName.MaxBytes | ConstraintName.NoSymlinkTargets =>
      bool_decide (Verb.namespace verb = Namespace.Fs)
  | ConstraintName.Methods | ConstraintName.MaxRequests =>
      bool_decide (Verb.namespace verb = Namespace.Network)
  | ConstraintName.ArgvAllowlist =>
      bool_decide (Verb.namespace verb = Namespace.Process)
      && bool_decide (Verb.action verb = Action.Exec)
  | ConstraintName.PrivacyClass =>
      bool_decide (Verb.namespace verb = Namespace.Model)
      && bool_decide (Verb.action verb = Action.Call)
  | ConstraintName.Depth | ConstraintName.Fanout =>
      bool_decide (Verb.namespace verb = Namespace.Agent)
      && bool_decide (Verb.action verb = Action.Spawn)
  end.
