(* ===== verification/Scopes.v ===== *)
(** Scopes: what a capability is about ([capability/scope.rs]).  A declared
    [ScopeSpec] is what a request says; a [Scope] is what authority is
    compared with, and only the latter has a containment relation. *)

From S2P Require Export Prelude Order Vocabulary CapError Host Names Resource Verbs.

(** * Families whose syntax is their identity *)

Module SyntacticScope.
Inductive t : Set :=
| Endpoint (e : Endpoint.t)
| CredentialHandle (l : Label.t)
| ProviderModel (p : ProviderModel.t)
| Domain (h : HostPattern.t)
| ServerId (l : Label.t)
| AgentProfile (p : Pattern.t)
| MemoryScope (l : Label.t)
| Intent (p : Pattern.t)
| ArtifactScope (l : Label.t)
| ChannelTarget (c : ChannelTarget.t).

#[global] Instance eq_dec : EqDecision t.
Proof. solve_decision. Defined.

Definition view (s : t) :=
  match s with
  | Endpoint e => inl e
  | CredentialHandle l => inr (inl l)
  | ProviderModel p => inr (inr (inl p))
  | Domain h => inr (inr (inr (inl h)))
  | ServerId l => inr (inr (inr (inr (inl l))))
  | AgentProfile p => inr (inr (inr (inr (inr (inl p)))))
  | MemoryScope l => inr (inr (inr (inr (inr (inr (inl l))))))
  | Intent p => inr (inr (inr (inr (inr (inr (inr (inl p)))))))
  | ArtifactScope l => inr (inr (inr (inr (inr (inr (inr (inr (inl l))))))))
  | ChannelTarget c => inr (inr (inr (inr (inr (inr (inr (inr (inr c))))))))
  end.

#[global] Instance ord : RustOrd t := ord_by view.

#[global] Instance lawful : LawfulOrd t.
Proof. derive_ord view. Qed.

Definition family (s : t) : ScopeFamily.t :=
  match s with
  | Endpoint _ => ScopeFamily.Endpoint
  | CredentialHandle _ => ScopeFamily.CredentialHandle
  | ProviderModel _ => ScopeFamily.ProviderModel
  | Domain _ => ScopeFamily.Domain
  | ServerId _ => ScopeFamily.ServerId
  | AgentProfile _ => ScopeFamily.AgentProfile
  | MemoryScope _ => ScopeFamily.MemoryScope
  | Intent _ => ScopeFamily.Intent
  | ArtifactScope _ => ScopeFamily.ArtifactScope
  | ChannelTarget _ => ScopeFamily.ChannelTarget
  end.

Definition contains (self other : t) : bool :=
  match self, other with
  | Endpoint a, Endpoint b => Endpoint.contains a b
  | ProviderModel a, ProviderModel b => ProviderModel.contains a b
  | Domain a, Domain b => HostPattern.contains a b
  | AgentProfile a, AgentProfile b | Intent a, Intent b => Pattern.contains a b
  | CredentialHandle a, CredentialHandle b
  | ServerId a, ServerId b
  | MemoryScope a, MemoryScope b
  | ArtifactScope a, ArtifactScope b => bool_decide (a = b)
  | ChannelTarget a, ChannelTarget b => bool_decide (a = b)
  | _, _ => false
  end.

Definition display (s : t) : string :=
  match s with
  | Endpoint e => Endpoint.display e
  | CredentialHandle l | ServerId l | MemoryScope l | ArtifactScope l => Label.as_str l
  | ProviderModel p => ProviderModel.display p
  | Domain h => HostPattern.display h
  | AgentProfile p | Intent p => Pattern.display p
  | ChannelTarget c => ChannelTarget.display c
  end.

(** The concrete things a scope is about, per family. *)
Inductive target : Set :=
| Connection (host : list HostLabel.t) (port : N)
| Credential (l : Label.t)
| Model (provider : Label.t) (model : string)
| Site (host : list HostLabel.t)
| Server (l : Label.t)
| Profile (name : string)
| MemoryName (l : Label.t)
| IntentName (name : string)
| ArtifactName (l : Label.t)
| Destination (c : Names.ChannelTarget.t).

Definition matches (s : t) (r : target) : Prop :=
  match s, r with
  | Endpoint e, Connection h p => Endpoint.matches e (h, p)
  | CredentialHandle l, Credential l' => l' = l
  | ProviderModel p, Model q m => ProviderModel.matches p (q, m)
  | Domain d, Site h => HostPattern.matches d h
  | ServerId l, Server l' => l' = l
  | AgentProfile p, Profile n => Pattern.matches p n
  | MemoryScope l, MemoryName l' => l' = l
  | Intent p, IntentName n => Pattern.matches p n
  | ArtifactScope l, ArtifactName l' => l' = l
  | ChannelTarget c, Destination c' => c' = c
  | _, _ => False
  end.

#[global] Instance has_contains : Contains t := contains.

#[global] Instance sound : ContainsSound t target matches.
Proof.
  intros a b r. unfold Vocabulary.contains, has_contains.
  destruct a, b; simpl; try done; destruct r; simpl; try done;
    rewrite ?bool_decide_eq_true; try congruence.
  - apply Endpoint.sound.
  - apply ProviderModel.sound.
  - apply HostPattern.sound.
  - apply Pattern.sound.
  - apply Pattern.sound.
Qed.

Lemma syntactic_scope_inhabited s : exists r, matches s r.
Proof.
  destruct s as [[h p]|l|[q m]|h|l|p|l|p|l|c].
  - destruct (Endpoint.host_inhabited h) as [n Hn], (Endpoint.port_inhabited p) as [k Hk].
    by exists (Connection n k).
  - by exists (Credential l).
  - destruct (Pattern.pattern_inhabited m) as [n Hn]. by exists (Model q n).
  - destruct (Endpoint.host_inhabited h) as [n Hn]. by exists (Site n).
  - by exists (Server l).
  - destruct (Pattern.pattern_inhabited p) as [n Hn]. by exists (Profile n).
  - by exists (MemoryName l).
  - destruct (Pattern.pattern_inhabited p) as [n Hn]. by exists (IntentName n).
  - by exists (ArtifactName l).
  - by exists (Destination c).
Qed.

#[global] Instance complete : ContainsComplete t target matches.
Proof.
  intros a b Hsub. unfold Vocabulary.contains, has_contains.
  destruct (syntactic_scope_inhabited b) as [r0 Hr0]. pose proof (Hsub r0 Hr0) as Ha0.
  destruct a, b; simpl; destruct r0; simpl in *; try done;
    rewrite ?bool_decide_eq_true; try congruence; clear Hr0 Ha0.
  - apply Endpoint.complete. intros [h q]. exact (Hsub (Connection h q)).
  - apply ProviderModel.complete. intros [q m]. exact (Hsub (Model q m)).
  - apply HostPattern.complete. intros n. exact (Hsub (Site n)).
  - apply Pattern.complete. intros n. exact (Hsub (Profile n)).
  - apply Pattern.complete. intros n. exact (Hsub (IntentName n)).
Qed.

#[global] Instance preorder : ContainsPreorder t := exact_preorder matches.

#[global] Instance antisym : ContainsAntisym t (fun _ => true).
Proof.
  intros a b _ _; unfold Vocabulary.contains, has_contains.
  destruct a, b; simpl; try done; rewrite ?bool_decide_eq_true; try congruence; intros; f_equal.
  - by apply Endpoint.antisym.
  - by apply ProviderModel.antisym.
  - by apply HostPattern.antisym.
  - by apply Pattern.antisym.
  - by apply Pattern.antisym.
Qed.
End SyntacticScope.

(** * What a request said *)

Module ScopeSpec.
Inductive t : Set :=
| Universal
| Syntactic (s : SyntacticScope.t)
| DeclaredPath (p : DeclaredPath.t)
| DeclaredExecutable (p : DeclaredPath.t).

#[global] Instance eq_dec : EqDecision t.
Proof. solve_decision. Defined.

Definition family (self : t) : option ScopeFamily.t :=
  match self with
  | Universal => None
  | Syntactic s => Some (SyntacticScope.family s)
  | DeclaredPath _ => Some ScopeFamily.Path
  | DeclaredExecutable _ => Some ScopeFamily.Executable
  end.

Definition display (self : t) : string :=
  match self with
  | Universal => "*"
  | Syntactic s => SyntacticScope.display s
  | DeclaredPath p | DeclaredExecutable p => DeclaredPath.as_str p
  end.
End ScopeSpec.

(** * What authority is compared with *)

Module Scope.
Inductive t : Set :=
| Universal
| Syntactic (s : SyntacticScope.t)
| Path (p : CanonicalPath.t)
| Executable (e : ExecutableIdentity.t).

#[global] Instance eq_dec : EqDecision t.
Proof. solve_decision. Defined.

Definition view (s : t) :=
  match s with
  | Universal => inl ()
  | Syntactic s => inr (inl s)
  | Path p => inr (inr (inl p))
  | Executable e => inr (inr (inr e))
  end.

#[global] Instance ord : RustOrd t := ord_by view.

#[global] Instance lawful : LawfulOrd t.
Proof. derive_ord view. Qed.

Definition family (self : t) : option ScopeFamily.t :=
  match self with
  | Universal => None
  | Syntactic s => Some (SyntacticScope.family s)
  | Path _ => Some ScopeFamily.Path
  | Executable _ => Some ScopeFamily.Executable
  end.

Definition fits (self : t) (f : ScopeFamily.t) : bool :=
  is_none_or (family self) (fun g => bool_decide (g = f)).

Definition contains (self other : t) : bool :=
  match self, other with
  | Universal, _ => true
  | Syntactic a, Syntactic b => SyntacticScope.contains a b
  | Path a, Path b => CanonicalPath.contains a b
  | Executable a, Executable b => bool_decide (a = b)
  | _, _ => false
  end.

Definition display (self : t) : string :=
  match self with
  | Universal => "*"
  | Syntactic s => SyntacticScope.display s
  | Path p => CanonicalPath.display p
  | Executable e => ExecutableIdentity.display e
  end.

(** The concrete resources a scope is about; [*] is about every one. *)
Inductive resource : Set :=
| Named (r : SyntacticScope.target)
| File (p : CanonicalPath.t)
| Program (e : ExecutableIdentity.t).

Definition matches (s : t) (r : resource) : Prop :=
  match s, r with
  | Universal, _ => True
  | Syntactic s, Named r => SyntacticScope.matches s r
  | Path p, File q => CanonicalPath.below p q
  | Executable e, Program e' => e' = e
  | _, _ => False
  end.

#[global] Instance has_contains : Contains t := contains.

#[global] Instance sound : ContainsSound t resource matches.
Proof.
  intros a b r. unfold Vocabulary.contains, has_contains.
  destruct a, b; simpl; try done; destruct r; simpl; try done;
    rewrite ?bool_decide_eq_true; try congruence.
  - apply SyntacticScope.sound.
  - apply CanonicalPath.sound.
Qed.

(** Nothing specific is refused without cause: only [*] itself is held apart
    from the scopes that happen to match everything of their family. *)
Lemma complete_specific a b :
  b <> Universal -> (forall r, matches b r -> matches a r) -> contains a b = true.
Proof.
  intros Hb Hsub. destruct a as [|s|p|e]; [done|..]; destruct b as [|s'|p'|e']; try done; simpl.
  - apply SyntacticScope.complete. intros r Hr. exact (Hsub (Named r) Hr).
  - exact (False_ind _ (Hsub (File p') ltac:(unfold matches, CanonicalPath.below; reflexivity))).
  - exact (False_ind _ (Hsub (Program e') eq_refl)).
  - destruct (SyntacticScope.syntactic_scope_inhabited s') as [r Hr]. destruct (Hsub (Named r) Hr).
  - apply CanonicalPath.complete. intros q Hq. exact (Hsub (File q) Hq).
  - exact (False_ind _ (Hsub (Program e') eq_refl)).
  - destruct (SyntacticScope.syntactic_scope_inhabited s') as [r Hr]. destruct (Hsub (Named r) Hr).
  - exact (False_ind _ (Hsub (File p') ltac:(unfold matches, CanonicalPath.below; reflexivity))).
  - apply bool_decide_eq_true. symmetry. exact (Hsub (Program e') eq_refl).
Qed.

#[global] Instance preorder : ContainsPreorder t.
Proof.
  split; unfold Vocabulary.contains, has_contains.
  - intros [|s|p|e]; simpl; [done| | |by rewrite bool_decide_eq_true].
    + apply (contains_refl s).
    + apply (contains_refl p).
  - intros [|s|p|e] [|s'|p'|e'] [|s''|p''|e'']; simpl; try done;
      rewrite ?bool_decide_eq_true; try congruence.
    + apply (contains_trans s s' s'').
    + apply (contains_trans p p' p'').
Qed.

#[global] Instance antisym : ContainsAntisym t (fun _ => true).
Proof.
  intros a b _ _; unfold Vocabulary.contains, has_contains.
  destruct a, b; simpl; try done; rewrite ?bool_decide_eq_true; try congruence; intros; f_equal.
  - by apply SyntacticScope.antisym.
  - by apply CanonicalPath.antisym.
Qed.

Lemma fits_spec s f : fits s f = true <-> s = Universal \/ family s = Some f.
Proof.
  unfold fits, is_none_or. destruct s; simpl; rewrite ?bool_decide_eq_true;
    [tauto|..]; (split; [intros ->; auto|intros [|[= <-]]; done]).
Qed.
End Scope.
