(* ===== verification/Capabilities.v ===== *)
(** Capabilities: authority in comparable form ([capability/mod.rs]), its
    declared form ([capability/spec.rs]) and the operations that narrow it
    ([capability/attenuate.rs]). *)

From S2P Require Export Prelude Order Vocabulary CapError Verbs Constraints Scopes.

Module CapabilityError.
Inductive t : Set :=
| Empty
| TooLong
| MissingScope
| MissingAction
| EmptyNamespace
| EmptyAction
| EmptyScope
| UnknownNamespace
| UnknownAction (namespace : Namespace.t)
| InvalidScope (e : ScopeError.t)
| EmptyConstraints
| RepeatedConstraintSeparator
| MalformedConstraint
| EmptyConstraintName
| EmptyConstraintValue
| UnknownConstraint
| DuplicateConstraint (name : ConstraintName.t)
| ConstraintNotApplicable (name : ConstraintName.t) (verb : Verb.t)
| InvalidConstraintValue (name : ConstraintName.t) (reason : ValueError.t)
| ScopeFamilyMismatch.

#[global] Instance eq_dec : EqDecision t.
Proof. solve_decision. Defined.
End CapabilityError.

Module AttenuationError.
Inductive t : Set :=
| VerbChanged
| WouldWiden
| Invalid (e : CapabilityError.t).

#[global] Instance eq_dec : EqDecision t.
Proof. solve_decision. Defined.
End AttenuationError.

(** * Capabilities *)

Module Capability.
Record t : Set := Make {
  verb : Verb.t;
  scope : Scope.t;
  constraints : ConstraintSet.t
}.

#[global] Instance eq_dec : EqDecision t.
Proof. solve_decision. Defined.

Definition view (c : t) : Verb.t * (Scope.t * ConstraintSet.t) :=
  (verb c, (scope c, constraints c)).

#[global] Instance ord : RustOrd t := ord_by view.

#[global] Instance lawful : LawfulOrd t.
Proof. derive_ord view. Qed.

(** The first present constraint that does not apply to the verb. *)
Fixpoint first_inapplicable (verb : Verb.t) (names : list ConstraintName.t) :
    option ConstraintName.t :=
  match names with
  | [] => None
  | name :: rest =>
      if negb (applies_to name verb) then Some name else first_inapplicable verb rest
  end.

Definition new (verb : Verb.t) (scope : Scope.t) (constraints : ConstraintSet.t) :
    result t CapabilityError.t :=
  if negb (Scope.fits scope (Verb.scope_family verb)) then Err CapabilityError.ScopeFamilyMismatch
  else
    match first_inapplicable verb (ConstraintSet.present constraints) with
    | Some name => Err (CapabilityError.ConstraintNotApplicable name verb)
    | None => Ok (Make verb scope constraints)
    end.

Definition contains (self other : t) : bool :=
  bool_decide (verb self = verb other)
  && Scope.contains (scope self) (scope other)
  && ConstraintSet.narrower_or_equal (constraints other) (constraints self).

Definition is_contained_by (self other : t) : bool := contains other self.

(** What [new] checks. *)
Definition valid (c : t) : bool :=
  Scope.fits (scope c) (Verb.scope_family (verb c))
  && forallb (fun name => applies_to name (verb c)) (ConstraintSet.present (constraints c)).

(** A valid capability whose parts hold values their types admit. *)
Definition wf (c : t) : bool :=
  valid c && Verb.wf (verb c) && ConstraintSet.wf (constraints c).

Lemma first_inapplicable_None verb names :
  first_inapplicable verb names = None <-> forallb (fun n => applies_to n verb) names = true.
Proof.
  induction names as [|n names IH]; simpl; [done|].
  destruct (applies_to n verb); simpl; [done|]. by split.
Qed.

Lemma capability_new_Ok v s k c : new v s k = Ok c <-> c = Make v s k /\ valid c = true.
Proof.
  unfold new, valid. split.
  - destruct (Scope.fits s _) eqn:Hf; [|done]. simpl.
    destruct (first_inapplicable v _) eqn:Hn; [done|]. intros [= <-]. simpl.
    apply first_inapplicable_None in Hn. by rewrite Hf, Hn.
  - intros [-> [Hf Hn]%andb_true_iff]. simpl in *. rewrite Hf.
    by apply first_inapplicable_None in Hn as ->.
Qed.

(** ** Containment is a partial order *)

#[global] Instance has_contains : Contains t := contains.

Lemma capability_contains_spec a b :
  contains a b = true <->
  verb a = verb b /\ Scope.contains (scope a) (scope b) = true /\
  ConstraintSet.narrower_or_equal (constraints b) (constraints a) = true.
Proof. unfold contains. rewrite !andb_true_iff, bool_decide_eq_true. tauto. Qed.

#[global] Instance preorder : ContainsPreorder t.
Proof.
  split; unfold Vocabulary.contains, has_contains.
  - intros a. apply capability_contains_spec. split_and!; [done|apply (contains_refl (scope a))|].
    apply ConstraintSet.narrower_or_equal_refl.
  - intros a b c. rewrite !capability_contains_spec. intros (-> & Hs & Hk) (-> & Hs' & Hk').
    split_and!; [done|by apply (contains_trans _ (scope b))|].
    by apply (ConstraintSet.narrower_or_equal_trans _ (constraints b)).
Qed.

#[global] Instance antisym : ContainsAntisym t wf.
Proof.
  intros a b Ha Hb. unfold Vocabulary.contains, has_contains. rewrite !capability_contains_spec.
  unfold wf in Ha, Hb. bool_to_prop. intros (Hv & Hs & Hk) (_ & Hs' & Hk').
  destruct a as [v s k], b as [v' s' k']; simpl in *; subst. f_equal.
  - by apply Scope.antisym.
  - by apply ConstraintSet.narrower_or_equal_antisym.
Qed.

(** ** What a capability authorises: a verb on a resource, within limits *)

Record request : Set := Request {
  request_verb : Verb.t;
  request_resource : Scope.resource;
  request_use : ConstraintSet.use
}.

Definition authorises (c : t) (r : request) : Prop :=
  verb c = request_verb r /\
  Scope.matches (scope c) (request_resource r) /\
  ConstraintSet.permits (constraints c) (request_use r).

#[global] Instance sound : ContainsSound t request authorises.
Proof.
  intros a b r (Hv & Hs & Hk)%capability_contains_spec (Hbv & Hbs & Hbk). split_and!.
  - congruence.
  - by apply (contains_sound _ (scope b)).
  - by apply (ConstraintSet.narrower_permits (constraints b)).
Qed.
End Capability.

(** * Declarations *)

Module CapabilitySpec.
Record t : Set := new {
  verb : Verb.t;
  scope : ScopeSpec.t;
  constraints : ConstraintSet.t
}.

#[global] Instance eq_dec : EqDecision t.
Proof. solve_decision. Defined.

Definition needs_resolution (self : t) : bool :=
  match scope self with
  | ScopeSpec.DeclaredPath _ | ScopeSpec.DeclaredExecutable _ => true
  | _ => false
  end.

Definition resolve (self : t) : result Capability.t UnresolvedScope.t :=
  let? s :=
    match scope self with
    | ScopeSpec.Universal => Ok Scope.Universal
    | ScopeSpec.Syntactic s => Ok (Scope.Syntactic s)
    | ScopeSpec.DeclaredPath _ => Err UnresolvedScope.CanonicalPath
    | ScopeSpec.DeclaredExecutable _ => Err UnresolvedScope.ExecutableIdentity
    end in
  map_err (fun _ => UnresolvedScope.CanonicalPath)
    (Capability.new (verb self) s (constraints self)).

Definition resolve_path (self : t) (canonical : CanonicalPath.t) :
    result Capability.t UnresolvedScope.t :=
  match scope self with
  | ScopeSpec.DeclaredPath _ =>
      map_err (fun _ => UnresolvedScope.CanonicalPath)
        (Capability.new (verb self) (Scope.Path canonical) (constraints self))
  | _ => Err UnresolvedScope.CanonicalPath
  end.

Definition resolve_executable (self : t) (identity : ExecutableIdentity.t) :
    result Capability.t UnresolvedScope.t :=
  match scope self with
  | ScopeSpec.DeclaredExecutable _ =>
      map_err (fun _ => UnresolvedScope.ExecutableIdentity)
        (Capability.new (verb self) (Scope.Executable identity) (constraints self))
  | _ => Err UnresolvedScope.ExecutableIdentity
  end.
End CapabilitySpec.

(** * Attenuation *)

Module Narrowing.
Record t : Set := Make { scope : option Scope.t; constraints : ConstraintSet.t }.

Definition none : t := Make None ConstraintSet.unconstrained.
Definition to_scope (s : Scope.t) : t := Make (Some s) ConstraintSet.unconstrained.
Definition with_constraints (k : ConstraintSet.t) : t := Make None k.
End Narrowing.

Definition attenuate (parent : Capability.t) (narrowing : Narrowing.t) :
    result Capability.t AttenuationError.t :=
  let scope :=
    match Narrowing.scope narrowing with Some s => s | None => Capability.scope parent end in
  let constraints :=
    ConstraintSet.overlay (Capability.constraints parent) (Narrowing.constraints narrowing) in
  let? candidate :=
    map_err AttenuationError.Invalid
      (Capability.new (Capability.verb parent) scope constraints) in
  if negb (Capability.contains parent candidate) then Err AttenuationError.WouldWiden
  else Ok candidate.

Definition delegate (parent child : Capability.t) : result Capability.t AttenuationError.t :=
  if negb (bool_decide (Capability.verb parent = Capability.verb child))
  then Err AttenuationError.VerbChanged
  else if negb (Capability.contains parent child) then Err AttenuationError.WouldWiden
  else Ok child.

(** The capability a narrowing asks for, before it is checked. *)
Definition candidate (parent : Capability.t) (n : Narrowing.t) : Capability.t :=
  Capability.Make (Capability.verb parent)
    (match Narrowing.scope n with Some s => s | None => Capability.scope parent end)
    (ConstraintSet.overlay (Capability.constraints parent) (Narrowing.constraints n)).

Lemma attenuate_Ok parent n child :
  attenuate parent n = Ok child <->
  child = candidate parent n /\ Capability.valid child = true /\
  Capability.contains parent child = true.
Proof.
  unfold attenuate. split.
  - destruct (Capability.new _ _ _) as [c|] eqn:En; simpl; [|done].
    apply Capability.capability_new_Ok in En as [-> Hv].
    destruct (Capability.contains parent _) eqn:Hc; simpl; [|done]. by intros [= <-].
  - intros (-> & Hv & Hc).
    erewrite (proj2 (Capability.capability_new_Ok _ _ _ (candidate parent n))) by done.
    simpl. by rewrite Hc.
Qed.

Lemma delegate_Ok parent child c :
  delegate parent child = Ok c <-> c = child /\ Capability.contains parent child = true.
Proof.
  unfold delegate. destruct (Capability.contains parent child) eqn:Hc; simpl.
  - apply Capability.capability_contains_spec in Hc as [-> _].
    rewrite bool_decide_eq_true_2 by done. simpl. split; [by intros [= <-]|by intros [-> _]].
  - split; [|by intros [_ ?]]. by destruct (bool_decide _).
Qed.

(** A child below its parent repeats every constraint the parent has, so
    overlaying its constraints on the parent's gives them back. *)
Lemma overlay_narrower child parent :
  ConstraintSet.narrower_or_equal child parent = true ->
  ConstraintSet.overlay parent child = child.
Proof.
  rewrite ConstraintSet.narrower_or_equal_spec. intros Hn. destruct_and!.
  assert (forall A (ok : A -> A -> bool) c p, narrower c p ok = true -> opt_or c p = c) as Hor
    by (by intros A ok [] []).
  destruct child; unfold ConstraintSet.overlay; simpl in *. f_equal; by eapply Hor.
Qed.

(** One step of a delegation chain. *)
Inductive derives (parent : Capability.t) : Capability.t -> Prop :=
| derives_attenuate n child : attenuate parent n = Ok child -> derives parent child
| derives_delegate c child : delegate parent c = Ok child -> derives parent child.

Lemma derives_contained parent child :
  derives parent child -> Capability.contains parent child = true.
Proof.
  intros [n c H|c c' H]; [by apply attenuate_Ok in H as (_ & _ & ?)|].
  by apply delegate_Ok in H as [-> ?].
Qed.
