(* ===== verification/CapSet.v ===== *)
(** Capability sets ([capability/set.rs]): sorted antichains of covering
    elements.  The operations and their laws are stated for any type that
    implements the [Contains] and [RustOrd] interfaces; the authority's sets
    are the instance at [Capability.t]. *)

From S2P Require Export Prelude Order Vocabulary Capabilities.

Module CapabilitySet.

Section operations.
  Context {A : Type} `{EqDecision A, Contains A, RustOrd A}.

Record t : Type := Make { members : list A }.

Definition empty : t := Make [].

(** Whether the set changed, and the set. *)
Definition insert (self : t) (capability : A) : t * bool :=
  if existsb (fun held => contains held capability) (members self) then (self, false)
  else
    let retained := List.filter (fun held => negb (contains capability held)) (members self) in
    let position := either_index (binary_search retained capability) in
    (Make (vec_insert position capability retained), true).

Definition from_capabilities (items : list A) : t :=
  fold_left (fun set item => (insert set item).1) items empty.

Definition len (self : t) : nat := length (members self).

Definition is_empty (self : t) : bool :=
  match members self with [] => true | _ => false end.

Definition covers (self : t) (capability : A) : bool :=
  existsb (fun held => contains held capability) (members self).

Definition is_contained_by (self other : t) : bool :=
  forallb (covers other) (members self).

Definition contains_set (self other : t) : bool := is_contained_by other self.
End operations.
#[global] Arguments t : clear implicits.

(** ** Laws, from the interfaces alone *)

Section laws.
  Context {A : Type} `{EqDecision A, LawfulOrd A} `{ContainsPreorder A}.
  Context (wf : A -> bool) `{!ContainsAntisym A wf}.
  Implicit Types (s : t A) (a b c : A).

(** Minimal, sorted, and of well-formed members. *)
Definition antichain s : Prop :=
  forall a b, a ∈ members s -> b ∈ members s -> contains a b = true -> a = b.

Definition inv s : Prop :=
  strictly_sorted (members s) = true /\ antichain s /\
  (forall a, a ∈ members s -> wf a = true).

Lemma covers_spec s c :
  covers s c = true <-> exists a, a ∈ members s /\ contains a c = true.
Proof.
  unfold covers. rewrite existsb_exists.
  split; intros (a & Ha & Hc); exists a; (split; [|done]); by apply list_elem_of_In.
Qed.

Lemma covers_member s a : a ∈ members s -> covers s a = true.
Proof. intros Ha. apply covers_spec. exists a. split; [done|apply contains_refl]. Qed.

Lemma covers_down s a b : covers s a = true -> contains a b = true -> covers s b = true.
Proof.
  rewrite !covers_spec. intros (c & Hc & Hca) Hab. exists c. split; [done|].
  by apply (contains_trans c a b).
Qed.

Lemma covers_ext s s' :
  (forall c, covers s c = covers s' c) <->
  is_contained_by s s' = true /\ is_contained_by s' s = true.
Proof.
  unfold is_contained_by. rewrite !forallb_forall. split.
  - intros Hc. split; intros a Ha%list_elem_of_In; [rewrite <- Hc|rewrite Hc]; by apply covers_member.
  - intros [Hs Hs'] c. apply eq_true_iff_eq. rewrite !covers_spec.
    split; intros (a & Ha & Hac); apply list_elem_of_In in Ha.
    + apply covers_spec. by apply (covers_down _ a), Hac; auto.
    + apply covers_spec. by apply (covers_down _ a), Hac; auto.
Qed.

(** *** Insertion *)

Lemma insert_elem s c a :
  covers s c = false ->
  a ∈ members (insert s c).1 <-> a = c \/ (a ∈ members s /\ contains c a = false).
Proof.
  intros Hc. unfold insert. unfold covers in Hc. rewrite Hc. simpl.
  rewrite vec_insert_elem, list_elem_of_In, filter_In, <- list_elem_of_In, negb_true_iff. done.
Qed.

Lemma insert_covered s c : covers s c = true -> insert s c = (s, false).
Proof. intros Hc. unfold insert. unfold covers in Hc. by rewrite Hc. Qed.

Lemma insert_changed s c : (insert s c).2 = negb (covers s c).
Proof. unfold insert, covers. by destruct (existsb _ _). Qed.

Lemma covers_insert s c d : covers (insert s c).1 d = covers s d || contains c d.
Proof.
  destruct (covers s c) eqn:Hc.
  - rewrite insert_covered by done. simpl. apply eq_true_iff_eq. rewrite orb_true_iff.
    split; [auto|]. intros [|Hcd]; [done|]. by apply (covers_down s c).
  - apply eq_true_iff_eq. rewrite orb_true_iff, !covers_spec. split.
    + intros (a & Ha & Had). apply insert_elem in Ha as [->|[Ha _]]; [by right|left; eauto|done].
    + intros [(a & Ha & Had)|Hcd].
      * destruct (contains c a) eqn:Hca.
        -- exists c. split; [apply insert_elem; auto|]. by apply (contains_trans c a d).
        -- exists a. split; [apply insert_elem; auto|done].
      * exists c. split; [apply insert_elem; auto|done].
Qed.

Lemma insert_inv s c : inv s -> wf c = true -> inv (insert s c).1.
Proof.
  intros (Hsort & Hanti & Hwf) Hc. destruct (covers s c) eqn:Hcov.
  { by rewrite insert_covered. }
  assert (c ∉ members s) as Hnin.
  { intros Hin. by rewrite covers_member in Hcov. }
  split_and!.
  - unfold insert. unfold covers in Hcov. rewrite Hcov. simpl.
    apply strictly_sorted_insert; [by apply strictly_sorted_filter|].
    intros Hin%list_elem_of_In%filter_In. destruct Hin as [Hin _]. by apply Hnin, list_elem_of_In.
  - intros a b Ha Hb Hab. apply insert_elem in Ha, Hb; [|done..].
    destruct Ha as [->|[Ha Hca]], Hb as [->|[Hb Hcb]]; [done|congruence| |by apply Hanti].
    exfalso. assert (covers s c = true) by (apply covers_spec; eauto). congruence.
  - intros a Ha. apply insert_elem in Ha as [->|[Ha _]]; auto.
Qed.

Lemma empty_inv : inv empty.
Proof.
  split_and!; [done|..]; [intros a b Ha|intros a Ha]; by apply not_elem_of_nil in Ha.
Qed.

Lemma from_capabilities_inv items :
  forallb wf items = true -> inv (from_capabilities items).
Proof.
  unfold from_capabilities. generalize empty_inv. generalize (@empty A) as s.
  induction items as [|c items IH]; intros s Hs; [done|].
  intros [Hc Hi]%andb_true_iff. apply IH; [|done]. by apply insert_inv.
Qed.

Lemma covers_from_capabilities items d :
  covers (from_capabilities items) d = existsb (fun c => contains c d) items.
Proof.
  unfold from_capabilities.
  assert (forall s, covers (fold_left (fun set item => (insert set item).1) items s) d =
    covers s d || existsb (fun c => contains c d) items) as Hgen; [|apply Hgen].
  induction items as [|c items IH]; intros s; simpl; [by rewrite orb_false_r|].
  rewrite IH, covers_insert. by rewrite orb_assoc.
Qed.

(** *** One representation per authority *)

Lemma inv_subset s s' :
  inv s -> inv s' -> is_contained_by s s' = true -> is_contained_by s' s = true ->
  forall a, a ∈ members s -> a ∈ members s'.
Proof.
  intros (_ & Hanti & Hwf) (_ & _ & Hwf') Hs Hs' a Ha.
  unfold is_contained_by in *. rewrite forallb_forall in Hs, Hs'.
  destruct (proj1 (covers_spec s' a)) as (b & Hb & Hba); [by apply Hs, list_elem_of_In|].
  destruct (proj1 (covers_spec s b)) as (c & Hc & Hcb); [by apply Hs', list_elem_of_In|].
  assert (c = a) as -> by (apply Hanti; [done..|by apply (contains_trans c b a)]).
  by rewrite (contains_antisym a b) by auto.
Qed.

Lemma inv_unique s s' :
  inv s -> inv s' -> (forall c, covers s c = covers s' c) -> s = s'.
Proof.
  intros Hs Hs' [Hc Hc']%covers_ext. destruct s as [l], s' as [l'].
  f_equal. apply strictly_sorted_ext; [apply Hs|apply Hs'|].
  intros a. split; by apply (inv_subset (Make _) (Make _)).
Qed.

Lemma is_contained_by_trans s1 s2 s3 :
  is_contained_by s1 s2 = true -> is_contained_by s2 s3 = true ->
  is_contained_by s1 s3 = true.
Proof.
  unfold is_contained_by. rewrite !forallb_forall. intros H12 H23 a Ha.
  destruct (proj1 (covers_spec s2 a) (H12 a Ha)) as (b & Hb & Hba).
  apply (covers_down s3 b a); [|done]. by apply H23, list_elem_of_In.
Qed.

Lemma is_contained_by_refl s : is_contained_by s s = true.
Proof.
  unfold is_contained_by. apply forallb_forall. intros a Ha%list_elem_of_In.
  by apply covers_member.
Qed.
End laws.
End CapabilitySet.
