(* ===== verification/ConstraintText.v ===== *)
(** Constraint values as text: what each parser of [capability/constraint.rs]
    accepts, that it yields a well-formed value, and that the value prints to
    text of the same length which parses back to it. *)

From S2P Require Export Prelude Text Order Constraints.

(** The characters of a printed value: none separates anything in the grammar. *)
Definition is_value_char (c : ascii) : bool :=
  is_alphanumeric c || one_of ["_"; "."; "-"; ","]%char c.

(** What a parsed constraint value owes its text. *)
Definition faithful {A} (parse : string -> result A ValueError.t) (display : A -> string)
    (wf : A -> bool) : Prop :=
  forall text v, parse text = Ok v ->
    wf v = true /\ parse (display v) = Ok v /\
    chars_count (display v) = chars_count text /\ is_empty (display v) = false /\
    str_all is_value_char (display v) = true.

(** * Integers *)

Lemma parse_u64_strict_Ok text n :
  parse_u64_strict text = Ok n <-> show_N n = text /\ (n <= U64_MAX)%N.
Proof.
  unfold parse_u64_strict. split.
  - destruct (is_empty text || _) eqn:E1; [done|]. destruct (_ && _) eqn:E2; [done|].
    intros Hp%ok_or_Ok. split; [|by eapply parse_uint_bound].
    apply (parse_uint_canonical U64_MAX); [|done]. unfold canonical_decimal.
    apply orb_false_iff in E1 as [-> ->%negb_false_iff]. by rewrite E2.
  - intros [<- Hn]. pose proof (show_N_canonical n) as Hc. unfold canonical_decimal in Hc.
    bool_to_prop. rewrite show_N_not_empty, show_N_digits. simpl.
    match goal with H : ?x && ?y = false |- context [?x && ?y] => rewrite H end.
    by rewrite parse_uint_show.
Qed.

Lemma parse_bounded_Ok max text n :
  (max <= U64_MAX)%N ->
  (let? n := parse_u64_strict text in try_from max n) = Ok n <->
  show_N n = text /\ (n <= max)%N.
Proof.
  intros Hmax. split.
  - destruct (parse_u64_strict text) as [m|] eqn:E; [|done].
    apply parse_u64_strict_Ok in E as [<- _]. unfold try_from.
    destruct (N.leb_spec m max); [by intros [= <-]|done].
  - intros [<- Hn]. rewrite (proj2 (parse_u64_strict_Ok (show_N n) n)) by (split; [done|lia]).
    unfold try_from. by apply N.leb_le in Hn as ->.
Qed.

Lemma parse_u32_strict_Ok text n :
  parse_u32_strict text = Ok n <-> show_N n = text /\ (n <= U32_MAX)%N.
Proof. by apply parse_bounded_Ok. Qed.

Lemma parse_u16_strict_Ok text n :
  parse_u16_strict text = Ok n <-> show_N n = text /\ (n <= U16_MAX)%N.
Proof. by apply parse_bounded_Ok. Qed.

Lemma integer_faithful (parse : string -> result N ValueError.t) max :
  (forall text n, parse text = Ok n <-> show_N n = text /\ (n <= max)%N) ->
  faithful parse show_N (fun n => n <=? max)%N.
Proof.
  intros Hp text n Ht. pose proof Ht as [<- Hn]%Hp.
  split_and!; [by apply N.leb_le|done|done|apply show_N_not_empty|].
  apply (str_all_impl is_digit); [|apply show_N_digits].
  intros a Ha. unfold is_value_char, is_alphanumeric. by rewrite Ha.
Qed.

(** * Flags and classes *)

Lemma flag_faithful : faithful NoSymlinkTargets.parse NoSymlinkTargets.display (fun _ => true).
Proof.
  intros text []. unfold NoSymlinkTargets.parse.
  destruct (String.eqb text "true") eqn:E; [|done].
  by apply String.eqb_eq in E as ->.
Qed.

Lemma privacy_faithful :
  faithful (fun text => ok_or (PrivacyClass.parse text) ValueError.UnknownPrivacyClass)
    PrivacyClass.as_str (fun _ => true).
Proof.
  intros text c <-%ok_or_Ok%PrivacyClass.privacy_class_parse_Some.
  split_and!; [done| |done|by destruct c|by destruct c].
  by rewrite (proj2 (PrivacyClass.privacy_class_parse_Some _ c)).
Qed.

(** * Method sets *)

Lemma has_lor b m m' :
  MethodSet.has (MethodSet.Make (N.lor b (Method.bit m'))) m
  = MethodSet.has (MethodSet.Make b) m || bool_decide (m = m').
Proof.
  unfold MethodSet.has; simpl. rewrite N.land_lor_distr_l.
  apply eq_true_iff_eq. rewrite orb_true_iff, !negb_true_iff, !N.eqb_neq, N.lor_eq_0_iff.
  assert (N.land (Method.bit m') (Method.bit m) = 0%N <-> m <> m') as Hm
    by (destruct m, m'; vm_compute; split; congruence).
  rewrite Hm, bool_decide_eq_true. split.
  - intros Hn. destruct (decide (m = m')); [by right|left; tauto].
  - intros [?| ->]; tauto.
Qed.

Lemma lor_bit_bound b m : (b < 128)%N -> (N.lor b (Method.bit m) < 128)%N.
Proof.
  intros Hb. apply N.ltb_lt. revert b Hb. apply (N_forall_below _ 128).
  by destruct m; vm_compute.
Qed.

Lemma methods_parse_parts bits parts s :
  MethodSet.parse_parts bits parts = Ok s -> (bits < 128)%N ->
  exists ms, Method.as_str <$> ms = parts /\ NoDup ms /\
    (forall m, m ∈ ms -> MethodSet.has (MethodSet.Make bits) m = false) /\
    (forall m, MethodSet.has s m = MethodSet.has (MethodSet.Make bits) m || bool_decide (m ∈ ms)) /\
    (MethodSet.bits s < 128)%N.
Proof.
  revert bits; induction parts as [|part parts IH]; intros bits; simpl.
  - intros [= <-] Hb. exists []. split_and!; [done|constructor| | |done].
    + by intros m ?%not_elem_of_nil.
    + intros m. rewrite bool_decide_eq_false_2 by apply not_elem_of_nil. by rewrite orb_false_r.
  - destruct (is_empty part); [done|].
    destruct (Method.parse part) as [m|] eqn:Em; [|done]; simpl.
    apply Method.method_parse_Some in Em as <-.
    destruct (N.land bits (Method.bit m) =? 0)%N eqn:Eb; [|done]; simpl.
    intros Hp Hb. destruct (IH _ Hp (lor_bit_bound _ m Hb)) as (ms & <- & Hnd & Hout & Hhas & Hs).
    exists (m :: ms). split_and!; [done| | | |done].
    + constructor; [|done]. intros Hin. specialize (Hout m Hin).
      rewrite has_lor, bool_decide_eq_true_2, orb_true_r in Hout by done. done.
    + intros k [->|Hk]%elem_of_cons.
      * unfold MethodSet.has; simpl. by rewrite Eb.
      * specialize (Hout k Hk). rewrite has_lor in Hout. by apply orb_false_iff in Hout as [? _].
    + intros k. rewrite Hhas, has_lor, <- orb_assoc. f_equal.
      apply eq_true_iff_eq. rewrite orb_true_iff, !bool_decide_eq_true, elem_of_cons. done.
Qed.

Lemma methods_NoDup s : NoDup (MethodSet.methods s).
Proof.
  apply NoDup_ListNoDup, List.NoDup_filter, NoDup_ListNoDup.
  apply (bool_decide_unpack _). vm_compute. exact I.
Qed.

Lemma method_in_ALL m : In m Method.ALL.
Proof. destruct m; simpl; auto 10. Qed.

(** Every one of the 127 sets parses back from its text. *)
Lemma methods_parse_display s :
  MethodSet.wf s = true -> MethodSet.parse (MethodSet.display s) = Ok s.
Proof.
  destruct s as [b]. intros Hw. unfold MethodSet.wf in Hw; simpl in Hw. bool_to_prop.
  match goal with H : (b <? 128)%N = true |- _ => apply N.ltb_lt in H; rename H into Hb end.
  apply (bool_decide_eq_true (_ = _)).
  assert ((b =? 0)%N || bool_decide
    (MethodSet.parse (MethodSet.display (MethodSet.Make b)) = Ok (MethodSet.Make b)) = true) as Hall.
  { clear H. revert b Hb. apply (N_forall_below _ 128). by vm_compute. }
  apply orb_true_iff in Hall as [E%N.eqb_eq|]; [by subst|done].
Qed.

Lemma sum_list_fmap {A B} (f : A -> B) (g : B -> nat) (l : list A) :
  sum_list_with g (f <$> l) = sum_list_with (fun a => g (f a)) l.
Proof. induction l as [|a l IH]; [done|]. simpl. by rewrite <- IH. Qed.

(** Joining a permutation of the parts gives text of the same length. *)
Lemma chars_count_join_perm sep l k :
  is_continuation sep = false -> l ≡ₚ k ->
  chars_count (str_join sep l) = chars_count (str_join sep k).
Proof.
  intros Hs Hp. rewrite !chars_count_join by done.
  by rewrite (sum_list_perm _ l k), (Permutation_length Hp).
Qed.

Lemma join_not_empty sep s l : is_empty s = false -> is_empty (str_join sep (s :: l)) = false.
Proof. destruct s; [done|]. by destruct l. Qed.

Lemma str_all_join f sep l :
  f sep = true -> Forall (fun p => str_all f p = true) l -> str_all f (str_join sep l) = true.
Proof.
  intros Hs. induction 1 as [|p l Hp Hl IH]; [done|].
  destruct (decide (l = [])) as [->|Hne]; [done|].
  rewrite str_join_cons, str_all_app by done. simpl. by rewrite Hp, Hs, IH.
Qed.

Lemma methods_faithful : faithful MethodSet.parse MethodSet.display MethodSet.wf.
Proof.
  intros text s Hp. unfold MethodSet.parse in Hp.
  destruct (methods_parse_parts _ _ _ Hp) as (ms & Htext & Hnd & _ & Hhas & Hs); [done|].
  assert (MethodSet.methods s ≡ₚ ms) as Hperm.
  { apply NoDup_Permutation; [apply methods_NoDup|done|]. intros m.
    unfold MethodSet.methods. rewrite list_elem_of_In, filter_In, Hhas. simpl.
    rewrite bool_decide_eq_true. pose proof (method_in_ALL m). tauto. }
  destruct ms as [|m0 ms]; [symmetry in Htext; by apply str_split_not_nil in Htext|].
  assert (MethodSet.wf s = true) as Hwf.
  { unfold MethodSet.wf. apply andb_true_iff. split; [|by apply N.ltb_lt].
    apply N.ltb_lt. destruct (N.eq_dec (MethodSet.bits s) 0%N) as [E|]; [|lia].
    specialize (Hhas m0). rewrite bool_decide_eq_true_2 in Hhas by left.
    unfold MethodSet.has in Hhas at 1. rewrite E in Hhas. done. }
  split_and!; [done|by apply methods_parse_display| | |].
  - rewrite <- (str_join_split "," text), <- Htext.
    apply chars_count_join_perm; [done|]. by rewrite Hperm.
  - unfold MethodSet.display. destruct (MethodSet.methods s) as [|m l].
    + by apply Permutation_nil_l in Hperm.
    + simpl fmap. by apply join_not_empty; destruct m.
  - apply str_all_join; [done|]. apply Forall_fmap, Forall_forall. by intros [] _.
Qed.

(** * Argv allowlists *)

Lemma argv_new_Some l a :
  ArgvAllowlist.new l = Some a ->
  ArgvAllowlist.tokens a = sort l /\ l <> [] /\
  (length l <= ArgvAllowlist.MAX_TOKENS)%nat /\ strictly_sorted (sort l) = true.
Proof.
  unfold ArgvAllowlist.new. destruct (_ || _) eqn:E; [done|].
  apply orb_false_iff in E as [Hnil Hlen]. apply Nat.ltb_ge in Hlen.
  intros [Hd <-]%then_some_Some. apply Nat.eqb_eq in Hd.
  destruct (dedup_full (sort l) (sort_sorted l) Hd) as [Hnd ->]. simpl.
  split_and!; [done|by intros ->|done|].
  apply weakly_strictly_sorted; [apply sort_sorted|done].
Qed.

Lemma argv_new_sorted l :
  l <> [] -> (length l <= ArgvAllowlist.MAX_TOKENS)%nat -> strictly_sorted l = true ->
  ArgvAllowlist.new l = Some (ArgvAllowlist.Make l).
Proof.
  intros Hne Hlen Hs. unfold ArgvAllowlist.new.
  apply Nat.ltb_ge in Hlen as ->. destruct l as [|x l]; [done|]. cbn [ArgvAllowlist.is_nil orb].
  rewrite sort_strictly_sorted, dedup_strictly_sorted by done. by rewrite Nat.eqb_refl.
Qed.

Lemma argv_parse_parts acc parts l :
  ArgvAllowlist.parse_parts acc parts = Ok l ->
  exists new, l = acc ++ new /\ ArgvToken.as_str <$> new = parts /\
    forallb ArgvToken.wf new = true /\ (NoDup acc -> NoDup l).
Proof.
  revert acc; induction parts as [|part parts IH]; intros acc; simpl.
  - intros [= <-]. exists []. by rewrite app_nil_r.
  - destruct (is_empty part); [done|].
    destruct (ArgvToken.new part) as [token|] eqn:Et; [|done]; simpl.
    apply ArgvToken.argv_token_new_Some in Et as [-> Hw].
    destruct (bool_decide _) eqn:Hin; [done|]. apply bool_decide_eq_false in Hin.
    intros (new & -> & <- & Hnew & Hnd)%IH. exists (ArgvToken.Make part :: new).
    rewrite <- app_assoc in *. simpl. rewrite Hw, Hnew. split_and!; [done..|].
    intros Hacc. apply Hnd. apply NoDup_app. split_and!; [done| |apply NoDup_singleton].
    by intros x Hx ->%list_elem_of_singleton.
Qed.

Lemma argv_token_nonempty token : ArgvToken.wf token = true -> is_empty (ArgvToken.as_str token) = false.
Proof. unfold ArgvToken.wf, ArgvToken.wf_text. intros H. bool_to_prop. done. Qed.

Lemma argv_tokens_no c l :
  ArgvToken.is_char c = false -> forallb ArgvToken.wf l = true ->
  Forall (fun p => str_contains c p = false) (ArgvToken.as_str <$> l).
Proof.
  intros Hc. induction l as [|token l IH]; simpl; [constructor|].
  intros [Ht Hl]%andb_true_iff. constructor; [|auto].
  unfold ArgvToken.wf, ArgvToken.wf_text in Ht. bool_to_prop.
  by apply (str_all_not_contains ArgvToken.is_char).
Qed.

Lemma argv_parse_tokens acc l :
  forallb ArgvToken.wf l = true -> NoDup (acc ++ l) ->
  ArgvAllowlist.parse_parts acc (ArgvToken.as_str <$> l) = Ok (acc ++ l).
Proof.
  revert acc; induction l as [|token l IH]; intros acc; simpl; [by rewrite app_nil_r|].
  intros [Ht Hl]%andb_true_iff Hnd. rewrite argv_token_nonempty by done.
  rewrite (proj2 (ArgvToken.argv_token_new_Some _ token)) by by destruct token. simpl.
  rewrite bool_decide_eq_false_2.
  - rewrite IH; [by rewrite <- app_assoc|done|]. by rewrite <- app_assoc.
  - apply NoDup_app in Hnd as (_ & Hnd & _). intros Hin. apply (Hnd token Hin). left.
Qed.

Lemma argv_parse_display a :
  ArgvAllowlist.wf a = true -> ArgvAllowlist.parse (ArgvAllowlist.display a) = Ok a.
Proof.
  destruct a as [l]. unfold ArgvAllowlist.wf; simpl. intros H. bool_to_prop.
  match goal with H : (_ <=? _)%nat = true |- _ => apply Nat.leb_le in H end.
  assert (l <> []) as Hne by (by intros ->).
  unfold ArgvAllowlist.parse, ArgvAllowlist.display; simpl.
  rewrite str_split_join; [|by destruct l|by apply argv_tokens_no].
  rewrite argv_parse_tokens; [|done|by apply strictly_sorted_NoDup]. simpl.
  by rewrite argv_new_sorted.
Qed.

Lemma argv_faithful : faithful ArgvAllowlist.parse ArgvAllowlist.display ArgvAllowlist.wf.
Proof.
  intros text a. unfold ArgvAllowlist.parse.
  destruct (ArgvAllowlist.parse_parts [] _) as [l|] eqn:El; [|done].
  apply argv_parse_parts in El as (new & -> & Htext & Hw & _). rewrite app_nil_l.
  intros (Htok & Hne & Hlen & Hsort)%ok_or_Ok%argv_new_Some.
  pose proof (sort_perm new) as Hperm. rewrite <- Htok in Hperm, Hsort.
  assert (ArgvAllowlist.wf a = true) as Hwf.
  { unfold ArgvAllowlist.wf. rewrite Hsort, (Permutation_length Hperm).
    apply Nat.leb_le in Hlen as ->. rewrite !andb_true_r, andb_true_iff. split.
    - destruct (ArgvAllowlist.tokens a); [|done]. by apply Permutation_nil_l in Hperm.
    - rewrite forallb_forall in Hw |- *. intros x Hx. apply Hw.
      apply list_elem_of_In. rewrite <- Hperm. by apply list_elem_of_In. }
  split_and!; [done|by apply argv_parse_display| | |].
  - rewrite <- (str_join_split "," text), <- Htext.
    apply chars_count_join_perm; [done|]. by rewrite Hperm.
  - unfold ArgvAllowlist.display, ArgvAllowlist.wf in *. bool_to_prop.
    destruct (ArgvAllowlist.tokens a) as [|x k]; [done|]. simpl in *. bool_to_prop.
    by apply join_not_empty, argv_token_nonempty.
  - apply str_all_join; [done|]. apply Forall_fmap, Forall_forall. intros token Hin. simpl.
    unfold ArgvAllowlist.wf in Hwf. bool_to_prop.
    match goal with H : forallb _ _ = true |- _ => rewrite forallb_forall in H;
      specialize (H token (proj1 (list_elem_of_In _ _) Hin)) end.
    unfold ArgvToken.wf, ArgvToken.wf_text in *. bool_to_prop.
    apply (str_all_impl ArgvToken.is_char); [|done].
    intros c. unfold ArgvToken.is_char, is_value_char, one_of. simpl.
    rewrite !orb_true_iff. tauto.
Qed.
