(* ===== verification/CapParse.v ===== *)
(** The capability grammar ([capability/parse.rs]), the canonical text of
    capabilities and constraint sets, and the lemmas that a parsed value
    prints back to text that parses to it. *)

From S2P Require Export Prelude Text Order Capabilities CapSet.

Definition MAX_CAPABILITY_CHARS : nat := 512.

Definition parse_verb (text : string) : result Verb.t CapabilityError.t :=
  let? (namespace_text, action_text) :=
    ok_or (str_split_once "." text) CapabilityError.MissingAction in
  if is_empty namespace_text then Err CapabilityError.EmptyNamespace
  else if is_empty action_text then Err CapabilityError.EmptyAction
  else if str_contains "." action_text then
    let? namespace :=
      ok_or (Namespace.parse namespace_text) CapabilityError.UnknownNamespace in
    Err (CapabilityError.UnknownAction namespace)
  else
    let? namespace :=
      ok_or (Namespace.parse namespace_text) CapabilityError.UnknownNamespace in
    ok_or (Verb.parse_action namespace action_text) (CapabilityError.UnknownAction namespace).

(** [From<ScopeError> for CapabilityError], which [?] applies. *)
Definition scope_error {A} (r : result A ScopeError.t) : result A CapabilityError.t :=
  map_err CapabilityError.InvalidScope r.

Definition parse_scope (verb : Verb.t) (text : string) : result ScopeSpec.t CapabilityError.t :=
  if is_empty text then Err CapabilityError.EmptyScope
  else if String.eqb text "*" then Ok ScopeSpec.Universal
  else
    let syntactic s := Ok (ScopeSpec.Syntactic s) in
    let name text := ok_or (Label.new text) (CapabilityError.InvalidScope ScopeError.MalformedName) in
    let path text :=
      ok_or (DeclaredPath.new text) (CapabilityError.InvalidScope ScopeError.MalformedPath) in
    match Verb.scope_family verb with
    | ScopeFamily.Path => let? p := path text in Ok (ScopeSpec.DeclaredPath p)
    | ScopeFamily.Executable => let? p := path text in Ok (ScopeSpec.DeclaredExecutable p)
    | ScopeFamily.Endpoint =>
        let? e := scope_error (Endpoint.parse text) in syntactic (SyntacticScope.Endpoint e)
    | ScopeFamily.CredentialHandle =>
        let? l := name text in syntactic (SyntacticScope.CredentialHandle l)
    | ScopeFamily.ProviderModel =>
        let? p := scope_error (ProviderModel.parse text) in
        syntactic (SyntacticScope.ProviderModel p)
    | ScopeFamily.Domain =>
        let? h := scope_error (HostPattern.parse text) in syntactic (SyntacticScope.Domain h)
    | ScopeFamily.ServerId => let? l := name text in syntactic (SyntacticScope.ServerId l)
    | ScopeFamily.AgentProfile =>
        let? p := scope_error (Pattern.parse text) in syntactic (SyntacticScope.AgentProfile p)
    | ScopeFamily.MemoryScope => let? l := name text in syntactic (SyntacticScope.MemoryScope l)
    | ScopeFamily.Intent =>
        let? p := scope_error (Pattern.parse text) in syntactic (SyntacticScope.Intent p)
    | ScopeFamily.ArtifactScope =>
        let? l := name text in syntactic (SyntacticScope.ArtifactScope l)
    | ScopeFamily.ChannelTarget =>
        let? c := scope_error (ChannelTarget.parse text) in
        syntactic (SyntacticScope.ChannelTarget c)
    end.

(** [apply(&mut set, name, value)]: the set with the named field set. *)
Definition apply (set : ConstraintSet.t) (name : ConstraintName.t) (value : string) :
    result ConstraintSet.t ValueError.t :=
  let '(ConstraintSet.Make b l m r a p d f) := set in
  match name with
  | ConstraintName.MaxBytes =>
      let? v := parse_u64_strict value in Ok (ConstraintSet.Make (Some v) l m r a p d f)
  | ConstraintName.NoSymlinkTargets =>
      let? v := NoSymlinkTargets.parse value in Ok (ConstraintSet.Make b (Some v) m r a p d f)
  | ConstraintName.Methods =>
      let? v := MethodSet.parse value in Ok (ConstraintSet.Make b l (Some v) r a p d f)
  | ConstraintName.MaxRequests =>
      let? v := parse_u32_strict value in Ok (ConstraintSet.Make b l m (Some v) a p d f)
  | ConstraintName.ArgvAllowlist =>
      let? v := ArgvAllowlist.parse value in Ok (ConstraintSet.Make b l m r (Some v) p d f)
  | ConstraintName.PrivacyClass =>
      let? v := ok_or (PrivacyClass.parse value) ValueError.UnknownPrivacyClass in
      Ok (ConstraintSet.Make b l m r a (Some v) d f)
  | ConstraintName.Depth =>
      let? v := Constraints.parse_u16_strict value in Ok (ConstraintSet.Make b l m r a p (Some v) f)
  | ConstraintName.Fanout =>
      let? v := Constraints.parse_u16_strict value in Ok (ConstraintSet.Make b l m r a p d (Some v))
  end.

(** One item of the loop, after the names in [seen]. *)
Definition parse_item (verb : Verb.t) (seen : list ConstraintName.t) (set : ConstraintSet.t)
    (item : string) : result (ConstraintName.t * ConstraintSet.t) CapabilityError.t :=
  if is_empty item then Err CapabilityError.MalformedConstraint
  else
    let? (name_text, value) := ok_or (str_split_once "=" item) CapabilityError.MalformedConstraint in
    if is_empty name_text then Err CapabilityError.EmptyConstraintName
    else if is_empty value then Err CapabilityError.EmptyConstraintValue
    else
      let? name := ok_or (ConstraintName.parse name_text) CapabilityError.UnknownConstraint in
      if bool_decide (name ∈ seen) then Err (CapabilityError.DuplicateConstraint name)
      else if negb (applies_to name verb)
      then Err (CapabilityError.ConstraintNotApplicable name verb)
      else
        let? set := map_err (CapabilityError.InvalidConstraintValue name) (apply set name value) in
        Ok (name, set).

Fixpoint parse_items (verb : Verb.t) (seen : list ConstraintName.t) (set : ConstraintSet.t)
    (items : list string) : result ConstraintSet.t CapabilityError.t :=
  match items with
  | [] => Ok set
  | item :: rest =>
      let? (name, set) := parse_item verb seen set item in
      parse_items verb (seen ++ [name]) set rest
  end.

Definition parse_constraints (verb : Verb.t) (text : string) :
    result ConstraintSet.t CapabilityError.t :=
  parse_items verb [] ConstraintSet.unconstrained (str_split "&" text).

(** The constraints split off at the first [?]. *)
Definition split_constraints (text : string) :
    result (string * option string) CapabilityError.t :=
  match str_split_once "?" text with
  | None => Ok (text, None)
  | Some (head, rest) =>
      if str_contains "?" rest then Err CapabilityError.RepeatedConstraintSeparator
      else if is_empty rest then Err CapabilityError.EmptyConstraints
      else Ok (head, Some rest)
  end.

Definition parse (text : string) : result CapabilitySpec.t CapabilityError.t :=
  if is_empty text then Err CapabilityError.Empty
  else if (MAX_CAPABILITY_CHARS <? chars_count text)%nat then Err CapabilityError.TooLong
  else
    let? (head, constraint_text) := split_constraints text in
    let? (verb_text, scope_text) := ok_or (str_split_once ":" head) CapabilityError.MissingScope in
    let? verb := parse_verb verb_text in
    let? scope := parse_scope verb scope_text in
    let? constraints :=
      match constraint_text with
      | None => Ok ConstraintSet.unconstrained
      | Some text => parse_constraints verb text
      end in
    Ok (CapabilitySpec.new verb scope constraints).

(** * Canonical text *)

(** The value of a present constraint, as it is written. *)
Definition value_text (c : ConstraintSet.t) (name : ConstraintName.t) : option string :=
  match name with
  | ConstraintName.MaxBytes => show_N <$> ConstraintSet.max_bytes c
  | ConstraintName.NoSymlinkTargets =>
      NoSymlinkTargets.display <$> ConstraintSet.no_symlink_targets c
  | ConstraintName.Methods => MethodSet.display <$> ConstraintSet.methods c
  | ConstraintName.MaxRequests => show_N <$> ConstraintSet.max_requests c
  | ConstraintName.ArgvAllowlist => ArgvAllowlist.display <$> ConstraintSet.argv_allowlist c
  | ConstraintName.PrivacyClass => PrivacyClass.as_str <$> ConstraintSet.privacy_class c
  | ConstraintName.Depth => show_N <$> ConstraintSet.depth c
  | ConstraintName.Fanout => show_N <$> ConstraintSet.fanout c
  end.

Definition item_text (c : ConstraintSet.t) (name : ConstraintName.t) : option string :=
  (fun v => ConstraintName.as_str name +:+ String "=" v) <$> value_text c name.

(** [Display for ConstraintSet]: the present ones in canonical order, [&]-joined. *)
Definition display_constraints (c : ConstraintSet.t) : string :=
  str_join "&" (filter_map (item_text c) ConstraintName.ALL).

(** What [Display] appends after verb and scope. *)
Definition display_suffix (c : ConstraintSet.t) : string :=
  if ConstraintSet.is_empty c then EmptyString else String "?" (display_constraints c).

(** [Display for CapabilitySpec]. *)
Definition display_spec (s : CapabilitySpec.t) : string :=
  Verb.display (CapabilitySpec.verb s)
  +:+ String ":" (ScopeSpec.display (CapabilitySpec.scope s)
                  +:+ display_suffix (CapabilitySpec.constraints s)).

(** [Display for Capability]. *)
Definition display_capability (c : Capability.t) : string :=
  Verb.display (Capability.verb c)
  +:+ String ":" (Scope.display (Capability.scope c)
                  +:+ display_suffix (Capability.constraints c)).

(** [Display for CapabilitySet]. *)
Definition display_set (s : CapabilitySet.t Capability.t) : string :=
  str_join "," (display_capability <$> CapabilitySet.members s).
