(* ===== verification/CapRoundTrip.v ===== *)
(** What the capability parser accepts, and that the value it yields prints
    back to text that parses to it. *)

From S2P Require Export Prelude Text Order ConstraintText CapParse.

(** * Verbs and scopes print back to the text they were read from *)

Lemma parse_verb_Ok text v :
  parse_verb text = Ok v <-> Verb.display v = text /\ Verb.wf v = true.
Proof.
  unfold parse_verb. split.
  - destruct (str_split_once "." text) as [[n a]|] eqn:E; simpl; [|done].
    apply str_split_once_Some in E as [-> _].
    destruct (is_empty n); [done|]. destruct (is_empty a); [done|].
    destruct (str_contains "." a).
    { by destruct (Namespace.parse n). }
    destruct (Namespace.parse n) as [ns|] eqn:En; simpl; [|done].
    apply Namespace.namespace_parse_Some in En as <-.
    intros (<- & <- & Hw)%ok_or_Ok%Verb.parse_action_Some. done.
  - intros [<- Hw]. destruct (Verb.display_shape v) as (Hn & Ha & _ & _ & He & He').
    unfold Verb.display. rewrite str_split_once_app by done. simpl.
    rewrite He, He', Ha. rewrite (proj2 (Namespace.namespace_parse_Some _ (Verb.namespace v)) eq_refl).
    simpl. by rewrite Verb.parse_action_display.
Qed.

(** Whether a declared scope is what a verb's family declares. *)
Definition spec_fits (verb : Verb.t) (s : ScopeSpec.t) : bool :=
  is_none_or (ScopeSpec.family s) (fun f => bool_decide (f = Verb.scope_family verb)).

Lemma parse_scope_Ok verb text s :
  parse_scope verb text = Ok s -> ScopeSpec.display s = text /\ spec_fits verb s = true.
Proof.
  unfold parse_scope, spec_fits. destruct (is_empty text); [done|].
  destruct (String.eqb_spec text "*") as [->|_]; [by intros [= <-]|].
  destruct (Verb.scope_family verb) eqn:Ef; unfold scope_error.
  - destruct (DeclaredPath.new text) eqn:E; [|done]. intros [= <-].
    by apply DeclaredPath.declared_path_new_Some in E as [-> _].
  - destruct (DeclaredPath.new text) eqn:E; [|done]. intros [= <-].
    by apply DeclaredPath.declared_path_new_Some in E as [-> _].
  - destruct (Endpoint.parse text) eqn:E; [|done]. intros [= <-].
    by apply Endpoint.endpoint_parse_display_text in E as (<- & _).
  - destruct (Label.new text) eqn:E; [|done]. intros [= <-]. by apply Label.label_new_Some in E as [-> _].
  - destruct (ProviderModel.parse text) eqn:E; [|done]. intros [= <-].
    by apply ProviderModel.provider_model_parse_display_text in E as [<- _].
  - destruct (HostPattern.parse text) eqn:E; [|done]. intros [= <-].
    by apply HostPattern.host_pattern_parse_display_text in E as [<- _].
  - destruct (Label.new text) eqn:E; [|done]. intros [= <-]. by apply Label.label_new_Some in E as [-> _].
  - destruct (Pattern.parse text) eqn:E; [|done]. intros [= <-].
    by apply Pattern.pattern_parse_display_text in E as [<- _].
  - destruct (Label.new text) eqn:E; [|done]. intros [= <-]. by apply Label.label_new_Some in E as [-> _].
  - destruct (Pattern.parse text) eqn:E; [|done]. intros [= <-].
    by apply Pattern.pattern_parse_display_text in E as [<- _].
  - destruct (Label.new text) eqn:E; [|done]. intros [= <-]. by apply Label.label_new_Some in E as [-> _].
  - destruct (ChannelTarget.parse text) eqn:E; [|done]. intros [= <-].
    by apply ChannelTarget.channel_target_parse_display_text in E as [<- _].
Qed.

(** * One constraint *)

(** [set] with the named field taken from [source]. *)
Definition copy_field (source : ConstraintSet.t) (name : ConstraintName.t) (set : ConstraintSet.t) :
    ConstraintSet.t :=
  let '(ConstraintSet.Make b l m r a p d f) := set in
  match name with
  | ConstraintName.MaxBytes => ConstraintSet.Make (ConstraintSet.max_bytes source) l m r a p d f
  | ConstraintName.NoSymlinkTargets =>
      ConstraintSet.Make b (ConstraintSet.no_symlink_targets source) m r a p d f
  | ConstraintName.Methods => ConstraintSet.Make b l (ConstraintSet.methods source) r a p d f
  | ConstraintName.MaxRequests =>
      ConstraintSet.Make b l m (ConstraintSet.max_requests source) a p d f
  | ConstraintName.ArgvAllowlist =>
      ConstraintSet.Make b l m r (ConstraintSet.argv_allowlist source) p d f
  | ConstraintName.PrivacyClass =>
      ConstraintSet.Make b l m r a (ConstraintSet.privacy_class source) d f
  | ConstraintName.Depth => ConstraintSet.Make b l m r a p (ConstraintSet.depth source) f
  | ConstraintName.Fanout => ConstraintSet.Make b l m r a p d (ConstraintSet.fanout source)
  end.

(** The text of a field that was read, as [apply] would read it back. *)
Definition readable (set : ConstraintSet.t) (name : ConstraintName.t) (len : nat) : Prop :=
  exists v, value_text set name = Some v /\ chars_count v = len /\ is_empty v = false /\
    str_all is_value_char v = true /\
    (forall set0, apply set0 name v = Ok (copy_field set name set0)).

Ltac read_value H faith :=
  let v := fresh "v" in let E := fresh "E" in
  match type of H with
  | (let? _ := ?c in _) = _ => destruct c as [v|] eqn:E; [injection H as <-|discriminate H]
  end;
  let Hw := fresh "Hw" in let Hd := fresh "Hd" in let Hl := fresh "Hl" in
  let Hne := fresh "Hne" in let Hch := fresh "Hch" in
  destruct (faith _ _ E) as (Hw & Hd & Hl & Hne & Hch);
  split_and!;
    [eexists; split_and!; [reflexivity|exact Hl|exact Hne|exact Hch|intros []; cbn [apply]; by rewrite Hd]
    |reflexivity
    |unfold ConstraintSet.wf; simpl; rewrite !andb_true_iff; intros; destruct_and!;
     split_and!; (exact Hw || assumption)].

Lemma apply_Ok set name value set' :
  apply set name value = Ok set' ->
  readable set' name (chars_count value) /\
  set' = copy_field set' name set /\
  (ConstraintSet.wf set = true -> ConstraintSet.wf set' = true).
Proof.
  destruct set; destruct name; simpl; intros H.
  - read_value H (integer_faithful _ _ parse_u64_strict_Ok).
  - read_value H flag_faithful.
  - read_value H methods_faithful.
  - read_value H (integer_faithful _ _ parse_u32_strict_Ok).
  - read_value H argv_faithful.
  - read_value H privacy_faithful.
  - read_value H (integer_faithful _ _ parse_u16_strict_Ok).
  - read_value H (integer_faithful _ _ parse_u16_strict_Ok).
Qed.

(** * The loop over the constraints *)

(** Two sets agree on a field. *)
Definition same_field (s s' : ConstraintSet.t) (name : ConstraintName.t) : Prop :=
  (forall set, copy_field s name set = copy_field s' name set) /\
  value_text s name = value_text s' name /\ ConstraintSet.has s name = ConstraintSet.has s' name.

Lemma copy_field_same src s n : same_field (copy_field src n s) src n.
Proof. destruct s, n; (split; [by intros []|by split]). Qed.

Lemma copy_field_other src s n m : n <> m -> same_field (copy_field src n s) s m.
Proof. intros Hnm. destruct s, n, m; try done; (split; [by intros []|by split]). Qed.

Definition copy_fields (src : ConstraintSet.t) (names : list ConstraintName.t)
    (set : ConstraintSet.t) : ConstraintSet.t :=
  fold_left (fun set n => copy_field src n set) names set.

Lemma copy_fields_other src names s m : m ∉ names -> same_field (copy_fields src names s) s m.
Proof.
  revert s; induction names as [|n names IH]; intros s; [done|].
  intros [Hn Hm]%not_elem_of_cons. simpl.
  destruct (IH (copy_field src n s) Hm) as (H1 & H2 & H3).
  destruct (copy_field_other src s n m) as (H1' & H2' & H3'); [done|].
  split_and!; [intros set; by rewrite H1, H1'|congruence..].
Qed.

Lemma readable_same s s' name len :
  same_field s s' name -> readable s' name len -> readable s name len.
Proof.
  intros (Hc & Hv & _) (v & Ev & Hlen & He & Hch & Ha). exists v. rewrite Hv.
  split_and!; [done..|]. intros set0. by rewrite Hc.
Qed.

(** What the item [item] for [name] owes the final set. *)
Definition item_read (set : ConstraintSet.t) (item : string) (name : ConstraintName.t) : Prop :=
  exists len, readable set name len /\
    chars_count item = chars_count (ConstraintName.as_str name) + (1 + len).

Lemma parse_item_Ok verb seen set item name set' :
  parse_item verb seen set item = Ok (name, set') ->
  item_read set' item name /\ (name ∉ seen) /\ applies_to name verb = true /\
  set' = copy_field set' name set /\
  (ConstraintSet.wf set = true -> ConstraintSet.wf set' = true).
Proof.
  unfold parse_item. destruct (is_empty item); [done|].
  destruct (str_split_once "=" item) as [[n v]|] eqn:Es; simpl; [|done].
  apply str_split_once_Some in Es as [-> _].
  destruct (is_empty n); [done|]. destruct (is_empty v); [done|].
  destruct (ConstraintName.parse n) as [nm|] eqn:En; simpl; [|done].
  apply ConstraintName.constraint_name_parse_Some in En as <-.
  destruct (bool_decide (nm ∈ seen)) eqn:Hseen; [done|]. apply bool_decide_eq_false in Hseen.
  destruct (applies_to nm verb) eqn:Happ; simpl; [|done].
  destruct (apply set nm v) as [s|] eqn:Ea; simpl; [|done]. intros [= <- <-].
  apply apply_Ok in Ea as (Hr & Hcopy & Hwf). split_and!; [|done..].
  exists (chars_count v). split; [done|]. by rewrite chars_count_app.
Qed.

Lemma parse_items_Ok verb seen set items set' :
  parse_items verb seen set items = Ok set' ->
  exists names, Forall2 (item_read set') items names /\ NoDup names /\
    (forall n, n ∈ names -> n ∉ seen) /\ forallb (fun n => applies_to n verb) names = true /\
    set' = copy_fields set' names set /\
    (ConstraintSet.wf set = true -> ConstraintSet.wf set' = true).
Proof.
  revert seen set; induction items as [|item items IH]; intros seen set; simpl.
  - intros [= <-]. exists []. split_and!; [constructor|constructor| |done..].
    by intros n ?%not_elem_of_nil.
  - destruct (parse_item verb seen set item) as [[name set1]|] eqn:E; [|done].
    apply parse_item_Ok in E as ((len & Hread & Hlen) & Hseen & Happ & Hcopy & Hwf).
    intros (names & Hall & Hnd & Hout & Happs & Hset & Hwf')%IH.
    assert (name ∉ names) as Hnin.
    { intros Hin. apply (Hout name Hin). rewrite elem_of_app, list_elem_of_singleton. auto. }
    assert (same_field set' set1 name) as Hsame.
    { rewrite Hset. by apply copy_fields_other. }
    exists (name :: names). split_and!.
    + constructor; [|done]. exists len. split; [by apply (readable_same _ set1)|done].
    + by constructor.
    + intros n [->|Hn]%elem_of_cons; [done|]. intros Hin. apply (Hout n Hn).
      rewrite elem_of_app. auto.
    + simpl. by rewrite Happ, Happs.
    + simpl. rewrite (proj1 Hsame). by rewrite <- Hcopy.
    + auto.
Qed.

(** The names read are the ones present. *)
Lemma parse_items_present verb items set :
  parse_items verb [] ConstraintSet.unconstrained items = Ok set ->
  exists names, Forall2 (item_read set) items names /\
    ConstraintSet.present set ≡ₚ names /\
    forallb (fun n => applies_to n verb) names = true /\ ConstraintSet.wf set = true.
Proof.
  intros (names & Hall & Hnd & _ & Happ & Hset & Hwf)%parse_items_Ok.
  exists names. split_and!; [done| |done|by apply Hwf].
  apply NoDup_Permutation; [|done|].
  - unfold ConstraintSet.present. apply NoDup_ListNoDup, List.NoDup_filter, NoDup_ListNoDup.
    apply (bool_decide_unpack _). vm_compute. exact I.
  - intros n. rewrite list_elem_of_In, ConstraintSet.present_spec. split.
    + intros Hhas. apply dec_stable. intros Hn.
      destruct (copy_fields_other set names ConstraintSet.unconstrained n Hn) as (_ & _ & H).
      rewrite <- Hset, Hhas in H. by destruct n.
    + intros Hn. apply list_elem_of_lookup in Hn as [i Hi].
      apply (Forall2_lookup_r _ _ _ _ _ Hall) in Hi as (item & _ & len & (v & Hv & _) & _).
      clear -Hv. destruct set, n; simpl in *;
        match goal with H : _ <$> ?o = Some _ |- _ => by destruct o end.
Qed.

(** * Printing the set and reading it back *)

Definition copy_present (src : ConstraintSet.t) (set : ConstraintSet.t) (n : ConstraintName.t) :
    ConstraintSet.t :=
  if ConstraintSet.has src n then copy_field src n set else set.

Lemma copy_present_all src :
  fold_left (copy_present src) ConstraintName.ALL ConstraintSet.unconstrained = src.
Proof. by destruct src as [[] [] [] [] [] [] [] []]. Qed.

Lemma name_shape n :
  is_empty (ConstraintName.as_str n) = false /\
  str_contains "=" (ConstraintName.as_str n) = false /\
  str_contains "&" (ConstraintName.as_str n) = false /\
  str_contains "?" (ConstraintName.as_str n) = false.
Proof. by destruct n. Qed.

(** Every present constraint reads back, on its own. *)
Definition all_readable (set : ConstraintSet.t) : Prop :=
  forall n, ConstraintSet.has set n = true -> exists len, readable set n len.

Lemma item_text_present set n :
  all_readable set -> ConstraintSet.has set n = true ->
  exists v, value_text set n = Some v /\
    item_text set n = Some (ConstraintName.as_str n +:+ String "=" v) /\ is_empty v = false /\
    str_all is_value_char v = true /\
    (forall set0, apply set0 n v = Ok (copy_field set n set0)).
Proof.
  intros Hall Hn. destruct (Hall n Hn) as (len & v & Hv & _ & He & Hch & Ha).
  exists v. unfold item_text. by rewrite Hv.
Qed.

Lemma item_text_absent set n : ConstraintSet.has set n = false -> item_text set n = None.
Proof.
  unfold item_text. destruct set, n; simpl;
    match goal with |- is_some ?o = _ -> _ => by destruct o end.
Qed.

Lemma parse_items_display verb set names seen set0 :
  all_readable set -> NoDup names ->
  (forall n, n ∈ names -> n ∉ seen) ->
  (forall n, n ∈ names -> ConstraintSet.has set n = true -> applies_to n verb = true) ->
  parse_items verb seen set0 (filter_map (item_text set) names)
  = Ok (fold_left (copy_present set) names set0).
Proof.
  intros Hall. revert seen set0. induction names as [|n names IH]; intros seen set0 Hnd Hout Happ; [done|].
  apply NoDup_cons in Hnd as [Hn Hnd]. simpl. unfold copy_present at 2.
  destruct (ConstraintSet.has set n) eqn:Hhas.
  - destruct (item_text_present set n Hall Hhas) as (v & _ & -> & He & _ & Ha).
    destruct (name_shape n) as (Hne & Heq & _). cbn [parse_items].
    unfold parse_item.
    replace (is_empty (ConstraintName.as_str n +:+ String "=" v)) with false by by destruct n.
    rewrite str_split_once_app by done. cbn [ok_or].
    rewrite Hne, He, (proj2 (ConstraintName.constraint_name_parse_Some _ n) eq_refl). cbn [ok_or].
    rewrite bool_decide_eq_false_2 by (apply Hout; left).
    rewrite (Happ n) by (done || left). cbn [negb]. rewrite Ha. cbn [map_err].
    apply IH; [done| |].
    + intros m Hm. rewrite elem_of_app, list_elem_of_singleton.
      intros [Hs| ->]; [|done]. apply (Hout m); [by right|done].
    + intros m Hm. apply Happ. by right.
  - rewrite item_text_absent by done. apply IH; [done| |]; intros m Hm.
    + apply Hout. by right.
    + apply Happ. by right.
Qed.

(** Only the present names print. *)
Lemma filter_map_present set :
  filter_map (item_text set) ConstraintName.ALL = filter_map (item_text set) (ConstraintSet.present set).
Proof.
  unfold ConstraintSet.present. induction ConstraintName.ALL as [|n l IH]; [done|]. simpl.
  destruct (ConstraintSet.has set n) eqn:E; simpl.
  - destruct (item_text set n); [by rewrite IH|done].
  - by rewrite item_text_absent.
Qed.

Lemma items_length set items names :
  Forall2 (item_read set) items names ->
  sum_list_with chars_count items = sum_list_with chars_count (filter_map (item_text set) names) /\
  length items = length (filter_map (item_text set) names).
Proof.
  induction 1 as [|item name items names (len & (v & Hv & Hlen & _) & Hi) _ [IH1 IH2]]; [done|].
  simpl. assert (item_text set name = Some (ConstraintName.as_str name +:+ String "=" v)) as ->
    by (unfold item_text; by rewrite Hv).
  cbn [sum_list_with length]. rewrite chars_count_app.
  change (chars_count (String "=" v)) with (1 + chars_count v).
  split; [rewrite IH1; lia|by rewrite IH2].
Qed.

Lemma parse_constraints_Ok verb text set :
  parse_constraints verb text = Ok set ->
  ConstraintSet.wf set = true /\
  forallb (fun n => applies_to n verb) (ConstraintSet.present set) = true /\
  set <> ConstraintSet.unconstrained /\
  is_empty (display_constraints set) = false /\
  str_contains "?" (display_constraints set) = false /\
  chars_count (display_constraints set) = chars_count text /\
  parse_constraints verb (display_constraints set) = Ok set.
Proof.
  intros (names & Hall & Hperm & Happ & Hwf)%parse_items_present.
  assert (all_readable set) as Hread.
  { intros n Hn%ConstraintSet.present_spec%list_elem_of_In. rewrite Hperm in Hn.
    apply list_elem_of_lookup in Hn as [i Hi].
    apply (Forall2_lookup_r _ _ _ _ _ Hall) in Hi as (item & _ & len & Hr & _). eauto. }
  assert (names <> []) as Hne.
  { intros ->. inversion Hall as [E|]. symmetry in E. by apply str_split_not_nil in E. }
  assert (forallb (fun n => applies_to n verb) (ConstraintSet.present set) = true) as Happ'.
  { rewrite forallb_forall in Happ |- *. intros n Hn. apply Happ.
    apply list_elem_of_In. rewrite <- Hperm. by apply list_elem_of_In. }
  assert (Forall (fun it => str_contains "&" it = false /\ str_contains "?" it = false /\
            is_empty it = false) (filter_map (item_text set) ConstraintName.ALL)) as Hchars.
  { apply Forall_forall. intros it Hit. rewrite filter_map_present in Hit.
    apply elem_of_filter_map in Hit as (n & Hn & Hit).
    apply list_elem_of_In, ConstraintSet.present_spec in Hn.
    destruct (item_text_present set n Hread Hn) as (v & _ & E & _ & Hv & _).
    assert (it = ConstraintName.as_str n +:+ String "=" v) as -> by congruence.
    destruct (name_shape n) as (Hn1 & _ & Hn3 & Hn4). rewrite !str_contains_app, Hn3, Hn4. simpl.
    split_and!; [by apply (str_all_not_contains is_value_char)..|by destruct n]. }
  destruct (items_length set _ _ Hall) as [Hsum Hlen].
  pose proof (filter_map_perm (item_text set) _ _ Hperm) as Hfm.
  rewrite <- filter_map_present in Hfm.
  assert (filter_map (item_text set) ConstraintName.ALL <> []) as Hitems.
  { intros E. rewrite E in Hfm. apply Permutation_nil_l in Hfm. rewrite <- Hfm in Hlen.
    apply length_zero_iff_nil in Hlen. by apply str_split_not_nil in Hlen. }
  unfold display_constraints. split_and!; [done|done| | | | |].
  - intros ->. by apply Hitems.
  - destruct (filter_map _ _) as [|it its]; [done|]. apply join_not_empty.
    by inversion Hchars as [|?? (_ & _ & ?) _].
  - apply str_join_not_contains; [done|]. apply (Forall_impl _ _ _ Hchars). by intros it (_ & ? & _).
  - rewrite <- (str_join_split "&" text), !chars_count_join, Hsum, Hlen by done.
    by rewrite (sum_list_perm _ _ _ Hfm), (Permutation_length Hfm).
  - unfold parse_constraints. rewrite str_split_join; [|done|].
    + rewrite parse_items_display; [by rewrite copy_present_all|done| | |].
      * apply (bool_decide_unpack _). vm_compute. exact I.
      * by intros n _ ?%not_elem_of_nil.
      * intros n _ Hn. rewrite forallb_forall in Happ'. by apply Happ', ConstraintSet.present_spec.
    + apply (Forall_impl _ _ _ Hchars). by intros it (? & _ & _).
Qed.

(** * Whole capabilities *)

(** What [parse] guarantees of a specification. *)
Definition spec_wf (s : CapabilitySpec.t) : bool :=
  Verb.wf (CapabilitySpec.verb s)
  && spec_fits (CapabilitySpec.verb s) (CapabilitySpec.scope s)
  && ConstraintSet.wf (CapabilitySpec.constraints s)
  && forallb (fun n => applies_to n (CapabilitySpec.verb s))
       (ConstraintSet.present (CapabilitySpec.constraints s)).

Definition display_head (s : CapabilitySpec.t) : string :=
  Verb.display (CapabilitySpec.verb s)
  +:+ String ":" (ScopeSpec.display (CapabilitySpec.scope s)).

Lemma display_spec_head s :
  display_spec s = display_head s +:+ display_suffix (CapabilitySpec.constraints s).
Proof. unfold display_spec, display_head. by rewrite string_app_assoc. Qed.

(** The part of [parse] after the constraints are split off. *)
Definition parse_split (head : string) (constraint_text : option string) :
    result CapabilitySpec.t CapabilityError.t :=
  let? (verb_text, scope_text) := ok_or (str_split_once ":" head) CapabilityError.MissingScope in
  let? verb := parse_verb verb_text in
  let? scope := parse_scope verb scope_text in
  let? constraints :=
    match constraint_text with
    | None => Ok ConstraintSet.unconstrained
    | Some text => parse_constraints verb text
    end in
  Ok (CapabilitySpec.new verb scope constraints).

Lemma parse_unfold text :
  is_empty text = false -> (chars_count text <= MAX_CAPABILITY_CHARS)%nat ->
  parse text = let? (head, c) := split_constraints text in parse_split head c.
Proof.
  intros He Hl. unfold parse. rewrite He. by apply Nat.ltb_ge in Hl as ->.
Qed.

Lemma parse_split_Ok head c s :
  parse_split head c = Ok s ->
  display_head s = head /\ spec_wf s = true /\
  match c with
  | None => CapabilitySpec.constraints s = ConstraintSet.unconstrained
  | Some text => parse_constraints (CapabilitySpec.verb s) text = Ok (CapabilitySpec.constraints s)
  end /\
  (forall c', match c' with
     | None => CapabilitySpec.constraints s = ConstraintSet.unconstrained
     | Some text => parse_constraints (CapabilitySpec.verb s) text = Ok (CapabilitySpec.constraints s)
     end -> parse_split head c' = Ok s).
Proof.
  unfold parse_split. destruct (str_split_once ":" head) as [[vt st]|] eqn:Eh; simpl; [|done].
  destruct (parse_verb vt) as [v|] eqn:Ev; [|done].
  destruct (parse_scope v st) as [sc|] eqn:Es; [|done].
  destruct (match c with None => _ | Some text => _ end) as [k|] eqn:Ek; [|done].
  intros [= <-]. unfold spec_wf, display_head; simpl.
  apply parse_verb_Ok in Ev as [<- Hv]. apply parse_scope_Ok in Es as [<- Hfit].
  apply str_split_once_Some in Eh as [-> _]. rewrite Hv, Hfit.
  split_and!; [done| |destruct c; congruence|].
  - destruct c as [text|]; [|by injection Ek as <-].
    apply parse_constraints_Ok in Ek as (-> & -> & _). done.
  - intros [text|] Hk; rewrite Hk; done.
Qed.

Lemma display_suffix_shape k :
  display_suffix k = "" /\ k = ConstraintSet.unconstrained \/
  display_suffix k = String "?" (display_constraints k) /\ k <> ConstraintSet.unconstrained.
Proof.
  unfold display_suffix, ConstraintSet.is_empty.
  destruct (bool_decide_reflect (k = ConstraintSet.unconstrained)); auto.
Qed.

Lemma display_spec_not_empty s : is_empty (display_spec s) = false.
Proof. unfold display_spec. by destruct (CapabilitySpec.verb s) as [[] []]. Qed.

(** A parsed capability prints to text of the same length, which parses to it. *)
Lemma parse_print text s :
  parse text = Ok s ->
  spec_wf s = true /\ parse (display_spec s) = Ok s /\
  chars_count (display_spec s) = chars_count text.
Proof.
  intros Hp. assert (is_empty text = false /\ (chars_count text <= MAX_CAPABILITY_CHARS)%nat)
    as [He Hlen].
  { unfold parse in Hp. destruct (is_empty text); [done|].
    destruct (_ <? _)%nat eqn:E; [done|]. by apply Nat.ltb_ge in E. }
  rewrite parse_unfold in Hp by done. unfold split_constraints in Hp.
  assert (chars_count (display_spec s) = chars_count text ->
    (let? (head, c) := split_constraints (display_spec s) in parse_split head c) = Ok s ->
    parse (display_spec s) = Ok s) as Hre.
  { intros El <-. rewrite parse_unfold; [done|apply display_spec_not_empty|by rewrite El]. }
  rewrite display_spec_head in *.
  destruct (str_split_once "?" text) as [[head rest]|] eqn:Eq.
  - destruct (str_contains "?" rest); [done|]. destruct (is_empty rest); [done|].
    apply str_split_once_Some in Eq as [-> Hq].
    apply parse_split_Ok in Hp as (<- & Hwf & Hk & Hback).
    pose proof Hk as (_ & _ & Hne & Hem & Hnq & Hcount & Hpc)%parse_constraints_Ok.
    destruct (display_suffix_shape (CapabilitySpec.constraints s)) as [[_ ?]|[E _]]; [done|].
    rewrite E in *. split; [done|].
    assert (chars_count (display_head s +:+ String "?" (display_constraints (CapabilitySpec.constraints s)))
      = chars_count (display_head s +:+ String "?" rest)) as Hc.
    { rewrite !chars_count_app. f_equal. exact (f_equal S Hcount). }
    split; [|done]. apply Hre; [done|]. unfold split_constraints.
    rewrite str_split_once_app, Hnq, Hem by done. by apply Hback.
  - apply str_split_once_None in Eq. apply parse_split_Ok in Hp as (<- & Hwf & Hk & Hback).
    destruct (display_suffix_shape (CapabilitySpec.constraints s)) as [[E _]|[_ ?]]; [|done].
    rewrite E, string_app_nil_r in *. split_and!; [done| |done]. apply Hre; [done|].
    unfold split_constraints. apply str_split_once_None in Eq as ->. by apply Hback.
Qed.

(** * From declarations to authority *)

Lemma spec_wf_spec s :
  spec_wf s = true <->
  Verb.wf (CapabilitySpec.verb s) = true /\
  spec_fits (CapabilitySpec.verb s) (CapabilitySpec.scope s) = true /\
  ConstraintSet.wf (CapabilitySpec.constraints s) = true /\
  forallb (fun n => applies_to n (CapabilitySpec.verb s))
    (ConstraintSet.present (CapabilitySpec.constraints s)) = true.
Proof. unfold spec_wf. rewrite !andb_true_iff. tauto. Qed.

Lemma resolve_wf s :
  spec_wf s = true -> CapabilitySpec.needs_resolution s = false ->
  exists c, CapabilitySpec.resolve s = Ok c /\ Capability.wf c = true /\
    display_capability c = display_spec s.
Proof.
  intros (Hv & Hf & Hk & Ha)%spec_wf_spec Hn.
  assert (forall sc, Scope.fits sc (Verb.scope_family (CapabilitySpec.verb s)) = true ->
    let c := Capability.Make (CapabilitySpec.verb s) sc (CapabilitySpec.constraints s) in
    Capability.new (CapabilitySpec.verb s) sc (CapabilitySpec.constraints s) = Ok c /\
    Capability.wf c = true) as Hnew.
  { intros sc Hfit c. assert (Capability.valid c = true) as Hval
      by (unfold Capability.valid; simpl; by rewrite Hfit, Ha).
    split; [by apply Capability.capability_new_Ok|]. unfold Capability.wf. rewrite Hval. simpl. by rewrite Hv, Hk. }
  unfold CapabilitySpec.resolve, CapabilitySpec.needs_resolution, spec_fits in *.
  destruct (CapabilitySpec.scope s) as [|sc|p|p] eqn:Es; try done.
  - destruct (Hnew Scope.Universal eq_refl) as [-> Hw]. eexists. split_and!; [done|done|].
    unfold display_capability, display_spec; simpl. by rewrite Es.
  - destruct (Hnew (Scope.Syntactic sc) Hf) as [-> Hw]. eexists. split_and!; [done|done|].
    unfold display_capability, display_spec; simpl. by rewrite Es.
Qed.
