(* ===== verification/CapTheorems.v ===== *)
(** The properties of the capability layer: what containment means, that no
    operation widens authority, that sets have one representation, and that
    text and values agree. *)

From S2P Require Import Prelude Text Order Vocabulary CapError Host Resource Names Verbs.
From S2P Require Import Constraints Scopes Capabilities CapSet ConstraintText CapParse.
From S2P Require Import CapRoundTrip.
From stdpp Require Import relations.

(** * Examples shared by the witnesses *)

Definition fs_read : Verb.t := Verb.of_ Namespace.Fs Action.Read.

Definition path_of (names : list string) : CanonicalPath.t :=
  CanonicalPath.Make (PathComponent.Make <$> names).

Definition max_bytes_only (n : N) : ConstraintSet.t :=
  ConstraintSet.Make (Some n) None None None None None None None.

(** [fs.read] on [/workspace], and on [/workspace/src] up to 100 bytes. *)
Definition cap_workspace : Capability.t :=
  Capability.Make fs_read (Scope.Path (path_of ["workspace"])) ConstraintSet.unconstrained.

Definition cap_src : Capability.t :=
  Capability.Make fs_read (Scope.Path (path_of ["workspace"; "src"])) (max_bytes_only 100).

Definition narrow_to_src : Narrowing.t :=
  Narrowing.Make (Some (Scope.Path (path_of ["workspace"; "src"]))) (max_bytes_only 100).

Definition any_use : ConstraintSet.use :=
  ConstraintSet.Use 10 false Method.Get 0 (ArgvToken.Make "status") PrivacyClass.LocalOnly 0 0.

Definition read_src_file : Capability.request :=
  Capability.Request fs_read (Scope.File (path_of ["workspace"; "src"; "main.rs"])) any_use.

(** * Narrowing *)

(** C1: No chain of attenuations and delegations, however long, ends in more
    authority than it began with: the last capability is contained by the
    first, and every request it authorises the first authorises too. *)
Theorem derived_never_exceeds_root (root c : Capability.t) :
  rtc derives root c ->
  Capability.contains root c = true /\
  (forall r, Capability.authorises c r -> Capability.authorises root r).
Proof.
  intros Hd. assert (Capability.contains root c = true) as Hc.
  { induction Hd as [a|a b c Hab _ IH]; [apply (contains_refl a)|].
    apply (contains_trans a b c); [by apply derives_contained|done]. }
  split; [done|]. intros r. by apply (contains_sound root c).
Qed.

Lemma derived_never_exceeds_root_witness :
  rtc derives cap_workspace cap_src /\ Capability.authorises cap_src read_src_file /\
  Capability.contains cap_workspace cap_src = true /\
  Capability.authorises cap_workspace read_src_file.
Proof.
  assert (rtc derives cap_workspace cap_src) as Hd.
  { apply rtc_once, (derives_attenuate _ narrow_to_src). vm_compute. reflexivity. }
  assert (Capability.authorises cap_src read_src_file) as Ha.
  { split_and!; [reflexivity|by exists [PathComponent.Make "main.rs"]|].
    unfold ConstraintSet.permits; simpl. split_and!; intros ? [= <-]; vm_compute; congruence. }
  destruct (derived_never_exceeds_root cap_workspace cap_src Hd) as [Hc Hr]. auto.
Defined.

(** C23: [attenuate] reaches exactly the valid capabilities its parent contains:
    it returns nothing else, and refuses none of them. *)
Theorem attenuate_exact (parent child : Capability.t) :
  (exists n, attenuate parent n = Ok child) <->
  Capability.valid child = true /\ Capability.contains parent child = true.
Proof.
  split.
  - intros [n (_ & Hv & Hc)%attenuate_Ok]. done.
  - intros [Hv Hc].
    exists (Narrowing.Make (Some (Capability.scope child)) (Capability.constraints child)).
    apply attenuate_Ok. split_and!; [|done|done].
    apply Capability.capability_contains_spec in Hc as (E & _ & Hk).
    unfold candidate; simpl. rewrite E, overlay_narrower by done. by destruct child.
Qed.

(** Every outcome of [attenuate]: the candidate if it is valid and
    contained, [Invalid] with the constructor's reason if it is not valid, and
    [WouldWiden] if it is valid but not contained. *)
Lemma attenuate_outcomes (parent : Capability.t) (n : Narrowing.t) :
  let c := candidate parent n in
  attenuate parent n =
    match Capability.new (Capability.verb c) (Capability.scope c) (Capability.constraints c) with
    | Err e => Err (AttenuationError.Invalid e)
    | Ok _ => if Capability.contains parent c then Ok c else Err AttenuationError.WouldWiden
    end.
Proof.
  intros c. unfold attenuate, c, candidate; simpl.
  destruct (Capability.new _ _ _) as [k|e] eqn:En; simpl; [|done].
  apply Capability.capability_new_Ok in En as [-> _]. by destruct (Capability.contains _ _).
Qed.

(** * Containment *)

(** Containment is a partial order on well-formed capabilities: reflexive
    and transitive on all of them, and two well-formed capabilities that
    contain each other are one capability. *)
Lemma contains_partial_order (a b c : Capability.t) :
  Capability.contains a a = true /\
  (Capability.contains a b = true -> Capability.contains b c = true ->
   Capability.contains a c = true) /\
  (Capability.wf a = true -> Capability.wf b = true ->
   Capability.contains a b = true -> Capability.contains b a = true -> a = b).
Proof.
  split_and!; [apply (contains_refl a)|apply (contains_trans a b c)|apply (contains_antisym a b)].
Qed.


(** C24: Scope containment is exact: a scope covers a specific scope if and only
    if every concrete resource the second is about the first is about too, and
    only [*] covers [*]. *)
Theorem scope_contains_exact (a b : Scope.t) :
  Scope.contains a b = true <->
  (b = Scope.Universal /\ a = Scope.Universal) \/
  (b <> Scope.Universal /\ forall r, Scope.matches b r -> Scope.matches a r).
Proof.
  split.
  - intros Hc. destruct (decide (b = Scope.Universal)) as [->|Hb].
    + left. by destruct a.
    + right. split; [done|]. intros r. by apply (contains_sound a b).
  - intros [[-> ->]|[Hb Hsub]]; [done|]. by apply Scope.complete_specific.
Qed.

(** A constraint absent from the child is unconstrained, hence wider: a
    parent that has a constraint contains no capability without it; and a
    constraint absent from the parent may always be added by the child. *)
Lemma missing_constraints (parent child : ConstraintSet.t) (name : ConstraintName.t) :
  (ConstraintSet.has parent name = true -> ConstraintSet.has child name = false ->
   ConstraintSet.narrower_or_equal child parent = false) /\
  ((forall n, ConstraintSet.has child n = true -> ConstraintSet.has parent n = false) ->
   ConstraintSet.narrower_or_equal (ConstraintSet.overlay parent child) parent = true).
Proof.
  split.
  - intros Hp Hc. apply not_true_is_false. intros Hn.
    apply ConstraintSet.narrower_or_equal_spec in Hn. destruct_and!.
    destruct parent, child, name; simpl in *;
      match goal with Hp : is_some ?p = true, Hc : is_some ?c = false,
        H : narrower ?c ?p _ = true |- _ => by destruct p, c end.
  - intros Hn. apply ConstraintSet.narrower_or_equal_spec.
    assert (forall A (ok : A -> A -> bool) (c p : option A), (forall x, ok x x = true) ->
      (is_some c = true -> is_some p = false) -> narrower (opt_or c p) p ok = true) as Hor.
    { intros A ok [] [] Hr Hs; simpl; auto. by specialize (Hs eq_refl). }
    pose proof (fun n => Hn n) as Hn'. destruct parent, child; simpl in *.
    split_and!; (apply Hor;
      [first [apply N.leb_refl|apply MethodSet.method_set_narrower_refl|apply ConstraintSet.privacy_refl
             |by intros []|by intros x; apply ArgvAllowlist.narrower_spec]|]).
    + apply (Hn ConstraintName.MaxBytes).
    + apply (Hn ConstraintName.NoSymlinkTargets).
    + apply (Hn ConstraintName.Methods).
    + apply (Hn ConstraintName.MaxRequests).
    + apply (Hn ConstraintName.ArgvAllowlist).
    + apply (Hn ConstraintName.PrivacyClass).
    + apply (Hn ConstraintName.Depth).
    + apply (Hn ConstraintName.Fanout).
Qed.


(** * Sets *)

Abbreviation CapSet := (CapabilitySet.t Capability.t).
Abbreviation set_inv := (CapabilitySet.inv Capability.wf).

Definition cap_main : Capability.t :=
  Capability.Make fs_read (Scope.Path (path_of ["workspace"; "src"; "main.rs"]))
    (max_bytes_only 50).

Definition cap_write : Capability.t :=
  Capability.Make (Verb.of_ Namespace.Fs Action.Write) Scope.Universal ConstraintSet.unconstrained.

(** [insert] keeps a set sorted, minimal (no member covers another) and
    well-formed; it covers exactly what the set or the new capability covers;
    and it reports a change exactly when the set did not cover it already. *)
Lemma insert_correct (s : CapSet) (c : Capability.t) :
  set_inv s -> Capability.wf c = true ->
  set_inv (CapabilitySet.insert s c).1 /\
  (forall d, CapabilitySet.covers (CapabilitySet.insert s c).1 d
             = CapabilitySet.covers s d || Capability.contains c d) /\
  (CapabilitySet.insert s c).2 = negb (CapabilitySet.covers s c).
Proof.
  intros Hs Hc. split_and!.
  - by apply CapabilitySet.insert_inv.
  - intros d. apply CapabilitySet.covers_insert.
  - apply CapabilitySet.insert_changed.
Qed.


(** The set built from a list of capabilities depends only on what the list
    covers: any reordering, repetition or covered addition gives the same
    members in the same order. *)
Lemma from_capabilities_canonical (l k : list Capability.t) :
  forallb Capability.wf l = true -> forallb Capability.wf k = true ->
  (forall d, existsb (fun c => Capability.contains c d) l
             = existsb (fun c => Capability.contains c d) k) ->
  CapabilitySet.from_capabilities l = CapabilitySet.from_capabilities k.
Proof.
  intros Hl Hk Hd. apply (CapabilitySet.inv_unique Capability.wf).
  - by apply CapabilitySet.from_capabilities_inv.
  - by apply CapabilitySet.from_capabilities_inv.
  - intros d. rewrite !CapabilitySet.covers_from_capabilities. apply Hd.
Qed.


(** One set is contained by another exactly when every capability it covers
    the other covers, each through a single member: nothing is synthesised
    from two members; and minimal sets contained in each other are equal. *)
Lemma set_containment (s s' : CapSet) :
  (CapabilitySet.is_contained_by s s' = true <->
   forall d, CapabilitySet.covers s d = true ->
     exists held, held ∈ CapabilitySet.members s' /\ Capability.contains held d = true) /\
  (set_inv s -> set_inv s' ->
   CapabilitySet.is_contained_by s s' = true -> CapabilitySet.is_contained_by s' s = true ->
   s = s').
Proof.
  split.
  - unfold CapabilitySet.is_contained_by. rewrite forallb_forall. split.
    + intros Hs d (a & Ha & Had)%CapabilitySet.covers_spec.
      apply list_elem_of_In, Hs, CapabilitySet.covers_spec in Ha as (b & Hb & Hba).
      exists b. split; [done|]. by apply (contains_trans b a d).
    + intros Hs a Ha. apply CapabilitySet.covers_spec, Hs, CapabilitySet.covers_member.
      by apply list_elem_of_In.
  - intros Hs Hs' Hss Hss'. apply (CapabilitySet.inv_unique Capability.wf); [done..|].
    by apply CapabilitySet.covers_ext.
Qed.


(** * Text *)

(** C37: The canonical text of a parsed capability parses to the very same
    value, and is exactly as long as the text it came from, so it cannot
    fall foul of the length bound. *)
Theorem parse_canonical_roundtrip (text : string) (s : CapabilitySpec.t) :
  parse text = Ok s ->
  parse (display_spec s) = Ok s /\ chars_count (display_spec s) = chars_count text.
Proof. intros H%parse_print. tauto. Qed.

Definition https_text : string :=
  "network.https:*.example.com:443?max_requests=10&methods=POST,GET".

Lemma parse_canonical_roundtrip_witness :
  exists s, parse https_text = Ok s /\
    display_spec s = "network.https:*.example.com:443?methods=GET,POST&max_requests=10"%string /\
    parse (display_spec s) = Ok s.
Proof.
  destruct (parse https_text) as [s|] eqn:E; [|vm_compute in E; discriminate E].
  exists s. split; [reflexivity|]. split; [|apply (parse_canonical_roundtrip https_text s E)].
  vm_compute in E. injection E as <-. vm_compute. reflexivity.
Defined.

(** What [parse] accepts becomes authority only as it should: the ten
    families that are their own identity resolve, to a well-formed capability
    with the same text; a path or an executable never does, and says which
    identity is owed. *)
Lemma parsed_resolves (text : string) (s : CapabilitySpec.t) :
  parse text = Ok s ->
  match CapabilitySpec.scope s with
  | ScopeSpec.DeclaredPath _ => CapabilitySpec.resolve s = Err UnresolvedScope.CanonicalPath
  | ScopeSpec.DeclaredExecutable _ =>
      CapabilitySpec.resolve s = Err UnresolvedScope.ExecutableIdentity
  | _ => exists c, CapabilitySpec.resolve s = Ok c /\ Capability.wf c = true /\
           display_capability c = display_spec s
  end.
Proof.
  intros (Hwf & _)%parse_print. destruct (CapabilitySpec.scope s) eqn:Es.
  - apply resolve_wf; [done|]. unfold CapabilitySpec.needs_resolution. by rewrite Es.
  - apply resolve_wf; [done|]. unfold CapabilitySpec.needs_resolution. by rewrite Es.
  - unfold CapabilitySpec.resolve. by rewrite Es.
  - unfold CapabilitySpec.resolve. by rewrite Es.
Qed.


(** The strict integers accept exactly one spelling of each number the
    width holds (no sign, no leading zero, no padding), and reject everything
    else: there is no wrap-around and no saturation. *)
Lemma strict_integers (text : string) (n : N) :
  (parse_u64_strict text = Ok n <-> text = show_N n /\ (n <= 18446744073709551615)%N) /\
  (parse_u32_strict text = Ok n <-> text = show_N n /\ (n <= 4294967295)%N) /\
  (Constraints.parse_u16_strict text = Ok n <-> text = show_N n /\ (n <= 65535)%N) /\
  (Names.parse_u16_strict text = Some n <-> text = show_N n /\ (n <= 65535)%N).
Proof.
  assert (forall P : Prop, (show_N n = text /\ P) <-> (text = show_N n /\ P)) as Hsym
    by (intros; split; intros [? ?]; auto).
  split_and!; rewrite <- Hsym.
  - apply parse_u64_strict_Ok.
  - apply parse_u32_strict_Ok.
  - apply parse_u16_strict_Ok.
  - apply parse_u16_strict_Some.
Qed.

(** A host pattern parses from exactly one text, the one it prints as:
    parsing succeeds on the canonical text of each well-formed pattern and on
    nothing else.  Label, wildcard and length rules are those of [wf]. *)
Lemma host_pattern_canonical (text : string) (p : HostPattern.t) :
  HostPattern.parse text = Ok p <-> text = HostPattern.display p /\ HostPattern.wf p = true.
Proof.
  split.
  - intros [<- Hw]%HostPattern.host_pattern_parse_display_text. done.
  - intros [-> Hw]. by apply HostPattern.host_pattern_parse_display.
Qed.

(** A SHA-256 digest has one spelling: sixty-four lowercase hexadecimal
    digits, which parse to it and to nothing else. *)
Lemma sha256_hex_roundtrip (text : string) (d : Sha256Digest.t) :
  Sha256Digest.parse_hex text = Some d <->
  text = Sha256Digest.display d /\ Sha256Digest.wf d = true.
Proof.
  unfold Sha256Digest.parse_hex, Sha256Digest.wf. split.
  - destruct (String.length text =? 64)%nat eqn:El; [|done]. apply Nat.eqb_eq in El. cbn [negb].
    destruct (Sha256Digest.parse_bytes 32 text) as [bs|] eqn:Eb; [|done]. intros [= <-].
    apply Sha256Digest.parse_bytes_Some in Eb as (<- & Hlen & Hb); [|exact El].
    split; [done|]. simpl. by rewrite Hlen, Hb.
  - destruct d as [bs]; simpl Sha256Digest.as_bytes.
    intros [-> [Hlen%Nat.eqb_eq Hb]%andb_true_iff].
    pose proof (Sha256Digest.parse_bytes_display bs Hb) as Hp. rewrite Hlen in Hp.
    rewrite Sha256Digest.length_display. simpl Sha256Digest.as_bytes. rewrite Hlen.
    change (negb (2 * 32 =? 64)%nat) with false. by rewrite Hp.
Qed.

(** * Where printing and parsing disagree *)

(** The profile pattern [*] as a capability, which [agent.spawn] may be
    attenuated to. *)
Definition spawn_verb : Verb.t := Verb.of_ Namespace.Agent Action.Spawn.

Definition spawn_any_profile : Capability.t :=
  Capability.Make spawn_verb
    (Scope.Syntactic (SyntacticScope.AgentProfile (Pattern.Prefix ""))) ConstraintSet.unconstrained.

(** The canonical text of a capability built from parts need not parse
    back: the one over every profile name prints as [agent.spawn:*], which
    parses to the universal scope and so to strictly more authority. *)
Lemma profile_star_reparses_wider :
  Pattern.parse "*" = Ok (Pattern.Prefix "") /\
  Capability.new spawn_verb (Capability.scope spawn_any_profile) ConstraintSet.unconstrained
    = Ok spawn_any_profile /\
  exists s c, parse (display_capability spawn_any_profile) = Ok s /\
    CapabilitySpec.resolve s = Ok c /\
    Capability.contains c spawn_any_profile = true /\
    Capability.contains spawn_any_profile c = false.
Proof.
  split_and!; [done..|].
  exists (CapabilitySpec.new spawn_verb ScopeSpec.Universal ConstraintSet.unconstrained),
    (Capability.Make spawn_verb Scope.Universal ConstraintSet.unconstrained).
  split_and!; vm_compute; reflexivity.
Qed.
