(* ===== verification/PolicyContext.v ===== *)
(** The inputs of a policy decision: the effect lattice ([policy/effect.rs]),
    the run's context ([policy/context.rs]) and the action being decided
    ([policy/action.rs]). *)

From S2P Require Export Prelude Text Order Vocabulary Resource Constraints Capabilities.

(** * Effects and their restrictiveness order *)

Module Effect.
Inductive t : Set := Allow | RequireApproval | Deny.

#[global] Instance eq_dec : EqDecision t.
Proof. solve_decision. Defined.

Definition ALL : list t := [Deny; RequireApproval; Allow].

Definition as_str (e : t) : string :=
  match e with
  | Allow => "ALLOW" | RequireApproval => "REQUIRE_APPROVAL" | Deny => "DENY"
  end.

Definition parse (text : string) : option t := find_spelling ALL as_str text.

#[global] Instance vocabulary : Vocabulary ALL as_str.
Proof. solve_vocabulary. Qed.

Definition authority (e : t) : N :=
  match e with Deny => 0 | RequireApproval => 1 | Allow => 2 end.

Definition narrower_or_equal (self other : t) : bool := (authority self <=? authority other)%N.

Definition strictly_narrower (self other : t) : bool := (authority self <? authority other)%N.

Definition meet (self other : t) : t := if narrower_or_equal self other then self else other.

Lemma effect_narrower_refl e : narrower_or_equal e e = true.
Proof. by destruct e. Qed.

Lemma effect_narrower_trans a b c :
  narrower_or_equal a b = true -> narrower_or_equal b c = true -> narrower_or_equal a c = true.
Proof. by destruct a, b, c. Qed.

Lemma effect_narrower_antisym a b :
  narrower_or_equal a b = true -> narrower_or_equal b a = true -> a = b.
Proof. by destruct a, b. Qed.

Lemma meet_l a b : narrower_or_equal (meet a b) a = true.
Proof. by destruct a, b. Qed.

Lemma meet_r a b : narrower_or_equal (meet a b) b = true.
Proof. by destruct a, b. Qed.

Lemma meet_glb a b c :
  narrower_or_equal c a = true -> narrower_or_equal c b = true ->
  narrower_or_equal c (meet a b) = true.
Proof. by destruct a, b, c. Qed.

Lemma narrower_deny e : narrower_or_equal Deny e = true.
Proof. by destruct e. Qed.

Lemma narrower_deny_inv e : narrower_or_equal e Deny = true -> e = Deny.
Proof. by destruct e. Qed.

(** Taking a meet again changes nothing. *)
Lemma meet_deny e : meet e Deny = Deny.
Proof. by destruct e. Qed.
End Effect.

#[export] Hint Resolve Effect.effect_narrower_refl Effect.narrower_deny Effect.meet_l Effect.meet_r :
  direwolf.

(** * The run *)

Module Origin.
Inductive t : Set := Interactive | Scheduled | Channel | Subagent | Api.

#[global] Instance eq_dec : EqDecision t.
Proof. solve_decision. Defined.

Definition ALL : list t := [Interactive; Scheduled; Channel; Subagent; Api].

Definition as_str (o : t) : string :=
  match o with
  | Interactive => "interactive" | Scheduled => "scheduled" | Channel => "channel"
  | Subagent => "subagent" | Api => "api"
  end.

Definition parse (text : string) : option t := find_spelling ALL as_str text.

#[global] Instance vocabulary : Vocabulary ALL as_str.
Proof. solve_vocabulary. Qed.

Definition attended (o : t) : bool := match o with Interactive => true | _ => false end.
End Origin.

Module TaintLevel.
Inductive t : Set := None | LocalUnverified | ExternalUntrusted.

#[global] Instance eq_dec : EqDecision t.
Proof. solve_decision. Defined.

Definition ALL : list t := [None; LocalUnverified; ExternalUntrusted].

Definition as_str (l : t) : string :=
  match l with
  | None => "NONE" | LocalUnverified => "LOCAL_UNVERIFIED"
  | ExternalUntrusted => "EXTERNAL_UNTRUSTED"
  end.

Definition parse (text : string) : option t := find_spelling ALL as_str text.

#[global] Instance vocabulary : Vocabulary ALL as_str.
Proof. solve_vocabulary. Qed.
End TaintLevel.

Module StandingGrantState.
Inductive t : Set := Unavailable.

#[global] Instance eq_dec : EqDecision t.
Proof. solve_decision. Defined.

Definition is_held (s : t) : bool := match s with Unavailable => false end.
End StandingGrantState.

Module ConfigKey.
Inductive t : Set := SecurityAllowHostExecution.

#[global] Instance eq_dec : EqDecision t.
Proof. solve_decision. Defined.

Definition ALL : list t := [SecurityAllowHostExecution].

Definition as_str (k : t) : string :=
  match k with SecurityAllowHostExecution => "security.allow_host_execution" end.

Definition parse (text : string) : option t := find_spelling ALL as_str text.

#[global] Instance vocabulary : Vocabulary ALL as_str.
Proof. solve_vocabulary. Qed.
End ConfigKey.

Module ConfigFlags.
Record t : Set := Make { security_allow_host_execution : bool }.

(** [Default]: every flag off. *)
Definition default : t := Make false.

Definition is_set (self : t) (key : ConfigKey.t) : bool :=
  match key with ConfigKey.SecurityAllowHostExecution => security_allow_host_execution self end.
End ConfigFlags.

Module PathAnchor.
Inductive t : Set :=
| Workspace | DirewolfHome | DirewolfConfig | DirewolfInstall | Home | Absolute.

#[global] Instance eq_dec : EqDecision t.
Proof. solve_decision. Defined.

Definition SYMBOLIC : list t :=
  [Workspace; DirewolfHome; DirewolfConfig; DirewolfInstall; Home].

Definition as_str (a : t) : option string :=
  match a with
  | Workspace => Some "${WORKSPACE}"
  | DirewolfHome => Some "${DIREWOLF_HOME}"
  | DirewolfConfig => Some "${DIREWOLF_CONFIG}"
  | DirewolfInstall => Some "${DIREWOLF_INSTALL}"
  | Home => Some "~"
  | Absolute => None
  end%string.
End PathAnchor.

Module PathAnchors.
Record t : Set := Make {
  workspace : option CanonicalPath.t;
  direwolf_home : option CanonicalPath.t;
  direwolf_config : option CanonicalPath.t;
  direwolf_install : option CanonicalPath.t;
  home : option CanonicalPath.t
}.

Definition empty : t := Make None None None None None.

Definition get (self : t) (anchor : PathAnchor.t) : option CanonicalPath.t :=
  match anchor with
  | PathAnchor.Workspace => workspace self
  | PathAnchor.DirewolfHome => direwolf_home self
  | PathAnchor.DirewolfConfig => direwolf_config self
  | PathAnchor.DirewolfInstall => direwolf_install self
  | PathAnchor.Home => home self
  | PathAnchor.Absolute => None
  end.
End PathAnchors.

Module PolicyContext.
Record t : Set := Make {
  origin : Origin.t;
  taint : TaintLevel.t;
  privacy : PrivacyClass.t;
  standing_grant : StandingGrantState.t;
  config : ConfigFlags.t;
  anchors : PathAnchors.t
}.

Definition new (origin : Origin.t) (taint : TaintLevel.t) : t :=
  Make origin taint PrivacyClass.LocalOnly StandingGrantState.Unavailable
    ConfigFlags.default PathAnchors.empty.

Definition with_privacy (self : t) (p : PrivacyClass.t) : t :=
  Make (origin self) (taint self) p (standing_grant self) (config self) (anchors self).

Definition with_config (self : t) (c : ConfigFlags.t) : t :=
  Make (origin self) (taint self) (privacy self) (standing_grant self) c (anchors self).

Definition with_anchors (self : t) (a : PathAnchors.t) : t :=
  Make (origin self) (taint self) (privacy self) (standing_grant self) (config self) a.
End PolicyContext.

(** * The action *)

Module Environment.
Inductive t : Set := Sandbox | Host.

#[global] Instance eq_dec : EqDecision t.
Proof. solve_decision. Defined.

Definition ALL : list t := [Sandbox; Host].

Definition as_str (e : t) : string := match e with Sandbox => "sandbox" | Host => "host" end.

Definition parse (text : string) : option t := find_spelling ALL as_str text.

#[global] Instance vocabulary : Vocabulary ALL as_str.
Proof. solve_vocabulary. Qed.
End Environment.

Module ArgvSafety.
Inductive t : Set := Safe | Reinterpreting.

#[global] Instance eq_dec : EqDecision t.
Proof. solve_decision. Defined.

Definition from_rule_flag (safe : bool) : t := if safe then Safe else Reinterpreting.
End ArgvSafety.

Module Novelty.
Inductive t : Set := Novel | Seen.

#[global] Instance eq_dec : EqDecision t.
Proof. solve_decision. Defined.

Definition from_rule_flag (novel : bool) : t := if novel then Novel else Seen.
End Novelty.

(** A resolved address: four octets or sixteen. *)
Module IpAddress.
Inductive t : Set :=
| V4 (octets : list N)
| V6 (octets : list N).

#[global] Instance eq_dec : EqDecision t.
Proof. solve_decision. Defined.

Definition octets (a : t) : list N := match a with V4 o => o | V6 o => o end.

Definition bits (a : t) : N := match a with V4 _ => 32 | V6 _ => 128 end.

(** The arrays' lengths, and their elements' width. *)
Definition wf (a : t) : bool :=
  (match a with V4 o => length o =? 4 | V6 o => length o =? 16 end)%nat
  && forallb (fun b => b <? 256)%N (octets a).

(** [{:04x}] of the two octets of a group. *)
Definition hex4 (high low : N) : string :=
  String (Sha256Digest.nibble (high / 16)) (String (Sha256Digest.nibble (high mod 16))
    (String (Sha256Digest.nibble (low / 16)) (String (Sha256Digest.nibble (low mod 16))
      EmptyString))).

Fixpoint groups (o : list N) : list string :=
  match o with
  | high :: low :: rest => hex4 high low :: groups rest
  | _ => []
  end.

Definition display (a : t) : string :=
  match a with
  | V4 o => str_join "." (show_N <$> o)
  | V6 o => str_join ":" (groups o)
  end.
End IpAddress.

Module CanonicalAction.
Record t : Set := Make {
  capability : Capability.t;
  environment : Environment.t;
  argv_safety : option ArgvSafety.t;
  byte_count : option N;
  destination_ip : option IpAddress.t;
  destination_novelty : option Novelty.t
}.

Definition new (capability : Capability.t) (environment : Environment.t) : t :=
  Make capability environment None None None None.

Definition with_argv_safety (self : t) (s : ArgvSafety.t) : t :=
  Make (capability self) (environment self) (Some s) (byte_count self)
    (destination_ip self) (destination_novelty self).

Definition with_byte_count (self : t) (bytes : N) : t :=
  Make (capability self) (environment self) (argv_safety self) (Some bytes)
    (destination_ip self) (destination_novelty self).

Definition with_destination_ip (self : t) (a : IpAddress.t) : t :=
  Make (capability self) (environment self) (argv_safety self) (byte_count self)
    (Some a) (destination_novelty self).

Definition with_destination_novelty (self : t) (n : Novelty.t) : t :=
  Make (capability self) (environment self) (argv_safety self) (byte_count self)
    (destination_ip self) (Some n).
End CanonicalAction.
