(* ===== verification/PolicyValue.v ===== *)
(** The values a rule writes on the right of a predicate ([policy/value.rs]):
    paths below symbolic anchors, executables and address ranges; and the
    bounds of [policy/limits.rs]. *)

From S2P Require Export Prelude Text Order Resource PolicyContext.

Module Limits.
(** 256 KiB, kept in binary. *)
Definition MAX_SOURCE_BYTES : N := 256 * 1024.
Definition MAX_SOURCE_NAME_CHARS : nat := 128.
Definition MAX_RULES : nat := 512.
Definition MAX_POSTCONDITIONS : nat := 32.
Definition MAX_RULE_ID_CHARS : nat := 64.
Definition MAX_PROFILE_NAME_CHARS : nat := 64.
Definition MAX_PROFILE_REF_CHARS : nat := 64.
Definition MAX_LIST_ITEMS : nat := 64.
Definition MAX_STRING_CHARS : nat := 384.
Definition MAX_OBLIGATIONS_PER_RULE : nat := 8.
Definition MAX_PATH_SEGMENTS : nat := 32.
Definition MAX_EXTENDS_DEPTH : nat := 4.
Definition MAX_PROFILES : nat := 16.
Definition MAX_APPROVAL_TTL_SECONDS : N := 24 * 60 * 60.
Definition MAX_APPROVAL_USES : N := 1000.
End Limits.

(** [policy::error::ValueError]. *)
Module PolicyValueError.
Inductive t : Set :=
| UnknownEffect | UnknownReason | UnknownObligation | ObligationParameter
| DuplicateObligation | TooManyObligations | Ttl | ApprovalUses | UnknownApprovalScope
| UnknownVerb | UnknownOrigin | UnknownTaintLevel | UnknownPrivacyClass
| UnknownEnvironment | UnknownConfigKey | UnknownPathAnchor | MalformedPath
| MalformedHost | MalformedCidr | MalformedRuleId | MalformedProfileName | NumericRange
| EmptyList | DuplicateListItem | TooManyListItems | StringTooLong.

#[global] Instance eq_dec : EqDecision t.
Proof. solve_decision. Defined.
End PolicyValueError.

(** * Paths below an anchor *)

Definition is_path_segment (segment : string) : bool :=
  negb (is_empty segment)
  && negb (String.eqb segment ".")
  && negb (String.eqb segment "..")
  && (String.length segment <=? 255)%nat
  && negb (str_contains "/" segment)
  && negb (str_contains "\" segment)
  && negb (str_contains "000" segment).

Definition strip_separator (rest : string) : result string PolicyValueError.t :=
  if is_empty rest then Ok EmptyString
  else ok_or (str_strip_prefix "/" rest) PolicyValueError.MalformedPath.

Definition split_anchor (text : string) : result (PathAnchor.t * string) PolicyValueError.t :=
  match str_strip_prefix "${" text with
  | Some rest =>
      match str_split_once "}" rest with
      | None => Err PolicyValueError.UnknownPathAnchor
      | Some (symbol, rest) =>
          let full := "${" +:+ symbol +:+ "}" in
          let? anchor :=
            ok_or (List.find (fun a => bool_decide (PathAnchor.as_str a = Some full))
                     PathAnchor.SYMBOLIC)
              PolicyValueError.UnknownPathAnchor in
          let? rest := strip_separator rest in Ok (anchor, rest)
      end
  | None =>
      match str_strip_prefix "~" text with
      | Some rest => let? rest := strip_separator rest in Ok (PathAnchor.Home, rest)
      | None =>
          match str_strip_prefix "/" text with
          | Some rest => Ok (PathAnchor.Absolute, rest)
          | None => Err PolicyValueError.MalformedPath
          end
      end
  end.

Module RulePath.
Record t : Set := Make { anchor : PathAnchor.t; segments : list string }.

#[global] Instance eq_dec : EqDecision t.
Proof. solve_decision. Defined.

(** The loop over the segments. *)
Fixpoint parse_segments (segments : list string) : result (list string) PolicyValueError.t :=
  match segments with
  | [] => Ok []
  | segment :: rest =>
      if negb (is_path_segment segment) then Err PolicyValueError.MalformedPath
      else let? rest := parse_segments rest in Ok (segment :: rest)
  end.

Definition parse (text : string) : result t PolicyValueError.t :=
  if is_empty text || str_contains "000" text then Err PolicyValueError.MalformedPath
  else
    let? (anchor, rest) := split_anchor text in
    let? segments := if is_empty rest then Ok [] else parse_segments (str_split "/" rest) in
    if (Limits.MAX_PATH_SEGMENTS <? length segments)%nat then Err PolicyValueError.MalformedPath
    else Ok (Make anchor segments).

(** The anchor's components, or the anchor when the context has none. *)
Definition root_of (self : t) (anchors : PathAnchors.t) :
    result (list PathComponent.t) PathAnchor.t :=
  match anchor self with
  | PathAnchor.Absolute => Ok []
  | other => let? p := ok_or (PathAnchors.get anchors other) other in Ok (CanonicalPath.components p)
  end.

(** [zip(..).all(|(actual, expected)| ..)], which stops at the shorter side. *)
Fixpoint zip_all {A B} (f : A -> B -> bool) (l : list A) (k : list B) : bool :=
  match l, k with
  | a :: l, b :: k => f a b && zip_all f l k
  | _, _ => true
  end.

Definition contains (self : t) (anchors : PathAnchors.t) (candidate : CanonicalPath.t) :
    result bool PathAnchor.t :=
  let? root := root_of self anchors in
  let components := CanonicalPath.components candidate in
  if (length components <? length root + length (segments self))%nat then Ok false
  else
    let under_root :=
      zip_all (fun actual expected => bool_decide (actual = expected)) components root in
    if negb under_root then Ok false
    else
      let below := drop (length root) components in
      Ok (zip_all (fun actual expected => String.eqb (PathComponent.as_str actual) expected)
            below (segments self)).

Definition is_exactly (self : t) (anchors : PathAnchors.t) (candidate : CanonicalPath.t) :
    result bool PathAnchor.t :=
  let? root := root_of self anchors in
  let components := CanonicalPath.components candidate in
  if (length components =? length root + length (segments self))%nat
  then contains self anchors candidate
  else Ok false.

Definition display (self : t) : string :=
  (match PathAnchor.as_str (anchor self) with Some a => a | None => EmptyString end)
  +:+ List.fold_right (fun s acc => String "/" (s +:+ acc)) EmptyString (segments self)
  +:+ (if ArgvAllowlist.is_nil (segments self)
          && bool_decide (anchor self = PathAnchor.Absolute)
       then "/" else EmptyString).

(** What a parsed path is. *)
Definition wf (self : t) : bool :=
  forallb is_path_segment (segments self)
  && (length (segments self) <=? Limits.MAX_PATH_SEGMENTS)%nat.

(** The names a path stands for: the anchor's, then its own. *)
Definition names (self : t) (root : list PathComponent.t) : list string :=
  (PathComponent.as_str <$> root) ++ segments self.
End RulePath.

(** * Executables *)

Definition is_sha256_hex (text : string) : bool :=
  (String.length text =? 64)%nat
  && str_all (fun b => is_digit b || in_range 97 102 b) text.

Module ExecutableSpec.
Inductive t : Set :=
| Name (name : string)
| Path (path : RulePath.t)
| Pinned (path : RulePath.t) (digest : string).

#[global] Instance eq_dec : EqDecision t.
Proof. solve_decision. Defined.

Definition parse (text : string) : result t PolicyValueError.t :=
  match str_rsplit_once "@" text with
  | Some (path, digest) =>
      if negb (is_sha256_hex digest) then Err PolicyValueError.MalformedPath
      else let? path := RulePath.parse path in Ok (Pinned path digest)
  | None =>
      if starts_with_char "/" text || str_starts_with "${" text || starts_with_char "~" text
      then let? path := RulePath.parse text in Ok (Path path)
      else if negb (is_path_segment text) then Err PolicyValueError.MalformedPath
      else Ok (Name text)
  end.

Definition matches (self : t) (anchors : PathAnchors.t) (candidate : ExecutableIdentity.t) :
    result bool PathAnchor.t :=
  match self with
  | Name name =>
      Ok (is_some_and (last (CanonicalPath.components (ExecutableIdentity.path candidate)))
            (fun c => String.eqb (PathComponent.as_str c) name))
  | Path path => RulePath.is_exactly path anchors (ExecutableIdentity.path candidate)
  | Pinned path digest =>
      let? exact := RulePath.is_exactly path anchors (ExecutableIdentity.path candidate) in
      Ok (exact && String.eqb (Sha256Digest.display (ExecutableIdentity.digest candidate)) digest)
  end.

Definition display (self : t) : string :=
  match self with
  | Name name => name
  | Path path => RulePath.display path
  | Pinned path digest => RulePath.display path +:+ String "@" digest
  end.
End ExecutableSpec.

(** * Address ranges *)

(** One decimal octet, with no leading zero. *)
Definition parse_octet (part : string) : result N PolicyValueError.t :=
  if is_empty part || (3 <? String.length part)%nat || negb (str_all is_digit part)
  then Err PolicyValueError.MalformedCidr
  else if (1 <? String.length part)%nat && starts_with_char "0" part
  then Err PolicyValueError.MalformedCidr
  else ok_or (parse_uint U8_MAX part) PolicyValueError.MalformedCidr.

(** The loop of [parse_address]: [octets] are written, a fifth is refused. *)
Fixpoint parse_v4 (octets : list N) (parts : list string) : result (list N) PolicyValueError.t :=
  match parts with
  | [] => Ok octets
  | part :: rest =>
      if (length octets =? 4)%nat then Err PolicyValueError.MalformedCidr
      else let? octet := parse_octet part in parse_v4 (octets ++ [octet]) rest
  end.

(** [checked_mul(16)] then [checked_add(digit)] on a [u16]. *)
Definition push_digit (value digit : N) : option N :=
  if (value * 16 <=? U16_MAX)%N then
    if (value * 16 + digit <=? U16_MAX)%N then Some (value * 16 + digit)%N else None
  else None.

Fixpoint parse_v6_digits (value : N) (part : string) : result N PolicyValueError.t :=
  match part with
  | EmptyString => Ok value
  | String byte rest =>
      let? digit := ok_or (Sha256Digest.hex_digit byte) PolicyValueError.MalformedCidr in
      let? value := ok_or (push_digit value digit) PolicyValueError.MalformedCidr in
      parse_v6_digits value rest
  end.

Definition parse_v6_group (part : string) : result N PolicyValueError.t :=
  if is_empty part || (4 <? String.length part)%nat then Err PolicyValueError.MalformedCidr
  else parse_v6_digits 0 part.

(** The loop of [parse_v6]: each group fills two octets, a ninth is refused. *)
Fixpoint parse_v6_loop (octets : list N) (parts : list string) : result (list N) PolicyValueError.t :=
  match parts with
  | [] => Ok octets
  | part :: rest =>
      let? value := parse_v6_group part in
      if (length octets =? 16)%nat then Err PolicyValueError.MalformedCidr
      else parse_v6_loop (octets ++ [(value / 256)%N; (value mod 256)%N]) rest
  end.

Definition parse_v6 (text : string) : result (list N) PolicyValueError.t :=
  let? octets := parse_v6_loop [] (str_split ":" text) in
  if (length octets =? 16)%nat then Ok octets else Err PolicyValueError.MalformedCidr.

Definition parse_address (text : string) : result IpAddress.t PolicyValueError.t :=
  if str_contains ":" text then let? o := parse_v6 text in Ok (IpAddress.V6 o)
  else
    let? octets := parse_v4 [] (str_split "." text) in
    if (length octets =? 4)%nat then Ok (IpAddress.V4 octets)
    else Err PolicyValueError.MalformedCidr.

(** Whole octets and leftover bits. *)
Definition split_prefix (prefix : N) : nat * N := (N.to_nat (prefix / 8), (prefix mod 8)%N).

(** [0xFFu8 << (8 - remainder)], in eight bits. *)
Definition mask (remainder : N) : N := (N.shiftl 255 (8 - remainder) mod 256)%N.

Definition host_bits_clear (address : IpAddress.t) (prefix : N) : bool :=
  let octets := IpAddress.octets address in
  let '(whole, remainder) := split_prefix prefix in
  if negb (remainder =? 0)%N
     && is_some_and (octets !! whole)
          (fun byte => negb (N.land byte (N.lxor (mask remainder) 255) =? 0)%N)
  then false
  else
    let tail := if (remainder =? 0)%N then whole else S whole in
    forallb (fun byte => byte =? 0)%N (drop tail octets).

Module Cidr.
Record t : Set := Make { network : IpAddress.t; prefix : N }.

#[global] Instance eq_dec : EqDecision t.
Proof. solve_decision. Defined.

Definition parse (text : string) : result t PolicyValueError.t :=
  match str_split_once "/" text with
  | None => Err PolicyValueError.MalformedCidr
  | Some (address, prefix) =>
      if is_empty prefix || negb (str_all is_digit prefix) then Err PolicyValueError.MalformedCidr
      else
        let? prefix := ok_or (parse_uint U32_MAX prefix) PolicyValueError.MalformedCidr in
        let? network := parse_address address in
        if (IpAddress.bits network <? prefix)%N then Err PolicyValueError.MalformedCidr
        else if negb (host_bits_clear network prefix) then Err PolicyValueError.MalformedCidr
        else Ok (Make network prefix)
  end.

Definition contains (self : t) (address : IpAddress.t) : bool :=
  let network := IpAddress.octets (network self) in
  let candidate := IpAddress.octets address in
  if negb (length network =? length candidate)%nat then false
  else
    let '(whole, remainder) := split_prefix (prefix self) in
    if negb (bool_decide (take whole network = take whole candidate)) then false
    else if (remainder =? 0)%N then true
    else
      match network !! whole, candidate !! whole with
      | Some a, Some b => (N.land a (mask remainder) =? N.land b (mask remainder))%N
      | _, _ => true
      end.

Definition display (self : t) : string :=
  IpAddress.display (network self) +:+ String "/" (show_N (prefix self)).

(** What a parsed range is. *)
Definition wf (self : t) : bool :=
  IpAddress.wf (network self) && (prefix self <=? IpAddress.bits (network self))%N
  && host_bits_clear (network self) (prefix self).
End Cidr.
