(* ===== verification/PolicyValueFacts.v ===== *)
(** What the rule-side values mean: a range is an interval of addresses, a
    path is a sequence of names, and each prints back to what it parses from. *)

From S2P Require Export Prelude Text Order Resource PolicyContext PolicyValue.

(** * Addresses as numbers *)

(** The big-endian number of a list of octets. *)
Fixpoint octets_value (l : list N) : N :=
  match l with
  | [] => 0
  | b :: r => b * 2 ^ (8 * N.of_nat (length r)) + octets_value r
  end.

Definition bytes (l : list N) : bool := forallb (fun b => b <? 256)%N l.

Lemma octets_value_bound l :
  bytes l = true -> (octets_value l < 2 ^ (8 * N.of_nat (length l)))%N.
Proof.
  induction l as [|b l IH]; intros H; [by vm_compute|].
  unfold bytes in H; simpl in H. apply andb_true_iff in H as [Hb%N.ltb_lt Hl]. specialize (IH Hl).
  change (octets_value (b :: l)) with (b * 2 ^ (8 * N.of_nat (length l)) + octets_value l)%N.
  replace (8 * N.of_nat (length (b :: l)))%N with (8 + 8 * N.of_nat (length l))%N
    by (simpl length; lia).
  rewrite N.pow_add_r. change (2 ^ 8)%N with 256%N. nia.
Qed.

(** What the mask keeps of an octet, and what its complement keeps. *)
Lemma mask_div r a :
  (0 < r < 8)%N -> (a < 256)%N ->
  N.land a (mask r) = (a / 2 ^ (8 - r) * 2 ^ (8 - r))%N /\
  N.land a (N.lxor (mask r) 255) = (a mod 2 ^ (8 - r))%N.
Proof.
  intros Hr Ha.
  assert (forallb (fun r => forallb (fun a =>
    (N.land (N.of_nat a) (mask r) =? N.of_nat a / 2 ^ (8 - r) * 2 ^ (8 - r))%N &&
    (N.land (N.of_nat a) (N.lxor (mask r) 255) =? N.of_nat a mod 2 ^ (8 - r))%N) (seq 0 256))
    [1; 2; 3; 4; 5; 6; 7]%N = true) as Hall by (vm_compute; reflexivity).
  rewrite forallb_forall in Hall.
  assert (In r [1; 2; 3; 4; 5; 6; 7]%N) as Hin by (simpl; lia).
  specialize (Hall r Hin).
  apply (N_forall_below (fun a => (N.land a (mask r) =? a / 2 ^ (8 - r) * 2 ^ (8 - r))%N &&
    (N.land a (N.lxor (mask r) 255) =? a mod 2 ^ (8 - r))%N) 256) with (n := a) in Hall; [|done].
  apply andb_true_iff in Hall as [?%N.eqb_eq ?%N.eqb_eq]. done.
Qed.

Lemma mask_eq r a b :
  (0 < r < 8)%N -> (a < 256)%N -> (b < 256)%N ->
  N.land a (mask r) = N.land b (mask r) <-> (a / 2 ^ (8 - r) = b / 2 ^ (8 - r))%N.
Proof.
  intros Hr Ha Hb. rewrite (proj1 (mask_div r a Hr Ha)), (proj1 (mask_div r b Hr Hb)).
  rewrite N.mul_cancel_r; [done|]. by apply N.pow_nonzero.
Qed.

(** Splitting a number at an octet boundary. *)
Lemma div_high a v k s :
  (v < 2 ^ k)%N -> (s <= k)%N ->
  ((a * 2 ^ k + v) / 2 ^ s = a * 2 ^ (k - s) + v / 2 ^ s)%N.
Proof.
  intros Hv Hs. replace k with (k - s + s)%N at 1 by lia.
  rewrite N.pow_add_r, N.mul_assoc, N.div_add_l; [done|]. by apply N.pow_nonzero.
Qed.

Lemma div_low_bound v k s : (v < 2 ^ k)%N -> (s <= k)%N -> (v / 2 ^ s < 2 ^ (k - s))%N.
Proof.
  intros Hv Hs. apply N.Div0.div_lt_upper_bound. rewrite <- N.pow_add_r.
  by replace (s + (k - s))%N with k by lia.
Qed.

Lemma div_head a v k r :
  (v < 2 ^ k)%N -> ((a * 2 ^ k + v) / 2 ^ (k + r) = a / 2 ^ r)%N.
Proof.
  intros Hv. rewrite N.pow_add_r, <- N.Div0.div_div. f_equal.
  rewrite N.div_add_l by by apply N.pow_nonzero. rewrite (N.div_small v) by done. lia.
Qed.

(** The octet comparison of [Cidr::contains]. *)
Definition prefix_eq (p : N) (l k : list N) : bool :=
  let '(whole, remainder) := split_prefix p in
  bool_decide (take whole l = take whole k) &&
  ((remainder =? 0)%N ||
   match l !! whole, k !! whole with
   | Some a, Some b => (N.land a (mask remainder) =? N.land b (mask remainder))%N
   | _, _ => true
   end).

Lemma split_prefix_small p : (p < 8)%N -> split_prefix p = (0%nat, p).
Proof.
  intros Hp. unfold split_prefix. by rewrite N.div_small, N.mod_small.
Qed.

Lemma split_prefix_step p :
  (8 <= p)%N -> split_prefix p = (S (split_prefix (p - 8)).1, (split_prefix (p - 8)).2).
Proof.
  intros Hp. unfold split_prefix; simpl. replace p with (p - 8 + 1 * 8)%N at 1 2 by lia.
  rewrite N.div_add, N.Div0.mod_add by done. f_equal. lia.
Qed.

Lemma prefix_eq_step p a b l k :
  (8 <= p)%N -> prefix_eq p (a :: l) (b :: k) = (a =? b)%N && prefix_eq (p - 8) l k.
Proof.
  intros Hp. unfold prefix_eq. rewrite split_prefix_step by done.
  destruct (split_prefix (p - 8)) as [w r]. simpl. rewrite andb_assoc. f_equal.
  apply eq_true_iff_eq. rewrite andb_true_iff, !bool_decide_eq_true, N.eqb_eq.
  split; [by intros [= -> ->]|by intros [-> ->]].
Qed.

(** Two addresses of one family share their first [p] bits exactly when they
    are equal once the bits below are shifted away. *)
Lemma prefix_eq_spec p l k :
  bytes l = true -> bytes k = true -> length l = length k ->
  (p <= 8 * N.of_nat (length l))%N ->
  prefix_eq p l k = true <->
  (octets_value l / 2 ^ (8 * N.of_nat (length l) - p)
   = octets_value k / 2 ^ (8 * N.of_nat (length l) - p))%N.
Proof.
  revert p k; induction l as [|a l IH]; intros p [|b k] Hl Hk Hlen Hp; try done.
  { simpl in Hp. replace p with 0%N by lia. done. }
  pose proof Hl as Hl'; pose proof Hk as Hk'. unfold bytes in Hl', Hk'; simpl in Hl', Hk'.
  apply andb_true_iff in Hl' as [Ha%N.ltb_lt Hl'], Hk' as [Hb%N.ltb_lt Hk'].
  injection Hlen as Hlen. pose proof (octets_value_bound l Hl') as Bl.
  pose proof (octets_value_bound k Hk') as Bk. rewrite <- Hlen in Bk.
  change (octets_value (a :: l)) with (a * 2 ^ (8 * N.of_nat (length l)) + octets_value l)%N.
  change (octets_value (b :: k)) with (b * 2 ^ (8 * N.of_nat (length k)) + octets_value k)%N.
  rewrite <- Hlen. set (n := (8 * N.of_nat (length l))%N) in *.
  assert (8 * N.of_nat (length (a :: l)) = n + 8)%N as En by (simpl length; lia).
  rewrite En in *. destruct (N.lt_ge_cases p 8) as [Hp8|Hp8].
  - replace (n + 8 - p)%N with (n + (8 - p))%N by lia. rewrite !div_head by done.
    unfold prefix_eq. rewrite split_prefix_small by done. simpl.
    destruct (N.eqb_spec p 0) as [->|Hp0]; simpl.
    + rewrite !N.div_small by done. done.
    + rewrite N.eqb_eq, mask_eq by lia. done.
  - rewrite prefix_eq_step by done. rewrite !div_high by (done || lia).
    rewrite andb_true_iff, N.eqb_eq, IH by (done || lia). fold n.
    replace (n - (p - 8))%N with (n + 8 - p)%N by lia.
    set (s := (n + 8 - p)%N). assert (s <= n)%N as Hs by (unfold s; lia).
    pose proof (div_low_bound _ n s Bl Hs) as Dl. pose proof (div_low_bound _ n s Bk Hs) as Dk.
    split; [by intros [-> ->]|]. intros E.
    rewrite !(N.mul_comm _ (2 ^ (n - s))) in E. by apply N.div_mod_unique in E.
Qed.

(** The host bits of a list of octets, as [host_bits_clear] reads them. *)
Definition tail_clear (p : N) (l : list N) : bool :=
  let '(whole, remainder) := split_prefix p in
  if negb (remainder =? 0)%N
     && is_some_and (l !! whole)
          (fun byte => negb (N.land byte (N.lxor (mask remainder) 255) =? 0)%N)
  then false
  else
    let tail := if (remainder =? 0)%N then whole else S whole in
    forallb (fun byte => byte =? 0)%N (drop tail l).

Lemma host_bits_clear_tail a p : host_bits_clear a p = tail_clear p (IpAddress.octets a).
Proof. done. Qed.

Lemma octets_zero l : forallb (fun byte => byte =? 0)%N l = true -> octets_value l = 0%N.
Proof. induction l as [|b l IH]; [done|]. simpl. intros [->%N.eqb_eq Hl]%andb_true_iff. by rewrite IH. Qed.

Lemma tail_clear_step p a l : (8 <= p)%N -> tail_clear p (a :: l) = tail_clear (p - 8) l.
Proof.
  intros Hp. unfold tail_clear. rewrite split_prefix_step by done.
  destruct (split_prefix (p - 8)) as [w r]. simpl. by destruct (r =? 0)%N.
Qed.

Lemma tail_clear_mod p l :
  bytes l = true -> (p <= 8 * N.of_nat (length l))%N -> tail_clear p l = true ->
  (octets_value l mod 2 ^ (8 * N.of_nat (length l) - p) = 0)%N.
Proof.
  revert p; induction l as [|a l IH]; intros p Hl Hp Hc.
  { simpl. by rewrite N.Div0.mod_0_l. }
  unfold bytes in Hl; simpl in Hl. apply andb_true_iff in Hl as [Ha%N.ltb_lt Hl].
  change (octets_value (a :: l)) with (a * 2 ^ (8 * N.of_nat (length l)) + octets_value l)%N.
  set (n := (8 * N.of_nat (length l))%N) in *.
  assert (8 * N.of_nat (length (a :: l)) = n + 8)%N as En by (unfold n; simpl length; lia).
  rewrite En in *. destruct (N.lt_ge_cases p 8) as [Hp8|Hp8].
  - unfold tail_clear in Hc. rewrite split_prefix_small in Hc by done. simpl in Hc.
    destruct (N.eqb_spec p 0) as [->|Hp0]; simpl in Hc.
    + apply andb_true_iff in Hc as [->%N.eqb_eq Hz]. rewrite octets_zero by done.
      by rewrite N.Div0.mod_0_l.
    + destruct (N.land a _ =? 0)%N eqn:Em; [|done]. simpl in Hc. rewrite drop_0 in Hc.
      apply N.eqb_eq in Em. rewrite (proj2 (mask_div p a ltac:(lia) Ha)) in Em.
      rewrite octets_zero, N.add_0_r by done.
      replace (n + 8 - p)%N with (8 - p + n)%N by lia. rewrite N.pow_add_r.
      rewrite N.Div0.mul_mod_distr_r. by rewrite Em.
  - rewrite tail_clear_step in Hc by done. specialize (IH (p - 8)%N Hl ltac:(lia) Hc).
    replace (n - (p - 8))%N with (n + 8 - p)%N in IH by lia.
    replace (2 ^ n)%N with (2 ^ (n - (n + 8 - p)) * 2 ^ (n + 8 - p))%N
      by (rewrite <- N.pow_add_r; f_equal; lia).
    rewrite N.mul_assoc, N.add_comm, N.Div0.mod_add. done.
Qed.

Lemma Cidr_contains_prefix c a :
  Cidr.contains c a =
  (length (IpAddress.octets (Cidr.network c)) =? length (IpAddress.octets a))%nat
  && prefix_eq (Cidr.prefix c) (IpAddress.octets (Cidr.network c)) (IpAddress.octets a).
Proof.
  unfold Cidr.contains, prefix_eq.
  destruct (_ =? _)%nat; simpl; [|done]. destruct (split_prefix (Cidr.prefix c)) as [w r].
  destruct (bool_decide _); simpl; [|done]. by destruct (r =? 0)%N.
Qed.

(** The number of an address, and the number of addresses in a range. *)
Definition address_value (a : IpAddress.t) : N := octets_value (IpAddress.octets a).

Definition range_size (c : Cidr.t) : N :=
  2 ^ (IpAddress.bits (Cidr.network c) - Cidr.prefix c).

Definition same_family (a b : IpAddress.t) : Prop :=
  match a, b with
  | IpAddress.V4 _, IpAddress.V4 _ | IpAddress.V6 _, IpAddress.V6 _ => True
  | _, _ => False
  end.

Lemma ip_wf a :
  IpAddress.wf a = true ->
  bytes (IpAddress.octets a) = true /\
  IpAddress.bits a = (8 * N.of_nat (length (IpAddress.octets a)))%N.
Proof.
  unfold IpAddress.wf, bytes. destruct a; simpl; intros [E%Nat.eqb_eq ?]%andb_true_iff; by rewrite E.
Qed.

Lemma same_family_length a b :
  IpAddress.wf a = true -> IpAddress.wf b = true ->
  same_family a b <-> length (IpAddress.octets a) = length (IpAddress.octets b).
Proof.
  unfold IpAddress.wf. destruct a, b; simpl;
    intros [Ea%Nat.eqb_eq _]%andb_true_iff [Eb%Nat.eqb_eq _]%andb_true_iff;
    rewrite Ea, Eb; split; done.
Qed.

(** A division by [s] that agrees with a multiple of [s] is an interval. *)
Lemma div_interval x y s :
  (s <> 0)%N -> (x mod s = 0)%N -> (x / s = y / s)%N <-> (x <= y < x + s)%N.
Proof.
  intros Hs Hx. pose proof (N.div_mod x s Hs) as Ex. rewrite Hx, N.add_0_r in Ex.
  pose proof (N.div_mod y s Hs) as Ey. pose proof (N.mod_lt y s Hs) as By.
  split.
  - intros E. rewrite <- E in Ey. revert Ex Ey By. generalize (y mod s)%N (s * (x / s))%N. lia.
  - intros [Hle Hlt]. clear Ey By. apply (N.div_unique y s (x / s) (y - x)); [lia|].
    revert Ex. generalize (s * (x / s))%N. lia.
Qed.

Lemma Cidr_contains_interval c a :
  Cidr.wf c = true -> IpAddress.wf a = true ->
  Cidr.contains c a = true <->
  same_family (Cidr.network c) a /\
  (address_value (Cidr.network c) <= address_value a
   < address_value (Cidr.network c) + range_size c)%N.
Proof.
  unfold Cidr.wf. intros [[Hn Hp%N.leb_le]%andb_true_iff Hclear]%andb_true_iff Ha.
  rewrite Cidr_contains_prefix, andb_true_iff, Nat.eqb_eq, (same_family_length _ _ Hn Ha).
  destruct (ip_wf _ Hn) as [Bn En], (ip_wf _ Ha) as [Ba _]. rewrite En in Hp.
  apply tail_clear_mod in Hclear; [|done..]. unfold address_value, range_size. rewrite En.
  assert (forall P Q R : Prop, (P -> (Q <-> R)) -> (P /\ Q <-> P /\ R)) as Hand by tauto.
  apply Hand. intros Hlen. rewrite prefix_eq_spec by done.
  apply div_interval; [by apply N.pow_nonzero|done].
Qed.

(** * Ranges as text *)

Lemma parse_octet_Ok part n :
  parse_octet part = Ok n -> (n < 256)%N.
Proof.
  unfold parse_octet. destruct (_ || _); [done|]. destruct (_ && _); [done|].
  intros Hp%ok_or_Ok%parse_uint_bound. unfold U8_MAX in Hp. lia.
Qed.

Lemma parse_octet_show n : (n < 256)%N -> parse_octet (show_N n) = Ok n.
Proof.
  intros Hn. apply (bool_decide_eq_true (_ = _)). revert n Hn.
  apply (N_forall_below (fun n => bool_decide (parse_octet (show_N n) = Ok n)) 256).
  vm_compute. reflexivity.
Qed.

Lemma parse_v4_Ok acc parts o :
  parse_v4 acc parts = Ok o -> bytes acc = true -> bytes o = true.
Proof.
  revert acc; induction parts as [|part parts IH]; intros acc; simpl; [by intros [= <-]|].
  destruct (length acc =? 4)%nat; [done|].
  destruct (parse_octet part) as [n|] eqn:E; [|done]. intros Hp Hacc.
  apply (IH _ Hp). unfold bytes in *. rewrite forallb_app, Hacc. simpl.
  apply parse_octet_Ok, N.ltb_lt in E. by rewrite E.
Qed.

Lemma parse_v4_show acc o :
  bytes o = true -> length acc + length o <= 4 ->
  parse_v4 acc (show_N <$> o) = Ok (acc ++ o).
Proof.
  revert acc; induction o as [|b o IH]; intros acc; simpl; [by rewrite app_nil_r|].
  intros [Hb%N.ltb_lt Ho]%andb_true_iff Hlen.
  destruct (Nat.eqb_spec (length acc) 4) as [E|_]; [lia|].
  rewrite parse_octet_show by done. rewrite IH; [by rewrite <- app_assoc|done|].
  rewrite length_app; simpl. lia.
Qed.

Lemma push_digit_bound v d n : push_digit v d = Some n -> (n <= U16_MAX)%N.
Proof.
  unfold push_digit. destruct (_ <=? _)%N; [|done].
  destruct (N.leb_spec (v * 16 + d) U16_MAX); [by intros [= <-]|done].
Qed.

Lemma push_digit_Some v d : (v * 16 + d <= U16_MAX)%N -> push_digit v d = Some (v * 16 + d)%N.
Proof.
  intros H. unfold push_digit.
  destruct (N.leb_spec (v * 16) U16_MAX); [|lia].
  destruct (N.leb_spec (v * 16 + d) U16_MAX); [done|lia].
Qed.

Lemma parse_v6_digits_bound part v n :
  parse_v6_digits v part = Ok n -> (v <= U16_MAX)%N -> (n <= U16_MAX)%N.
Proof.
  revert v; induction part as [|c part IH]; intros v; simpl; [by intros [= <-]|].
  destruct (Sha256Digest.hex_digit c) as [d|]; simpl; [|done].
  destruct (push_digit v d) as [w|] eqn:E; simpl; [|done]. intros Hp _.
  apply (IH w Hp). by eapply push_digit_bound.
Qed.

Lemma parse_v6_group_hex4 h l :
  (h < 256)%N -> (l < 256)%N -> parse_v6_group (IpAddress.hex4 h l) = Ok (h * 256 + l)%N.
Proof.
  intros Hh Hl. unfold parse_v6_group, IpAddress.hex4. simpl is_empty. simpl String.length.
  change (false || (4 <? 4)%nat) with false. cbv iota.
  pose proof (N.div_mod h 16 ltac:(done)) as Eh. pose proof (N.mod_lt h 16 ltac:(done)) as Bh.
  pose proof (N.div_mod l 16 ltac:(done)) as El. pose proof (N.mod_lt l 16 ltac:(done)) as Bl.
  assert (h / 16 < 16)%N as Dh by (apply N.Div0.div_lt_upper_bound; lia).
  assert (l / 16 < 16)%N as Dl by (apply N.Div0.div_lt_upper_bound; lia).
  revert Eh El Bh Bl Dh Dl. generalize (h / 16)%N (h mod 16)%N (l / 16)%N (l mod 16)%N.
  intros h1 h0 l1 l0 -> -> ? ? ? ?. cbn [parse_v6_digits].
  do 4 (rewrite Sha256Digest.hex_digit_nibble by done; cbn [ok_or];
        rewrite push_digit_Some by (unfold U16_MAX; lia); cbn [ok_or]).
  apply (f_equal Ok). lia.
Qed.

Lemma parse_v6_loop_Ok acc parts o :
  parse_v6_loop acc parts = Ok o -> bytes acc = true -> bytes o = true.
Proof.
  revert acc; induction parts as [|part parts IH]; intros acc; simpl; [by intros [= <-]|].
  destruct (parse_v6_group part) as [v|] eqn:E; [|done].
  destruct (length acc =? 16)%nat; [done|]. intros Hp Hacc. apply (IH _ Hp).
  assert (v <= U16_MAX)%N as Hv.
  { unfold parse_v6_group in E. destruct (_ || _); [done|].
    by apply parse_v6_digits_bound in E. }
  unfold bytes in *. rewrite forallb_app, Hacc. simpl. rewrite andb_true_r.
  apply andb_true_iff; split; apply N.ltb_lt.
  - apply N.Div0.div_lt_upper_bound. unfold U16_MAX in Hv. lia.
  - by apply N.mod_lt.
Qed.

(** The groups of an even number of octets parse back to them. *)
Lemma parse_v6_loop_groups n acc o :
  length o = 2 * n -> bytes o = true -> length acc + length o <= 16 -> Nat.Even (length acc) ->
  parse_v6_loop acc (IpAddress.groups o) = Ok (acc ++ o).
Proof.
  revert acc o; induction n as [|n IH]; intros acc o Hlen Hb Hle Hev.
  - apply length_zero_iff_nil in Hlen as ->. simpl. by rewrite app_nil_r.
  - destruct o as [|h [|l o]]; [simpl in Hlen; lia..|]. simpl in Hlen, Hle.
    unfold bytes in Hb; simpl in Hb. bool_to_prop.
    repeat match goal with H : (_ <? _)%N = true |- _ => apply N.ltb_lt in H end.
    simpl. rewrite parse_v6_group_hex4 by done.
    destruct (Nat.eqb_spec (length acc) 16) as [E|_]; [lia|].
    replace ((h * 256 + l) / 256)%N with h by (apply (N.div_unique _ 256 h l); lia).
    replace ((h * 256 + l) mod 256)%N with l by (apply (N.mod_unique _ 256 h l); lia).
    rewrite IH; [by rewrite <- app_assoc|lia|done| |].
    + rewrite length_app; simpl; lia.
    + rewrite length_app; simpl. destruct Hev as [k ->]. exists (S k). lia.
Qed.

Lemma groups_no c o :
  Sha256Digest.hex_digit c = None -> bytes o = true ->
  Forall (fun p => str_contains c p = false) (IpAddress.groups o).
Proof.
  intros Hc. assert (forall n, (n < 16)%N -> Ascii.eqb (Sha256Digest.nibble n) c = false) as Hn.
  { intros n Hn. destruct (Ascii.eqb_spec (Sha256Digest.nibble n) c) as [E|]; [|done].
    rewrite <- E, Sha256Digest.hex_digit_nibble in Hc; done. }
  assert (forall x, (x <? 256)%N = true -> (x / 16 < 16)%N /\ (x mod 16 < 16)%N) as Hx.
  { intros x Hx%N.ltb_lt. split; [apply N.Div0.div_lt_upper_bound; lia|by apply N.mod_lt]. }
  revert o. fix IH 1. intros [|h [|l o]] Hb; [constructor..|].
  unfold bytes in Hb; simpl in Hb. bool_to_prop. simpl. constructor; [|by apply IH].
  destruct (Hx h) as [? ?]; [done|]. destruct (Hx l) as [? ?]; [done|].
  simpl. by rewrite !Hn.
Qed.

Lemma groups_length o n : length o = 2 * n -> length (IpAddress.groups o) = n.
Proof.
  revert o; induction n as [|n IH]; intros o Hlen.
  - by apply length_zero_iff_nil in Hlen as ->.
  - destruct o as [|h [|l o]]; [simpl in Hlen; lia..|]. simpl in *. by rewrite IH by lia.
Qed.

Lemma address_no_slash a : IpAddress.wf a = true -> str_contains "/" (IpAddress.display a) = false.
Proof.
  destruct a as [o|o]; intros [_ Hb]%andb_true_iff; simpl in *.
  - apply str_join_not_contains; [done|]. apply Forall_fmap, Forall_forall. intros n _. simpl.
    by apply (str_all_not_contains is_digit), show_N_digits.
  - apply str_join_not_contains; [done|]. by apply groups_no.
Qed.

Lemma parse_address_wf text a : parse_address text = Ok a -> IpAddress.wf a = true.
Proof.
  unfold parse_address, parse_v6, IpAddress.wf. destruct (str_contains ":" text).
  - destruct (parse_v6_loop [] _) as [o|] eqn:E; [|done].
    destruct (length o =? 16)%nat eqn:El; [|done]. intros [= <-]. simpl.
    rewrite El. by apply parse_v6_loop_Ok in E.
  - destruct (parse_v4 [] _) as [o|] eqn:E; [|done].
    destruct (length o =? 4)%nat eqn:El; [|done]. intros [= <-]. simpl.
    rewrite El. by apply parse_v4_Ok in E.
Qed.

Lemma parse_address_display a :
  IpAddress.wf a = true -> parse_address (IpAddress.display a) = Ok a.
Proof.
  unfold parse_address, IpAddress.wf.
  destruct a as [o|o]; simpl; intros [Hlen%Nat.eqb_eq Hb]%andb_true_iff.
  - rewrite str_join_not_contains; [|done|].
    + rewrite str_split_join; [|by destruct o|].
      * rewrite parse_v4_show by (done || simpl; lia). simpl. by rewrite Hlen.
      * apply Forall_fmap, Forall_forall. intros n _. simpl.
        by apply (str_all_not_contains is_digit), show_N_digits.
    + apply Forall_fmap, Forall_forall. intros n _. simpl.
      by apply (str_all_not_contains is_digit), show_N_digits.
  - assert (str_contains ":" (str_join ":" (IpAddress.groups o)) = true) as ->.
    { destruct o as [|h [|l [|h' [|l' o]]]]; try (simpl in Hlen; lia).
      simpl IpAddress.groups. rewrite str_join_cons, str_contains_app by done. simpl.
      by rewrite orb_true_r. }
    unfold parse_v6. rewrite str_split_join.
    + rewrite (parse_v6_loop_groups 8) by (done || simpl; lia || by exists 0). simpl.
      by rewrite Hlen.
    + destruct o as [|h [|l o]]; simpl in Hlen |- *; by try lia.
    + by apply groups_no.
Qed.

Lemma Cidr_parse_wf text c : Cidr.parse text = Ok c -> Cidr.wf c = true.
Proof.
  unfold Cidr.parse, Cidr.wf. destruct (str_split_once "/" text) as [[a p]|]; [|done].
  destruct (_ || _); [done|].
  destruct (ok_or (parse_uint U32_MAX p) _) as [n|]; [|done].
  destruct (parse_address a) as [ip|] eqn:Ea; [|done].
  destruct (N.ltb_spec (IpAddress.bits ip) n) as [|Hn]; [done|].
  destruct (host_bits_clear ip n) eqn:Eh; [|done]. intros [= <-]. simpl.
  rewrite (parse_address_wf _ _ Ea), Eh. by apply N.leb_le in Hn as ->.
Qed.

Lemma Cidr_parse_display c : Cidr.wf c = true -> Cidr.parse (Cidr.display c) = Ok c.
Proof.
  unfold Cidr.parse, Cidr.wf, Cidr.display.
  intros [[Hn Hp]%andb_true_iff Hclear]%andb_true_iff.
  rewrite str_split_once_app by by apply address_no_slash.
  rewrite show_N_not_empty, show_N_digits. simpl.
  pose proof Hp as Hp'. apply N.leb_le in Hp'.
  rewrite parse_uint_show.
  2:{ destruct (Cidr.network c); simpl in Hp'; unfold U32_MAX; lia. }
  simpl. rewrite parse_address_display by done.
  destruct (N.ltb_spec (IpAddress.bits (Cidr.network c)) (Cidr.prefix c)); [lia|].
  rewrite Hclear. by destruct c.
Qed.

(** * Rule-side paths *)

Lemma zip_all_prefix {A B} (f : A -> B -> bool) l k :
  length k <= length l ->
  RulePath.zip_all f l k = true <-> Forall2 (fun a b => f a b = true) (take (length k) l) k.
Proof.
  revert l; induction k as [|b k IH]; intros [|a l] Hlen; simpl in *; try lia;
    [by split; [constructor|]..|].
  rewrite andb_true_iff, IH by lia. split.
  - intros [? ?]. by constructor.
  - inversion 1; subst; auto.
Qed.

Lemma Forall2_as_str l k :
  Forall2 (fun a b => String.eqb (PathComponent.as_str a) b = true) l k <->
  PathComponent.as_str <$> l = k.
Proof.
  split.
  - induction 1 as [|a b l k E _ IH]; [done|]. apply String.eqb_eq in E as <-. by rewrite fmap_cons, IH.
  - intros <-. induction l as [|a l IH]; constructor; [apply String.eqb_refl|done].
Qed.

Lemma Forall2_eq_components (l k : list PathComponent.t) :
  Forall2 (fun a b => bool_decide (a = b) = true) l k <-> l = k.
Proof.
  split.
  - induction 1 as [|a b l k E _ IH]; [done|]. apply bool_decide_eq_true in E as <-. by rewrite IH.
  - intros <-. induction l as [|a l IH]; constructor; [by apply bool_decide_eq_true|done].
Qed.

Lemma as_str_list_inj (l k : list PathComponent.t) :
  PathComponent.as_str <$> l = PathComponent.as_str <$> k -> l = k.
Proof.
  revert k; induction l as [|[a] l IH]; intros [|[b] k]; simpl; try done.
  intros [= -> E]. f_equal. by apply IH.
Qed.

(** Containment is a prefix of names, the anchor's first. *)
Lemma RulePath_contains_names p anchors candidate root :
  RulePath.root_of p anchors = Ok root ->
  RulePath.contains p anchors candidate =
    Ok (bool_decide (RulePath.names p root `prefix_of`
                     (PathComponent.as_str <$> CanonicalPath.components candidate))).
Proof.
  intros Hroot. unfold RulePath.contains, RulePath.names. rewrite Hroot.
  generalize (CanonicalPath.components candidate) (RulePath.segments p). intros cs segs.
  set (P := (PathComponent.as_str <$> root) ++ segs `prefix_of` (PathComponent.as_str <$> cs)).
  assert (forall b, (b = true <-> P) -> Ok b = (Ok (bool_decide P) : result bool PathAnchor.t)) as Hb.
  { intros b Hb. f_equal. apply eq_true_iff_eq. by rewrite bool_decide_eq_true. }
  destruct (Nat.ltb_spec (length cs) (length root + length segs)) as [Hlt|Hle].
  { apply Hb. split; [done|]. intros Hp%prefix_length.
    rewrite length_app, !length_fmap in Hp. lia. }
  destruct (RulePath.zip_all _ cs root) eqn:Ez; simpl.
  - apply zip_all_prefix in Ez; [|lia]. apply Forall2_eq_components in Ez. apply Hb.
    rewrite zip_all_prefix by (rewrite length_drop; lia). rewrite Forall2_as_str.
    unfold P. rewrite <- (take_drop (length root) cs) at 2. rewrite Ez, fmap_app. split.
    + intros E. apply prefix_app. rewrite <- E. exists (PathComponent.as_str <$> drop (length segs) (drop (length root) cs)).
      by rewrite <- fmap_app, take_drop.
    + intros [rest E]%prefix_app_inv. rewrite fmap_take, E. by rewrite take_app_length.
  - apply Hb. split; [done|]. intros [rest E]. exfalso.
    assert (RulePath.zip_all (fun actual expected => bool_decide (actual = expected)) cs root = true)
      as Hz; [|congruence].
    apply zip_all_prefix; [lia|]. apply Forall2_eq_components, as_str_list_inj.
    rewrite fmap_take, E, <- app_assoc. by rewrite <- (length_fmap PathComponent.as_str root), take_app_length.
Qed.

Lemma is_path_segment_spec s :
  is_path_segment s = true ->
  is_empty s = false /\ str_contains "/" s = false /\ str_contains "000" s = false.
Proof. unfold is_path_segment. intros H. bool_to_prop. done. Qed.

Lemma segments_no c segs :
  (c = "/" \/ c = "000")%char -> forallb is_path_segment segs = true ->
  Forall (fun p => str_contains c p = false) segs.
Proof.
  intros Hc. induction segs as [|s segs IH]; simpl; [constructor|].
  intros [(_ & Hs & Hz)%is_path_segment_spec Hl]%andb_true_iff.
  constructor; [by destruct Hc as [->| ->]|auto].
Qed.

(** The text below an anchor. *)
Definition body_text (segs : list string) : string :=
  List.fold_right (fun s acc => String "/" (s +:+ acc)) EmptyString segs.

Lemma body_text_join segs : segs <> [] -> body_text segs = String "/" (str_join "/" segs).
Proof.
  induction segs as [|s segs IH]; [done|]. intros _.
  change (body_text (s :: segs)) with (String "/" (s +:+ body_text segs)). f_equal.
  destruct (decide (segs = [])) as [->|Hne]; [apply string_app_nil_r|].
  by rewrite IH, str_join_cons.
Qed.

Lemma parse_segments_wf segs :
  forallb is_path_segment segs = true -> RulePath.parse_segments segs = Ok segs.
Proof.
  induction segs as [|s segs IH]; [done|]. simpl. intros [-> Hs]%andb_true_iff. simpl. by rewrite IH.
Qed.

Lemma parse_segments_Ok parts segs :
  RulePath.parse_segments parts = Ok segs -> forallb is_path_segment segs = true.
Proof.
  revert segs; induction parts as [|p parts IH]; intros segs; simpl; [by intros [= <-]|].
  destruct (is_path_segment p) eqn:E; [|done]. simpl.
  destruct (RulePath.parse_segments parts) as [r|]; [|done]. intros [= <-]. simpl.
  by rewrite E, (IH r).
Qed.

Lemma RulePath_parse_wf text p : RulePath.parse text = Ok p -> RulePath.wf p = true.
Proof.
  unfold RulePath.parse, RulePath.wf. destruct (_ || _); [done|].
  destruct (split_anchor text) as [[a rest]|]; [|done].
  destruct (if is_empty rest then _ else _) as [segs|] eqn:E; [|done].
  destruct (Nat.ltb_spec Limits.MAX_PATH_SEGMENTS (length segs)) as [|Hle]; [done|].
  intros [= <-]. simpl. apply Nat.leb_le in Hle as ->. rewrite andb_true_r.
  destruct (is_empty rest); [by injection E as <-|by apply parse_segments_Ok in E].
Qed.

Lemma strip_separator_body segs :
  forallb is_path_segment segs = true ->
  strip_separator (body_text segs) = Ok (str_join "/" segs).
Proof.
  intros _. destruct segs as [|s segs]; [done|]. by rewrite body_text_join.
Qed.

Lemma split_anchor_symbol symbol a rest :
  str_contains "}" symbol = false ->
  List.find (fun a => bool_decide (PathAnchor.as_str a = Some ("${" +:+ symbol +:+ "}")%string))
    PathAnchor.SYMBOLIC = Some a ->
  split_anchor ("${" +:+ symbol +:+ String "}" rest) =
    let? r := strip_separator rest in Ok (a, r).
Proof.
  intros Hs Ha. unfold split_anchor.
  change (str_strip_prefix "${" ("${" +:+ symbol +:+ String "}" rest))
    with (Some (symbol +:+ String "}" rest)).
  cbv iota beta. by rewrite str_split_once_app, Ha by done.
Qed.

Lemma split_anchor_display p :
  RulePath.wf p = true ->
  split_anchor (RulePath.display p) = Ok (RulePath.anchor p, str_join "/" (RulePath.segments p)).
Proof.
  destruct p as [a segs]. unfold RulePath.wf, RulePath.display; simpl.
  intros [Hs _]%andb_true_iff. fold (body_text segs).
  pose proof (strip_separator_body segs Hs) as Hb.
  assert (a <> PathAnchor.Absolute ->
    (if ArgvAllowlist.is_nil segs && bool_decide (a = PathAnchor.Absolute) then "/" else "")%string = "")
    as Htail by (intros Ha; by rewrite bool_decide_eq_false_2, andb_false_r).
  destruct a; rewrite ?Htail by done; rewrite ?string_app_nil_r; cbn [PathAnchor.as_str].
  - etrans; [exact (split_anchor_symbol "WORKSPACE" PathAnchor.Workspace (body_text segs) eq_refl eq_refl)|].
    by rewrite Hb.
  - etrans; [exact (split_anchor_symbol "DIREWOLF_HOME" PathAnchor.DirewolfHome (body_text segs) eq_refl eq_refl)|].
    by rewrite Hb.
  - etrans; [exact (split_anchor_symbol "DIREWOLF_CONFIG" PathAnchor.DirewolfConfig (body_text segs) eq_refl eq_refl)|].
    by rewrite Hb.
  - etrans; [exact (split_anchor_symbol "DIREWOLF_INSTALL" PathAnchor.DirewolfInstall (body_text segs) eq_refl eq_refl)|].
    by rewrite Hb.
  - unfold split_anchor. simpl. by rewrite Hb.
  - destruct segs as [|s segs]; [done|].
    rewrite body_text_join by done. simpl. by rewrite string_app_nil_r.
Qed.

Lemma RulePath_parse_display p :
  RulePath.wf p = true -> RulePath.parse (RulePath.display p) = Ok p.
Proof.
  intros Hw. unfold RulePath.parse. rewrite split_anchor_display by done.
  unfold RulePath.wf in Hw. destruct p as [a segs]; simpl in *.
  apply andb_true_iff in Hw as [Hs Hlen%Nat.leb_le].
  assert (is_empty (RulePath.display (RulePath.Make a segs)) = false) as ->.
  { unfold RulePath.display; simpl. destruct a; try done. by destruct segs. }
  assert (str_contains "000" (RulePath.display (RulePath.Make a segs)) = false) as ->.
  { unfold RulePath.display; simpl. fold (body_text segs). rewrite !str_contains_app.
    assert (str_contains "000" (body_text segs) = false) as ->.
    { destruct (decide (segs = [])) as [->|Hne]; [done|]. rewrite body_text_join by done. simpl.
      apply str_join_not_contains; [done|]. apply segments_no; auto. }
    destruct a, segs; done. }
  cbn [orb]. destruct segs as [|s segs]; [done|].
  assert (is_empty (str_join "/" (s :: segs)) = false) as ->.
  { simpl in Hs. apply andb_true_iff in Hs as [(Hs & _)%is_path_segment_spec _].
    destruct s; [done|]. by destruct segs. }
  rewrite str_split_join by (done || apply segments_no; auto).
  rewrite parse_segments_wf by done.
  destruct (Nat.ltb_spec Limits.MAX_PATH_SEGMENTS (length (s :: segs))); [lia|done].
Qed.
