(* ===== verification/Predicate.v ===== *)
(** What a rule may ask of an action ([policy/predicate.rs]): match values,
    the [when] and [unless] tables, and their three-valued evaluation. *)

From S2P Require Export Prelude Verbs Scopes PolicyContext PolicyValue.

(** * Equality or membership *)

Module MatchValue.
Inductive t (A : Type) : Type :=
| Eq (value : A)
| In (values : list A).
Arguments Eq {A} value.
Arguments In {A} values.

#[global] Instance eq_dec {A} `{EqDecision A} : EqDecision (t A).
Proof. solve_decision. Defined.

Definition any {A} (self : t A) (predicate : A -> bool) : bool :=
  match self with
  | Eq value => predicate value
  | In values => existsb predicate values
  end.

(** The loop of [try_any] over a list's values. *)
Fixpoint try_values {A E} (predicate : A -> result bool E) (values : list A) : result bool E :=
  match values with
  | [] => Ok false
  | value :: rest =>
      let? holds := predicate value in
      if holds : bool then Ok true else try_values predicate rest
  end.

Definition try_any {A E} (self : t A) (predicate : A -> result bool E) : result bool E :=
  match self with
  | Eq value => predicate value
  | In values => try_values predicate values
  end.

Definition values {A} (self : t A) : list A :=
  match self with Eq value => [value] | In values => values end.

Definition is_scalar {A} (self : t A) : bool :=
  match self with Eq _ => true | In _ => false end.

Definition len {A} (self : t A) : nat :=
  match self with Eq _ => 1 | In values => length values end.

Definition is_empty {A} (self : t A) : bool := (len self =? 0)%nat.

Definition matches {A} `{EqDecision A} (self : t A) (candidate : A) : bool :=
  any self (fun value => bool_decide (value = candidate)).

(** The two spellings decide alike: everything is a fact about [values]. *)
Lemma any_values {A} (self : t A) p : any self p = existsb p (values self).
Proof. destruct self; simpl; [by rewrite orb_false_r|done]. Qed.

Lemma matches_values {A} `{EqDecision A} (self : t A) c :
  matches self c = bool_decide (c ∈ values self).
Proof.
  unfold matches. rewrite any_values. apply Bool.eq_iff_eq_true.
  rewrite existsb_exists, bool_decide_eq_true, list_elem_of_In. split.
  - intros (v & Hv & ->%bool_decide_eq_true). done.
  - intros Hc. exists c. by rewrite bool_decide_eq_true.
Qed.

(** A predicate that can always be evaluated makes [try_any] the plain [any]. *)
Lemma try_any_total {A E} (self : t A) (p : A -> bool) :
  try_any self (fun v => Ok (p v)) = (Ok (any self p) : result bool E).
Proof.
  destruct self as [v|l]; simpl; [done|].
  induction l as [|v l IH]; simpl; [done|]. by destruct (p v).
Qed.
End MatchValue.

(** * Predicate names *)

Module PredicateName.
Inductive t : Set :=
| Verb | PathUnder | MaxBytes | ExecutableIn | ArgvSafe | HostMatches | IpIn
| DestinationNovel | Environment | Origin | TaintLevel | PrivacyClass
| ProvisionalEffect | UnlessConfig | UnlessStandingGrant.

#[global] Instance eq_dec : EqDecision t.
Proof. solve_decision. Defined.

Definition ALL : list t :=
  [Verb; PathUnder; MaxBytes; ExecutableIn; ArgvSafe; HostMatches; IpIn;
   DestinationNovel; Environment; Origin; TaintLevel; PrivacyClass;
   ProvisionalEffect; UnlessConfig; UnlessStandingGrant].

Definition as_str (p : t) : string :=
  match p with
  | Verb => "verb" | PathUnder => "path_under" | MaxBytes => "max_bytes"
  | ExecutableIn => "executable_in" | ArgvSafe => "argv_safe"
  | HostMatches => "host_matches" | IpIn => "ip_in"
  | DestinationNovel => "destination_novel" | Environment => "environment"
  | Origin => "origin" | TaintLevel => "taint_level" | PrivacyClass => "privacy_class"
  | ProvisionalEffect => "provisional_effect" | UnlessConfig => "config"
  | UnlessStandingGrant => "standing_grant"
  end.

Definition applies_to (self : t) (verb : Verb.t) : bool :=
  match self, Verb.scope_family verb with
  | (Verb | Environment | Origin | TaintLevel | PrivacyClass | ProvisionalEffect
     | UnlessConfig | UnlessStandingGrant), _ => true
  | (PathUnder | MaxBytes), ScopeFamily.Path => true
  | (ExecutableIn | ArgvSafe), ScopeFamily.Executable => true
  | HostMatches, (ScopeFamily.Endpoint | ScopeFamily.Domain) => true
  | IpIn, ScopeFamily.Endpoint => true
  | DestinationNovel,
    (ScopeFamily.Endpoint | ScopeFamily.Domain | ScopeFamily.ChannelTarget) => true
  | _, _ => false
  end.

Definition requires (self : t) : string :=
  match self with
  | PathUnder | MaxBytes => "it applies to fs verbs, whose scope is a path"
  | ExecutableIn | ArgvSafe => "it applies to process verbs, whose scope is an executable"
  | HostMatches => "it applies to network and browser verbs"
  | IpIn => "it applies to network verbs, whose scope is an endpoint"
  | DestinationNovel => "it applies to verbs with a destination: network, browser, channel"
  | _ => "it applies to every verb"
  end.
End PredicateName.

(** * Three-valued matching *)

Module Unevaluable.
Inductive t : Set :=
| PathAnchor (anchor : PathAnchor.t)
| ResolvedAddress.

#[global] Instance eq_dec : EqDecision t.
Proof. solve_decision. Defined.
End Unevaluable.

Module Match.
Inductive t : Set := Yes | No | Unevaluable (why : Unevaluable.t).

#[global] Instance eq_dec : EqDecision t.
Proof. solve_decision. Defined.

Definition from_bool (value : bool) : t := if value then Yes else No.

Definition and (self other : t) : t :=
  match self, other with
  | Unevaluable why, _ => Unevaluable why
  | No, _ => No
  | Yes, other => other
  end.

Lemma and_from_bool a b : and (from_bool a) (from_bool b) = from_bool (a && b).
Proof. by destruct a, b. Qed.

Lemma from_bool_yes b : from_bool b = Yes <-> b = true.
Proof. by destruct b. Qed.
End Match.

(** * The two halves of a condition *)

Module When.
Record t : Type := Make {
  verb : option (MatchValue.t Verb.t);
  path_under : option (MatchValue.t RulePath.t);
  max_bytes : option N;
  executable_in : option (MatchValue.t ExecutableSpec.t);
  argv_safe : option ArgvSafety.t;
  host_matches : option (MatchValue.t HostPattern.t);
  ip_in : option (MatchValue.t Cidr.t);
  destination_novel : option Novelty.t;
  environment : option (MatchValue.t Environment.t);
  origin : option (MatchValue.t Origin.t);
  taint_level : option (MatchValue.t TaintLevel.t);
  privacy_class : option (MatchValue.t PrivacyClass.t);
  provisional_effect : option (MatchValue.t Effect.t)
}.

#[global] Instance eq_dec : EqDecision t.
Proof. solve_decision. Defined.

(** [Default]. *)
Definition default : t :=
  Make None None None None None None None None None None None None None.

(** The closure [note], as what it appends. *)
Definition note (present : bool) (name : PredicateName.t) : list PredicateName.t :=
  if present then [name] else [].

Definition present (self : t) : list PredicateName.t :=
  note (is_some (verb self)) PredicateName.Verb
  ++ note (is_some (path_under self)) PredicateName.PathUnder
  ++ note (is_some (max_bytes self)) PredicateName.MaxBytes
  ++ note (is_some (executable_in self)) PredicateName.ExecutableIn
  ++ note (is_some (argv_safe self)) PredicateName.ArgvSafe
  ++ note (is_some (host_matches self)) PredicateName.HostMatches
  ++ note (is_some (ip_in self)) PredicateName.IpIn
  ++ note (is_some (destination_novel self)) PredicateName.DestinationNovel
  ++ note (is_some (environment self)) PredicateName.Environment
  ++ note (is_some (origin self)) PredicateName.Origin
  ++ note (is_some (taint_level self)) PredicateName.TaintLevel
  ++ note (is_some (privacy_class self)) PredicateName.PrivacyClass
  ++ note (is_some (provisional_effect self)) PredicateName.ProvisionalEffect.

Definition is_empty (self : t) : bool := ArgvAllowlist.is_nil (present self).
End When.

Module Unless.
Record t : Set := Make {
  config : option ConfigKey.t;
  standing_grant : option bool
}.

#[global] Instance eq_dec : EqDecision t.
Proof. solve_decision. Defined.

(** [Default]. *)
Definition default : t := Make None None.

Definition present (self : t) : list PredicateName.t :=
  When.note (is_some (config self)) PredicateName.UnlessConfig
  ++ When.note (is_some (standing_grant self)) PredicateName.UnlessStandingGrant.

Definition is_empty (self : t) : bool :=
  negb (is_some (config self)) && negb (is_some (standing_grant self)).

Definition suppresses (self : t) (context : PolicyContext.t) : bool :=
  let by_config :=
    is_some_and (config self) (ConfigFlags.is_set (PolicyContext.config context)) in
  let by_grant :=
    is_some_and (standing_grant self) (fun wanted =>
      Bool.eqb (StandingGrantState.is_held (PolicyContext.standing_grant context)) wanted) in
  by_config || by_grant.
End Unless.

(** * Evaluation *)

Definition path_under (named : MatchValue.t RulePath.t) (context : PolicyContext.t)
    (scope : Scope.t) : result bool PathAnchor.t :=
  match scope with
  | Scope.Path candidate =>
      MatchValue.try_any named (fun path =>
        RulePath.contains path (PolicyContext.anchors context) candidate)
  | _ => Ok false
  end.

Definition executable_in (named : MatchValue.t ExecutableSpec.t) (context : PolicyContext.t)
    (scope : Scope.t) : result bool PathAnchor.t :=
  match scope with
  | Scope.Executable candidate =>
      MatchValue.try_any named (fun spec =>
        ExecutableSpec.matches spec (PolicyContext.anchors context) candidate)
  | _ => Ok false
  end.

Definition host_matches (named : MatchValue.t HostPattern.t) (scope : Scope.t) : bool :=
  match scope with
  | Scope.Syntactic (SyntacticScope.Endpoint endpoint) =>
      MatchValue.any named (fun pattern => HostPattern.contains pattern (Endpoint.host endpoint))
  | Scope.Syntactic (SyntacticScope.Domain host) =>
      MatchValue.any named (fun pattern => HostPattern.contains pattern host)
  | _ => false
  end.

Definition address_in (named : MatchValue.t Cidr.t) (action : CanonicalAction.t) :
    result bool Unevaluable.t :=
  let? address := ok_or (CanonicalAction.destination_ip action) Unevaluable.ResolvedAddress in
  Ok (MatchValue.any named (fun range => Cidr.contains range address)).

(** [if let Some(named) = field { match evaluate(named) { Ok(m) => result =
    result.and(m), Err(why) => return Unevaluable(why) } }]: the shape of the
    three predicates that can fail to be evaluated. *)
Definition and_evaluated {A} (field : option A) (evaluate : A -> result bool Unevaluable.t)
    (result : Match.t) (rest : Match.t -> Match.t) : Match.t :=
  match field with
  | None => rest result
  | Some named =>
      match evaluate named with
      | Ok matched => rest (Match.and result (Match.from_bool matched))
      | Err why => Match.Unevaluable why
      end
  end.

(** [When::matches]. *)
Definition when_matches (self : When.t) (action : CanonicalAction.t)
    (context : PolicyContext.t) : Match.t :=
  let verb := Capability.verb (CanonicalAction.capability action) in
  let scope := Capability.scope (CanonicalAction.capability action) in
  let result := Match.from_bool
    (is_none_or (When.verb self) (fun named => MatchValue.matches named verb)) in
  let result := Match.and result (Match.from_bool
    (is_none_or (When.environment self) (fun named =>
       MatchValue.matches named (CanonicalAction.environment action)))) in
  let result := Match.and result (Match.from_bool
    (is_none_or (When.origin self) (fun named =>
       MatchValue.matches named (PolicyContext.origin context)))) in
  let result := Match.and result (Match.from_bool
    (is_none_or (When.taint_level self) (fun named =>
       MatchValue.matches named (PolicyContext.taint context)))) in
  let result := Match.and result (Match.from_bool
    (is_none_or (When.privacy_class self) (fun named =>
       MatchValue.matches named (PolicyContext.privacy context)))) in
  let result := Match.and result (Match.from_bool
    (is_none_or (When.max_bytes self) (fun limit =>
       is_some_and (CanonicalAction.byte_count action) (fun bytes => (bytes <=? limit)%N)))) in
  let result := Match.and result (Match.from_bool
    (is_none_or (When.argv_safe self) (fun wanted =>
       bool_decide (CanonicalAction.argv_safety action = Some wanted)))) in
  let result := Match.and result (Match.from_bool
    (is_none_or (When.destination_novel self) (fun wanted =>
       bool_decide (CanonicalAction.destination_novelty action = Some wanted)))) in
  let result := Match.and result (Match.from_bool
    (is_none_or (When.host_matches self) (fun named => host_matches named scope))) in
  if bool_decide (result = Match.No) then result
  else
    and_evaluated (When.ip_in self) (fun ranges => address_in ranges action) result
      (fun result =>
    and_evaluated (When.path_under self) (fun paths =>
        map_err Unevaluable.PathAnchor (path_under paths context scope)) result
      (fun result =>
    and_evaluated (When.executable_in self) (fun specs =>
        map_err Unevaluable.PathAnchor (executable_in specs context scope)) result
      (fun result => result))).

(** * What a condition means *)

(** The nine predicates that are always true or false. *)
Definition decided (w : When.t) (action : CanonicalAction.t) (context : PolicyContext.t) : Prop :=
  let verb := Capability.verb (CanonicalAction.capability action) in
  let scope := Capability.scope (CanonicalAction.capability action) in
  (forall m, When.verb w = Some m -> verb ∈ MatchValue.values m) /\
  (forall m, When.environment w = Some m ->
     CanonicalAction.environment action ∈ MatchValue.values m) /\
  (forall m, When.origin w = Some m -> PolicyContext.origin context ∈ MatchValue.values m) /\
  (forall m, When.taint_level w = Some m ->
     PolicyContext.taint context ∈ MatchValue.values m) /\
  (forall m, When.privacy_class w = Some m ->
     PolicyContext.privacy context ∈ MatchValue.values m) /\
  (forall limit, When.max_bytes w = Some limit ->
     exists bytes, CanonicalAction.byte_count action = Some bytes /\ (bytes <= limit)%N) /\
  (forall s, When.argv_safe w = Some s -> CanonicalAction.argv_safety action = Some s) /\
  (forall n, When.destination_novel w = Some n ->
     CanonicalAction.destination_novelty action = Some n) /\
  (forall m, When.host_matches w = Some m -> host_matches m scope = true).

(** The three that need a value the input may not carry, in the order they are
    tried. *)
Definition evaluated (w : When.t) (action : CanonicalAction.t) (context : PolicyContext.t) :
    list (result bool Unevaluable.t) :=
  let scope := Capability.scope (CanonicalAction.capability action) in
  match When.ip_in w with Some m => [address_in m action] | None => [] end
  ++ match When.path_under w with
     | Some m => [map_err Unevaluable.PathAnchor (path_under m context scope)] | None => [] end
  ++ match When.executable_in w with
     | Some m => [map_err Unevaluable.PathAnchor (executable_in m context scope)]
     | None => [] end.

(** The first error, if any. *)
Fixpoint first_error {A E} (l : list (result A E)) : option E :=
  match l with
  | [] => None
  | Ok _ :: rest => first_error rest
  | Err e :: _ => Some e
  end.

Lemma is_none_or_spec {A} (o : option A) f :
  is_none_or o f = true <-> forall a, o = Some a -> f a = true.
Proof. destruct o; simpl; split; intros; simplify_eq; auto. Qed.

Lemma named_spec {A} `{EqDecision A} (o : option (MatchValue.t A)) c :
  is_none_or o (fun named => MatchValue.matches named c) = true <->
  forall m, o = Some m -> c ∈ MatchValue.values m.
Proof.
  rewrite is_none_or_spec. by setoid_rewrite MatchValue.matches_values;
    setoid_rewrite bool_decide_eq_true.
Qed.

Lemma limit_spec (o : option N) (count : option N) :
  is_none_or o (fun limit => is_some_and count (fun bytes => (bytes <=? limit)%N)) = true <->
  forall limit, o = Some limit -> exists bytes, count = Some bytes /\ (bytes <= limit)%N.
Proof.
  rewrite is_none_or_spec. split; intros H limit Hl; specialize (H limit Hl).
  - destruct count as [b|]; [|done]. simpl in H. apply N.leb_le in H. eauto.
  - destruct H as (b & -> & Hb). by apply N.leb_le.
Qed.

Lemma equal_spec {A} `{EqDecision A} (o c : option A) :
  is_none_or o (fun wanted => bool_decide (c = Some wanted)) = true <->
  forall a, o = Some a -> c = Some a.
Proof. rewrite is_none_or_spec. by setoid_rewrite bool_decide_eq_true. Qed.

(** [when_matches], unfolded once: the nine decided predicates as one boolean,
    then the first value that was missing, then the three booleans. *)
Lemma when_matches_spec w action context :
  (decided w action context /\
   when_matches w action context =
   match first_error (evaluated w action context) with
   | Some why => Match.Unevaluable why
   | None => Match.from_bool
       (forallb (fun r => bool_decide (r = Ok true)) (evaluated w action context))
   end) \/
  (~ decided w action context /\ when_matches w action context = Match.No).
Proof.
  unfold when_matches, decided. cbv zeta. rewrite !Match.and_from_bool.
  rewrite <- !named_spec, <- limit_spec, <- !equal_spec, <- is_none_or_spec.
  rewrite <- !andb_true_iff, !andb_assoc.
  match goal with |- (?b = true /\ _) \/ _ => destruct b end; [left|right; done].
  split; [done|]. simpl. unfold evaluated, and_evaluated.
  destruct (When.ip_in w) as [m1|]; [destruct (address_in m1 action) as [[]|]; try done|];
  (destruct (When.path_under w) as [m2|];
   [destruct (path_under m2 context _) as [[]|]; try done|]);
  (destruct (When.executable_in w) as [m3|];
   [destruct (executable_in m3 context _) as [[]|]; try done|]); done.
Qed.

Lemma first_error_None {A E} (l : list (result A E)) :
  first_error l = None <-> Forall (fun r => exists a, r = Ok a) l.
Proof.
  induction l as [|[a|e] l IH]; simpl.
  - split; [constructor|done].
  - rewrite IH, Forall_cons. split; [eauto|]. by intros [_ ?].
  - rewrite Forall_cons. split; [done|]. by intros [[? ?] _].
Qed.

(** A condition matches exactly when all it writes holds. *)
Lemma when_matches_Yes w action context :
  when_matches w action context = Match.Yes <->
  decided w action context /\ Forall (fun r => r = Ok true) (evaluated w action context).
Proof.
  destruct (when_matches_spec w action context) as [[Hd ->]|[Hd ->]].
  - destruct (first_error _) as [why|] eqn:He.
    + split; [done|]. intros [_ Hall].
      assert (first_error (evaluated w action context) = None); [|congruence].
      apply first_error_None. eapply Forall_impl; [done|]. simpl; eauto.
    + rewrite Match.from_bool_yes, forallb_forall, List.Forall_forall.
      setoid_rewrite bool_decide_eq_true. by split; [|intros [_ ?]].
  - split; [done|]. by intros [? _].
Qed.

(** It cannot be evaluated exactly when the rest holds and a value is missing. *)
Lemma when_matches_Unevaluable w action context why :
  when_matches w action context = Match.Unevaluable why <->
  decided w action context /\ first_error (evaluated w action context) = Some why.
Proof.
  destruct (when_matches_spec w action context) as [[Hd ->]|[Hd ->]].
  - destruct (first_error _) as [e|] eqn:He; [split; intros; destruct_and?; simplify_eq; auto|].
    split; [|by intros [_ ?]]. by destruct (forallb _ _).
  - split; [done|]. by intros [? _].
Qed.

Lemma note_nil b name : When.note b name = [] -> b = false.
Proof. by destruct b. Qed.

(** A condition that writes nothing is true of everything. *)
Lemma when_matches_empty w action context :
  When.is_empty w = true -> when_matches w action context = Match.Yes.
Proof.
  unfold When.is_empty, When.present.
  destruct (_ ++ _) eqn:E; [intros _|done].
  repeat (apply app_eq_nil in E as [?%note_nil E]). apply note_nil in E.
  destruct w; simpl in *. repeat match goal with
  | H : is_some ?o = false |- _ => destruct o; [done|clear H] end. done.
Qed.

(** [unless] suppresses through configuration or a held grant, and no grant is
    held. *)
Lemma suppresses_spec u context :
  Unless.suppresses u context = true <->
  (exists key, Unless.config u = Some key /\
     ConfigFlags.is_set (PolicyContext.config context) key = true) \/
  Unless.standing_grant u = Some false.
Proof.
  unfold Unless.suppresses. rewrite orb_true_iff.
  destruct (PolicyContext.standing_grant context); simpl.
  destruct (Unless.config u) as [k|]; destruct (Unless.standing_grant u) as [[]|]; simpl;
    split; intros [H|H]; try done; try (by destruct H as (? & ? & ?); simplify_eq; auto); eauto.
Qed.
