(* ===== verification/Obligation.v ===== *)
(** Policy identifiers ([policy/mod.rs]), conditions on a permission
    ([policy/obligation.rs]) and the shape of an approval
    ([policy/approval.rs]). *)

From S2P Require Export Prelude Text Order PolicyValue Vocabulary.

(** [str::contains] of a string. *)
Fixpoint str_contains_str (p s : string) : bool :=
  str_starts_with p s ||
  match s with EmptyString => false | String _ rest => str_contains_str p rest end.

(** [bytes.last()]. *)
Fixpoint str_last (s : string) : option ascii :=
  match s with
  | EmptyString => None
  | String a EmptyString => Some a
  | String _ rest => str_last rest
  end.

Definition is_kebab_byte (b : ascii) : bool := is_lower b || is_digit b || Ascii.eqb b "-".

Definition is_lower_kebab (text : string) (max_chars : nat) : bool :=
  if is_empty text || (max_chars <? String.length text)%nat then false
  else
    match text, str_last text with
    | String first _, Some last =>
        if negb (is_lower first) || Ascii.eqb last "-" then false
        else if str_contains_str "--" text then false
        else str_all is_kebab_byte text
    | _, _ => false
    end.

Module ProfileName.
Record t : Set := Make { as_str : string }.

#[global] Instance eq_dec : EqDecision t.
Proof. solve_decision. Defined.

Definition new (text : string) : result t PolicyValueError.t :=
  if is_lower_kebab text Limits.MAX_PROFILE_NAME_CHARS then Ok (Make text)
  else Err PolicyValueError.MalformedProfileName.
End ProfileName.

Module ProfileRef.
Record t : Set := Make { as_str : string }.

#[global] Instance eq_dec : EqDecision t.
Proof. solve_decision. Defined.

Definition new (text : string) : option t :=
  if is_lower_kebab text Limits.MAX_PROFILE_REF_CHARS then Some (Make text) else None.

Definition wf (r : t) : bool := is_lower_kebab (as_str r) Limits.MAX_PROFILE_REF_CHARS.

Lemma profile_ref_new_Some text r : new text = Some r <-> as_str r = text /\ wf r = true.
Proof.
  unfold new, wf. destruct r as [s]; simpl.
  destruct (is_lower_kebab text _) eqn:E; split; intros H; [|destruct H|done|destruct H];
    simplify_eq; auto; congruence.
Qed.
End ProfileRef.

Module RuleId.
Record t : Set := Make { as_str : string }.

#[global] Instance eq_dec : EqDecision t.
Proof. solve_decision. Defined.

Definition DEFAULT : string := "default".

Definition new (text : string) : option t :=
  if is_lower_kebab text Limits.MAX_RULE_ID_CHARS then Some (Make text) else None.

Definition is_default (self : t) : bool := String.eqb (as_str self) DEFAULT.
End RuleId.

Module AuditLevel.
Inductive t : Set := Full.

#[global] Instance eq_dec : EqDecision t.
Proof. solve_decision. Defined.

Definition as_str (l : t) : string := match l with Full => "full" end.
End AuditLevel.

(** * Obligations *)

Module Obligation.
Inductive t : Set :=
| ForceEnvironment (p : ProfileRef.t)
| MaxOutputBytes (n : N)
| RequireArtifactCapture
| RedactProfile (p : ProfileRef.t)
| NetworkDeny
| ReadOnlyWorkspace
| AuditLevel (level : AuditLevel.t)
| SingleUseOnly
| ForceQuarantinedRead
| WorkspaceExecHygiene.

#[global] Instance eq_dec : EqDecision t.
Proof. solve_decision. Defined.

Definition name (o : t) : string :=
  match o with
  | ForceEnvironment _ => "force_environment"
  | MaxOutputBytes _ => "max_output_bytes"
  | RequireArtifactCapture => "require_artifact_capture"
  | RedactProfile _ => "redact_profile"
  | NetworkDeny => "network_deny"
  | ReadOnlyWorkspace => "read_only_workspace"
  | AuditLevel _ => "audit_level"
  | SingleUseOnly => "single_use_only"
  | ForceQuarantinedRead => "force_quarantined_read"
  | WorkspaceExecHygiene => "workspace_exec_hygiene"
  end.

(** The parameter of an obligation that defines one. *)
Definition require (argument : option string) : result string PolicyValueError.t :=
  ok_or argument PolicyValueError.ObligationParameter.

(** An obligation that defines none. *)
Definition flag (argument : option string) (value : t) : result t PolicyValueError.t :=
  match argument with
  | None => Ok value
  | Some _ => Err PolicyValueError.ObligationParameter
  end.

Definition parse_byte_cap (raw : string) : result N PolicyValueError.t :=
  if is_empty raw || negb (str_all is_digit raw) then Err PolicyValueError.ObligationParameter
  else
    match parse_uint U64_MAX raw with
    | None | Some 0%N => Err PolicyValueError.ObligationParameter
    | Some value => Ok value
    end.

(** The two obligations whose parameter is a profile reference. *)
Definition parse_reference (argument : option string) (make : ProfileRef.t -> t) :
    result t PolicyValueError.t :=
  let? argument := require argument in
  match ProfileRef.new argument with
  | Some r => Ok (make r)
  | None => Err PolicyValueError.ObligationParameter
  end.

Definition parse (text : string) : result t PolicyValueError.t :=
  let '(name, argument) :=
    match str_split_once "=" text with Some (n, a) => (n, Some a) | None => (text, None) end in
  if String.eqb name "force_environment" then parse_reference argument ForceEnvironment
  else if String.eqb name "redact_profile" then parse_reference argument RedactProfile
  else if String.eqb name "max_output_bytes" then
    let? argument := require argument in
    let? n := parse_byte_cap argument in Ok (MaxOutputBytes n)
  else if String.eqb name "audit_level" then
    let? argument := require argument in
    if String.eqb argument "full" then Ok (AuditLevel AuditLevel.Full)
    else Err PolicyValueError.ObligationParameter
  else if String.eqb name "require_artifact_capture" then flag argument RequireArtifactCapture
  else if String.eqb name "network_deny" then flag argument NetworkDeny
  else if String.eqb name "read_only_workspace" then flag argument ReadOnlyWorkspace
  else if String.eqb name "single_use_only" then flag argument SingleUseOnly
  else if String.eqb name "force_quarantined_read" then flag argument ForceQuarantinedRead
  else if String.eqb name "workspace_exec_hygiene" then flag argument WorkspaceExecHygiene
  else Err PolicyValueError.UnknownObligation.

(** What [Display] writes after the name. *)
Definition parameter (o : t) : option string :=
  match o with
  | ForceEnvironment p | RedactProfile p => Some (ProfileRef.as_str p)
  | MaxOutputBytes n => Some (show_N n)
  | AuditLevel level => Some (AuditLevel.as_str level)
  | _ => None
  end.

Definition display (o : t) : string :=
  name o +:+ match parameter o with Some p => String "=" p | None => EmptyString end.

(** The variants' positions, which the derived order compares first. *)
Definition discriminant (o : t) : N :=
  match o with
  | ForceEnvironment _ => 0 | MaxOutputBytes _ => 1 | RequireArtifactCapture => 2
  | RedactProfile _ => 3 | NetworkDeny => 4 | ReadOnlyWorkspace => 5 | AuditLevel _ => 6
  | SingleUseOnly => 7 | ForceQuarantinedRead => 8 | WorkspaceExecHygiene => 9
  end.

(** [derive(Ord)]: the variant, then its one field. *)
Definition view (o : t) : N * (string * N) :=
  (discriminant o,
   match o with
   | ForceEnvironment p | RedactProfile p => (ProfileRef.as_str p, 0)
   | MaxOutputBytes n => (EmptyString, n)
   | _ => (EmptyString, 0)
   end)%N.

#[global] Instance ord : RustOrd t := ord_by view.

#[global] Instance lawful : LawfulOrd t.
Proof.
  apply (ord_by_lawful view). intros x y E.
  destruct x as [[]| | |[]| | |[]| | |], y as [[]| | |[]| | |[]| | |]; unfold view in E;
    simpl in E; congruence.
Qed.

(** What a parsed obligation is. *)
Definition wf (o : t) : bool :=
  match o with
  | ForceEnvironment p | RedactProfile p => ProfileRef.wf p
  | MaxOutputBytes n => (0 <? n)%N && (n <=? U64_MAX)%N
  | _ => true
  end.

Lemma name_no_equals o : str_contains "=" (name o) = false.
Proof. by destruct o. Qed.

Lemma name_discriminant a b : name a = name b <-> discriminant a = discriminant b.
Proof. by destruct a, b. Qed.

(** What is between the name and its parameter's end. *)
Lemma split_display o : str_split_once "=" (display o) =
  match parameter o with Some p => Some (name o, p) | None => None end.
Proof.
  unfold display. destruct (parameter o) as [p|].
  - apply str_split_once_app, name_no_equals.
  - rewrite string_app_nil_r. apply str_split_once_None, name_no_equals.
Qed.

Lemma parse_byte_cap_Ok raw n :
  parse_byte_cap raw = Ok n ->
  str_all is_digit raw = true /\ parse_N raw = Some n /\ (0 < n <= U64_MAX)%N.
Proof.
  unfold parse_byte_cap. intros H. walk_ok. rewrite parse_uint_digits in * by done.
  destruct (parse_N raw) as [m|]; simpl in *; [|done].
  destruct (N.leb_spec m U64_MAX); [|done]. simplify_eq. split_and!; [done|done|lia|done].
Qed.

Lemma parse_byte_cap_show n :
  (0 < n)%N -> (n <= U64_MAX)%N -> parse_byte_cap (show_N n) = Ok n.
Proof.
  intros Hp Hn. unfold parse_byte_cap.
  rewrite show_N_not_empty, show_N_digits, parse_uint_show by done. by destruct n.
Qed.

Lemma new_reference r : ProfileRef.wf r = true -> ProfileRef.new (ProfileRef.as_str r) = Some r.
Proof. intros. by apply ProfileRef.profile_ref_new_Some. Qed.

Lemma obligation_parse_display o : wf o = true -> parse (display o) = Ok o.
Proof.
  intros Ho. unfold parse. rewrite split_display.
  destruct o as [r|n| |r| | |[]| | |]; cbn in Ho |- *; try done.
  1,3: unfold parse_reference; simpl; by rewrite new_reference.
  bool_to_prop. apply N.ltb_lt in H. apply N.leb_le in H0. by rewrite parse_byte_cap_show.
Qed.

(** The one obligation with more than one spelling is the byte cap, whose
    number may carry leading zeros. *)
Definition spelled (o : t) (text : string) : Prop :=
  match o with
  | MaxOutputBytes n => exists raw, text = "max_output_bytes=" +:+ raw /\
      str_all is_digit raw = true /\ parse_N raw = Some n
  | _ => text = display o
  end.

Lemma parse_reference_Ok argument make o :
  parse_reference argument make = Ok o ->
  exists r, argument = Some (ProfileRef.as_str r) /\ ProfileRef.wf r = true /\ o = make r.
Proof.
  unfold parse_reference. destruct argument as [a|]; simpl; [|done].
  destruct (ProfileRef.new a) as [r|] eqn:E; [|done]. intros [= <-].
  apply ProfileRef.profile_ref_new_Some in E as [<- ?]. eauto.
Qed.

Lemma flag_Ok argument v o : flag argument v = Ok o -> argument = None /\ o = v.
Proof. destruct argument; simpl; [done|]. by intros [= <-]. Qed.

Lemma obligation_parse_Ok text o : parse text = Ok o -> wf o = true /\ spelled o text.
Proof.
  unfold parse. intros H.
  assert (exists n a, (match str_split_once "=" text with Some (n, a) => (n, Some a)
      | None => (text, None) end) = (n, a) /\
      text = n +:+ match a with Some a => String "=" a | None => EmptyString end)
    as (n & a & E & ->).
  { destruct (str_split_once "=" text) as [[n a]|] eqn:E; eexists _, _; split; try done.
    - by apply str_split_once_Some in E as [-> _].
    - by rewrite string_app_nil_r. }
  rewrite E in H. clear E.
  repeat match type of H with
  | (if String.eqb n ?s then _ else _) = _ => destruct (String.eqb_spec n s) as [->|]
  end; try done;
  try (apply parse_reference_Ok in H as (r & -> & Hr & ->); by split);
  try (apply flag_Ok in H as [-> ->]; by split).
  - destruct a as [raw|]; cbn [require ok_or] in H; [|done].
    destruct (parse_byte_cap raw) as [m|] eqn:E; [|done].
    injection H as <-. apply parse_byte_cap_Ok in E as (Hd & Hm & Hp & Hmax). simpl. split.
    + apply andb_true_iff. split; [by apply N.ltb_lt|by apply N.leb_le].
    + by exists raw.
  - destruct a as [raw|]; cbn [require ok_or] in H; [|done].
    destruct (String.eqb raw "full") eqn:E; [|done]. apply String.eqb_eq in E.
    injection H as <-. subst raw. by split.
Qed.
End Obligation.

(** * Sets of obligations *)

Module Obligations.
Record t : Set := Make { as_slice : list Obligation.t }.

#[global] Instance eq_dec : EqDecision t.
Proof. solve_decision. Defined.

Definition none : t := Make [].

(** [windows(2).any(..)]: two neighbours with one name. *)
Fixpoint ambiguous (l : list Obligation.t) : bool :=
  match l with
  | a :: (b :: _) as rest => String.eqb (Obligation.name a) (Obligation.name b) || ambiguous rest
  | _ => false
  end.

Definition new (obligations : list Obligation.t) : result t PolicyValueError.t :=
  if (Limits.MAX_OBLIGATIONS_PER_RULE <? length obligations)%nat
  then Err PolicyValueError.TooManyObligations
  else
    let obligations := sort obligations in
    if ambiguous obligations then Err PolicyValueError.DuplicateObligation
    else Ok (Make obligations).

Definition is_empty (self : t) : bool := ArgvAllowlist.is_nil (as_slice self).

Definition len (self : t) : nat := length (as_slice self).

Definition display (self : t) : string := str_join "," (Obligation.display <$> as_slice self).

(** The order compares variants first. *)
Lemma cmp_discriminant a b :
  cmp a b <> Gt -> (Obligation.discriminant a <= Obligation.discriminant b)%N.
Proof.
  unfold cmp, Obligation.ord, ord_by, cmp, prod_ord, Obligation.view; simpl.
  unfold cmp at 1, N_ord. destruct (N.compare_spec (Obligation.discriminant a)
    (Obligation.discriminant b)); [lia|lia|done].
Qed.

Lemma ambiguous_sorted l :
  weakly_sorted l -> ambiguous l = false <-> NoDup (Obligation.name <$> l).
Proof.
  intros Hs. induction Hs as [|a l Hl IH Ha]; [split; [constructor|done]|].
  destruct l as [|b l]; [split; [intros _; apply NoDup_singleton|done]|].
  change (ambiguous (a :: b :: l)) with
    (String.eqb (Obligation.name a) (Obligation.name b) || ambiguous (b :: l)).
  rewrite orb_false_iff, IH, (fmap_cons _ a), (NoDup_cons (Obligation.name a)). apply and_iff_compat_r.
  rewrite String.eqb_neq, list_elem_of_fmap. split.
  - intros Hab (z & Hz & Hin). apply Hab, Obligation.name_discriminant.
    assert (Obligation.discriminant a <= Obligation.discriminant b)%N.
    { apply cmp_discriminant. by apply Forall_inv in Ha. }
    assert (Obligation.discriminant b <= Obligation.discriminant z)%N.
    { apply elem_of_cons in Hin as [->|Hin]; [done|]. apply cmp_discriminant.
      apply Sorted.StronglySorted_inv in Hl as [_ Hb]. rewrite Forall_forall in Hb. by apply Hb. }
    apply Obligation.name_discriminant in Hz. lia.
  - intros Hn E. apply Hn. exists b. split; [done|apply elem_of_cons; by left].
Qed.

(** A list is accepted exactly when it is short and names each obligation
    once; what is kept is the list, sorted. *)
Lemma obligations_new_Ok l s :
  new l = Ok s <->
  length l <= Limits.MAX_OBLIGATIONS_PER_RULE /\ NoDup (Obligation.name <$> l) /\
  s = Make (sort l).
Proof.
  unfold new. destruct (Nat.ltb_spec Limits.MAX_OBLIGATIONS_PER_RULE (length l)) as [Hl|Hl].
  { split; [done|]. intros [? _]. lia. }
  assert (NoDup (Obligation.name <$> l) <-> ambiguous (sort l) = false) as ->.
  { rewrite ambiguous_sorted by apply sort_sorted. by rewrite sort_perm. }
  destruct (ambiguous (sort l)); split; intros H; destruct_and?; simplify_eq; auto.
Qed.
End Obligations.

(** * Approval shapes *)

Module ApprovalScopeKind.
Inductive t : Set :=
| ExactAction | PathSet | ExecutableAndArgv | PathSubtree | HostAndMethods | CredentialUse.

#[global] Instance eq_dec : EqDecision t.
Proof. solve_decision. Defined.

Definition ALL : list t :=
  [ExactAction; PathSet; ExecutableAndArgv; PathSubtree; HostAndMethods; CredentialUse].

Definition as_str (s : t) : string :=
  match s with
  | ExactAction => "exact_action" | PathSet => "path_set"
  | ExecutableAndArgv => "executable_and_argv" | PathSubtree => "path_subtree"
  | HostAndMethods => "host_and_methods" | CredentialUse => "credential_use"
  end.

Definition parse (text : string) : option t := find_spelling ALL as_str text.

#[global] Instance vocabulary : Vocabulary ALL as_str.
Proof. solve_vocabulary. Qed.
End ApprovalScopeKind.

(** [split_at_checked(len - 1)]: the last byte, when it is a character of its
    own. *)
Fixpoint split_last_char (s : string) : option (string * ascii) :=
  match s with
  | EmptyString => None
  | String a EmptyString => if is_continuation a then None else Some (EmptyString, a)
  | String a rest =>
      match split_last_char rest with Some (h, u) => Some (String a h, u) | None => None end
  end.

Module Ttl.
Record t : Set := Make { seconds : N }.

#[global] Instance eq_dec : EqDecision t.
Proof. solve_decision. Defined.

Definition multiplier (unit : ascii) : option N :=
  if Ascii.eqb unit "s" then Some 1%N
  else if Ascii.eqb unit "m" then Some 60%N
  else if Ascii.eqb unit "h" then Some 3600%N else None.

(** [u32::checked_mul]. *)
Definition checked_mul (a b : N) : option N :=
  if (a * b <=? U32_MAX)%N then Some (a * b)%N else None.

Definition parse (text : string) : result t PolicyValueError.t :=
  match split_last_char text with
  | None => Err PolicyValueError.Ttl
  | Some (digits, unit) =>
      let? multiplier := ok_or (multiplier unit) PolicyValueError.Ttl in
      if is_empty digits || negb (str_all is_digit digits) then Err PolicyValueError.Ttl
      else
        let? count := ok_or (parse_uint U32_MAX digits) PolicyValueError.Ttl in
        let? seconds := ok_or (checked_mul count multiplier) PolicyValueError.Ttl in
        if (seconds =? 0)%N || (Limits.MAX_APPROVAL_TTL_SECONDS <? seconds)%N
        then Err PolicyValueError.Ttl
        else Ok (Make seconds)
  end.

Definition display (self : t) : string :=
  let '(value, unit) :=
    if (seconds self mod 3600 =? 0)%N then ((seconds self / 3600)%N, "h"%char)
    else if (seconds self mod 60 =? 0)%N then ((seconds self / 60)%N, "m"%char)
    else (seconds self, "s"%char) in
  show_N value +:+ String unit EmptyString.

(** What a parsed duration is. *)
Definition wf (self : t) : bool :=
  (0 <? seconds self)%N && (seconds self <=? Limits.MAX_APPROVAL_TTL_SECONDS)%N.

Lemma split_last_char_Some s h u :
  split_last_char s = Some (h, u) <-> s = h +:+ String u EmptyString /\ is_continuation u = false.
Proof.
  revert h; induction s as [|a s IH]; intros h.
  { split; [done|]. intros [E _]. by destruct h. }
  destruct s as [|b s].
  - simpl. destruct (is_continuation a) eqn:Ha; split; intros H.
    + done.
    + destruct H as [E Hu]. destruct h as [|? h]; simplify_eq/=; [congruence|by destruct h].
    + by simplify_eq.
    + destruct H as [E Hu]. destruct h as [|? h]; simplify_eq/=; [done|by destruct h].
  - change (split_last_char (String a (String b s))) with
      (match split_last_char (String b s) with
       | Some (h, u) => Some (String a h, u) | None => None end).
    destruct h as [|c h].
    + split; [destruct (split_last_char _) as [[]|]; congruence|]. by intros [[=] _].
    + simpl (String c h +:+ _). specialize (IH h). split.
      * destruct (split_last_char (String b s)) as [[h' u']|]; [|done].
        intros [= -> -> ->]. destruct (proj1 IH eq_refl) as [-> ?]. done.
      * intros [[= -> E] Hu]. by rewrite (proj2 IH (conj E Hu)).
Qed.

Lemma multiplier_cases u m :
  multiplier u = Some m -> (1 <= m)%N /\ is_continuation u = false.
Proof.
  unfold multiplier.
  destruct (Ascii.eqb_spec u "s") as [->|]; [intros [= <-]; by split|].
  destruct (Ascii.eqb_spec u "m") as [->|]; [intros [= <-]; by split|].
  destruct (Ascii.eqb_spec u "h") as [->|]; [intros [= <-]; by split|done].
Qed.

(** A duration is a number and a unit; nothing overflows into acceptance. *)
Lemma ttl_parse_Ok text ttl :
  parse text = Ok ttl <->
  exists digits unit m n, text = digits +:+ String unit EmptyString /\
    is_empty digits = false /\ str_all is_digit digits = true /\
    multiplier unit = Some m /\ parse_N digits = Some n /\
    seconds ttl = (n * m)%N /\ (0 < n * m <= Limits.MAX_APPROVAL_TTL_SECONDS)%N.
Proof.
  unfold parse. split.
  - destruct (split_last_char text) as [[d u]|] eqn:Hs; [|done].
    apply split_last_char_Some in Hs as [-> _].
    destruct (multiplier u) as [m|] eqn:Hm; [|done]. cbn [ok_or].
    destruct (is_empty d) eqn:He; [done|]. destruct (str_all is_digit d) eqn:Hd; [|done].
    cbn [orb negb]. rewrite parse_uint_digits by done.
    destruct (parse_N d) as [n|] eqn:Hn; [|done]. cbn [mbind option_bind ok_or].
    destruct (n <=? U32_MAX)%N; [|done]. cbn [ok_or]. unfold checked_mul.
    destruct (n * m <=? U32_MAX)%N; [|done]. cbn [ok_or].
    destruct (N.eqb_spec (n * m) 0); [done|].
    destruct (N.ltb_spec Limits.MAX_APPROVAL_TTL_SECONDS (n * m)); [done|]. simpl.
    intros [= <-]. exists d, u, m, n. simpl. split_and!; try done. lia.
  - intros (d & u & m & n & -> & He & Hd & Hm & Hn & Hsec & Hpos & Hmax).
    destruct (multiplier_cases _ _ Hm) as [Hm1 Hu].
    rewrite (proj2 (split_last_char_Some _ d u)) by done. rewrite Hm. cbn [ok_or].
    rewrite He, Hd. cbn [orb negb]. rewrite parse_uint_digits, Hn by done.
    cbn [mbind option_bind]. unfold checked_mul, Limits.MAX_APPROVAL_TTL_SECONDS, U32_MAX in *.
    rewrite (proj2 (N.leb_le n _)) by nia. cbn [ok_or].
    rewrite (proj2 (N.leb_le (n * m) _)) by nia. cbn [ok_or].
    rewrite (proj2 (N.eqb_neq _ _)), (proj2 (N.ltb_ge _ _)) by lia. simpl.
    destruct ttl; simpl in *. by rewrite Hsec.
Qed.

Lemma parse_wf text ttl : parse text = Ok ttl -> wf ttl = true.
Proof.
  intros (d & u & m & n & _ & _ & _ & _ & _ & Hs & Hpos & Hmax)%ttl_parse_Ok.
  unfold wf. rewrite Hs. apply andb_true_iff. split; [by apply N.ltb_lt|by apply N.leb_le].
Qed.

Lemma parse_unit v u m ttl :
  multiplier u = Some m -> seconds ttl = (v * m)%N -> wf ttl = true ->
  parse (show_N v +:+ String u EmptyString) = Ok ttl.
Proof.
  intros Hm Hs Hw. apply ttl_parse_Ok. exists (show_N v), u, m, v.
  unfold wf in Hw. rewrite Hs in Hw. apply andb_true_iff in Hw as [Hp Hmax].
  apply N.ltb_lt in Hp. apply N.leb_le in Hmax.
  split_and!; try done; [apply show_N_not_empty|apply show_N_digits|apply parse_N_show].
Qed.

Lemma ttl_parse_display ttl : wf ttl = true -> parse (display ttl) = Ok ttl.
Proof.
  intros Hw. unfold display.
  destruct (N.eqb_spec (seconds ttl mod 3600) 0) as [E|_].
  { apply (parse_unit _ _ 3600); [done| |done].
    pose proof (N.div_mod' (seconds ttl) 3600). lia. }
  destruct (N.eqb_spec (seconds ttl mod 60) 0) as [E|_].
  { apply (parse_unit _ _ 60); [done| |done].
    pose proof (N.div_mod' (seconds ttl) 60). lia. }
  apply (parse_unit _ _ 1); [done|lia|done].
Qed.
End Ttl.

Module ApprovalSpec.
Record t : Set := Make {
  scope : ApprovalScopeKind.t;
  ttl : Ttl.t;
  max_uses : N
}.

#[global] Instance eq_dec : EqDecision t.
Proof. solve_decision. Defined.

Definition new (scope : ApprovalScopeKind.t) (ttl : Ttl.t) (max_uses : N) :
    result t PolicyValueError.t :=
  if (max_uses =? 0)%N || (Limits.MAX_APPROVAL_USES <? max_uses)%N
  then Err PolicyValueError.ApprovalUses
  else Ok (Make scope ttl max_uses).

Definition display (self : t) : string :=
  ApprovalScopeKind.as_str (scope self) +:+ ", ttl " +:+ Ttl.display (ttl self)
  +:+ ", up to " +:+ show_N (max_uses self) +:+ " use"
  +:+ (if (max_uses self =? 1)%N then "" else "s")%string.
End ApprovalSpec.
