(* ===== verification/Rule.v ===== *)
(** Compiled rules, postconditions and policies ([policy/rule.rs],
    [policy/reason.rs]) and what a decision records ([policy/mod.rs]). *)

From S2P Require Export Prelude Vocabulary PolicyContext Predicate Obligation.

(** * Reasons and locations *)

Module Reason.
Inductive t : Set :=
| SelfModification | SensitivePath | SandboxEscapeVector | DestructiveInWorkspace
| UnknownExecutable | HostExecutionDisabled | UntrustedContentInRun | NoHumanAvailable
| ProfileCeiling | NoMatchingRule | PermittedByRule | UnresolvedCanonicalInput.

#[global] Instance eq_dec : EqDecision t.
Proof. solve_decision. Defined.

Definition ALL : list t :=
  [SelfModification; SensitivePath; SandboxEscapeVector; DestructiveInWorkspace;
   UnknownExecutable; HostExecutionDisabled; UntrustedContentInRun; NoHumanAvailable;
   ProfileCeiling; NoMatchingRule; PermittedByRule; UnresolvedCanonicalInput].

Definition as_str (r : t) : string :=
  match r with
  | SelfModification => "SELF_MODIFICATION"
  | SensitivePath => "SENSITIVE_PATH"
  | SandboxEscapeVector => "SANDBOX_ESCAPE_VECTOR"
  | DestructiveInWorkspace => "DESTRUCTIVE_IN_WORKSPACE"
  | UnknownExecutable => "UNKNOWN_EXECUTABLE"
  | HostExecutionDisabled => "HOST_EXECUTION_DISABLED"
  | UntrustedContentInRun => "UNTRUSTED_CONTENT_IN_RUN"
  | NoHumanAvailable => "NO_HUMAN_AVAILABLE"
  | ProfileCeiling => "PROFILE_CEILING"
  | NoMatchingRule => "NO_MATCHING_RULE"
  | PermittedByRule => "PERMITTED_BY_RULE"
  | UnresolvedCanonicalInput => "UNRESOLVED_CANONICAL_INPUT"
  end.

Definition parse (text : string) : option t := find_spelling ALL as_str text.

#[global] Instance vocabulary : Vocabulary ALL as_str.
Proof. solve_vocabulary. Qed.

Definition is_authorable (r : t) : bool :=
  match r with PermittedByRule | UnresolvedCanonicalInput => false | _ => true end.
End Reason.

Module SourceLocation.
Record t : Set := Make { source : string; line : N }.

#[global] Instance eq_dec : EqDecision t.
Proof. solve_decision. Defined.

Definition new (source : string) (line : N) : option t :=
  if is_empty source || (Limits.MAX_SOURCE_NAME_CHARS <? chars_count source)%nat
     || (line =? 0)%N
  then None
  else Some (Make source line).

Definition synthetic : t := Make "<load>" 1.

Definition display (self : t) : string :=
  source self +:+ String ":" (show_N (line self)).
End SourceLocation.

(** * Rules *)

Module Rule.
Record t : Type := Make {
  id : RuleId.t;
  source : SourceLocation.t;
  effect : Effect.t;
  reason : Reason.t;
  when : When.t;
  unless : Unless.t;
  obligations : Obligations.t;
  approval : option ApprovalSpec.t
}.

#[global] Instance eq_dec : EqDecision t.
Proof. solve_decision. Defined.

Definition is_default (self : t) : bool := RuleId.is_default (id self).
End Rule.

Module Postcondition.
Record t : Type := Make {
  id : RuleId.t;
  source : SourceLocation.t;
  effect : Effect.t;
  reason : Reason.t;
  when : When.t;
  unless : Unless.t
}.

#[global] Instance eq_dec : EqDecision t.
Proof. solve_decision. Defined.

Definition selects (self : t) : list Effect.t :=
  match When.provisional_effect (when self) with
  | None => Effect.ALL
  | Some named => MatchValue.values named
  end.

Definition narrows (self : t) : bool :=
  forallb (fun provisional => Effect.narrower_or_equal (effect self) provisional) (selects self).
End Postcondition.

Module Profile.
Record t : Type := Make {
  name : ProfileName.t;
  source : SourceLocation.t;
  extends : option ProfileName.t;
  rules : list Rule.t;
  postconditions : list Postcondition.t
}.
End Profile.

Module CompiledPolicy.
Record t : Type := Make {
  name : ProfileName.t;
  chain : list ProfileName.t;
  rules : list Rule.t;
  postconditions : list Postcondition.t
}.

(** [rules.last().filter(is_default)]. *)
Definition default_rule (self : t) : option Rule.t :=
  match last (rules self) with
  | Some rule => if Rule.is_default rule then Some rule else None
  | None => None
  end.
End CompiledPolicy.

(** * Decisions *)

Module MatchedRule.
Record t : Set := new { id : RuleId.t; source : SourceLocation.t; reason : Reason.t }.

#[global] Instance eq_dec : EqDecision t.
Proof. solve_decision. Defined.

Definition display (self : t) : string :=
  RuleId.as_str (id self) +:+ " (" +:+ SourceLocation.display (source self) +:+ ")".
End MatchedRule.

Module Decision.
Record t : Type := Make {
  effect : Effect.t;
  deciding : MatchedRule.t;
  primary : MatchedRule.t;
  postconditions : list MatchedRule.t;
  required_capability : Capability.t;
  approval : option ApprovalSpec.t;
  obligations : Obligations.t;
  unevaluable : option Unevaluable.t
}.

Definition new effect deciding primary postconditions required_capability approval
    obligations : t :=
  Make effect deciding primary postconditions required_capability approval obligations None.

Definition not_evaluated deciding primary postconditions required_capability why : t :=
  Make Effect.Deny deciding primary postconditions required_capability None
    Obligations.none (Some why).
End Decision.
