(* ===== verification/Eval.v ===== *)
(** The decision procedure ([policy/eval.rs]): ordered primary rules, then
    postconditions that may only narrow. *)

From S2P Require Export Prelude PolicyContext Predicate Rule CapParse.

Definition would_require_approval (provisional : Effect.t) : bool :=
  match provisional with Effect.RequireApproval => true | _ => false end.

(** What phase one produced. *)
Module Matched.
Inductive t : Type :=
| Rule (rule : Rule.t)
| Unresolved (rule : Rule.t) (why : Unevaluable.t).
End Matched.

(** The loop of [first_match]: source order, the first rule that matches and is
    not suppressed, or that cannot be evaluated. *)
Fixpoint first_match_in (rules : list Rule.t) (action : CanonicalAction.t)
    (context : PolicyContext.t) : option Matched.t :=
  match rules with
  | [] => None
  | rule :: rest =>
      match when_matches (Rule.when rule) action context with
      | Match.Unevaluable why => Some (Matched.Unresolved rule why)
      | Match.No => first_match_in rest action context
      | Match.Yes =>
          if Unless.suppresses (Rule.unless rule) context
          then first_match_in rest action context
          else Some (Matched.Rule rule)
      end
  end.

Definition first_match (policy : CompiledPolicy.t) : CanonicalAction.t -> PolicyContext.t ->
    option Matched.t :=
  first_match_in (CompiledPolicy.rules policy).

(** Whether a postcondition applies to this running effect. *)
Definition selects (post : Postcondition.t) (effect : Effect.t) : bool :=
  is_none_or (When.provisional_effect (Postcondition.when post)) (fun named =>
    MatchValue.matches named effect).

Definition post_matched (post : Postcondition.t) (reason : Reason.t) : MatchedRule.t :=
  MatchedRule.new (Postcondition.id post) (Postcondition.source post) reason.

(** The state of the postcondition loop: [effect], [deciding] and [applied]. *)
Module Running.
Record t : Type := Make {
  effect : Effect.t;
  deciding : MatchedRule.t;
  applied : list MatchedRule.t
}.
End Running.

(** The loop of phase two; [Err] is its early return. *)
Fixpoint phase_two (posts : list Postcondition.t) (action : CanonicalAction.t)
    (context : PolicyContext.t) (primary : MatchedRule.t) (state : Running.t) :
    result Running.t Decision.t :=
  match posts with
  | [] => Ok state
  | post :: rest =>
      if negb (selects post (Running.effect state))
      then phase_two rest action context primary state
      else
        match when_matches (Postcondition.when post) action context with
        | Match.Unevaluable why =>
            let at_ := post_matched post Reason.UnresolvedCanonicalInput in
            Err (Decision.not_evaluated at_ primary (Running.applied state ++ [at_])
                   (CanonicalAction.capability action) why)
        | Match.No => phase_two rest action context primary state
        | Match.Yes =>
            if Unless.suppresses (Postcondition.unless post) context
            then phase_two rest action context primary state
            else
              let narrowed := Effect.meet (Running.effect state) (Postcondition.effect post) in
              let here := post_matched post (Postcondition.reason post) in
              let deciding :=
                if bool_decide (narrowed = Running.effect state)
                then Running.deciding state else here in
              phase_two rest action context primary
                (Running.Make narrowed deciding (Running.applied state ++ [here]))
        end
  end.

(** The decision when no rule matched at all. *)
Definition unmatched (policy : CompiledPolicy.t) (capability : Capability.t) : Decision.t :=
  let at_ := MatchedRule.new (RuleId.Make RuleId.DEFAULT) SourceLocation.synthetic
    Reason.NoMatchingRule in
  Decision.new Effect.Deny at_ at_ [] capability None Obligations.none.

Definition rule_matched (rule : Rule.t) (reason : Reason.t) : MatchedRule.t :=
  MatchedRule.new (Rule.id rule) (Rule.source rule) reason.

Definition evaluate (policy : CompiledPolicy.t) (action : CanonicalAction.t)
    (context : PolicyContext.t) : Decision.t :=
  let capability := CanonicalAction.capability action in
  match first_match policy action context with
  | None => unmatched policy capability
  | Some (Matched.Unresolved rule why) =>
      let at_ := rule_matched rule Reason.UnresolvedCanonicalInput in
      Decision.not_evaluated at_ at_ [] capability why
  | Some (Matched.Rule rule) =>
      let primary := rule_matched rule (Rule.reason rule) in
      match phase_two (CompiledPolicy.postconditions policy) action context primary
              (Running.Make (Rule.effect rule) primary []) with
      | Err early => early
      | Ok state =>
          let effect := Running.effect state in
          let approval :=
            match effect with Effect.RequireApproval => Rule.approval rule | _ => None end in
          let obligations :=
            match effect with Effect.Deny => Obligations.none | _ => Rule.obligations rule end in
          Decision.new effect (Running.deciding state) primary (Running.applied state)
            capability approval obligations
      end
  end.

(** [unmatched] builds the reserved identifier through its constructor. *)
Lemma default_id : RuleId.new RuleId.DEFAULT = Some (RuleId.Make RuleId.DEFAULT).
Proof. done. Qed.

(** * Phase one *)

(** A rule that lets the scan go on. *)
Definition skipped (action : CanonicalAction.t) (context : PolicyContext.t) (rule : Rule.t) :
    Prop :=
  when_matches (Rule.when rule) action context = Match.No \/
  (when_matches (Rule.when rule) action context = Match.Yes /\
   Unless.suppresses (Rule.unless rule) context = true).

(** A rule the scan stops at, and what it stops with. *)
Definition stops (action : CanonicalAction.t) (context : PolicyContext.t) (m : Matched.t) : Prop :=
  match m with
  | Matched.Rule rule =>
      when_matches (Rule.when rule) action context = Match.Yes /\
      Unless.suppresses (Rule.unless rule) context = false
  | Matched.Unresolved rule why =>
      when_matches (Rule.when rule) action context = Match.Unevaluable why
  end.

Definition matched_rule (m : Matched.t) : Rule.t :=
  match m with Matched.Rule rule => rule | Matched.Unresolved rule _ => rule end.

Lemma first_match_None rules action context :
  first_match_in rules action context = None <-> Forall (skipped action context) rules.
Proof.
  induction rules as [|rule rest IH]; simpl; [by split|].
  rewrite Forall_cons, <- IH. unfold skipped.
  destruct (when_matches _ _ _); [destruct (Unless.suppresses _ _)| |]; naive_solver.
Qed.

Lemma first_match_Some rules action context m :
  first_match_in rules action context = Some m <->
  exists before after, rules = before ++ matched_rule m :: after /\
    Forall (skipped action context) before /\ stops action context m.
Proof.
  induction rules as [|rule rest IH]; simpl.
  { split; [done|]. by intros ([|? ?] & ? & ? & _). }
  assert (skipped action context rule ->
    (first_match_in rest action context = Some m <->
     exists before after, rule :: rest = before ++ matched_rule m :: after /\
       Forall (skipped action context) before /\ stops action context m)) as Hskip.
  { intros Hs. rewrite IH. split.
    - intros (b & a & -> & Hb & Hm). exists (rule :: b), a. by split_and!; [|constructor|].
    - intros ([|r b] & a & E & Hb & Hm); simplify_eq/=.
      + exfalso. destruct m; simpl in *; destruct Hs as [?|[? ?]]; destruct_and?; congruence.
      + apply Forall_cons in Hb as [_ Hb]. eauto 10. }
  assert (forall m', matched_rule m' = rule -> stops action context m' ->
    (Some m' = Some m <-> exists before after, rule :: rest = before ++ matched_rule m :: after /\
       Forall (skipped action context) before /\ stops action context m)) as Hstop.
  { intros m' Hr Hm'. split.
    - intros [= <-]. exists [], rest. by rewrite Hr.
    - intros ([|r b] & a & E & Hb & Hm); simplify_eq/=.
      + destruct m, m'; simpl in *; destruct_and?; congruence.
      + apply Forall_cons in Hb as [Hs _].
        destruct m'; simpl in *; destruct Hs as [?|[? ?]]; destruct_and?; congruence. }
  destruct (when_matches _ _ _) as [| |why] eqn:Hw; [destruct (Unless.suppresses _ _) eqn:Hu| |].
  - apply Hskip. by right.
  - by apply (Hstop (Matched.Rule rule)).
  - apply Hskip. by left.
  - by apply (Hstop (Matched.Unresolved rule why)).
Qed.

(** A rule that is unconditional stops the scan. *)
Lemma unconditional_stops rule action context :
  When.is_empty (Rule.when rule) = true -> Unless.is_empty (Rule.unless rule) = true ->
  stops action context (Matched.Rule rule).
Proof.
  intros Hw Hu. split; [by apply when_matches_empty|].
  unfold Unless.is_empty in Hu. unfold Unless.suppresses.
  by destruct (Unless.config _), (Unless.standing_grant _).
Qed.

(** * Phase two *)

(** A postcondition whose condition holds and is not suppressed. *)
Definition holds (action : CanonicalAction.t) (context : PolicyContext.t)
    (post : Postcondition.t) : Prop :=
  when_matches (Postcondition.when post) action context = Match.Yes /\
  Unless.suppresses (Postcondition.unless post) context = false.

(** What the loop does with a postcondition: nothing, one narrowing, or a
    denial for want of a value. *)
Lemma phase_two_step post rest action context primary state :
  (phase_two (post :: rest) action context primary state =
     phase_two rest action context primary state /\
   ~ (selects post (Running.effect state) = true /\ holds action context post)) \/
  (phase_two (post :: rest) action context primary state =
     phase_two rest action context primary
       (Running.Make (Effect.meet (Running.effect state) (Postcondition.effect post))
          (if bool_decide (Effect.meet (Running.effect state) (Postcondition.effect post)
                           = Running.effect state)
           then Running.deciding state
           else post_matched post (Postcondition.reason post))
          (Running.applied state ++ [post_matched post (Postcondition.reason post)])) /\
   selects post (Running.effect state) = true /\ holds action context post) \/
  (exists why, when_matches (Postcondition.when post) action context = Match.Unevaluable why /\
   selects post (Running.effect state) = true /\
   phase_two (post :: rest) action context primary state =
     Err (Decision.not_evaluated (post_matched post Reason.UnresolvedCanonicalInput) primary
       (Running.applied state ++ [post_matched post Reason.UnresolvedCanonicalInput])
       (CanonicalAction.capability action) why)).
Proof.
  simpl. unfold holds. destruct (selects post (Running.effect state)); simpl; [|naive_solver].
  destruct (when_matches _ _ _) as [| |why]; [|naive_solver..].
  destruct (Unless.suppresses _ _); naive_solver.
Qed.

(** Apply the step lemma to the loop in hypothesis [H], naming its cases. *)
Ltac phase_two_cases H :=
  match type of H with
  | phase_two (?p :: ?r) ?a ?c ?m ?s = _ =>
      let Hs := fresh "Hstep" in
      pose proof (phase_two_step p r a c m s) as Hs;
      destruct Hs as [[Hs ?]|[(Hs & ? & ?)|(? & ? & ? & Hs)]]; rewrite Hs in H; clear Hs
  end.

Lemma phase_two_app l k action context primary state :
  phase_two (l ++ k) action context primary state =
  match phase_two l action context primary state with
  | Ok state => phase_two k action context primary state
  | Err early => Err early
  end.
Proof.
  revert state; induction l as [|post l IH]; intros state; [done|].
  rewrite <- app_comm_cons. simpl. destruct (negb _); [apply IH|].
  destruct (when_matches _ _ _); [|apply IH|done].
  destruct (Unless.suppresses _ _); apply IH.
Qed.

(** What an uninterrupted phase two did: a sublist of the postconditions held,
    each met into the effect; the decision is the last one's that changed it. *)
Lemma phase_two_Ok posts action context primary state state' :
  phase_two posts action context primary state = Ok state' ->
  exists fired, sublist fired posts /\ Forall (holds action context) fired /\
    Running.applied state' = Running.applied state ++
      ((fun p => post_matched p (Postcondition.reason p)) <$> fired) /\
    Running.effect state' =
      foldl Effect.meet (Running.effect state) (Postcondition.effect <$> fired) /\
    ((Running.deciding state' = Running.deciding state /\
      Running.effect state' = Running.effect state) \/
     (exists post, post ∈ fired /\ Running.effect state' = Postcondition.effect post /\
        Running.effect state' <> Running.effect state /\
        Running.deciding state' = post_matched post (Postcondition.reason post))).
Proof.
  revert state; induction posts as [|post rest IH]; intros state H.
  { injection H as <-. exists []. rewrite app_nil_r. split_and!; try done. by left. }
  phase_two_cases H; [| |done].
  - destruct (IH _ H) as (fired & ? & Hrest). exists fired. split; [by constructor|done].
  - destruct (IH _ H) as (fired & Hsub & Hh & Ha & He & Hd). simpl in *.
    exists (post :: fired). split_and!; [by constructor|by constructor| |done|].
    { rewrite Ha, <- app_assoc. done. }
    destruct Hd as [[Hd Hsame]|(q & Hq & Heq & Hne & Hd)].
    + rewrite Hsame. case_bool_decide as Hm; [left; by rewrite Hm|right].
      exists post. split_and!; [auto with direwolf| |done|done].
      by destruct (Running.effect state), (Postcondition.effect post).
    + right. exists q. split_and!; [auto with direwolf|done| |done].
      intros E. assert (Effect.narrower_or_equal (Running.effect state')
        (Effect.meet (Running.effect state) (Postcondition.effect post)) = true) as Hn.
      { rewrite He. clear. generalize (Effect.meet (Running.effect state)
          (Postcondition.effect post)) as e.
        induction fired as [|f fired IH]; intros e; simpl; [apply Effect.effect_narrower_refl|].
        eapply Effect.effect_narrower_trans; [apply IH|apply Effect.meet_l]. }
      rewrite E in Hn, Hne. apply Hne, Effect.effect_narrower_antisym; [done|apply Effect.meet_l].
Qed.

Lemma foldl_meet_narrower e l :
  Effect.narrower_or_equal (foldl Effect.meet e l) e = true /\
  Forall (fun x => Effect.narrower_or_equal (foldl Effect.meet e l) x = true) l.
Proof.
  revert e; induction l as [|x l IH]; intros e; simpl; [by rewrite Effect.effect_narrower_refl|].
  destruct (IH (Effect.meet e x)) as [H1 H2]. split.
  - eapply Effect.effect_narrower_trans; [done|apply Effect.meet_l].
  - constructor; [|done]. eapply Effect.effect_narrower_trans; [done|apply Effect.meet_r].
Qed.

(** An interrupted phase two denies, and says what was missing. *)
Lemma phase_two_Err posts action context primary state d :
  phase_two posts action context primary state = Err d ->
  exists post applied why, post ∈ posts /\
    when_matches (Postcondition.when post) action context = Match.Unevaluable why /\
    d = Decision.not_evaluated (post_matched post Reason.UnresolvedCanonicalInput) primary
          applied (CanonicalAction.capability action) why.
Proof.
  revert state; induction posts as [|post rest IH]; intros state H; [done|].
  phase_two_cases H.
  1,2: destruct (IH _ H) as (q & ap & why & Hq & ? & ?);
    exists q, ap, why; split_and!; [auto with direwolf|done..].
  injection H as <-. eexists post, _, _. split_and!; [auto with direwolf|done..].
Qed.

(** A denial is never undone. *)
Lemma phase_two_deny posts action context primary state :
  Running.effect state = Effect.Deny ->
  match phase_two posts action context primary state with
  | Ok state' => Running.effect state' = Effect.Deny
  | Err d => Decision.effect d = Effect.Deny
  end.
Proof.
  intros Hs. destruct (phase_two _ _ _ _ _) as [s|d] eqn:E.
  - apply phase_two_Ok in E as (fired & _ & _ & _ & He & _). rewrite Hs in He.
    pose proof (proj1 (foldl_meet_narrower Effect.Deny (Postcondition.effect <$> fired))) as Hn.
    rewrite He. by apply Effect.narrower_deny_inv.
  - by apply phase_two_Err in E as (? & ? & ? & _ & _ & ->).
Qed.

(** Postconditions that only deny either do nothing or deny. *)
Lemma phase_two_deny_only posts action context primary state :
  Forall (fun p => Postcondition.effect p = Effect.Deny) posts ->
  match phase_two posts action context primary state with
  | Ok state' => state' = state \/ Running.effect state' = Effect.Deny
  | Err d => Decision.effect d = Effect.Deny
  end.
Proof.
  intros Hd. revert state; induction Hd as [|post rest Hpost Hd IH]; intros state; [by left|].
  destruct (phase_two (post :: rest) action context primary state) as [s|d] eqn:E.
  - phase_two_cases E; [| |done].
    + specialize (IH state). by rewrite E in IH.
    + right. rewrite Hpost in E.
      pose proof (phase_two_deny rest action context primary) as Hdeny.
      match type of E with phase_two _ _ _ _ ?st = _ => specialize (Hdeny st) end.
      rewrite E in Hdeny. apply Hdeny. by destruct (Running.effect state).
  - by apply phase_two_Err in E as (? & ? & ? & _ & _ & ->).
Qed.

(** * The decision *)

(** The loop's starting state for a matched rule. *)
Definition started (rule : Rule.t) : Running.t :=
  Running.Make (Rule.effect rule) (rule_matched rule (Rule.reason rule)) [].

(** A decision taken by phase two running to its end. *)
Definition decided_by (rule : Rule.t) (state : Running.t) (capability : Capability.t) :
    Decision.t :=
  Decision.new (Running.effect state) (Running.deciding state)
    (rule_matched rule (Rule.reason rule)) (Running.applied state) capability
    (match Running.effect state with Effect.RequireApproval => Rule.approval rule | _ => None end)
    (match Running.effect state with
     | Effect.Deny => Obligations.none | _ => Rule.obligations rule end).

(** The four ways a decision is taken. *)
Lemma evaluate_cases policy action context :
  (first_match policy action context = None /\
   evaluate policy action context = unmatched policy (CanonicalAction.capability action)) \/
  (exists rule why, first_match policy action context = Some (Matched.Unresolved rule why) /\
     let at_ := rule_matched rule Reason.UnresolvedCanonicalInput in
     evaluate policy action context =
       Decision.not_evaluated at_ at_ [] (CanonicalAction.capability action) why) \/
  (exists rule, first_match policy action context = Some (Matched.Rule rule) /\
     ((exists state, phase_two (CompiledPolicy.postconditions policy) action context
          (rule_matched rule (Rule.reason rule)) (started rule) = Ok state /\
        evaluate policy action context =
          decided_by rule state (CanonicalAction.capability action)) \/
      phase_two (CompiledPolicy.postconditions policy) action context
          (rule_matched rule (Rule.reason rule)) (started rule) =
        Err (evaluate policy action context))).
Proof.
  unfold evaluate. destruct (first_match policy action context) as [[rule|rule why]|].
  - right; right. exists rule. split; [done|]. cbv zeta. fold (started rule).
    destruct (phase_two _ _ _ _ _) as [state|d]; [left|by right]. by exists state.
  - right; left. by exists rule, why.
  - by left.
Qed.

(** A matched rule is the decision's primary rule and bounds its effect. *)
Lemma evaluate_matched policy action context rule :
  first_match policy action context = Some (Matched.Rule rule) ->
  let d := evaluate policy action context in
  Decision.primary d = rule_matched rule (Rule.reason rule) /\
  Effect.narrower_or_equal (Decision.effect d) (Rule.effect rule) = true /\
  Decision.required_capability d = CanonicalAction.capability action.
Proof.
  intros E. unfold evaluate. rewrite E. fold (started rule). cbv zeta.
  destruct (phase_two _ _ _ _ _) as [state|d] eqn:Ep.
  - apply phase_two_Ok in Ep as (fired & _ & _ & _ & He & _). split_and!; [done| |done].
    simpl. rewrite He. apply foldl_meet_narrower.
  - apply phase_two_Err in Ep as (post & applied & why & _ & _ & ->).
    split_and!; auto with direwolf.
Qed.

(** * Explanations *)

Definition anchor_display (a : PathAnchor.t) : string :=
  match PathAnchor.as_str a with Some text => text | None => "/"%string end.

Definition unevaluable_display (why : Unevaluable.t) : string :=
  match why with
  | Unevaluable.PathAnchor anchor =>
      "the path anchor " +:+ anchor_display anchor +:+ " is unresolved"
  | Unevaluable.ResolvedAddress => "the destination address is unresolved"
  end.

Definition newline : string := String "010"%char EmptyString.

(** [Display for Decision]: one line per contributing rule. *)
Definition decision_display (d : Decision.t) : string :=
  Effect.as_str (Decision.effect d) +:+ " "
  +:+ Verb.display (Capability.verb (Decision.required_capability d)) +:+ newline
  +:+ "  matched rule  " +:+ MatchedRule.display (Decision.primary d) +:+ newline
  +:+ foldr (fun applied acc =>
        "  then          " +:+ MatchedRule.display applied +:+ newline +:+ acc)
      EmptyString (Decision.postconditions d)
  +:+ "  reason        " +:+ Reason.as_str (MatchedRule.reason (Decision.deciding d)) +:+ newline
  +:+ match Decision.unevaluable d with
      | Some why => "  not evaluated " +:+ unevaluable_display why +:+ newline
      | None => EmptyString
      end
  +:+ "  required cap  " +:+ display_capability (Decision.required_capability d) +:+ newline
  +:+ match Decision.approval d with
      | Some approval => "  would satisfy " +:+ ApprovalSpec.display approval +:+ newline
      | None => EmptyString
      end
  +:+ (if Obligations.is_empty (Decision.obligations d) then EmptyString
       else "  obligations   " +:+ Obligations.display (Decision.obligations d) +:+ newline).
