(* ===== verification/Compose.v ===== *)
(** Load errors with the paths they name ([policy/error.rs]) and composition of
    a profile with what it extends ([policy/compose.rs]). *)

From S2P Require Export Prelude Text PolicyValue Rule Eval.

(** A path into a document, such as [rule[3].when.path_under]. *)
Module FieldPath.
Record t : Set := Make { as_str : string }.

#[global] Instance eq_dec : EqDecision t.
Proof. solve_decision. Defined.

Definition root : t := Make EmptyString.

Definition member (self : t) (name : string) : t :=
  if is_empty (as_str self) then Make name
  else Make (as_str self +:+ String "." name).

Definition index (self : t) (index : N) : t :=
  Make (as_str self +:+ String "[" (show_N index +:+ String "]" EmptyString)).
End FieldPath.

Module Expected.
Inductive t : Set := String | Integer | Boolean | Table | Array | StringOrArray.

#[global] Instance eq_dec : EqDecision t.
Proof. solve_decision. Defined.
End Expected.

Module PolicyLoadError.
Inductive t : Set :=
| SourceTooLarge (bytes limit : N)
| SourceNameInvalid
| TooManyProfiles (count limit : nat)
| Syntax (at_ : SourceLocation.t) (message : string)
| SchemaVersionMissing (at_ : SourceLocation.t)
| SchemaVersionUnsupported (at_ : SourceLocation.t) (found : Z) (supported : N)
| UnknownField (at_ : SourceLocation.t) (field : FieldPath.t)
| MissingField (at_ : SourceLocation.t) (field : FieldPath.t)
| TypeMismatch (at_ : SourceLocation.t) (field : FieldPath.t) (expected : Expected.t)
| BadValue (at_ : SourceLocation.t) (field : FieldPath.t) (error : PolicyValueError.t)
| DuplicateRuleId (at_ first : SourceLocation.t) (id : string)
| DuplicateProfileName (name : string)
| TooManyRules (at_ : SourceLocation.t) (count limit : nat)
| DefaultRuleMissing (at_ : SourceLocation.t)
| DefaultRuleNotLast (at_ : SourceLocation.t) (followed_by : nat)
| DefaultRuleNotDeny (at_ : SourceLocation.t)
| DefaultRuleConditional (at_ : SourceLocation.t)
| PredicateNotApplicable (at_ : SourceLocation.t) (field : FieldPath.t) (detail : string)
| PredicateNeedsVerbs (at_ : SourceLocation.t) (field : FieldPath.t)
| ApprovalSpecMismatch (at_ : SourceLocation.t) (detail : string)
| ExtendsUnknownProfile (at_ : SourceLocation.t) (name : string)
| ExtendsCycle (chain : list string)
| ExtendsTooDeep (chain : list string) (limit : nat)
| WideningExtension (at_ : SourceLocation.t) (id detail : string)
| ExtendsShadowsRuleId (at_ : SourceLocation.t) (id parent : string)
| ExtendsRedeclaresDefault (at_ : SourceLocation.t).

#[global] Instance eq_dec : EqDecision t.
Proof. solve_decision. Defined.
End PolicyLoadError.

Definition WIDENING_DETAIL : string :=
  "an extending profile may only add DENY rules, because DENY is the only effect that is narrower than every result its parent could return".

Definition find_profile (profiles : list Profile.t) (wanted : ProfileName.t) : option Profile.t :=
  List.find (fun p => bool_decide (Profile.name p = wanted)) profiles.

(** The [while let] loop of [resolve_chain]. [None] is a loop that has not
    ended within the fuel. *)
Fixpoint resolve_loop (fuel : nat) (profiles : list Profile.t) (current : Profile.t)
    (chain : list Profile.t) (seen : list ProfileName.t) :
    option (result (list Profile.t) PolicyLoadError.t) :=
  match fuel with
  | O => None
  | S fuel =>
      match Profile.extends current with
      | None => Some (Ok chain)
      | Some parent =>
          if bool_decide (parent ∈ seen) then
            Some (Err (PolicyLoadError.ExtendsCycle
              ((ProfileName.as_str <$> seen) ++ [ProfileName.as_str parent])))
          else
            match find_profile profiles parent with
            | None => Some (Err (PolicyLoadError.ExtendsUnknownProfile
                        (Profile.source current) (ProfileName.as_str parent)))
            | Some next =>
                if (Limits.MAX_EXTENDS_DEPTH <=? length chain)%nat then
                  Some (Err (PolicyLoadError.ExtendsTooDeep
                    ((ProfileName.as_str <$> seen) ++ [ProfileName.as_str parent])
                    Limits.MAX_EXTENDS_DEPTH))
                else resolve_loop fuel profiles next (chain ++ [next]) (seen ++ [parent])
            end
      end
  end.

Definition resolve_chain (name : ProfileName.t) (profiles : list Profile.t) :
    option (result (list Profile.t) PolicyLoadError.t) :=
  match find_profile profiles name with
  | None => Some (Err (PolicyLoadError.ExtendsUnknownProfile SourceLocation.synthetic
                         (ProfileName.as_str name)))
  | Some current =>
      resolve_loop Limits.MAX_EXTENDS_DEPTH profiles current [current] [Profile.name current]
  end.

(** [rules().any(id) || postconditions().any(id)]. *)
Definition uses_id (id : string) (other : Profile.t) : bool :=
  existsb (fun r => String.eqb (RuleId.as_str (Rule.id r)) id) (Profile.rules other)
  || existsb (fun p => String.eqb (RuleId.as_str (Postcondition.id p)) id)
       (Profile.postconditions other).

Fixpoint first_clash (id : string) (at_ : SourceLocation.t) (others : list Profile.t) :
    result unit PolicyLoadError.t :=
  match others with
  | [] => Ok ()
  | other :: rest =>
      if uses_id id other
      then Err (PolicyLoadError.ExtendsShadowsRuleId at_ id
                  (ProfileName.as_str (Profile.name other)))
      else first_clash id at_ rest
  end.

Definition check_id_is_fresh (id : string) (at_ : SourceLocation.t) (profile root : Profile.t)
    (extenders : list Profile.t) : result unit PolicyLoadError.t :=
  first_clash id at_
    (List.filter (fun other => negb (bool_decide (Profile.name other = Profile.name profile)))
       (extenders ++ [root])).

Fixpoint check_rules (rules : list Rule.t) (profile root : Profile.t)
    (extenders : list Profile.t) : result unit PolicyLoadError.t :=
  match rules with
  | [] => Ok ()
  | rule :: rest =>
      if Rule.is_default rule
      then Err (PolicyLoadError.ExtendsRedeclaresDefault (Rule.source rule))
      else if negb (bool_decide (Rule.effect rule = Effect.Deny))
      then Err (PolicyLoadError.WideningExtension (Rule.source rule)
                  (RuleId.as_str (Rule.id rule)) WIDENING_DETAIL)
      else
        let? _ := check_id_is_fresh (RuleId.as_str (Rule.id rule)) (Rule.source rule)
                    profile root extenders in
        check_rules rest profile root extenders
  end.

Fixpoint check_postconditions (posts : list Postcondition.t) (profile root : Profile.t)
    (extenders : list Profile.t) : result unit PolicyLoadError.t :=
  match posts with
  | [] => Ok ()
  | post :: rest =>
      if negb (bool_decide (Postcondition.effect post = Effect.Deny))
      then Err (PolicyLoadError.WideningExtension (Postcondition.source post)
                  (RuleId.as_str (Postcondition.id post)) WIDENING_DETAIL)
      else
        let? _ := check_id_is_fresh (RuleId.as_str (Postcondition.id post))
                    (Postcondition.source post) profile root extenders in
        check_postconditions rest profile root extenders
  end.

Definition check_extender (profile root : Profile.t) (extenders : list Profile.t) :
    result unit PolicyLoadError.t :=
  let? _ := check_rules (Profile.rules profile) profile root extenders in
  check_postconditions (Profile.postconditions profile) profile root extenders.

Fixpoint check_extenders (l : list Profile.t) (root : Profile.t) (extenders : list Profile.t) :
    result unit PolicyLoadError.t :=
  match l with
  | [] => Ok ()
  | profile :: rest =>
      let? _ := check_extender profile root extenders in
      check_extenders rest root extenders
  end.

(** [split_last]. *)
Fixpoint split_last {A} (l : list A) : option (A * list A) :=
  match l with
  | [] => None
  | [x] => Some (x, [])
  | x :: rest =>
      match split_last rest with Some (y, init) => Some (y, x :: init) | None => None end
  end.

(** The part of [compose] that follows the chain's resolution. The empty chain,
    on which the code would panic, is never resolved: [resolve_chain_nonempty]. *)
Definition compose_chain (name : ProfileName.t) (chain : list Profile.t) :
    result CompiledPolicy.t PolicyLoadError.t :=
  match split_last chain with
  | None => Err (PolicyLoadError.DefaultRuleMissing SourceLocation.synthetic)
  | Some (root, extenders) =>
      let? _ := check_extenders extenders root extenders in
      let rules := concat (Profile.rules <$> chain) in
      let postconditions := concat (Profile.postconditions <$> chain) in
      if negb (is_some_and (last rules) Rule.is_default)
      then Err (PolicyLoadError.DefaultRuleMissing (Profile.source root))
      else Ok (CompiledPolicy.Make name (Profile.name <$> chain) rules postconditions)
  end.

Definition compose (name : ProfileName.t) (profiles : list Profile.t) :
    option (result CompiledPolicy.t PolicyLoadError.t) :=
  match resolve_chain name profiles with
  | None => None
  | Some (Err e) => Some (Err e)
  | Some (Ok chain) => Some (compose_chain name chain)
  end.

(** * The chain *)

Lemma find_profile_Some profiles wanted p :
  find_profile profiles wanted = Some p -> Profile.name p = wanted /\ p ∈ profiles.
Proof. intros [Hin Hp%bool_decide_eq_true]%find_some. split; [done|by apply list_elem_of_In]. Qed.

Lemma resolve_loop_S fuel profiles current chain seen :
  resolve_loop (S fuel) profiles current chain seen =
  match Profile.extends current with
  | None => Some (Ok chain)
  | Some parent =>
      if bool_decide (parent ∈ seen) then
        Some (Err (PolicyLoadError.ExtendsCycle
          ((ProfileName.as_str <$> seen) ++ [ProfileName.as_str parent])))
      else
        match find_profile profiles parent with
        | None => Some (Err (PolicyLoadError.ExtendsUnknownProfile
                    (Profile.source current) (ProfileName.as_str parent)))
        | Some next =>
            if (Limits.MAX_EXTENDS_DEPTH <=? length chain)%nat then
              Some (Err (PolicyLoadError.ExtendsTooDeep
                ((ProfileName.as_str <$> seen) ++ [ProfileName.as_str parent])
                Limits.MAX_EXTENDS_DEPTH))
            else resolve_loop fuel profiles next (chain ++ [next]) (seen ++ [parent])
        end
  end.
Proof. reflexivity. Qed.

Lemma resolve_loop_total fuel profiles current chain seen :
  Limits.MAX_EXTENDS_DEPTH < fuel + length chain -> 0 < fuel ->
  exists r, resolve_loop fuel profiles current chain seen = Some r.
Proof.
  revert current chain seen; induction fuel as [|fuel IH]; intros current chain seen Hf Hp; [lia|].
  rewrite resolve_loop_S. destruct (Profile.extends current) as [parent|]; [|eauto].
  case_bool_decide; [eauto|]. destruct (find_profile profiles parent) as [next|]; [|eauto].
  destruct (Nat.leb_spec Limits.MAX_EXTENDS_DEPTH (length chain)); [eauto|].
  apply IH; [rewrite length_app; simpl|]; lia.
Qed.

Lemma resolve_loop_more fuel profiles current chain seen r :
  resolve_loop fuel profiles current chain seen = Some r ->
  resolve_loop (S fuel) profiles current chain seen = Some r.
Proof.
  revert current chain seen; induction fuel as [|fuel IH]; intros current chain seen; [done|].
  rewrite (resolve_loop_S (S fuel)), (resolve_loop_S fuel).
  destruct (Profile.extends current) as [parent|]; [|done].
  case_bool_decide; [done|]. destruct (find_profile profiles parent) as [next|]; [|done].
  destruct (_ <=? _)%nat; [done|]. by apply IH.
Qed.

(** Consecutive profiles, each extending the next; the last extends nothing. *)
Fixpoint linked (profiles : list Profile.t) (chain : list Profile.t) : Prop :=
  match chain with
  | [] => True
  | p :: rest =>
      (match rest with
       | [] => Profile.extends p = None
       | next :: _ => exists parent, Profile.extends p = Some parent /\
           find_profile profiles parent = Some next
       end) /\ linked profiles rest
  end.

(** What the loop returns, given what it has so far. *)
Lemma resolve_loop_Ok fuel profiles current chain seen out :
  resolve_loop fuel profiles current chain seen = Some (Ok out) ->
  length chain <= Limits.MAX_EXTENDS_DEPTH -> NoDup seen ->
  exists more, out = chain ++ more /\ length out <= Limits.MAX_EXTENDS_DEPTH /\
    NoDup (seen ++ (Profile.name <$> more)) /\ linked profiles (current :: more).
Proof.
  revert current chain seen; induction fuel as [|fuel IH]; intros current chain seen; [done|].
  rewrite resolve_loop_S. intros H Hlen Hnd. destruct (Profile.extends current) as [parent|] eqn:He.
  - case_bool_decide as Hin; [done|].
    destruct (find_profile profiles parent) as [next|] eqn:Hf; [|done].
    destruct (Nat.leb_spec Limits.MAX_EXTENDS_DEPTH (length chain)); [done|].
    destruct (find_profile_Some _ _ _ Hf) as [Hn _].
    apply IH in H as (more & -> & Hl & Hnd' & Hlink).
    + exists (next :: more). rewrite <- !app_assoc in *. simpl in *. rewrite Hn. eauto 10.
    + rewrite length_app; simpl; lia.
    + apply NoDup_app. split_and!; [done| |apply NoDup_singleton].
      intros x Hx ->%list_elem_of_singleton. done.
  - injection H as <-. exists []. simpl. rewrite !app_nil_r. done.
Qed.

(** The loop from a later profile, having seen less, ends the same way. *)
Lemma resolve_loop_suffix fuel profiles current c chain s seen out :
  resolve_loop fuel profiles current (c ++ chain) (s ++ seen) = Some (Ok (c ++ out)) ->
  resolve_loop fuel profiles current chain seen = Some (Ok out).
Proof.
  revert current chain seen; induction fuel as [|fuel IH]; intros current chain seen; [done|].
  rewrite !resolve_loop_S. destruct (Profile.extends current) as [parent|].
  - case_bool_decide as Hin; [done|]. rewrite bool_decide_eq_false_2 by (intros ?; apply Hin, elem_of_app; by right).
    destruct (find_profile profiles parent) as [next|]; [|done].
    rewrite length_app. destruct (Nat.leb_spec Limits.MAX_EXTENDS_DEPTH (length c + length chain)); [done|].
    rewrite (proj2 (Nat.leb_gt _ _)) by lia. rewrite <- !app_assoc. apply IH.
  - intros [= E%app_inv_head]. by subst.
Qed.

(** Every resolution ends, and what it resolves is a bounded chain of distinct
    profiles from the named one to a root. *)
Lemma resolve_chain_total name profiles : exists r, resolve_chain name profiles = Some r.
Proof.
  unfold resolve_chain. destruct (find_profile profiles name) as [p|]; [|eauto].
  apply resolve_loop_total; unfold Limits.MAX_EXTENDS_DEPTH; simpl; lia.
Qed.

Lemma resolve_chain_Ok name profiles chain :
  resolve_chain name profiles = Some (Ok chain) ->
  exists first more, chain = first :: more /\ find_profile profiles name = Some first /\
    length chain <= Limits.MAX_EXTENDS_DEPTH /\ NoDup (Profile.name <$> chain) /\
    linked profiles chain.
Proof.
  unfold resolve_chain. destruct (find_profile profiles name) as [p|] eqn:Hf; [|done]. intros H.
  apply resolve_loop_Ok in H as (more & -> & Hl & Hnd & Hlink);
    [|unfold Limits.MAX_EXTENDS_DEPTH; simpl; lia|apply NoDup_singleton].
  by exists p, more.
Qed.

Lemma resolve_chain_nonempty name profiles chain :
  resolve_chain name profiles = Some (Ok chain) -> chain <> [].
Proof. by intros (? & ? & -> & _)%resolve_chain_Ok. Qed.

(** The parent of a resolved profile resolves to the rest of the chain. *)
Lemma resolve_chain_parent name profiles first more parent :
  resolve_chain name profiles = Some (Ok (first :: more)) ->
  Profile.extends first = Some parent -> resolve_chain parent profiles = Some (Ok more).
Proof.
  intros H He. destruct (resolve_chain_Ok _ _ _ H) as (p & ps & [= <- <-] & Hf & _ & Hnd & _).
  unfold resolve_chain in *. rewrite Hf in H.
  unfold Limits.MAX_EXTENDS_DEPTH in H at 1. rewrite resolve_loop_S, He in H.
  case_bool_decide as Hin; [done|].
  destruct (find_profile profiles parent) as [next|] eqn:Hn; [|done].
  destruct (_ <=? _)%nat; [done|].
  apply (resolve_loop_suffix _ _ _ [first] [next] [Profile.name first] [parent] more) in H.
  destruct (find_profile_Some _ _ _ Hn) as [-> _].
  unfold Limits.MAX_EXTENDS_DEPTH at 1. by apply resolve_loop_more.
Qed.

(** * The restrictions *)

Lemma first_clash_Ok id at_ others u :
  first_clash id at_ others = Ok u <-> Forall (fun o => uses_id id o = false) others.
Proof.
  destruct u. induction others as [|o others IH]; simpl; [by split|].
  rewrite Forall_cons, <- IH. destruct (uses_id id o); naive_solver.
Qed.

(** Fewer other profiles, fewer clashes. *)
Lemma check_id_is_fresh_fewer id at_ profile root c extenders u :
  check_id_is_fresh id at_ profile root (c ++ extenders) = Ok u ->
  check_id_is_fresh id at_ profile root extenders = Ok u.
Proof.
  unfold check_id_is_fresh. rewrite !first_clash_Ok, <- app_assoc, List.filter_app, Forall_app.
  by intros [_ ?].
Qed.

Lemma check_rules_Ok rules profile root extenders u :
  check_rules rules profile root extenders = Ok u <->
  Forall (fun r => Rule.is_default r = false /\ Rule.effect r = Effect.Deny /\
    check_id_is_fresh (RuleId.as_str (Rule.id r)) (Rule.source r) profile root extenders = Ok ())
  rules.
Proof.
  destruct u. induction rules as [|r rules IH]; simpl; [by split|]. rewrite Forall_cons, <- IH.
  destruct (Rule.is_default r); [naive_solver|].
  case_bool_decide; simpl; [|naive_solver].
  destruct (check_id_is_fresh _ _ _ _ _) as [[]|]; naive_solver.
Qed.

Lemma check_postconditions_Ok posts profile root extenders u :
  check_postconditions posts profile root extenders = Ok u <->
  Forall (fun p => Postcondition.effect p = Effect.Deny /\
    check_id_is_fresh (RuleId.as_str (Postcondition.id p)) (Postcondition.source p)
      profile root extenders = Ok ())
  posts.
Proof.
  destruct u. induction posts as [|p posts IH]; simpl; [by split|]. rewrite Forall_cons, <- IH.
  case_bool_decide; simpl; [|naive_solver].
  destruct (check_id_is_fresh _ _ _ _ _) as [[]|]; naive_solver.
Qed.

(** What an accepted extender is. *)
Lemma check_extender_Ok profile root extenders u :
  check_extender profile root extenders = Ok u <->
  check_rules (Profile.rules profile) profile root extenders = Ok () /\
  check_postconditions (Profile.postconditions profile) profile root extenders = Ok ().
Proof.
  destruct u. unfold check_extender.
  destruct (check_rules _ _ _ _) as [[]|]; naive_solver.
Qed.

Lemma check_extender_fewer profile root c extenders u :
  check_extender profile root (c ++ extenders) = Ok u ->
  check_extender profile root extenders = Ok u.
Proof.
  rewrite !check_extender_Ok, !check_rules_Ok, !check_postconditions_Ok. intros [Hr Hp]. split.
  - eapply Forall_impl; [exact Hr|]. intros r (? & ? & ?); eauto using check_id_is_fresh_fewer.
  - eapply Forall_impl; [exact Hp|]. intros r (? & ?); eauto using check_id_is_fresh_fewer.
Qed.

Lemma check_extenders_Ok l root extenders u :
  check_extenders l root extenders = Ok u <->
  Forall (fun p => check_extender p root extenders = Ok ()) l.
Proof.
  destruct u. induction l as [|p l IH]; simpl; [by split|]. rewrite Forall_cons, <- IH.
  destruct (check_extender p root extenders) as [[]|]; naive_solver.
Qed.

(** * The composed policy *)

Lemma split_last_Some {A} (l : list A) x init : split_last l = Some (x, init) <-> l = init ++ [x].
Proof.
  revert init; induction l as [|a l IH]; intros init.
  { split; [done|]. by destruct init. }
  destruct l as [|b l].
  - simpl. split; [by intros [= <- <-]|]. destruct init as [|c [|]]; intros; simplify_eq/=; done.
  - change (split_last (a :: b :: l)) with
      (match split_last (b :: l) with Some (y, init) => Some (y, a :: init) | None => None end).
    destruct init as [|c init].
    + split; [by destruct (split_last _) as [[? ?]|]|done].
    + specialize (IH init). split.
      * destruct (split_last (b :: l)) as [[y i]|]; [|done]. intros [= -> -> ->].
        by rewrite (proj1 IH).
      * intros [= -> E]. by rewrite (proj2 IH).
Qed.

Lemma split_last_cons {A} (l : list A) : l <> [] -> exists x init, split_last l = Some (x, init).
Proof.
  induction l as [|a l IH] using rev_ind; [done|]. intros _. exists a, l.
  by apply split_last_Some.
Qed.

(** What a composed policy is made of. *)
Lemma compose_chain_Ok name chain p :
  compose_chain name chain = Ok p <->
  exists root extenders, chain = extenders ++ [root] /\
    check_extenders extenders root extenders = Ok () /\
    is_some_and (last (concat (Profile.rules <$> chain))) Rule.is_default = true /\
    p = CompiledPolicy.Make name (Profile.name <$> chain) (concat (Profile.rules <$> chain))
          (concat (Profile.postconditions <$> chain)).
Proof.
  unfold compose_chain. destruct (split_last chain) as [[root ext]|] eqn:E.
  - apply split_last_Some in E. split.
    + destruct (check_extenders ext root ext) as [[]|] eqn:Hc; [|done].
      destruct (is_some_and _ _) eqn:Hd; [|done]. intros [= <-]. by exists root, ext.
    + intros (root' & ext' & E' & Hc & Hd & ->). rewrite E in E'.
      apply app_inj_tail in E' as [<- <-]. rewrite Hc, Hd. done.
  - split; [done|]. intros (root & ext & -> & _).
    assert (split_last (ext ++ [root]) = Some (root, ext)) as E'
      by (apply split_last_Some; reflexivity).
    congruence.
Qed.

Lemma compose_Ok name profiles p :
  compose name profiles = Some (Ok p) <->
  exists chain, resolve_chain name profiles = Some (Ok chain) /\ compose_chain name chain = Ok p.
Proof.
  unfold compose. destruct (resolve_chain name profiles) as [[chain|e]|].
  - split; [intros [= H]; by exists chain|]. intros (c & [= <-] & H). by rewrite H.
  - split; [done|]. by intros (c & H & _).
  - split; [done|]. by intros (c & H & _).
Qed.

(** An extender adds denials in front of a chain that composes without it. *)
Lemma compose_chain_parent name parent first more p :
  more <> [] -> compose_chain name (first :: more) = Ok p ->
  exists q, compose_chain parent more = Ok q /\
    CompiledPolicy.rules p = Profile.rules first ++ CompiledPolicy.rules q /\
    CompiledPolicy.postconditions p =
      Profile.postconditions first ++ CompiledPolicy.postconditions q /\
    Forall (fun r => Rule.effect r = Effect.Deny) (Profile.rules first) /\
    Forall (fun r => Postcondition.effect r = Effect.Deny) (Profile.postconditions first).
Proof.
  intros Hne (root & ext & E & Hc & Hd & ->)%compose_chain_Ok.
  destruct ext as [|f ext]; [by injection E as -> ->|].
  rewrite <- app_comm_cons in E. injection E as -> ->.
  change (concat (Profile.rules <$> f :: ext ++ [root])) with
    (Profile.rules f ++ concat (Profile.rules <$> ext ++ [root])) in *.
  rewrite check_extenders_Ok in Hc. apply Forall_cons in Hc as [Hf Hc].
  apply check_extender_Ok in Hf as [Hr Hp].
  apply check_rules_Ok in Hr. apply check_postconditions_Ok in Hp.
  eexists. split; [apply compose_chain_Ok; exists root, ext; split_and!; [done| | |reflexivity]|].
  - apply check_extenders_Ok. eapply Forall_impl; [exact Hc|]. intros q Hq.
    by apply (check_extender_fewer q root [f]).
  - destruct (last (concat (Profile.rules <$> ext ++ [root]))) as [r|] eqn:Hl.
    + apply last_Some in Hl as [l' El]. rewrite El, app_assoc, last_snoc in Hd. done.
    + apply last_None in Hl. rewrite Hl, app_nil_r in Hd.
      destruct (last (Profile.rules f)) as [r|] eqn:Hl'; [|done]. simpl in Hd.
      apply last_Some in Hl' as [l' El]. rewrite El, Forall_app, Forall_singleton in Hr.
      destruct Hr as [_ (Hr & _)]. congruence.
  - simpl. split_and!; try done.
    + eapply Forall_impl; [exact Hr|]. by intros r (? & ? & ?).
    + eapply Forall_impl; [exact Hp|]. by intros r (? & ?).
Qed.

(** ** Denials in front *)

Lemma first_match_app l k action context :
  first_match_in (l ++ k) action context =
  match first_match_in l action context with
  | Some m => Some m
  | None => first_match_in k action context
  end.
Proof.
  induction l as [|r l IH]; simpl; [done|].
  destruct (when_matches _ _ _); [destruct (Unless.suppresses _ _)| |]; auto.
Qed.

(** Rules and postconditions that only deny, put in front of a policy, leave
    each of its decisions as it was or deny. *)
Lemma evaluate_denials_first p q rs ps action context :
  CompiledPolicy.rules p = rs ++ CompiledPolicy.rules q ->
  CompiledPolicy.postconditions p = ps ++ CompiledPolicy.postconditions q ->
  Forall (fun r => Rule.effect r = Effect.Deny) rs ->
  Forall (fun r => Postcondition.effect r = Effect.Deny) ps ->
  Decision.effect (evaluate p action context) = Effect.Deny \/
  evaluate p action context = evaluate q action context.
Proof.
  intros Hr Hp Hrs Hps. unfold evaluate, first_match. rewrite Hr, Hp, first_match_app. cbv zeta.
  destruct (first_match_in rs action context) as [[r|r why]|] eqn:E; [left|by left|].
  - apply first_match_Some in E as (b & a & -> & _ & _).
    apply Forall_app in Hrs as [_ [Hd _]%Forall_cons].
    simpl in Hd. pose proof (phase_two_deny (ps ++ CompiledPolicy.postconditions q) action context
      (rule_matched r (Rule.reason r)) (started r) Hd) as Hden. unfold started in Hden.
    by destruct (phase_two _ _ _ _ _).
  - destruct (first_match_in (CompiledPolicy.rules q) action context) as [[r|r why]|];
      [|by right..].
    fold (started r). rewrite phase_two_app.
    pose proof (phase_two_deny_only ps action context (rule_matched r (Rule.reason r)) (started r)
      Hps) as Hd.
    destruct (phase_two ps _ _ _ _) as [s|d]; [|by left].
    destruct Hd as [->|Hd]; [by right|left].
    pose proof (phase_two_deny (CompiledPolicy.postconditions q) action context
      (rule_matched r (Rule.reason r)) s Hd) as Hden.
    by destruct (phase_two _ _ _ _ _).
Qed.

(** ** The default in front of nothing *)

(** With a last rule that is an unconditional denial and the only default, the
    policy decides by one of its own rules, and whatever it permits is another
    rule's. *)
Lemma decides_cases policy action context before default :
  CompiledPolicy.rules policy = before ++ [default] ->
  When.is_empty (Rule.when default) = true -> Unless.is_empty (Rule.unless default) = true ->
  Rule.effect default = Effect.Deny ->
  Forall (fun r => Rule.is_default r = false) before ->
  let d := evaluate policy action context in
  (Forall (skipped action context) before ->
   Decision.effect d = Effect.Deny /\
   Decision.primary d = rule_matched default (Rule.reason default)) /\
  (exists m, m ∈ CompiledPolicy.rules policy /\
     MatchedRule.id (Decision.primary d) = Rule.id m /\
     (Decision.effect d <> Effect.Deny ->
      Rule.effect m <> Effect.Deny /\ Rule.is_default m = false)).
Proof.
  intros Hr Hw Hu Hd Hnd. cbv zeta. pose proof (unconditional_stops default action context Hw Hu) as Hs.
  split.
  - intros Hb. destruct (evaluate_matched policy action context default) as (Hp & He & _).
    { apply first_match_Some. by exists before, []. }
    split; [|done]. rewrite Hd in He. by apply Effect.narrower_deny_inv.
  - destruct (first_match policy action context) as [m|] eqn:E.
    + pose proof E as Em. apply first_match_Some in Em as (b & a & Hrm & Hb & Hm).
      assert (matched_rule m ∈ CompiledPolicy.rules policy) as Hin.
      { rewrite Hrm. auto with direwolf. }
      exists (matched_rule m). split; [done|]. destruct m as [r|r why].
      * destruct (evaluate_matched policy action context r E) as (-> & He & _).
        split; [done|]. intros Hne. simpl in *.
        assert (Rule.effect r <> Effect.Deny) as Hrd.
        { intros Hrd. rewrite Hrd in He. by apply Hne, Effect.narrower_deny_inv. }
        split; [done|]. rewrite Hr in Hin. apply elem_of_app in Hin as [Hin|Hin].
        -- rewrite Forall_forall in Hnd. by apply Hnd.
        -- apply list_elem_of_singleton in Hin. by subst r.
      * unfold evaluate. rewrite E. split; [done|]. simpl. intros H; by contradict H.
    + exfalso. apply first_match_None in E. rewrite Hr, Forall_app, Forall_singleton in E.
      destruct E as [_ [Hno|[_ Hyes]]]; destruct Hs; congruence.
Qed.
