(* ===== verification/PolicyTheorems.v ===== *)
(** The properties of the policy layer: the decision is the first matching
    rule's, narrowed by postconditions and by nothing else widened; extending a
    profile never permits more; and the values rules are written with mean what
    they say. *)

From S2P Require Import Prelude Text Order Vocabulary Resource Capabilities PolicyContext.
From S2P Require Import PolicyValue PolicyValueFacts Predicate Obligation Rule Eval.
From S2P Require Import Compose.

(** * Examples shared by the witnesses *)

Definition fs_write : Verb.t := Verb.of_ Namespace.Fs Action.Write.

(** Writing any path, in the sandbox. *)
Definition write_anything : CanonicalAction.t :=
  CanonicalAction.new (Capability.Make fs_write Scope.Universal ConstraintSet.unconstrained)
    Environment.Sandbox.

Definition scheduled : PolicyContext.t := PolicyContext.new Origin.Scheduled TaintLevel.None.

Definition at_line (n : N) : SourceLocation.t := SourceLocation.Make "site.toml" n.

Definition when_verb (v : Verb.t) : When.t :=
  When.Make (Some (MatchValue.Eq v)) None None None None None None None None None None None None.

Definition when_ip (c : Cidr.t) : When.t :=
  When.Make None None None None None None (Some (MatchValue.Eq c)) None None None None None None.

Definition when_unattended : When.t :=
  When.Make None None None None None None None None None
    (Some (MatchValue.In [Origin.Scheduled; Origin.Subagent])) None None
    (Some (MatchValue.Eq Effect.RequireApproval)).

Definition one_hour : ApprovalSpec.t :=
  ApprovalSpec.Make ApprovalScopeKind.ExactAction (Ttl.Make 3600) 1.

Definition hygiene : Obligations.t := Obligations.Make [Obligation.WorkspaceExecHygiene].

Definition approve_write : Rule.t :=
  Rule.Make (RuleId.Make "approve-write") (at_line 3) Effect.RequireApproval
    Reason.DestructiveInWorkspace (when_verb fs_write) Unless.default hygiene (Some one_hour).

Definition deny_loopback : Rule.t :=
  Rule.Make (RuleId.Make "deny-loopback") (at_line 2) Effect.Deny Reason.SandboxEscapeVector
    (when_ip (Cidr.Make (IpAddress.V4 [127; 0; 0; 0]%N) 8)) Unless.default Obligations.none None.

Definition default_rule : Rule.t :=
  Rule.Make (RuleId.Make "default") (at_line 9) Effect.Deny Reason.NoMatchingRule
    When.default Unless.default Obligations.none None.

Definition deny_unattended : Postcondition.t :=
  Postcondition.Make (RuleId.Make "deny-unattended") (at_line 12) Effect.Deny
    Reason.NoHumanAvailable when_unattended Unless.default.

Definition base : Profile.t :=
  Profile.Make (ProfileName.Make "base") (at_line 1) None [approve_write; default_rule]
    [deny_unattended].

Definition site : Profile.t :=
  Profile.Make (ProfileName.Make "site") (at_line 1) (Some (ProfileName.Make "base"))
    [deny_loopback] [].

Definition base_policy : CompiledPolicy.t :=
  CompiledPolicy.Make (ProfileName.Make "base") [ProfileName.Make "base"]
    [approve_write; default_rule] [deny_unattended].

Definition site_policy : CompiledPolicy.t :=
  CompiledPolicy.Make (ProfileName.Make "site") [ProfileName.Make "site"; ProfileName.Make "base"]
    [deny_loopback; approve_write; default_rule] [deny_unattended].

(** * Deciding *)

(** C13: The decision is made by the first rule, in source order, whose
    condition holds and is not suppressed: it is the decision's primary rule
    and bounds its effect, whatever follows it. A rule met first whose
    condition cannot be evaluated denies, naming the value that was missing. *)
Theorem first_match_decides policy action context before rule after :
  CompiledPolicy.rules policy = before ++ rule :: after ->
  Forall (skipped action context) before ->
  let d := evaluate policy action context in
  (when_matches (Rule.when rule) action context = Match.Yes ->
   Unless.suppresses (Rule.unless rule) context = false ->
   Decision.primary d = rule_matched rule (Rule.reason rule) /\
   Effect.narrower_or_equal (Decision.effect d) (Rule.effect rule) = true /\
   Decision.required_capability d = CanonicalAction.capability action) /\
  (forall why, when_matches (Rule.when rule) action context = Match.Unevaluable why ->
   Decision.effect d = Effect.Deny /\ Decision.unevaluable d = Some why /\
   Decision.deciding d = rule_matched rule Reason.UnresolvedCanonicalInput).
Proof.
  intros Hr Hb. cbv zeta. split.
  - intros Hw Hu. apply evaluate_matched, first_match_Some. exists before, after. done.
  - intros why Hw. unfold evaluate, first_match. rewrite (proj2 (first_match_Some _ _ _ (Matched.Unresolved rule why))) by
      (exists before, after; simpl; split_and!; done). done.
Qed.

Lemma first_match_decides_witness :
  Decision.primary (evaluate base_policy write_anything scheduled) =
    rule_matched approve_write Reason.DestructiveInWorkspace /\
  Decision.unevaluable (evaluate site_policy write_anything scheduled) =
    Some Unevaluable.ResolvedAddress.
Proof.
  split.
  - apply (first_match_decides base_policy write_anything scheduled [] approve_write
      [default_rule]); [reflexivity|constructor|reflexivity|reflexivity].
  - apply (first_match_decides site_policy write_anything scheduled [] deny_loopback
      [approve_write; default_rule]); [reflexivity|constructor|reflexivity].
Defined.

(** A policy whose last rule is unconditional always decides by one of its
    own rules; when every other rule is passed over, by the last one. *)
Lemma default_always_decides policy action context rules default :
  CompiledPolicy.rules policy = rules ++ [default] ->
  When.is_empty (Rule.when default) = true -> Unless.is_empty (Rule.unless default) = true ->
  (exists m before after, CompiledPolicy.rules policy = before ++ matched_rule m :: after /\
     Forall (skipped action context) before /\ stops action context m /\
     MatchedRule.id (Decision.primary (evaluate policy action context)) =
       Rule.id (matched_rule m)) /\
  (Forall (skipped action context) rules ->
   Decision.primary (evaluate policy action context) =
     rule_matched default (Rule.reason default) /\
   Effect.narrower_or_equal (Decision.effect (evaluate policy action context))
     (Rule.effect default) = true).
Proof.
  intros Hr Hw Hu.
  pose proof (unconditional_stops default action context Hw Hu) as Hstop.
  split.
  - destruct (first_match_in (CompiledPolicy.rules policy) action context) as [m|] eqn:E.
    + pose proof E as E'. apply first_match_Some in E' as (before & after & Hs & Hb & Hm).
      exists m, before, after. split_and!; [done..|].
      destruct m as [r|r why].
      * destruct (evaluate_matched policy action context r E) as [-> _]. done.
      * unfold evaluate, first_match. by rewrite E.
    + apply first_match_None in E. rewrite Hr, Forall_app, Forall_singleton in E.
      destruct E as [_ [Hno|[_ Hyes]]]; destruct Hstop; congruence.
  - intros Hs. destruct Hstop as [Hyes Hno].
    destruct (evaluate_matched policy action context default) as (? & ? & _); [|done].
    apply first_match_Some. by exists rules, [].
Qed.


(** * Narrowing *)



(** Approval shapes and obligations survive only where they mean
    something: a decision that carries an approval shape requires approval and
    the shape is its primary rule's; obligations are the primary rule's, and a
    denial carries none. A decision that permits or asks carries exactly its
    primary rule's obligations. *)
Lemma denials_carry_nothing policy action context :
  let d := evaluate policy action context in
  (Decision.effect d = Effect.Deny ->
   Decision.approval d = None /\ Decision.obligations d = Obligations.none) /\
  (Decision.effect d <> Effect.Deny ->
   exists rule, first_match policy action context = Some (Matched.Rule rule) /\
     Decision.obligations d = Rule.obligations rule /\
     Decision.approval d =
       match Decision.effect d with
       | Effect.RequireApproval => Rule.approval rule
       | _ => None
       end).
Proof.
  cbv zeta. destruct (evaluate_cases policy action context)
    as [[_ ->]|[(r & why & _ & ->)|(r & E & [(state & _ & ->)|Ep])]].
  - split; [done|]. intros H; by contradict H.
  - split; [done|]. intros H; by contradict H.
  - simpl. split; [by intros ->|]. intros Hne. exists r. split; [done|].
    by destruct (Running.effect state).
  - apply phase_two_Err in Ep as (post & applied & why & _ & _ & Ed).
    rewrite Ed. split; [done|]. intros H; by contradict H.
Qed.

(** A decision that names a missing canonical value denies, in the name of
    a rule or postcondition of the policy whose condition cannot be evaluated
    without that value, with the reason reserved for it. *)
Lemma unevaluable_denies policy action context why :
  let d := evaluate policy action context in
  Decision.unevaluable d = Some why ->
  Decision.effect d = Effect.Deny /\
  ((exists rule, rule ∈ CompiledPolicy.rules policy /\
      when_matches (Rule.when rule) action context = Match.Unevaluable why /\
      Decision.deciding d = rule_matched rule Reason.UnresolvedCanonicalInput) \/
   (exists post, post ∈ CompiledPolicy.postconditions policy /\
      when_matches (Postcondition.when post) action context = Match.Unevaluable why /\
      Decision.deciding d = post_matched post Reason.UnresolvedCanonicalInput)).
Proof.
  cbv zeta. destruct (evaluate_cases policy action context)
    as [[_ ->]|[(r & w & E & ->)|(r & E & [(state & _ & ->)|Ep])]]; [done| |done|].
  - intros [= ->]. split; [done|left]. exists r.
    apply first_match_Some in E as (b & a & Hr & _ & Hm). split_and!; [|done|done].
    rewrite Hr. auto with direwolf.
  - apply phase_two_Err in Ep as (post & applied & w & Hin & Hw & Ed). rewrite Ed.
    intros [= ->]. split; [done|right]. by exists post.
Qed.


Lemma foldl_meet_in e l : foldl Effect.meet e l = e \/ foldl Effect.meet e l ∈ l.
Proof.
  revert e; induction l as [|x l IH]; intros e; simpl; [by left|].
  destruct (IH (Effect.meet e x)) as [->|Hin]; [|right; apply elem_of_cons; by right].
  destruct (Effect.narrower_or_equal e x) eqn:E; unfold Effect.meet; rewrite E; [by left|].
  right. apply elem_of_cons. by left.
Qed.

(** Postconditions of other effects introduce no request for approval. *)
Lemma phase_two_no_approval posts action context primary state :
  Running.effect state <> Effect.RequireApproval ->
  Forall (fun p => Postcondition.effect p <> Effect.RequireApproval) posts ->
  match phase_two posts action context primary state with
  | Ok state' => Running.effect state' <> Effect.RequireApproval
  | Err d => Decision.effect d <> Effect.RequireApproval
  end.
Proof.
  intros Hs Hp. destruct (phase_two _ _ _ _ _) as [s|d] eqn:E.
  - apply phase_two_Ok in E as (fired & Hsub & _ & _ & He & _). rewrite He.
    destruct (foldl_meet_in (Running.effect state) (Postcondition.effect <$> fired)) as [->|Hin];
      [done|].
    apply list_elem_of_fmap in Hin as (p & -> & Hin).
    rewrite Forall_forall in Hp. apply Hp. exact (elem_of_submseteq _ _ _ Hin (sublist_submseteq _ _ Hsub)).
  - by apply phase_two_Err in E as (? & ? & ? & _ & _ & ->).
Qed.

(** Nobody is asked when nobody is there: with a postcondition that denies
    every decision requiring approval under this run's conditions, and none
    after it that asks for approval, no decision requires approval. *)
Lemma unattended_never_waits policy post before after action context :
  CompiledPolicy.postconditions policy = before ++ post :: after ->
  Postcondition.effect post = Effect.Deny ->
  selects post Effect.RequireApproval = true ->
  holds action context post ->
  Forall (fun p => Postcondition.effect p <> Effect.RequireApproval) after ->
  Decision.effect (evaluate policy action context) <> Effect.RequireApproval.
Proof.
  intros Hp Hd Hs [Hy Hn] Hafter.
  destruct (evaluate_cases policy action context)
    as [[_ ->]|[(r & w & E & ->)|(r & E & [(state & Ep & ->)|Ep])]]; [done|done| |].
  2: by apply phase_two_Err in Ep as (? & ? & ? & _ & _ & ->).
  simpl. rewrite Hp, phase_two_app in Ep.
  destruct (phase_two before _ _ _ _) as [s|]; [|done].
  destruct (phase_two_step post after action context (rule_matched r (Rule.reason r)) s)
    as [[Es Hno]|[(Es & _)|(w & Hw & _)]]; [| |congruence]; rewrite Es in Ep;
    match type of Ep with phase_two _ _ _ _ ?st = _ =>
      pose proof (phase_two_no_approval after action context (rule_matched r (Rule.reason r)) st)
        as Hfinal end; rewrite Ep in Hfinal; apply Hfinal; try done.
  - intros Hra. apply Hno. rewrite Hra. by repeat split.
  - simpl. rewrite Hd. by destruct (Running.effect s).
Qed.


(** The order matters: asked after the denial, approval is still required. *)
Example asked_too_late :
  let ask := Postcondition.Make (RuleId.Make "ask") (at_line 13) Effect.RequireApproval
    Reason.UntrustedContentInRun
    (When.Make None None None None None None None None None None None None
       (Some (MatchValue.Eq Effect.Allow))) Unless.default in
  let allow := Rule.Make (RuleId.Make "allow") (at_line 1) Effect.Allow Reason.PermittedByRule
    When.default Unless.default Obligations.none None in
  let policy := CompiledPolicy.Make (ProfileName.Make "late") [ProfileName.Make "late"]
    [allow; default_rule] [deny_unattended; ask] in
  Postcondition.narrows ask = true /\
  Decision.effect (evaluate policy write_anything scheduled) = Effect.RequireApproval /\
  Decision.approval (evaluate policy write_anything scheduled) = None.
Proof. by repeat split. Qed.

(** The load-time check on a postcondition is exact: it passes when the
    effect is no wider than each provisional effect the postcondition selects,
    that is, when taking the meet with a selected effect is to replace it. *)
Lemma narrows_exact (post : Postcondition.t) :
  Postcondition.narrows post = true <->
  forall e, selects post e = true -> Effect.meet e (Postcondition.effect post) =
    Postcondition.effect post.
Proof.
  unfold Postcondition.narrows, Postcondition.selects, selects. rewrite forallb_forall.
  assert (forall e f, Effect.narrower_or_equal e f = true <-> Effect.meet f e = e) as Hmeet
    by by intros [] [].
  destruct (When.provisional_effect (Postcondition.when post)) as [named|]; simpl.
  - setoid_rewrite MatchValue.matches_values. setoid_rewrite bool_decide_eq_true.
    setoid_rewrite <- list_elem_of_In. by setoid_rewrite Hmeet.
  - setoid_rewrite Hmeet. split; [|auto].
    intros H [] _; apply H; simpl; auto.
Qed.

(** * Composition *)

(** Composition terminates on every set of profiles, cyclic or not, and a
    resolved chain has at most four distinct profiles, each extending the next,
    from the named one to one that extends nothing. *)
Lemma composition_terminates name profiles :
  (exists r, compose name profiles = Some r) /\
  (forall p, compose name profiles = Some (Ok p) ->
     exists chain, CompiledPolicy.chain p = Profile.name <$> chain /\
       head (CompiledPolicy.chain p) = Some name /\
       length chain <= 4 /\ NoDup (CompiledPolicy.chain p) /\ linked profiles chain).
Proof.
  split.
  - unfold compose. destruct (resolve_chain_total name profiles) as [[chain|e] ->]; eauto.
  - intros p (chain & Hr & Hc)%compose_Ok.
    apply compose_chain_Ok in Hc as (root & ext & _ & _ & _ & ->). simpl.
    apply resolve_chain_Ok in Hr as (first & more & -> & Hf & Hl & Hnd & Hlink).
    apply find_profile_Some in Hf as [Hn _].
    exists (first :: more). split_and!; try done. simpl. by rewrite Hn.
Qed.


(** Two profiles of one name are not refused: the first is taken, for any
    number of profiles. *)
Example duplicate_names_compose :
  let other := Profile.Make (ProfileName.Make "base") (at_line 1) None [default_rule] [] in
  compose (ProfileName.Make "base") (base :: replicate 20 other) = Some (Ok base_policy).
Proof. reflexivity. Qed.

(** C2: Extending a profile never permits more. If a profile that extends
    another composes, so does the one it extends, and on every action in every
    context the extending policy denies or takes the very decision of the
    extended one. *)
Theorem extension_never_widens name profiles p first parent :
  compose name profiles = Some (Ok p) ->
  find_profile profiles name = Some first -> Profile.extends first = Some parent ->
  exists q, compose parent profiles = Some (Ok q) /\
  forall action context,
    (Decision.effect (evaluate p action context) = Effect.Deny \/
     evaluate p action context = evaluate q action context) /\
    Effect.narrower_or_equal (Decision.effect (evaluate p action context))
      (Decision.effect (evaluate q action context)) = true.
Proof.
  intros (chain & Hr & Hc)%compose_Ok Hf He.
  destruct (resolve_chain_Ok _ _ _ Hr) as (f & more & -> & Hf' & _ & _ & Hlink).
  rewrite Hf in Hf'. injection Hf' as <-.
  assert (more <> []) as Hne.
  { intros ->. simpl in Hlink. destruct Hlink. congruence. }
  destruct (compose_chain_parent name parent first more p Hne Hc) as (q & Hq & Hrules & Hposts & ? & ?).
  exists q. split.
  - apply compose_Ok. exists more. split; [by apply (resolve_chain_parent name _ first)|done].
  - intros action context.
    destruct (evaluate_denials_first p q _ _ action context Hrules Hposts) as [Hd|Hd]; [done..| |].
    + split; [by left|]. rewrite Hd. auto with direwolf.
    + split; [by right|]. rewrite Hd. auto with direwolf.
Qed.

Lemma extension_never_widens_witness :
  compose (ProfileName.Make "site") [base; site] = Some (Ok site_policy) /\
  exists q, compose (ProfileName.Make "base") [base; site] = Some (Ok q) /\
    Effect.narrower_or_equal (Decision.effect (evaluate site_policy write_anything scheduled))
      (Decision.effect (evaluate q write_anything scheduled)) = true.
Proof.
  split; [reflexivity|].
  destruct (extension_never_widens (ProfileName.Make "site") [base; site] site_policy site
    (ProfileName.Make "base")) as (q & Hq & H); [reflexivity|reflexivity|reflexivity|].
  exists q. split; [exact Hq|]. exact (proj2 (H write_anything scheduled)).
Defined.

Lemma uses_id_rule r profile :
  r ∈ Profile.rules profile -> uses_id (RuleId.as_str (Rule.id r)) profile = true.
Proof.
  intros Hr. unfold uses_id. apply orb_true_iff. left. apply existsb_exists. exists r.
  split; [by apply list_elem_of_In|apply String.eqb_refl].
Qed.

Lemma uses_id_cases id profile :
  uses_id id profile = true ->
  (exists r, r ∈ Profile.rules profile /\ RuleId.as_str (Rule.id r) = id) \/
  (exists p, p ∈ Profile.postconditions profile /\ RuleId.as_str (Postcondition.id p) = id).
Proof.
  unfold uses_id. intros [H|H]%orb_true_iff; apply existsb_exists in H as (x & Hx & E);
    [left|right]; exists x; (split; [by apply list_elem_of_In|by apply String.eqb_eq]).
Qed.

(** An extender's ids are used by no other profile of the chain. *)
Lemma extender_ids_fresh ext root extenders id other :
  check_extender ext root extenders = Ok () -> uses_id id ext = true ->
  other ∈ extenders ++ [root] -> Profile.name other <> Profile.name ext ->
  uses_id id other = false.
Proof.
  intros [Hr Hp]%check_extender_Ok Hid Hin Hne.
  assert (exists at_, check_id_is_fresh id at_ ext root extenders = Ok ()) as [at_ Hfresh].
  { apply uses_id_cases in Hid as [(r & Hr' & <-)|(p & Hp' & <-)].
    - apply check_rules_Ok in Hr. rewrite Forall_forall in Hr. exists (Rule.source r).
      by apply Hr.
    - apply check_postconditions_Ok in Hp. rewrite Forall_forall in Hp.
      exists (Postcondition.source p). by apply Hp. }
  apply first_clash_Ok in Hfresh. rewrite Forall_forall in Hfresh. apply Hfresh.
  apply list_elem_of_In, filter_In. split; [by apply list_elem_of_In|].
  by rewrite bool_decide_eq_false_2.
Qed.

(** A composed policy's rule ids are unambiguous and its default is the
    root's: no two profiles of the chain use one id, every rule and
    postcondition of a profile that extends another denies and is not the
    default, and the policy's last rule is the default. *)
Lemma composed_ids_unambiguous name profiles p chain :
  compose name profiles = Some (Ok p) -> resolve_chain name profiles = Some (Ok chain) ->
  (forall a b id, a ∈ chain -> b ∈ chain -> Profile.name a <> Profile.name b ->
     uses_id id a = true -> uses_id id b = false) /\
  (forall a, a ∈ chain -> Profile.extends a <> None ->
     Forall (fun r => Rule.effect r = Effect.Deny /\ Rule.is_default r = false)
       (Profile.rules a) /\
     Forall (fun q => Postcondition.effect q = Effect.Deny) (Profile.postconditions a)) /\
  is_some (CompiledPolicy.default_rule p) = true.
Proof.
  intros (chain' & Hr' & Hc)%compose_Ok Hr. rewrite Hr in Hr'. injection Hr' as <-.
  apply compose_chain_Ok in Hc as (root & ext & -> & Hc & Hd & ->).
  apply check_extenders_Ok in Hc. rewrite Forall_forall in Hc.
  assert (forall a b id, a ∈ ext -> b ∈ ext ++ [root] -> Profile.name a <> Profile.name b ->
    uses_id id a = true -> uses_id id b = false) as Hext.
  { intros a b id Ha Hb Hn Hid. by apply (extender_ids_fresh a root ext id b); [apply Hc|..|]. }
  split_and!.
  - intros a b id Ha Hb Hn Hid. pose proof Ha as Ha'.
    apply elem_of_app in Ha' as [Ha'| ->%list_elem_of_singleton]; [by apply (Hext a)|].
    pose proof Hb as Hb'.
    apply elem_of_app in Hb' as [Hb'| ->%list_elem_of_singleton]; [|by contradict Hn].
    destruct (uses_id id b) eqn:E; [|done].
    by rewrite (Hext b root id) in Hid by done.
  - intros a Ha He. apply elem_of_app in Ha as [Ha| ->%list_elem_of_singleton].
    + apply Hc, check_extender_Ok in Ha as [H1 H2].
      apply check_rules_Ok in H1. apply check_postconditions_Ok in H2. split.
      * eapply Forall_impl; [exact H1|]. by intros r (? & ? & ?).
      * eapply Forall_impl; [exact H2|]. by intros r (? & ?).
    + contradict He. apply resolve_chain_Ok in Hr as (f & m & _ & _ & _ & _ & Hlink).
      clear -Hlink. induction ext as [|e ext IH]; [by destruct Hlink|].
      apply IH. by destruct Hlink.
  - unfold CompiledPolicy.default_rule; simpl.
    destruct (last (concat _)) as [r|]; [|done]. simpl in Hd. by rewrite Hd.
Qed.


(** * Conditions *)

(** A condition's value is exact: it is true when each of the twelve
    predicates it writes holds; it cannot be evaluated when the nine that need
    nothing hold and one of the other three lacks its value, the first in the
    order address, path, executable being reported; otherwise it is false. One
    that writes nothing is true of everything. *)
Lemma condition_exact w action context :
  (when_matches w action context = Match.Yes <->
   decided w action context /\ Forall (fun r => r = Ok true) (evaluated w action context)) /\
  (forall why, when_matches w action context = Match.Unevaluable why <->
   decided w action context /\ first_error (evaluated w action context) = Some why) /\
  (~ decided w action context -> when_matches w action context = Match.No) /\
  (When.is_empty w = true -> when_matches w action context = Match.Yes).
Proof.
  split_and!.
  - apply when_matches_Yes.
  - intros why. apply when_matches_Unevaluable.
  - intros Hn. by destruct (when_matches_spec w action context) as [[? _]|[_ ?]].
  - apply when_matches_empty.
Qed.

(** What suppresses a rule: a configuration flag it names that is set, or
    [unless.standing_grant = false]. No grant is ever held, so
    [standing_grant = true] suppresses nothing; and flags are off until set, so
    in a freshly built context, whatever its origin, taint, privacy and anchors,
    [unless.config] suppresses nothing either. *)
Lemma suppression_exact u :
  (forall context, Unless.suppresses u context = true <->
     (exists key, Unless.config u = Some key /\
        ConfigFlags.is_set (PolicyContext.config context) key = true) \/
     Unless.standing_grant u = Some false) /\
  (forall origin taint privacy anchors,
     let context := PolicyContext.with_anchors
       (PolicyContext.with_privacy (PolicyContext.new origin taint) privacy) anchors in
     Unless.suppresses u context = true <-> Unless.standing_grant u = Some false).
Proof.
  split; [apply suppresses_spec|]. intros origin taint privacy anchors. cbv zeta.
  rewrite suppresses_spec. split; [|by right]. by intros [([] & _ & ?)|?].
Qed.

(** * Rule values *)

(** A range contains exactly the addresses of its family from its network
    address to the last one its prefix leaves free: an interval of numbers. *)
Lemma cidr_contains_exact text c a :
  Cidr.parse text = Ok c -> IpAddress.wf a = true ->
  Cidr.contains c a = true <->
  same_family (Cidr.network c) a /\
  (address_value (Cidr.network c) <= address_value a
   < address_value (Cidr.network c) + range_size c)%N.
Proof. intros Hc%Cidr_parse_wf Ha. by apply Cidr_contains_interval. Qed.


(** A parsed range prints as a text that parses to the same range, has a
    prefix its family allows and no host bit set. *)
Lemma cidr_roundtrip text c :
  Cidr.parse text = Ok c ->
  Cidr.parse (Cidr.display c) = Ok c /\
  (Cidr.prefix c <= IpAddress.bits (Cidr.network c))%N /\
  host_bits_clear (Cidr.network c) (Cidr.prefix c) = true.
Proof.
  intros Hc%Cidr_parse_wf. split; [by apply Cidr_parse_display|].
  unfold Cidr.wf in Hc. bool_to_prop. split; [by apply N.leb_le|done].
Qed.


(** The printed form is not the only one accepted: a prefix and a group may
    carry leading zeros. *)
Example second_spellings :
  Cidr.parse "10.0.0.0/08" = Cidr.parse "10.0.0.0/8" /\
  Cidr.parse "0000:0:0:0:0:0:0:0/0" = Cidr.parse "0:0:0:0:0:0:0:0/0" /\
  is_some (match Cidr.parse "10.0.0.0/08" with Ok c => Some c | Err _ => None end) = true /\
  RulePath.parse "${WORKSPACE}/" = RulePath.parse "${WORKSPACE}".
Proof. by repeat split. Qed.

(** A path written in a rule covers exactly the canonical paths whose names
    begin with the anchor's names and then its own; without the anchor it is
    not evaluated, and the missing anchor is named. A parsed path prints as a
    text that parses to it. *)
Lemma rule_path_exact text p :
  RulePath.parse text = Ok p ->
  RulePath.parse (RulePath.display p) = Ok p /\
  (forall anchors candidate root, RulePath.root_of p anchors = Ok root ->
     RulePath.contains p anchors candidate =
     Ok (bool_decide (RulePath.names p root `prefix_of`
           (PathComponent.as_str <$> CanonicalPath.components candidate)))) /\
  (forall anchors candidate missing, RulePath.root_of p anchors = Err missing <->
     RulePath.contains p anchors candidate = Err missing).
Proof.
  intros Hp%RulePath_parse_wf. split_and!.
  - by apply RulePath_parse_display.
  - intros anchors candidate root. apply RulePath_contains_names.
  - intros anchors candidate missing. unfold RulePath.contains.
    destruct (RulePath.root_of p anchors) as [root|m]; [|by split; intros [= ->]].
    split; [done|]. intros H. by repeat case_match.
Qed.


(** A list of obligations is accepted exactly when it has at most eight
    entries and names no obligation twice; the set keeps each of them, in one
    order whatever the order of writing, and refusals say which bound failed. *)
Lemma obligations_canonical (l : list Obligation.t) :
  match Obligations.new l with
  | Ok s =>
      length l <= Limits.MAX_OBLIGATIONS_PER_RULE /\ NoDup (Obligation.name <$> l) /\
      Obligations.as_slice s ≡ₚ l /\
      (forall k, k ≡ₚ l -> Obligations.new k = Ok s)
  | Err e =>
      (e = PolicyValueError.TooManyObligations /\
       Limits.MAX_OBLIGATIONS_PER_RULE < length l) \/
      (e = PolicyValueError.DuplicateObligation /\ ~ NoDup (Obligation.name <$> l))
  end.
Proof.
  destruct (Obligations.new l) as [s|e] eqn:E.
  - apply Obligations.obligations_new_Ok in E as (Hl & Hn & ->). split_and!; [done..|apply sort_perm|].
    intros k Hk. apply Obligations.obligations_new_Ok. split_and!; [by rewrite Hk|by rewrite Hk|].
    f_equal. apply strictly_sorted_ext.
    + apply weakly_strictly_sorted; [apply sort_sorted|].
      rewrite sort_perm. by apply (NoDup_fmap_1 Obligation.name).
    + apply weakly_strictly_sorted; [apply sort_sorted|].
      rewrite sort_perm, Hk. by apply (NoDup_fmap_1 Obligation.name).
    + intros x. by rewrite !sort_perm, Hk.
  - unfold Obligations.new in E.
    destruct (Nat.ltb_spec Limits.MAX_OBLIGATIONS_PER_RULE (length l)) as [Hlt|Hle];
      [left; by injection E as <-|right].
    destruct (Obligations.ambiguous (sort l)) eqn:Ea; [|done]. injection E as <-.
    split; [done|]. intros Hn. rewrite <- (sort_perm l) in Hn.
    apply Obligations.ambiguous_sorted in Hn; [congruence|apply sort_sorted].
Qed.

(** An obligation's text determines it, and its printed form parses back:
    a text parses to an obligation only if it is that obligation's printed form
    or, for a byte cap, the same number with leading zeros. A parsed byte cap is
    a positive 64-bit number. *)
Lemma obligation_roundtrip text o :
  Obligation.parse text = Ok o ->
  Obligation.parse (Obligation.display o) = Ok o /\ Obligation.spelled o text /\
  (forall n, o = Obligation.MaxOutputBytes n -> (0 < n <= U64_MAX)%N).
Proof.
  intros [Hw Hs]%Obligation.obligation_parse_Ok. split_and!; [by apply Obligation.obligation_parse_display|done|].
  intros n ->. simpl in Hw. bool_to_prop. split; [by apply N.ltb_lt|by apply N.leb_le].
Qed.


(** A duration is accepted exactly when it is a decimal number and one of
    the units s, m and h whose product lies between one second and a day, so
    nothing overflows into acceptance; it prints in its largest exact unit, and
    what it prints parses back to it. *)
Lemma ttl_exact text ttl :
  (Ttl.parse text = Ok ttl <->
   exists digits unit m n, text = digits +:+ String unit EmptyString /\
     is_empty digits = false /\ str_all is_digit digits = true /\
     Ttl.multiplier unit = Some m /\ parse_N digits = Some n /\
     Ttl.seconds ttl = (n * m)%N /\ (0 < n * m <= 86400)%N) /\
  (Ttl.parse text = Ok ttl -> Ttl.parse (Ttl.display ttl) = Ok ttl).
Proof.
  split; [apply Ttl.ttl_parse_Ok|]. intros Hw%Ttl.parse_wf. by apply Ttl.ttl_parse_display.
Qed.

