(* ===== verification/Toml.v ===== *)
(** Parsed documents as the loader walks them: the values and byte offsets of
    [toml::de], and the standard library's reading of integers in a radix. The
    parser that produces documents is a third-party crate and is a parameter of
    the loader. *)

From S2P Require Export Prelude Text.

(** * Documents *)

(** [toml::Spanned]: a value and where it starts, in bytes. *)
Module Spanned.
Record t (A : Type) : Type := Make { start : nat; get_ref : A }.
Arguments Make {A} start get_ref.
Arguments start {A} s : rename.
Arguments get_ref {A} s : rename.
End Spanned.

Module DeValue.
Inductive t : Type :=
| String (text : string)
| Integer (digits : string) (radix : N)
| Float (digits : string)
| Boolean (flag : bool)
| Datetime (text : string)
| Array (elements : list (Spanned.t t))
| Table (entries : list (Spanned.t string * Spanned.t t)).
End DeValue.

(** [DeTable]: the entries in the parser's order. *)
Abbreviation DeTable := (list (Spanned.t string * Spanned.t DeValue.t)).

(** [find]: a member of a table, by name. *)
Definition find (table : DeTable) (name : string) :
    option (Spanned.t string * Spanned.t DeValue.t) :=
  List.find (fun entry => String.eqb (Spanned.get_ref entry.1) name) table.

Definition keys (table : DeTable) : list string := (fun entry => Spanned.get_ref entry.1) <$> table.

(** * [from_str_radix] *)

(** [char::to_digit] of an ASCII byte. *)
Definition to_digit (radix : N) (a : ascii) : option N :=
  let value :=
    if is_digit a then Some (byte_of a - 48)%N
    else if is_lower a then Some (byte_of a - 87)%N
    else if is_upper a then Some (byte_of a - 55)%N
    else None in
  match value with
  | Some d => if (d <? radix)%N then Some d else None
  | None => None
  end.

(** The digits of an unsigned number, most significant first, as their exact
    value. The accumulator the library checks for overflow at each digit never
    decreases, so a final check is the same check. *)
Fixpoint radix_digits (radix value : N) (s : string) : option N :=
  match s with
  | EmptyString => Some value
  | String a rest =>
      match to_digit radix a with
      | Some d => radix_digits radix (value * radix + d) rest
      | None => None
      end
  end.

Definition strip_sign (sign : ascii) (s : string) : option string :=
  match s with
  | String a rest => if Ascii.eqb a sign then Some rest else None
  | EmptyString => None
  end.

Definition unsigned (radix : N) (s : string) : option N :=
  if is_empty s then None else radix_digits radix 0 s.

(** [u64::from_str_radix(..).ok()]. *)
Definition u64_from_str_radix (s : string) (radix : N) : option N :=
  let digits := match strip_sign "+" s with Some r => r | None => s end in
  n ← unsigned radix digits; if (n <=? U64_MAX)%N then Some n else None.

Definition I64_MIN : Z := -9223372036854775808.
Definition I64_MAX : Z := 9223372036854775807.

(** [i64::from_str_radix(..).ok()]. *)
Definition i64_from_str_radix (s : string) (radix : N) : option Z :=
  let '(negative, digits) :=
    match strip_sign "-" s with
    | Some r => (true, r)
    | None => (false, match strip_sign "+" s with Some r => r | None => s end)
    end in
  n ← unsigned radix digits;
  let z := if negative : bool then (- Z.of_N n)%Z else Z.of_N n in
  if ((I64_MIN <=? z) && (z <=? I64_MAX))%Z then Some z else None.

Lemma find_Some table name entry :
  find table name = Some entry -> entry ∈ table /\ Spanned.get_ref entry.1 = name.
Proof. intros [Hin E]%find_some. split; [by apply list_elem_of_In|by apply String.eqb_eq]. Qed.

Lemma find_None table name : find table name = None <-> (name ∉ keys table).
Proof.
  unfold keys. rewrite list_elem_of_fmap. split.
  - intros H (entry & -> & Hin). apply list_elem_of_In in Hin. eapply find_none in H; [|exact Hin].
    by rewrite String.eqb_refl in H.
  - intros Hn. destruct (find table name) as [e|] eqn:E; [|done].
    apply find_Some in E as [Hin E]. contradict Hn. by exists e.
Qed.
