(* ===== verification/Loader.v ===== *)
(** The strict loader ([policy/load.rs]): a walk over a parsed document that
    refuses every member, type and value the schema does not define. *)

From S2P Require Export Prelude Text PolicyContext PolicyValue Predicate.
From S2P Require Export Obligation Rule Compose Toml.

Definition SCHEMA_VERSION : N := 1.

Definition TOP_LEVEL : list string := ["schema_version"; "meta"; "rule"; "postcondition"].
Definition META : list string := ["name"; "extends"].
Definition RULE : list string :=
  ["id"; "effect"; "reason"; "when"; "unless"; "obligations"; "approval"].
Definition POSTCONDITION : list string := ["id"; "effect"; "reason"; "when"; "unless"].
Definition UNLESS : list string := ["config"; "standing_grant"].
Definition APPROVAL : list string := ["scope"; "ttl"; "max_uses"].

Definition APPROVAL_REQUIRED : string :=
  "a REQUIRE_APPROVAL rule must have an [approval] table giving scope, ttl and max_uses".
Definition APPROVAL_REFUSED : string :=
  "only a REQUIRE_APPROVAL rule may have an [approval] table".
Definition POSTCONDITION_WIDENS : string :=
  "a postcondition's effect must be narrower than or equal to every provisional effect it selects, under DENY < REQUIRE_APPROVAL < ALLOW".

(** [namespace.action], both halves from the closed vocabulary. *)
Definition parse_verb (text : string) : option Verb.t :=
  match str_split_once "." text with
  | None => None
  | Some (namespace, action) =>
      namespace ← Namespace.parse namespace; Verb.parse_action namespace action
  end.

(** The ids seen so far, with where each was. *)
Abbreviation Seen := (list (string * SourceLocation.t)).

(** Record a rule id, refusing a repeat; the new list is what [seen] becomes. *)
Definition remember_id (seen : Seen) (id : RuleId.t) (at_ : SourceLocation.t) :
    result Seen PolicyLoadError.t :=
  match List.find (fun entry => String.eqb entry.1 (RuleId.as_str id)) seen with
  | Some (_, first) => Err (PolicyLoadError.DuplicateRuleId at_ first (RuleId.as_str id))
  | None => Ok (seen ++ [(RuleId.as_str id, at_)])
  end.

(** * Where things are *)

(** [text.get(..offset)]. *)
Definition str_prefix (text : string) (offset : nat) : option string :=
  if (String.length text <? offset)%nat then None
  else
    match String.get offset text with
    | Some b => if is_continuation b then None else Some (String.substring 0 offset text)
    | None => Some text
    end.

Fixpoint count_newlines (s : string) : N :=
  match s with
  | EmptyString => 0
  | String a rest => (if Ascii.eqb a "010" then 1 else 0) + count_newlines rest
  end.

(** [Walker]. *)
Module Walker.
Record t : Set := Make { source_name : string; source_text : string; origin : SourceLocation.t }.

(** [u32::try_from(..).map_or(u32::MAX, |n| n.saturating_add(1))]. *)
Definition line_of (self : t) (offset : nat) : N :=
  let counted :=
    match str_prefix (source_text self) offset with
    | Some prefix => count_newlines prefix | None => 0%N end in
  if (counted <=? U32_MAX)%N then N.min (counted + 1) U32_MAX else U32_MAX.

(** The location of a span. *)
Definition at_ (self : t) (start : nat) : SourceLocation.t :=
  match SourceLocation.new (source_name self) (line_of self start) with
  | Some location => location
  | None => origin self
  end.
End Walker.

(** * Schema mechanics *)

Section walker.
  Context (self : Walker.t).

(** Where a spanned value is. *)
Definition at_value {A} (value : Spanned.t A) : SourceLocation.t :=
  Walker.at_ self (Spanned.start value).

Fixpoint reject_unknown (table : DeTable) (allowed : list string) (path : FieldPath.t) :
    result unit PolicyLoadError.t :=
  match table with
  | [] => Ok ()
  | (key, _) :: rest =>
      if negb (bool_decide (Spanned.get_ref key ∈ allowed))
      then Err (PolicyLoadError.UnknownField (at_value key)
                  (FieldPath.member path (Spanned.get_ref key)))
      else reject_unknown rest allowed path
  end.

Definition expect_table (value : Spanned.t DeValue.t) (field : FieldPath.t) :
    result DeTable PolicyLoadError.t :=
  match Spanned.get_ref value with
  | DeValue.Table table => Ok table
  | _ => Err (PolicyLoadError.TypeMismatch (at_value value) field Expected.Table)
  end.

Definition expect_array (value : Spanned.t DeValue.t) (field : FieldPath.t) :
    result (list (Spanned.t DeValue.t)) PolicyLoadError.t :=
  match Spanned.get_ref value with
  | DeValue.Array array => Ok array
  | _ => Err (PolicyLoadError.TypeMismatch (at_value value) field Expected.Array)
  end.

Definition optional_str (table : DeTable) (name : string) (path : FieldPath.t) :
    result (option (string * SourceLocation.t)) PolicyLoadError.t :=
  match find table name with
  | None => Ok None
  | Some (_, value) =>
      match Spanned.get_ref value with
      | DeValue.String text =>
          if (Limits.MAX_STRING_CHARS <? chars_count text)%nat
          then Err (PolicyLoadError.BadValue (at_value value) (FieldPath.member path name)
                      PolicyValueError.StringTooLong)
          else Ok (Some (text, at_value value))
      | _ => Err (PolicyLoadError.TypeMismatch (at_value value) (FieldPath.member path name)
                    Expected.String)
      end
  end.

Definition required_str (table : DeTable) (name : string) (path : FieldPath.t) :
    result (string * SourceLocation.t) PolicyLoadError.t :=
  let? found := optional_str table name path in
  ok_or found (PolicyLoadError.MissingField (Walker.origin self) (FieldPath.member path name)).

Definition optional_u64 (table : DeTable) (name : string) (path : FieldPath.t) :
    result (option (N * SourceLocation.t)) PolicyLoadError.t :=
  match find table name with
  | None => Ok None
  | Some (_, value) =>
      match Spanned.get_ref value with
      | DeValue.Integer digits radix =>
          let? parsed := ok_or (u64_from_str_radix digits radix)
            (PolicyLoadError.BadValue (at_value value) (FieldPath.member path name)
               PolicyValueError.NumericRange) in
          Ok (Some (parsed, at_value value))
      | _ => Err (PolicyLoadError.TypeMismatch (at_value value) (FieldPath.member path name)
                    Expected.Integer)
      end
  end.

Definition required_u64 (table : DeTable) (name : string) (path : FieldPath.t) :
    result (N * SourceLocation.t) PolicyLoadError.t :=
  let? found := optional_u64 table name path in
  ok_or found (PolicyLoadError.MissingField (Walker.origin self) (FieldPath.member path name)).

Definition optional_bool (table : DeTable) (name : string) (path : FieldPath.t) :
    result (option (bool * SourceLocation.t)) PolicyLoadError.t :=
  match find table name with
  | None => Ok None
  | Some (_, value) =>
      match Spanned.get_ref value with
      | DeValue.Boolean flag => Ok (Some (flag, at_value value))
      | _ => Err (PolicyLoadError.TypeMismatch (at_value value) (FieldPath.member path name)
                    Expected.Boolean)
      end
  end.

Definition bounded (text : string) (field : FieldPath.t) (at_ : SourceLocation.t) :
    result string PolicyLoadError.t :=
  if (Limits.MAX_STRING_CHARS <? chars_count text)%nat
  then Err (PolicyLoadError.BadValue at_ field PolicyValueError.StringTooLong)
  else Ok text.

(** The loop of [string_array]. *)
Fixpoint string_elements (array : list (Spanned.t DeValue.t)) (field : FieldPath.t)
    (expected : Expected.t) : result (list (string * SourceLocation.t)) PolicyLoadError.t :=
  match array with
  | [] => Ok []
  | element :: rest =>
      match Spanned.get_ref element with
      | DeValue.String text =>
          let? text := bounded text field (at_value element) in
          let? rest := string_elements rest field expected in
          Ok ((text, at_value element) :: rest)
      | _ => Err (PolicyLoadError.TypeMismatch (at_value element) field expected)
      end
  end.

Definition string_array (value : Spanned.t DeValue.t) (field : FieldPath.t)
    (expected : Expected.t) : result (list (string * SourceLocation.t)) PolicyLoadError.t :=
  match Spanned.get_ref value with
  | DeValue.Array array =>
      if (Limits.MAX_LIST_ITEMS <? length array)%nat
      then Err (PolicyLoadError.BadValue (at_value value) field PolicyValueError.TooManyListItems)
      else if ArgvAllowlist.is_nil array
      then Err (PolicyLoadError.BadValue (at_value value) field PolicyValueError.EmptyList)
      else string_elements array field expected
  | _ => Err (PolicyLoadError.TypeMismatch (at_value value) field expected)
  end.

(** The loop of [match_value] over a list's texts, after the values in [out]. *)
Fixpoint match_elements {T} `{EqDecision T} (parse : string -> result T PolicyValueError.t)
    (field : FieldPath.t) (texts : list (string * SourceLocation.t)) (out : list T) :
    result (list T) PolicyLoadError.t :=
  match texts with
  | [] => Ok out
  | (text, at_) :: rest =>
      let? parsed := map_err (PolicyLoadError.BadValue at_ field) (parse text) in
      if bool_decide (parsed ∈ out)
      then Err (PolicyLoadError.BadValue at_ field PolicyValueError.DuplicateListItem)
      else match_elements parse field rest (out ++ [parsed])
  end.

Definition match_value {T} `{EqDecision T} (table : DeTable) (name : string)
    (path : FieldPath.t) (parse : string -> result T PolicyValueError.t) :
    result (option (MatchValue.t T)) PolicyLoadError.t :=
  let field := FieldPath.member path name in
  match find table name with
  | None => Ok None
  | Some (_, value) =>
      match Spanned.get_ref value with
      | DeValue.String text =>
          let? text := bounded text field (at_value value) in
          let? parsed := map_err (PolicyLoadError.BadValue (at_value value) field) (parse text) in
          Ok (Some (MatchValue.Eq parsed))
      | _ =>
          let? texts := string_array value field Expected.StringOrArray in
          let? out := match_elements parse field texts [] in
          Ok (Some (MatchValue.In out))
      end
  end.

(** * Rules *)

Definition rule_id (table : DeTable) (field : FieldPath.t) : result RuleId.t PolicyLoadError.t :=
  let? (text, at_) := required_str table "id" field in
  ok_or (RuleId.new text)
    (PolicyLoadError.BadValue at_ (FieldPath.member field "id") PolicyValueError.MalformedRuleId).

Definition effect (table : DeTable) (field : FieldPath.t) : result Effect.t PolicyLoadError.t :=
  let? (text, at_) := required_str table "effect" field in
  ok_or (Effect.parse text)
    (PolicyLoadError.BadValue at_ (FieldPath.member field "effect")
       PolicyValueError.UnknownEffect).

Definition reason (table : DeTable) (field : FieldPath.t) (effect : Effect.t) :
    result Reason.t PolicyLoadError.t :=
  let member := FieldPath.member field "reason" in
  let? found := optional_str table "reason" field in
  match found with
  | Some (text, at_) =>
      let? reason := ok_or (Reason.parse text)
        (PolicyLoadError.BadValue at_ member PolicyValueError.UnknownReason) in
      if Reason.is_authorable reason then Ok reason
      else Err (PolicyLoadError.BadValue at_ member PolicyValueError.UnknownReason)
  | None =>
      match effect with
      | Effect.Allow => Ok Reason.PermittedByRule
      | _ => Err (PolicyLoadError.MissingField (Walker.origin self) member)
      end
  end.

(** The loop of [obligations]. *)
Fixpoint parse_obligations (texts : list (string * SourceLocation.t)) (member : FieldPath.t) :
    result (list Obligation.t) PolicyLoadError.t :=
  match texts with
  | [] => Ok []
  | (text, at_) :: rest =>
      let? parsed := map_err (PolicyLoadError.BadValue at_ member) (Obligation.parse text) in
      let? rest := parse_obligations rest member in
      Ok (parsed :: rest)
  end.

Definition obligations (table : DeTable) (field : FieldPath.t) :
    result Obligations.t PolicyLoadError.t :=
  let member := FieldPath.member field "obligations" in
  match find table "obligations" with
  | None => Ok Obligations.none
  | Some (_, value) =>
      let? texts := string_array value member Expected.Array in
      let? parsed := parse_obligations texts member in
      map_err (PolicyLoadError.BadValue (at_value value) member) (Obligations.new parsed)
  end.

Definition approval (table : DeTable) (field : FieldPath.t) (effect : Effect.t)
    (at_ : SourceLocation.t) : result (option ApprovalSpec.t) PolicyLoadError.t :=
  let member := FieldPath.member field "approval" in
  match find table "approval" with
  | None =>
      match effect with
      | Effect.RequireApproval => Err (PolicyLoadError.ApprovalSpecMismatch at_ APPROVAL_REQUIRED)
      | _ => Ok None
      end
  | Some (_, value) =>
      if negb (bool_decide (effect = Effect.RequireApproval))
      then Err (PolicyLoadError.ApprovalSpecMismatch (at_value value) APPROVAL_REFUSED)
      else
        let? table := expect_table value member in
        let? _ := reject_unknown table APPROVAL member in
        let? (scope, scope_at) := required_str table "scope" member in
        let? scope := ok_or (ApprovalScopeKind.parse scope)
          (PolicyLoadError.BadValue scope_at (FieldPath.member member "scope")
             PolicyValueError.UnknownApprovalScope) in
        let? (ttl, ttl_at) := required_str table "ttl" member in
        let? ttl := map_err (PolicyLoadError.BadValue ttl_at (FieldPath.member member "ttl"))
          (Ttl.parse ttl) in
        let? (uses, uses_at) := required_u64 table "max_uses" member in
        let? uses := map_err (fun _ => PolicyLoadError.BadValue uses_at
            (FieldPath.member member "max_uses") PolicyValueError.NumericRange)
          (try_from U32_MAX uses) in
        let? spec := map_err (PolicyLoadError.BadValue uses_at (FieldPath.member member "max_uses"))
          (ApprovalSpec.new scope ttl uses) in
        Ok (Some spec)
  end.

(** The members [when] may have: a primary rule may not select on the
    provisional effect. *)
Definition when_allowed (postcondition : bool) : list string :=
  PredicateName.as_str <$> List.filter (fun name =>
    match name with
    | PredicateName.UnlessConfig | PredicateName.UnlessStandingGrant => false
    | PredicateName.ProvisionalEffect => postcondition
    | _ => true
    end) PredicateName.ALL.

Definition when_ (table : DeTable) (field : FieldPath.t) (postcondition : bool) :
    result When.t PolicyLoadError.t :=
  let member := FieldPath.member field "when" in
  match find table "when" with
  | None => Ok When.default
  | Some (_, value) =>
      let? table := expect_table value member in
      let? _ := reject_unknown table (when_allowed postcondition) member in
      let? verb := match_value table "verb" member (fun text =>
        ok_or (parse_verb text) PolicyValueError.UnknownVerb) in
      let? path_under := match_value table "path_under" member RulePath.parse in
      let? max_bytes := optional_u64 table "max_bytes" member in
      let? executable_in := match_value table "executable_in" member ExecutableSpec.parse in
      let? argv_safe := optional_bool table "argv_safe" member in
      let? host_matches := match_value table "host_matches" member (fun text =>
        map_err (fun _ => PolicyValueError.MalformedHost) (HostPattern.parse text)) in
      let? ip_in := match_value table "ip_in" member Cidr.parse in
      let? destination_novel := optional_bool table "destination_novel" member in
      let? environment := match_value table "environment" member (fun text =>
        ok_or (Environment.parse text) PolicyValueError.UnknownEnvironment) in
      let? origin := match_value table "origin" member (fun text =>
        ok_or (Origin.parse text) PolicyValueError.UnknownOrigin) in
      let? taint_level := match_value table "taint_level" member (fun text =>
        ok_or (TaintLevel.parse text) PolicyValueError.UnknownTaintLevel) in
      let? privacy_class := match_value table "privacy_class" member (fun text =>
        ok_or (PrivacyClass.parse text) PolicyValueError.UnknownPrivacyClass) in
      let? provisional_effect := match_value table "provisional_effect" member (fun text =>
        ok_or (Effect.parse text) PolicyValueError.UnknownEffect) in
      Ok (When.Make verb path_under (fst <$> max_bytes) executable_in
        ((fun found => ArgvSafety.from_rule_flag found.1) <$> argv_safe) host_matches ip_in
        ((fun found => Novelty.from_rule_flag found.1) <$> destination_novel)
        environment origin taint_level privacy_class provisional_effect)
  end.

Definition unless_ (table : DeTable) (field : FieldPath.t) : result Unless.t PolicyLoadError.t :=
  let member := FieldPath.member field "unless" in
  match find table "unless" with
  | None => Ok Unless.default
  | Some (_, value) =>
      let? table := expect_table value member in
      let? _ := reject_unknown table UNLESS member in
      let? found := optional_str table "config" member in
      let? config :=
        match found with
        | None => Ok None
        | Some (text, at_) =>
            let? key := ok_or (ConfigKey.parse text)
              (PolicyLoadError.BadValue at_ (FieldPath.member member "config")
                 PolicyValueError.UnknownConfigKey) in
            Ok (Some key)
        end in
      let? standing_grant := optional_bool table "standing_grant" member in
      Ok (Unless.Make config (fst <$> standing_grant))
  end.

(** * Cross-field rules *)

Fixpoint applicable (names : list PredicateName.t) (when_ : When.t) (field : FieldPath.t)
    (at_ : SourceLocation.t) : result unit PolicyLoadError.t :=
  match names with
  | [] => Ok ()
  | name :: rest =>
      if forallb (PredicateName.applies_to name) Verb.ALL then applicable rest when_ field at_
      else
        let path := FieldPath.member (FieldPath.member field "when") (PredicateName.as_str name) in
        match When.verb when_ with
        | None => Err (PolicyLoadError.PredicateNeedsVerbs at_ path)
        | Some verbs =>
            if negb (MatchValue.any verbs (PredicateName.applies_to name))
            then Err (PolicyLoadError.PredicateNotApplicable at_ path (PredicateName.requires name))
            else applicable rest when_ field at_
        end
  end.

Definition check_applicability (when_ : When.t) (unless_ : Unless.t) (field : FieldPath.t)
    (at_ : SourceLocation.t) : result unit PolicyLoadError.t :=
  applicable (When.present when_ ++ Unless.present unless_) when_ field at_.

(** [enumerate().filter(is_default)]. *)
Fixpoint defaults_from (index : nat) (rules : list Rule.t) : list (nat * Rule.t) :=
  match rules with
  | [] => []
  | rule :: rest =>
      if Rule.is_default rule then (index, rule) :: defaults_from (S index) rest
      else defaults_from (S index) rest
  end.

Definition check_default (rules : list Rule.t) (extending : bool) :
    result unit PolicyLoadError.t :=
  let defaults := defaults_from 0 rules in
  if extending then
    match defaults with
    | (_, rule) :: _ => Err (PolicyLoadError.ExtendsRedeclaresDefault (Rule.source rule))
    | [] => Ok ()
    end
  else
    match defaults with
    | [] => Err (PolicyLoadError.DefaultRuleMissing (Walker.origin self))
    | (index, rule) :: _ =>
        if (1 <? length defaults)%nat
        then Err (PolicyLoadError.DuplicateRuleId (Rule.source rule) (Rule.source rule)
                    RuleId.DEFAULT)
        else
          let following := length rules - index - 1 in
          if (0 <? following)%nat
          then Err (PolicyLoadError.DefaultRuleNotLast (Rule.source rule) following)
          else if negb (bool_decide (Rule.effect rule = Effect.Deny))
          then Err (PolicyLoadError.DefaultRuleNotDeny (Rule.source rule))
          else if negb (When.is_empty (Rule.when rule)) || negb (Unless.is_empty (Rule.unless rule))
          then Err (PolicyLoadError.DefaultRuleConditional (Rule.source rule))
          else Ok ()
    end.

(** * Documents *)

Definition rule (table : DeTable) (field : FieldPath.t) (at_ : SourceLocation.t) :
    result Rule.t PolicyLoadError.t :=
  let? id := rule_id table field in
  let? effect := effect table field in
  let? when_ := when_ table field false in
  let? unless_ := unless_ table field in
  let? reason := reason table field effect in
  let? obligations := obligations table field in
  let? approval := approval table field effect at_ in
  let? _ := check_applicability when_ unless_ field at_ in
  Ok (Rule.Make id at_ effect reason when_ unless_ obligations approval).

(** The loop of [rules], from the given index, with the ids seen. *)
Fixpoint rules_from (index : N) (elements : list (Spanned.t DeValue.t)) (field : FieldPath.t)
    (seen : Seen) : result (list Rule.t) PolicyLoadError.t :=
  match elements with
  | [] => Ok []
  | element :: rest =>
      let here := FieldPath.index field index in
      let at_ := at_value element in
      let? table := expect_table element here in
      let? _ := reject_unknown table RULE here in
      let? one := rule table here at_ in
      let? seen := remember_id seen (Rule.id one) at_ in
      let? others := rules_from (index + 1) rest field seen in
      Ok (one :: others)
  end.

Definition rules (document : DeTable) (path : FieldPath.t) (extending : bool) :
    result (list Rule.t) PolicyLoadError.t :=
  let field := FieldPath.member path "rule" in
  match find document "rule" with
  | None =>
      if extending then Ok []
      else Err (PolicyLoadError.DefaultRuleMissing (Walker.origin self))
  | Some (_, value) =>
      let? array := expect_array value field in
      if (Limits.MAX_RULES <? length array)%nat
      then Err (PolicyLoadError.TooManyRules (at_value value) (length array) Limits.MAX_RULES)
      else
        let? rules := rules_from 0 array field [] in
        let? _ := check_default rules extending in
        Ok rules
  end.

(** One [postcondition]; the id is recorded by the caller's loop. *)
Definition postcondition (table : DeTable) (field : FieldPath.t) (at_ : SourceLocation.t) :
    result Postcondition.t PolicyLoadError.t :=
  let? id := rule_id table field in
  if RuleId.is_default id
  then Err (PolicyLoadError.BadValue at_ (FieldPath.member field "id")
              PolicyValueError.MalformedRuleId)
  else
    let? effect := effect table field in
    let? when_ := when_ table field true in
    let? unless_ := unless_ table field in
    let? reason := reason table field effect in
    let? _ := check_applicability when_ unless_ field at_ in
    let post := Postcondition.Make id at_ effect reason when_ unless_ in
    if negb (Postcondition.narrows post)
    then Err (PolicyLoadError.WideningExtension at_ (RuleId.as_str id) POSTCONDITION_WIDENS)
    else Ok post.

(** The loop of [postconditions]. *)
Fixpoint postconditions_from (index : N) (elements : list (Spanned.t DeValue.t))
    (field : FieldPath.t) (seen : Seen) : result (list Postcondition.t) PolicyLoadError.t :=
  match elements with
  | [] => Ok []
  | element :: rest =>
      let here := FieldPath.index field index in
      let at_ := at_value element in
      let? table := expect_table element here in
      let? _ := reject_unknown table POSTCONDITION here in
      let? post := postcondition table here at_ in
      let? seen := remember_id seen (Postcondition.id post) at_ in
      let? others := postconditions_from (index + 1) rest field seen in
      Ok (post :: others)
  end.

(** The ids of the rules, which share one namespace with the postconditions. *)
Definition seen_rules (rules : list Rule.t) : Seen :=
  (fun rule => (RuleId.as_str (Rule.id rule), Rule.source rule)) <$> rules.

Definition postconditions (document : DeTable) (path : FieldPath.t) (rules : list Rule.t) :
    result (list Postcondition.t) PolicyLoadError.t :=
  let field := FieldPath.member path "postcondition" in
  match find document "postcondition" with
  | None => Ok []
  | Some (_, value) =>
      let? array := expect_array value field in
      if (Limits.MAX_POSTCONDITIONS <? length array)%nat
      then Err (PolicyLoadError.TooManyRules (at_value value) (length array)
                  Limits.MAX_POSTCONDITIONS)
      else postconditions_from 0 array field (seen_rules rules)
  end.

Definition schema_version (document : DeTable) (path : FieldPath.t) :
    result unit PolicyLoadError.t :=
  let field := FieldPath.member path "schema_version" in
  match find document "schema_version" with
  | None => Err (PolicyLoadError.SchemaVersionMissing (Walker.origin self))
  | Some (_, value) =>
      match Spanned.get_ref value with
      | DeValue.Integer digits radix =>
          let found :=
            match i64_from_str_radix digits radix with Some z => z | None => I64_MIN end in
          if negb (found =? Z.of_N SCHEMA_VERSION)%Z
          then Err (PolicyLoadError.SchemaVersionUnsupported (at_value value) found SCHEMA_VERSION)
          else Ok ()
      | _ => Err (PolicyLoadError.TypeMismatch (at_value value) field Expected.Integer)
      end
  end.

Definition meta (document : DeTable) (path : FieldPath.t) :
    result (ProfileName.t * option ProfileName.t) PolicyLoadError.t :=
  let field := FieldPath.member path "meta" in
  match find document "meta" with
  | None => Err (PolicyLoadError.MissingField (Walker.origin self) field)
  | Some (_, value) =>
      let? table := expect_table value field in
      let? _ := reject_unknown table META field in
      let? (text, at_) := required_str table "name" field in
      let? name := map_err (PolicyLoadError.BadValue at_ (FieldPath.member field "name"))
        (ProfileName.new text) in
      let? found := optional_str table "extends" field in
      match found with
      | None => Ok (name, None)
      | Some (text, at_) =>
          let? parent := map_err (PolicyLoadError.BadValue at_ (FieldPath.member field "extends"))
            (ProfileName.new text) in
          Ok (name, Some parent)
      end
  end.

(** [Walker::profile]. *)
Definition profile (document : DeTable) : result Profile.t PolicyLoadError.t :=
  let root := FieldPath.root in
  let? _ := reject_unknown document TOP_LEVEL root in
  let? _ := schema_version document root in
  let? (name, extends) := meta document root in
  let? rules := rules document root (is_some extends) in
  let? postconditions := postconditions document root rules in
  Ok (Profile.Make name (Walker.origin self) extends rules postconditions).
End walker.

(** [load], given the parser: [DeTable::parse], whose error carries a message
    and, when it knows it, where. *)
Definition load (parse : string -> result DeTable (option nat * string))
    (source_name source_text : string) : result Profile.t PolicyLoadError.t :=
  if (Limits.MAX_SOURCE_BYTES <? N.of_nat (String.length source_text))%N
  then Err (PolicyLoadError.SourceTooLarge (N.of_nat (String.length source_text))
              Limits.MAX_SOURCE_BYTES)
  else
    let? origin := ok_or (SourceLocation.new source_name 1) PolicyLoadError.SourceNameInvalid in
    let walker := Walker.Make source_name source_text origin in
    let? document := map_err (fun '(span, message) =>
      PolicyLoadError.Syntax
        (match span with Some start => Walker.at_ walker start | None => origin end) message)
      (parse source_text) in
    profile walker document.
