(* ===== verification/LoaderFacts.v ===== *)
(** What a successful load guarantees, one lemma per step of the walk. *)

From S2P Require Export Prelude Text PolicyValue Predicate Obligation.
From S2P Require Export Rule Compose Toml Loader.

(** Peel the first [let?] of a computation that ended in [Ok]. *)
Ltac peel H :=
  match type of H with
  | match ?c with _ => _ end = Ok _ =>
      let E := fresh "E" in destruct c eqn:E in H; [|discriminate H]
  end.

(** * Tables *)

Lemma reject_unknown_Ok w table allowed path u :
  reject_unknown w table allowed path = Ok u <-> Forall (fun k => k ∈ allowed) (keys table).
Proof.
  destruct u. induction table as [|[k v] table IH]; [by split|].
  unfold keys in *. rewrite fmap_cons, Forall_cons, <- IH. simpl.
  case_bool_decide as Hk; simpl; [by split; [|intros [_ ?]]|]. by split; [|intros [? _]].
Qed.

(** A member outside the allowed list is nowhere in an accepted table. *)
Lemma reject_unknown_find w table allowed path u name :
  reject_unknown w table allowed path = Ok u -> (name ∉ allowed) -> find table name = None.
Proof.
  intros H%reject_unknown_Ok Hn. apply find_None. intros Hin. apply Hn.
  rewrite Forall_forall in H. by apply H.
Qed.

Lemma expect_table_Ok w value field table :
  expect_table w value field = Ok table <-> Spanned.get_ref value = DeValue.Table table.
Proof.
  unfold expect_table. destruct (Spanned.get_ref value); split; intros H; simplify_eq; done.
Qed.

Lemma expect_array_Ok w value field array :
  expect_array w value field = Ok array <-> Spanned.get_ref value = DeValue.Array array.
Proof.
  unfold expect_array. destruct (Spanned.get_ref value); split; intros H; simplify_eq; done.
Qed.

(** * Values *)

Lemma bounded_Ok text field at_ text' :
  bounded text field at_ = Ok text' <->
  text' = text /\ chars_count text <= Limits.MAX_STRING_CHARS.
Proof.
  unfold bounded. destruct (Nat.ltb_spec Limits.MAX_STRING_CHARS (chars_count text)).
  - split; [done|]. intros [_ ?]. lia.
  - split; [by intros [= <-]|by intros [-> _]].
Qed.

(** The strings of an array that holds nothing else. *)
Lemma string_elements_Ok w array field expected texts :
  string_elements w array field expected = Ok texts <->
  exists strings, (Spanned.get_ref <$> array) = (DeValue.String <$> strings) /\
    Forall (fun text => chars_count text <= Limits.MAX_STRING_CHARS) strings /\
    texts = zip strings (at_value w <$> array).
Proof.
  revert texts; induction array as [|e array IH]; intros texts; simpl.
  { split.
    - intros [= <-]. by exists [].
    - intros (strings & E & _ & ->). by destruct strings. }
  split.
  - destruct (Spanned.get_ref e) as [text| | | | | |] eqn:Ee; try done.
    intros H. peel H. apply bounded_Ok in E as [-> Hb]. peel H. injection H as <-.
    apply IH in E as (strings & Es & Hs & ->). exists (text :: strings). simpl.
    split_and!; [by f_equal|by constructor|done].
  - intros (strings & Es & Hs & ->). destruct strings as [|text strings]; [done|].
    simpl in Es. injection Es as Ee Es. rewrite Ee. apply Forall_cons in Hs as [Hb Hs].
    rewrite (proj2 (bounded_Ok text field (at_value w e) text)) by done.
    rewrite (proj2 (IH (zip strings (at_value w <$> array)))) by (by exists strings). done.
Qed.

Lemma string_array_Ok w value field expected texts :
  string_array w value field expected = Ok texts <->
  exists array, Spanned.get_ref value = DeValue.Array array /\
    0 < length array <= Limits.MAX_LIST_ITEMS /\
    string_elements w array field expected = Ok texts.
Proof.
  unfold string_array. destruct (Spanned.get_ref value) as [| | | | |array|] eqn:Ev.
  1-5,7: split; [done|by intros (? & [=] & _)].
  destruct (Nat.ltb_spec Limits.MAX_LIST_ITEMS (length array)).
  { split; [done|]. intros (a & [= <-] & ? & _). lia. }
  destruct array as [|e array]; simpl.
  { split; [done|]. intros (a & [= <-] & [? _] & _). simpl in *. lia. }
  split; [intros Hs; exists (e :: array); split_and!; [done|simpl; lia|done|done]|].
  by intros (a & [= <-] & _ & ?).
Qed.

(** * Match values *)

Lemma match_elements_Ok {T} `{EqDecision T} (parse : string -> result T PolicyValueError.t)
    field texts out xs :
  NoDup out ->
  match_elements parse field texts out = Ok xs <->
  exists parsed, xs = out ++ parsed /\ Forall2 (fun t x => parse t.1 = Ok x) texts parsed /\
    NoDup xs.
Proof.
  revert out; induction texts as [|[text at_] texts IH]; intros out Hnd; simpl.
  { split.
    - intros [= <-]. exists []. rewrite app_nil_r. by split_and!.
    - intros (parsed & -> & Hp & _). apply Forall2_nil_inv_l in Hp as ->. by rewrite app_nil_r. }
  destruct (parse text) as [x|e] eqn:Ep; simpl.
  - case_bool_decide as Hin.
    + split; [done|]. intros (parsed & -> & Hp & Hnd').
      apply Forall2_cons_inv_l in Hp as (y & ys & Hy & _ & ->). simpl in Hy.
      assert (x = y) as <- by congruence. apply NoDup_app in Hnd' as (_ & Hd & _).
      exfalso. apply (Hd x Hin). apply elem_of_cons. by left.
    + rewrite IH.
      2: { apply NoDup_app. split_and!; [done| |apply NoDup_singleton].
           intros y Hy ->%list_elem_of_singleton. done. }
      split.
      * intros (parsed & -> & Hp & Hnd'). exists (x :: parsed). rewrite <- app_assoc.
        rewrite <- app_assoc in Hnd'. split_and!; [done|by constructor|done].
      * intros (parsed & -> & Hp & Hnd').
        apply Forall2_cons_inv_l in Hp as (y & ys & Hy & Hys & ->). simpl in Hy.
        assert (x = y) as <- by congruence. exists ys. by rewrite <- app_assoc.
  - split; [done|]. intros (parsed & _ & Hp & _).
    apply Forall2_cons_inv_l in Hp as (y & ys & Hy & _). simpl in Hy. congruence.
Qed.

(** What a document's value means for a match predicate. *)
Definition match_reading {T} `{EqDecision T} (parse : string -> result T PolicyValueError.t)
    (value : DeValue.t) (m : MatchValue.t T) : Prop :=
  match value with
  | DeValue.String text =>
      chars_count text <= Limits.MAX_STRING_CHARS /\
      exists x, parse text = Ok x /\ m = MatchValue.Eq x
  | DeValue.Array array =>
      0 < length array <= Limits.MAX_LIST_ITEMS /\
      exists strings xs, (Spanned.get_ref <$> array) = (DeValue.String <$> strings) /\
        Forall (fun text => chars_count text <= Limits.MAX_STRING_CHARS) strings /\
        Forall2 (fun text x => parse text = Ok x) strings xs /\ NoDup xs /\ m = MatchValue.In xs
  | _ => False
  end.

Lemma zip_fst {A B} (l : list A) (k : list B) : length l = length k -> (zip l k).*1 = l.
Proof. intros H. apply fst_zip. lia. Qed.

Lemma Forall2_fst {A B C} (P : A -> B -> Prop) (l : list (A * C)) (k : list B) :
  Forall2 (fun t x => P t.1 x) l k <-> Forall2 P l.*1 k.
Proof. by rewrite Forall2_fmap_l. Qed.

Lemma match_texts_Ok {T} `{EqDecision T} (parse : string -> result T PolicyValueError.t)
    w value field m :
  (let? texts := string_array w value field Expected.StringOrArray in
   let? out := match_elements parse field texts [] in
   Ok (Some (MatchValue.In out))) = Ok (Some m) <->
  exists array, Spanned.get_ref value = DeValue.Array array /\
    match_reading parse (DeValue.Array array) m.
Proof.
  split.
  - intros H. peel H. peel H. injection H as <-. apply string_array_Ok in E as (array & Ev & Hl & E).
    exists array. split; [done|]. split; [done|].
    apply string_elements_Ok in E as (strings & Es & Hb & ->).
    apply match_elements_Ok in E0 as (parsed & -> & Hp & Hnd); [|constructor].
    exists strings, parsed. split_and!; [done..| |done|done].
    apply (Forall2_fst (fun text x => parse text = Ok x)) in Hp. rewrite zip_fst in Hp; [done|].
    apply (f_equal length) in Es. rewrite !length_fmap in Es. by rewrite length_fmap.
  - intros (array & Ev & Hl & strings & xs & Es & Hb & Hp & Hnd & ->).
    rewrite (proj2 (string_array_Ok w value field _ (zip strings (at_value w <$> array)))).
    2: { exists array. split_and!; [done|lia|lia|]. apply string_elements_Ok. by exists strings. }
    rewrite (proj2 (match_elements_Ok parse field _ [] xs (NoDup_nil_2))); [done|].
    exists xs. split_and!; [done| |done]. apply (Forall2_fst (fun text x => parse text = Ok x)). rewrite zip_fst; [done|].
    apply (f_equal length) in Es. rewrite !length_fmap in Es. by rewrite length_fmap.
Qed.

Lemma match_value_Ok {T} `{EqDecision T} (parse : string -> result T PolicyValueError.t)
    w table name path o :
  match_value w table name path parse = Ok o <->
  match find table name with
  | None => o = None
  | Some (_, value) => exists m, o = Some m /\ match_reading parse (Spanned.get_ref value) m
  end.
Proof.
  unfold match_value. destruct (find table name) as [[k value]|]; [|split; congruence].
  destruct (Spanned.get_ref value) as [text| | | | |array|] eqn:Ev.
  { simpl. split.
    - intros H. peel H. apply bounded_Ok in E as [-> Hb]. peel H. apply map_err_Ok in E.
      injection H as <-. eauto 10.
    - intros (m & -> & Hb & x & Hx & ->).
      rewrite (proj2 (bounded_Ok _ _ _ text)) by done. by rewrite Hx. }
  5: { split.
       - intros H. pose proof H as H'. peel H'. peel H'. injection H' as <-. eexists. split; [done|].
         apply match_texts_Ok in H as (array' & Ea & Hm). rewrite Ev in Ea. by injection Ea as <-.
       - intros (m & -> & Hm). apply match_texts_Ok. by exists array. }
  all: split; [|by intros (m & _ & [])]; unfold string_array; by rewrite Ev.
Qed.

(** * Closed tables *)

(** A value that is a table of known members. *)
Definition closed_table (allowed : list string) (value : DeValue.t) : Prop :=
  exists table, value = DeValue.Table table /\ Forall (fun k => k ∈ allowed) (keys table).

(** A member that, where present, is one. *)
Definition closed_member (table : DeTable) (name : string) (allowed : list string) : Prop :=
  forall k value, find table name = Some (k, value) -> closed_table allowed (Spanned.get_ref value).

(** A rule's element, or a postcondition's, with all that is in it. *)
Definition closed_rule (allowed when_members : list string) (value : DeValue.t) : Prop :=
  exists table, value = DeValue.Table table /\ Forall (fun k => k ∈ allowed) (keys table) /\
    closed_member table "when" when_members /\ closed_member table "unless" UNLESS /\
    ("approval"%string ∈ allowed -> closed_member table "approval" APPROVAL).

(** A member a walk accepted through [expect_table] and [reject_unknown]. *)
Lemma closed_member_walk {A} w (table : DeTable) name field allowed (missing : result A PolicyLoadError.t)
    (k : DeTable -> result A PolicyLoadError.t) x :
  (match find table name with
   | None => missing
   | Some (_, value) =>
       let? inner := expect_table w value field in
       let? _ := reject_unknown w inner allowed field in k inner
   end) = Ok x ->
  closed_member table name allowed.
Proof.
  intros H key value Hf. rewrite Hf in H. peel H. peel H.
  apply expect_table_Ok in E. apply reject_unknown_Ok in E0. by exists a.
Qed.

Lemma when_closed w table field post x :
  when_ w table field post = Ok x -> closed_member table "when" (when_allowed post).
Proof. exact (closed_member_walk w table _ _ _ _ _ _). Qed.

Lemma unless_closed w table field x :
  unless_ w table field = Ok x -> closed_member table "unless" UNLESS.
Proof. exact (closed_member_walk w table _ _ _ _ _ _). Qed.

Lemma approval_closed w table field e at_ x :
  approval w table field e at_ = Ok x -> closed_member table "approval" APPROVAL.
Proof.
  unfold approval. intros H k value Hf. rewrite Hf in H. case_bool_decide; [|done].
  simpl in H. peel H. peel H. apply expect_table_Ok in E. apply reject_unknown_Ok in E0.
  by exists a.
Qed.

(** * Rules *)

(** A primary rule cannot select on the provisional effect. *)
Lemma when_primary w table field x :
  when_ w table field false = Ok x -> When.provisional_effect x = None.
Proof.
  unfold when_. destruct (find table "when") as [[k value]|]; [|by intros [= <-]].
  intros H. peel H. peel H. pose proof E0 as Hun. do 12 peel H.
  destruct (match_value _ _ "provisional_effect" _ _) as [pe|] eqn:Ep in H; [|done].
  injection H as <-. simpl.
  apply (reject_unknown_find _ _ _ _ _ "provisional_effect") in Hun.
  - apply match_value_Ok in Ep. by rewrite Hun in Ep.
  - by apply (bool_decide_unpack _); vm_compute.
Qed.

(** A reason is the author's own, or the one reserved for permissions. *)
Lemma reason_Ok w table field e r :
  reason w table field e = Ok r ->
  Reason.is_authorable r = true \/ (r = Reason.PermittedByRule /\ e = Effect.Allow).
Proof.
  unfold reason. intros H. peel H. destruct a as [[text at_]|].
  - peel H. destruct (Reason.is_authorable a) eqn:Ha; [|done]. injection H as <-. by left.
  - destruct e; [injection H as <-; by right|done..].
Qed.

(** An approval shape is present exactly on a rule that requires approval. *)
Lemma approval_Ok w table field e at_ a :
  approval w table field e at_ = Ok a -> is_some a = bool_decide (e = Effect.RequireApproval).
Proof.
  unfold approval. destruct (find table "approval") as [[k value]|].
  - case_bool_decide; simpl; [|done]. intros H'.
    repeat (case_match; try done). by injection H' as <-.
  - destruct e; intros [= <-]; done.
Qed.

Lemma obligations_Ok w table field o :
  obligations w table field = Ok o ->
  length (Obligations.as_slice o) <= Limits.MAX_OBLIGATIONS_PER_RULE /\
  NoDup (Obligation.name <$> Obligations.as_slice o).
Proof.
  unfold obligations. destruct (find table "obligations") as [[k value]|].
  - intros H. peel H. peel H. apply map_err_Ok, Obligations.obligations_new_Ok in H as (Hl & Hn & ->).
    simpl. by rewrite sort_perm.
  - intros [= <-]. split; [simpl; lia|constructor].
Qed.

(** What a loaded rule, and a loaded postcondition, is. *)
Definition rule_loaded (r : Rule.t) : Prop :=
  When.provisional_effect (Rule.when r) = None /\
  is_some (Rule.approval r) = bool_decide (Rule.effect r = Effect.RequireApproval) /\
  (Reason.is_authorable (Rule.reason r) = true \/
   (Rule.reason r = Reason.PermittedByRule /\ Rule.effect r = Effect.Allow)) /\
  length (Obligations.as_slice (Rule.obligations r)) <= Limits.MAX_OBLIGATIONS_PER_RULE /\
  NoDup (Obligation.name <$> Obligations.as_slice (Rule.obligations r)).

Definition post_loaded (p : Postcondition.t) : Prop :=
  Postcondition.narrows p = true /\ RuleId.is_default (Postcondition.id p) = false /\
  (Reason.is_authorable (Postcondition.reason p) = true \/
   (Postcondition.reason p = Reason.PermittedByRule /\ Postcondition.effect p = Effect.Allow)).

Lemma rule_Ok w table field at_ r :
  rule w table field at_ = Ok r ->
  rule_loaded r /\ Rule.source r = at_ /\
  closed_member table "when" (when_allowed false) /\ closed_member table "unless" UNLESS /\
  closed_member table "approval" APPROVAL.
Proof.
  unfold rule. intros H. do 8 peel H. injection H as <-.
  split; [|split_and!; [done|by eapply when_closed|by eapply unless_closed|by eapply approval_closed]].
  split_and!; simpl; [by eapply when_primary|by eapply approval_Ok|by eapply reason_Ok| |];
    by eapply obligations_Ok.
Qed.

Lemma postcondition_Ok w table field at_ p :
  postcondition w table field at_ = Ok p ->
  post_loaded p /\ closed_member table "when" (when_allowed true) /\
  closed_member table "unless" UNLESS.
Proof.
  unfold postcondition. intros H. peel H.
  destruct (RuleId.is_default a) eqn:Hd; [done|]. do 5 peel H.
  destruct (Postcondition.narrows _) eqn:Hn; [|done]. injection H as <-.
  split; [split_and!; [done|done|by eapply reason_Ok]|].
  split; [by eapply when_closed|by eapply unless_closed].
Qed.

(** * Identifiers *)

Lemma remember_id_Ok seen id at_ seen' :
  remember_id seen id at_ = Ok seen' <->
  seen' = seen ++ [(RuleId.as_str id, at_)] /\ (RuleId.as_str id ∉ seen.*1).
Proof.
  unfold remember_id. destruct (List.find _ seen) as [[name first]|] eqn:E.
  - split; [done|]. intros [_ Hn]. apply find_some in E as [Hin E].
    apply String.eqb_eq in E. simpl in E. subst name. contradict Hn.
    apply list_elem_of_fmap. exists (RuleId.as_str id, first). split; [done|by apply list_elem_of_In].
  - split; [intros [= <-]|by intros [-> _]]. split; [done|].
    intros ([name a] & Heq & Hin)%list_elem_of_fmap. simpl in Heq.
    apply list_elem_of_In in Hin. eapply find_none in E; [|exact Hin]. simpl in E.
    by rewrite Heq, String.eqb_refl in E.
Qed.

Lemma remember_id_NoDup seen id at_ seen' :
  remember_id seen id at_ = Ok seen' -> NoDup seen.*1 ->
  seen'.*1 = seen.*1 ++ [RuleId.as_str id] /\ NoDup seen'.*1.
Proof.
  intros [-> Hn]%remember_id_Ok Hnd. rewrite fmap_app. simpl. split; [done|].
  apply NoDup_app. split_and!; [done| |apply NoDup_singleton].
  intros x Hx ->%list_elem_of_singleton. done.
Qed.

(** * Lists of rules *)

Definition rule_ids (rules : list Rule.t) : list string :=
  (fun r => RuleId.as_str (Rule.id r)) <$> rules.

Definition post_ids (posts : list Postcondition.t) : list string :=
  (fun p => RuleId.as_str (Postcondition.id p)) <$> posts.

Lemma rules_from_Ok w index elements field seen rules :
  rules_from w index elements field seen = Ok rules -> NoDup seen.*1 ->
  length rules = length elements /\ Forall rule_loaded rules /\
  NoDup (seen.*1 ++ rule_ids rules) /\
  Forall (fun e => closed_rule RULE (when_allowed false) (Spanned.get_ref e)) elements.
Proof.
  revert index seen rules; induction elements as [|e elements IH]; intros index seen rs H Hnd.
  { injection H as <-. rewrite app_nil_r. split_and!; [done|constructor|done|constructor]. }
  simpl in H. do 5 peel H. injection H as <-.
  apply expect_table_Ok in E. apply reject_unknown_Ok in E0. apply rule_Ok in E1 as (Hr & _ & Hcl).
  destruct (remember_id_NoDup _ _ _ _ E2 Hnd) as [Hs Hnd'].
  apply IH in E3 as (Hl & Hf & Hn & Hc); [|done].
  rewrite Hs, <- app_assoc in Hn. split_and!; [by f_equal/=|by constructor|done|].
  constructor; [exists a; split_and!; by destruct_and?|done].
Qed.

Lemma postconditions_from_Ok w index elements field seen posts :
  postconditions_from w index elements field seen = Ok posts -> NoDup seen.*1 ->
  length posts = length elements /\ Forall post_loaded posts /\
  NoDup (seen.*1 ++ post_ids posts) /\
  Forall (fun e => closed_rule POSTCONDITION (when_allowed true) (Spanned.get_ref e)) elements.
Proof.
  revert index seen posts; induction elements as [|e elements IH]; intros index seen ps H Hnd.
  { injection H as <-. rewrite app_nil_r. split_and!; [done|constructor|done|constructor]. }
  simpl in H. do 5 peel H. injection H as <-.
  apply expect_table_Ok in E. apply reject_unknown_Ok in E0. apply postcondition_Ok in E1 as (Hp & Hcl).
  destruct (remember_id_NoDup _ _ _ _ E2 Hnd) as [Hs Hnd'].
  apply IH in E3 as (Hl & Hf & Hn & Hc); [|done].
  rewrite Hs, <- app_assoc in Hn. split_and!; [by f_equal/=|by constructor|done|].
  constructor; [|done]. exists a. split_and!; [by destruct_and?..|].
  intros Hin. exfalso. revert Hin. apply (bool_decide_unpack _). vm_compute. exact I.
Qed.

(** ** The default *)

Lemma defaults_from_nil i rules :
  defaults_from i rules = [] <-> Forall (fun r => Rule.is_default r = false) rules.
Proof.
  revert i; induction rules as [|r rules IH]; intros i; simpl; [by split|].
  rewrite Forall_cons, <- (IH (S i)). destruct (Rule.is_default r); [|by split; [|intros [_ ?]]].
  split; [done|]. by intros [? _].
Qed.

Lemma defaults_from_cons i rules index d rest :
  defaults_from i rules = (index, d) :: rest ->
  exists before after, rules = before ++ d :: after /\ index = i + length before /\
    Rule.is_default d = true /\ Forall (fun r => Rule.is_default r = false) before.
Proof.
  revert i; induction rules as [|r rules IH]; intros i; simpl; [done|].
  destruct (Rule.is_default r) eqn:Hr.
  - intros [= <- <- _]. exists [], rules. simpl. split_and!; [done|lia|done|constructor].
  - intros H. apply IH in H as (b & a & -> & -> & Hd & Hb). exists (r :: b), a. simpl.
    split_and!; [done|lia|done|by constructor].
Qed.

(** The one rule a root profile ends in. *)
Definition ends_in_default (rules : list Rule.t) : Prop :=
  exists before d, rules = before ++ [d] /\ Rule.is_default d = true /\
    Rule.effect d = Effect.Deny /\ When.is_empty (Rule.when d) = true /\
    Unless.is_empty (Rule.unless d) = true /\
    Forall (fun r => Rule.is_default r = false) before.

Lemma check_default_Ok w rules extending u :
  check_default w rules extending = Ok u ->
  if extending : bool then Forall (fun r => Rule.is_default r = false) rules
  else ends_in_default rules.
Proof.
  unfold check_default. destruct (defaults_from 0 rules) as [|[index d] rest] eqn:E.
  { destruct extending; [|done]. intros _. by apply defaults_from_nil in E. }
  destruct extending; [done|]. destruct (_ <? _)%nat; [done|].
  apply defaults_from_cons in E as (b & a & -> & -> & Hd & Hb). simpl.
  destruct (Nat.ltb_spec 0 (length (b ++ d :: a) - length b - 1)) as [|Hl]; [done|].
  rewrite length_app in Hl. simpl in Hl. destruct a; [|simpl in Hl; lia].
  case_bool_decide as He; [|done]. simpl.
  destruct (When.is_empty (Rule.when d)) eqn:Hw; [|done].
  destruct (Unless.is_empty (Rule.unless d)) eqn:Hu; [|done]. intros _.
  by exists b, d.
Qed.

(** * Profiles *)

(** What a loaded profile is. *)
Definition profile_loaded (p : Profile.t) : Prop :=
  Forall rule_loaded (Profile.rules p) /\ Forall post_loaded (Profile.postconditions p) /\
  NoDup (rule_ids (Profile.rules p) ++ post_ids (Profile.postconditions p)) /\
  match Profile.extends p with
  | None => ends_in_default (Profile.rules p)
  | Some _ => Forall (fun r => Rule.is_default r = false) (Profile.rules p)
  end /\
  length (Profile.rules p) <= Limits.MAX_RULES /\
  length (Profile.postconditions p) <= Limits.MAX_POSTCONDITIONS.

(** A member that, where present, is an array of closed rules. *)
Definition closed_rules (document : DeTable) (name : string) (allowed when_members : list string) :
    Prop :=
  forall k value, find document name = Some (k, value) ->
  exists elements, Spanned.get_ref value = DeValue.Array elements /\
    Forall (fun e => closed_rule allowed when_members (Spanned.get_ref e)) elements.

(** A document with no member the schema does not define, at any level. *)
Definition closed_document (document : DeTable) : Prop :=
  Forall (fun k => k ∈ TOP_LEVEL) (keys document) /\
  closed_member document "meta" META /\
  closed_rules document "rule" RULE (when_allowed false) /\
  closed_rules document "postcondition" POSTCONDITION (when_allowed true).

Lemma rules_Ok w document path extending rs :
  rules w document path extending = Ok rs ->
  Forall rule_loaded rs /\ NoDup (rule_ids rs) /\ length rs <= Limits.MAX_RULES /\
  (if extending : bool then Forall (fun r => Rule.is_default r = false) rs
   else ends_in_default rs) /\
  closed_rules document "rule" RULE (when_allowed false).
Proof.
  unfold rules, closed_rules. destruct (find document "rule") as [[k value]|].
  - intros H. peel H. apply expect_array_Ok in E.
    destruct (Nat.ltb_spec Limits.MAX_RULES (length a)) as [|Hl]; [done|].
    peel H. peel H. injection H as <-. apply check_default_Ok in E1.
    apply rules_from_Ok in E0 as (Hlen & Hf & Hn & Hc); [|constructor].
    split_and!; [done|done|by rewrite Hlen|done|].
    intros k' value' [= <- <-]. by exists a.
  - destruct extending; [|done]. intros [= <-].
    split_and!; [constructor|constructor|simpl; lia|constructor|done].
Qed.

Lemma seen_rules_ids rs : (seen_rules rs).*1 = rule_ids rs.
Proof. unfold seen_rules, rule_ids. by rewrite <- list_fmap_compose. Qed.

Lemma postconditions_Ok w document path rs ps :
  postconditions w document path rs = Ok ps -> NoDup (rule_ids rs) ->
  Forall post_loaded ps /\ NoDup (rule_ids rs ++ post_ids ps) /\
  length ps <= Limits.MAX_POSTCONDITIONS /\
  closed_rules document "postcondition" POSTCONDITION (when_allowed true).
Proof.
  unfold postconditions, closed_rules. destruct (find document "postcondition") as [[k value]|].
  - intros H Hnd. peel H. apply expect_array_Ok in E.
    destruct (Nat.ltb_spec Limits.MAX_POSTCONDITIONS (length a)) as [|Hl]; [done|].
    apply postconditions_from_Ok in H as (Hlen & Hf & Hn & Hc); [|by rewrite seen_rules_ids].
    rewrite seen_rules_ids in Hn. split_and!; [done|done|by rewrite Hlen|].
    intros k' value' [= <- <-]. by exists a.
  - intros [= <-] Hnd. rewrite app_nil_r. split_and!; [constructor|done|simpl; lia|done].
Qed.

Lemma meta_closed w document path x :
  meta w document path = Ok x -> closed_member document "meta" META.
Proof. exact (closed_member_walk w document _ _ _ _ _ _). Qed.

Lemma profile_Ok w document p :
  profile w document = Ok p -> profile_loaded p /\ closed_document document.
Proof.
  unfold profile. intros H. peel H. peel H.
  destruct (meta w document FieldPath.root) as [[name extends]|] eqn:Em in H; [|done].
  peel H. peel H. injection H as <-.
  apply rules_Ok in E1 as (Hr & Hn & Hl & Hd & Hc).
  apply postconditions_Ok in E2 as (Hp & Hnd & Hlp & Hcp); [|done].
  split.
  - unfold profile_loaded; simpl. split_and!; [done..| |done|done]. by destruct extends.
  - split_and!; [by eapply reject_unknown_Ok|by eapply meta_closed|done|done].
Qed.

(** A load that succeeds parsed a bounded text into a closed document. *)
Lemma load_Ok parse name text p :
  load parse name text = Ok p ->
  (N.of_nat (String.length text) <= Limits.MAX_SOURCE_BYTES)%N /\
  profile_loaded p /\ exists document, parse text = Ok document /\ closed_document document.
Proof.
  unfold load. destruct (N.ltb_spec Limits.MAX_SOURCE_BYTES (N.of_nat (String.length text)));
    [done|]. intros Hl. peel Hl. cbv zeta in Hl.
  destruct (parse text) as [document|[span message]] eqn:Ep; simpl in Hl; [|done].
  apply profile_Ok in Hl as [Hp Hd]. eauto.
Qed.
