(* ===== verification/LoaderTheorems.v ===== *)
(** The properties of the policy loader: what it accepts has exactly the shape
    the schema defines, and a policy composed of what it accepts always decides
    by one of its own rules. *)

From S2P Require Import Prelude Text PolicyContext PolicyValue Predicate Obligation.
From S2P Require Import Obligation Rule Eval Compose Toml Loader LoaderFacts.

(** * Examples shared by the witnesses *)

(** A member, and an array element, at the start of the document. *)
Definition member_at (name : string) (value : DeValue.t) :
    Spanned.t string * Spanned.t DeValue.t :=
  (Spanned.Make 0 name, Spanned.Make 0 value).

Definition text_at (name text : string) : Spanned.t string * Spanned.t DeValue.t :=
  member_at name (DeValue.String text).

Definition ask_table : DeValue.t :=
  DeValue.Table
    [text_at "id" "ask-read"; text_at "effect" "REQUIRE_APPROVAL";
     text_at "reason" "SENSITIVE_PATH";
     member_at "when" (DeValue.Table [text_at "verb" "fs.read"]);
     member_at "approval" (DeValue.Table
       [text_at "scope" "exact_action"; text_at "ttl" "10m";
        member_at "max_uses" (DeValue.Integer "1" 10)])].

Definition default_table : DeValue.t :=
  DeValue.Table [text_at "id" "default"; text_at "effect" "DENY";
                 text_at "reason" "NO_MATCHING_RULE"].

Definition small_document : DeTable :=
  [member_at "meta" (DeValue.Table [text_at "name" "small"]);
   member_at "rule" (DeValue.Array [Spanned.Make 0 ask_table; Spanned.Make 0 default_table]);
   member_at "schema_version" (DeValue.Integer "1" 10)].

(** A parser that reads every text as that document. *)
Definition small_parse (text : string) : result DeTable (option nat * string) :=
  Ok small_document.

Definition small_rules : list Rule.t :=
  match load small_parse "small.toml" "" with Ok p => Profile.rules p | Err _ => [] end.

Definition small_profile : Profile.t :=
  Profile.Make (ProfileName.Make "small") (SourceLocation.Make "small.toml" 1) None small_rules [].

Definition small_policy : CompiledPolicy.t :=
  CompiledPolicy.Make (ProfileName.Make "small") [ProfileName.Make "small"] small_rules [].

Lemma small_loads : load small_parse "small.toml" "" = Ok small_profile.
Proof. vm_compute. reflexivity. Qed.

(** * Strictness *)

(** Whatever the parser produced, a document that loads has no member the
    schema does not define, at any level: top level, [meta], every rule and
    postcondition and their [when], [unless] and [approval] tables. A misspelt
    condition never loads as an absent one. *)
Lemma load_is_strict parse source_name source_text p :
  load parse source_name source_text = Ok p ->
  exists document, parse source_text = Ok document /\
    Forall (fun k => k ∈ TOP_LEVEL) (keys document) /\
    closed_member document "meta" META /\
    closed_rules document "rule" RULE (when_allowed false) /\
    closed_rules document "postcondition" POSTCONDITION (when_allowed true).
Proof. by intros (_ & _ & document & Hp & Hc)%load_Ok; exists document. Qed.


(** No coercion: a match predicate that loads is the reading of its value
    and of nothing else. A string is equality with what it parses to; an array
    of one to sixty-four strings is membership among what each parses to, all
    different; no other value loads, and only an absent member is absent. *)
Lemma match_values_exact {T} `{EqDecision T} (parse : string -> result T PolicyValueError.t)
    w table name path o :
  match_value w table name path parse = Ok o <->
  match find table name with
  | None => o = None
  | Some (_, value) =>
      match Spanned.get_ref value with
      | DeValue.String text =>
          chars_count text <= 384 /\ exists x, parse text = Ok x /\ o = Some (MatchValue.Eq x)
      | DeValue.Array array =>
          0 < length array <= 64 /\
          exists strings xs, (Spanned.get_ref <$> array) = (DeValue.String <$> strings) /\
            Forall (fun text => chars_count text <= 384) strings /\
            Forall2 (fun text x => parse text = Ok x) strings xs /\ NoDup xs /\
            o = Some (MatchValue.In xs)
      | _ => False
      end
  end.
Proof.
  rewrite match_value_Ok. destruct (find table name) as [[k value]|]; [|done].
  unfold match_reading, Limits.MAX_LIST_ITEMS, Limits.MAX_STRING_CHARS.
  destruct (Spanned.get_ref value); split; try done; try (by intros (? & _ & [])).
  - intros (m & -> & Hl & x & Hx & ->). eauto.
  - intros (Hl & x & Hx & ->). eauto 10.
  - intros (m & -> & Hl & strings & xs & ? & ? & ? & ? & ->). split; [done|].
    by exists strings, xs.
  - intros (Hl & strings & xs & ? & ? & ? & ? & ->). eexists. split; [done|]. split; [done|].
    by exists strings, xs.
Qed.

(** * What loading checks *)

(** C40: A profile that loads is well formed. At most 512 rules and 32
    postconditions, no id used twice among both; an approval shape exactly on
    the rules that require approval; no rule asking about the provisional
    effect; only reasons an author may write, or the one reserved for
    permissions; every postcondition narrowing every effect it selects; and, in
    a profile that extends nothing, one default rule: last, denying and
    unconditional. A profile that extends another has none. *)
Theorem loaded_profile_well_formed parse source_name source_text p :
  load parse source_name source_text = Ok p ->
  length (Profile.rules p) <= 512 /\ length (Profile.postconditions p) <= 32 /\
  NoDup (rule_ids (Profile.rules p) ++ post_ids (Profile.postconditions p)) /\
  (forall r, r ∈ Profile.rules p ->
     When.provisional_effect (Rule.when r) = None /\
     (is_some (Rule.approval r) = true <-> Rule.effect r = Effect.RequireApproval) /\
     (Reason.is_authorable (Rule.reason r) = false ->
      Rule.reason r = Reason.PermittedByRule /\ Rule.effect r = Effect.Allow) /\
     NoDup (Obligation.name <$> Obligations.as_slice (Rule.obligations r))) /\
  (forall q e, q ∈ Profile.postconditions p -> selects q e = true ->
     Effect.narrower_or_equal (Postcondition.effect q) e = true) /\
  match Profile.extends p with
  | None => ends_in_default (Profile.rules p)
  | Some _ => Forall (fun r => Rule.is_default r = false) (Profile.rules p)
  end.
Proof.
  intros (_ & (Hr & Hp & Hnd & Hd & Hl & Hlp) & _)%load_Ok.
  rewrite Forall_forall in Hr. rewrite Forall_forall in Hp. split_and!; try done.
  - intros r Hin. destruct (Hr r Hin) as (? & Ha & Hre & _ & Ho). split_and!; try done.
    + rewrite Ha. apply bool_decide_eq_true.
    + destruct Hre as [Hre|Hre]; [congruence|done].
  - intros q e Hin. destruct (Hp q Hin) as (Hn & _ & _).
    unfold Postcondition.narrows, Postcondition.selects in Hn. unfold selects.
    rewrite forallb_forall in Hn.
    destruct (When.provisional_effect (Postcondition.when q)) as [named|]; simpl.
    + rewrite MatchValue.matches_values, bool_decide_eq_true. intros He.
      by apply Hn, list_elem_of_In.
    + intros _. apply Hn. destruct e; simpl; auto.
Qed.

Lemma loaded_profile_well_formed_witness :
  load small_parse "small.toml" "" = Ok small_profile /\
  ends_in_default (Profile.rules small_profile).
Proof.
  split; [vm_compute; reflexivity|].
  apply (loaded_profile_well_formed small_parse "small.toml" "" small_profile).
  vm_compute. reflexivity.
Defined.

Lemma chain_loaded_elem profiles chain :
  linked profiles chain -> Forall (fun p => p ∈ profiles) (tail chain).
Proof.
  induction chain as [|p chain IH]; [constructor|]. intros [Hp Hl]. simpl.
  destruct chain as [|q chain]; [constructor|]. destruct Hp as (parent & _ & Hf).
  apply find_profile_Some in Hf as [_ Hq]. constructor; [done|by apply IH].
Qed.

(** The root of a resolved chain is among the profiles and extends nothing. *)
Lemma resolve_chain_root name profiles chain ext root :
  resolve_chain name profiles = Some (Ok chain) -> chain = ext ++ [root] ->
  root ∈ profiles /\ Profile.extends root = None.
Proof.
  intros Hr ->. apply resolve_chain_Ok in Hr as (first & more & E & Hf & _ & _ & Hlink). split.
  - apply chain_loaded_elem in Hlink. destruct ext as [|e ext]; simpl in E; injection E as <- <-.
    + by apply find_profile_Some in Hf as [_ ?].
    + simpl in Hlink. apply Forall_app in Hlink as [_ Hroot]. exact (Forall_inv Hroot).
  - clear -Hlink. induction ext as [|e ext IH]; [by destruct Hlink|]. apply IH. by destruct Hlink.
Qed.

(** C12: A policy composed of loaded profiles always decides by one of its own
    rules: it ends in the root's default, which denies, so an action no rule
    names is denied in its name; a permission or a request for approval is
    always some rule's that is not the default. *)
Theorem loaded_policy_decides parse name profiles policy action context :
  Forall (fun p => exists source_name source_text,
    load parse source_name source_text = Ok p) profiles ->
  Compose.compose name profiles = Some (Ok policy) ->
  (exists before default, CompiledPolicy.rules policy = before ++ [default] /\
     Rule.is_default default = true /\
     (Forall (skipped action context) before ->
      Decision.effect (evaluate policy action context) = Effect.Deny /\
      Decision.primary (evaluate policy action context) =
        rule_matched default (Rule.reason default))) /\
  (exists m, m ∈ CompiledPolicy.rules policy /\
     MatchedRule.id (Decision.primary (evaluate policy action context)) = Rule.id m /\
     (Decision.effect (evaluate policy action context) <> Effect.Deny ->
      Rule.effect m <> Effect.Deny /\ Rule.is_default m = false)).
Proof.
  intros Hload (chain & Hr & Hc)%compose_Ok.
  apply compose_chain_Ok in Hc as (root & ext & Hch & Hcheck & Hd & ->).
  destruct (resolve_chain_root _ _ _ _ _ Hr Hch) as [Hroot Hext].
  rewrite Forall_forall in Hload. destruct (Hload root Hroot) as (sn & st & Hl).
  apply load_Ok in Hl as (_ & (_ & _ & _ & Hend & _) & _). rewrite Hext in Hend.
  destruct Hend as (b & d & Hrules & Hdef & Hdeny & Hw & Hu & Hb).
  set (policy := CompiledPolicy.Make _ _ _ _).
  set (extra := concat (Profile.rules <$> ext)).
  assert (CompiledPolicy.rules policy = (extra ++ b) ++ [d]) as Hpol.
  { unfold policy, extra; simpl. rewrite Hch, fmap_app, concat_app. simpl.
    by rewrite Hrules, app_nil_r, app_assoc. }
  assert (Forall (fun r => Rule.is_default r = false) (extra ++ b)) as Hnd.
  { apply Forall_app. split; [|done]. apply check_extenders_Ok in Hcheck. unfold extra.
    clear -Hcheck. induction Hcheck as [|p ext' Hp _ IH]; [constructor|].
    rewrite fmap_cons. simpl. apply Forall_app. split; [|done].
    apply check_extender_Ok in Hp as [Hp _]. apply check_rules_Ok in Hp.
    eapply Forall_impl; [exact Hp|]. by intros r (? & _). }
  destruct (decides_cases policy action context (extra ++ b) d Hpol Hw Hu Hdeny Hnd)
    as (Hlast & m & Hm). split; [|by exists m].
  exists (extra ++ b), d. by split_and!.
Qed.

Lemma loaded_policy_decides_witness :
  Compose.compose (ProfileName.Make "small") [small_profile] = Some (Ok small_policy) /\
  forall action context, exists m, m ∈ CompiledPolicy.rules small_policy /\
    MatchedRule.id (Decision.primary (evaluate small_policy action context)) = Rule.id m.
Proof.
  split; [vm_compute; reflexivity|]. intros action context.
  destruct (loaded_policy_decides small_parse (ProfileName.Make "small") [small_profile]
    small_policy action context) as (_ & m & Hin & Hid & _).
  - constructor; [|constructor]. exists "small.toml"%string, EmptyString. vm_compute. reflexivity.
  - vm_compute. reflexivity.
  - by exists m.
Defined.
