(* ===== verification/Utf8.v ===== *)
(** Unicode scalar values and the two encodings of them the code uses: UTF-8,
    in which a [String] is stored and input is checked, and UTF-16, in which
    the members of a canonical JSON object are ordered. *)

From S2P Require Export Prelude Text Order.

(** * Scalar values *)

(** [char::from_u32]: every code point but the surrogates. *)
Definition char_from_u32 (n : N) : option N :=
  if (n <=? 55295)%N || ((57344 <=? n)%N && (n <=? 1114111)%N) then Some n else None.

Definition is_scalar (n : N) : bool := is_some (char_from_u32 n).

(** * UTF-8 *)

Definition byte (n : N) : ascii := ascii_of_N n.

(** [String::push]: the bytes of a character. *)
Definition utf8 (c : N) : string :=
  (if c <? 128 then String (byte c) ""
   else if c <? 2048 then
     String (byte (192 + c / 64)) (String (byte (128 + c mod 64)) "")
   else if c <? 65536 then
     String (byte (224 + c / 4096)) (String (byte (128 + (c / 64) mod 64))
       (String (byte (128 + c mod 64)) ""))
   else
     String (byte (240 + c / 262144)) (String (byte (128 + (c / 4096) mod 64))
       (String (byte (128 + (c / 64) mod 64)) (String (byte (128 + c mod 64)) ""))))%N.

(** The first character of a byte string and the bytes after it: a leading
    byte and as many continuation bytes as it announces, which are the
    shortest encoding of a scalar value. *)
Definition next_char (s : string) : option (N * string) :=
  match s with
  | EmptyString => None
  | String a r =>
      let b0 := byte_of a in
      let accept (lo : N) (c : N) (rest : string) :=
        if (lo <=? c)%N && is_scalar c then Some (c, rest) else None in
      let cont (b : ascii) := (byte_of b - 128)%N in
      if (b0 <? 128)%N then Some (b0, r)
      else match r with
      | EmptyString => None
      | String b r =>
          if negb (is_continuation b) then None
          else if in_range 192 223 a then
            accept 128%N ((b0 - 192) * 64 + cont b)%N r
          else match r with
          | EmptyString => None
          | String c r =>
              if negb (is_continuation c) then None
              else if in_range 224 239 a then
                accept 2048%N ((b0 - 224) * 4096 + cont b * 64 + cont c)%N r
              else match r with
              | EmptyString => None
              | String d r =>
                  if negb (is_continuation d) then None
                  else if in_range 240 247 a then
                    accept 65536%N
                      ((b0 - 240) * 262144 + cont b * 4096 + cont c * 64 + cont d)%N r
                  else None
              end
          end
      end
  end.

(** [str::from_utf8]: the characters, or how many bytes are well formed
    ([valid_up_to]).  The fuel is the number of bytes, one at least of which
    each character takes. *)
Fixpoint utf8_scan (fuel pos : nat) (s : string) : result (list N) nat :=
  match s, fuel with
  | EmptyString, _ => Ok []
  | _, 0 => Err pos
  | _, S fuel =>
      match next_char s with
      | None => Err pos
      | Some (c, r) =>
          let? cs := utf8_scan fuel (pos + (String.length s - String.length r)) r in
          Ok (c :: cs)
      end
  end.

Definition from_utf8 (s : string) : result (list N) nat :=
  utf8_scan (String.length s) 0 s.

(** [str::chars]. *)
Definition chars (s : string) : list N :=
  match from_utf8 s with Ok cs => cs | Err _ => [] end.

(** What the type [String] guarantees of its bytes. *)
Definition valid_utf8 (s : string) : bool :=
  match from_utf8 s with Ok _ => true | Err _ => false end.

(** The bytes of characters. *)
Fixpoint from_chars (cs : list N) : string :=
  match cs with [] => "" | c :: r => utf8 c +:+ from_chars r end.

(** * UTF-16 *)

(** The code units of a character, and [str::encode_utf16]. *)
Definition utf16 (c : N) : list N :=
  if (c <? 65536)%N then [c]
  else [55296 + (c - 65536) / 1024; 56320 + (c - 65536) mod 1024]%N.

Definition encode_utf16 (s : string) : list N := chars s ≫= utf16.

(** * Facts *)

Lemma is_scalar_spec c : is_scalar c = true <-> (c <= 55295 \/ 57344 <= c <= 1114111)%N.
Proof.
  unfold is_scalar, char_from_u32.
  destruct (N.leb_spec c 55295), (N.leb_spec 57344 c), (N.leb_spec c 1114111);
    simpl; split; intros; try done; lia.
Qed.

Lemma byte_of_byte n : (n < 256)%N -> byte_of (byte n) = n.
Proof. apply N_ascii_embedding. Qed.

Lemma byte_byte_of a : byte (byte_of a) = a.
Proof. apply ascii_N_embedding. Qed.

Lemma byte_of_lt a : (byte_of a < 256)%N.
Proof. apply N_ascii_bounded. Qed.

Lemma in_range_spec lo hi a : in_range lo hi a = true <-> (lo <= byte_of a <= hi)%N.
Proof. unfold in_range. rewrite andb_true_iff, !N.leb_le. done. Qed.

Lemma in_range_false lo hi a :
  in_range lo hi a = false <-> (byte_of a < lo \/ hi < byte_of a)%N.
Proof. unfold in_range. rewrite andb_false_iff, !N.leb_gt. done. Qed.

(** Linear arithmetic with division and remainder by constants. *)
Ltac Zdiv := zify; Z.to_euclidean_division_equations; lia.

(** A character's bytes read back as the character. *)
Lemma next_char_utf8 c s : is_scalar c = true -> next_char (utf8 c +:+ s) = Some (c, s).
Proof.
  intros Hc. pose proof Hc as Hs. apply is_scalar_spec in Hs. unfold utf8.
  assert (forall x, is_continuation (byte (128 + x mod 64)) = true) as Hcont.
  { intros x. apply in_range_spec. rewrite byte_of_byte; Zdiv. }
  assert (forall x, (byte_of (byte (128 + x mod 64)) - 128 = x mod 64)%N) as Hval.
  { intros x. rewrite byte_of_byte; Zdiv. }
  destruct (N.ltb_spec c 128) as [H1|H1]; [|destruct (N.ltb_spec c 2048) as [H2|H2];
    [|destruct (N.ltb_spec c 65536) as [H3|H3]]]; simpl.
  - rewrite byte_of_byte by lia. by apply N.ltb_lt in H1 as ->.
  - rewrite Hcont, Hval; simpl. rewrite byte_of_byte by Zdiv.
    replace (_ <? 128)%N with false by (symmetry; apply N.ltb_ge; Zdiv).
    replace (in_range 192 223 _) with true
      by (symmetry; apply in_range_spec; rewrite byte_of_byte; Zdiv).
    replace ((192 + c / 64 - 192) * 64 + c mod 64)%N with c by Zdiv.
    apply N.leb_le in H1 as ->. by rewrite Hc.
  - rewrite !Hcont, !Hval; simpl. rewrite byte_of_byte by Zdiv.
    replace (_ <? 128)%N with false by (symmetry; apply N.ltb_ge; Zdiv).
    replace (in_range 192 223 _) with false
      by (symmetry; apply in_range_false; rewrite byte_of_byte; Zdiv).
    replace (in_range 224 239 _) with true
      by (symmetry; apply in_range_spec; rewrite byte_of_byte; Zdiv).
    replace ((224 + c / 4096 - 224) * 4096 + (c / 64) mod 64 * 64 + c mod 64)%N with c by Zdiv.
    apply N.leb_le in H2 as ->. by rewrite Hc.
  - rewrite !Hcont, !Hval; simpl. rewrite byte_of_byte by Zdiv.
    replace (_ <? 128)%N with false by (symmetry; apply N.ltb_ge; Zdiv).
    replace (in_range 192 223 _) with false
      by (symmetry; apply in_range_false; rewrite byte_of_byte; Zdiv).
    replace (in_range 224 239 _) with false
      by (symmetry; apply in_range_false; rewrite byte_of_byte; Zdiv).
    replace (in_range 240 247 _) with true
      by (symmetry; apply in_range_spec; rewrite byte_of_byte; Zdiv).
    replace ((240 + c / 262144 - 240) * 262144 + (c / 4096) mod 64 * 4096
      + (c / 64) mod 64 * 64 + c mod 64)%N with c by Zdiv.
    apply N.leb_le in H3 as ->. by rewrite Hc.
Qed.

Lemma String_byte a n s t : byte_of a = n -> s = t -> String (byte n) s = String a t.
Proof. intros <- ->. by rewrite byte_byte_of. Qed.

Lemma is_continuation_spec a : is_continuation a = true -> (128 <= byte_of a < 192)%N.
Proof. intros [? ?]%in_range_spec. lia. Qed.

(** The encodings of two, three and four bytes, from their bytes. *)
Section lengths.
  Context (a b c d : ascii) (Hb : is_continuation b = true)
    (Hc : is_continuation c = true) (Hd : is_continuation d = true).
Let cont (x : ascii) := (byte_of x - 128)%N.

Lemma utf8_two :
  in_range 192 223 a = true ->
  let n := ((byte_of a - 192) * 64 + cont b)%N in
  (128 <= n)%N -> utf8 n = String a (String b "").
Proof.
  intros Ha%in_range_spec n Hn. apply is_continuation_spec in Hb. unfold utf8, n, cont in *.
  rewrite (proj2 (N.ltb_ge _ 128)), (proj2 (N.ltb_lt _ 2048)) by lia.
  repeat apply String_byte; [Zdiv..|done].
Qed.

Lemma utf8_three :
  in_range 224 239 a = true ->
  let n := ((byte_of a - 224) * 4096 + cont b * 64 + cont c)%N in
  (2048 <= n)%N -> utf8 n = String a (String b (String c "")).
Proof.
  intros Ha%in_range_spec n Hn. apply is_continuation_spec in Hb, Hc. unfold utf8, n, cont in *.
  rewrite (proj2 (N.ltb_ge _ 128)), (proj2 (N.ltb_ge _ 2048)), (proj2 (N.ltb_lt _ 65536)) by lia.
  repeat apply String_byte; [Zdiv..|done].
Qed.

Lemma utf8_four :
  in_range 240 247 a = true ->
  let n := ((byte_of a - 240) * 262144 + cont b * 4096 + cont c * 64 + cont d)%N in
  (65536 <= n)%N -> utf8 n = String a (String b (String c (String d ""))).
Proof.
  intros Ha%in_range_spec n Hn. apply is_continuation_spec in Hb, Hc, Hd. unfold utf8, n, cont in *.
  rewrite (proj2 (N.ltb_ge _ 128)), (proj2 (N.ltb_ge _ 2048)), (proj2 (N.ltb_ge _ 65536)) by lia.
  repeat apply String_byte; [Zdiv..|done].
Qed.
End lengths.

(** Reading a character reads exactly its bytes. *)
Lemma next_char_Some s c r :
  next_char s = Some (c, r) -> s = utf8 c +:+ r /\ is_scalar c = true.
Proof.
  destruct s as [|a s]; [done|]. cbn [next_char].
  destruct (N.ltb_spec (byte_of a) 128) as [H0|H0].
  { intros [= <- <-]. unfold utf8. rewrite (proj2 (N.ltb_lt _ _) H0), byte_byte_of.
    split; [done|]. apply is_scalar_spec. lia. }
  destruct s as [|b s]; [done|].
  destruct (is_continuation b) eqn:Hb; [cbn [negb]|done].
  destruct (in_range 192 223 a) eqn:E1.
  { case_match eqn:E; [|done]. bool_to_prop. intros [= <- <-].
    rewrite utf8_two; [done..|by apply N.leb_le]. }
  destruct s as [|c' s]; [done|].
  destruct (is_continuation c') eqn:Hc'; [cbn [negb]|done].
  destruct (in_range 224 239 a) eqn:E2.
  { case_match eqn:E; [|done]. bool_to_prop. intros [= <- <-].
    rewrite utf8_three; [done..|by apply N.leb_le]. }
  destruct s as [|d s]; [done|].
  destruct (is_continuation d) eqn:Hd; [cbn [negb]|done].
  destruct (in_range 240 247 a) eqn:E3; [|done].
  case_match eqn:E; [|done]. bool_to_prop. intros [= <- <-].
  rewrite utf8_four; [done..|by apply N.leb_le].
Qed.

(** ** Well-formed strings *)

(** The sequences of characters' bytes. *)
Inductive Utf8 : string -> Prop :=
| Utf8_nil : Utf8 ""
| Utf8_char c s : is_scalar c = true -> Utf8 s -> Utf8 (utf8 c +:+ s).

Lemma utf8_length c : (1 <= String.length (utf8 c) <= 4).
Proof. unfold utf8. repeat case_match; simpl; lia. Qed.

Lemma utf8_scan_Ok fuel pos s cs :
  utf8_scan fuel pos s = Ok cs ->
  s = from_chars cs /\ Forall (fun c => is_scalar c = true) cs.
Proof.
  revert pos s cs; induction fuel as [|fuel IH]; intros pos s cs.
  - destruct s; simpl; [|done]. intros [= <-]. by split.
  - destruct s as [|a s]; [intros [= <-]; by split|]. cbn [utf8_scan].
    destruct (next_char (String a s)) as [[c r]|] eqn:E; [|done].
    destruct (utf8_scan fuel _ r) as [cs'|] eqn:Er; [|done]. intros [= <-].
    apply next_char_Some in E as [-> Hc]. apply IH in Er as [-> Hcs].
    split; [done|by constructor].
Qed.

Lemma utf8_scan_from_chars fuel pos cs :
  Forall (fun c => is_scalar c = true) cs -> String.length (from_chars cs) <= fuel ->
  utf8_scan fuel pos (from_chars cs) = Ok cs.
Proof.
  intros Hcs; revert fuel pos; induction Hcs as [|c cs Hc Hcs IH]; intros fuel pos; simpl.
  - by destruct fuel.
  - rewrite str_length_app. pose proof (utf8_length c) as Hlen. intros Hfuel.
    destruct fuel as [|fuel]; [lia|]. pose proof (next_char_utf8 c (from_chars cs) Hc) as Hn.
    destruct (utf8 c +:+ from_chars cs) as [|a s]; [done|]. cbn [utf8_scan]. rewrite Hn.
    rewrite IH; [done|lia].
Qed.

Lemma from_utf8_Ok s cs :
  from_utf8 s = Ok cs <-> s = from_chars cs /\ Forall (fun c => is_scalar c = true) cs.
Proof.
  split; [apply utf8_scan_Ok|]. intros [-> Hcs]. by apply utf8_scan_from_chars.
Qed.

Lemma Utf8_from_chars s :
  Utf8 s <-> exists cs, s = from_chars cs /\ Forall (fun c => is_scalar c = true) cs.
Proof.
  split.
  - induction 1 as [|c s Hc _ (cs & -> & Hcs)]; [by exists []|].
    exists (c :: cs). split; [done|by constructor].
  - intros (cs & -> & Hcs). induction Hcs; simpl; by constructor.
Qed.

Lemma valid_utf8_spec s : valid_utf8 s = true <-> Utf8 s.
Proof.
  rewrite Utf8_from_chars. unfold valid_utf8.
  destruct (from_utf8 s) as [cs|p] eqn:E; split; try done.
  - intros _. exists cs. by apply from_utf8_Ok.
  - intros (cs & Hcs). apply from_utf8_Ok in Hcs. congruence.
Qed.

(** A string has one sequence of characters. *)
Lemma chars_from_chars s : Utf8 s -> from_chars (chars s) = s.
Proof.
  intros Hs%valid_utf8_spec. unfold valid_utf8, chars in *.
  destruct (from_utf8 s) eqn:E; [|done]. by apply from_utf8_Ok in E as [-> _].
Qed.

Lemma chars_scalar s : Forall (fun c => is_scalar c = true) (chars s).
Proof.
  unfold chars. destruct (from_utf8 s) eqn:E; [|constructor]. by apply from_utf8_Ok in E as [_ ?].
Qed.

Lemma Utf8_app s t : Utf8 s -> Utf8 t -> Utf8 (s +:+ t).
Proof.
  induction 1; intros; simpl; [done|]. rewrite string_app_assoc. constructor; auto.
Qed.

Lemma utf8_char_ascii c : (c < 128)%N -> utf8 c = String (byte c) "".
Proof. intros H. unfold utf8. by apply N.ltb_lt in H as ->. Qed.

Lemma Utf8_ascii a s : (byte_of a < 128)%N -> Utf8 s -> Utf8 (String a s).
Proof.
  intros Ha Hs. rewrite <- (byte_byte_of a).
  change (String (byte (byte_of a)) s) with (String (byte (byte_of a)) "" +:+ s).
  rewrite <- utf8_char_ascii by done. constructor; [apply is_scalar_spec; lia|done].
Qed.

(** Bytes inside and outside ASCII. *)
Definition is_ascii : ascii -> bool := in_range 0 127.

Lemma Utf8_all_ascii s : str_all is_ascii s = true -> Utf8 s.
Proof.
  induction s as [|a s IH]; simpl; [constructor|]. intros [Ha Hs]%andb_true_iff.
  apply in_range_spec in Ha. apply Utf8_ascii; [lia|auto].
Qed.

Definition is_high : ascii -> bool := in_range 128 255.

Lemma utf8_high c : is_scalar c = true -> (128 <= c)%N -> str_all is_high (utf8 c) = true.
Proof.
  intros Hc%is_scalar_spec H. unfold utf8. rewrite (proj2 (N.ltb_ge _ _) H).
  destruct (N.ltb_spec c 2048), (N.ltb_spec c 65536); simpl; rewrite ?andb_true_iff;
    split_and?; try done; apply in_range_spec; rewrite byte_of_byte; Zdiv.
Qed.

Lemma high_prefix p u s a t :
  str_all is_high p = true -> (byte_of a < 128)%N -> p +:+ u = s +:+ String a t ->
  exists s', s = p +:+ s' /\ u = s' +:+ String a t.
Proof.
  intros Hp Ha; revert s; induction p as [|b p IH]; intros s; simpl; [eauto|].
  simpl in Hp. bool_to_prop. destruct s as [|b' s]; simpl.
  - intros [= -> _]. apply in_range_spec in H. lia.
  - intros [= -> E]. destruct (IH H0 s E) as (s' & -> & ->). eauto.
Qed.

(** An ASCII byte is a character boundary. *)
Lemma Utf8_split s a t :
  (byte_of a < 128)%N -> Utf8 (s +:+ String a t) -> Utf8 s /\ Utf8 (String a t).
Proof.
  intros Ha Hu. remember (s +:+ String a t) as u eqn:E. revert s E.
  induction Hu as [|c u Hc Hu IH]; intros s E; [by destruct s|].
  destruct s as [|b s].
  { simpl in E. split; [constructor|]. rewrite <- E. by constructor. }
  destruct (N.ltb_spec c 128) as [H|H].
  - rewrite utf8_char_ascii in E by done. injection E as <- E.
    destruct (IH s E) as [Hs Ht]. split; [|done]. apply Utf8_ascii; [|done].
    rewrite byte_of_byte; lia.
  - destruct (high_prefix (utf8 c) u (String b s) a t) as (s' & -> & ->); [by apply utf8_high|done..|].
    destruct (IH s' eq_refl) as [Hs Ht]. split; [|done]. by constructor.
Qed.

Lemma Utf8_tail a t : (byte_of a < 128)%N -> Utf8 (String a t) -> Utf8 t.
Proof.
  intros Ha Hu. inversion Hu as [|c s Hc Hs E].
  destruct (N.ltb_spec c 128) as [H|H].
  - rewrite utf8_char_ascii in E by done. by injection E as _ <-.
  - pose proof (utf8_high c Hc H) as Hh. pose proof (utf8_length c).
    destruct (utf8 c) as [|b p]; [simpl in *; lia|]. injection E as -> _.
    simpl in Hh. bool_to_prop. apply in_range_spec in H1. lia.
Qed.

(** ** Code units *)

Lemma utf16_inj c d u v :
  is_scalar c = true -> is_scalar d = true ->
  utf16 c ++ u = utf16 d ++ v -> c = d /\ u = v.
Proof.
  intros Hc%is_scalar_spec Hd%is_scalar_spec. unfold utf16.
  destruct (N.ltb_spec c 65536), (N.ltb_spec d 65536); simpl; intros E; injection E; intros;
    subst; split; try done; try Zdiv.
Qed.

(** [encode_utf16] tells strings apart, so ordering by it is total. *)
Lemma encode_utf16_inj s t :
  Utf8 s -> Utf8 t -> encode_utf16 s = encode_utf16 t -> s = t.
Proof.
  intros Hs Ht E. rewrite <- (chars_from_chars s Hs), <- (chars_from_chars t Ht). f_equal.
  unfold encode_utf16 in E. pose proof (chars_scalar s) as Fs. pose proof (chars_scalar t) as Ft.
  revert E. generalize dependent (chars t). induction Fs as [|c cs Hc Fs IH]; intros ds Ft E.
  - destruct Ft as [|d ds]; [done|]. exfalso. revert E. cbn. unfold utf16. by case_match.
  - destruct Ft as [|d ds Hd Ft].
    { exfalso. revert E. cbn. unfold utf16. by case_match. }
    cbn in E. apply utf16_inj in E as [-> E]; [|done..]. by rewrite (IH ds).
Qed.
