(* ===== verification/Numerals.v ===== *)
(** The values of strings of decimal digits: what loops that read digits one
    by one compute, and how it relates to the numerals [Display] writes. *)

From S2P Require Export Prelude Text.
From Stdlib Require Import Decimal DecimalString DecimalN.

Definition digit_value (a : ascii) : N := (byte_of a - 48)%N.

(** [v * 10 + d] for each digit [d] in turn. *)
Fixpoint digits_value_from (v : N) (s : string) : N :=
  match s with
  | EmptyString => v
  | String a r => digits_value_from (v * 10 + digit_value a) r
  end.

Definition digits_value : string -> N := digits_value_from 0.

(** [std::iter::repeat_n('0', n)], collected. *)
Fixpoint zeros (n : nat) : string :=
  match n with 0 => "" | S n => String "0" (zeros n) end.

(** [Display] of a signed integer. *)
Definition show_Z (z : Z) : string :=
  match z with
  | Zneg p => String "-" (show_N (Npos p))
  | _ => show_N (Z.to_N z)
  end.

(** [str::len]. *)
Definition len (s : string) : N := N.of_nat (String.length s).

Lemma len_cons a s : len (String a s) = N.succ (len s).
Proof. unfold len. simpl. lia. Qed.

Lemma is_digit_spec a : is_digit a = true <-> (48 <= byte_of a <= 57)%N.
Proof. unfold is_digit, in_range. rewrite andb_true_iff, !N.leb_le. done. Qed.

Lemma digit_value_lt a : is_digit a = true -> (digit_value a < 10)%N.
Proof. intros H%is_digit_spec. unfold digit_value. lia. Qed.

(** ** Concatenation *)

Lemma digits_value_from_spec v s :
  digits_value_from v s = (v * 10 ^ len s + digits_value s)%N.
Proof.
  unfold digits_value. revert v; induction s as [|a s IH]; intros v.
  { change (len "") with 0%N. cbn [digits_value_from]. rewrite N.pow_0_r. lia. }
  cbn [digits_value_from]. rewrite (IH (v * 10 + _)%N), (IH (0 * 10 + digit_value a)%N).
  rewrite len_cons, N.pow_succ_r'. lia.
Qed.

Lemma digits_value_app s t :
  digits_value (s +:+ t) = (digits_value s * 10 ^ len t + digits_value t)%N.
Proof.
  unfold digits_value. generalize 0%N at 1 2 as v.
  induction s as [|a s IH]; intros v; simpl; [apply digits_value_from_spec|apply IH].
Qed.

Lemma zeros_length n : String.length (zeros n) = n.
Proof. induction n; simpl; congruence. Qed.

Lemma zeros_digits n : str_all is_digit (zeros n) = true.
Proof. by induction n. Qed.

Lemma digits_value_zeros n s : digits_value (zeros n +:+ s) = digits_value s.
Proof. induction n as [|n IH]; [done|]. exact IH. Qed.

Lemma digits_value_only_zeros n : digits_value (zeros n) = 0%N.
Proof. by rewrite <- (string_app_nil_r (zeros n)), digits_value_zeros. Qed.

(** ** Bounds *)

Lemma digits_value_lt s : str_all is_digit s = true -> (digits_value s < 10 ^ len s)%N.
Proof.
  induction s as [|a s IH]; [done|]. cbn [str_all]. intros [Ha Hs]%andb_true_iff.
  unfold digits_value; cbn [digits_value_from]. rewrite digits_value_from_spec.
  apply digit_value_lt in Ha. specialize (IH Hs). rewrite len_cons, N.pow_succ_r'.
  nia.
Qed.

Lemma digits_value_ge s :
  str_all is_digit s = true -> is_empty s = false -> starts_with_char "0" s = false ->
  (10 ^ (len s - 1) <= digits_value s)%N.
Proof.
  destruct s as [|a s]; [done|]. cbn [str_all is_empty starts_with_char].
  intros [Ha Hs]%andb_true_iff _ H0. unfold digits_value; cbn [digits_value_from].
  rewrite digits_value_from_spec. rewrite len_cons. replace (N.succ (len s) - 1)%N with (len s) by lia.
  apply is_digit_spec in Ha. assert (byte_of a <> 48)%N.
  { intros E. rewrite <- (ascii_N_embedding a) in H0. unfold byte_of in E. by rewrite E in H0. }
  unfold digit_value. nia.
Qed.

(** ** Displayed numbers *)

Lemma of_uint_acc_fold d v :
  Npos (Pos.of_uint_acc d v) = digits_value_from (Npos v) (NilEmpty.string_of_uint d).
Proof.
  revert v; induction d; intros v; [done|..];
    cbn [Pos.of_uint_acc NilEmpty.string_of_uint digits_value_from];
    rewrite IHd; f_equal; cbv [digit_value byte_of]; simpl N_of_ascii; lia.
Qed.

Lemma of_uint_fold d : N.of_uint d = digits_value (NilEmpty.string_of_uint d).
Proof.
  unfold digits_value. induction d; [done|exact IHd|..]; simpl; apply of_uint_acc_fold.
Qed.

Lemma digits_value_show n : digits_value (show_N n) = n.
Proof.
  destruct (show_N_spec n) as (d & -> & _ & Hn & _). by rewrite <- of_uint_fold.
Qed.

Lemma show_N_zero n : starts_with_char "0" (show_N n) = true -> n = 0%N.
Proof.
  intros H0. pose proof (show_N_canonical n) as Hc. unfold canonical_decimal in Hc.
  rewrite H0, andb_true_r in Hc. bool_to_prop.
  rewrite <- (digits_value_show n). destruct (show_N n) as [|a [|b s]]; [done| |done].
  cbn [starts_with_char] in H0. apply Ascii.eqb_eq in H0 as ->. done.
Qed.

(** A number has as many digits as its order of magnitude. *)
Lemma show_N_length n :
  (n <> 0 -> 10 ^ (len (show_N n) - 1) <= n < 10 ^ len (show_N n))%N.
Proof.
  intros Hn. rewrite <- (digits_value_show n) at 2 3. split.
  - apply digits_value_ge; [apply show_N_digits|apply show_N_not_empty|].
    destruct (starts_with_char "0" (show_N n)) eqn:E; [by apply show_N_zero in E|done].
  - apply digits_value_lt, show_N_digits.
Qed.

Lemma show_u16_length p : (p <= U16_MAX)%N -> String.length (show_N p) <= 5.
Proof.
  intros Hp. destruct (N.eq_dec p 0%N) as [->|Hn]; [vm_compute; lia|].
  destruct (show_N_length p Hn) as [Hl _]. unfold U16_MAX in Hp.
  destruct (Nat.le_gt_cases (String.length (show_N p)) 5) as [|Hg]; [done|exfalso].
  assert (10 ^ 5 <= 10 ^ (len (show_N p) - 1))%N; [apply N.pow_le_mono_r; unfold len; lia|lia].
Qed.

Lemma show_N_length_pos n : (1 <= String.length (show_N n)).
Proof. pose proof (show_N_not_empty n). destruct (show_N n); simpl in *; [done|lia]. Qed.

(** ** Signed numbers *)

Lemma show_Z_cases z :
  (0 <= z)%Z /\ show_Z z = show_N (Z.to_N z) \/
  (z < 0)%Z /\ show_Z z = String "-" (show_N (Z.to_N (- z))).
Proof. destruct z; [left|left|right]; split; try done; lia. Qed.

(** ** Digits and signs *)

Lemma is_digit_not_minus a : is_digit a = true -> Ascii.eqb a "-" = false.
Proof. intros H. destruct (Ascii.eqb_spec a "-") as [->|]; [done|done]. Qed.

Lemma str_all_substring f i k s : str_all f s = true -> str_all f (substring i k s) = true.
Proof.
  revert i k; induction s as [|a s IH]; intros i k; [by destruct i, k|].
  simpl. intros [Ha Hs]%andb_true_iff.
  destruct i as [|i]; [|by apply IH]. destruct k as [|k]; simpl; [done|].
  rewrite Ha. by apply IH.
Qed.

Lemma substring_split n s :
  n <= String.length s ->
  substring 0 n s +:+ substring n (String.length s - n) s = s.
Proof.
  revert n; induction s as [|a s IH]; intros n Hn; simpl in *; [by destruct n|].
  destruct n as [|n]; simpl.
  - f_equal. clear. induction s as [|a s IH]; simpl; [done|]. by rewrite IH.
  - f_equal. apply IH. lia.
Qed.

Lemma substring_length i k s :
  i + k <= String.length s -> String.length (substring i k s) = k.
Proof.
  revert i k; induction s as [|a s IH]; intros i k Hik; simpl in *; [by destruct i, k; simpl in *; lia|].
  destruct i as [|i]; [destruct k as [|k]; [done|]; simpl; f_equal; apply IH; lia|].
  apply IH. lia.
Qed.
