(* ===== verification/Float64.v ===== *)
(** Doubles: reading a decimal numeral as the nearest one, the digits Rust's
    [{:e}] and [{:.Ne}] give, and the ECMAScript layout of them
    ([dwk-proto/src/json/number.rs]).

    A double is a [spec_float] of the Standard Library at 53 bits of precision
    and exponents below 1024.  Rounding is defined on exact ratios of integers,
    so every definition here evaluates. *)

From Stdlib Require Import ZArith.
From Stdlib Require Export SpecFloat.
From S2P Require Export Prelude Text Numerals.

Local Open Scope Z_scope.

(** * Ratios *)

(** [n / d / beta ^ e] as a ratio. *)
Definition scale (beta n d e : Z) : Z * Z :=
  if 0 <=? e then (n, d * beta ^ e) else (n * beta ^ (- e), d).

(** The ratios [m * 2 ^ e] and [m * 10 ^ e]. *)
Definition binary_ratio (m e : Z) : Z * Z := scale 2 m 1 (- e).
Definition decimal_ratio (m e : Z) : Z * Z := scale 10 m 1 (- e).

(** The nearest integer to [a / b], the even one of two. *)
Definition round_half_even (a b : Z) : Z :=
  let q := a / b in
  let r := a mod b in
  if (2 * r <? b) || ((2 * r =? b) && Z.even q) then q else q + 1.

(** Whether [n / d] is less than [beta ^ k], and the exponent of the greatest
    power of two not above it. *)
Definition below (beta n d k : Z) : bool := let '(a, b) := scale beta n d k in a <? b.

Definition log2_ratio (n d : Z) : Z :=
  let k := Z.log2 n - Z.log2 d in if below 2 n d k then k - 1 else k.

(** * Reading *)

Definition f64 := spec_float.

Definition MAX_EXPONENT : Z := 971.
Definition MIN_EXPONENT : Z := -1074.

(** A rounded significand at an exponent, carried or overflowed. *)
Definition pack (s : bool) (m e : Z) : f64 :=
  match m with
  | Zpos p =>
      let '(p, e) := if m =? 2 ^ 53 then ((2 ^ 52)%positive, e + 1) else (p, e) in
      if MAX_EXPONENT <? e then S754_infinity s else S754_finite s p e
  | _ => S754_zero s
  end.

(** The double nearest to [n / d], the one with the even significand of two. *)
Definition of_ratio (s : bool) (n d : Z) : f64 :=
  if n =? 0 then S754_zero s
  else
    let e := Z.max (log2_ratio n d - 52) MIN_EXPONENT in
    let '(a, b) := scale 2 n d e in
    pack s (round_half_even a b) e.

Definition of_decimal (s : bool) (m e : Z) : f64 :=
  let '(n, d) := decimal_ratio m e in of_ratio s n d.

(** The digits a string begins with, and what follows them. *)
Fixpoint span_digits (s : string) : string * string :=
  match s with
  | String a r => if is_digit a then let '(ds, r') := span_digits r in (String a ds, r') else ("", s)
  | EmptyString => ("", s)
  end%string.

Definition exponent_of (s : string) : option Z :=
  match s with
  | EmptyString => Some 0
  | String c r =>
      if one_of ["e"; "E"]%char c then
        let '(negative, r) :=
          match r with
          | String "-" r => (true, r)
          | String "+" r => (false, r)
          | _ => (false, r)
          end in
        if is_empty r || negb (str_all is_digit r) then None
        else let v := Z.of_N (digits_value r) in Some (if negative : bool then - v else v)
      else None
  end.

(** [str::parse::<f64>] on decimal numerals: an optional minus sign, digits
    with an optional point among them, an optional exponent.  Correctly
    rounded.  (The spellings [inf], [nan] and [+1] never reach it.) *)
Definition from_str (s : string) : option f64 :=
  let '(negative, r) :=
    match s with String "-" r => (true, r) | _ => (false, s) end in
  let '(int, r) := span_digits r in
  let '(frac, r) :=
    match r with String "." r => span_digits r | _ => (""%string, r) end in
  if is_empty (int +:+ frac) then None
  else
    e ← exponent_of r;
    Some (of_decimal negative (Z.of_N (digits_value (int +:+ frac)))
            (e - Z.of_nat (String.length frac))).

(** * Writing *)

Definition digit_count (z : Z) : Z := Z.of_nat (String.length (show_N (Z.to_N z))).

(** The exponent of the greatest power of ten not above [n / d]. *)
Definition log10_ratio (n d : Z) : Z :=
  if d <=? n then digit_count (n / d) - 1 else - digit_count ((d - 1) / n).

(** A value of [k] digits and the exponent of its first: rounding up may have
    carried into a digit more. *)
Definition carry (k : Z) (qe : Z * Z) : Z * Z :=
  let '(q, e) := qe in if q =? 10 ^ k then (10 ^ (k - 1), e + 1) else (q, e).

Definition reads_as (x : f64) (k : Z) (qe : Z * Z) : bool :=
  let '(q, e) := qe in SFeqb (of_decimal false q (e - (k - 1))) x.

(** The [k]-digit decimal nearest to [n / d], exact ties to the even digit:
    the digits of [{:.Ne}] with [N = k - 1]. *)
Definition nearest_digits (n d k : Z) : Z * Z :=
  let e := log10_ratio n d in
  let '(a, b) := scale 10 n d (e - (k - 1)) in
  carry k (round_half_even a b, e).

(** The [k]-digit decimals around [n / d], the nearer first. *)
Definition candidates (n d k : Z) : list (Z * Z) :=
  let e := log10_ratio n d in
  let '(a, b) := scale 10 n d (e - (k - 1)) in
  let q := a / b in
  let up := carry k (q + 1, e) in
  if 2 * (a mod b) <=? b then [(q, e); up] else [up; (q, e)].

(** The digits of [{:e}]: the fewest that read back as the same double, and
    of those the nearest to it.  Rust promises no choice between two equally
    near; none is needed, for then both read back, so does the one
    [nearest_digits] gives, and [format_es] uses that. *)
Fixpoint shortest_from (fuel : nat) (x : f64) (n d k : Z) : option (Z * (Z * Z)) :=
  match fuel with
  | O => None
  | S fuel =>
      match List.find (reads_as x k) (candidates n d k) with
      | Some qe => Some (k, qe)
      | None => shortest_from fuel x n d (k + 1)
      end
  end.

(** Every double is a decimal of finitely many digits, at most these. *)
Definition exact_digits (n d : Z) : nat :=
  Z.to_nat (Z.max 1 (Z.log2 d + log10_ratio n d + 1)).

Definition shortest_digits (x : f64) (n d : Z) : option (Z * (Z * Z)) :=
  shortest_from (exact_digits n d) x n d 1.

(** Rust's scientific notation of a value's digits: one digit, the others
    after a point, the exponent. *)
Definition scientific (qe : Z * Z) : string :=
  let '(q, e) := qe in
  match show_N (Z.to_N q) with
  | EmptyString => ""
  | String first rest =>
      String first (if is_empty rest then "" else String "." rest) +:+ String "e" (show_Z e)
  end.

(** The exact value of a finite double's magnitude. *)
Definition ratio_of (x : f64) : option (Z * Z) :=
  match x with S754_finite _ m e => Some (binary_ratio (Zpos m) e) | _ => None end.

(** [format!("{x:e}")] and [format!("{x:.precision$e}")] of a positive finite
    double. *)
Definition lower_exp (x : f64) : option string :=
  '(n, d) ← ratio_of x; '(_, qe) ← shortest_digits x n d; Some (scientific qe).

Definition lower_exp_precision (precision : nat) (x : f64) : option string :=
  '(n, d) ← ratio_of x; Some (scientific (nearest_digits n d (Z.of_nat precision + 1))).

(** [str::parse::<i32>]. *)
Definition parse_i32 (s : string) : option Z :=
  let '(negative, r) :=
    match s with String "-" r => (true, r) | _ => (false, s) end in
  v ← parse_N r;
  let z := if negative : bool then - Z.of_N v else Z.of_N v in
  if (- 2 ^ 31 <=? z) && (z <? 2 ^ 31) then Some z else None.

(** [while digits.len() > 1 && digits.ends_with('0') { digits.pop(); }]: the
    first digit stays, the zeros that end the others go. *)
Fixpoint drop_zeros (s : string) : string :=
  match s with
  | EmptyString => ""
  | String a r =>
      match drop_zeros r with
      | EmptyString => if Ascii.eqb a "0" then "" else String a ""
      | String b r' => String a (String b r')
      end
  end.

Definition trim_zeros (s : string) : string :=
  match s with EmptyString => "" | String a r => String a (drop_zeros r) end.

Fixpoint str_filter (f : ascii -> bool) (s : string) : string :=
  match s with
  | EmptyString => ""
  | String a r => if f a then String a (str_filter f r) else str_filter f r
  end.

(** [split_scientific]. *)
Definition split_scientific (sci : string) : option (string * Z) :=
  '(mantissa, exponent) ← str_split_once "e" sci;
  exponent ← parse_i32 exponent;
  Some (trim_zeros (str_filter is_digit mantissa), exponent).

(** The layout of significant digits [digits] with the decimal point after
    [n] of them. *)
Definition layout (digits : string) (n : Z) : string :=
  let k := Z.of_nat (String.length digits) in
  if (k <=? n) && (n <=? 21) then digits +:+ zeros (Z.to_nat (n - k))
  else if (0 <? n) && (n <=? 21) then
    let split := Z.to_nat n in
    substring 0 split digits +:+ String "." (substring split (String.length digits - split) digits)
  else if (-6 <? n) && (n <=? 0) then "0." +:+ zeros (Z.to_nat (- n)) +:+ digits
  else
    let e := n - 1 in
    substring 0 1 digits
    +:+ (let rest := substring 1 (String.length digits - 1) digits in
         if is_empty rest then "" else String "." rest)
    +:+ String "e" (String (if e <? 0 then "-" else "+") (show_N (Z.abs_N e))).

Definition is_sign_negative (x : f64) : bool :=
  match x with S754_zero s | S754_infinity s | S754_finite s _ _ => s | S754_nan => false end.

Definition format_es (x : f64) : option string :=
  match x with
  | S754_nan | S754_infinity _ => None
  | S754_zero _ => Some "0"%string
  | S754_finite _ _ _ =>
      let magnitude := SFabs x in
      sci ← lower_exp magnitude;
      '(shortest_digits, shortest_exponent) ← split_scientific sci;
      let k := String.length shortest_digits in
      if (k =? 0)%nat then None
      else
        let precision := (k - 1)%nat in
        tie_even ← lower_exp_precision precision magnitude;
        '(digits, exponent) ←
          (if is_some_and (from_str tie_even) (fun y => SFeqb y magnitude)
           then split_scientific tie_even
           else Some (shortest_digits, shortest_exponent));
        let n := exponent + 1 in
        Some ((if is_sign_negative x then "-" else "") +:+ layout digits n)
  end%string.
