(* ===== verification/Float64Facts.v ===== *)
(** Facts about doubles: rounding depends on the value of a ratio alone and is
    exact on doubles; every double has shortest digits; the ECMAScript text of
    a double reads back as the double. *)

From Stdlib Require Import ZArith.
From S2P Require Export Float64.

Local Open Scope Z_scope.

(** * Ratios *)

Lemma scale_spec beta n d e :
  scale beta n d e = (n * beta ^ Z.max 0 (- e), d * beta ^ Z.max 0 e).
Proof.
  unfold scale. destruct (Z.leb_spec 0 e).
  - rewrite (Z.max_l 0 (- e)), (Z.max_r 0 e), Z.pow_0_r, Z.mul_1_r by lia. done.
  - rewrite (Z.max_r 0 (- e)), (Z.max_l 0 e), Z.pow_0_r, Z.mul_1_r by lia. done.
Qed.

(** Comparison with a power, both sides scaled up to integers. *)
Lemma below_at beta n d k j :
  0 < beta -> 0 <= j -> 0 <= j + k ->
  below beta n d k = true <-> n * beta ^ j < d * beta ^ (j + k).
Proof.
  intros Hb Hj Hjk. unfold below. rewrite scale_spec, Z.ltb_lt.
  set (t := j - Z.max 0 (- k)).
  assert (0 < beta ^ t) by (apply Z.pow_pos_nonneg; lia).
  replace (beta ^ j) with (beta ^ Z.max 0 (- k) * beta ^ t)
    by (rewrite <- Z.pow_add_r by lia; f_equal; lia).
  replace (beta ^ (j + k)) with (beta ^ Z.max 0 k * beta ^ t)
    by (rewrite <- Z.pow_add_r by lia; f_equal; lia).
  rewrite !Z.mul_assoc. by rewrite <- Z.mul_lt_mono_pos_r.
Qed.

Lemma not_below_at beta n d k j :
  0 < beta -> 0 <= j -> 0 <= j + k ->
  below beta n d k = false <-> d * beta ^ (j + k) <= n * beta ^ j.
Proof.
  intros. rewrite Z.le_ngt, <- below_at by done.
  destruct (below beta n d k); split; congruence.
Qed.

Lemma below_mono beta n d k k' :
  1 < beta -> 0 < d -> k <= k' -> below beta n d k = true -> below beta n d k' = true.
Proof.
  intros Hb Hd Hk. set (j := Z.max 0 (Z.max (- k) (- k'))).
  rewrite !(below_at beta n d _ j) by lia. intros H.
  apply (Z.lt_le_trans _ _ _ H), Z.mul_le_mono_nonneg_l; [lia|].
  apply Z.pow_le_mono_r; lia.
Qed.

Lemma below_mul beta c n d k :
  0 < beta -> 0 < c -> below beta (c * n) (c * d) k = below beta n d k.
Proof.
  intros Hb Hc. set (j := Z.max 0 (- k)). apply eq_true_iff_eq.
  rewrite !(below_at beta _ _ _ j), <- !Z.mul_assoc by lia.
  by rewrite <- Z.mul_lt_mono_pos_l.
Qed.

(** The greatest exponent of a power not above a ratio is one. *)
Lemma exponent_unique beta n d k k' :
  1 < beta -> 0 < d ->
  below beta n d k = false -> below beta n d (k + 1) = true ->
  below beta n d k' = false -> below beta n d (k' + 1) = true -> k = k'.
Proof.
  intros Hb Hd H1 H2 H3 H4.
  destruct (Z.lt_trichotomy k k') as [H|[H|H]]; [exfalso|done|exfalso].
  - apply (below_mono beta n d (k + 1) k') in H2; [congruence|lia..].
  - apply (below_mono beta n d (k' + 1) k) in H4; [congruence|lia..].
Qed.

Lemma log2_ratio_spec n d :
  0 < n -> 0 < d ->
  below 2 n d (log2_ratio n d) = false /\ below 2 n d (log2_ratio n d + 1) = true.
Proof.
  intros Hn Hd. unfold log2_ratio.
  pose proof (Z.log2_spec n Hn) as [Hn1 Hn2]. pose proof (Z.log2_spec d Hd) as [Hd1 Hd2].
  pose proof (Z.log2_nonneg n). pose proof (Z.log2_nonneg d).
  set (a := Z.log2 n) in *. set (b := Z.log2 d) in *. rewrite <- Z.add_1_r in Hn2, Hd2.
  destruct (below 2 n d (a - b)) eqn:E.
  - rewrite Z.sub_add. split; [|done].
    apply (not_below_at 2 n d _ (b + 1)); [lia..|].
    replace (b + 1 + (a - b - 1)) with a by lia.
    rewrite (Z.mul_comm d), (Z.mul_comm n), Z.pow_add_r by lia.
    pose proof (Z.pow_pos_nonneg 2 a). pose proof (Z.pow_pos_nonneg 2 b).
    rewrite Z.pow_add_r in Hd2 by lia. nia.
  - split; [done|]. apply (below_at 2 n d _ b); [lia..|].
    replace (b + (a - b + 1)) with (a + 1) by lia.
    pose proof (Z.pow_pos_nonneg 2 (a + 1)). pose proof (Z.pow_pos_nonneg 2 b). nia.
Qed.

(** * Rounding *)

Lemma round_half_even_mul c a b :
  0 < c -> 0 < b -> round_half_even (c * a) (c * b) = round_half_even a b.
Proof.
  intros Hc Hb. unfold round_half_even.
  rewrite Z.div_mul_cancel_l, Z.mul_mod_distr_l by lia.
  assert (forall x y, (2 * (c * x) <? c * y) = (2 * x <? y)) as ->.
  { intros. apply eq_true_iff_eq. rewrite !Z.ltb_lt. nia. }
  assert (forall x y, (2 * (c * x) =? c * y) = (2 * x =? y)) as ->; [|done].
  intros. apply eq_true_iff_eq. rewrite !Z.eqb_eq. nia.
Qed.

Lemma scale_mul beta c n d e :
  scale beta (c * n) (c * d) e = let '(a, b) := scale beta n d e in (c * a, c * b).
Proof. rewrite !scale_spec. by rewrite !Z.mul_assoc. Qed.

Lemma scale_pos beta n d e a b :
  0 < beta -> 0 <= n -> 0 < d -> scale beta n d e = (a, b) -> 0 <= a /\ 0 < b.
Proof.
  intros. rewrite scale_spec in *. simplify_eq.
  pose proof (Z.pow_pos_nonneg beta (Z.max 0 (- e))).
  pose proof (Z.pow_pos_nonneg beta (Z.max 0 e)). nia.
Qed.

Lemma log2_ratio_mul c n d :
  0 < c -> 0 < n -> 0 < d -> log2_ratio (c * n) (c * d) = log2_ratio n d.
Proof.
  intros. destruct (log2_ratio_spec n d) as [H2 H3]; [done..|].
  destruct (log2_ratio_spec (c * n) (c * d)) as [H4 H5]; [lia..|].
  rewrite below_mul in H4, H5 by lia. by apply (exponent_unique 2 n d).
Qed.

Lemma of_ratio_mul s c n d :
  0 < c -> 0 <= n -> 0 < d -> of_ratio s (c * n) (c * d) = of_ratio s n d.
Proof.
  intros Hc Hn Hd. unfold of_ratio. destruct (Z.eqb_spec n 0) as [->|Hn0].
  - by rewrite Z.mul_0_r.
  - destruct (Z.eqb_spec (c * n) 0); [nia|].
    rewrite log2_ratio_mul, scale_mul by lia.
    destruct (scale 2 n d _) as [a b] eqn:E.
    apply scale_pos in E as [Ha Hb]; [|lia..]. by rewrite round_half_even_mul.
Qed.

(** Reading depends on the value of the ratio alone. *)
Lemma of_ratio_eq s n d n' d' :
  0 <= n -> 0 < d -> 0 <= n' -> 0 < d' -> n * d' = n' * d ->
  of_ratio s n d = of_ratio s n' d'.
Proof.
  intros Hn Hd Hn' Hd' E.
  rewrite <- (of_ratio_mul s d' n d), <- (of_ratio_mul s d n' d') by done.
  f_equal; lia.
Qed.

Lemma decimal_ratio_spec m e :
  decimal_ratio m e = (m * 10 ^ Z.max 0 e, 10 ^ Z.max 0 (- e)).
Proof.
  unfold decimal_ratio. rewrite scale_spec, Z.opp_involutive. by rewrite Z.mul_1_l.
Qed.

Lemma binary_ratio_spec m e :
  binary_ratio m e = (m * 2 ^ Z.max 0 e, 2 ^ Z.max 0 (- e)).
Proof.
  unfold binary_ratio. rewrite scale_spec, Z.opp_involutive. by rewrite Z.mul_1_l.
Qed.

(** A numeral that denotes a ratio reads as it. *)
Lemma of_decimal_ratio s m e n d j :
  0 <= m -> 0 <= n -> 0 < d -> 0 <= j -> 0 <= j + e ->
  m * 10 ^ (j + e) * d = n * 10 ^ j -> of_decimal s m e = of_ratio s n d.
Proof.
  intros Hm Hn Hd Hj Hje E. unfold of_decimal. rewrite decimal_ratio_spec.
  pose proof (Z.pow_pos_nonneg 10 (Z.max 0 e)). pose proof (Z.pow_pos_nonneg 10 (Z.max 0 (- e))).
  apply of_ratio_eq; [nia|lia..|].
  set (t := j - Z.max 0 (- e)). assert (0 < 10 ^ t) by (apply Z.pow_pos_nonneg; lia).
  apply (Z.mul_reg_r _ _ (10 ^ t)); [lia|].
  replace (10 ^ j) with (10 ^ Z.max 0 (- e) * 10 ^ t) in E
    by (rewrite <- Z.pow_add_r by lia; f_equal; lia).
  replace (10 ^ (j + e)) with (10 ^ Z.max 0 e * 10 ^ t) in E
    by (rewrite <- Z.pow_add_r by lia; f_equal; lia).
  lia.
Qed.

(** Zeros at the end of a numeral may go into its exponent. *)
Lemma of_decimal_shift s m e j :
  0 <= m -> 0 <= j -> of_decimal s (m * 10 ^ j) e = of_decimal s m (e + j).
Proof.
  intros Hm Hj. pose proof (Z.pow_pos_nonneg 10 j).
  unfold of_decimal at 2. rewrite decimal_ratio_spec. set (i := Z.max 0 (- e)).
  pose proof (Z.pow_pos_nonneg 10 (Z.max 0 (e + j))).
  pose proof (Z.pow_pos_nonneg 10 (Z.max 0 (- (e + j)))).
  apply (of_decimal_ratio _ _ _ _ _ i); [nia|nia|lia..|].
  rewrite <- !Z.mul_assoc, <- !Z.pow_add_r by lia. do 2 f_equal. lia.
Qed.

(** ** Doubles *)

(** The doubles: 53 bits of significand, all of them used above the least
    exponent. *)
Definition valid (x : f64) : bool := valid_binary 53 1024 x.

Lemma digits2_pos_log2 m : Zpos (digits2_pos m) = Z.log2 (Zpos m) + 1.
Proof.
  change (digits2_pos m) with (Pos.size m). destruct m; simpl; lia.
Qed.

Lemma log2_lt m k : 0 < k -> (Z.log2 (Zpos m) < k <-> Zpos m < 2 ^ k).
Proof. intros. symmetry. apply Z.log2_lt_pow2. lia. Qed.

Lemma valid_finite s m e :
  valid (S754_finite s m e) = true <->
  Zpos m < 2 ^ 53 /\ MIN_EXPONENT <= e <= MAX_EXPONENT /\ (2 ^ 52 <= Zpos m \/ e = MIN_EXPONENT).
Proof.
  unfold valid, valid_binary, bounded, canonical_mantissa, fexp, emin, MIN_EXPONENT, MAX_EXPONENT.
  rewrite digits2_pos_log2, andb_true_iff, Z.eqb_eq, Z.leb_le, <- log2_lt by lia.
  assert (2 ^ 52 <= Zpos m <-> 52 <= Z.log2 (Zpos m)) as ->
    by (rewrite Z.le_ngt, <- log2_lt by lia; lia).
  pose proof (Z.log2_nonneg (Zpos m)). lia.
Qed.

Lemma log2_ratio_binary m e :
  log2_ratio (binary_ratio (Zpos m) e).1 (binary_ratio (Zpos m) e).2 = Z.log2 (Zpos m) + e.
Proof.
  rewrite binary_ratio_spec; cbn [fst snd].
  pose proof (Z.pow_pos_nonneg 2 (Z.max 0 e)). pose proof (Z.pow_pos_nonneg 2 (Z.max 0 (- e))).
  destruct (log2_ratio_spec (Zpos m * 2 ^ Z.max 0 e) (2 ^ Z.max 0 (- e))) as [H2 H3]; [lia..|].
  eapply (exponent_unique 2); [lia| |exact H2|exact H3|..]; [lia|..];
    pose proof (Z.log2_spec (Zpos m)) as Hm; pose proof (Z.log2_nonneg (Zpos m)).
  - apply (not_below_at 2 _ _ _ (Z.max 0 (- e))); [lia..|].
    rewrite <- Z.pow_add_r, <- Z.mul_assoc, <- Z.pow_add_r by lia.
    replace (Z.max 0 (- e) + (Z.max 0 (- e) + (Z.log2 (Zpos m) + e)))
      with (Z.log2 (Zpos m) + (Z.max 0 e + Z.max 0 (- e))) by lia.
    rewrite (Z.pow_add_r 2 (Z.log2 (Zpos m))) by lia. apply Z.mul_le_mono_nonneg_r; [|lia].
    apply Z.pow_nonneg; lia.
  - apply (below_at 2 _ _ _ (Z.max 0 (- e))); [lia..|].
    rewrite <- Z.pow_add_r, <- Z.mul_assoc, <- Z.pow_add_r by lia.
    replace (Z.max 0 (- e) + (Z.max 0 (- e) + (Z.log2 (Zpos m) + e + 1)))
      with (Z.succ (Z.log2 (Zpos m)) + (Z.max 0 e + Z.max 0 (- e))) by lia.
    rewrite (Z.pow_add_r 2 (Z.succ (Z.log2 (Zpos m)))) by lia.
    apply Z.mul_lt_mono_pos_r; [|lia]. apply Z.pow_pos_nonneg; lia.
Qed.

Lemma round_half_even_exact q b : 0 < b -> round_half_even (q * b) b = q.
Proof.
  intros Hb. unfold round_half_even. rewrite Z.div_mul, Z.mod_mul by lia.
  by replace (2 * 0 <? b) with true by (symmetry; apply Z.ltb_lt; lia).
Qed.

(** Reading is exact on doubles. *)
Lemma of_ratio_exact s m e :
  valid (S754_finite s m e) = true ->
  of_ratio s (binary_ratio (Zpos m) e).1 (binary_ratio (Zpos m) e).2 = S754_finite s m e.
Proof.
  intros Hv. pose proof Hv as (Hm & He & Hme)%valid_finite. unfold of_ratio.
  rewrite log2_ratio_binary, binary_ratio_spec; cbn [fst snd].
  pose proof (Z.pow_pos_nonneg 2 (Z.max 0 e)). pose proof (Z.pow_pos_nonneg 2 (Z.max 0 (- e))).
  destruct (Z.eqb_spec (Zpos m * 2 ^ Z.max 0 e) 0); [lia|].
  replace (Z.max (Z.log2 (Zpos m) + e - 52) MIN_EXPONENT) with e.
  2:{ pose proof (proj2 (log2_lt m 53 ltac:(lia)) Hm).
      destruct Hme as [Hme| ->]; [|lia].
      pose proof (Z.log2_le_mono _ _ Hme) as Hl. rewrite Z.log2_pow2 in Hl by lia.
      unfold MIN_EXPONENT in *; lia. }
  rewrite scale_spec, <- Z.mul_assoc, Z.mul_comm, <- Z.pow_add_r by lia.
  replace (2 ^ Z.max 0 (- e) * 2 ^ Z.max 0 e) with (2 ^ (Z.max 0 e + Z.max 0 (- e)))
    by (rewrite <- Z.pow_add_r by lia; f_equal; lia).
  rewrite Z.mul_comm, round_half_even_exact by (apply Z.pow_pos_nonneg; lia).
  unfold pack. destruct (Z.eqb_spec (Zpos m) (2 ^ 53)); [lia|].
  by destruct (Z.ltb_spec MAX_EXPONENT e); [lia|].
Qed.

(** What is read is a double. *)
Lemma round_half_even_bounds a b lo hi :
  0 < b -> lo * b <= a -> a < hi * b -> lo <= round_half_even a b <= hi.
Proof.
  intros Hb Hlo Hhi. unfold round_half_even.
  pose proof (Z.div_le_lower_bound a b lo Hb). pose proof (Z.div_lt_upper_bound a b hi Hb).
  case_match; lia.
Qed.

Lemma pack_valid s q e :
  0 <= q <= 2 ^ 53 -> MIN_EXPONENT <= e -> (2 ^ 52 <= q \/ e = MIN_EXPONENT) ->
  valid (pack s q e) = true.
Proof.
  intros Hq He Hqe. unfold pack. destruct q as [|p|p]; [done| |lia].
  destruct (Z.eqb_spec (Zpos p) (2 ^ 53)).
  - destruct (Z.ltb_spec MAX_EXPONENT (e + 1)); [done|].
    apply valid_finite. split_and!; [done|unfold MIN_EXPONENT in *; lia|lia|by left].
  - destruct (Z.ltb_spec MAX_EXPONENT e); [done|].
    apply valid_finite. split_and!; [lia|lia|lia|done].
Qed.

Lemma of_ratio_valid s n d : 0 <= n -> 0 < d -> valid (of_ratio s n d) = true.
Proof.
  intros Hn Hd. unfold of_ratio. destruct (Z.eqb_spec n 0); [done|].
  destruct (log2_ratio_spec n d) as [H1 H2]; [lia..|].
  set (k := log2_ratio n d) in *. set (e := Z.max (k - 52) MIN_EXPONENT).
  assert (below 2 n d (e + 53) = true) as Hhi by (apply (below_mono 2 _ _ (k + 1)); [lia..|done]).
  set (j := Z.max 0 (- e) + 53). apply (below_at 2 _ _ _ j) in Hhi; [|lia..].
  destruct (scale 2 n d e) as [a b] eqn:E. pose proof (scale_pos 2 n d e a b).
  rewrite scale_spec in E. simplify_eq. set (t := 2 ^ 53) in *.
  replace (2 ^ j) with (2 ^ Z.max 0 (- e) * t) in Hhi
    by (unfold j, t; rewrite <- Z.pow_add_r by lia; f_equal; lia).
  replace (2 ^ (j + (e + 53))) with (2 ^ Z.max 0 e * t * t) in Hhi
    by (unfold j, t; rewrite <- !Z.pow_add_r by lia; f_equal; lia).
  assert (0 < t) by done.
  assert (n * 2 ^ Z.max 0 (- e) < t * (d * 2 ^ Z.max 0 e)) as Hhi' by nia.
  apply pack_valid; [|lia|].
  - apply round_half_even_bounds; lia.
  - destruct (Z.eq_dec e MIN_EXPONENT); [by right|]. left. assert (e = k - 52) as He by lia.
    apply round_half_even_bounds with (hi := t); [lia| |done].
    replace k with (e + 52) in H1 by lia.
    apply (not_below_at 2 _ _ _ (Z.max 0 (- e))) in H1; [|lia..].
    replace (2 ^ (Z.max 0 (- e) + (e + 52))) with (2 ^ Z.max 0 e * 2 ^ 52) in H1
      by (rewrite <- !Z.pow_add_r by lia; f_equal; lia).
    lia.
Qed.

(** * Digits *)

Lemma digit_count_spec z : 0 < z -> 10 ^ (digit_count z - 1) <= z < 10 ^ digit_count z.
Proof.
  intros Hz. pose proof (show_N_length (Z.to_N z) ltac:(lia)) as [H1 H2].
  pose proof (show_N_length_pos (Z.to_N z)). unfold digit_count, len in *.
  set (l := String.length (show_N (Z.to_N z))) in *.
  apply N2Z.inj_le in H1. apply N2Z.inj_lt in H2. rewrite N2Z.inj_pow, ?Z2N.id in H1, H2 by lia.
  rewrite N2Z.inj_sub, nat_N_Z in H1 by lia. rewrite nat_N_Z in H2. done.
Qed.

Lemma digit_count_pos z : 1 <= digit_count z.
Proof. pose proof (show_N_length_pos (Z.to_N z)). unfold digit_count. lia. Qed.

Lemma log10_ratio_spec n d :
  0 < n -> 0 < d ->
  below 10 n d (log10_ratio n d) = false /\ below 10 n d (log10_ratio n d + 1) = true.
Proof.
  intros Hn Hd. unfold log10_ratio. destruct (Z.leb_spec d n) as [Hdn|Hdn].
  - assert (0 < n / d) as Hq by (apply Z.div_str_pos; lia).
    pose proof (digit_count_spec _ Hq) as [H1 H2]. pose proof (digit_count_pos (n / d)).
    pose proof (Z.mul_div_le n d Hd). pose proof (Z.mul_succ_div_gt n d Hd).
    set (c := digit_count (n / d)) in *. rewrite Z.sub_add. split.
    + apply (not_below_at 10 n d _ 0); [lia..|]. rewrite Z.add_0_l, Z.pow_0_r. nia.
    + apply (below_at 10 n d _ 0); [lia..|]. rewrite Z.add_0_l, Z.pow_0_r. nia.
  - assert (0 < (d - 1) / n) as Hq by (apply Z.div_str_pos; lia).
    pose proof (digit_count_spec _ Hq) as [H1 H2]. pose proof (digit_count_pos ((d - 1) / n)).
    pose proof (Z.mul_div_le (d - 1) n Hn). pose proof (Z.mul_succ_div_gt (d - 1) n Hn).
    set (c := digit_count ((d - 1) / n)) in *. split.
    + apply (not_below_at 10 n d _ c); [lia..|]. rewrite Z.add_opp_diag_r, Z.pow_0_r. nia.
    + apply (below_at 10 n d _ (c - 1)); [lia..|].
      replace (c - 1 + (- c + 1)) with 0 by lia. rewrite Z.pow_0_r. nia.
Qed.

(** A value of [k] digits at the exponent of its first. *)
Definition has_digits (k : Z) (qe : Z * Z) : Prop := 10 ^ (k - 1) <= qe.1 < 10 ^ k.

Lemma pow10_split k : 1 <= k -> 10 ^ k = 10 * 10 ^ (k - 1) /\ 0 < 10 ^ (k - 1).
Proof.
  intros. split; [|apply Z.pow_pos_nonneg; lia].
  replace k with (1 + (k - 1)) at 1 by lia. rewrite Z.pow_add_r; lia.
Qed.

Lemma carry_digits k q e :
  1 <= k -> 10 ^ (k - 1) <= q <= 10 ^ k -> has_digits k (carry k (q, e)).
Proof.
  intros Hk Hq. unfold has_digits, carry. pose proof (pow10_split k Hk).
  destruct (Z.eqb_spec q (10 ^ k)); cbn [fst snd]; lia.
Qed.

Lemma carry_exponent k q e : e <= (carry k (q, e)).2 <= e + 1.
Proof. unfold carry. case_match; cbn [snd]; lia. Qed.

(** The scaled value lies between the powers its digits need. *)
Lemma scaled_digits n d k a b :
  0 < n -> 0 < d -> 1 <= k -> scale 10 n d (log10_ratio n d - (k - 1)) = (a, b) ->
  0 < b /\ 10 ^ (k - 1) * b <= a /\ a < 10 ^ k * b.
Proof.
  intros Hn Hd Hk E. pose proof (log10_ratio_spec n d Hn Hd) as [H1 H2].
  set (l := log10_ratio n d) in *. set (e := l - (k - 1)) in *.
  pose proof (scale_pos 10 n d e a b) as Hb. rewrite scale_spec in E. simplify_eq.
  destruct (pow10_split k Hk) as [Hk1 Hk2]. set (j := Z.max 0 (- e)). split; [lia|].
  assert (0 < 10 ^ (k - 1)) by done.
  apply (not_below_at 10 n d _ (j + (k - 1))) in H1; [|lia..].
  apply (below_at 10 n d _ (j + (k - 1))) in H2; [|lia..].
  replace (10 ^ (j + (k - 1))) with (10 ^ j * 10 ^ (k - 1)) in H1, H2
    by (rewrite <- Z.pow_add_r by lia; f_equal; lia).
  replace (10 ^ (j + (k - 1) + (l + 1))) with (10 * 10 ^ (j + (k - 1) + l)) in H2
    by (rewrite <- Z.pow_succ_r by lia; f_equal; lia).
  replace (10 ^ (j + (k - 1) + l)) with (10 ^ Z.max 0 e * 10 ^ (k - 1) * 10 ^ (k - 1)) in H1, H2
    by (rewrite <- !Z.pow_add_r by lia; f_equal; lia).
  fold j. rewrite Hk1. split.
  - apply (Z.mul_le_mono_pos_r _ _ (10 ^ (k - 1))); lia.
  - apply (Z.mul_lt_mono_pos_r (10 ^ (k - 1))); lia.
Qed.

Lemma nearest_digits_digits n d k :
  0 < n -> 0 < d -> 1 <= k ->
  has_digits k (nearest_digits n d k) /\
  log10_ratio n d <= (nearest_digits n d k).2 <= log10_ratio n d + 1.
Proof.
  intros Hn Hd Hk. unfold nearest_digits. destruct (scale _ _ _ _) as [a b] eqn:E.
  apply scaled_digits in E as (Hb & H1 & H2); [|done..]. split; [|apply carry_exponent].
  apply carry_digits; [done|]. by apply round_half_even_bounds.
Qed.

Lemma candidates_digits n d k qe :
  0 < n -> 0 < d -> 1 <= k -> In qe (candidates n d k) ->
  has_digits k qe /\ log10_ratio n d <= qe.2 <= log10_ratio n d + 1.
Proof.
  intros Hn Hd Hk. unfold candidates. destruct (scale _ _ _ _) as [a b] eqn:E.
  apply scaled_digits in E as (Hb & H1 & H2); [|done..].
  pose proof (Z.div_le_lower_bound a b (10 ^ (k - 1)) Hb).
  pose proof (Z.div_lt_upper_bound a b (10 ^ k) Hb).
  assert (forall e, has_digits k (a / b, e) /\ has_digits k (carry k (a / b + 1, e))) as Hd'.
  { intros e. split; [unfold has_digits; cbn [fst]; lia|apply carry_digits; [done|lia]]. }
  destruct (Hd' (log10_ratio n d)) as [Hf Hu].
  pose proof (carry_exponent k (a / b + 1) (log10_ratio n d)).
  case_match; intros [<-|[<-|[]]]; split; try done; cbn [snd]; lia.
Qed.

(** ** The shortest digits exist *)

Lemma SFeqb_refl s m e : SFeqb (S754_finite s m e) (S754_finite s m e) = true.
Proof.
  unfold SFeqb, SFcompare. destruct s; rewrite Z.compare_refl, Pos.compare_cont_refl; done.
Qed.

Lemma SFeqb_finite x s m e : SFeqb x (S754_finite s m e) = true -> x = S754_finite s m e.
Proof.
  unfold SFeqb, SFcompare. destruct x as [[]|[]| |[] m' e'], s; try done;
    destruct (Z.compare_spec e' e) as [->|?|?]; try done;
    destruct (Pos.compare_cont Eq m' m) eqn:E; try done;
    change (Pos.compare_cont Eq m' m) with (Pos.compare m' m) in E;
    by apply Pos.compare_eq in E as ->.
Qed.

Lemma shortest_from_Some fuel x n d k k' qe :
  shortest_from fuel x n d k = Some (k', qe) ->
  k <= k' /\ In qe (candidates n d k') /\ reads_as x k' qe = true.
Proof.
  revert k; induction fuel as [|fuel IH]; intros k; [done|]. cbn [shortest_from].
  destruct (List.find _ _) as [qe'|] eqn:E.
  - intros [= <- <-]. apply find_some in E as [? ?]. split_and!; [lia|done|done].
  - intros H%IH. destruct_and!. split_and!; [lia|done|done].
Qed.

Lemma shortest_from_exists fuel x n d k k' qe :
  k <= k' < k + Z.of_nat fuel -> In qe (candidates n d k') -> reads_as x k' qe = true ->
  is_Some (shortest_from fuel x n d k).
Proof.
  intros Hk Hin Hr. revert k Hk; induction fuel as [|fuel IH]; intros k Hk; [lia|].
  cbn [shortest_from]. destruct (List.find _ _) as [qe'|] eqn:E; [done|].
  apply IH. destruct (Z.eq_dec k k') as [->|]; [|lia].
  eapply find_none in E; [|exact Hin]. congruence.
Qed.

(** With all its digits a double reads back exactly. *)
Lemma shortest_digits_exist m e :
  let x := S754_finite false m e in
  let '(n, d) := binary_ratio (Zpos m) e in
  valid x = true -> is_Some (shortest_digits x n d).
Proof.
  intros x. destruct (binary_ratio (Zpos m) e) as [n d] eqn:Er. intros Hv.
  pose proof (of_ratio_exact _ _ _ Hv) as Hx. rewrite Er in Hx; cbn [fst snd] in Hx.
  rewrite binary_ratio_spec in Er. injection Er as Hn Hd.
  set (t := Z.max 0 (- e)) in *. pose proof (Z.pow_pos_nonneg 2 (Z.max 0 e)).
  pose proof (Z.pow_pos_nonneg 2 t). assert (0 < n /\ 0 < d) as [Hn0 Hd0] by nia.
  unfold shortest_digits, exact_digits. set (l := log10_ratio n d).
  assert (Z.log2 d = t) as -> by (subst d; apply Z.log2_pow2; lia).
  set (k := Z.max 1 (t + l + 1)). set (j := k - 1 - l).
  destruct (scale 10 n d (l - (k - 1))) as [a b] eqn:E. pose proof E as E'.
  rewrite scale_spec, (Z.max_r 0), (Z.max_l 0), Z.pow_0_r, Z.mul_1_r in E by lia.
  replace (- (l - (k - 1))) with j in E by lia. injection E as Ha Hb. subst b.
  assert (a mod d = 0) as Hmod.
  { subst a. change 10 with (2 * 5). rewrite Z.pow_mul_l.
    replace j with (t + (j - t)) at 1 by lia. rewrite Z.pow_add_r, <- Hd by lia.
    replace (n * (2 ^ t * 2 ^ (j - t) * 5 ^ j)) with (n * 2 ^ (j - t) * 5 ^ j * 2 ^ t) by lia.
    apply Z.mod_mul. lia. }
  apply shortest_from_exists with (k' := k) (qe := (a / d, l)); [lia|..].
  - unfold candidates. fold l. rewrite E', Hmod.
    replace (2 * 0 <=? d) with true by (symmetry; apply Z.leb_le; lia). by left.
  - assert (0 <= a) by (subst a; pose proof (Z.pow_pos_nonneg 10 j); nia).
    pose proof (Z.div_mod a d). pose proof (Z.div_pos a d).
    cut (of_decimal false (a / d) (l - (k - 1)) = S754_finite false m e); [unfold reads_as; intros ->; apply SFeqb_refl|].
    rewrite <- Hx. apply (of_decimal_ratio _ _ _ _ _ j); [lia..|].
    replace (j + (l - (k - 1))) with 0 by lia. rewrite Z.pow_0_r. lia.
Qed.

(** * Numerals *)

(** The integer part of a JSON number. *)
Definition integer_part (s : string) : Prop :=
  s = "0"%string \/
  str_all is_digit s = true /\ is_empty s = false /\ starts_with_char "0" s = false.

Definition fraction (s : string) : string :=
  (if is_empty s then "" else String "." s)%string.

(** An exponent, or none, and its value. *)
Inductive exponent_part : string -> Z -> Prop :=
| no_exponent : exponent_part "" 0
| some_exponent (sign : string) ds :
    str_all is_digit ds = true -> is_empty ds = false ->
    In sign ["" ; "+"; "-"]%string ->
    exponent_part (String "e" (sign +:+ ds))
      (if String.eqb sign "-" then - Z.of_N (digits_value ds) else Z.of_N (digits_value ds)).

(** The parts of a number's text. *)
Record numeral := { integer : string; fractional : string; exponent : string; power : Z }.

Definition numeral_text (u : numeral) : string :=
  integer u +:+ fraction (fractional u) +:+ exponent u.

Definition numeral_ok (u : numeral) : Prop :=
  integer_part (integer u) /\ str_all is_digit (fractional u) = true /\
  exponent_part (exponent u) (power u).

Definition numeral_read (s : bool) (u : numeral) : f64 :=
  of_decimal s (Z.of_N (digits_value (integer u +:+ fractional u)))
    (power u - Z.of_nat (String.length (fractional u))).

Lemma integer_part_digits s :
  integer_part s -> str_all is_digit s = true /\ is_empty s = false.
Proof. intros [->|(? & ? & _)]; done. Qed.

Lemma span_digits_app s t :
  str_all is_digit s = true ->
  match t with String a _ => is_digit a = false | EmptyString => True end ->
  span_digits (s +:+ t) = (s, t).
Proof.
  intros Hs Ht. induction s as [|a s IH]; simpl.
  - destruct t as [|a t]; [done|]. simpl. by rewrite Ht.
  - simpl in Hs. bool_to_prop. by rewrite H, IH.
Qed.

Lemma exponent_part_head x e :
  exponent_part x e -> x = ""%string \/ exists r, x = String "e" r.
Proof. destruct 1; eauto. Qed.

Lemma exponent_of_part x e : exponent_part x e -> exponent_of x = Some e.
Proof.
  destruct 1 as [|sign ds Hd Hne Hs]; [done|].
  destruct ds as [|a ds]; [done|]. pose proof Hd as Ha. simpl in Ha. bool_to_prop.
  assert (is_digit "-" = false /\ is_digit "+" = false) as [? ?] by done.
  destruct Hs as [<-|[<-|[<-|[]]]]; unfold exponent_of; cbn [one_of existsb Ascii.eqb append];
    [|rewrite Hd; done..].
  cbn. destruct a as [[] [] [] [] [] [] [] []]; try done; by rewrite Hd.
Qed.

Lemma from_str_numeral (s : bool) u :
  numeral_ok u ->
  from_str ((if s then "-" else "")%string +:+ numeral_text u) = Some (numeral_read s u).
Proof.
  destruct u as [i f x e]; intros (Hi & Hf & Hx); cbn in Hi, Hf, Hx.
  unfold numeral_text, numeral_read; cbn [integer fractional exponent power].
  apply integer_part_digits in Hi as [Hi Hne].
  assert (span_digits (i +:+ fraction f +:+ x) = (i, fraction f +:+ x)) as Hspan.
  { apply span_digits_app; [done|]. unfold fraction. destruct f; simpl; [|done].
    destruct (exponent_part_head x e Hx) as [->|[r ->]]; done. }
  assert (is_empty (i +:+ f) = false) as Hne' by (by destruct i).
  assert (match fraction f +:+ x with
          | String "." r => span_digits r | _ => (""%string, fraction f +:+ x) end = (f, x)) as Hfrac.
  { unfold fraction. destruct f as [|a f]; cbn [is_empty append].
    - by destruct (exponent_part_head x e Hx) as [->|[r ->]].
    - apply (span_digits_app (String a f) x); [done|].
      by destruct (exponent_part_head x e Hx) as [->|[r ->]]. }
  unfold from_str. destruct s; cbn [append].
  - rewrite Hspan, Hfrac, Hne', (exponent_of_part x e Hx). done.
  - destruct i as [|a i]; [done|]. pose proof Hi as Ha. simpl in Ha. bool_to_prop.
    replace (match (String a i +:+ fraction f +:+ x)%string with
             | String "-" r => (true, r)
             | _ => (false, (String a i +:+ fraction f +:+ x)%string) end)
      with (false, (String a i +:+ fraction f +:+ x)%string).
    2:{ simpl. by destruct a as [[] [] [] [] [] [] [] []]. }
    rewrite Hspan, Hfrac, Hne', (exponent_of_part x e Hx). done.
Qed.

(** ** Scientific notation *)

Lemma show_N_integer_part n : (n <> 0)%N -> integer_part (show_N n).
Proof.
  intros Hn. right. split_and!; [apply show_N_digits|apply show_N_not_empty|].
  destruct (starts_with_char "0" (show_N n)) eqn:E; [|done]. by apply show_N_zero in E.
Qed.

Lemma show_Z_exponent z : exponent_part (String "e" (show_Z z)) z.
Proof.
  destruct (show_Z_cases z) as [[Hz ->]|[Hz ->]].
  - pose proof (some_exponent "" (show_N (Z.to_N z)) (show_N_digits _) (show_N_not_empty _)) as H.
    cbn in H. rewrite digits_value_show, Z2N.id in H by lia. apply H. by left.
  - pose proof (some_exponent "-" (show_N (Z.to_N (- z))) (show_N_digits _) (show_N_not_empty _)) as H.
    cbn in H. rewrite digits_value_show, Z2N.id, Z.opp_involutive in H by lia. apply H. simpl. tauto.
Qed.

(** A value of [k] digits prints as [k] digits. *)
Lemma show_has_digits k q e :
  1 <= k -> has_digits k (q, e) -> Z.of_nat (String.length (show_N (Z.to_N q))) = k.
Proof.
  intros Hk Hq. unfold has_digits in Hq; cbn [fst] in Hq. fold (digit_count q).
  destruct (pow10_split k Hk). pose proof (digit_count_spec q ltac:(lia)) as [H1 H2].
  pose proof (digit_count_pos q).
  destruct (Z.lt_trichotomy (digit_count q) k) as [Hc|[Hc|Hc]]; [exfalso|done|exfalso].
  - pose proof (Z.pow_le_mono_r 10 (digit_count q) (k - 1)). lia.
  - pose proof (Z.pow_le_mono_r 10 k (digit_count q - 1)). lia.
Qed.

Lemma scientific_numeral k q e :
  1 <= k -> has_digits k (q, e) ->
  exists u, scientific (q, e) = numeral_text u /\ numeral_ok u /\
    forall s, numeral_read s u = of_decimal s q (e - (k - 1)).
Proof.
  intros Hk Hq. pose proof (show_has_digits k q e Hk Hq) as Hlen.
  destruct (pow10_split k Hk). unfold has_digits in Hq; cbn [fst] in Hq.
  pose proof (digits_value_show (Z.to_N q)) as Hval. pose proof (show_N_digits (Z.to_N q)) as Hd.
  unfold scientific. destruct (show_N (Z.to_N q)) as [|a r] eqn:E; [simpl in Hlen; lia|].
  exists {| integer := String a ""; fractional := r; exponent := String "e" (show_Z e); power := e |}.
  split_and!; [done|split_and!; cbn|].
  - simpl in Hd. bool_to_prop. destruct (Ascii.eqb_spec a "0") as [->|Ha]; [by left|right].
    cbn [starts_with_char str_all]. apply Ascii.eqb_neq in Ha as ->. by rewrite H1.
  - simpl in Hd. by bool_to_prop.
  - apply show_Z_exponent.
  - intros s. unfold numeral_read; cbn [integer fractional power append]. rewrite Hval.
    rewrite Z2N.id by lia. f_equal. simpl in Hlen. lia.
Qed.

Lemma parse_i32_show z : - 2 ^ 31 <= z < 2 ^ 31 -> parse_i32 (show_Z z) = Some z.
Proof.
  intros Hz. unfold parse_i32.
  destruct (show_Z_cases z) as [[Hp ->]|[Hn ->]].
  - pose proof (show_N_digits (Z.to_N z)) as Hd.
    replace (match show_N (Z.to_N z) with
             | String "-" r => (true, r) | _ => (false, show_N (Z.to_N z)) end)
      with (false, show_N (Z.to_N z)).
    + rewrite parse_N_show; cbn [mbind option_bind]. rewrite Z2N.id by lia.
      destruct (Z.leb_spec (- 2 ^ 31) z), (Z.ltb_spec z (2 ^ 31)); try lia. done.
    + destruct (show_N (Z.to_N z)) as [|a r]; [done|]. simpl in Hd. bool_to_prop.
      by destruct a as [[] [] [] [] [] [] [] []].
  - rewrite parse_N_show; cbn [mbind option_bind]. rewrite Z2N.id, Z.opp_involutive by lia.
    destruct (Z.leb_spec (- 2 ^ 31) z), (Z.ltb_spec z (2 ^ 31)); try lia. done.
Qed.

(** ** Trailing zeros *)

Lemma drop_zeros_spec s : exists j, s = drop_zeros s +:+ zeros j.
Proof.
  induction s as [|a s [j IH]]; [by exists 0%nat|]. cbn [drop_zeros].
  destruct (drop_zeros s) as [|b r].
  - destruct (Ascii.eqb_spec a "0") as [->|_]; [exists (S j)|exists j]; simpl; by f_equal.
  - exists j. rewrite IH at 1. done.
Qed.

Lemma trim_zeros_spec s : exists j, s = trim_zeros s +:+ zeros j.
Proof.
  destruct s as [|a s]; [by exists 0%nat|]. destruct (drop_zeros_spec s) as [j Hj].
  exists j. cbn [trim_zeros append]. by rewrite <- Hj.
Qed.

Lemma str_filter_all f s : str_all f s = true -> str_filter f s = s.
Proof. induction s as [|a s IH]; simpl; [done|]. intros [-> Hs]%andb_true_iff. by rewrite IH. Qed.

Lemma digits_no_e s : str_all is_digit s = true -> str_contains "e" s = false.
Proof. by apply str_all_not_contains. Qed.

(** [split_scientific] takes apart what scientific notation put together. *)
Lemma split_scientific_spec k q e :
  1 <= k -> has_digits k (q, e) -> - 2 ^ 31 <= e < 2 ^ 31 ->
  split_scientific (scientific (q, e)) = Some (trim_zeros (show_N (Z.to_N q)), e).
Proof.
  intros Hk Hq He. pose proof (show_N_digits (Z.to_N q)) as Hd.
  pose proof (show_N_not_empty (Z.to_N q)).
  unfold scientific, split_scientific. destruct (show_N (Z.to_N q)) as [|a r]; [done|].
  simpl in Hd. apply andb_true_iff in Hd as [Ha Hr].
  change (String a (if is_empty r then "" else String "." r) +:+ String "e" (show_Z e))%string
    with (String a (fraction r) +:+ String "e" (show_Z e))%string.
  assert (is_digit "." = false) as Hdot by done.
  rewrite str_split_once_app.
  - cbn [mbind option_bind]. rewrite parse_i32_show by done. cbn [mbind option_bind].
    do 3 f_equal. cbn [str_filter]. rewrite Ha. f_equal. unfold fraction.
    destruct r as [|b r]; [done|]. cbn [is_empty str_filter]. rewrite Hdot. exact (str_filter_all _ _ Hr).
  - simpl. apply orb_false_iff. split; [by destruct a as [[] [] [] [] [] [] [] []]|].
    unfold fraction. destruct r; simpl; [done|]. exact (digits_no_e _ Hr).
Qed.

(** ** The ECMAScript layout *)

Section layout.
  Context (digits : string) (n : Z).
  Context (Hd : str_all is_digit digits = true) (Hne : is_empty digits = false)
    (H0 : starts_with_char "0" digits = false).
Let k := Z.of_nat (String.length digits).

(** The text is a numeral of the digits, [n] of them before the point. *)
Definition denotes (text : string) : Prop :=
  exists u, text = numeral_text u /\ numeral_ok u /\
    forall s, numeral_read s u = of_decimal s (Z.of_N (digits_value digits)) (n - k).

Lemma layout_integer : k <= n -> denotes (digits +:+ zeros (Z.to_nat (n - k))).
Proof.
  intros Hkn. exists {| integer := digits +:+ zeros (Z.to_nat (n - k)); fractional := "";
              exponent := ""; power := 0 |}.
  split_and!; [unfold numeral_text; cbn; by rewrite string_app_nil_r|split_and!; cbn|].
  - right. rewrite str_all_app, zeros_digits, Hd. by destruct digits.
  - done.
  - constructor.
  - intros s. unfold numeral_read; cbn [integer fractional power String.length].
    rewrite string_app_nil_r, digits_value_app, digits_value_only_zeros, N.add_0_r.
    unfold len. rewrite zeros_length, N2Z.inj_mul, N2Z.inj_pow, nat_N_Z, Z2Nat.id by lia.
    rewrite of_decimal_shift by lia. f_equal; lia.
Qed.

(** A split of the digits into two numerals' parts. *)
Lemma layout_split j x e :
  (1 <= j <= String.length digits)%nat -> exponent_part x e -> e + Z.of_nat j = n ->
  denotes (substring 0 j digits
    +:+ fraction (substring j (String.length digits - j) digits) +:+ x).
Proof.
  intros Hj Hx He. pose proof (substring_split j digits (proj2 Hj)) as Hsplit.
  pose proof (substring_length j (String.length digits - j) digits ltac:(lia)) as Hl.
  pose proof (substring_length 0 j digits ltac:(lia)) as Hl0.
  set (f := substring j _ digits) in *. set (i := substring 0 j digits) in *.
  exists {| integer := i; fractional := f; exponent := x; power := e |}.
  split_and!; [done|split_and!; cbn|].
  - right. split_and!; [by apply str_all_substring|destruct i; [simpl in Hl0; lia|done]|].
    rewrite <- Hsplit in H0. by destruct i; [simpl in Hl0; lia|].
  - by apply str_all_substring.
  - done.
  - intros s. unfold numeral_read; cbn [integer fractional power]. rewrite Hsplit, Hl.
    f_equal. unfold k. lia.
Qed.

Lemma layout_small : n <= 0 -> denotes ("0." +:+ zeros (Z.to_nat (- n)) +:+ digits).
Proof.
  intros Hn. exists {| integer := "0"; fractional := zeros (Z.to_nat (- n)) +:+ digits;
              exponent := ""; power := 0 |}.
  split_and!; [|split_and!; cbn|].
  - unfold numeral_text, fraction; cbn. rewrite string_app_nil_r.
    by destruct (Z.to_nat (- n)), digits.
  - by left.
  - by rewrite str_all_app, zeros_digits.
  - constructor.
  - intros s. unfold numeral_read; cbn [integer fractional power].
    rewrite str_length_app, zeros_length.
    change ("0" +:+ zeros (Z.to_nat (- n)) +:+ digits)%string
      with (zeros (S (Z.to_nat (- n))) +:+ digits)%string.
    rewrite digits_value_zeros. f_equal. unfold k. lia.
Qed.

Lemma signed_exponent e :
  exponent_part (String "e" (String (if e <? 0 then "-" else "+") (show_N (Z.abs_N e)))) e.
Proof.
  pose proof (fun sign H => some_exponent sign (show_N (Z.abs_N e)) (show_N_digits _)
    (show_N_not_empty _) H) as Hx. rewrite digits_value_show, N2Z.inj_abs_N in Hx.
  destruct (Z.ltb_spec e 0).
  - specialize (Hx "-"%string). cbn in Hx. rewrite Z.abs_neq, Z.opp_involutive in Hx by lia.
    apply Hx. tauto.
  - specialize (Hx "+"%string). cbn in Hx. rewrite Z.abs_eq in Hx by lia. apply Hx. tauto.
Qed.

(** The layout of digits is a numeral of their value. *)
Lemma layout_denotes : denotes (layout digits n).
Proof.
  assert (1 <= k) by (unfold k; destruct digits; [done|]; simpl; lia).
  unfold layout. fold k. destruct (Z.leb_spec k n), (Z.leb_spec n 21); cbn [andb];
    [by apply layout_integer|..];
    destruct (Z.ltb_spec 0 n); cbn [andb]; try lia;
    destruct (Z.ltb_spec (-6) n), (Z.leb_spec n 0); cbn [andb]; try lia;
    try (by apply layout_small);
    try (apply (layout_split 1 _ (n - 1)); [lia|apply signed_exponent|lia]).
  pose proof (layout_split (Z.to_nat n) "" 0 ltac:(lia) no_exponent ltac:(lia)) as Hs.
  rewrite string_app_nil_r in Hs. unfold fraction in Hs.
  pose proof (substring_length (Z.to_nat n) (String.length digits - Z.to_nat n) digits
    ltac:(lia)) as Hl.
  destruct (substring (Z.to_nat n) _ digits); [simpl in Hl; lia|done].
Qed.
End layout.

(** * The text of a double *)

Lemma of_decimal_sign s m e p x :
  of_decimal false m e = S754_finite false p x -> of_decimal s m e = S754_finite s p x.
Proof.
  unfold of_decimal. destruct (decimal_ratio m e) as [n d]. unfold of_ratio.
  destruct (n =? 0); [done|]. destruct (scale _ _ _ _) as [a b].
  unfold pack. destruct (round_half_even a b) as [|q|q]; try done.
  destruct (Zpos q =? 2 ^ 53); destruct (MAX_EXPONENT <? _); congruence.
Qed.

Lemma pow2_le_pow10 k : 0 <= k -> 2 ^ k <= 10 ^ k.
Proof. intros. apply Z.pow_le_mono_l. lia. Qed.

(** Decimal exponents of doubles are far within an [i32]. *)
Lemma log10_ratio_bounds s m e n d :
  valid (S754_finite s m e) = true -> binary_ratio (Zpos m) e = (n, d) ->
  0 < n /\ 0 < d /\ -1100 <= log10_ratio n d <= 1100.
Proof.
  intros (Hm & He & _)%valid_finite Er. rewrite binary_ratio_spec in Er. injection Er as Hn Hd.
  unfold MIN_EXPONENT, MAX_EXPONENT in He.
  pose proof (Z.pow_pos_nonneg 2 (Z.max 0 e)). pose proof (Z.pow_pos_nonneg 2 (Z.max 0 (- e))).
  assert (0 < n /\ 0 < d) as [Hn0 Hd0] by nia. split_and!; [done..| |].
  - destruct (log10_ratio_spec n d Hn0 Hd0) as [_ H2]. set (l := log10_ratio n d) in *.
    destruct (Z.le_gt_cases (-1100) l) as [|Hl]; [done|exfalso].
    apply (below_at 10 n d _ (- (l + 1))) in H2; [|lia..].
    rewrite Z.add_opp_diag_l, Z.pow_0_r, Z.mul_1_r in H2.
    pose proof (pow2_le_pow10 (- (l + 1)) ltac:(lia)).
    pose proof (Z.pow_le_mono_r 2 (Z.max 0 (- e)) (- (l + 1)) ltac:(lia) ltac:(lia)). nia.
  - destruct (log10_ratio_spec n d Hn0 Hd0) as [H1 _]. set (l := log10_ratio n d) in *.
    destruct (Z.le_gt_cases l 1100) as [|Hl]; [done|exfalso].
    apply (not_below_at 10 n d _ 0) in H1; [|lia..]. rewrite Z.add_0_l, Z.pow_0_r in H1.
    pose proof (pow2_le_pow10 l ltac:(lia)).
    pose proof (Z.pow_le_mono_r 2 (53 + Z.max 0 e) l ltac:(lia) ltac:(lia)) as Hp.
    rewrite Z.pow_add_r in Hp by lia. nia.
Qed.

(** Trimmed digits denote what the digits do. *)
Lemma trim_zeros_value k q e :
  1 <= k -> has_digits k (q, e) ->
  let digits := trim_zeros (show_N (Z.to_N q)) in
  str_all is_digit digits = true /\ is_empty digits = false /\
  starts_with_char "0" digits = false /\
  forall s, of_decimal s (Z.of_N (digits_value digits)) (e + 1 - Z.of_nat (String.length digits))
    = of_decimal s q (e - (k - 1)).
Proof.
  intros Hk Hq digits. pose proof (show_has_digits k q e Hk Hq) as Hlen.
  destruct (pow10_split k Hk) as [_ Hpow]. unfold has_digits in Hq; cbn [fst] in Hq.
  destruct (trim_zeros_spec (show_N (Z.to_N q))) as [j Hj]. fold digits in Hj.
  assert (Z.to_N q <> 0)%N as Hq0 by lia.
  destruct (show_N_integer_part _ Hq0) as [E|(Hd & Hne & H0)].
  { pose proof (digits_value_show (Z.to_N q)) as Hv. rewrite E in Hv. by destruct Hq0. }
  assert (is_empty digits = false) as Hne'.
  { unfold digits. by destruct (show_N (Z.to_N q)). }
  rewrite Hj, str_all_app, zeros_digits, andb_true_r in Hd.
  split_and!; [done|done|rewrite Hj in H0; by destruct digits|].
  intros s. rewrite <- (Z2N.id q) at 1 by lia. rewrite <- (digits_value_show (Z.to_N q)), Hj.
  rewrite digits_value_app, digits_value_only_zeros, N.add_0_r.
  rewrite Hj, str_length_app, zeros_length in Hlen.
  unfold len. rewrite zeros_length, N2Z.inj_mul, N2Z.inj_pow, nat_N_Z.
  rewrite of_decimal_shift by lia. f_equal. lia.
Qed.

(** The digits [format_es] lays out, whichever of its two candidates. *)
Lemma format_es_digits s m e :
  valid (S754_finite s m e) = true ->
  exists digits n,
    format_es (S754_finite s m e) = Some ((if s then "-" else "") +:+ layout digits n)%string /\
    str_all is_digit digits = true /\ is_empty digits = false /\
    starts_with_char "0" digits = false /\
    of_decimal false (Z.of_N (digits_value digits)) (n - Z.of_nat (String.length digits))
      = S754_finite false m e.
Proof.
  intros Hv. change (valid (S754_finite false m e) = true) in Hv.
  pose proof (shortest_digits_exist m e) as Hex. cbv zeta in Hex.
  unfold format_es, lower_exp, lower_exp_precision; cbn [SFabs ratio_of].
  destruct (binary_ratio (Zpos m) e) as [n d] eqn:Er; cbn [mbind option_bind].
  destruct (log10_ratio_bounds _ _ _ _ _ Hv Er) as (Hn & Hd & Hl).
  destruct (Hex Hv) as [[k [q l]] Hs]. rewrite Hs; cbn [mbind option_bind].
  apply shortest_from_Some in Hs as (Hk & Hin & Hr).
  apply candidates_digits in Hin as [Hq Hle]; [|done..]. cbn [snd] in Hle.
  rewrite (split_scientific_spec k) by (done || lia). cbn [mbind option_bind].
  destruct (trim_zeros_value k q l Hk Hq) as (Hd1 & Hd2 & Hd3 & Hd4).
  set (digits := trim_zeros (show_N (Z.to_N q))) in *.
  assert (1 <= Z.of_nat (String.length digits)) as Hlen by (destruct digits; [done|simpl; lia]).
  destruct (Nat.eqb_spec (String.length digits) 0) as [E0|_]; [lia|].
  replace (Z.of_nat (String.length digits - 1) + 1) with (Z.of_nat (String.length digits)) by lia.
  set (k' := Z.of_nat (String.length digits)) in *.
  destruct (nearest_digits_digits n d k' Hn Hd Hlen) as [Hq' Hle'].
  destruct (nearest_digits n d k') as [q' l']; cbn [snd] in Hle'.
  destruct (scientific_numeral k' q' l' Hlen Hq') as (u & Hu & Hok & Hread).
  pose proof (from_str_numeral false u Hok) as Hfrom. cbn [append] in Hfrom.
  rewrite Hu, Hfrom; cbn [is_some_and]. rewrite Hread, <- Hu.
  destruct (SFeqb _ _) eqn:Eq.
  - rewrite (split_scientific_spec k') by (done || lia). cbn [mbind option_bind].
    destruct (trim_zeros_value k' q' l' Hlen Hq') as (Hd1' & Hd2' & Hd3' & Hd4').
    eexists _, _. split_and!; [done..|]. rewrite Hd4'. by apply SFeqb_finite.
  - eexists _, _. split_and!; [done..|]. rewrite Hd4. by apply SFeqb_finite.
Qed.

(** The text of a double is a numeral, and reads as the double. *)
Lemma format_es_reads s m e :
  valid (S754_finite s m e) = true ->
  exists u,
    format_es (S754_finite s m e) = Some ((if s then "-" else "") +:+ numeral_text u)%string /\
    numeral_ok u /\ numeral_read s u = S754_finite s m e.
Proof.
  intros Hv. destruct (format_es_digits s m e Hv) as (digits & n & -> & H1 & H2 & H3 & H4).
  destruct (layout_denotes digits n H1 H2 H3) as (u & -> & Hok & Hread).
  exists u. split_and!; [done|done|]. rewrite Hread. by apply of_decimal_sign.
Qed.
