(* ===== verification/ProtoError.v ===== *)
(** The wire crate's errors and its versions ([dwk-proto/src/error.rs],
    [version.rs], [limits.rs]).  The prose of an error, its [detail], is read
    by no code and is left out. *)

From S2P Require Export Prelude Text Vocabulary.

Module WireLimits.

Definition MAX_DEPTH : nat := 32.

Definition MAX_SAFE_INTEGER : Z := 2 ^ 53 - 1.

Definition MAX_ERROR_PATH_CHARS : nat := 256.

End WireLimits.

(** ** Codes *)

Module ErrorCode.

Inductive t :=
| FrameEmpty | FrameTooLarge | FrameTruncated | ContentTypeUnsupported | InvalidUtf8
| InvalidJson | DuplicateKey | MaxDepthExceeded | NumberOutOfDomain | VersionUnsupported
| UnknownOperation | SchemaViolation.

#[global] Instance code_eq_dec : EqDecision t.
Proof. solve_decision. Defined.

Definition ALL : list t :=
  [FrameEmpty; FrameTooLarge; FrameTruncated; ContentTypeUnsupported; InvalidUtf8;
   InvalidJson; DuplicateKey; MaxDepthExceeded; NumberOutOfDomain; VersionUnsupported;
   UnknownOperation; SchemaViolation].

Definition as_str (c : t) : string :=
  match c with
  | FrameEmpty => "PROTOCOL_FRAME_EMPTY"
  | FrameTooLarge => "PROTOCOL_FRAME_TOO_LARGE"
  | FrameTruncated => "PROTOCOL_FRAME_TRUNCATED"
  | ContentTypeUnsupported => "PROTOCOL_CONTENT_TYPE_UNSUPPORTED"
  | InvalidUtf8 => "PROTOCOL_INVALID_UTF8"
  | InvalidJson => "PROTOCOL_INVALID_JSON"
  | DuplicateKey => "PROTOCOL_DUPLICATE_KEY"
  | MaxDepthExceeded => "PROTOCOL_MAX_DEPTH_EXCEEDED"
  | NumberOutOfDomain => "PROTOCOL_NUMBER_OUT_OF_DOMAIN"
  | VersionUnsupported => "PROTOCOL_VERSION_UNSUPPORTED"
  | UnknownOperation => "PROTOCOL_UNKNOWN_OPERATION"
  | SchemaViolation => "PROTOCOL_SCHEMA_VIOLATION"
  end.

Definition from_wire (s : string) : option t := find_spelling ALL as_str s.

#[global] Instance code_vocabulary : Vocabulary ALL as_str.
Proof. solve_vocabulary. Qed.

End ErrorCode.

Module Violation.

Inductive t :=
| UnknownField | MissingField | ForbiddenField | WrongType | NullNotAllowed | OutOfRange
| TooLong | InvalidFormat | UnknownVariant | TooManyItems | Inconsistent.

#[global] Instance violation_eq_dec : EqDecision t.
Proof. solve_decision. Defined.

Definition ALL : list t :=
  [UnknownField; MissingField; ForbiddenField; WrongType; NullNotAllowed; OutOfRange;
   TooLong; InvalidFormat; UnknownVariant; TooManyItems; Inconsistent].

Definition as_str (v : t) : string :=
  match v with
  | UnknownField => "UNKNOWN_FIELD"
  | MissingField => "MISSING_FIELD"
  | ForbiddenField => "FORBIDDEN_FIELD"
  | WrongType => "WRONG_TYPE"
  | NullNotAllowed => "NULL_NOT_ALLOWED"
  | OutOfRange => "OUT_OF_RANGE"
  | TooLong => "TOO_LONG"
  | InvalidFormat => "INVALID_FORMAT"
  | UnknownVariant => "UNKNOWN_VARIANT"
  | TooManyItems => "TOO_MANY_ITEMS"
  | Inconsistent => "INCONSISTENT"
  end.

Definition from_wire (s : string) : option t := find_spelling ALL as_str s.

#[global] Instance violation_vocabulary : Vocabulary ALL as_str.
Proof. solve_vocabulary. Qed.

End Violation.

(** ** Versions *)

Module VersionRange.

(** [u16]s. *)
Record t := { min : N; max : N }.

#[global] Instance range_eq_dec : EqDecision t.
Proof. solve_decision. Defined.

Definition new (min max : N) : option t :=
  if ((min =? 0) || (max <? min))%N then None else Some {| min := min; max := max |}.

Definition contains (r : t) (v : N) : bool := ((min r <=? v) && (v <=? max r))%N.

End VersionRange.

(** ** Errors *)

(** [truncate_chars]: at most [max] characters; a byte that continues a
    character comes with it. *)
Fixpoint truncate_chars (s : string) (max : nat) : string :=
  match s with
  | EmptyString => ""
  | String a r =>
      if is_continuation a then String a (truncate_chars r max)
      else match max with 0 => "" | S max => String a (truncate_chars r max) end
  end.

Module ProtocolError.

Record t := {
  code : ErrorCode.t;
  violation : option Violation.t;
  path : string;
  offset : option nat;
  supported : option VersionRange.t
}.

#[global] Instance error_eq_dec : EqDecision t.
Proof. solve_decision. Defined.

Definition new (code : ErrorCode.t) : t :=
  {| code := code; violation := None; path := ""; offset := None; supported := None |}.

Definition at_offset (offset : nat) (e : t) : t :=
  {| code := code e; violation := violation e; path := path e; offset := Some offset;
     supported := supported e |}.

Definition with_violation (v : Violation.t) (e : t) : t :=
  {| code := code e; violation := Some v; path := path e; offset := offset e;
     supported := supported e |}.

Definition with_path (path : string) (e : t) : t :=
  {| code := code e; violation := violation e;
     path := truncate_chars path WireLimits.MAX_ERROR_PATH_CHARS; offset := offset e;
     supported := supported e |}.

Definition with_supported (r : VersionRange.t) (e : t) : t :=
  {| code := code e; violation := violation e; path := path e; offset := offset e;
     supported := Some r |}.

Definition schema (v : Violation.t) (path : string) : t :=
  with_path path (with_violation v (new ErrorCode.SchemaViolation)).

End ProtocolError.

(** ** Negotiation *)

Module Version.

Definition SUPPORTED_ENVELOPE : VersionRange.t := {| VersionRange.min := 1; VersionRange.max := 1 |}.

(** [negotiate]: the highest version both ends support, from [minimum] up. *)
Definition negotiate (offered supported : VersionRange.t) (minimum : N) :
    result N ProtocolError.t :=
  let low :=
    N.max (N.max (VersionRange.min offered) (VersionRange.min supported)) minimum in
  let high := N.min (VersionRange.max offered) (VersionRange.max supported) in
  if (low <=? high)%N then Ok high
  else
    let floor := N.max (VersionRange.min supported) minimum in
    let advertised :=
      match VersionRange.new floor (VersionRange.max supported) with
      | Some r => r | None => supported
      end in
    Err (ProtocolError.with_supported advertised
          (ProtocolError.with_path "/payload"
            (ProtocolError.with_violation Violation.OutOfRange
              (ProtocolError.new ErrorCode.VersionUnsupported)))).

End Version.

(** ** Facts *)

(** Codes and violations have distinct spellings that read back. *)
Lemma wire_spellings :
  (forall c, ErrorCode.from_wire (ErrorCode.as_str c) = Some c) /\
  (forall v, Violation.from_wire (Violation.as_str v) = Some v).
Proof. split; intros; apply find_spelling_Some; [apply _|done|apply _|done]. Qed.

Lemma truncate_chars_length s max : chars_count (truncate_chars s max) <= max.
Proof.
  revert max; induction s as [|a s IH]; intros max; simpl; [lia|].
  destruct (is_continuation a) eqn:E; [simpl; rewrite E; apply IH|].
  destruct max as [|max]; simpl; [lia|]. rewrite E. specialize (IH max). lia.
Qed.

Lemma truncate_chars_short s max : chars_count s <= max -> truncate_chars s max = s.
Proof.
  revert max; induction s as [|a s IH]; intros max; simpl; [done|].
  destruct (is_continuation a); [intros; f_equal; by apply IH|].
  destruct max as [|max]; [lia|]. intros. f_equal. apply IH. lia.
Qed.

Lemma contains_spec r v :
  VersionRange.contains r v = true <-> (VersionRange.min r <= v <= VersionRange.max r)%N.
Proof. unfold VersionRange.contains. rewrite andb_true_iff, !N.leb_le. done. Qed.
