(* ===== verification/JsonValue.v ===== *)
(** JSON values ([dwk-proto/src/json/value.rs]): numbers with one
    representation per value, objects whose keys are pairwise distinct; and
    their canonical text ([json/jcs.rs]). *)

From Stdlib Require Import ZArith.
From S2P Require Export Prelude Text Order Numerals Utf8 Float64 ProtoError.

(** * Numbers *)

Module Number.

Inductive t :=
| Int (i : Z)       (* an [i64] *)
| Float (x : f64).

Definition is_finite (x : f64) : bool :=
  match x with S754_nan | S754_infinity _ => false | _ => true end.

(** [x.fract() == 0.0]. *)
Definition is_integral (x : f64) : bool :=
  match x with
  | S754_zero _ => true
  | S754_finite _ m e => ((0 <=? e) || (Zpos m mod 2 ^ (- e) =? 0))%Z
  | _ => false
  end.

(** [x as i64] of an integral double, before the cast's bounds: its one use
    is below [2^53]. *)
Definition as_i64 (x : f64) : Z :=
  match x with
  | S754_finite s m e =>
      let v := (if 0 <=? e then Zpos m * 2 ^ e else Zpos m / 2 ^ (- e))%Z in
      if s then (- v)%Z else v
  | _ => 0%Z
  end.

(** [from_f64]: an integral double of magnitude at most [2^53 - 1] is an
    [Int].  The comparison of magnitudes is one of integers, since the double
    is integral. *)
Definition from_f64 (x : f64) : option t :=
  if negb (is_finite x) then None
  else if is_integral x && (Z.abs (as_i64 x) <=? WireLimits.MAX_SAFE_INTEGER)%Z
       then Some (Int (as_i64 x))
       else Some (Float x).

Definition from_i64 (i : Z) : option t :=
  if (Z.abs i <=? WireLimits.MAX_SAFE_INTEGER)%Z then Some (Int i) else None.

(** [derive(PartialEq)]. *)
Definition eq (a b : t) : bool :=
  match a, b with
  | Int i, Int j => (i =? j)%Z
  | Float x, Float y => SFeqb x y
  | _, _ => false
  end.

End Number.

(** * Values *)

Module Value.

Inductive t :=
| Null
| Bool (b : bool)
| Number (n : Number.t)
| String (s : string)
| Array (items : list t)
| Object (members : list (string * t)).

(** Induction through arrays and objects. *)
Section induction.
  Context (P : t -> Prop) (HNull : P Null) (HBool : forall b, P (Bool b))
    (HNumber : forall n, P (Number n)) (HString : forall s, P (String s))
    (HArray : forall items, Forall P items -> P (Array items))
    (HObject : forall members, Forall (fun m => P m.2) members -> P (Object members)).

Fixpoint value_ind (v : t) : P v :=
  match v with
  | Null => HNull
  | Bool b => HBool b
  | Number n => HNumber n
  | String s => HString s
  | Array items =>
      HArray items ((fix go l : Forall P l :=
        match l with [] => List.Forall_nil _ | x :: r => List.Forall_cons _ x r (value_ind x) (go r) end) items)
  | Object members =>
      HObject members ((fix go l : Forall (fun m => P m.2) l :=
        match l with
        | [] => List.Forall_nil _
        | (k, x) :: r => List.Forall_cons _ (k, x) r (value_ind x) (go r)
        end) members)
  end.
End induction.

Definition type_name (v : t) : string :=
  match v with
  | Null => "null"
  | Bool _ => "boolean"
  | Number (Number.Int _) => "integer"
  | Number (Number.Float _) => "number"
  | String _ => "string"
  | Array _ => "array"
  | Object _ => "object"
  end.

End Value.

(** * Objects *)

Module Object.

(** The members, in insertion order. *)
Definition t := list (string * Value.t).

Definition new : t := [].

Definition keys (o : t) : list string := o.*1.

(** [get]: the first member with the key. *)
Definition get (o : t) (key : string) : option Value.t :=
  snd <$> List.find (fun m => String.eqb m.1 key) o.

(** [insert] refuses a key already present. *)
Definition insert (o : t) (key : string) (value : Value.t) : result t ProtocolError.t :=
  if existsb (fun m => String.eqb m.1 key) o
  then Err (ProtocolError.new ErrorCode.DuplicateKey)
  else Ok (o ++ [(key, value)]).

(** [remove] takes the first member with the key out. *)
Fixpoint remove (o : t) (key : string) : option (Value.t * t) :=
  match o with
  | [] => None
  | (k, v) :: r =>
      if String.eqb k key then Some (v, r)
      else '(w, r') ← remove r key; Some (w, (k, v) :: r')
  end.

Definition len (o : t) : nat := length o.

Definition is_empty (o : t) : bool := match o with [] => true | _ => false end.

End Object.

(** ** Equality

    [PartialEq]: arrays compare item by item; objects compare as sets of
    members: as many of them, each found under its key in the other object
    with an equal value.  (The code puts the found value on the left of [==];
    equality of values is symmetric.) *)
Module ValueEq.

Fixpoint eq (a b : Value.t) {struct a} : bool :=
  match a, b with
  | Value.Null, Value.Null => true
  | Value.Bool x, Value.Bool y => Bool.eqb x y
  | Value.Number m, Value.Number n => Number.eq m n
  | Value.String s, Value.String t => String.eqb s t
  | Value.Array l, Value.Array k =>
      (fix items (l k : list Value.t) :=
        match l, k with
        | [], [] => true
        | x :: l, y :: k => eq x y && items l k
        | _, _ => false
        end) l k
  | Value.Object l, Value.Object k =>
      (length l =? length k)%nat
      && (fix members (l : list (string * Value.t)) :=
           match l with
           | [] => true
           | (key, x) :: r =>
               match Object.get k key with Some y => eq x y | None => false end && members r
           end) l
  | _, _ => false
  end.

End ValueEq.

(** * Well-formedness *)

(** What holds of every number a [Number] can be: an integer in the safe
    range, or another finite double. *)
Definition number_ok (n : Number.t) : bool :=
  match n with
  | Number.Int i => (Z.abs i <=? WireLimits.MAX_SAFE_INTEGER)%Z
  | Number.Float x =>
      valid_binary 53 1024 x
      && match Number.from_f64 x with Some (Number.Float _) => true | _ => false end
  end.

Definition is_int (n : Number.t) : bool :=
  match n with Number.Int _ => true | Number.Float _ => false end.

(** How many containers enclose the deepest value, itself included. *)
Fixpoint height (v : Value.t) : nat :=
  match v with
  | Value.Array items => S (fold_right (fun x h => Nat.max (height x) h) 0 items)
  | Value.Object members => S (fold_right (fun m h => Nat.max (height m.2) h) 0 members)
  | _ => 0
  end.

(** Strings are UTF-8, numbers satisfy [P], keys are distinct, throughout. *)
Inductive value_ok (P : Number.t -> Prop) : Value.t -> Prop :=
| ok_null : value_ok P Value.Null
| ok_bool b : value_ok P (Value.Bool b)
| ok_number n : P n -> value_ok P (Value.Number n)
| ok_string s : Utf8 s -> value_ok P (Value.String s)
| ok_array items : Forall (value_ok P) items -> value_ok P (Value.Array items)
| ok_object members :
    NoDup (Object.keys members) -> Forall Utf8 (Object.keys members) ->
    Forall (value_ok P) members.*2 -> value_ok P (Value.Object members).

(** [u32] in four lower-case hexadecimal digits, [{:04x}], of a control
    character. *)
Definition hex_char (n : N) : ascii := byte (if (n <? 10)%N then 48 + n else 87 + n).

Definition hex04 (n : N) : string :=
  String (hex_char (n / 4096)) (String (hex_char (n / 256 mod 16))
    (String (hex_char (n / 16 mod 16)) (String (hex_char (n mod 16)) "")))%N.

(** One character of a string.  Every arm but the last matches an ASCII
    character, and the last copies, so the bytes of the others may be taken
    one by one. *)
Definition write_char (a : ascii) : string :=
  match a with
  | "034"%char => String "\" (String "034" "")
  | "\"%char => "\\"
  | "008"%char => "\b"
  | "009"%char => "\t"
  | "010"%char => "\n"
  | "012"%char => "\f"
  | "013"%char => "\r"
  | _ => if (byte_of a <? 32)%N then "\u" +:+ hex04 (byte_of a) else String a ""
  end.

Fixpoint write_chars (s : string) : string :=
  match s with
  | EmptyString => ""
  | String a r => write_char a +:+ write_chars r
  end.

Definition write_string (s : string) : string :=
  String "034" (write_chars s +:+ String "034" "").

(** [utf16_cmp]. *)
Definition utf16_cmp (a b : string) : comparison := cmp (encode_utf16 a) (encode_utf16 b).

Definition utf16_le (a b : string) : bool :=
  match utf16_cmp a b with Gt => false | _ => true end.

(** [members.sort_by(...)]: a stable sort, as insertion in order. *)
Section sort_members.
  Context {A : Type}.

Fixpoint insert_member (m : string * A) (l : list (string * A)) : list (string * A) :=
  match l with
  | [] => [m]
  | m' :: r => if utf16_le m.1 m'.1 then m :: m' :: r else m' :: insert_member m r
  end.

Fixpoint sort_members (l : list (string * A)) : list (string * A) :=
  match l with [] => [] | m :: r => insert_member m (sort_members r) end.
End sort_members.

(** A sequence with a comma before every element but the first. *)
Fixpoint comma_separated (l : list string) : string :=
  match l with
  | [] => ""
  | x :: r => match r with [] => x | _ => x +:+ String "," (comma_separated r) end
  end.

Definition write_number (n : Number.t) : string :=
  match n with
  | Number.Int i => show_Z i
  | Number.Float f => default "" (format_es f)
  end.

(** [write_value] and [write_object]: what is appended to the output.  The
    members' texts are sorted with their keys. *)
Fixpoint write_value (v : Value.t) : string :=
  match v with
  | Value.Null => "null"
  | Value.Bool true => "true"
  | Value.Bool false => "false"
  | Value.Number n => write_number n
  | Value.String s => write_string s
  | Value.Array items => String "[" (comma_separated (map write_value items) +:+ "]")
  | Value.Object object =>
      let members :=
        sort_members (map (fun m => let '(key, value) := m in (key, write_value value)) object) in
      String "{" (comma_separated
        (map (fun m => let '(key, text) := m in write_string key +:+ String ":" text) members)
        +:+ "}")
  end.

Definition to_canonical_string (v : Value.t) : string := write_value v.
Definition to_canonical_bytes (v : Value.t) : string := write_value v.
