(* ===== verification/JsonLex.v ===== *)
(** The strict JSON lexer ([dwk-proto/src/json/lex.rs]).

    The parser's state is the text from its position on, the position and the
    path; [peek] and [bump] are the only ways the code looks at its input and
    moves.  [usize] additions saturate in the code; positions stay below the
    input's length, so here they are plain. *)

From Stdlib Require Import ZArith.
From stdpp Require Import gmap.
From S2P Require Export Prelude Text Numerals Utf8 Float64 ProtoError JsonValue.

(** * Options *)

Module NumberDomain.

Inductive t := SafeInteger | IJson.

#[global] Instance domain_eq_dec : EqDecision t.
Proof. solve_decision. Defined.

End NumberDomain.

Module ParseOptions.

Record t := { numbers : NumberDomain.t }.

Definition dwkp : t := {| numbers := NumberDomain.SafeInteger |}.
Definition ijson : t := {| numbers := NumberDomain.IJson |}.

End ParseOptions.

(** * The parser *)

Module Segment.

Inductive t :=
| Key (key : string)
| Index (i : nat).

End Segment.

(** [rest] is [text[pos..]]; [pos] a byte offset. *)
Record Parser := { rest : string; pos : nat; path : list Segment.t }.

(** A parse stops with an error of the code's, or for want of the fuel given
    to the recursion here. *)
Inductive Stop :=
| Refused (e : ProtocolError.t)
| NoFuel.

#[global] Instance stop_eq_dec : EqDecision Stop.
Proof. solve_decision. Defined.

Definition outcome (A : Type) := result A Stop.

Definition peek (p : Parser) : option ascii :=
  match rest p with EmptyString => None | String a _ => Some a end.

(** Moves past [n] bytes. *)
Fixpoint str_skip (n : nat) (s : string) : string :=
  match n, s with
  | S n, String _ r => str_skip n r
  | _, _ => s
  end.

Definition advance (n : nat) (p : Parser) : Parser :=
  {| rest := str_skip n (rest p); pos := pos p + n; path := path p |}.

Definition bump (p : Parser) : Parser := advance 1 p.

(** How many bytes from here satisfy [f]. *)
Fixpoint count_while (f : ascii -> bool) (s : string) : nat :=
  match s with
  | String a r => if f a then S (count_while f r) else 0
  | EmptyString => 0
  end.

(** [text.get(p.pos..q.pos)] of a parser [q] that [p] has become. *)
Definition slice (p q : Parser) : string := substring 0 (pos q - pos p) (rest p).

Definition is_ws : ascii -> bool := one_of [" "; "009"; "010"; "013"]%char.

Definition skip_ws (p : Parser) : Parser := advance (count_while is_ws (rest p)) p.

(** [str::replace] of a character. *)
Fixpoint str_replace (c : ascii) (by_ : string) (s : string) : string :=
  match s with
  | EmptyString => ""
  | String a r => (if Ascii.eqb a c then by_ else String a "") +:+ str_replace c by_ r
  end.

(** [pointer]: the path as an RFC 6901 pointer. *)
Fixpoint pointer (path : list Segment.t) : string :=
  match path with
  | [] => ""
  | segment :: r =>
      String "/" (match segment with
                  | Segment.Key k => str_replace "/" "~1" (str_replace "~" "~0" k)
                  | Segment.Index i => show_N (N.of_nat i)
                  end +:+ pointer r)
  end.

Definition error (p : Parser) (code : ErrorCode.t) : ProtocolError.t :=
  ProtocolError.with_path (pointer (path p)) (ProtocolError.at_offset (pos p) (ProtocolError.new code)).

Definition invalid {A} (p : Parser) : outcome A := Err (Refused (error p ErrorCode.InvalidJson)).

(** [path.push] and [path.pop]. *)
Definition push (s : Segment.t) (p : Parser) : Parser :=
  {| rest := rest p; pos := pos p; path := path p ++ [s] |}.

Definition pop (p : Parser) : Parser :=
  {| rest := rest p; pos := pos p; path := removelast (path p) |}.

Definition expect (byte : ascii) (p : Parser) : outcome Parser :=
  match peek p with
  | Some a => if Ascii.eqb a byte then Ok (bump p) else invalid p
  | None => invalid p
  end.

(** ** Literals *)

Definition literal (word : string) (value : Value.t) (p : Parser) : outcome (Value.t * Parser) :=
  if str_starts_with word (rest p) then Ok (value, advance (String.length word) p)
  else invalid p.

(** ** Strings *)

Definition hex_digit (a : ascii) : option N :=
  if in_range 48 57 a then Some (byte_of a - 48)%N
  else if in_range 97 102 a then Some (byte_of a - 97 + 10)%N
  else if in_range 65 70 a then Some (byte_of a - 65 + 10)%N
  else None.

(** [hex4]: [n] digits remain to be read; [v] is a [u32] below [16^4]. *)
Fixpoint hex_digits (n : nat) (v : N) (p : Parser) : outcome (N * Parser) :=
  match n with
  | 0 => Ok (v, p)
  | S n =>
      match peek p with
      | Some b =>
          match hex_digit b with
          | Some digit => hex_digits n (N.lor (N.shiftl v 4) digit) (bump p)
          | None => invalid p
          end
      | None => invalid p
      end
  end.

Definition hex4 : Parser -> outcome (N * Parser) := hex_digits 4 0.

Definition char_or_invalid (n : N) (p : Parser) : outcome (N * Parser) :=
  match char_from_u32 n with Some c => Ok (c, p) | None => invalid p end.

(** The escapes after [\u]. *)
Definition unicode_escape (p : Parser) : outcome (N * Parser) :=
  let? (first, p) := hex4 p in
  if ((55296 <=? first) && (first <=? 56319))%N then
    match peek p with
    | Some "\"%char =>
        let p := bump p in
        match peek p with
        | Some "u"%char =>
            let p := bump p in
            let? (second, p) := hex4 p in
            if ((56320 <=? second) && (second <=? 57343))%N then
              char_or_invalid (65536 + N.shiftl (first - 55296) 10 + (second - 56320))%N p
            else invalid p
        | _ => invalid p
        end
    | _ => invalid p
    end
  else if ((56320 <=? first) && (first <=? 57343))%N then invalid p
  else char_or_invalid first p.

(** [escape]: the character after the backslash. *)
Definition escape (p : Parser) : outcome (N * Parser) :=
  match peek p with
  | None => invalid p
  | Some b =>
      let p := bump p in
      match b with
      | "034" => Ok (34, p)
      | "\" => Ok (92, p)
      | "/" => Ok (47, p)
      | "b" => Ok (8, p)
      | "f" => Ok (12, p)
      | "n" => Ok (10, p)
      | "r" => Ok (13, p)
      | "t" => Ok (9, p)
      | "u" => unicode_escape p
      | _ => invalid p
      end%char%N
  end.

(** A byte that goes into the string as it is. *)
Definition is_plain (a : ascii) : bool :=
  negb (Ascii.eqb a "034" || Ascii.eqb a "\" || (byte_of a <? 32)%N).

(** The loop of [string]: each turn takes a run of plain bytes and what
    stopped it. *)
Fixpoint string_loop (fuel : nat) (out : string) (p : Parser) : outcome (string * Parser) :=
  match fuel with
  | 0 => Err NoFuel
  | S fuel =>
      let q := advance (count_while is_plain (rest p)) p in
      let out := out +:+ slice p q in
      match peek q with
      | Some "034"%char => Ok (out, bump q)
      | Some "\"%char =>
          let? (c, q) := escape (bump q) in
          string_loop fuel (out +:+ utf8 c) q
      | _ => invalid q
      end
  end.

Definition string_ (p : Parser) : outcome (string * Parser) :=
  let p := bump p in string_loop (S (String.length (rest p))) "" p.

(** ** Numbers *)

(** [digits]: how many were there, and the parser after them. *)
Definition digits (p : Parser) : nat * Parser :=
  let n := count_while is_digit (rest p) in (n, advance n p).

(** [safe_integer]: the loop over the digits, [v] an [i64].  The [i64]
    overflow checks cannot fail before the bound does: [v] is at most
    [2^53 - 1] when a digit is taken. *)
Fixpoint safe_integer_from (v : Z) (s : string) : option Z :=
  match s with
  | EmptyString => Some v
  | String a r =>
      if (byte_of a <? 48)%N then None
      else
        let v := (v * 10 + Z.of_N (byte_of a - 48))%Z in
        if (WireLimits.MAX_SAFE_INTEGER <? v)%Z then None else safe_integer_from v r
  end.

Definition safe_integer (s : string) (negative : bool) : option Z :=
  v ← safe_integer_from 0 s; Some (if negative : bool then (- v)%Z else v).

Definition is_peek (f : ascii -> bool) (p : Parser) : bool := is_some_and (peek p) f.

(** The grammar of a number: the parser after its integer part, and after the
    whole of it, with whether it has neither fraction nor exponent. *)
Definition integer_digits (p : Parser) : outcome Parser :=
  match peek p with
  | Some "0"%char =>
      let p := bump p in
      if is_peek is_digit p then invalid p else Ok p
  | Some a => if in_range 49 57 a then Ok (digits p).2 else invalid p
  | None => invalid p
  end.

Definition fraction_digits (p : Parser) : outcome (bool * Parser) :=
  if is_peek (one_of ["."%char]) p then
    let '(n, p) := digits (bump p) in
    if (n =? 0)%nat then invalid p else Ok (false, p)
  else Ok (true, p).

Definition exponent_digits (p : Parser) : outcome (bool * Parser) :=
  if is_peek (one_of ["e"; "E"]%char) p then
    let p := bump p in
    let p := if is_peek (one_of ["+"; "-"]%char) p then bump p else p in
    let '(n, p) := digits p in
    if (n =? 0)%nat then invalid p else Ok (false, p)
  else Ok (true, p).

Definition number (options : ParseOptions.t) (start : Parser) : outcome (Number.t * Parser) :=
  let negative := is_peek (one_of ["-"%char]) start in
  let int_start := if negative then bump start else start in
  let? int_end := integer_digits int_start in
  let? (no_fraction, p) := fraction_digits int_end in
  let? (no_exponent, p) := exponent_digits p in
  let integral := no_fraction && no_exponent in
  let lexeme := slice start p in
  let out_of_domain : outcome (Number.t * Parser) :=
    Err (Refused (ProtocolError.at_offset (pos start) (error p ErrorCode.NumberOutOfDomain))) in
  let in_domain : outcome (Number.t * Parser) :=
    match ParseOptions.numbers options with
    | NumberDomain.SafeInteger => out_of_domain
    | NumberDomain.IJson =>
        match x ← from_str lexeme; Number.from_f64 x with
        | Some n => Ok (n, p)
        | None => out_of_domain
        end
    end in
  if integral then
    match safe_integer (slice int_start int_end) negative with
    | Some i => Ok (Number.Int i, p)
    | None => in_domain
    end
  else in_domain.

(** ** Containers *)

(** [enter]: one container deeper, within the limit. *)
Definition enter (depth : nat) (p : Parser) : outcome nat :=
  let next := S depth in
  if (WireLimits.MAX_DEPTH <? next)%nat
  then Err (Refused (error p ErrorCode.MaxDepthExceeded))
  else Ok next.

Section containers.
  (** [self.value], one level down. *)
  Context (value : nat -> Parser -> outcome (Value.t * Parser)).

(** The loop of [array].  It is entered with more fuel than there are bytes;
    each item takes one. *)
Fixpoint array_loop (fuel depth : nat) (items : list Value.t) (p : Parser) :
    outcome (Value.t * Parser) :=
  match fuel with
  | 0 => Err NoFuel
  | S fuel =>
      let p := skip_ws p in
      let? (item, p) := value depth (push (Segment.Index (length items)) p) in
      let items := items ++ [item] in
      let p := skip_ws (pop p) in
      match peek p with
      | Some ","%char => array_loop fuel depth items (bump p)
      | Some "]"%char => Ok (Value.Array items, bump p)
      | _ => invalid p
      end
  end.

Definition array (depth : nat) (p : Parser) : outcome (Value.t * Parser) :=
  let? depth := enter depth p in
  let p := skip_ws (bump p) in
  if is_peek (one_of ["]"%char]) p then Ok (Value.Array [], bump p)
  else array_loop (S (String.length (rest p))) depth [] p.

(** The loop of [object].  [seen] maps each key to the index of its member. *)
Fixpoint object_loop (fuel depth : nat) (members : Object.t) (seen : gmap string nat) (p : Parser) :
    outcome (Value.t * Parser) :=
  match fuel with
  | 0 => Err NoFuel
  | S fuel =>
      let p := skip_ws p in
      if negb (is_peek (one_of ["034"%char]) p) then invalid p
      else
        let key_offset := pos p in
        let? (key, p) := string_ p in
        if bool_decide (is_Some (seen !! key)) then
          Err (Refused (ProtocolError.at_offset key_offset
            (error (push (Segment.Key key) p) ErrorCode.DuplicateKey)))
        else
          let seen := <[key := length members]> seen in
          let? p := expect ":" (skip_ws p) in
          let? (item, p) := value depth (push (Segment.Key key) (skip_ws p)) in
          let members := members ++ [(key, item)] in
          let p := skip_ws (pop p) in
          match peek p with
          | Some ","%char => object_loop fuel depth members seen (bump p)
          | Some "}"%char => Ok (Value.Object members, bump p)
          | _ => invalid p
          end
  end.

Definition object (depth : nat) (p : Parser) : outcome (Value.t * Parser) :=
  let? depth := enter depth p in
  let p := skip_ws (bump p) in
  if is_peek (one_of ["}"%char]) p then Ok (Value.Object [], bump p)
  else object_loop (S (String.length (rest p))) depth [] ∅ p.
End containers.

(** [value].  The fuel bounds the nesting of calls. *)
Fixpoint value (fuel : nat) (options : ParseOptions.t) (depth : nat) (p : Parser) :
    outcome (Value.t * Parser) :=
  match fuel with
  | 0 => Err NoFuel
  | S fuel =>
      match peek p with
      | Some "{"%char => object (value fuel options) depth p
      | Some "["%char => array (value fuel options) depth p
      | Some "034"%char => let? (s, p) := string_ p in Ok (Value.String s, p)
      | Some "t"%char => literal "true" (Value.Bool true) p
      | Some "f"%char => literal "false" (Value.Bool false) p
      | Some "n"%char => literal "null" Value.Null p
      | Some a =>
          if one_of ["-"%char] a || is_digit a then
            let? (n, p) := number options p in Ok (Value.Number n, p)
          else invalid p
      | None => invalid p
      end
  end.

(** [parse]: nesting is at most [MAX_DEPTH] deep, so one call more is. *)
Definition parse (input : string) (options : ParseOptions.t) : outcome Value.t :=
  match from_utf8 input with
  | Err valid_up_to =>
      Err (Refused (ProtocolError.at_offset valid_up_to (ProtocolError.new ErrorCode.InvalidUtf8)))
  | Ok _ =>
      let p := skip_ws {| rest := input; pos := 0; path := [] |} in
      if is_empty (rest p) then invalid p
      else
        let? (v, p) := value (S WireLimits.MAX_DEPTH) options 0 p in
        let p := skip_ws p in
        if is_empty (rest p) then Ok v else invalid p
  end.
