(* ===== verification/JsonRead.v ===== *)
(** What the lexer makes of canonical text: strings, numbers and values read
    back as what was written, whatever follows them. *)

From Stdlib Require Import ZArith.
From stdpp Require Import gmap.
From S2P Require Export JsonLex JsonValue Float64Facts.

(** A parser before the text [s]. *)
Definition at_ (s : string) (n : nat) (path : list Segment.t) : Parser :=
  {| rest := s; pos := n; path := path |}.

(** Results are equal when they stand at the same position. *)
Ltac same_position :=
  unfold at_;
  repeat match goal with
  | |- Ok _ = Ok _ => f_equal
  | |- (_, _) = (_, _) => f_equal
  | |- Build_Parser _ _ _ = Build_Parser _ _ _ => f_equal
  end; try reflexivity; simpl; rewrite ?str_length_app; simpl; try lia.

(** * Moving *)

Lemma str_skip_app s t : str_skip (String.length s) (s +:+ t) = t.
Proof. by induction s. Qed.

Lemma advance_app s t n path :
  advance (String.length s) (at_ (s +:+ t) n path) = at_ t (n + String.length s) path.
Proof. unfold advance; simpl. by rewrite str_skip_app. Qed.

Lemma bump_at a t n path : bump (at_ (String a t) n path) = at_ t (n + 1) path.
Proof. done. Qed.

Lemma substring_0_app s t : substring 0 (String.length s) (s +:+ t) = s.
Proof. induction s as [|a s IH]; simpl; [by destruct t|by rewrite IH]. Qed.

Lemma slice_app s t n path :
  slice (at_ (s +:+ t) n path) (at_ t (n + String.length s) path) = s.
Proof.
  unfold slice; simpl. replace (n + String.length s - n) with (String.length s) by lia.
  apply substring_0_app.
Qed.

(** The first byte after [s] is none of [f]. *)
Definition stops (f : ascii -> bool) (s : string) : bool :=
  match s with String a _ => negb (f a) | EmptyString => true end.

Lemma count_while_app f s t :
  str_all f s = true -> stops f t = true -> count_while f (s +:+ t) = String.length s.
Proof.
  intros Hs Ht. induction s as [|a s IH]; simpl.
  - destruct t as [|a t]; simpl in *; [done|]. by destruct (f a).
  - simpl in Hs. bool_to_prop. rewrite H. f_equal. auto.
Qed.

Lemma skip_ws_at s n path : stops is_ws s = true -> skip_ws (at_ s n path) = at_ s n path.
Proof.
  intros Hs. unfold skip_ws; simpl rest.
  rewrite (count_while_app is_ws "" s eq_refl Hs : count_while is_ws s = _).
  unfold advance, at_; simpl. by rewrite Nat.add_0_r.
Qed.

(** * Strings *)

Lemma string_loop_plain fuel out a t n path :
  is_plain a = true ->
  string_loop (S fuel) out (at_ (String a t) n path)
  = string_loop (S fuel) (out +:+ String a "") (at_ t (n + 1) path).
Proof.
  intros Ha. cbn [string_loop]. simpl rest. simpl count_while. rewrite Ha.
  set (c := count_while is_plain t).
  assert (advance (S c) (at_ (String a t) n path) = advance c (at_ t (n + 1) path)) as E.
  { unfold advance; simpl. f_equal. lia. }
  rewrite E. do 2 f_equal.
  assert (slice (at_ (String a t) n path) (advance c (at_ t (n + 1) path))
    = String a (slice (at_ t (n + 1) path) (advance c (at_ t (n + 1) path)))) as ->.
  { unfold slice; simpl. replace (n + 1 + c - n) with (S c) by lia.
    by replace (n + 1 + c - (n + 1)) with c by lia. }
  by rewrite string_app_assoc.
Qed.

(** What is written for a byte that is not plain is the escape of it. *)
Lemma escape_written a :
  is_plain a = false ->
  exists e, write_char a = String "\" e /\
    forall t n path, escape (at_ (e +:+ t) n path)
      = Ok (byte_of a, at_ t (n + String.length e) path).
Proof.
  destruct a as [[] [] [] [] [] [] [] []]; try done; intros _; eexists;
    (split; [vm_compute; reflexivity|]); intros t n path; cbv -[Nat.add]; same_position.
Qed.

Lemma write_char_plain a : is_plain a = true -> write_char a = String a "".
Proof. destruct a as [[] [] [] [] [] [] [] []]; done. Qed.

Lemma plain_high a : is_plain a = false -> (byte_of a < 128)%N.
Proof. destruct a as [[] [] [] [] [] [] [] []]; done. Qed.

Lemma string_loop_escape fuel out a t n path :
  is_plain a = false ->
  string_loop (S fuel) out (at_ (write_char a +:+ t) n path)
  = string_loop fuel (out +:+ String a "") (at_ t (n + String.length (write_char a)) path).
Proof.
  intros Ha. destruct (escape_written a Ha) as (e & -> & He). cbn [append string_loop].
  set (p := at_ (String "\" (e +:+ t)) n path).
  assert (advance (count_while is_plain (rest p)) p = p) as ->.
  { unfold advance, p; simpl. by rewrite Nat.add_0_r. }
  assert (slice p p = "") as ->.
  { unfold slice, p; simpl. by rewrite Nat.sub_diag. }
  cbn [peek p at_ rest]. unfold p. rewrite bump_at, He, string_app_nil_r.
  rewrite utf8_char_ascii, byte_byte_of by (by apply plain_high).
  f_equal. same_position.
Qed.

Lemma string_loop_written s fuel out t n path :
  String.length s < fuel ->
  string_loop fuel out (at_ (write_chars s +:+ String "034" t) n path)
  = Ok (out +:+ s, at_ t (n + String.length (write_chars s) + 1) path).
Proof.
  revert fuel out n; induction s as [|a s IH]; intros fuel out n Hfuel;
    (destruct fuel as [|fuel]; [simpl in Hfuel; lia|]).
  - cbn. unfold advance, slice; simpl. rewrite Nat.add_0_r, Nat.sub_diag; simpl.
    by rewrite string_app_nil_r.
  - cbn [write_chars]. rewrite string_app_assoc, str_length_app. simpl in Hfuel.
    destruct (is_plain a) eqn:Ha.
    + rewrite write_char_plain by done. cbn [append String.length].
      rewrite string_loop_plain, IH by (done || lia).
      rewrite string_app_assoc. same_position.
    + rewrite string_loop_escape, IH by (done || lia).
      rewrite string_app_assoc. same_position.
Qed.

Lemma write_char_length a : 1 <= String.length (write_char a).
Proof. destruct a as [[] [] [] [] [] [] [] []]; simpl; lia. Qed.

Lemma write_chars_length s : String.length s <= String.length (write_chars s).
Proof.
  induction s as [|a s IH]; simpl; [done|]. rewrite str_length_app.
  pose proof (write_char_length a). lia.
Qed.

(** A written string reads back. *)
Lemma string_written s t n path :
  string_ (at_ (write_string s +:+ t) n path)
  = Ok (s, at_ t (n + String.length (write_string s)) path).
Proof.
  unfold string_, write_string. cbn [append]. rewrite bump_at, string_app_assoc; cbn [append].
  rewrite string_loop_written.
  - same_position.
  - simpl. rewrite str_length_app. pose proof (write_chars_length s). lia.
Qed.

(** * Numbers *)

(** The bytes a number could go on with. *)
Definition number_byte (a : ascii) : bool := is_digit a || one_of ["."; "e"; "E"]%char a.

Lemma stops_impl (f g : ascii -> bool) s :
  (forall a, f a = true -> g a = true) -> stops g s = true -> stops f s = true.
Proof.
  intros Hfg. destruct s as [|a s]; [done|]. simpl. rewrite !negb_true_iff.
  destruct (f a) eqn:E; [|done]. by rewrite (Hfg a E).
Qed.

Lemma is_peek_at f s n path : is_peek f (at_ s n path) = negb (stops f s).
Proof. destruct s as [|a s]; [done|]. unfold is_peek; simpl. by rewrite negb_involutive. Qed.

Lemma digits_at ds t n path :
  str_all is_digit ds = true -> stops is_digit t = true ->
  digits (at_ (ds +:+ t) n path) = (String.length ds, at_ t (n + String.length ds) path).
Proof.
  intros Hd Ht. unfold digits; simpl rest. by rewrite count_while_app, advance_app.
Qed.

Lemma integer_digits_at i t n path :
  integer_part i -> stops is_digit t = true ->
  integer_digits (at_ (i +:+ t) n path) = Ok (at_ t (n + String.length i) path).
Proof.
  intros [->|(Hd & Hne & H0)] Ht.
  - cbn [append integer_digits peek at_ rest]. fold (at_ (String "0" t) n path).
    by rewrite bump_at, is_peek_at, Ht.
  - pose proof (digits_at i t n path Hd Ht) as Hdig. destruct i as [|a i]; [done|].
    simpl in Hd. bool_to_prop. unfold integer_digits.
    cbn [append peek at_ rest] in *. fold (at_ (String a (i +:+ t)) n path) in *.
    rewrite Hdig. cbn [starts_with_char] in H0. clear Hdig.
    by destruct a as [[] [] [] [] [] [] [] []].
Qed.

Lemma number_byte_stops t :
  stops number_byte t = true ->
  stops is_digit t = true /\ stops (one_of ["."%char]) t = true /\
  stops (one_of ["e"; "E"]%char) t = true.
Proof.
  intros Ht. split_and!; apply (stops_impl _ number_byte); try done; intros a Ha;
    unfold number_byte; simpl in *; rewrite ?orb_false_r in Ha; rewrite ?Ha, ?orb_true_r; try done.
  apply orb_true_iff in Ha as [->| ->]; by rewrite ?orb_true_r.
Qed.

Lemma fraction_digits_at f t n path :
  str_all is_digit f = true -> stops is_digit t = true -> stops (one_of ["."%char]) t = true ->
  fraction_digits (at_ (fraction f +:+ t) n path)
  = Ok (is_empty f, at_ t (n + String.length (fraction f)) path).
Proof.
  intros Hf Ht Hp. unfold fraction_digits, fraction. rewrite is_peek_at. destruct f as [|a f].
  - cbn [is_empty append]. rewrite Hp. simpl. by rewrite Nat.add_0_r.
  - cbn [is_empty append stops one_of existsb Ascii.eqb]. simpl negb. cbv iota.
    rewrite bump_at. change (String a (f +:+ t)) with (String a f +:+ t).
    rewrite digits_at by done. simpl. same_position.
Qed.

Lemma exponent_digits_at x e t n path :
  exponent_part x e -> stops is_digit t = true -> stops (one_of ["e"; "E"]%char) t = true ->
  exponent_digits (at_ (x +:+ t) n path) = Ok (is_empty x, at_ t (n + String.length x) path).
Proof.
  intros Hx Ht Hp. unfold exponent_digits. rewrite is_peek_at.
  destruct Hx as [|sign ds Hd Hne Hs].
  - cbn [append]. rewrite Hp. simpl. by rewrite Nat.add_0_r.
  - cbn [append stops one_of existsb Ascii.eqb]. simpl negb. cbv iota. rewrite bump_at.
    assert (stops (one_of ["+"; "-"]%char) (ds +:+ t) = true) as Hds.
    { destruct ds as [|a ds]; [done|]. simpl in Hd. bool_to_prop.
      by destruct a as [[] [] [] [] [] [] [] []]. }
    destruct ds as [|a ds]; [done|].
    destruct Hs as [<-|[<-|[<-|[]]]]; cbn [append] in *; rewrite is_peek_at;
      [rewrite Hds|..]; simpl negb; cbv iota; rewrite ?bump_at;
      change (String a (ds +:+ t)) with (String a ds +:+ t);
      rewrite digits_at by done; simpl; same_position.
Qed.

Lemma exponent_part_stops f x e t :
  f "e"%char = false -> exponent_part x e -> stops f t = true -> stops f (x +:+ t) = true.
Proof. intros He [|sign ds _ _ _] Ht; [done|]. simpl. by rewrite He. Qed.

(** The optional minus sign. *)
Definition signed (s : bool) : string := if s then "-" else "".

Lemma signed_start s i t n path :
  integer_part i ->
  let start := at_ (signed s +:+ i +:+ t) n path in
  is_peek (one_of ["-"%char]) start = s /\
  (if s then bump start else start) = at_ (i +:+ t) (n + String.length (signed s)) path.
Proof.
  intros [Hd Hne]%integer_part_digits. destruct s; simpl; [by rewrite bump_at|].
  split; [|unfold at_; by rewrite Nat.add_0_r]. rewrite is_peek_at.
  destruct i as [|a i]; [done|]. simpl in *. bool_to_prop.
  by destruct a as [[] [] [] [] [] [] [] []].
Qed.

(** What [number] makes of a numeral. *)
Lemma number_at options s u t n path :
  numeral_ok u -> stops number_byte t = true ->
  let p := at_ t (n + String.length (signed s +:+ numeral_text u)) path in
  let out_of_domain :=
    Err (Refused (ProtocolError.at_offset n (error p ErrorCode.NumberOutOfDomain))) in
  number options (at_ (signed s +:+ numeral_text u +:+ t) n path)
  = match (if is_empty (fractional u) && is_empty (exponent u)
           then safe_integer (integer u) s else None) with
    | Some i => Ok (Number.Int i, p)
    | None =>
        match ParseOptions.numbers options with
        | NumberDomain.SafeInteger => out_of_domain
        | NumberDomain.IJson =>
            match Number.from_f64 (numeral_read s u) with
            | Some m => Ok (m, p) | None => out_of_domain
            end
        end
    end.
Proof.
  intros Hok Ht p out. pose proof (from_str_numeral s u Hok) as Hread.
  fold (signed s) in Hread. destruct Hok as (Hi & Hf & Hx).
  set (x := exponent u) in *. set (f := fractional u) in *. set (i := integer u) in *.
  assert (numeral_text u = i +:+ fraction f +:+ x) as Htext by done.
  set (start := at_ (signed s +:+ numeral_text u +:+ t) n path).
  assert (start = at_ (signed s +:+ i +:+ (fraction f +:+ x +:+ t)) n path) as Hstart.
  { unfold start. by rewrite Htext, !string_app_assoc. }
  destruct (signed_start s i (fraction f +:+ x +:+ t) n path Hi) as [Hneg Hint].
  rewrite <- Hstart in Hneg, Hint. unfold number. rewrite Hneg, Hint.
  apply number_byte_stops in Ht as (Ht1 & Ht2 & Ht3).
  assert (stops is_digit (x +:+ t) = true /\ stops (one_of ["."%char]) (x +:+ t) = true) as [Hx1 Hx2].
  { split; by apply (exponent_part_stops _ _ (power u)). }
  rewrite integer_digits_at, slice_app, fraction_digits_at, (exponent_digits_at _ (power u))
    by (done || (unfold fraction; by destruct f)).
  cbv beta iota.
  match goal with |- context [slice start ?q] => replace q with p end.
  2:{ unfold p. rewrite Htext. same_position. }
  assert (slice start p = signed s +:+ numeral_text u) as ->.
  { unfold start, p. rewrite <- string_app_assoc. apply slice_app. }
  rewrite Hread. cbn [mbind option_bind pos start at_]. fold out.
  destruct (is_empty f && is_empty x), (safe_integer i s); done.
Qed.

Section integers.
Local Open Scope Z_scope.

Lemma digits_value_from_mono v s : (v <= digits_value_from v s)%N.
Proof.
  rewrite digits_value_from_spec. pose proof (N.pow_nonzero 10 (len s)). nia.
Qed.

Lemma safe_integer_from_digits v s :
  str_all is_digit s = true -> 0 <= v <= WireLimits.MAX_SAFE_INTEGER ->
  let w := Z.of_N (digits_value_from (Z.to_N v) s) in
  safe_integer_from v s = if w <=? WireLimits.MAX_SAFE_INTEGER then Some w else None.
Proof.
  revert v; induction s as [|a s IH]; intros v Hs Hv.
  - cbn. rewrite Z2N.id by lia. by destruct (Z.leb_spec v WireLimits.MAX_SAFE_INTEGER); [|lia].
  - simpl in Hs. apply andb_true_iff in Hs as [Ha Hs]. apply is_digit_spec in Ha.
    cbn [safe_integer_from digits_value_from].
    destruct (N.ltb_spec (byte_of a) 48); [lia|].
    replace (Z.to_N v * 10 + digit_value a)%N with (Z.to_N (v * 10 + Z.of_N (byte_of a - 48)))
      by (unfold digit_value; lia).
    set (v' := v * 10 + Z.of_N (byte_of a - 48)).
    destruct (Z.ltb_spec WireLimits.MAX_SAFE_INTEGER v').
    + cbv zeta. pose proof (digits_value_from_mono (Z.to_N v') s).
      destruct (Z.leb_spec (Z.of_N (digits_value_from (Z.to_N v') s)) WireLimits.MAX_SAFE_INTEGER);
        [lia|done].
    + apply IH; [done|unfold v'; lia].
Qed.

(** [safe_integer] is the value of the digits, up to [2^53 - 1]. *)
Lemma safe_integer_digits s negative :
  str_all is_digit s = true ->
  let w := Z.of_N (digits_value s) in
  safe_integer s negative
  = if w <=? WireLimits.MAX_SAFE_INTEGER then Some (if negative : bool then - w else w) else None.
Proof.
  intros Hs w. unfold safe_integer. rewrite safe_integer_from_digits by (done || (unfold WireLimits.MAX_SAFE_INTEGER; lia)).
  change (digits_value_from (Z.to_N 0) s) with (digits_value s). fold w.
  by destruct (w <=? WireLimits.MAX_SAFE_INTEGER).
Qed.

(** A safe integer's double is the integer. *)
Lemma from_f64_int s v :
  0 <= v <= WireLimits.MAX_SAFE_INTEGER ->
  Number.from_f64 (of_decimal s v 0) = Some (Number.Int (if s : bool then - v else v)).
Proof.
  intros Hv. destruct (Z.eq_dec v 0) as [->|Hv0]; [by destruct s|].
  unfold WireLimits.MAX_SAFE_INTEGER in Hv. set (l := Z.log2 v).
  assert (0 <= l <= 52) as Hl.
  { split; [apply Z.log2_nonneg|]. assert (l < 53); [|lia]. apply Z.log2_lt_pow2; lia. }
  pose proof (Z.log2_spec v ltac:(lia)) as [Hlo Hhi]. fold l in Hlo, Hhi.
  pose proof (Z.pow_pos_nonneg 2 (52 - l)) as Hp.
  assert (2 ^ (52 - l) * 2 ^ l = 2 ^ 52) as H52 by (rewrite <- Z.pow_add_r by lia; f_equal; lia).
  rewrite Z.pow_succ_r in Hhi by lia.
  destruct (v * 2 ^ (52 - l)) as [|m|m] eqn:Em; [nia| |nia].
  assert (of_decimal s v 0 = S754_finite s m (l - 52)) as ->.
  { rewrite <- of_ratio_exact.
    - rewrite binary_ratio_spec; cbn [fst snd].
      rewrite (Z.max_l 0 (l - 52)), Z.pow_0_r, Z.mul_1_r, <- Em by lia.
      apply (of_decimal_ratio _ _ _ _ _ 0); try lia.
      rewrite Z.add_0_r, Z.pow_0_r, !Z.mul_1_r. do 2 f_equal. lia.
    - apply valid_finite. unfold MIN_EXPONENT, MAX_EXPONENT. rewrite <- Em. nia. }
  unfold Number.from_f64; cbn [Number.is_finite negb Number.is_integral Number.as_i64].
  replace (if 0 <=? l - 52 then Zpos m * 2 ^ (l - 52) else Zpos m / 2 ^ (- (l - 52))) with v.
  2:{ destruct (Z.leb_spec 0 (l - 52)).
      - replace l with 52 in * by lia. lia.
      - replace (- (l - 52)) with (52 - l) by lia. rewrite <- Em. symmetry. apply Z.div_mul. lia. }
  replace ((0 <=? l - 52) || (Zpos m mod 2 ^ (- (l - 52)) =? 0)) with true.
  2:{ symmetry. apply orb_true_iff. destruct (Z.leb_spec 0 (l - 52)); [by left|right].
      replace (- (l - 52)) with (52 - l) by lia. rewrite <- Em, Z.mod_mul by lia. done. }
  replace (Z.abs (if s : bool then - v else v)) with v by (destruct s; lia).
  unfold WireLimits.MAX_SAFE_INTEGER. destruct (Z.leb_spec v (2 ^ 53 - 1)); [done|lia].
Qed.

(** ** Written numbers *)

Lemma show_Z_numeral i :
  exists u, show_Z i = signed (i <? 0) +:+ numeral_text u /\ numeral_ok u /\
    fractional u = "" /\ exponent u = "" /\
    Z.of_N (digits_value (integer u)) = Z.abs i.
Proof.
  assert (forall n, integer_part (show_N n)) as Hn.
  { intros n. destruct (N.eq_dec n 0%N) as [->|]; [by left|by apply show_N_integer_part]. }
  exists {| integer := show_N (Z.abs_N i); fractional := ""; exponent := ""; power := 0 |}.
  unfold numeral_text; cbn [integer fractional exponent power fraction is_empty append].
  rewrite string_app_nil_r, digits_value_show, N2Z.inj_abs_N. split_and!; try done.
  - destruct (show_Z_cases i) as [[Hi ->]|[Hi ->]]; unfold signed.
    + destruct (Z.ltb_spec i 0); [lia|]. simpl. f_equal. lia.
    + destruct (Z.ltb_spec i 0); [|lia]. simpl. do 2 f_equal. lia.
  - split_and!; [apply Hn|done|constructor].
Qed.
End integers.

(** Which numbers a profile reads. *)
Definition number_in (options : ParseOptions.t) (n : Number.t) : Prop :=
  number_ok n = true /\
  (ParseOptions.numbers options = NumberDomain.SafeInteger -> is_int n = true).

Lemma valid_float x :
  number_ok (Number.Float x) = true ->
  exists s m e, x = S754_finite s m e /\ valid x = true /\
    Number.from_f64 x = Some (Number.Float x).
Proof.
  unfold number_ok. intros [Hv Hx]%andb_true_iff.
  destruct x as [s|s| |s m e]; [done..|]. exists s, m, e. split_and!; [done|done|].
  revert Hx. unfold Number.from_f64. by repeat case_match.
Qed.

(** A written number reads back. *)
Lemma number_written options x t n path :
  number_in options x -> stops number_byte t = true ->
  number options (at_ (write_number x +:+ t) n path)
  = Ok (x, at_ t (n + String.length (write_number x)) path).
Proof.
  intros [Hok Hdom] Ht. destruct x as [i|x]; cbn [write_number].
  - destruct (show_Z_numeral i) as (u & Hu & Hnum & Hf & Hx & Hv). rewrite Hu, string_app_assoc.
    rewrite number_at by done. rewrite Hf, Hx; cbn [is_empty andb].
    destruct Hnum as (Hi & _). apply integer_part_digits in Hi as [Hi _].
    rewrite safe_integer_digits, Hv by done. simpl in Hok. rewrite Hok.
    do 3 f_equal. destruct (Z.ltb_spec i 0); lia.
  - destruct (valid_float x Hok) as (s & m & e & Hx & Hv & Hf).
    destruct (format_es_reads s m e) as (u & Hu & Hnum & Hread); [by rewrite <- Hx|].
    rewrite <- Hx in Hu, Hread. fold (signed s) in Hu. rewrite Hu; cbn [from_option id].
    rewrite string_app_assoc, number_at by done. rewrite Hread, Hf.
    destruct (ParseOptions.numbers options); [by discriminate (Hdom eq_refl)|].
    destruct (is_empty (fractional u) && is_empty (exponent u)) eqn:E; [|done].
    destruct Hnum as (Hi & _ & Hxp). apply integer_part_digits in Hi as [Hi _].
    rewrite safe_integer_digits by done. destruct (Z.leb_spec (Z.of_N (digits_value (integer u)))
      WireLimits.MAX_SAFE_INTEGER) as [Hle|]; [exfalso|done].
    apply andb_true_iff in E as [Ef Ex]. apply is_empty_true in Ef, Ex.
    rewrite Ex in Hxp. unfold numeral_read in Hread. rewrite Ef, string_app_nil_r in Hread.
    apply exponent_of_part in Hxp as [= Hp]. rewrite <- Hp in Hread.
    change (0 - Z.of_nat (String.length ""))%Z with 0%Z in Hread.
    pose proof (from_f64_int s (Z.of_N (digits_value (integer u))) ltac:(lia)) as Hint.
    rewrite Hread, Hf in Hint. discriminate Hint.
Qed.
