(* ===== verification/JsonRoundTrip.v ===== *)
(** Canonical texts read back: a value's text reads as the value with the
    members of its objects in canonical order. *)

From Stdlib Require Import ZArith.
From stdpp Require Import gmap.
From S2P Require Export JsonRead.

(** * Order of members *)

Section sort_laws.
  Context {A : Type}.
  Implicit Types (l : list (string * A)).

Lemma insert_member_perm m l : insert_member m l ≡ₚ m :: l.
Proof.
  induction l as [|m' l IH]; simpl; [done|]. destruct (utf16_le m.1 m'.1); [done|].
  rewrite IH. constructor.
Qed.

Lemma sort_members_perm l : sort_members l ≡ₚ l.
Proof. induction l as [|m l IH]; simpl; [done|]. by rewrite insert_member_perm, IH. Qed.

Lemma utf16_le_total a b : utf16_le a b = false -> utf16_le b a = true.
Proof.
  unfold utf16_le, utf16_cmp. rewrite (cmp_antisym (encode_utf16 a)).
  by destruct (cmp (encode_utf16 a) (encode_utf16 b)).
Qed.

Lemma utf16_le_trans a b c : utf16_le a b = true -> utf16_le b c = true -> utf16_le a c = true.
Proof.
  unfold utf16_le, utf16_cmp. intros Hab Hbc.
  pose proof (cmp_not_gt_trans (encode_utf16 a) (encode_utf16 b) (encode_utf16 c)) as H.
  destruct (cmp (encode_utf16 a) (encode_utf16 c)); [done..|].
  destruct (cmp (encode_utf16 a) (encode_utf16 b)), (cmp (encode_utf16 b) (encode_utf16 c));
    try done; exfalso; by apply H.
Qed.

Lemma utf16_le_antisym a b :
  Utf8 a -> Utf8 b -> utf16_le a b = true -> utf16_le b a = true -> a = b.
Proof.
  unfold utf16_le, utf16_cmp. intros Ha Hb. rewrite (cmp_antisym (encode_utf16 a)).
  destruct (cmp (encode_utf16 a) (encode_utf16 b)) eqn:E; try done. intros _ _.
  apply encode_utf16_inj; [done..|]. by apply cmp_eq.
Qed.

(** Each member's key at most those that follow. *)
Fixpoint in_order l : Prop :=
  match l with
  | [] => True
  | m :: r => Forall (fun m' => utf16_le m.1 m'.1 = true) r /\ in_order r
  end.

Lemma insert_member_in_order m l : in_order l -> in_order (insert_member m l).
Proof.
  induction l as [|m' l IH]; simpl; [by split|]. intros [Hm' Hl].
  destruct (utf16_le m.1 m'.1) eqn:E; simpl.
  - split; [|done]. constructor; [done|]. apply (Forall_impl _ _ _ Hm').
    intros m''. by apply utf16_le_trans.
  - split; [|auto]. rewrite insert_member_perm. constructor; [by apply utf16_le_total|done].
Qed.

Lemma sort_members_in_order l : in_order (sort_members l).
Proof. induction l; simpl; [done|by apply insert_member_in_order]. Qed.

Lemma sort_members_id l : in_order l -> sort_members l = l.
Proof.
  induction l as [|m l IH]; simpl; [done|]. intros [Hm Hl]. rewrite IH by done.
  destruct l as [|m' l]; simpl; [done|]. inversion Hm as [|?? E _]; subst. by rewrite E.
Qed.

(** Sorted members with distinct keys are determined by what they are. *)
Lemma in_order_unique l k :
  in_order l -> in_order k -> NoDup l.*1 -> Forall Utf8 l.*1 -> l ≡ₚ k -> l = k.
Proof.
  revert k; induction l as [|m l IH]; intros k Hl Hk Hnd Hu Hp.
  { by apply Permutation_nil_l in Hp. }
  destruct k as [|m' k]; [by apply Permutation_nil_r in Hp|].
  destruct Hl as [Hm Hl], Hk as [Hm' Hk]. rewrite fmap_cons in Hnd, Hu.
  apply NoDup_cons in Hnd as [Hnin Hnd]. apply Forall_cons in Hu as [Hum Hu'].
  assert (m = m') as <-.
  { assert (m' ∈ m :: l) as Hin by (rewrite Hp; apply elem_of_here).
    assert (m ∈ m' :: k) as Hin' by (rewrite <- Hp; apply elem_of_here).
    apply elem_of_cons in Hin as [->|Hin]; [done|]. apply elem_of_cons in Hin' as [->|Hin']; [done|].
    rewrite Forall_forall in Hm, Hm'. rewrite Forall_forall in Hu'. exfalso. apply Hnin.
    assert (m'.1 ∈ l.*1) as Hm'l by (apply list_elem_of_fmap; eauto).
    rewrite (utf16_le_antisym m.1 m'.1); auto. }
  f_equal. apply IH; try done. by apply Permutation_cons_inv with m.
Qed.
End sort_laws.

(** A function on the values of members. *)
Definition on_value {A B} (f : A -> B) (m : string * A) : string * B := let '(k, x) := m in (k, f x).

Lemma on_value_keys {A B} (f : A -> B) l : (map (on_value f) l).*1 = l.*1.
Proof. induction l as [|[k x] l IH]; simpl; [done|]. by f_equal. Qed.

Lemma on_value_values {A B} (f : A -> B) l : (map (on_value f) l).*2 = map f l.*2.
Proof. induction l as [|[k x] l IH]; simpl; [done|]. by f_equal. Qed.

Lemma insert_member_on_value {A B} (f : A -> B) m l :
  insert_member (on_value f m) (map (on_value f) l) = map (on_value f) (insert_member m l).
Proof.
  destruct m as [k x]. induction l as [|[k' x'] l IH]; simpl; [done|].
  destruct (utf16_le k k'); [done|]. simpl. f_equal. exact IH.
Qed.

Lemma sort_members_on_value {A B} (f : A -> B) l :
  sort_members (map (on_value f) l) = map (on_value f) (sort_members l).
Proof. induction l as [|m l IH]; simpl; [done|]. by rewrite IH, insert_member_on_value. Qed.

(** * The canonical value *)

(** The value with the members of its objects in canonical order. *)
Fixpoint canonical (v : Value.t) : Value.t :=
  match v with
  | Value.Array items => Value.Array (map canonical items)
  | Value.Object members =>
      Value.Object (sort_members (map (fun m => let '(k, x) := m in (k, canonical x)) members))
  | v => v
  end.

Lemma canonical_object members :
  canonical (Value.Object members)
  = Value.Object (sort_members (map (on_value canonical) members)).
Proof. done. Qed.

(** A member's text. *)
Definition member_text (m : string * Value.t) : string :=
  write_string m.1 +:+ String ":" (write_value m.2).

Lemma write_object members :
  write_value (Value.Object members)
  = String "{" (comma_separated (map member_text (sort_members members)) +:+ "}").
Proof.
  cbn [write_value]. do 2 f_equal.
  change (map (fun m => let '(key, value) := m in (key, write_value value)) members)
    with (map (on_value write_value) members).
  rewrite sort_members_on_value, map_map. f_equal. apply map_ext. by intros [k x].
Qed.

(** * Reading values *)

Lemma push_at s n path seg : push seg (at_ s n path) = at_ s n (path ++ [seg]).
Proof. done. Qed.

Lemma pop_at s n path seg : pop (at_ s n (path ++ [seg])) = at_ s n path.
Proof. unfold pop, at_; simpl. by rewrite removelast_last. Qed.

Lemma signed_head s i t :
  integer_part i ->
  exists a r, signed s +:+ i +:+ t = String a r /\ (a = "-"%char \/ is_digit a = true).
Proof.
  intros [Hd Hne]%integer_part_digits. destruct s; simpl; [eauto|].
  destruct i as [|a i]; [done|]. simpl in Hd. bool_to_prop. eauto.
Qed.

Lemma write_number_head x :
  number_ok x = true ->
  exists a r, write_number x = String a r /\ (a = "-"%char \/ is_digit a = true).
Proof.
  intros Hok. destruct x as [i|x]; cbn [write_number].
  - destruct (show_Z_numeral i) as (u & -> & (Hi & _) & _). by apply signed_head.
  - destruct (valid_float x Hok) as (s & m & e & -> & Hv & _).
    destruct (format_es_reads s m e Hv) as (u & -> & (Hi & _) & _). cbn [from_option id].
    fold (signed s). by apply signed_head.
Qed.

Section reading.
  Context (options : ParseOptions.t).

Definition ok : Value.t -> Prop := value_ok (number_in options).

(** What no value begins with: spaces and the brackets that close. *)
Definition not_value (a : ascii) : bool := is_ws a || one_of ["]"; "}"]%char a.

Lemma write_value_stops v t : ok v -> stops not_value (write_value v +:+ t) = true.
Proof.
  destruct 1 as [|[]|x [Hx _]| | |]; try done.
  destruct (write_number_head x Hx) as (a & r & E & Ha). cbn [write_value]. rewrite E.
  destruct Ha as [->|Ha]; [done|]. simpl. by destruct a as [[] [] [] [] [] [] [] []].
Qed.

Lemma stops_ws t : stops not_value t = true -> stops is_ws t = true.
Proof. apply stops_impl. intros a Ha. unfold not_value. by rewrite Ha. Qed.

(** The text of [v] reads as its canonical form, whatever comes after it
    that no number could go on with. *)
Definition reads (v : Value.t) : Prop :=
  forall fuel depth t n path,
    height v < fuel -> depth + height v <= WireLimits.MAX_DEPTH -> stops number_byte t = true ->
    value fuel options depth (at_ (write_value v +:+ t) n path)
    = Ok (canonical v, at_ t (n + String.length (write_value v)) path).

Lemma literal_at word v t n path :
  literal word v (at_ (word +:+ t) n path) = Ok (v, at_ t (n + String.length word) path).
Proof.
  unfold literal; simpl rest. rewrite (proj2 (str_starts_with_spec _ _)); [|eauto].
  by rewrite advance_app.
Qed.

Lemma reads_number x : number_in options x -> reads (Value.Number x).
Proof.
  intros Hx [|fuel] depth t n path Hf _ Ht; [lia|]. cbn [write_value].
  pose proof (number_written options x t n path Hx Ht) as Hread.
  destruct (write_number_head x (proj1 Hx)) as (a & r & E & Ha). rewrite E in Hread |- *.
  cbn [value append peek at_ rest] in *. fold (at_ (String a (r +:+ t)) n path) in *.
  rewrite Hread.
  destruct Ha as [->|Ha]; [done|]. rewrite Ha, orb_true_r.
  by destruct a as [[] [] [] [] [] [] [] []].
Qed.

Lemma reads_string s : reads (Value.String s).
Proof.
  intros [|fuel] depth t n path Hf _ Ht; [lia|]. cbn [write_value].
  pose proof (string_written s t n path) as Hread. unfold write_string in *.
  cbn [value append peek at_ rest] in *.
  match goal with |- context [string_ ?p] => set (q := p) in * end.
  by rewrite Hread.
Qed.

(** ** Arrays *)

(** One turn of the loop, up to the byte after the item. *)
Lemma array_step x fuel f depth items c t n path :
  ok x -> reads x -> height x < f -> depth + height x <= WireLimits.MAX_DEPTH ->
  c = ","%char \/ c = "]"%char ->
  let q := at_ t (n + String.length (write_value x) + 1) path in
  array_loop (value f options) (S fuel) depth items (at_ (write_value x +:+ String c t) n path)
  = (if Ascii.eqb c "," then array_loop (value f options) fuel depth (items ++ [canonical x]) q
     else Ok (Value.Array (items ++ [canonical x]), q)).
Proof.
  intros Hok Hx Hf Hd Hc q. cbn [array_loop].
  rewrite skip_ws_at by (by apply stops_ws, write_value_stops).
  rewrite push_at, Hx by (done || (destruct Hc as [->| ->]; done)).
  rewrite pop_at, skip_ws_at by (destruct Hc as [->| ->]; done).
  by destruct Hc as [->| ->].
Qed.

Lemma array_loop_written xs fuel f depth items t n path :
  xs <> [] -> length xs <= fuel ->
  Forall (fun x => ok x /\ reads x /\ height x < f /\ depth + height x <= WireLimits.MAX_DEPTH) xs ->
  let text := comma_separated (map write_value xs) in
  array_loop (value f options) fuel depth items (at_ (text +:+ String "]" t) n path)
  = Ok (Value.Array (items ++ map canonical xs), at_ t (n + String.length text + 1) path).
Proof.
  intros Hne Hlen Hxs text. unfold text; clear text. revert fuel items n Hlen.
  induction xs as [|x xs IH]; intros fuel items n Hlen; [done|].
  apply Forall_cons in Hxs as [(Hok & Hx & Hf & Hd) Hxs].
  destruct fuel as [|fuel]; [simpl in Hlen; lia|]. destruct xs as [|y xs].
  - cbn [map comma_separated]. rewrite array_step by auto. done.
  - change (comma_separated (map write_value (x :: y :: xs)))
      with (write_value x +:+ String "," (comma_separated (map write_value (y :: xs)))).
    rewrite string_app_assoc; cbn [append]. rewrite array_step by auto. cbn [Ascii.eqb Bool.eqb].
    rewrite (IH ltac:(done) Hxs) by (simpl in *; lia).
    rewrite <- app_assoc. same_position.
Qed.

Lemma comma_separated_cons x l : exists r, comma_separated (x :: l) = x +:+ r.
Proof.
  destruct l as [|y l]; [exists ""; cbn; by rewrite string_app_nil_r|eexists; reflexivity].
Qed.

Lemma comma_separated_length l : (forall x, x ∈ l -> 1 <= String.length x) ->
  length l <= String.length (comma_separated l).
Proof.
  induction l as [|x [|y l] IH]; intros Hl; [done|simpl; apply Hl, elem_of_here|].
  change (comma_separated (x :: y :: l)) with (x +:+ String "," (comma_separated (y :: l))).
  rewrite str_length_app. pose proof (Hl x (elem_of_here x _)).
  specialize (IH (fun z Hz => Hl z (elem_of_later _ _ _ Hz))). cbn [length String.length] in *. lia.
Qed.

Lemma write_value_length v : ok v -> 1 <= String.length (write_value v).
Proof.
  intros Hv. pose proof (write_value_stops v "]" Hv) as Hs.
  destruct (write_value v); [done|simpl; lia].
Qed.

Lemma height_bound {A} (h : A -> nat) l x :
  x ∈ l -> h x <= fold_right (fun x m => Nat.max (h x) m) 0 l.
Proof.
  induction l as [|y l IH]; [by intros ?%not_elem_of_nil|].
  intros [->|Hx]%elem_of_cons; simpl; [lia|]. specialize (IH Hx). lia.
Qed.

Lemma enter_ok depth p : depth < WireLimits.MAX_DEPTH -> enter depth p = Ok (S depth).
Proof. intros H. unfold enter. by destruct (Nat.ltb_spec WireLimits.MAX_DEPTH (S depth)); [lia|]. Qed.

Lemma reads_array items : Forall ok items -> Forall reads items -> reads (Value.Array items).
Proof.
  intros Hok Hr fuel depth t n path Hf Hd Ht. set (h := height (Value.Array items)) in *.
  assert (forall x, x ∈ items -> S (height x) <= h) as Hh.
  { intros x Hx. unfold h. cbn [height]. apply le_n_S. by apply (height_bound height). }
  destruct fuel as [|fuel]; [lia|]. assert (1 <= h) by (unfold h; simpl; lia).
  cbn [write_value value append peek at_ rest]. fold (at_ (String "[" ((comma_separated (map write_value items) +:+ "]") +:+ t)) n path).
  unfold array. rewrite enter_ok, bump_at, string_app_assoc by lia. cbn [append].
  destruct items as [|x items].
  - cbn [map comma_separated append]. rewrite skip_ws_at, is_peek_at by done.
    cbn [stops one_of existsb Ascii.eqb negb]. simpl negb. cbv iota. rewrite bump_at. same_position.
  - assert (stops not_value (comma_separated (map write_value (x :: items)) +:+ String "]" t) = true) as Hs.
    { cbn [map]. destruct (comma_separated_cons (write_value x) (map write_value items)) as [r ->].
      rewrite string_app_assoc. apply write_value_stops. by apply Forall_cons in Hok as [? _]. }
    rewrite skip_ws_at, is_peek_at by (by apply stops_ws).
    rewrite (stops_impl _ not_value); [|clear|exact Hs].
    2:{ intros a Ha. unfold not_value. simpl in *. rewrite orb_false_r in Ha. rewrite Ha. apply orb_true_r. }
    cbn [negb]. rewrite array_loop_written; [|done|..].
    + same_position.
    + simpl rest. rewrite str_length_app.
      pose proof (comma_separated_length (map write_value (x :: items))) as Hlen.
      rewrite length_map in Hlen. cut (length (x :: items) <=
        String.length (comma_separated (map write_value (x :: items)))); [simpl; lia|].
      apply Hlen. intros s Hs'. apply list_elem_of_In, in_map_iff in Hs' as (y & <- & Hy).
      apply write_value_length. rewrite Forall_forall in Hok. by apply Hok, list_elem_of_In.
    + rewrite Forall_forall in Hok, Hr |- *. intros y Hy. specialize (Hh y Hy).
      split_and!; [by apply Hok|by apply Hr|lia|lia].
Qed.

(** ** Objects *)

Lemma write_string_stops s t : stops not_value (write_string s +:+ t) = true.
Proof. done. Qed.

(** One turn of the loop: a member whose key is new. *)
Lemma object_step k x fuel f depth members seen c t n path :
  ok x -> reads x -> height x < f -> depth + height x <= WireLimits.MAX_DEPTH ->
  seen !! k = None -> c = ","%char \/ c = "}"%char ->
  let q := at_ t (n + String.length (member_text (k, x)) + 1) path in
  object_loop (value f options) (S fuel) depth members seen
    (at_ (member_text (k, x) +:+ String c t) n path)
  = (if Ascii.eqb c "," then
       object_loop (value f options) fuel depth (members ++ [(k, canonical x)])
         (<[k := length members]> seen) q
     else Ok (Value.Object (members ++ [(k, canonical x)]), q)).
Proof.
  intros Hok Hx Hf Hd Hk Hc q. cbn [object_loop]. unfold member_text; cbn [fst snd].
  rewrite string_app_assoc, skip_ws_at by done. cbn [append].
  rewrite is_peek_at. change (stops (one_of ["034"%char]) (write_string k +:+ _)) with false.
  cbn [negb]. cbv iota. rewrite string_written, bool_decide_eq_false_2 by (rewrite Hk; by intros []).
  rewrite skip_ws_at by done. cbn [expect peek at_ rest]. simpl Ascii.eqb. cbv iota.
  fold (at_ (String ":" (write_value x +:+ String c t)) (n + String.length (write_string k)) path).
  rewrite bump_at, skip_ws_at by (by apply stops_ws, write_value_stops).
  rewrite push_at, Hx by (done || (destruct Hc as [->| ->]; done)).
  rewrite pop_at, skip_ws_at by (destruct Hc as [->| ->]; done).
  assert (n + String.length (write_string k) + 1 + String.length (write_value x)
    = n + String.length (member_text (k, x))) as ->.
  { unfold member_text. rewrite str_length_app; simpl. lia. }
  by destruct Hc as [->| ->].
Qed.

(** The keys the loop has seen. *)
Definition see (seen : gmap string nat) (i : nat) (l : list (string * Value.t)) : gmap string nat :=
  fst (fold_left (fun s m => (<[m.1 := s.2]> s.1, S s.2)) l (seen, i)).

Lemma see_cons seen i m l : see seen i (m :: l) = see (<[m.1 := i]> seen) (S i) l.
Proof. done. Qed.

Lemma see_keys l seen i k :
  is_Some (see seen i l !! k) <-> is_Some (seen !! k) \/ k ∈ l.*1.
Proof.
  revert seen i; induction l as [|m l IH]; intros seen i.
  - split; [by left|]. intros [?|?%not_elem_of_nil]; done.
  - rewrite see_cons, IH, fmap_cons, elem_of_cons. destruct (decide (m.1 = k)) as [<-|Hne].
    + rewrite lookup_insert_eq. split; [|by left]. intros _. right. by left.
    + rewrite lookup_insert_ne by done. split; [tauto|].
      intros [?|[->|?]]; [by left|done|by right].
Qed.

(** What the object loop reads of its members: keys new and distinct, values
    that read. *)
Definition fresh_members (f depth : nat) (seen : gmap string nat) (l : list (string * Value.t)) : Prop :=
  NoDup l.*1 /\ Forall (fun k => seen !! k = None) l.*1 /\
  Forall (fun x => ok x /\ reads x /\ height x < f /\ depth + height x <= WireLimits.MAX_DEPTH) l.*2.

Lemma fresh_members_cons f depth seen k x l i :
  fresh_members f depth seen ((k, x) :: l) ->
  seen !! k = None /\ (ok x /\ reads x /\ height x < f /\ depth + height x <= WireLimits.MAX_DEPTH) /\
  fresh_members f depth (<[k := i]> seen) l.
Proof.
  intros (Hnd & Hs & Hl). rewrite !fmap_cons in *. apply NoDup_cons in Hnd as [Hnin Hnd].
  apply Forall_cons in Hs as [Hk Hs]. apply Forall_cons in Hl as [Hx Hl].
  split; [done|split; [done|]]. split; [done|split; [|done]].
  rewrite Forall_forall in Hs |- *. intros k' Hk'.
  rewrite lookup_insert_ne by (intros E; cbn in *; congruence). by apply Hs.
Qed.

(** A run of members with a comma after each. *)
Lemma object_loop_members l fuel f depth members seen t n path :
  fresh_members f depth seen l ->
  let text := String.concat "" (map (fun m => member_text m +:+ ",") l) in
  object_loop (value f options) (length l + fuel) depth members seen (at_ (text +:+ t) n path)
  = object_loop (value f options) fuel depth (members ++ map (on_value canonical) l)
      (see seen (length members) l) (at_ t (n + String.length text) path).
Proof.
  intros Hl text. unfold text; clear text. revert members seen n Hl.
  induction l as [|[k x] l IH]; intros members seen n Hl.
  { simpl. by rewrite app_nil_r, Nat.add_0_r. }
  apply (fresh_members_cons _ _ _ _ _ _ (length members)) in Hl as (Hk & (Hok & Hx & Hf & Hd) & Hl).
  assert (String.concat "" (map (fun m => member_text m +:+ ",") ((k, x) :: l))
    = member_text (k, x) +:+ String "," (String.concat "" (map (fun m => member_text m +:+ ",") l))) as ->.
  { cbn [map String.concat]. destruct (map _ l) eqn:E; [done|].
    by rewrite string_app_assoc. }
  rewrite string_app_assoc. cbn [append length]. rewrite Nat.add_succ_l, object_step by auto.
  cbn [Ascii.eqb Bool.eqb]. rewrite IH by done. rewrite see_cons, <- app_assoc, length_app.
  cbn [fst map length app on_value]. rewrite Nat.add_1_r. do 2 f_equal.
  rewrite str_length_app; simpl. lia.
Qed.

Lemma comma_separated_last l x :
  comma_separated (l ++ [x]) = String.concat "" (map (fun y => y +:+ ",") l) +:+ x.
Proof.
  induction l as [|y l IH]; [done|]. cbn [app].
  assert (comma_separated (y :: l ++ [x]) = y +:+ String "," (comma_separated (l ++ [x]))) as ->
    by (by destruct l).
  rewrite IH. cbn [map String.concat]. destruct (map _ l) eqn:E.
  - cbn [String.concat append]. by rewrite string_app_assoc.
  - by rewrite !string_app_assoc.
Qed.

(** The whole of an object's members. *)
Lemma object_loop_written l fuel f depth t n path :
  l <> [] -> length l <= fuel -> fresh_members f depth ∅ l ->
  let text := comma_separated (map member_text l) in
  object_loop (value f options) fuel depth [] ∅ (at_ (text +:+ String "}" t) n path)
  = Ok (Value.Object (map (on_value canonical) l), at_ t (n + String.length text + 1) path).
Proof.
  intros Hne Hlen Hl text. unfold text; clear text.
  destruct l as [|[k x] l _] using rev_ind; [done|].
  rewrite length_app in Hlen; simpl in Hlen.
  destruct Hl as (Hnd & Hs & Hv). rewrite fmap_app in Hnd, Hs. rewrite fmap_app in Hv.
  apply NoDup_app in Hnd as (Hnd & Hkl & _).
  apply Forall_app in Hs as [Hs _]. apply Forall_app in Hv as [Hv [(Hok & Hx & Hf & Hd) _]%Forall_cons].
  rewrite !List.map_app. cbn [map]. rewrite comma_separated_last, map_map, string_app_assoc.
  replace fuel with (length l + (fuel - length l)) by lia.
  rewrite object_loop_members by done.
  destruct (fuel - length l) as [|fuel'] eqn:E; [lia|]. rewrite object_step; try done; auto.
  - cbn [Ascii.eqb Bool.eqb]. rewrite str_length_app. same_position.
  - apply eq_None_not_Some. rewrite see_keys, lookup_empty. intros [[? ?]|Hin]; [done|].
    apply (Hkl k Hin), elem_of_here.
Qed.

Lemma member_text_length m : 1 <= String.length (member_text m).
Proof. unfold member_text, write_string. simpl. lia. Qed.

Lemma reads_object members :
  ok (Value.Object members) -> Forall reads members.*2 -> reads (Value.Object members).
Proof.
  intros Ho Hr fuel depth t n path Hf Hd Ht. inversion Ho as [| | | | |? Hnd Hu Hok]; subst.
  set (h := height (Value.Object members)) in *. set (l := sort_members members).
  assert (l ≡ₚ members) as Hl by apply sort_members_perm.
  assert (forall m, m ∈ members -> S (height m.2) <= h) as Hh.
  { intros m Hm. unfold h. cbn [height]. apply le_n_S.
    by apply (height_bound (fun m : string * Value.t => height m.2)). }
  destruct fuel as [|fuel]; [lia|]. assert (1 <= h) by (unfold h; simpl; lia).
  rewrite canonical_object, sort_members_on_value, write_object. fold l.
  cbn [value append peek at_ rest].
  fold (at_ (String "{" ((comma_separated (map member_text l) +:+ "}") +:+ t)) n path).
  unfold object. rewrite enter_ok, bump_at, string_app_assoc by lia. cbn [append].
  destruct l as [|m l'] eqn:El.
  - cbn [map comma_separated append]. rewrite skip_ws_at, is_peek_at by done.
    cbn [stops one_of existsb Ascii.eqb negb]. simpl negb. cbv iota. rewrite bump_at. same_position.
  - rewrite <- El in *.
    assert (exists s, comma_separated (map member_text l) +:+ String "}" t = String "034" s) as [s Hs].
    { rewrite El. cbn [map]. destruct (comma_separated_cons (member_text m) (map member_text l')) as [r ->].
      eexists. reflexivity. }
    rewrite skip_ws_at, is_peek_at by (by rewrite Hs). rewrite Hs. cbn -[object_loop].
    rewrite <- Hs. fold (at_ (comma_separated (map member_text l) +:+ String "}" t) (n + 1) path).
    rewrite object_loop_written; [|by rewrite El|..].
    + same_position.
    + assert (length l <= String.length (comma_separated (map member_text l))) as Hlen.
      { rewrite <- (length_map member_text). apply comma_separated_length. intros x Hx.
        apply list_elem_of_In, in_map_iff in Hx as (y & <- & _). apply member_text_length. }
      apply (f_equal String.length) in Hs. rewrite str_length_app in Hs. simpl in Hs. lia.
    + split_and!; [by rewrite Hl|apply Forall_forall; intros k _; apply lookup_empty|].
      rewrite Hl. rewrite Forall_forall in Hok, Hr |- *. intros x Hx.
      pose proof Hx as (m' & -> & Hm')%list_elem_of_fmap. specialize (Hh m' Hm').
      split; [by apply Hok|split; [by apply Hr|lia]].
Qed.

(** Every value's text reads as its canonical form. *)
Lemma written_reads v : ok v -> reads v.
Proof.
  induction v as [|b|x|s|items IH|members IH] using Value.value_ind; intros Hok.
  - intros [|fuel] depth t n path; [lia|]. intros. apply (literal_at "null").
  - intros [|fuel] depth t n path; [lia|]. intros.
    destruct b; [apply (literal_at "true")|apply (literal_at "false")].
  - inversion Hok; subst. by apply reads_number.
  - apply reads_string.
  - inversion Hok as [| | | |? Hi|]; subst. apply reads_array; [done|].
    rewrite Forall_forall in IH, Hi |- *. intros x Hx. apply IH; [done|by apply Hi].
  - apply reads_object; [done|]. inversion Hok as [| | | | |? _ _ Hi]; subst.
    rewrite Forall_forall in IH. rewrite Forall_forall in Hi |- *. intros x Hx.
    pose proof Hx as (m & -> & Hm)%list_elem_of_fmap.
    apply IH; [done|by apply Hi].
Qed.
End reading.
