(* ===== verification/JsonCanonical.v ===== *)
(** Canonical values and texts: equality of values is equality of canonical
    forms, canonicalisation is idempotent, canonical texts are UTF-8. *)

From Stdlib Require Import ZArith.
From stdpp Require Import gmap.
From S2P Require Export JsonRoundTrip.

(** * Texts are UTF-8 *)

Lemma digits_ascii s : str_all is_digit s = true -> str_all is_ascii s = true.
Proof.
  apply str_all_impl. intros a Ha. apply is_digit_spec in Ha. apply in_range_spec. lia.
Qed.

Lemma write_chars_app s t : write_chars (s +:+ t) = write_chars s +:+ write_chars t.
Proof. induction s as [|a s IH]; simpl; [done|]. by rewrite IH, string_app_assoc. Qed.

Lemma write_chars_high s : str_all is_high s = true -> write_chars s = s.
Proof.
  induction s as [|a s IH]; simpl; [done|]. intros [Ha Hs]%andb_true_iff.
  rewrite IH by done. rewrite write_char_plain; [done|].
  destruct a as [[] [] [] [] [] [] [] []]; done.
Qed.

Lemma write_char_ascii a : (byte_of a < 128)%N -> str_all is_ascii (write_char a) = true.
Proof. destruct a as [[] [] [] [] [] [] [] []]; done. Qed.

Lemma write_string_Utf8 s : Utf8 s -> Utf8 (write_string s).
Proof.
  intros Hs. unfold write_string. apply Utf8_ascii; [done|].
  apply Utf8_app; [|by apply Utf8_all_ascii].
  induction Hs as [|c s Hc Hs IH]; [constructor|]. rewrite write_chars_app.
  apply Utf8_app; [|done]. destruct (N.ltb_spec c 128) as [H|H].
  - rewrite utf8_char_ascii by done. cbn [write_chars]. rewrite string_app_nil_r.
    apply Utf8_all_ascii, write_char_ascii. by rewrite byte_of_byte by lia.
  - rewrite write_chars_high by (by apply utf8_high). rewrite <- (string_app_nil_r (utf8 c)).
    by constructor; [|constructor].
Qed.

Lemma numeral_ascii s u : numeral_ok u -> str_all is_ascii (signed s +:+ numeral_text u) = true.
Proof.
  intros (Hi & Hf & Hx). apply integer_part_digits in Hi as [Hi _]. unfold numeral_text.
  rewrite !str_all_app, (digits_ascii _ Hi).
  assert (str_all is_ascii (fraction (fractional u)) = true) as Hfrac.
  { unfold fraction. destruct (fractional u); [done|]. exact (digits_ascii _ Hf). }
  assert (str_all is_ascii (exponent u) = true) as Hexp.
  { destruct Hx as [|sign ds Hd _ Hs]; [done|]. simpl. rewrite str_all_app, (digits_ascii ds) by done.
    by destruct Hs as [<-|[<-|[<-|[]]]]. }
  rewrite Hfrac, Hexp. by destruct s.
Qed.

Lemma write_number_ascii x : number_ok x = true -> str_all is_ascii (write_number x) = true.
Proof.
  intros Hok. destruct x as [i|x]; cbn [write_number].
  - destruct (show_Z_numeral i) as (u & -> & Hu & _). by apply numeral_ascii.
  - destruct (valid_float x Hok) as (s & m & e & -> & Hv & _).
    destruct (format_es_reads s m e Hv) as (u & -> & Hu & _). by apply numeral_ascii.
Qed.

Lemma comma_separated_Utf8 l : Forall Utf8 l -> Utf8 (comma_separated l).
Proof.
  induction 1 as [|x [|y l] Hx _ IH]; [constructor|done|].
  change (comma_separated (x :: y :: l)) with (x +:+ String "," (comma_separated (y :: l))).
  apply Utf8_app; [done|]. by apply Utf8_ascii.
Qed.

(** Values whose numbers are [Number]s of the code. *)
Definition value_wf : Value.t -> Prop := value_ok (fun n => number_ok n = true).

Lemma value_ok_impl (P Q : Number.t -> Prop) v :
  (forall n, P n -> Q n) -> value_ok P v -> value_ok Q v.
Proof.
  intros HPQ. induction v as [| | | |items IH|members IH] using Value.value_ind;
    inversion 1 as [| | | |? Hi|? Hnd Hu Hi]; subst; constructor; auto.
  - rewrite Forall_forall in IH, Hi |- *. auto.
  - rewrite Forall_forall in IH. rewrite Forall_forall in Hi |- *.
    intros x Hx. pose proof Hx as (m & -> & Hm)%list_elem_of_fmap. auto.
Qed.

Lemma write_value_Utf8 v : value_wf v -> Utf8 (write_value v).
Proof.
  induction v as [|[]|x|s|items IH|members IH] using Value.value_ind; intros Hv;
    try (by apply Utf8_all_ascii).
  - inversion Hv; subst. by apply Utf8_all_ascii, write_number_ascii.
  - inversion Hv; subst. by apply write_string_Utf8.
  - inversion Hv as [| | | |? Hi|]; subst. cbn [write_value]. apply Utf8_ascii; [done|].
    apply Utf8_app; [|by apply Utf8_all_ascii]. apply comma_separated_Utf8.
    rewrite Forall_forall in IH, Hi. apply Forall_forall.
    intros s (x & -> & Hx)%list_elem_of_fmap. apply IH; [done|by apply Hi].
  - inversion Hv as [| | | | |? Hnd Hu Hi]; subst. rewrite write_object.
    apply Utf8_ascii; [done|]. apply Utf8_app; [|by apply Utf8_all_ascii].
    apply comma_separated_Utf8. rewrite Forall_forall in IH. rewrite Forall_forall in Hi.
    rewrite Forall_forall in Hu.
    apply Forall_forall. intros s (m & -> & Hm)%list_elem_of_fmap.
    rewrite sort_members_perm in Hm. unfold member_text.
    apply Utf8_app; [apply write_string_Utf8, Hu; by apply list_elem_of_fmap_2|].
    apply Utf8_ascii; [done|]. apply IH; [done|]. apply Hi. by apply list_elem_of_fmap_2.
Qed.

(** * Canonical forms *)

Lemma canonical_ok P v : value_ok P v -> value_ok P (canonical v).
Proof.
  induction v as [| | | |items IH|members IH] using Value.value_ind; intros Hv; try done.
  - inversion Hv as [| | | |? Hi|]; subst. cbn [canonical]. constructor.
    rewrite Forall_forall in IH, Hi |- *. intros y (x & -> & Hx)%list_elem_of_fmap.
    apply IH; [done|by apply Hi].
  - inversion Hv as [| | | | |? Hnd Hu Hi]; subst. rewrite canonical_object.
    assert (Object.keys (sort_members (map (on_value canonical) members)) ≡ₚ Object.keys members) as Hk.
    { unfold Object.keys. rewrite sort_members_perm. by rewrite on_value_keys. }
    constructor; [by rewrite Hk|by rewrite Hk|].
    rewrite sort_members_perm, on_value_values.
    rewrite Forall_forall in IH. rewrite Forall_forall in Hi |- *.
    intros y (x & -> & Hx)%list_elem_of_fmap.
    pose proof Hx as (m & -> & Hm)%list_elem_of_fmap. apply IH; [done|by apply Hi].
Qed.

Lemma write_canonical v : write_value (canonical v) = write_value v.
Proof.
  induction v as [| | | |items IH|members IH] using Value.value_ind; try done.
  - cbn [canonical write_value]. do 3 f_equal. rewrite map_map. apply map_ext_in.
    rewrite Forall_forall in IH. intros x Hx%list_elem_of_In. auto.
  - rewrite canonical_object, !write_object, sort_members_id by apply sort_members_in_order.
    do 3 f_equal. rewrite sort_members_on_value, map_map. apply map_ext_in.
    rewrite Forall_forall in IH. intros [k x] Hm%list_elem_of_In.
    rewrite sort_members_perm in Hm. unfold member_text, on_value; cbn [fst snd].
    by rewrite (IH (k, x) Hm : write_value (canonical x) = write_value x).
Qed.

(** ** Equality *)

Lemma number_eq a b : number_ok a = true -> number_ok b = true -> Number.eq a b = true <-> a = b.
Proof.
  intros Ha Hb. destruct a as [i|x], b as [j|y]; cbn [Number.eq]; try (split; congruence).
  - rewrite Z.eqb_eq. split; congruence.
  - destruct (valid_float y Hb) as (s & m & e & -> & _). split.
    + intros ->%SFeqb_finite. done.
    + intros [= ->]. apply SFeqb_refl.
Qed.

Lemma get_Some o k x : Object.get o k = Some x -> (k, x) ∈ o.
Proof.
  unfold Object.get. destruct (List.find _ o) as [[k' y]|] eqn:E; [|done]. intros [= ->].
  apply find_some in E as [Hin Hk]. apply String.eqb_eq in Hk. cbn in Hk. subst.
  by apply list_elem_of_In.
Qed.

Lemma get_member o k x : NoDup (Object.keys o) -> (k, x) ∈ o -> Object.get o k = Some x.
Proof.
  unfold Object.get, Object.keys. induction o as [|[k' y] o IH]; [by intros _ ?%not_elem_of_nil|].
  rewrite fmap_cons, NoDup_cons, elem_of_cons. intros [Hnin Hnd] [[= -> ->]|Hin]; cbn [List.find fst].
  - by rewrite String.eqb_refl.
  - destruct (String.eqb_spec k' k) as [->|_]; [|auto].
    exfalso. apply Hnin. by apply (list_elem_of_fmap_2 fst) in Hin.
Qed.

Definition eq_items : list Value.t -> list Value.t -> bool :=
  fix items l k :=
    match l, k with
    | [], [] => true
    | x :: l, y :: k => ValueEq.eq x y && items l k
    | _, _ => false
    end.

Lemma eq_array l k : ValueEq.eq (Value.Array l) (Value.Array k) = eq_items l k.
Proof. done. Qed.

Lemma eq_items_canonical l k :
  Forall value_wf l -> Forall value_wf k ->
  Forall (fun x => forall y, value_wf x -> value_wf y ->
    ValueEq.eq x y = true <-> canonical x = canonical y) l ->
  eq_items l k = true <-> map canonical l = map canonical k.
Proof.
  intros Hl Hk IH. revert k Hk; induction IH as [|x l Hx _ IHl]; intros k Hk.
  - destruct k; simpl; split; congruence.
  - destruct Hk as [|y k Hy Hk]; simpl; [split; congruence|].
    apply Forall_cons in Hl as [Hwx Hl]. rewrite andb_true_iff, Hx, IHl by done.
    split; [intros [-> ->]; done|intros [= -> ->]; done].
Qed.

(** The members of [l], each found in [k] with an equal value. *)
Definition eq_members (k : Object.t) : Object.t -> bool :=
  fix members l :=
    match l with
    | [] => true
    | (key, x) :: r =>
        match Object.get k key with Some y => ValueEq.eq x y | None => false end && members r
    end.

Lemma eq_object l k :
  ValueEq.eq (Value.Object l) (Value.Object k) = (length l =? length k)%nat && eq_members k l.
Proof. done. Qed.

Lemma eq_members_spec k l :
  eq_members k l = true <->
  forall m, m ∈ l -> exists y, Object.get k m.1 = Some y /\ ValueEq.eq m.2 y = true.
Proof.
  induction l as [|[key x] l IH]; simpl.
  - split; [by intros _ m ?%not_elem_of_nil|done].
  - rewrite andb_true_iff, IH. setoid_rewrite elem_of_cons. split.
    + intros [Hx Hl] m [->|Hm]; [|auto]. cbn [fst snd].
      destruct (Object.get k key) as [y|]; [eauto|done].
    + intros H. split; [|auto]. destruct (H (key, x) (or_introl eq_refl)) as (y & Hy & E).
      cbn in Hy. by rewrite Hy.
Qed.

Lemma canonical_members_perm l k :
  NoDup (Object.keys l) -> Forall Utf8 (Object.keys l) ->
  sort_members (map (on_value canonical) l) = sort_members (map (on_value canonical) k)
  <-> map (on_value canonical) l ≡ₚ map (on_value canonical) k.
Proof.
  intros Hnd Hu. split.
  - intros E. by rewrite <- (sort_members_perm (map _ l)), E, sort_members_perm.
  - intros E. apply in_order_unique; try apply sort_members_in_order.
    + by rewrite sort_members_perm, on_value_keys.
    + by rewrite sort_members_perm, on_value_keys.
    + by rewrite !sort_members_perm.
Qed.

Lemma canonical_members_in l m : m ∈ l -> (m.1, canonical m.2) ∈ map (on_value canonical) l.
Proof. intros Hm. destruct m as [k x]. exact (list_elem_of_fmap_2 (on_value canonical) l _ Hm). Qed.

(** Objects are equal when their canonical members are. *)
Lemma eq_members_canonical l k :
  NoDup (Object.keys l) -> NoDup (Object.keys k) ->
  (forall m y, m ∈ l -> y ∈ k.*2 -> ValueEq.eq m.2 y = true <-> canonical m.2 = canonical y) ->
  ((length l =? length k)%nat && eq_members k l = true
   <-> map (on_value canonical) l ≡ₚ map (on_value canonical) k).
Proof.
  intros Hl Hk IH. rewrite andb_true_iff, Nat.eqb_eq, eq_members_spec. split.
  - intros [Hlen Hm]. apply submseteq_length_Permutation; [|by rewrite !length_map, Hlen].
    apply NoDup_submseteq.
    + apply (NoDup_fmap_1 fst). by rewrite on_value_keys.
    + intros [key cx] (m & E & Hin)%list_elem_of_fmap. destruct (Hm m Hin) as (y & Hy & Heq).
      apply get_Some in Hy. rewrite IH in Heq; [|done|by apply (list_elem_of_fmap_2 snd) in Hy].
      apply canonical_members_in in Hy. cbn [fst snd] in Hy. rewrite <- Heq in Hy.
      by rewrite E, <- Hy || (destruct m; rewrite E; exact Hy).
  - intros E. split; [by apply Permutation_length in E; rewrite !length_map in E|].
    intros m Hm. pose proof (canonical_members_in l m Hm) as Hin. rewrite E in Hin.
    apply list_elem_of_fmap in Hin as ([key y] & Hy & Hin). cbn in Hy. injection Hy as Hkey Hy.
    exists y. rewrite Hkey. split; [by apply get_member|].
    apply IH; [done|by apply (list_elem_of_fmap_2 snd) in Hin|done].
Qed.

(** Two values are equal exactly when their canonical forms are the same. *)
Lemma eq_canonical v w :
  value_wf v -> value_wf w -> ValueEq.eq v w = true <-> canonical v = canonical w.
Proof.
  revert w; induction v as [|b|x|s|items IH|members IH] using Value.value_ind; intros w Hv Hw;
    destruct w as [|b'|y|t|items'|members']; try (cbn; split; congruence).
  - cbn. rewrite eqb_true_iff. split; congruence.
  - inversion Hv; inversion Hw; subst. cbn [ValueEq.eq]. rewrite number_eq by done.
    cbn. split; congruence.
  - cbn. rewrite String.eqb_eq. split; congruence.
  - inversion Hv as [| | | |? Hi|]; inversion Hw as [| | | |? Hi'|]; subst.
    rewrite eq_array, eq_items_canonical; [cbn; split; congruence|done|done|].
    rewrite Forall_forall in Hi, IH |- *. intros x Hx y Hwx Hwy. by apply IH.
  - inversion Hv as [| | | | |? Hnd Hu Hi]; inversion Hw as [| | | | |? Hnd' Hu' Hi']; subst.
    rewrite eq_object, !canonical_object, eq_members_canonical; [|done|done|].
    + rewrite <- canonical_members_perm by done. split; congruence.
    + rewrite Forall_forall in IH. rewrite Forall_forall in Hi. rewrite Forall_forall in Hi'.
      intros m y Hm Hy. apply IH; [done|apply Hi; by apply list_elem_of_fmap_2|by apply Hi'].
Qed.

Lemma eq_refl_wf v : value_wf v -> ValueEq.eq v v = true.
Proof. intros Hv. by apply eq_canonical. Qed.

Lemma canonical_idempotent v : canonical (canonical v) = canonical v.
Proof.
  induction v as [| | | |items IH|members IH] using Value.value_ind; try done.
  - cbn [canonical]. f_equal. rewrite map_map. apply map_ext_in.
    rewrite Forall_forall in IH. intros x Hx%list_elem_of_In. auto.
  - rewrite !canonical_object. f_equal.
    rewrite <- (sort_members_on_value canonical (map _ members)), map_map.
    rewrite (sort_members_id (sort_members _)) by apply sort_members_in_order.
    f_equal. apply map_ext_in. rewrite Forall_forall in IH. intros [k x] Hm%list_elem_of_In.
    cbn. by rewrite (IH (k, x) Hm : canonical (canonical x) = canonical x).
Qed.
