(* ===== verification/JsonSound.v ===== *)
(** What the lexer does on any input: it ends, its errors point into the
    input, and what it accepts is well formed. *)

From Stdlib Require Import ZArith.
From stdpp Require Import gmap.
From S2P Require Export JsonCanonical.

(** * Moving through the input *)

(** [q] is [p] after [k] bytes or more, at a character boundary. *)
Definition moved (k : nat) (p q : Parser) : Prop :=
  exists s, rest p = s +:+ rest q /\ pos q = pos p + String.length s /\
    k <= String.length s /\ Utf8 (rest q).

(** The codes a parse past UTF-8 can end with, at an offset from [p] on. *)
Definition error_in (p : Parser) (e : ProtocolError.t) : Prop :=
  ProtocolError.code e ∈ [ErrorCode.InvalidJson; ErrorCode.DuplicateKey;
    ErrorCode.MaxDepthExceeded; ErrorCode.NumberOutOfDomain] /\
  exists o, ProtocolError.offset e = Some o /\ pos p <= o <= pos p + String.length (rest p).

(** What a step promises: to refuse within the input, or to move [k] bytes
    and give a result that satisfies [Q]; not to run out of fuel. *)
Definition post {A} (k : nat) (p : Parser) (Q : A -> Prop) (r : outcome (A * Parser)) : Prop :=
  match r with
  | Ok (a, q) => moved k p q /\ Q a
  | Err (Refused e) => error_in p e
  | Err NoFuel => False
  end.

Lemma moved_refl p : Utf8 (rest p) -> moved 0 p p.
Proof. intros. exists "". simpl. split_and!; [done|lia|lia|done]. Qed.

Lemma moved_trans i j k p q r : moved i p q -> moved j q r -> k <= i + j -> moved k p r.
Proof.
  intros (s & Hs & Hp & Hi & _) (t & Ht & Hq & Hj & Hu) Hk. exists (s +:+ t).
  rewrite string_app_assoc, str_length_app. split_and!; [congruence|lia|lia|done].
Qed.

Lemma moved_weaken j k p q : moved j p q -> k <= j -> moved k p q.
Proof. intros (s & ? & ? & ? & ?) Hk. exists s. split_and!; [done|done|lia|done]. Qed.

Lemma moved_good k p q : moved k p q -> Utf8 (rest q).
Proof. by intros (? & _ & _ & _ & ?). Qed.

Lemma moved_length k p q : moved k p q -> k + String.length (rest q) <= String.length (rest p).
Proof. intros (s & -> & _ & Hk & _). rewrite str_length_app. lia. Qed.

Lemma error_in_moved k p q e : moved k p q -> error_in q e -> error_in p e.
Proof.
  intros (s & Hs & Hp & _ & _) [Hc (o & Ho & Hb)]. split; [done|]. exists o.
  rewrite Hs, str_length_app. split; [done|lia].
Qed.

Lemma post_bind {A B} i j k p (Q : A -> Prop) (R : B -> Prop) r f :
  post i p Q r -> (forall a q, moved i p q -> Q a -> post j q R (f (a, q))) -> k <= i + j ->
  post k p R (match r with Ok x => f x | Err e => Err e end).
Proof.
  intros Hr Hf Hk. destruct r as [[a q]|[e|]]; cbn in Hr; [|done|done].
  destruct Hr as [Hm HQ]. specialize (Hf a q Hm HQ). destruct (f (a, q)) as [[b q']|[e|]]; [|..|done].
  - destruct Hf as [Hm' HR]. split; [|done]. by apply (moved_trans i j k p q q').
  - by apply (error_in_moved i p q).
Qed.

Lemma post_moved {A} i j k p q (Q : A -> Prop) r :
  moved i p q -> post j q Q r -> k <= i + j -> post k p Q r.
Proof.
  intros Hm Hr Hk. destruct r as [[a q']|[e|]]; [|..|done].
  - destruct Hr as [Hm' HQ]. split; [|done]. by apply (moved_trans i j k p q q').
  - by apply (error_in_moved i p q).
Qed.

Lemma post_weaken {A} i k p (P Q : A -> Prop) r :
  post i p P r -> (forall a, P a -> Q a) -> k <= i -> post k p Q r.
Proof.
  intros Hr HPQ Hk. destruct r as [[a q']|[e|]]; [|..]; try done.
  destruct Hr. split; [by apply (moved_weaken i k)|auto].
Qed.

Lemma post_error {A} k p q (Q : A -> Prop) c :
  moved 0 p q -> c ∈ [ErrorCode.InvalidJson; ErrorCode.DuplicateKey;
    ErrorCode.MaxDepthExceeded; ErrorCode.NumberOutOfDomain] ->
  post k p Q (Err (Refused (error q c))).
Proof.
  intros Hm Hc. apply (error_in_moved 0 p q); [done|]. split; [done|].
  exists (pos q). split; [done|lia].
Qed.

Lemma post_invalid {A} k p q (Q : A -> Prop) : moved 0 p q -> post k p Q (invalid q).
Proof. intros Hm. apply post_error; [done|]. apply elem_of_here. Qed.

(** Refusing anywhere within the input. *)
Lemma post_invalid_at {A} k p q (Q : A -> Prop) :
  pos p <= pos q <= pos p + String.length (rest p) -> post k p Q (invalid q).
Proof. intros Hq. split; [apply elem_of_here|]. by exists (pos q). Qed.

(** ** The moves *)

Lemma moved_bump p a :
  peek p = Some a -> (byte_of a < 128)%N -> Utf8 (rest p) -> moved 1 p (bump p).
Proof.
  unfold peek. destruct (rest p) as [|b r] eqn:E; [done|]. intros [= ->] Ha Hu.
  exists (String a ""). unfold bump, advance; simpl. rewrite E. simpl.
  split_and!; [by destruct r|done|lia|]. apply Utf8_tail in Hu; [by destruct r|done].
Qed.

Lemma Utf8_suffix s t : str_all is_ascii s = true -> Utf8 (s +:+ t) -> Utf8 t.
Proof.
  induction s as [|a s IH]; simpl; [done|]. intros [Ha Hs]%andb_true_iff Hu.
  apply in_range_spec in Ha. apply Utf8_tail in Hu; [auto|lia].
Qed.

Lemma count_while_split f s :
  exists u v, s = u +:+ v /\ String.length u = count_while f s /\ str_all f u = true /\
    stops f v = true.
Proof.
  induction s as [|a s (u & v & -> & Hl & Hu & Hv)]; simpl.
  - by exists "", "".
  - destruct (f a) eqn:E.
    + exists (String a u), v. simpl. rewrite Hl, E. done.
    + exists "", (String a (u +:+ v)). simpl. by rewrite E.
Qed.

Lemma moved_while f p :
  (forall a, f a = true -> is_ascii a = true) -> Utf8 (rest p) ->
  moved (count_while f (rest p)) p (advance (count_while f (rest p)) p).
Proof.
  intros Hf Hu. destruct (count_while_split f (rest p)) as (u & v & E & <- & Hall & _).
  exists u. unfold advance; simpl. rewrite E in *. rewrite str_skip_app.
  split_and!; [done|done|done|]. apply (Utf8_suffix u); [|done].
  by apply (str_all_impl f).
Qed.

Lemma moved_skip_ws p : Utf8 (rest p) -> moved 0 p (skip_ws p).
Proof.
  intros Hu. apply moved_weaken with (count_while is_ws (rest p)); [|lia].
  apply moved_while; [|done]. intros a. by destruct a as [[] [] [] [] [] [] [] []].
Qed.

Lemma moved_path k p q path path' :
  moved k p q -> moved k {| rest := rest p; pos := pos p; path := path |}
                         {| rest := rest q; pos := pos q; path := path' |}.
Proof. done. Qed.

Lemma is_peek_Some f p : is_peek f p = true -> exists a, peek p = Some a /\ f a = true.
Proof. unfold is_peek, is_some_and. destruct (peek p); [eauto|done]. Qed.

(** A byte that is peeked at and known to be ASCII is bumped past. *)
Lemma moved_peek f p :
  (forall a, f a = true -> is_ascii a = true) -> is_peek f p = true -> Utf8 (rest p) ->
  moved 1 p (bump p).
Proof.
  intros Hf (a & Ha & Hfa)%is_peek_Some Hu. apply (moved_bump p a); [done| |done].
  apply Hf, in_range_spec in Hfa. lia.
Qed.

(** * Strings *)

Lemma hex_digit_ascii b d : hex_digit b = Some d -> (byte_of b < 128)%N.
Proof. by destruct b as [[] [] [] [] [] [] [] []]. Qed.

Lemma hex_digits_post n v p : Utf8 (rest p) -> post n p (fun _ => True) (hex_digits n v p).
Proof.
  revert v p; induction n as [|n IH]; intros v p Hu; cbn [hex_digits].
  { split; [by apply moved_refl|done]. }
  destruct (peek p) as [b|] eqn:E; [|by apply post_invalid, moved_refl].
  destruct (hex_digit b) as [d|] eqn:Ed; [|by apply post_invalid, moved_refl].
  assert (moved 1 p (bump p)) as Hm by (by apply (moved_bump p b), Hu; [|eapply hex_digit_ascii]).
  apply (post_moved 1 n _ _ (bump p)); [done|apply IH; by eapply moved_good|lia].
Qed.

Lemma char_or_invalid_post n p :
  Utf8 (rest p) -> post 0 p (fun c => is_scalar c = true) (char_or_invalid n p).
Proof.
  intros Hu. unfold char_or_invalid. destruct (char_from_u32 n) as [c|] eqn:E.
  - split; [by apply moved_refl|]. unfold char_from_u32 in E. unfold is_scalar, char_from_u32.
    destruct (_ || _) eqn:E' in E; [|done]. injection E as <-. by rewrite E'.
  - by apply post_invalid, moved_refl.
Qed.

Lemma unicode_escape_post p :
  Utf8 (rest p) -> post 4 p (fun c => is_scalar c = true) (unicode_escape p).
Proof.
  intros Hu. unfold unicode_escape. apply (post_bind 4 0 _ _ (fun _ => True)); [by apply hex_digits_post| |lia].
  intros first q Hq%moved_good _. pose proof (moved_refl q Hq) as Hm.
  destruct ((55296 <=? first) && (first <=? 56319))%N.
  - destruct (peek q) as [b|] eqn:E; [|by apply post_invalid].
    destruct (Ascii.eqb_spec b "\") as [->|Hb].
    2:{ destruct b as [[] [] [] [] [] [] [] []]; try (by apply post_invalid). by destruct Hb. }
    pose proof (moved_bump q _ E eq_refl Hq) as Hm1. set (q1 := bump q) in *.
    pose proof (moved_good _ _ _ Hm1) as Hq1.
    apply (post_moved 1 0 _ _ q1); [done| |lia].
    destruct (peek q1) as [c|] eqn:E1; [|by apply post_invalid, moved_refl].
    destruct (Ascii.eqb_spec c "u") as [->|Hc].
    2:{ destruct c as [[] [] [] [] [] [] [] []]; try (by apply post_invalid, moved_refl).
        by destruct Hc. }
    pose proof (moved_bump q1 _ E1 eq_refl Hq1) as Hm2.
    apply (post_moved 1 0 _ _ (bump q1)); [done| |lia]. apply moved_good in Hm2.
    apply (post_bind 4 0 _ _ (fun _ => True)); [by apply hex_digits_post| |lia].
    intros second q3 Hq3%moved_good _. case_match; [by apply char_or_invalid_post|].
    by apply post_invalid, moved_refl.
  - case_match; [by apply post_invalid|by apply char_or_invalid_post].
Qed.

Lemma escape_post p : Utf8 (rest p) -> post 1 p (fun c => is_scalar c = true) (escape p).
Proof.
  intros Hu. unfold escape. destruct (peek p) as [b|] eqn:E; [|by apply post_invalid, moved_refl].
  destruct (N.ltb_spec (byte_of b) 128) as [Hb|Hb].
  - pose proof (moved_bump p b E Hb Hu) as Hm. pose proof (moved_good _ _ _ Hm) as Hg.
    apply (post_moved 1 0 _ _ (bump p)); [done| |lia].
    destruct b as [[] [] [] [] [] [] [] []];
      try (by apply post_invalid, moved_refl);
      try (by split; [apply moved_refl|]).
    by apply (post_weaken 4 0 _ (fun c => is_scalar c = true)); [apply unicode_escape_post| |lia].
  - assert (post 1 p (fun c => is_scalar c = true) (invalid (bump p))) as Hp.
    { apply post_invalid_at. unfold peek in E. destruct (rest p); [done|]. simpl. lia. }
    destruct b as [[] [] [] [] [] [] [] []]; try done; exfalso; cbv in Hb; congruence.
Qed.

(** A run of plain bytes that ends at a quote or a backslash is whole
    characters. *)
Lemma plain_run p a :
  let q := advance (count_while is_plain (rest p)) p in
  Utf8 (rest p) -> peek q = Some a -> (byte_of a < 128)%N -> moved 0 p q /\ Utf8 (slice p q).
Proof.
  intros q Hu Ha Hb. destruct (count_while_split is_plain (rest p)) as (u & v & E & Hl & _ & _).
  assert (rest q = v) as Hq by (unfold q, advance; simpl; by rewrite <- Hl, E, str_skip_app).
  unfold peek in Ha. rewrite Hq in Ha. destruct v as [|b v]; [done|]. injection Ha as ->.
  rewrite E in Hu. apply Utf8_split in Hu as [Hu Hv]; [|done]. split.
  - exists u. rewrite Hq, E. split_and!; [done|unfold q, advance; simpl; lia|lia|done].
  - unfold slice, q, advance; simpl.
    replace (pos p + count_while is_plain (rest p) - pos p) with (String.length u) by lia.
    by rewrite E, substring_0_app.
Qed.

Lemma count_while_length f s : count_while f s <= String.length s.
Proof. induction s as [|a s IH]; simpl; [done|]. destruct (f a); lia. Qed.

Lemma string_loop_post fuel out p :
  String.length (rest p) < fuel -> Utf8 out -> Utf8 (rest p) ->
  post 1 p Utf8 (string_loop fuel out p).
Proof.
  revert out p; induction fuel as [|fuel IH]; intros out p Hf Ho Hu; [lia|]. cbn [string_loop].
  set (q := advance (count_while is_plain (rest p)) p).
  assert (post 1 p Utf8 (invalid q)) as Hinv.
  { apply post_invalid_at. unfold q, advance; simpl.
    pose proof (count_while_length is_plain (rest p)). lia. }
  destruct (peek q) as [a|] eqn:E; [|done].
  destruct (Ascii.eqb_spec a "034") as [->|H1]; [|destruct (Ascii.eqb_spec a "\") as [->|H2]].
  - destruct (plain_run p _ Hu E eq_refl) as [Hm Hs]. fold q in Hm, Hs.
    split; [|by apply Utf8_app]. apply (moved_trans 0 1 _ _ q); [done| |lia].
    apply (moved_bump q _ E eq_refl). by eapply moved_good.
  - destruct (plain_run p _ Hu E eq_refl) as [Hm Hs]. fold q in Hm, Hs.
    pose proof (moved_bump q _ E eq_refl (moved_good _ _ _ Hm)) as Hm1.
    apply (post_moved 1 1 _ _ (bump q)); [by apply (moved_trans 0 1 _ _ q); [| |lia]| |lia].
    apply (post_bind 1 0 _ _ (fun c => is_scalar c = true)); [by apply escape_post; eapply moved_good| |lia].
    intros c q' Hm2 Hc. apply moved_length in Hm as Hl, Hm1 as Hl1, Hm2 as Hl2.
    apply (post_weaken 1 0 _ Utf8); [|done|lia]. apply IH; [lia| |by eapply moved_good].
    apply Utf8_app; [by apply Utf8_app|]. rewrite <- (string_app_nil_r (utf8 c)).
    by constructor; [|constructor].
  - destruct a as [[] [] [] [] [] [] [] []]; try done; by (destruct H1 || destruct H2).
Qed.

Lemma string_post p : is_peek (one_of ["034"%char]) p = true -> Utf8 (rest p) -> post 2 p Utf8 (string_ p).
Proof.
  intros Hp Hu. assert (moved 1 p (bump p)) as Hm.
  { apply (moved_peek (one_of ["034"%char])); [|done|done].
    intros a. by destruct a as [[] [] [] [] [] [] [] []]. }
  apply (post_moved 1 1 _ _ (bump p)); [done| |lia].
  apply string_loop_post; [lia|constructor|by eapply moved_good].
Qed.

(** * Numbers *)

Lemma digit_ascii a : is_digit a = true -> is_ascii a = true.
Proof. intros H%is_digit_spec. apply in_range_spec. lia. Qed.

Lemma digits_moved p :
  Utf8 (rest p) -> moved (fst (digits p)) p (snd (digits p)).
Proof. intros Hu. unfold digits; cbn [fst snd]. apply moved_while; [apply digit_ascii|done]. Qed.

(** A parser after part of a number, or a refusal within the input. *)
Definition post_parser (k : nat) (p : Parser) (r : outcome Parser) : Prop :=
  match r with Ok q => moved k p q | Err (Refused e) => error_in p e | Err NoFuel => False end.

Lemma post_parser_invalid k p q : moved 0 p q -> post_parser k p (invalid q).
Proof. intros Hm. exact (@post_invalid unit k p q (fun _ => True) Hm). Qed.

Lemma integer_digits_post p : Utf8 (rest p) -> post_parser 1 p (integer_digits p).
Proof.
  intros Hu. unfold integer_digits. destruct (peek p) as [a|] eqn:E.
  2: by apply post_parser_invalid, moved_refl.
  destruct (Ascii.eqb_spec a "0") as [->|Ha].
  - pose proof (moved_bump p _ E eq_refl Hu) as Hm.
    destruct (is_peek is_digit (bump p)); [|done].
    apply post_parser_invalid, (moved_weaken 1); [done|lia].
  - assert (post_parser 1 p (if in_range 49 57 a then Ok (digits p).2 else invalid p)) as Hp.
    { destruct (in_range 49 57 a) eqn:Er; [|by apply post_parser_invalid, moved_refl].
      apply (moved_weaken (digits p).1); [by apply digits_moved|].
      unfold peek in E. unfold digits; cbn [fst]. destruct (rest p) as [|b r]; [done|].
      injection E as ->. simpl. apply in_range_spec in Er.
      assert (is_digit a = true) as -> by (apply is_digit_spec; lia). lia. }
    destruct a as [[] [] [] [] [] [] [] []]; try exact Hp. by destruct Ha.
Qed.

Lemma fraction_digits_post p : Utf8 (rest p) -> post 0 p (fun _ => True) (fraction_digits p).
Proof.
  intros Hu. unfold fraction_digits. destruct (is_peek _ p) eqn:E.
  - assert (moved 1 p (bump p)) as Hm.
    { apply (moved_peek (one_of ["."%char])); [|done|done].
      intros a. by destruct a as [[] [] [] [] [] [] [] []]. }
    pose proof (digits_moved (bump p) (moved_good _ _ _ Hm)) as Hd.
    destruct (digits (bump p)) as [n q]; cbn [fst snd] in Hd.
    assert (moved 0 p q) by (by apply (moved_trans 1 n 0 _ (bump p)); [..|lia]).
    destruct (Nat.eqb n 0); [by apply post_invalid|by split].
  - by split; [apply moved_refl|].
Qed.

Lemma exponent_digits_post p : Utf8 (rest p) -> post 0 p (fun _ => True) (exponent_digits p).
Proof.
  intros Hu. unfold exponent_digits. destruct (is_peek _ p) eqn:E.
  - assert (moved 1 p (bump p)) as Hm.
    { apply (moved_peek (one_of ["e"; "E"]%char)); [|done|done].
      intros a. by destruct a as [[] [] [] [] [] [] [] []]. }
    set (p1 := bump p) in *. pose proof (moved_good _ _ _ Hm) as Hg.
    set (p2 := if is_peek (one_of ["+"; "-"]%char) p1 then bump p1 else p1).
    assert (moved 0 p1 p2) as Hm2.
    { unfold p2. destruct (is_peek _ p1) eqn:E1; [|by apply moved_refl].
      apply (moved_weaken 1); [|lia]. apply (moved_peek (one_of ["+"; "-"]%char)); [|done|done].
      intros a. by destruct a as [[] [] [] [] [] [] [] []]. }
    pose proof (digits_moved p2 (moved_good _ _ _ Hm2)) as Hd.
    destruct (digits p2) as [n q]; cbn [fst snd] in Hd.
    assert (moved 0 p q).
    { apply (moved_trans 1 0 _ _ p1); [done| |lia]. by apply (moved_trans 0 n _ _ p2); [..|lia]. }
    destruct (Nat.eqb n 0); [by apply post_invalid|by split].
  - by split; [apply moved_refl|].
Qed.

Lemma safe_integer_from_bound v s w :
  (0 <= v <= WireLimits.MAX_SAFE_INTEGER)%Z -> safe_integer_from v s = Some w ->
  (0 <= w <= WireLimits.MAX_SAFE_INTEGER)%Z.
Proof.
  revert v; induction s as [|a s IH]; intros v Hv; cbn [safe_integer_from]; [intros [= <-]; done|].
  destruct (N.ltb_spec (byte_of a) 48); [done|].
  destruct (Z.ltb_spec WireLimits.MAX_SAFE_INTEGER (v * 10 + Z.of_N (byte_of a - 48))); [done|].
  apply IH. lia.
Qed.

Lemma safe_integer_bound s negative i :
  safe_integer s negative = Some i -> (Z.abs i <= WireLimits.MAX_SAFE_INTEGER)%Z.
Proof.
  unfold safe_integer. destruct (safe_integer_from 0 s) as [w|] eqn:E; [|done].
  apply safe_integer_from_bound in E; [|unfold WireLimits.MAX_SAFE_INTEGER; lia].
  destruct negative; intros [= <-]; lia.
Qed.

(** Whatever [str::parse::<f64>] gives is a double. *)
Lemma from_str_valid s x : from_str s = Some x -> valid x = true.
Proof.
  unfold from_str. destruct (match s with String "-" r => _ | _ => _ end) as [negative r].
  destruct (span_digits r) as [int r1].
  destruct (match r1 with String "." r => _ | _ => _ end) as [frac r2].
  destruct (is_empty _); [done|]. destruct (exponent_of r2); [|done].
  cbn [mbind option_bind]. intros [= <-]. unfold of_decimal. rewrite decimal_ratio_spec.
  apply of_ratio_valid; [|apply Z.pow_pos_nonneg; lia].
  apply Z.mul_nonneg_nonneg; [lia|apply Z.pow_nonneg; lia].
Qed.

Lemma from_f64_ok x n : valid x = true -> Number.from_f64 x = Some n -> number_ok n = true.
Proof.
  intros Hv. unfold Number.from_f64. destruct (negb _) eqn:Ef; [done|].
  destruct (_ && _) eqn:E; intros [= <-].
  - by apply andb_true_iff in E as [_ ?].
  - cbn [number_ok]. unfold valid in Hv. rewrite Hv. unfold Number.from_f64. by rewrite Ef, E.
Qed.

Lemma number_post options p : Utf8 (rest p) -> post 1 p (number_in options) (number options p).
Proof.
  intros Hu. unfold number. set (neg := is_peek (one_of ["-"%char]) p).
  set (p0 := if neg then bump p else p).
  assert (moved 0 p p0) as Hm0.
  { unfold p0, neg. destruct (is_peek _ p) eqn:E; [|by apply moved_refl].
    apply (moved_weaken 1); [|lia]. apply (moved_peek (one_of ["-"%char])); [|done|done].
    intros a. by destruct a as [[] [] [] [] [] [] [] []]. }
  pose proof (integer_digits_post p0 (moved_good _ _ _ Hm0)) as Hint.
  destruct (integer_digits p0) as [p1|[e|]]; [|by apply (error_in_moved 0 p p0)|done].
  assert (moved 1 p p1) as Hm1 by (apply (moved_trans 0 1 _ _ p0); [done..|lia]).
  pose proof (fraction_digits_post p1 (moved_good _ _ _ Hm1)) as Hfrac.
  destruct (fraction_digits p1) as [[nf p2]|[e|]]; [|by apply (error_in_moved 1 p p1)|done].
  assert (moved 1 p p2) as Hm2 by (apply (moved_trans 1 0 _ _ p1); [done|apply Hfrac|lia]).
  pose proof (exponent_digits_post p2 (moved_good _ _ _ Hm2)) as Hexp.
  destruct (exponent_digits p2) as [[ne p3]|[e|]]; [|by apply (error_in_moved 1 p p2)|done].
  assert (moved 1 p p3) as Hm3 by (apply (moved_trans 1 0 _ _ p2); [done|apply Hexp|lia]).
  set (out := Err (Refused (ProtocolError.at_offset (pos p) (error p3 ErrorCode.NumberOutOfDomain)))).
  assert (post 1 p (number_in options) out) as Hout.
  { split; [by repeat (apply elem_of_here || apply elem_of_later)|].
    exists (pos p). split; [done|lia]. }
  assert (post 1 p (number_in options)
    match ParseOptions.numbers options with
    | NumberDomain.SafeInteger => out
    | NumberDomain.IJson =>
        match x ← from_str (slice p p3); Number.from_f64 x with
        | Some n => Ok (n, p3) | None => out
        end
    end) as Hin.
  { destruct (ParseOptions.numbers options) eqn:Eo; [done|].
    destruct (from_str (slice p p3)) as [x|] eqn:Ex; [|done]. cbn [mbind option_bind].
    destruct (Number.from_f64 x) as [n|] eqn:En; [|done]. split; [done|]. split; [|congruence].
    eapply from_f64_ok; [|done]. by eapply from_str_valid. }
  cbv beta iota. destruct (nf && ne); [|done].
  destruct (safe_integer _ neg) as [i|] eqn:Ei; [|done]. split; [done|].
  apply safe_integer_bound in Ei. split; [by apply Z.leb_le|done].
Qed.

(** * Values *)

(** What comes out of [value] at a depth. *)
Definition parsed (options : ParseOptions.t) (depth : nat) (v : Value.t) : Prop :=
  value_ok (number_in options) v /\ depth + height v <= WireLimits.MAX_DEPTH.

Lemma enter_post depth p :
  match enter depth p with
  | Ok d => d = S depth /\ d <= WireLimits.MAX_DEPTH
  | Err (Refused e) => error_in p e
  | Err NoFuel => False
  end.
Proof.
  unfold enter. destruct (Nat.ltb_spec WireLimits.MAX_DEPTH (S depth)); [|done].
  split; [by repeat (apply elem_of_here || apply elem_of_later)|]. exists (pos p). split; [done|lia].
Qed.

Lemma parsed_array options depth items :
  S depth <= WireLimits.MAX_DEPTH -> Forall (parsed options (S depth)) items ->
  parsed options depth (Value.Array items).
Proof.
  intros Hd Hi. split; [constructor; by apply (Forall_impl _ _ _ Hi); intros x [? _]|].
  cbn [height]. induction Hi as [|x items [_ Hx] _ IH]; simpl; lia.
Qed.

Lemma parsed_object options depth members :
  S depth <= WireLimits.MAX_DEPTH -> NoDup (Object.keys members) -> Forall Utf8 (Object.keys members) ->
  Forall (parsed options (S depth)) members.*2 -> parsed options depth (Value.Object members).
Proof.
  intros Hd Hnd Hu Hi.
  split; [constructor; [done|done|by apply (Forall_impl _ _ _ Hi); intros x [? _]]|].
  clear Hnd Hu. cbn [height]. induction members as [|m members IH]; simpl; [lia|].
  apply Forall_cons in Hi as [[_ Hm] Hi]. specialize (IH Hi). lia.
Qed.

Section containers.
  Context (options : ParseOptions.t) (value : nat -> Parser -> outcome (Value.t * Parser)).

(** What the loops use of [value]. *)
Definition value_spec (depth : nat) : Prop :=
  forall p, Utf8 (rest p) -> post 1 p (parsed options depth) (value depth p).

Lemma array_loop_post fuel depth items p :
  value_spec (S depth) -> S depth <= WireLimits.MAX_DEPTH ->
  String.length (rest p) < fuel -> Utf8 (rest p) -> Forall (parsed options (S depth)) items ->
  post 1 p (parsed options depth) (array_loop value fuel (S depth) items p).
Proof.
  intros Hv Hd. revert items p; induction fuel as [|fuel IH]; intros items p Hf Hu Hi; [lia|].
  cbn [array_loop]. pose proof (moved_skip_ws p Hu) as Hm1. set (p1 := skip_ws p) in *.
  set (p2 := push (Segment.Index (length items)) p1).
  apply (post_moved 0 1 _ _ p2); [exact Hm1| |lia].
  apply (post_bind 1 0 _ _ (parsed options (S depth))); [apply Hv; exact (moved_good _ _ _ Hm1)| |lia].
  intros item p3 Hm3 Hitem. assert (Utf8 (rest p3)) as Hg3 by exact (moved_good _ _ _ Hm3).
  pose proof (moved_skip_ws (pop p3) Hg3) as Hm4. set (p4 := skip_ws (pop p3)) in *.
  apply (post_moved 0 0 _ _ p4); [exact Hm4| |lia]. pose proof (moved_good _ _ _ Hm4) as Hg4.
  assert (Forall (parsed options (S depth)) (items ++ [item])) as Hi'
    by (apply Forall_app; split; [done|by constructor]).
  destruct (peek p4) as [c|] eqn:E; [|by apply post_invalid, moved_refl].
  destruct (Ascii.eqb_spec c ",") as [->|Hc1]; [|destruct (Ascii.eqb_spec c "]") as [->|Hc2]].
  - pose proof (moved_bump p4 _ E eq_refl Hg4) as Hm5.
    apply (post_moved 1 1 _ _ (bump p4)); [done| |lia].
    apply moved_length in Hm1 as Hl1, Hm3 as Hl3, Hm4 as Hl4, Hm5 as Hl5.
    apply IH; [|exact (moved_good _ _ _ Hm5)|done].
    change (rest p2) with (rest p1) in Hl3. change (rest (pop p3)) with (rest p3) in Hl4. lia.
  - split; [apply (moved_weaken 1); [exact (moved_bump p4 _ E eq_refl Hg4)|lia]|].
    by apply parsed_array.
  - destruct c as [[] [] [] [] [] [] [] []];
      try (by apply post_invalid, moved_refl); by (destruct Hc1 || destruct Hc2).
Qed.

Lemma container_start p a :
  peek p = Some a -> (byte_of a < 128)%N -> Utf8 (rest p) -> moved 1 p (skip_ws (bump p)).
Proof.
  intros Ha Hb Hu. pose proof (moved_bump p a Ha Hb Hu) as Hm.
  apply (moved_trans 1 0 _ _ (bump p)); [done|apply moved_skip_ws; exact (moved_good _ _ _ Hm)|lia].
Qed.

Lemma array_post depth p :
  (S depth <= WireLimits.MAX_DEPTH -> value_spec (S depth)) ->
  peek p = Some "["%char -> Utf8 (rest p) ->
  post 1 p (parsed options depth) (array value depth p).
Proof.
  intros Hv Hp Hu. unfold array. pose proof (enter_post depth p) as He.
  destruct (enter depth p) as [d|[e|]]; [destruct He as [-> Hd]|done|done].
  pose proof (container_start p _ Hp eq_refl Hu) as Hm. set (p1 := skip_ws (bump p)) in *.
  pose proof (moved_good _ _ _ Hm) as Hg. apply (post_moved 1 0 _ _ p1); [done| |lia].
  destruct (is_peek (one_of ["]"%char]) p1) eqn:E.
  - split; [|by apply parsed_array]. apply (moved_weaken 1); [|lia].
    apply (moved_peek (one_of ["]"%char])); [|done|done].
    intros b. by destruct b as [[] [] [] [] [] [] [] []].
  - apply (post_weaken 1 0 _ (parsed options depth)); [|done|lia].
    apply array_loop_post; [auto|done|lia|done|constructor].
Qed.

Lemma expect_post byte p :
  (byte_of byte < 128)%N -> Utf8 (rest p) -> post_parser 1 p (expect byte p).
Proof.
  intros Hb Hu. unfold expect. destruct (peek p) as [a|] eqn:E;
    [|by apply post_parser_invalid, moved_refl].
  destruct (Ascii.eqb_spec a byte) as [->|_]; [by apply (moved_bump p byte)|].
  by apply post_parser_invalid, moved_refl.
Qed.

(** What the object loop holds of the members so far. *)
Definition members_ok (depth : nat) (members : Object.t) (seen : gmap string nat) : Prop :=
  NoDup (Object.keys members) /\ Forall Utf8 (Object.keys members) /\
  Forall (parsed options depth) members.*2 /\
  forall k, is_Some (seen !! k) <-> k ∈ Object.keys members.

Lemma members_ok_snoc depth members seen k x i :
  members_ok depth members seen -> ~ is_Some (seen !! k) -> Utf8 k -> parsed options depth x ->
  members_ok depth (members ++ [(k, x)]) (<[k := i]> seen).
Proof.
  unfold members_ok, Object.keys. intros (Hnd & Hu & Hx & Hs) Hk Huk Hpx. rewrite !fmap_app.
  split_and!.
  - apply NoDup_app. split; [done|]. split; [|apply NoDup_singleton].
    intros k' Hin ->%list_elem_of_singleton. by apply Hk, Hs.
  - apply Forall_app. split; [done|by constructor].
  - apply Forall_app. split; [done|by constructor].
  - intros k'. rewrite elem_of_app. destruct (decide (k = k')) as [<-|Hne].
    + rewrite lookup_insert_eq. split; [right; by left|done].
    + rewrite lookup_insert_ne, Hs by done. split; [by left|].
      intros [| ->%list_elem_of_singleton]; done.
Qed.

Lemma object_loop_post fuel depth members seen p :
  value_spec (S depth) -> S depth <= WireLimits.MAX_DEPTH ->
  String.length (rest p) < fuel -> Utf8 (rest p) -> members_ok (S depth) members seen ->
  post 1 p (parsed options depth) (object_loop value fuel (S depth) members seen p).
Proof.
  intros Hv Hd. revert members seen p; induction fuel as [|fuel IH];
    intros members seen p Hf Hu Hmem; [lia|].
  cbn [object_loop]. pose proof (moved_skip_ws p Hu) as Hm1. set (p1 := skip_ws p) in *.
  pose proof (moved_good _ _ _ Hm1) as Hg1.
  destruct (is_peek (one_of ["034"%char]) p1) eqn:Eq; [cbn [negb]|by apply post_invalid].
  pose proof (string_post p1 Eq Hg1) as Hkey.
  destruct (string_ p1) as [[key p2]|[e|]]; [|by apply (error_in_moved 0 p p1)|done].
  destruct Hkey as [Hm2 Hkey].
  destruct (bool_decide (is_Some (seen !! key))) eqn:Es.
  { split; [by repeat (apply elem_of_here || apply elem_of_later)|].
    exists (pos p1). split; [done|]. destruct Hm1 as (s & -> & -> & _). rewrite str_length_app. lia. }
  apply bool_decide_eq_false in Es.
  assert (moved 0 p p2) as Hm02 by (apply (moved_trans 0 2 _ _ p1); [done..|lia]).
  pose proof (moved_skip_ws p2 (moved_good _ _ _ Hm2)) as Hm3. set (p3 := skip_ws p2) in *.
  pose proof (expect_post ":" p3 eq_refl (moved_good _ _ _ Hm3)) as Hcolon.
  assert (moved 0 p p3) as Hm03 by (apply (moved_trans 0 0 _ _ p2); [done..|lia]).
  destruct (expect ":" p3) as [p4|[e|]]; [|by apply (error_in_moved 0 p p3)|done].
  pose proof (moved_skip_ws p4 (moved_good _ _ _ Hcolon)) as Hm5. set (p5 := skip_ws p4) in *.
  set (p6 := push (Segment.Key key) p5).
  assert (moved 1 p p5) as Hm05.
  { apply (moved_trans 0 1 _ _ p3); [done| |lia]. by apply (moved_trans 1 0 _ _ p4); [..|lia]. }
  apply (post_moved 1 0 _ _ p6); [exact Hm05| |lia].
  apply (post_bind 1 0 _ _ (parsed options (S depth))); [apply Hv; exact (moved_good _ _ _ Hm5)| |lia].
  intros item p7 Hm7 Hitem. assert (Utf8 (rest p7)) as Hg7 by exact (moved_good _ _ _ Hm7).
  pose proof (moved_skip_ws (pop p7) Hg7) as Hm8. set (p8 := skip_ws (pop p7)) in *.
  apply (post_moved 0 0 _ _ p8); [exact Hm8| |lia]. pose proof (moved_good _ _ _ Hm8) as Hg8.
  pose proof (members_ok_snoc _ _ _ key item (length members) Hmem Es Hkey Hitem) as Hmem'.
  destruct (peek p8) as [c|] eqn:E; [|by apply post_invalid, moved_refl].
  destruct (Ascii.eqb_spec c ",") as [->|Hc1]; [|destruct (Ascii.eqb_spec c "}") as [->|Hc2]].
  - pose proof (moved_bump p8 _ E eq_refl Hg8) as Hm9.
    apply (post_moved 1 1 _ _ (bump p8)); [done| |lia].
    apply moved_length in Hm05 as Hl5, Hm7 as Hl7, Hm8 as Hl8, Hm9 as Hl9.
    apply IH; [|exact (moved_good _ _ _ Hm9)|done].
    change (rest p6) with (rest p5) in Hl7. change (rest (pop p7)) with (rest p7) in Hl8. lia.
  - split; [apply (moved_weaken 1); [exact (moved_bump p8 _ E eq_refl Hg8)|lia]|].
    destruct Hmem' as (? & ? & ? & _). by apply parsed_object.
  - destruct c as [[] [] [] [] [] [] [] []];
      try (by apply post_invalid, moved_refl); by (destruct Hc1 || destruct Hc2).
Qed.

Lemma object_post depth p :
  (S depth <= WireLimits.MAX_DEPTH -> value_spec (S depth)) ->
  peek p = Some "{"%char -> Utf8 (rest p) ->
  post 1 p (parsed options depth) (object value depth p).
Proof.
  intros Hv Hp Hu. unfold object. pose proof (enter_post depth p) as He.
  destruct (enter depth p) as [d|[e|]]; [destruct He as [-> Hd]|done|done].
  pose proof (container_start p _ Hp eq_refl Hu) as Hm. set (p1 := skip_ws (bump p)) in *.
  pose proof (moved_good _ _ _ Hm) as Hg. apply (post_moved 1 0 _ _ p1); [done| |lia].
  destruct (is_peek (one_of ["}"%char]) p1) eqn:E.
  - split; [|apply parsed_object; [done|constructor..]]. apply (moved_weaken 1); [|lia].
    apply (moved_peek (one_of ["}"%char])); [|done|done].
    intros b. by destruct b as [[] [] [] [] [] [] [] []].
  - apply (post_weaken 1 0 _ (parsed options depth)); [|done|lia].
    apply object_loop_post; [auto|done|lia|done|].
    split_and!; [constructor..|]. intros k. rewrite lookup_empty.
    split; [by intros []|by intros ?%not_elem_of_nil].
Qed.
End containers.

Lemma literal_post word options depth v p :
  str_all is_ascii word = true -> word <> "" -> parsed options depth v -> Utf8 (rest p) ->
  post 1 p (parsed options depth) (literal word v p).
Proof.
  intros Hw Hne Hv Hu. unfold literal. destruct (str_starts_with word (rest p)) eqn:E.
  - apply str_starts_with_spec in E as [r E]. split; [|done]. exists word.
    unfold advance; simpl. rewrite E in *. rewrite str_skip_app.
    split_and!; [done|done|destruct word; [done|simpl; lia]|by apply (Utf8_suffix word)].
  - by apply post_invalid, moved_refl.
Qed.

Lemma parsed_leaf options depth v :
  depth <= WireLimits.MAX_DEPTH -> height v = 0 -> value_ok (number_in options) v ->
  parsed options depth v.
Proof. intros Hd Hh Hv. split; [done|lia]. Qed.

(** With fuel for the nesting still allowed, [value] parses or refuses. *)
Lemma value_post fuel options depth p :
  depth <= WireLimits.MAX_DEPTH -> WireLimits.MAX_DEPTH < fuel + depth -> Utf8 (rest p) ->
  post 1 p (parsed options depth) (value fuel options depth p).
Proof.
  revert depth p; induction fuel as [|fuel IH]; intros depth p Hd Hf Hu; [lia|]. cbn [value].
  assert (S depth <= WireLimits.MAX_DEPTH -> value_spec options (value fuel options) (S depth)) as Hrec.
  { intros Hd' q Hq. apply IH; [done|lia|done]. }
  destruct (peek p) as [a|] eqn:E; [|by apply post_invalid, moved_refl].
  assert (post 1 p (parsed options depth)
    (if one_of ["-"%char] a || is_digit a then
       let? (n, p) := number options p in Ok (Value.Number n, p)
     else invalid p)) as Hnum.
  { destruct (_ || _); [|by apply post_invalid, moved_refl].
    apply (post_bind 1 0 _ _ (number_in options)); [by apply number_post| |lia].
    intros n q Hq Hn. split; [apply moved_refl; exact (moved_good _ _ _ Hq)|].
    apply parsed_leaf; [done|done|by constructor]. }
  assert (forall v, height v = 0 -> value_ok (number_in options) v -> parsed options depth v) as Hleaf
    by (intros; by apply parsed_leaf).
  destruct a as [[] [] [] [] [] [] [] []]; try exact Hnum;
    try (by apply array_post); try (by apply object_post);
    try (apply literal_post; [done|done|apply Hleaf; [done|constructor]|done]).
  apply (post_bind 2 0 _ _ Utf8); [| |lia].
  - apply string_post; [|done]. unfold is_peek. by rewrite E.
  - intros s q Hq Hs. split; [apply moved_refl; exact (moved_good _ _ _ Hq)|].
    apply Hleaf; [done|by constructor].
Qed.

(** [parse] ends: with a well-formed value, or with an error within the
    input. *)
Lemma parse_post input options :
  match parse input options with
  | Ok v => parsed options 0 v
  | Err (Refused e) =>
      (ProtocolError.code e = ErrorCode.InvalidUtf8 /\ ~ Utf8 input) \/
      (Utf8 input /\ error_in {| rest := input; pos := 0; path := [] |} e)
  | Err NoFuel => False
  end.
Proof.
  unfold parse. pose proof (valid_utf8_spec input) as Hvalid. unfold valid_utf8 in Hvalid.
  destruct (from_utf8 input) as [cs|pos].
  2:{ left. split; [done|]. intros Hu. apply Hvalid in Hu. done. }
  assert (Utf8 input) as Hu by (by apply Hvalid). clear Hvalid.
  set (p0 := {| rest := input; pos := 0; path := [] |}).
  pose proof (moved_skip_ws p0 Hu) as Hm. set (p1 := skip_ws p0) in *.
  assert (forall q, moved 0 p0 q -> error_in p0 (error q ErrorCode.InvalidJson)) as Hinv.
  { intros q Hq. exact (@post_invalid unit 0 p0 q (fun _ => True) Hq). }
  destruct (is_empty (rest p1)); [right; by split; [|apply Hinv]|].
  pose proof (value_post (S WireLimits.MAX_DEPTH) options 0 p1 ltac:(lia) ltac:(lia)
    (moved_good _ _ _ Hm)) as Hv.
  destruct (value _ options 0 p1) as [[v p2]|[e|]]; [|right; by split; [|apply (error_in_moved 0 p0 p1)]|done].
  destruct Hv as [Hm2 Hv]. pose proof (moved_skip_ws p2 (moved_good _ _ _ Hm2)) as Hm3.
  destruct (is_empty (rest (skip_ws p2))); [done|]. right. split; [done|]. apply Hinv.
  apply (moved_trans 0 1 _ _ p1); [done| |lia]. by apply (moved_trans 1 0 _ _ p2); [..|lia].
Qed.
