(* ===== verification/JsonTheorems.v ===== *)
(** The properties of the JSON layer. *)

From Stdlib Require Import ZArith.
From stdpp Require Import gmap.
From S2P Require Export JsonSound.

(** A value a profile can carry: well formed, within the depth limit. *)
Definition carried (options : ParseOptions.t) (v : Value.t) : Prop := parsed options 0 v.

Lemma carried_wf options v : carried options v -> value_wf v.
Proof. intros [Hv _]. revert Hv. apply value_ok_impl. by intros n [? _]. Qed.

Lemma parse_carried input options v : parse input options = Ok v -> carried options v.
Proof. intros E. pose proof (parse_post input options) as Hp. by rewrite E in Hp. Qed.

Lemma parse_canonical options v :
  carried options v -> parse (to_canonical_bytes v) options = Ok (canonical v).
Proof.
  intros Hv. pose proof (carried_wf _ _ Hv) as Hwf. destruct Hv as [Hok Hh].
  unfold parse, to_canonical_bytes.
  pose proof (proj2 (valid_utf8_spec _) (write_value_Utf8 v Hwf)) as Hu.
  unfold valid_utf8 in Hu. destruct (from_utf8 (write_value v)); [|done]. clear Hu.
  fold (at_ (write_value v) 0 []).
  pose proof (written_reads options v Hok (S WireLimits.MAX_DEPTH) 0 "" 0 [] ltac:(lia) Hh eq_refl) as Hr.
  pose proof (write_value_stops options v "" Hok) as Hs.
  rewrite string_app_nil_r in Hr, Hs. rewrite skip_ws_at by (by apply stops_ws).
  cbn [rest at_]. destruct (write_value v) as [|b s]; [done|]. cbn [is_empty]. by rewrite Hr.
Qed.

Lemma canonical_carried options v : carried options v -> carried options (canonical v).
Proof. intros Hv. exact (parse_carried _ _ _ (parse_canonical _ _ Hv)). Qed.

(** A sample: an object with its keys out of order, a float, an escape. *)
Definition sample : Value.t :=
  Value.Object [("b", Value.Array [Value.Number (Number.Int (-7)); Value.Null]);
                ("a", Value.String (String "010" "x"));
                ("c", Value.Number (Number.Float (S754_finite false 5404319552844595 (-55))))].

Lemma sample_carried : carried ParseOptions.ijson sample.
Proof.
  apply (parse_carried
    ("{" +:+ write_string "b" +:+ ":[-7,null]," +:+ write_string "a" +:+ ":"
      +:+ write_string (String "010" "x") +:+ "," +:+ write_string "c" +:+ ":0.15}")).
  vm_compute. reflexivity.
Defined.

(** C38: A value's canonical text parses, under the value's profile, to an equal
    value with the same canonical text: [to_canonical_bytes] loses nothing,
    and canonicalising what was parsed changes nothing. *)
Theorem canonical_roundtrip options v :
  carried options v ->
  exists w, parse (to_canonical_bytes v) options = Ok w /\
    ValueEq.eq v w = true /\ to_canonical_bytes w = to_canonical_bytes v.
Proof.
  intros Hv. exists (canonical v). pose proof (carried_wf _ _ Hv) as Hwf.
  split_and!; [by apply parse_canonical| |by apply write_canonical].
  apply eq_canonical; [done|by apply canonical_ok|by rewrite canonical_idempotent].
Qed.

Lemma canonical_roundtrip_witness :
  carried ParseOptions.ijson sample /\
  exists w, parse (to_canonical_bytes sample) ParseOptions.ijson = Ok w /\
    ValueEq.eq sample w = true /\ to_canonical_bytes w = to_canonical_bytes sample.
Proof.
  split; [exact sample_carried|]. apply (canonical_roundtrip ParseOptions.ijson sample).
  exact sample_carried.
Defined.

(** Canonical text decides equality: two values are equal, as objects are,
    up to the order of members, exactly when their canonical bytes are the
    same.  What is hashed or signed is the value. *)
Lemma canonical_decides_equality options options' v w :
  carried options v -> carried options' w ->
  ValueEq.eq v w = true <-> to_canonical_bytes v = to_canonical_bytes w.
Proof.
  intros Hv Hw. rewrite eq_canonical by (by eapply carried_wf). split.
  - intros E. unfold to_canonical_bytes. by rewrite <- (write_canonical v), E, write_canonical.
  - intros E. pose proof (carried_wf _ _ Hv) as Hwv. pose proof (carried_wf _ _ Hw) as Hww.
    assert (carried ParseOptions.ijson v) as Hv'.
    { destruct Hv as [Hok Hh]. split; [|done]. revert Hwv. by apply value_ok_impl. }
    assert (carried ParseOptions.ijson w) as Hw'.
    { destruct Hw as [Hok Hh]. split; [|done]. revert Hww. by apply value_ok_impl. }
    pose proof (parse_canonical _ _ Hv') as Pv. pose proof (parse_canonical _ _ Hw') as Pw.
    rewrite E, Pw in Pv. by injection Pv as ->.
Qed.

(** [sample] with its members in another order. *)
Definition sample_reordered : Value.t :=
  match sample with Value.Object members => Value.Object (rev members) | v => v end.



(** The ECMAScript text of a finite double exists and reads back as that
    double. *)
Lemma number_text_roundtrip s m e :
  valid_binary 53 1024 (S754_finite s m e) = true ->
  exists text, format_es (S754_finite s m e) = Some text /\
    from_str text = Some (S754_finite s m e).
Proof.
  intros Hv. destruct (format_es_reads s m e Hv) as (u & Hu & Hok & Hread).
  eexists. split; [exact Hu|]. by rewrite from_str_numeral, Hread.
Qed.


(** The samples of RFC 8785, Appendix B, as the tests of [number.rs] list
    them. *)
Definition of_bits (b : Z) : f64 :=
  let s := Z.testbit b 63 in
  let e := Z.land (Z.shiftr b 52) 2047 in
  let m := Z.land b (2 ^ 52 - 1) in
  if (e =? 0)%Z then match m with Zpos p => S754_finite s p (-1074) | _ => S754_zero s end
  else match (m + 2 ^ 52)%Z with Zpos p => S754_finite s p (e - 1075) | _ => S754_nan end.

Example rfc_8785_appendix_b_samples :
  forallb (fun '(bits, expected) => bool_decide (format_es (of_bits bits) = Some expected))
    [ (0x0000000000000001, "5e-324");
      (0x7fefffffffffffff, "1.7976931348623157e+308");
      (0xc340000000000000, "-9007199254740992");
      (0x4430000000000000, "295147905179352830000");
      (0x44b52d02c7e14af7, "1.0000000000000001e+23");
      (0x444b1ae4d6e2ef50, "1e+21");
      (0x3eb0c6f7a0b5ed8c, "9.999999999999997e-7");
      (0x3eb0c6f7a0b5ed8d, "0.000001");
      (0x41b3de4355555555, "333333333.3333333");
      (0xbecbf647612f3696, "-0.0000033333333333333333");
      (0x43143ff3c1cb0959, "1424953923781206.2") ]%Z%string = true.
Proof. vm_compute. reflexivity. Qed.

(** A key the loop has seen stops it where the key begins. *)
Lemma object_loop_duplicate options f fuel depth members seen k t n path :
  is_Some (seen !! k) ->
  exists e, object_loop (value f options) (S fuel) depth members seen
      (at_ (write_string k +:+ t) n path) = Err (Refused e) /\
    ProtocolError.code e = ErrorCode.DuplicateKey /\ ProtocolError.offset e = Some n.
Proof.
  intros Hk. cbn [object_loop]. rewrite skip_ws_at, is_peek_at by done.
  change (stops (one_of ["034"%char]) (write_string k +:+ t)) with false.
  cbn [negb]. cbv iota. rewrite string_written, bool_decide_eq_true_2 by done.
  eexists. by split_and!.
Qed.

Lemma members_text_Utf8 members :
  Forall Utf8 (Object.keys members) -> Forall value_wf members.*2 ->
  Utf8 (String.concat "" (map (fun m => member_text m +:+ ",") members)).
Proof.
  induction members as [|m members IH]; intros Hk Hv; [constructor|].
  apply Forall_cons in Hk as [Hkm Hk]. apply Forall_cons in Hv as [Hvm Hv].
  assert (Utf8 (member_text m +:+ ",")) as Hm.
  { apply Utf8_app; [|by apply Utf8_all_ascii]. unfold member_text.
    apply Utf8_app; [by apply write_string_Utf8|].
    apply Utf8_ascii; [done|]. by apply write_value_Utf8. }
  specialize (IH Hk Hv). cbn [map String.concat] in *.
  destruct (map _ members); [done|]. by apply Utf8_app.
Qed.

Lemma members_text_length members :
  length members <= String.length (String.concat "" (map (fun m => member_text m +:+ ",") members)).
Proof.
  induction members as [|m members IH]; [done|]. cbn [map String.concat] in *.
  destruct (map _ members) eqn:E.
  - destruct members; [|done]. rewrite str_length_app. cbn [length String.length]. lia.
  - rewrite !str_length_app. cbn [length String.length append] in *. lia.
Qed.

Lemma members_text_head m members t :
  exists s, String.concat "" (map (fun m => member_text m +:+ ",") (m :: members)) +:+ t
    = String "034" s.
Proof. cbn [map String.concat]. destruct (map _ members); eexists; reflexivity. Qed.

Lemma value_object fuel options depth s n path :
  value (S fuel) options depth (at_ (String "{" s) n path)
  = object (value fuel options) depth (at_ (String "{" s) n path).
Proof. done. Qed.

(** A repeated key is refused when it is read, before what follows it is
    looked at: whatever members stand before it, whatever bytes after it, the
    error is [DuplicateKey] at the offset where the key begins. *)
Lemma duplicate_key_refused options members k junk :
  NoDup (Object.keys members) -> Forall Utf8 (Object.keys members) ->
  Forall (parsed options 1) members.*2 -> k ∈ Object.keys members -> Utf8 junk ->
  let before :=
    String "{" (String.concat "" (map (fun m => member_text m +:+ ",") members)) in
  exists e, parse (before +:+ write_string k +:+ junk) options = Err (Refused e) /\
    ProtocolError.code e = ErrorCode.DuplicateKey /\
    ProtocolError.offset e = Some (String.length before).
Proof.
  intros Hnd Hu Hm Hk Hj before. set (body := String.concat "" _) in before.
  assert (Utf8 (before +:+ write_string k +:+ junk)) as Hin%valid_utf8_spec.
  { apply Utf8_app; [apply Utf8_ascii; [done|apply members_text_Utf8; [done|]]|].
    - apply (Forall_impl _ _ _ Hm). intros v [Hv _]. revert Hv. apply value_ok_impl. by intros x [? _].
    - apply Utf8_app; [apply write_string_Utf8; rewrite Forall_forall in Hu; by apply Hu|done]. }
  unfold parse. unfold valid_utf8 in Hin. destruct (from_utf8 _); [clear Hin|done].
  cbn [before append]. fold (at_ (String "{" (body +:+ write_string k +:+ junk)) 0 []).
  rewrite skip_ws_at, value_object by done. cbn [is_empty rest at_].
  fold (at_ (String "{" (body +:+ write_string k +:+ junk)) 0 []).
  unfold object. rewrite enter_ok, bump_at by (unfold WireLimits.MAX_DEPTH; lia). simpl (0 + 1).
  assert (exists s, body +:+ write_string k +:+ junk = String "034" s) as [s Hs].
  { destruct members as [|m members]; [by apply not_elem_of_nil in Hk|]. apply members_text_head. }
  rewrite skip_ws_at, is_peek_at by (by rewrite Hs).
  replace (stops _ (body +:+ write_string k +:+ junk)) with true by (by rewrite Hs).
  cbn [negb rest at_]. cbv iota. fold (at_ (body +:+ write_string k +:+ junk) 1 []).
  pose proof (members_text_length members) as Hlen. fold body in Hlen.
  rewrite str_length_app.
  replace (S (String.length body + String.length (write_string k +:+ junk)))
    with (length members + S (String.length body + String.length (write_string k +:+ junk)
      - length members)) by lia.
  rewrite object_loop_members.
  - edestruct (object_loop_duplicate options) as (e & -> & Hc & Ho); [|by eauto].
    apply see_keys. by right.
  - split; [done|split; [apply Forall_forall; intros; apply lookup_empty|]].
    apply (Forall_impl _ _ _ Hm). intros v [Hv Hh]. split; [done|].
    split; [by apply written_reads|]. unfold WireLimits.MAX_DEPTH in *. lia.
Qed.


(** The safe-integer profile reads two spellings of zero. *)
Example zero_has_two_spellings :
  parse "-0" ParseOptions.dwkp = Ok (Value.Number (Number.Int 0)) /\
  parse "0" ParseOptions.dwkp = Ok (Value.Number (Number.Int 0)).
Proof. by vm_compute. Qed.
