(* ===== verification/Digest.v ===== *)
(** Domain-separated SHA-256 ([dwkd-authority/src/state/digest.rs]).  The
    compression function is the [sha2] crate's: a parameter that takes bytes to
    thirty-two bytes. *)

From S2P Require Export Prelude Text.

(** What the crate promises: [Sha256::digest] is a function of the bytes, to
    thirty-two of them.  A hasher fed in parts digests their concatenation. *)
Class Sha256 := {
  sha256 : string -> string;
  sha256_length : forall s, String.length (sha256 s) = 32
}.

(** Two inputs with one digest. *)
Definition collision `{Sha256} : Prop := exists x y, x <> y /\ sha256 x = sha256 y.

(** ** Domains *)

Definition POLICY_REVISION : string := "direwolf.policy.revision.v1".
Definition ADMIT_REQUEST : string := "direwolf.dwkp.admit_run.request.v2".
Definition AUDIT_RECORD : string := "direwolf.audit.record.v1".
Definition RUN_GRANT : string := "direwolf.run.grant.v1".
Definition AGENT_PROFILE : string := "direwolf.config.agent_profile.v1".
Definition SKILL : string := "direwolf.config.skill.v1".
Definition CEILING : string := "direwolf.config.ceiling.v1".
Definition STORE_ID : string := "direwolf.store.id.v1".
Definition SECRET_METADATA : string := "direwolf.secret.metadata.v1".
Definition TOOL_CONTENT : string := "direwolf.tool.fs_read.content.v1".
Definition TOOL_REQUEST : string := "direwolf.dwkp.tool_invoke.request.v2".
Definition PROCESS_ARGV : string := "direwolf.process.argv.v1".
Definition NET_REQUEST : string := "direwolf.dwkp.net_http.request.v1".
Definition WORKLOAD_REQUEST : string := "direwolf.workload.request.v1".
Definition IMAGE_MANIFEST : string := "direwolf.sandbox.image_manifest.v1".

Definition DOMAINS : list string :=
  [POLICY_REVISION; ADMIT_REQUEST; AUDIT_RECORD; RUN_GRANT; AGENT_PROFILE; SKILL; CEILING;
   STORE_ID; SECRET_METADATA; TOOL_CONTENT; TOOL_REQUEST; PROCESS_ARGV; NET_REQUEST;
   WORKLOAD_REQUEST; IMAGE_MANIFEST].

(** ** Hashes *)

Module Sha256Hash.

(** [[u8; 32]]. *)
Record t := Make { as_bytes : string }.

#[global] Instance hash_eq_dec : EqDecision t.
Proof. solve_decision. Defined.

Definition wf (h : t) : Prop := String.length (as_bytes h) = 32.

Definition ZERO : t := Make (string_of_list_ascii (repeat "000"%char 32)).

Definition DIGITS : string := "0123456789abcdef".

(** [DIGITS.get(usize::from(nibble)).copied().unwrap_or(b'0')]. *)
Definition digit (nibble : N) : ascii := default "0"%char (String.get (N.to_nat nibble) DIGITS).

Fixpoint hex (bytes : string) : string :=
  match bytes with
  | EmptyString => ""
  | String b r => String (digit (byte_of b / 16)) (String (digit (byte_of b mod 16)) (hex r))
  end.

Definition to_hex (h : t) : string := hex (as_bytes h).

Definition nibble (c : ascii) : option N :=
  if in_range 48 57 c then Some (byte_of c - 48)%N
  else if in_range 97 102 c then Some (byte_of c - 97 + 10)%N
  else None.

(** The loop over the pairs of digits. *)
Fixpoint unhex (text : string) : option string :=
  match text with
  | EmptyString => Some ""
  | String high (String low r) =>
      h ← nibble high; l ← nibble low; bytes ← unhex r;
      Some (String (ascii_of_N (h * 16 + l)) bytes)
  | _ => None
  end.

Definition from_hex (text : string) : option t :=
  if negb (String.length text =? 64)%nat then None else Make <$> unhex text.

(** ** Round trip *)

Lemma unhex_hex bytes : unhex (hex bytes) = Some bytes.
Proof.
  induction bytes as [|b r IH]; [done|]. cbn [hex unhex].
  assert (nibble (digit (byte_of b / 16)) = Some (byte_of b / 16)%N /\
          nibble (digit (byte_of b mod 16)) = Some (byte_of b mod 16)%N) as [-> ->].
  { apply (bool_decide_eq_true_1 _). revert b.
    by apply (ascii_forall (fun b => bool_decide
      (nibble (digit (byte_of b / 16)) = Some (byte_of b / 16)%N /\
       nibble (digit (byte_of b mod 16)) = Some (byte_of b mod 16)%N))); vm_compute. }
  cbn [mbind option_bind]. rewrite IH. cbn [mbind option_bind]. do 2 f_equal.
  rewrite N.mul_comm, <- N.div_mod by done. apply ascii_N_embedding.
Qed.

Lemma hex_length bytes : String.length (hex bytes) = 2 * String.length bytes.
Proof. induction bytes; simpl; lia. Qed.

Lemma unhex_Some n text bytes :
  String.length text <= n -> unhex text = Some bytes ->
  hex bytes = text /\ String.length text = 2 * String.length bytes.
Proof.
  revert text bytes. induction n as [|n IH]; intros [|h [|l r]] bytes Hn; simpl in Hn; try lia;
    cbn [unhex]; try done; try (by intros [= <-]).
  destruct (nibble h) as [x|] eqn:Ex; [|done]. destruct (nibble l) as [y|] eqn:Ey; [|done].
  cbn [mbind option_bind]. destruct (unhex r) as [bs|] eqn:Er; [|done]. intros [= <-].
  apply IH in Er as [<- Hl]; [|lia]. cbn [hex String.length] in *. split; [|lia].
  assert (Hd : forall c, is_none_or (nibble c) (fun k => (k <? 16)%N && Ascii.eqb (digit k) c) = true).
  { apply ascii_forall. by vm_compute. }
  pose proof (Hd h) as Hx. pose proof (Hd l) as Hy. rewrite Ex in Hx. rewrite Ey in Hy.
  apply andb_true_iff in Hx as [Hx%N.ltb_lt Dx%Ascii.eqb_eq].
  apply andb_true_iff in Hy as [Hy%N.ltb_lt Dy%Ascii.eqb_eq].
  unfold byte_of. rewrite N_ascii_embedding by lia.
  replace ((x * 16 + y) / 16)%N with x by (apply (N.div_unique _ 16 x y); lia).
  replace ((x * 16 + y) mod 16)%N with y by (apply (N.mod_unique _ 16 x y); lia).
  by rewrite Dx, Dy.
Qed.

(** One value, one spelling. *)
Lemma from_hex_Some text h : from_hex text = Some h <-> wf h /\ to_hex h = text.
Proof.
  unfold from_hex, wf, to_hex. destruct h as [bytes]; cbn [as_bytes].
  destruct (Nat.eqb_spec (String.length text) 64) as [E|E]; cbn [negb].
  - destruct (unhex text) as [bs|] eqn:Eb; cbn [fmap option_fmap option_map].
    + pose proof (unhex_Some _ _ _ (le_n _) Eb) as [Hh Hl]. split.
      * intros [= ->]. split; [lia|done].
      * intros [_ <-]. rewrite unhex_hex in Eb. congruence.
    + split; [done|]. intros [_ <-]. by rewrite unhex_hex in Eb.
  - split; [done|]. intros [Hw <-]. by rewrite hex_length, Hw in E.
Qed.

Lemma from_hex_to_hex h : wf h -> from_hex (to_hex h) = Some h.
Proof. intros Hw. by apply from_hex_Some. Qed.

Lemma to_hex_inj h k : wf h -> wf k -> to_hex h = to_hex k -> h = k.
Proof. intros Hh Hk E. apply from_hex_to_hex in Hh, Hk. rewrite E in Hh. congruence. Qed.

Lemma ZERO_wf : wf ZERO.
Proof. done. Qed.

End Sha256Hash.

(** ** Framing *)

(** [u64::to_be_bytes]. *)
Fixpoint be_bytes (n : nat) (v : N) : string :=
  match n with
  | 0 => ""
  | S n => String (ascii_of_N (v / 256 ^ N.of_nat n mod 256)) (be_bytes n v)
  end.

Definition u64_be (v : N) : string := be_bytes 8 v.

(** [u64::try_from(bytes.len()).unwrap_or(u64::MAX)]. *)
Definition u64_len (s : string) : N := N.min (N.of_nat (String.length s)) U64_MAX.

(** What a hasher has been fed. *)
Module DomainHash.

Record t := Make { fed : string }.

Definition new (domain : string) : t := Make (domain +:+ String "000" "").

Definition bytes (h : t) (s : string) : t := Make (fed h +:+ u64_be (u64_len s) +:+ s).

Definition text (h : t) (s : string) : t := bytes h s.

Definition int (h : t) (v : N) : t := Make (fed h +:+ u64_be v).

Definition finish `{Sha256} (h : t) : Sha256Hash.t := Sha256Hash.Make (sha256 (fed h)).

End DomainHash.

(** [plain]. *)
Definition plain `{Sha256} (s : string) : Sha256Hash.t := Sha256Hash.Make (sha256 s).

Lemma finish_wf `{Sha256} h : Sha256Hash.wf (DomainHash.finish h).
Proof. apply sha256_length. Qed.

Lemma be_bytes_length n v : String.length (be_bytes n v) = n.
Proof. induction n; simpl; lia. Qed.

Lemma byte_mod_inj v w :
  ascii_of_N (v mod 256) = ascii_of_N (w mod 256) -> (v mod 256 = w mod 256)%N.
Proof.
  intros E%(f_equal N_of_ascii). by rewrite !N_ascii_embedding in E by (apply N.mod_lt; lia).
Qed.

Lemma be_bytes_inj n v w : be_bytes n v = be_bytes n w -> (v mod 256 ^ N.of_nat n = w mod 256 ^ N.of_nat n)%N.
Proof.
  induction n as [|n IH]; [intros _; by rewrite !N.mod_1_r|].
  cbn [be_bytes]. intros [= Ea%byte_mod_inj E%IH].
  rewrite Nat2N.inj_succ, N.pow_succ_r, (N.mul_comm 256) by lia.
  rewrite !N.Div0.mod_mul_r. by rewrite Ea, E.
Qed.

Lemma u64_be_inj v w : (v <= U64_MAX)%N -> (w <= U64_MAX)%N -> u64_be v = u64_be w -> v = w.
Proof.
  intros Hv Hw E%be_bytes_inj. change (256 ^ N.of_nat 8)%N with (U64_MAX + 1)%N in E.
  by rewrite !N.mod_small in E by lia.
Qed.

(** Two texts that begin two equal ones, of one length, are the same. *)
Lemma append_inj_length (a b s t : string) :
  String.length a = String.length b -> a +:+ s = b +:+ t -> a = b /\ s = t.
Proof.
  revert b. induction a as [|x a IH]; intros [|y b]; simpl; try done.
  intros [= Hl] [= -> E]. destruct (IH b Hl E) as [-> ->]. done.
Qed.

(** A field that fits a [u64] length.  A [Vec]'s length does: it is an
    [isize]. *)
Definition sized (s : string) : Prop := (N.of_nat (String.length s) <= U64_MAX)%N.

(** A length-prefixed field is read off what follows it. *)
Lemma bytes_frame_inj s t x y :
  sized s -> sized t ->
  u64_be (u64_len s) +:+ s +:+ x = u64_be (u64_len t) +:+ t +:+ y -> s = t /\ x = y.
Proof.
  intros Hs Ht [E1 E2]%append_inj_length; [|by unfold u64_be; rewrite !be_bytes_length].
  unfold u64_len, sized in *. apply u64_be_inj in E1; [|lia..].
  apply append_inj_length in E2; [done|lia].
Qed.

(** The [0x00] ends the domain, which holds none. *)
Lemma domain_inj d e x y :
  str_contains "000" d = false -> str_contains "000" e = false ->
  d +:+ String "000" x = e +:+ String "000" y -> d = e /\ x = y.
Proof.
  revert e. induction d as [|a d IH]; intros [|b e]; cbn [str_contains String.append].
  - by intros _ _ [= ->].
  - intros _ [Hb _]%orb_false_iff [= <- _]. by rewrite Ascii.eqb_refl in Hb.
  - intros [Ha _]%orb_false_iff _ [= -> _]. by rewrite Ascii.eqb_refl in Ha.
  - intros [_ Hd]%orb_false_iff [_ He]%orb_false_iff [= -> E].
    destruct (IH e Hd He E) as [-> ->]. done.
Qed.

Lemma DOMAINS_distinct : NoDup DOMAINS /\ Forall (fun d => str_contains "000" d = false) DOMAINS.
Proof. split; apply (bool_decide_unpack _); by vm_compute. Qed.

(** An integer is a frame no prefix tells from a byte field's: the kinds of a
    digest's fields, which its schema fixes, are what keeps its frames apart. *)
Example int_reads_as_empty h : DomainHash.int h 0 = DomainHash.bytes h "".
Proof. done. Qed.
