(* ===== verification/StateError.v ===== *)
(** Errors of the durable state and the points an operation may stop at
    ([dwkd-authority/src/state/error.rs], [crash.rs], and the classification of
    database errors in [db.rs]).  Formatted messages are left out. *)

From S2P Require Export Prelude Text.

Module CrashPoint.

Inductive t :=
| BeforeTransaction | BeforeCommit | AfterCommitBeforeAudit | MidAuditRecord
| AfterAuditWriteBeforeSync | AfterAuditSyncBeforeMark | AfterAuditMark | ToolAfterIntent
| ToolAfterOpen | ToolAfterBroker | ToolAfterOutcome | SecretBeforeMetadata
| SecretAfterMetadata | SecretAfterIntent | SecretAfterBackend | SecretAfterRegister
| SecretAfterHandoff | SecretAfterBroker | SecretBeforeOutcome | SecretAfterOutcome
| EnvironmentAfterIntent | EnvironmentAfterBroker | EnvironmentAfterOutcome
| EnvironmentDestroyAfterIntent | EnvironmentDestroyAfterBroker | NetAfterResolve
| NetAfterIntent | NetAfterBroker | NetAfterOutcome | WorkloadAfterIntent
| WorkloadAfterStart | WorkloadAfterBroker | WorkloadAfterOutcome | ReleaseAfterIntent
| ReapAfterIntent.

#[global] Instance point_eq_dec : EqDecision t.
Proof. solve_decision. Defined.

Definition ALL : list t :=
  [BeforeTransaction; BeforeCommit; AfterCommitBeforeAudit; MidAuditRecord;
   AfterAuditWriteBeforeSync; AfterAuditSyncBeforeMark; AfterAuditMark].

Definition TOOL : list t :=
  [ToolAfterIntent; ToolAfterOpen; ToolAfterBroker; ToolAfterOutcome].

Definition SECRET : list t :=
  [SecretBeforeMetadata; SecretAfterMetadata; SecretAfterIntent; SecretAfterBackend;
   SecretAfterRegister; SecretAfterHandoff; SecretAfterBroker; SecretBeforeOutcome;
   SecretAfterOutcome].

Definition ENVIRONMENT : list t :=
  [EnvironmentAfterIntent; EnvironmentAfterBroker; EnvironmentAfterOutcome;
   EnvironmentDestroyAfterIntent; EnvironmentDestroyAfterBroker].

Definition NET : list t :=
  [NetAfterResolve; NetAfterIntent; NetAfterBroker; NetAfterOutcome].

Definition WORKLOAD : list t :=
  [WorkloadAfterIntent; WorkloadAfterStart; WorkloadAfterBroker; WorkloadAfterOutcome].

Definition letter (p : t) : ascii :=
  match p with
  | BeforeTransaction => "A"%char | BeforeCommit => "B"%char
  | AfterCommitBeforeAudit => "C"%char | MidAuditRecord => "D"%char
  | AfterAuditWriteBeforeSync => "E"%char | AfterAuditSyncBeforeMark => "F"%char
  | AfterAuditMark => "G"%char | ToolAfterIntent => "b"%char | ToolAfterOpen => "c"%char
  | ToolAfterBroker => "e"%char | ToolAfterOutcome => "f"%char
  | SecretBeforeMetadata => "1"%char | SecretAfterMetadata => "2"%char
  | SecretAfterIntent => "3"%char | SecretAfterBackend => "4"%char
  | SecretAfterRegister => "5"%char | SecretAfterHandoff => "6"%char
  | SecretAfterBroker => "8"%char | SecretBeforeOutcome => "0"%char
  | SecretAfterOutcome => "9"%char | EnvironmentAfterIntent => "h"%char
  | EnvironmentAfterBroker => "i"%char | EnvironmentAfterOutcome => "j"%char
  | EnvironmentDestroyAfterIntent => "k"%char | EnvironmentDestroyAfterBroker => "l"%char
  | NetAfterResolve => "m"%char | NetAfterIntent => "n"%char | NetAfterBroker => "o"%char
  | NetAfterOutcome => "p"%char | WorkloadAfterIntent => "q"%char
  | WorkloadAfterStart => "t"%char | WorkloadAfterBroker => "r"%char
  | WorkloadAfterOutcome => "s"%char | ReleaseAfterIntent => "u"%char
  | ReapAfterIntent => "v"%char
  end.

(** The letters name the points. *)
Lemma letter_inj p q : letter p = letter q -> p = q.
Proof. by destruct p, q. Qed.

End CrashPoint.

Module HookAction.
Inductive t := Continue | Stop.
End HookAction.

(** * Errors *)

Module PoisonReason.

Inductive t :=
| Corrupt | NotADatabase | StorageIo | AuditIo | AuditDiverged
| Interrupted (point : CrashPoint.t).

#[global] Instance reason_eq_dec : EqDecision t.
Proof. solve_decision. Defined.

Definition is_structural (r : t) : bool :=
  match r with Corrupt | NotADatabase | AuditDiverged => true | _ => false end.

End PoisonReason.

Module AuthorityError.

Inductive t :=
| Poisoned (reason : PoisonReason.t)
| Busy
| Rejected
| Invariant (what : string)
| IdSpaceExhausted
| EpochExhausted
| NotAnAuthorityRequest
| Sqlite.

#[global] Instance error_eq_dec : EqDecision t.
Proof. solve_decision. Defined.

End AuthorityError.

(** ** What the database reports *)

(** The codes [classify] tells apart; the rest are one. *)
Module SqlError.
Inductive t :=
| DatabaseCorrupt | NotADatabase | SystemIoFailure | DatabaseBusy | DatabaseLocked
| ConstraintViolation | OtherCode.

#[global] Instance sql_eq_dec : EqDecision t.
Proof. solve_decision. Defined.
End SqlError.

Module Class_.

Inductive t :=
| Poison (reason : PoisonReason.t)
| Busy
| Constraint
| Other.

End Class_.

Definition classify (error : SqlError.t) : Class_.t :=
  match error with
  | SqlError.DatabaseCorrupt => Class_.Poison PoisonReason.Corrupt
  | SqlError.NotADatabase => Class_.Poison PoisonReason.NotADatabase
  | SqlError.SystemIoFailure => Class_.Poison PoisonReason.StorageIo
  | SqlError.DatabaseBusy | SqlError.DatabaseLocked => Class_.Busy
  | SqlError.ConstraintViolation => Class_.Constraint
  | SqlError.OtherCode => Class_.Other
  end.

Definition to_error (class : Class_.t) : AuthorityError.t :=
  match class with
  | Class_.Poison reason => AuthorityError.Poisoned reason
  | Class_.Busy => AuthorityError.Busy
  | Class_.Constraint => AuthorityError.Rejected
  | Class_.Other => AuthorityError.Sqlite
  end.
