(* ===== verification/AuditRecord.v ===== *)
(** The audit log as text ([dwkd-authority/src/state/audit.rs]): what an
    event's record is, when a line is one, and the log read in chunks, verified
    and decoded. *)

From Stdlib Require Import ZArith.
From stdpp Require Import gmap.
From S2P Require Export Prelude Text Vocabulary Digest StateError JsonLex JsonValue.

Definition AUDIT_FORMAT_VERSION : N := 1.

Definition MAX_RECORD_BYTES : N := 256 * 1024.

Definition MAX_SAFE_INTEGER : N := 9007199254740991.

Definition RESERVED_KEYS : list string := ["v"; "seq"; "prev"; "ts_ms"; "event"; "hash"].

(** * Events *)

Module AuditEvent.

Inductive t :=
| StoreCreated | StoreOpened | PolicyInstalled | AuthorityActivated | AgentProfileInstalled
| SkillInstalled | WorkspaceInstalled | SessionWorkspaceBound | LeaseAcquired
| LeaseReleased | LeaseRefused | RunAdmitted | RunAdmitReplayed | RunAdmitRefused
| RunReleased | RunReaped | RunReleaseRefused | AuthorityDecision | QueryRefused
| TaintRaised | TransportPeerRefused | TransportConnectionRefused
| TransportProtocolViolation | TransportAuditSuppressed | WorkspaceRootInstalled
| StoreMigrated | ToolDenied | ToolRefused | ToolPreviewed | ToolIntentRecorded
| ToolCompleted | ToolFailed | ToolInterrupted | ToolOutcomeUnknown | ToolStagingSettled
| SecretConfigured | SecretRevoked | SecretFingerprinted | SecretDenied
| SecretIntentRecorded | SecretResolved | SecretInjected | SecretFailed
| SecretOutcomeUnknown | SecretRedactionHit | EnvironmentIntentRecorded | EnvironmentReady
| EnvironmentRefused | EnvironmentOutcomeUnknown | EnvironmentMeasured | EnvironmentDrifted
| EnvironmentDestroyIntent | EnvironmentDestroyed | EnvironmentDestroyFailed
| EnvironmentLost | EnvironmentReconciled | EnvironmentOrphanReaped | NetResolved
| NetIntentRecorded | NetHopEnded | NetRedirectEnded | NetOutcome | WorkloadIntentRecorded
| WorkloadRefused | WorkloadDenied | WorkloadOutcome.

#[global] Instance event_eq_dec : EqDecision t.
Proof. solve_decision. Defined.

Definition ALL : list t :=
  [StoreCreated; StoreOpened; PolicyInstalled; AuthorityActivated; AgentProfileInstalled;
   SkillInstalled; WorkspaceInstalled; SessionWorkspaceBound; LeaseAcquired; LeaseReleased;
   LeaseRefused; RunAdmitted; RunAdmitReplayed; RunAdmitRefused; RunReleased; RunReaped;
   RunReleaseRefused; AuthorityDecision; QueryRefused; TaintRaised; TransportPeerRefused;
   TransportConnectionRefused; TransportProtocolViolation; TransportAuditSuppressed;
   WorkspaceRootInstalled; StoreMigrated; ToolDenied; ToolRefused; ToolPreviewed;
   ToolIntentRecorded; ToolCompleted; ToolFailed; ToolInterrupted; ToolOutcomeUnknown;
   ToolStagingSettled; SecretConfigured; SecretRevoked; SecretFingerprinted; SecretDenied;
   SecretIntentRecorded; SecretResolved; SecretInjected; SecretFailed;
   SecretOutcomeUnknown; SecretRedactionHit; EnvironmentIntentRecorded; EnvironmentReady;
   EnvironmentRefused; EnvironmentOutcomeUnknown; EnvironmentMeasured; EnvironmentDrifted;
   EnvironmentDestroyIntent; EnvironmentDestroyed; EnvironmentDestroyFailed;
   EnvironmentLost; EnvironmentReconciled; EnvironmentOrphanReaped; NetResolved;
   NetIntentRecorded; NetHopEnded; NetRedirectEnded; NetOutcome; WorkloadIntentRecorded;
   WorkloadRefused; WorkloadDenied; WorkloadOutcome].

Definition as_str (e : t) : string :=
  match e with
  | StoreCreated => "store.created"
  | StoreOpened => "store.opened"
  | PolicyInstalled => "policy.installed"
  | AuthorityActivated => "authority.activated"
  | AgentProfileInstalled => "config.agent_profile_installed"
  | SkillInstalled => "config.skill_installed"
  | WorkspaceInstalled => "config.workspace_installed"
  | SessionWorkspaceBound => "config.session_workspace_bound"
  | LeaseAcquired => "lease.acquired"
  | LeaseReleased => "lease.released"
  | LeaseRefused => "lease.refused"
  | RunAdmitted => "run.admitted"
  | RunAdmitReplayed => "run.admit_replayed"
  | RunAdmitRefused => "run.admit_refused"
  | RunReleased => "run.released"
  | RunReaped => "run.reaped"
  | RunReleaseRefused => "run.release_refused"
  | AuthorityDecision => "authority.decision"
  | QueryRefused => "authority.query_refused"
  | TaintRaised => "run.taint_raised"
  | TransportPeerRefused => "transport.peer_refused"
  | TransportConnectionRefused => "transport.connection_refused"
  | TransportProtocolViolation => "transport.protocol_violation"
  | TransportAuditSuppressed => "transport.audit_suppressed"
  | WorkspaceRootInstalled => "config.workspace_root_installed"
  | StoreMigrated => "store.migrated"
  | ToolDenied => "tool.denied"
  | ToolRefused => "tool.refused"
  | ToolPreviewed => "tool.previewed"
  | ToolIntentRecorded => "tool.intent_recorded"
  | ToolCompleted => "tool.completed"
  | ToolFailed => "tool.failed"
  | ToolInterrupted => "tool.interrupted"
  | ToolOutcomeUnknown => "tool.outcome_unknown"
  | ToolStagingSettled => "tool.staging_settled"
  | SecretConfigured => "secret.configured"
  | SecretRevoked => "secret.revoked"
  | SecretFingerprinted => "secret.fingerprinted"
  | SecretDenied => "secret.denied"
  | SecretIntentRecorded => "secret.intent_recorded"
  | SecretResolved => "secret.resolved"
  | SecretInjected => "secret.injected"
  | SecretFailed => "secret.failed"
  | SecretOutcomeUnknown => "secret.outcome_unknown"
  | SecretRedactionHit => "secret.redaction_hit"
  | EnvironmentIntentRecorded => "environment.intent_recorded"
  | EnvironmentReady => "environment.ready"
  | EnvironmentRefused => "environment.refused"
  | EnvironmentOutcomeUnknown => "environment.outcome_unknown"
  | EnvironmentMeasured => "environment.measured"
  | EnvironmentDrifted => "environment.drifted"
  | EnvironmentDestroyIntent => "environment.destroy_intent"
  | EnvironmentDestroyed => "environment.destroyed"
  | EnvironmentDestroyFailed => "environment.destroy_failed"
  | EnvironmentLost => "environment.lost"
  | EnvironmentReconciled => "environment.reconciled"
  | EnvironmentOrphanReaped => "environment.orphan_reaped"
  | NetResolved => "net.http.resolved"
  | NetIntentRecorded => "net.http.intent"
  | NetHopEnded => "net.http.hop"
  | NetRedirectEnded => "net.http.redirect_ended"
  | NetOutcome => "net.http.outcome"
  | WorkloadIntentRecorded => "workload.intent_recorded"
  | WorkloadRefused => "workload.refused"
  | WorkloadDenied => "workload.denied"
  | WorkloadOutcome => "workload.outcome"
  end.

#[global] Instance event_vocabulary : Vocabulary ALL as_str.
Proof. solve_vocabulary. Qed.

End AuditEvent.

(** * Fields *)

Module Field.

Inductive t :=
| Text (s : string)
| Int (value : N)          (* a [u64] *)
| Flag (b : bool)
| List (items : list t)
| Object (members : list (string * t)).

(** Induction through lists and objects. *)
Section induction.
  Context (P : t -> Prop) (HText : forall s, P (Text s)) (HInt : forall n, P (Int n))
    (HFlag : forall b, P (Flag b)) (HList : forall items, Forall P items -> P (List items))
    (HObject : forall members, Forall P members.*2 -> P (Object members)).

Fixpoint field_ind (f : t) : P f :=
  match f with
  | Text s => HText s
  | Int n => HInt n
  | Flag b => HFlag b
  | List items =>
      HList items ((fix go l : Forall P l :=
        match l with [] => List.Forall_nil _ | x :: r => List.Forall_cons _ x r (field_ind x) (go r) end) items)
  | Object members =>
      HObject members ((fix go l : Forall P l.*2 :=
        match l with
        | [] => List.Forall_nil _
        | (k, x) :: r => List.Forall_cons _ x r.*2 (field_ind x) (go r)
        end) members)
  end.
End induction.

(** Its strings are [String]s. *)
Inductive field_ok : t -> Prop :=
| text_ok s : Utf8 s -> field_ok (Text s)
| int_ok n : field_ok (Int n)
| flag_ok b : field_ok (Flag b)
| list_ok items : Forall field_ok items -> field_ok (List items)
| object_ok members :
    Forall Utf8 members.*1 -> Forall field_ok members.*2 -> field_ok (Object members).

(** How many lists and objects enclose its deepest value. *)
Fixpoint height (f : t) : nat :=
  match f with
  | List items => S (fold_right (fun x h => Nat.max (height x) h) 0 items)
  | Object members => S (fold_right (fun m h => Nat.max (height m.2) h) 0 members)
  | _ => 0
  end.

End Field.

Module Fields.

Definition t := list (string * Field.t).

Definition new : t := [].

Definition text (self : t) (key value : string) : t := self ++ [(key, Field.Text value)].

Definition int (self : t) (key : string) (value : N) : t := self ++ [(key, Field.Int value)].

Definition flag (self : t) (key : string) (value : bool) : t := self ++ [(key, Field.Flag value)].

Definition maybe_int (self : t) (key : string) (value : option N) : t :=
  match value with Some value => int self key value | None => self end.

Definition maybe_text (self : t) (key : string) (value : option string) : t :=
  match value with Some value => text self key value | None => self end.

Definition list (self : t) (key : string) (items : list Field.t) : t :=
  self ++ [(key, Field.List items)].

Definition extend (self more : t) : t := self ++ more.

End Fields.

Definition invariant {A} (what : string) : result A AuthorityError.t :=
  Err (AuthorityError.Invariant what).

(** [i64::try_from(u64)]. *)
Definition i64_of (value : N) : option Z :=
  if (Z.of_N value <=? I64_MAX)%Z then Some (Z.of_N value) else None.

(** [u64::try_from(i64)]. *)
Definition u64_of (value : Z) : option N :=
  if (value <? 0)%Z then None else Some (Z.to_N value).

Definition safe_integer (value : N) : result Number.t AuthorityError.t :=
  if (MAX_SAFE_INTEGER <? value)%N then invariant "an audit integer exceeds 2^53-1"
  else ok_or (i ← i64_of value; Number.from_i64 i)
    (AuthorityError.Invariant "an audit integer is not representable").

Definition insert (object : Object.t) (key : string) (value : Value.t) :
    result Object.t AuthorityError.t :=
  map_err (fun _ => AuthorityError.Invariant "an audit record repeats a key")
    (Object.insert object key value).

(** The loop over an object's members. *)
Section members.
  Context {A : Type} (field_value : A -> result Value.t AuthorityError.t).

Fixpoint insert_all (members : list (string * A)) (object : Object.t) :
    result Object.t AuthorityError.t :=
  match members with
  | [] => Ok object
  | (key, value) :: rest =>
      let? value := field_value value in
      let? object := insert object key value in
      insert_all rest object
  end.
End members.

Fixpoint field_value (field : Field.t) : result Value.t AuthorityError.t :=
  match field with
  | Field.Text text => Ok (Value.String text)
  | Field.Int value => let? n := safe_integer value in Ok (Value.Number n)
  | Field.Flag value => Ok (Value.Bool value)
  | Field.List items =>
      let? items := collect (map field_value items) in Ok (Value.Array items)
  | Field.Object members =>
      let? object := insert_all field_value members Object.new in Ok (Value.Object object)
  end.

(** The loop over an event's fields. *)
Fixpoint insert_fields (fields : Fields.t) (object : Object.t) :
    result Object.t AuthorityError.t :=
  match fields with
  | [] => Ok object
  | (key, field) :: rest =>
      if bool_decide (key ∈ RESERVED_KEYS)
      then invariant "an audit event reuses a reserved key"
      else
        let? value := field_value field in
        let? object := insert object key value in
        insert_fields rest object
  end.

Definition unsigned_record (seq : N) (prev : Sha256Hash.t) (ts_ms : N) (event : AuditEvent.t)
    (fields : Fields.t) : result Object.t AuthorityError.t :=
  let? v := safe_integer AUDIT_FORMAT_VERSION in
  let? object := insert Object.new "v" (Value.Number v) in
  let? seq := safe_integer seq in
  let? object := insert object "seq" (Value.Number seq) in
  let? object := insert object "prev" (Value.String (Sha256Hash.to_hex prev)) in
  let? ts_ms := safe_integer ts_ms in
  let? object := insert object "ts_ms" (Value.Number ts_ms) in
  let? object := insert object "event" (Value.String (AuditEvent.as_str event)) in
  insert_fields fields object.

Section records.
  Context `{Sha256}.

(** [H_n] from [H_{n-1}] and [C_n]. *)
Definition chain_hash (prev : Sha256Hash.t) (canonical_without_hash : string) : Sha256Hash.t :=
  DomainHash.finish
    (DomainHash.bytes (DomainHash.bytes (DomainHash.new AUDIT_RECORD) (Sha256Hash.as_bytes prev))
      canonical_without_hash).

(** The middle of [append]: the record's hash and its line. *)
Definition signed_record (seq : N) (prev : Sha256Hash.t) (ts_ms : N) (event : AuditEvent.t)
    (fields : Fields.t) : result (Sha256Hash.t * string) AuthorityError.t :=
  let? record := unsigned_record seq prev ts_ms event fields in
  let hash := chain_hash prev (to_canonical_bytes (Value.Object record)) in
  let? record := insert record "hash" (Value.String (Sha256Hash.to_hex hash)) in
  let line := to_canonical_bytes (Value.Object record) in
  if (MAX_RECORD_BYTES <? str_len line)%N then invariant "an audit record exceeds its bound"
  else Ok (hash, line).
End records.

(** * Verification of a line *)

Module RecordFault.

Inductive t :=
| NotJson
| NotCanonical
| MissingField (name : string)
| UnsupportedVersion (version : N)
| Sequence (expected found : N)
| PrevMismatch
| HashMismatch
| Oversized.

#[global] Instance fault_eq_dec : EqDecision t.
Proof. solve_decision. Defined.

End RecordFault.

Module Verified.
Record t := Make { seq : N; hash : Sha256Hash.t }.
End Verified.

Definition uint (object : Object.t) (key : string) : result N RecordFault.t :=
  match Object.get object key with
  | Some (Value.Number (Number.Int value)) =>
      ok_or (u64_of value) (RecordFault.MissingField key)
  | _ => Err (RecordFault.MissingField key)
  end.

Definition hash_field (object : Object.t) (key : string) : result Sha256Hash.t RecordFault.t :=
  match Object.get object key with
  | Some (Value.String text) =>
      ok_or (Sha256Hash.from_hex text) (RecordFault.MissingField key)
  | _ => Err (RecordFault.MissingField key)
  end.

(** [object.remove(key)], its result dropped. *)
Definition without (object : Object.t) (key : string) : Object.t :=
  match Object.remove object key with Some (_, object) => object | None => object end.

Definition is_string (value : option Value.t) : bool :=
  match value with Some (Value.String _) => true | _ => false end.

Section verify.
  Context `{Sha256}.

Definition verify_line (line : string) (expected_seq : N) (expected_prev : Sha256Hash.t) :
    result Verified.t RecordFault.t :=
  if (MAX_RECORD_BYTES <? str_len line)%N then Err RecordFault.Oversized
  else
    match parse line ParseOptions.dwkp with
    | Ok (Value.Object object) =>
        if negb (String.eqb (to_canonical_bytes (Value.Object object)) line)
        then Err RecordFault.NotCanonical
        else
          let? version := uint object "v" in
          if negb (version =? AUDIT_FORMAT_VERSION)%N
          then Err (RecordFault.UnsupportedVersion version)
          else
            let? seq := uint object "seq" in
            if negb (seq =? expected_seq)%N then Err (RecordFault.Sequence expected_seq seq)
            else
              let? prev := hash_field object "prev" in
              if negb (bool_decide (prev = expected_prev)) then Err RecordFault.PrevMismatch
              else
                let? _ := uint object "ts_ms" in
                if negb (is_string (Object.get object "event"))
                then Err (RecordFault.MissingField "event")
                else
                  let? claimed := hash_field object "hash" in
                  let object := without object "hash" in
                  let recomputed :=
                    chain_hash expected_prev (to_canonical_bytes (Value.Object object)) in
                  if negb (bool_decide (recomputed = claimed)) then Err RecordFault.HashMismatch
                  else Ok (Verified.Make seq claimed)
    | _ => Err RecordFault.NotJson
    end.
End verify.

Definition newline : ascii := "010".

(** * Reading *)

Module Chunk.

Inductive t :=
| Line (bytes : string)
| Tail (bytes : string)
| Oversized.

#[global] Instance chunk_eq_dec : EqDecision t.
Proof. solve_decision. Defined.

End Chunk.

(** The bytes not yet read and where they start. *)
Module LogReader.

Record t := Make { rest : string; offset : N }.

Definition open (contents : string) : t := Make contents 0.

(** [take(limit).read_until(b'\n', ..)]: bytes up to the first newline, it
    included, and at most [limit] of them. *)
Fixpoint read_until (limit : N) (s : string) : string * string :=
  match s with
  | EmptyString => ("", "")
  | String a r =>
      if (limit =? 0)%N then ("", s)
      else if Ascii.eqb a newline then (String a "", r)
      else let '(buffer, r) := read_until (limit - 1) r in (String a buffer, r)
  end.

Definition read_chunk (self : t) : option (N * Chunk.t) * t :=
  let start := offset self in
  let limit := saturating_add MAX_RECORD_BYTES 1 in
  let '(buffer, r) := read_until limit (rest self) in
  let read := str_len buffer in
  if (read =? 0)%N then (None, Make r (offset self))
  else
    let self := Make r (saturating_add (offset self) read) in
    match str_strip_suffix newline buffer with
    | Some buffer => (Some (start, Chunk.Line buffer), self)
    | None =>
        if (MAX_RECORD_BYTES <? str_len buffer)%N then (Some (start, Chunk.Oversized), self)
        else (Some (start, Chunk.Tail buffer), self)
    end.

(** The chunks [while let Some(..) = reader.read_chunk()] runs over, in order.
    Each takes a byte at least, and one unit of fuel: [chunks_enough]. *)
Fixpoint chunks_from (fuel : nat) (self : t) : list (N * Chunk.t) :=
  match fuel with
  | 0 => []
  | S fuel =>
      match read_chunk self with
      | (None, _) => []
      | (Some chunk, self) => chunk :: chunks_from fuel self
      end
  end.

Definition chunks (self : t) : list (N * Chunk.t) := chunks_from (String.length (rest self)) self.

End LogReader.

(** * Verifying *)

Module AuditLogSummary.
Record t := Make { records : N; head : Sha256Hash.t }.
End AuditLogSummary.

Module AuditLogFault.

Inductive t :=
| Io
| Record_ (line : N) (fault : RecordFault.t)
| TornTail (after_records bytes : N).

#[global] Instance log_fault_eq_dec : EqDecision t.
Proof. solve_decision. Defined.

End AuditLogFault.

(** One record of a log that verified. *)
Module AuditRecord.

Record t := Make { seq : N; event : string; object : Object.t }.

Definition text (self : t) (key : string) : option string :=
  match Object.get (object self) key with Some (Value.String value) => Some value | _ => None end.

Definition int (self : t) (key : string) : option N :=
  match Object.get (object self) key with
  | Some (Value.Number (Number.Int value)) => u64_of value
  | _ => None
  end.

Definition flag (self : t) (key : string) : option bool :=
  match Object.get (object self) key with Some (Value.Bool value) => Some value | _ => None end.

End AuditRecord.

Section verify.
  Context `{Sha256}.

(** The loop of [verify_audit_log]. *)
Fixpoint verify_loop (chunks : list (N * Chunk.t)) (records : N) (head : Sha256Hash.t) :
    result AuditLogSummary.t AuditLogFault.t :=
  match chunks with
  | [] => Ok (AuditLogSummary.Make records head)
  | (_, chunk) :: rest =>
      let line := saturating_add records 1 in
      match chunk with
      | Chunk.Line bytes =>
          let? verified := map_err (AuditLogFault.Record_ line) (verify_line bytes line head) in
          verify_loop rest (Verified.seq verified) (Verified.hash verified)
      | Chunk.Tail bytes => Err (AuditLogFault.TornTail records (str_len bytes))
      | Chunk.Oversized => Err (AuditLogFault.Record_ line RecordFault.Oversized)
      end
  end.

(** The file's bytes, or [None] for one that cannot be opened or read. *)
Definition verify_audit_log (file : option string) : result AuditLogSummary.t AuditLogFault.t :=
  match file with
  | None => Err AuditLogFault.Io
  | Some contents =>
      verify_loop (LogReader.chunks (LogReader.open contents)) 0 Sha256Hash.ZERO
  end.

(** The loop of [read_audit_log]. *)
Fixpoint read_loop (chunks : list (N * Chunk.t)) (count : N) (head : Sha256Hash.t)
    (records : list AuditRecord.t) : result (list AuditRecord.t) AuditLogFault.t :=
  match chunks with
  | [] => Ok records
  | (_, chunk) :: rest =>
      let line := saturating_add count 1 in
      match chunk with
      | Chunk.Line bytes =>
          let? verified := map_err (AuditLogFault.Record_ line) (verify_line bytes line head) in
          match parse bytes ParseOptions.dwkp with
          | Ok (Value.Object object) =>
              match Object.get object "event" with
              | Some (Value.String event) =>
                  read_loop rest (Verified.seq verified) (Verified.hash verified)
                    (records ++ [AuditRecord.Make (Verified.seq verified) event object])
              | _ => Err (AuditLogFault.Record_ line (RecordFault.MissingField "event"))
              end
          | _ => Err (AuditLogFault.Record_ line RecordFault.NotJson)
          end
      | Chunk.Tail bytes => Err (AuditLogFault.TornTail count (str_len bytes))
      | Chunk.Oversized => Err (AuditLogFault.Record_ line RecordFault.Oversized)
      end
  end.

Definition read_audit_log (file : option string) :
    result (list AuditRecord.t) AuditLogFault.t :=
  match file with
  | None => Err AuditLogFault.Io
  | Some contents =>
      read_loop (LogReader.chunks (LogReader.open contents)) 0 Sha256Hash.ZERO []
  end.
End verify.
