(* ===== verification/Machine.v ===== *)
(** The world the durable state runs in: a log file that a crash may cut short,
    the tables of [kernel.db], and effects that may fail.

    [audit.log] is a file of the operating system and [kernel.db] a SQLite
    database, so what is here is what the code relies on of both.  A file has
    contents and what of them was last synced; a crash leaves a text between
    the two.  A committed transaction survives ([synchronous = FULL]); one that
    failed may have committed, or changed nothing.  Every effect that may fail consults the [script], a
    list of fates an adversary chooses, and goes well when the script is
    empty. *)

From Stdlib Require Import ZArith.
From S2P Require Export Prelude Text Digest StateError.

(** * Files *)

(** The largest offset of a file, [i64::MAX]. *)
Definition FILE_MAX : N := 9223372036854775807.

Module File.

Record t := Make { contents : string; synced : string }.

Definition fits (f : t) (s : string) : bool :=
  (str_len (contents f) + str_len s <=? FILE_MAX)%N.

(** A write puts its bytes at the end: all of them, or the first [n] that fit. *)
Definition append (f : t) (s : string) : t := Make (contents f +:+ s) (synced f).

Definition append_some (f : t) (n : N) (s : string) : t :=
  append f (str_take (N.min n (FILE_MAX - str_len (contents f))) s).

Definition sync (f : t) : t := Make (contents f) (contents f).

(** [set_len] cuts, or extends with zeros. *)
Definition set_len (f : t) (n : N) : t :=
  if (str_len (contents f) <? n)%N
  then Make (contents f +:+ string_of_list_ascii
               (repeat "000"%char (N.to_nat (n - str_len (contents f))))) (synced f)
  else Make (str_take n (contents f)) (synced f).

(** What a crash may leave: a beginning of what was written or of what was
    synced, no shorter than what they share. *)
Definition survives (f : t) (s : string) : Prop :=
  (sprefix s (contents f) \/ sprefix s (synced f)) /\
  forall p, sprefix p (contents f) -> sprefix p (synced f) -> sprefix p s.

(** A file found at a start is what it is. *)
Definition found (s : string) : t := Make s s.

End File.

(** * Fates *)

Inductive Fate :=
| Goes
| Fails (after : N) (code : SqlError.t).

(** * The tables of the audit *)

Module Row.
Record t := Make { seq : Z; prev : string; hash : string; record : string }.
End Row.

(** [audit_head], [audit_state] and [audit_chain], whose rows are in the order
    of their key. *)
Module Tables.

Record t := Make {
  head_seq : Z; head_hash : string;
  flushed_seq : Z; flushed_hash : string;
  chain : list Row.t
}.

End Tables.

(** * Worlds *)

(** The one appender of the log: what it knows to be durable. *)
Module AuditWriter.
Record t := Make { durable_seq : N; durable_hash : Sha256Hash.t }.
End AuditWriter.

(** The log, the database (the audit's tables and, as [D], the others), what a
    process keeps in memory, and the fates to come. *)
Module World.

Record t {D : Type} := Make {
  log : File.t;
  tables : Tables.t;
  data : D;
  writer : option AuditWriter.t;
  poisoned : option PoisonReason.t;
  quarantined : bool;
  script : list Fate
}.
Arguments t : clear implicits.
Arguments Make {D} _ _ _ _ _ _ _.

Section updates.
  Context {D : Type} (w : t D).

Definition with_log (f : File.t) : t D :=
  Make f (tables w) (data w) (writer w) (poisoned w) (quarantined w) (script w).
Definition with_tables (x : Tables.t) : t D :=
  Make (log w) x (data w) (writer w) (poisoned w) (quarantined w) (script w).
Definition with_data (d : D) : t D :=
  Make (log w) (tables w) d (writer w) (poisoned w) (quarantined w) (script w).
Definition with_writer (x : option AuditWriter.t) : t D :=
  Make (log w) (tables w) (data w) x (poisoned w) (quarantined w) (script w).
Definition with_poison (x : option PoisonReason.t) (q : bool) : t D :=
  Make (log w) (tables w) (data w) (writer w) x q (script w).
Definition with_script (x : list Fate) : t D :=
  Make (log w) (tables w) (data w) (writer w) (poisoned w) (quarantined w) x.
End updates.

End World.

(** * Effects

    A computation takes a world to a result and a world: an error leaves the
    changes made before it. *)

Definition M (D E A : Type) : Type := World.t D -> result A E * World.t D.

Definition ret {D E A} (a : A) : M D E A := fun w => (Ok a, w).
Definition throw {D E A} (e : E) : M D E A := fun w => (Err e, w).
Definition bind {D E A B} (m : M D E A) (k : A -> M D E B) : M D E B := fun w =>
  match m w with
  | (Ok a, w) => k a w
  | (Err e, w) => (Err e, w)
  end.
Definition lift {D E A} (r : result A E) : M D E A := fun w => (r, w).
Definition gets {D E A} (f : World.t D -> A) : M D E A := fun w => (Ok (f w), w).
Definition modify {D E} (f : World.t D -> World.t D) : M D E unit := fun w => (Ok (), f w).

(** [m.map_err(f)], where [f] may touch the world ([|e| self.sql(&e)]). *)
Definition catch {D E F A} (m : M D E A) (f : E -> M D F A) : M D F A := fun w =>
  match m w with
  | (Ok a, w) => (Ok a, w)
  | (Err e, w) => f e w
  end.
Definition rethrow {D E F A} (f : E -> F) (m : M D E A) : M D F A :=
  catch m (fun e => throw (f e)).

Notation "'let!' x := m 'in' k" := (bind m (fun x => k))
  (at level 200, x pattern, m at level 100, k at level 200) : rust_scope.

Section effects.
  Context {D : Type}.

(** The next fate; its effect goes well when none is left. *)
Definition fate {E} : M D E Fate := fun w =>
  match World.script w with
  | [] => (Ok Goes, w)
  | f :: r => (Ok f, World.with_script w r)
  end.

(** [file.write_all(bytes)], at the end of the file. *)
Definition write_all (bytes : string) : M D unit unit :=
  let! f := fate in
  let! file := gets World.log in
  match f with
  | Goes =>
      if File.fits file bytes
      then modify (fun w => World.with_log w (File.append file bytes))
      else
        let! _ := modify (fun w => World.with_log w (File.append_some file (str_len bytes) bytes)) in
        throw ()
  | Fails n _ =>
      let! _ := modify (fun w => World.with_log w (File.append_some file n bytes)) in
      throw ()
  end.

(** [file.sync_all()]. *)
Definition sync_all : M D unit unit :=
  let! f := fate in
  match f with
  | Goes => modify (fun w => World.with_log w (File.sync (World.log w)))
  | Fails _ _ => throw ()
  end.

(** [file.set_len(n)]. *)
Definition set_len (n : N) : M D unit unit :=
  let! f := fate in
  match f with
  | Goes => modify (fun w => World.with_log w (File.set_len (World.log w) n))
  | Fails _ _ => throw ()
  end.

(** [OpenOptions::open(path)], or a read of the whole file. *)
Definition file_step : M D unit unit :=
  let! f := fate in
  match f with Goes => ret () | Fails _ _ => throw () end.

(** A statement that reads the database. *)
Definition query {A} (f : World.t D -> A) : M D SqlError.t A :=
  let! x := fate in
  match x with Goes => gets f | Fails _ code => throw code end.

(** A statement that updates the audit's tables, on its own: one transaction.
    When it is reported to have failed, it may have committed all the same
    ([n] is not 0). *)
Definition execute (f : Tables.t -> result Tables.t SqlError.t) : M D SqlError.t unit :=
  let! x := fate in
  let! tables := gets World.tables in
  match x with
  | Goes =>
      let! tables := lift (f tables) in
      modify (fun w => World.with_tables w tables)
  | Fails n code =>
      let! _ := modify (fun w =>
        match f tables with
        | Ok tables => if (n =? 0)%N then w else World.with_tables w tables
        | Err _ => w
        end) in
      throw code
  end.

End effects.

(** * Weakest preconditions *)

(** [m] from [w] ends in a result that satisfies [Q], or an error that
    satisfies [R]. *)
Definition wp {D E A} (m : M D E A) (Q : A -> World.t D -> Prop) (R : E -> World.t D -> Prop)
    (w : World.t D) : Prop :=
  match m w with
  | (Ok a, w) => Q a w
  | (Err e, w) => R e w
  end.

Section rules.
  Context {D E A : Type}.
  Implicit Types (Q : A -> World.t D -> Prop) (R : E -> World.t D -> Prop).

Lemma wp_mono (m : M D E A) Q Q' R R' w :
  wp m Q R w -> (forall a w, Q a w -> Q' a w) -> (forall e w, R e w -> R' e w) -> wp m Q' R' w.
Proof. unfold wp. destruct (m w) as [[a|e] w']; auto. Qed.

Lemma wp_ret a Q R w : Q a w -> wp (ret a) Q R w.
Proof. done. Qed.

Lemma wp_throw e Q R w : R e w -> wp (throw e) Q R w.
Proof. done. Qed.

Lemma wp_lift (r : result A E) Q R w :
  match r with Ok a => Q a w | Err e => R e w end -> wp (lift r) Q R w.
Proof. by destruct r. Qed.

Lemma wp_gets (f : World.t D -> A) Q R w : Q (f w) w -> wp (gets f) Q R w.
Proof. done. Qed.

Lemma wp_bind {B} (m : M D E B) (k : B -> M D E A) Q R w :
  wp m (fun b w => wp (k b) Q R w) R w -> wp (bind m k) Q R w.
Proof. unfold wp, bind. by destruct (m w) as [[b|e] w']. Qed.

Lemma wp_catch {F} (m : M D F A) (f : F -> M D E A) Q R w :
  wp m Q (fun e w => wp (f e) Q R w) w -> wp (catch m f) Q R w.
Proof. unfold wp, catch. by destruct (m w) as [[b|e] w']. Qed.

Lemma wp_rethrow {F} (m : M D F A) (f : F -> E) Q R w :
  wp m Q (fun e w => R (f e) w) w -> wp (rethrow f m) Q R w.
Proof. intros H. by apply wp_catch. Qed.

Lemma wp_query (f : World.t D -> A) Q (R : SqlError.t -> World.t D -> Prop) w :
  (forall s, Q (f (World.with_script w s)) (World.with_script w s)) ->
  (forall e s, R e (World.with_script w s)) -> wp (query f) Q R w.
Proof.
  intros HQ HR. destruct w as [log tables data writer poisoned quarantined script]. unfold wp, query, bind, fate.
  cbn [World.script]. destruct script as [|[|n e] s]; [apply (HQ [])|apply (HQ s)|apply (HR e s)].
Qed.

End rules.

Section effects.
  Context {D E : Type}.
  Implicit Types (w : World.t D).

Lemma wp_modify f (Q : unit -> World.t D -> Prop) (R : E -> World.t D -> Prop) w :
  Q () (f w) -> wp (modify f) Q R w.
Proof. done. Qed.

Lemma wp_fate (Q : Fate -> World.t D -> Prop) (R : E -> World.t D -> Prop) w :
  (forall f s, Q f (World.with_script w s)) -> wp fate Q R w.
Proof.
  intros HQ. destruct w as [log tables data writer poisoned quarantined script]. unfold wp, fate.
  cbn [World.script]. destruct script as [|f s]; [apply (HQ Goes [])|apply (HQ f s)].
Qed.

End effects.

Section steps.
  Context {D : Type}.
  Implicit Types (w : World.t D).

Lemma wp_file_step (Q : unit -> World.t D -> Prop) (R : unit -> World.t D -> Prop) w :
  (forall s, Q () (World.with_script w s)) -> (forall s, R () (World.with_script w s)) ->
  wp file_step Q R w.
Proof. intros HQ HR. apply wp_bind, wp_fate. intros [|n e] s; [apply HQ|apply HR]. Qed.

Lemma wp_sync_all (Q : unit -> World.t D -> Prop) (R : unit -> World.t D -> Prop) w :
  (forall s, Q () (World.with_log (World.with_script w s) (File.sync (World.log w)))) ->
  (forall s, R () (World.with_script w s)) -> wp sync_all Q R w.
Proof. intros HQ HR. apply wp_bind, wp_fate. intros [|n e] s; [apply HQ|apply HR]. Qed.

Lemma wp_set_len n (Q : unit -> World.t D -> Prop) (R : unit -> World.t D -> Prop) w :
  (forall s, Q () (World.with_log (World.with_script w s) (File.set_len (World.log w) n))) ->
  (forall s, R () (World.with_script w s)) -> wp (set_len n) Q R w.
Proof. intros HQ HR. apply wp_bind, wp_fate. intros [|n' e] s; [apply HQ|apply HR]. Qed.

(** A write that fails leaves some of its bytes. *)
Lemma wp_write_all bytes (Q : unit -> World.t D -> Prop) (R : unit -> World.t D -> Prop) w :
  (str_len (File.contents (World.log w)) <= FILE_MAX)%N ->
  (forall s, (str_len (File.contents (World.log w) +:+ bytes) <= FILE_MAX)%N ->
     Q () (World.with_log (World.with_script w s) (File.append (World.log w) bytes))) ->
  (forall s p, sprefix p bytes ->
     (str_len (File.contents (World.log w) +:+ p) <= FILE_MAX)%N ->
     R () (World.with_log (World.with_script w s) (File.append (World.log w) p))) ->
  wp (write_all bytes) Q R w.
Proof.
  intros Hmax HQ HR. apply wp_bind, wp_fate. intros f s. apply wp_bind, wp_gets.
  assert (forall n, wp (let! _ := modify (fun w => World.with_log w
    (File.append_some (World.log w) n bytes)) in throw ()) Q R (World.with_script w s)) as Hsome.
  { intros n. apply wp_bind, wp_modify, wp_throw. unfold File.append_some.
    apply (HR s); [apply str_take_prefix|]. rewrite str_len_append.
    pose proof (str_take_length (N.min n (FILE_MAX - str_len (File.contents (World.log w)))) bytes).
    cbn [World.log World.with_script]. lia. }
  destruct f as [|n e]; [|apply Hsome].
  destruct (File.fits (World.log (World.with_script w s)) bytes) eqn:Hf; [|apply Hsome].
  apply wp_modify, (HQ s). apply N.leb_le in Hf. by rewrite str_len_append.
Qed.

(** A statement that fails may have taken effect. *)
Lemma wp_execute f (Q : unit -> World.t D -> Prop) (R : SqlError.t -> World.t D -> Prop) w :
  match f (World.tables w) with
  | Ok t =>
      (forall s, Q () (World.with_tables (World.with_script w s) t)) /\
      (forall e s, R e (World.with_tables (World.with_script w s) t))
  | Err e => forall s, R e (World.with_script w s)
  end ->
  (forall e s, R e (World.with_script w s)) -> wp (execute f) Q R w.
Proof.
  intros Hf HR. apply wp_bind, wp_fate. intros x s. apply wp_bind, wp_gets.
  cbn [World.tables World.with_script]. destruct x as [|n e].
  - apply wp_bind, wp_lift. destruct (f (World.tables w)) as [t|e]; [|apply Hf].
    apply wp_modify, Hf.
  - apply wp_bind, wp_modify, wp_throw. destruct (f (World.tables w)) as [t|e'].
    + destruct (n =? 0)%N; [apply HR|apply Hf].
    + apply HR.
Qed.

End steps.
