(* ===== verification/AuditStore.v ===== *)
(** The outbox of the audit ([dwkd-authority/src/state/audit.rs], and the tables
    and triggers of [schema.rs] it is kept in): appending a record, comparing
    the log with the store, recovery, and the writer. *)

From Stdlib Require Import ZArith.
From S2P Require Export Machine AuditRecord.

(** * The tables, with their constraints and triggers *)

(** [length(text) = 64]. *)
Definition check_hash (text : string) : bool := (chars_count text =? 64)%nat.

(** A row among rows in the order of their key. *)
Fixpoint put_row (row : Row.t) (rows : list Row.t) : list Row.t :=
  match rows with
  | [] => [row]
  | r :: rest => if (Row.seq row <? Row.seq r)%Z then row :: rows else r :: put_row row rest
  end.

Definition constraint {A} : result A SqlError.t := Err SqlError.ConstraintViolation.

Section tables.
  Import Tables.

(** [INSERT INTO audit_chain], under [audit_chain_extends_the_head]. *)
Definition insert_chain (row : Row.t) (t : Tables.t) : result Tables.t SqlError.t :=
  if negb (Row.seq row =? head_seq t + 1)%Z || negb (String.eqb (Row.prev row) (head_hash t))
  then constraint
  else if negb ((1 <=? Row.seq row)%Z && check_hash (Row.prev row) && check_hash (Row.hash row))
  then constraint
  else if existsb (fun r => (Row.seq r =? Row.seq row)%Z || String.eqb (Row.hash r) (Row.hash row))
            (chain t)
  then constraint
  else Ok (Make (head_seq t) (head_hash t) (flushed_seq t) (flushed_hash t)
             (put_row row (chain t))).

(** [UPDATE audit_head], under [audit_head_advances_by_one]. *)
Definition update_head (seq : Z) (hash : string) (t : Tables.t) : result Tables.t SqlError.t :=
  if negb (seq =? head_seq t + 1)%Z then constraint
  else if negb ((0 <=? seq)%Z && check_hash hash) then constraint
  else Ok (Make seq hash (flushed_seq t) (flushed_hash t) (chain t)).

(** [UPDATE audit_state], under [audit_state_forward_only]. *)
Definition update_state (seq : Z) (hash : string) (t : Tables.t) : result Tables.t SqlError.t :=
  if (seq <? flushed_seq t)%Z || (head_seq t <? seq)%Z then constraint
  else if negb ((0 <=? seq)%Z && check_hash hash) then constraint
  else Ok (Make (head_seq t) (head_hash t) seq hash (chain t)).

(** ... [AND flushed_seq < ?1]: no row to update is no error. *)
Definition update_state_past (seq : Z) (hash : string) (t : Tables.t) :
    result Tables.t SqlError.t :=
  if (flushed_seq t <? seq)%Z then update_state seq hash t else Ok t.

(** What [create_store] puts in the tables. *)
Definition genesis : Tables.t :=
  Make 0 (Sha256Hash.to_hex Sha256Hash.ZERO) 0 (Sha256Hash.to_hex Sha256Hash.ZERO) [].

(** [SELECT record FROM audit_chain WHERE seq = ?1]. *)
Definition select_record (seq : Z) (t : Tables.t) : option string :=
  Row.record <$> List.find (fun r => (Row.seq r =? seq)%Z) (chain t).

(** [SELECT ... WHERE seq > ?1 ORDER BY seq]. *)
Definition select_past (seq : Z) (t : Tables.t) : list Row.t :=
  List.filter (fun r => (seq <? Row.seq r)%Z) (chain t).
End tables.

(** * Appending *)

Module AuditAppendError.
Inductive t :=
| Sqlite (e : SqlError.t)
| Authority (e : AuthorityError.t).
End AuditAppendError.

(** [u64::checked_add]. *)
Definition checked_add (a b : N) : option N :=
  if (a + b <=? U64_MAX)%N then Some (a + b)%N else None.

Section append.
  Context `{Sha256}.

(** [append], inside the caller's transaction: the tables it leaves there. *)
Definition append (tx : Tables.t) (ts_ms : N) (event : AuditEvent.t) (fields : Fields.t) :
    result (N * Tables.t) AuditAppendError.t :=
  let authority {A} (what : string) : result A AuditAppendError.t :=
    Err (AuditAppendError.Authority (AuthorityError.Invariant what)) in
  match Sha256Hash.from_hex (Tables.head_hash tx) with
  | None => authority "the audit head hash is malformed"
  | Some prev =>
      match (seq ← u64_of (Tables.head_seq tx); checked_add seq 1) with
      | None => authority "the audit head sequence is malformed"
      | Some seq =>
          let? (hash, line) :=
            map_err AuditAppendError.Authority (signed_record seq prev ts_ms event fields) in
          match i64_of seq with
          | None => authority "audit sequence overflow"
          | Some sql_seq =>
              let row := Row.Make sql_seq (Sha256Hash.to_hex prev) (Sha256Hash.to_hex hash) line in
              let? tx := map_err AuditAppendError.Sqlite (insert_chain row tx) in
              let? tx := map_err AuditAppendError.Sqlite
                           (update_head sql_seq (Sha256Hash.to_hex hash) tx) in
              Ok (seq, tx)
          end
      end
  end.
End append.

(** * Comparing *)

Module StoreComparison.

Record t := Make {
  log_records : N; store_head : N; store_flushed : N; pending_torn_tail : bool
}.

Definition pending (c : t) : N := saturating_sub (store_head c) (log_records c).

End StoreComparison.

Module StoreAuditFault.

Inductive t :=
| Log (fault : AuditLogFault.t)
| Store
| Truncated (log_records flushed : N)
| AheadOfStore (log_records store_head : N)
| Diverged (seq : N)
| ForeignTail.

#[global] Instance store_fault_eq_dec : EqDecision t.
Proof. solve_decision. Defined.

End StoreAuditFault.

(** The store's view. *)
Module StoreChain.

Record t := Make { conn : Tables.t; head : N; flushed : N }.

Definition read (conn : Tables.t) : t :=
  Make conn (default 0%N (u64_of (Tables.head_seq conn)))
    (default 0%N (u64_of (Tables.flushed_seq conn))).

Definition record (chain : t) (seq : N) : option string :=
  seq ← i64_of seq; select_record seq (conn chain).

End StoreChain.

Module Compared.
Record t := Make {
  comparison : StoreComparison.t; tail : option (N * string); head : Sha256Hash.t
}.
End Compared.

Section compare.
  Context `{Sha256}.

(** The loop of [compare]: how many records, the partial last one, the last
    hash. *)
Fixpoint compare_loop (chain : StoreChain.t) (chunks : list (N * Chunk.t)) (records : N)
    (head : Sha256Hash.t) :
    result (N * option (N * string) * Sha256Hash.t) StoreAuditFault.t :=
  match chunks with
  | [] => Ok (records, None, head)
  | (offset, chunk) :: rest =>
      let line := saturating_add records 1 in
      let record_fault fault := StoreAuditFault.Log (AuditLogFault.Record_ line fault) in
      match chunk with
      | Chunk.Line bytes =>
          if (StoreChain.head chain <? line)%N
          then Err (StoreAuditFault.AheadOfStore line (StoreChain.head chain))
          else
            let? verified := map_err record_fault (verify_line bytes line head) in
            if negb (bool_decide (StoreChain.record chain line = Some bytes))
            then Err (StoreAuditFault.Diverged line)
            else compare_loop chain rest line (Verified.hash verified)
      | Chunk.Tail bytes => Ok (records, Some (offset, bytes), head)
      | Chunk.Oversized => Err (record_fault RecordFault.Oversized)
      end
  end.

(** The judgement of the tail. *)
Definition torn_tail (chain : StoreChain.t) (records : N) (tail : option (N * string)) :
    result bool StoreAuditFault.t :=
  match tail with
  | None => Ok false
  | Some (_, bytes) =>
      let next := saturating_add records 1 in
      let expected :=
        if (next <=? StoreChain.head chain)%N then StoreChain.record chain next else None in
      match expected with
      | None => Err StoreAuditFault.ForeignTail
      | Some expected =>
          let expected := expected +:+ String newline "" in
          if (str_len expected <=? str_len bytes)%N || negb (str_starts_with bytes expected)
          then Err StoreAuditFault.ForeignTail
          else Ok true
      end
  end.

Definition compare (file : option string) (chain : StoreChain.t) :
    result Compared.t StoreAuditFault.t :=
  match file with
  | None => Err (StoreAuditFault.Log AuditLogFault.Io)
  | Some contents =>
      let? (records, tail, head) :=
        compare_loop chain (LogReader.chunks (LogReader.open contents)) 0 Sha256Hash.ZERO in
      if (records <? StoreChain.flushed chain)%N
      then Err (StoreAuditFault.Truncated records (StoreChain.flushed chain))
      else
        let? pending_torn_tail := torn_tail chain records tail in
        Ok (Compared.Make
              (StoreComparison.Make records (StoreChain.head chain) (StoreChain.flushed chain)
                 pending_torn_tail)
              tail head)
  end.

(** [verify_audit_against_store], once both files are found; [None] is one
    that cannot be read. *)
Definition verify_audit_against_store (db : option Tables.t) (file : option string) :
    result StoreComparison.t StoreAuditFault.t :=
  match db with
  | None => Err StoreAuditFault.Store
  | Some conn =>
      let? found := compare file (StoreChain.read conn) in Ok (Compared.comparison found)
  end.
End compare.
