(* ===== verification/AuditRecovery.v ===== *)
(** Making the log durable and whole again ([dwkd-authority/src/state/audit.rs]:
    [recover], [AuditWriter::flush_through]; [mod.rs]: [Shared], [transact] and
    the part of [Authority::start] that opens the log). *)

From Stdlib Require Import ZArith.
From S2P Require Export AuditStore.

(** * Recovery *)

Module Recovered.
Record t := Make {
  durable_seq : N; durable_hash : Sha256Hash.t;
  reconciled : N; appended : N; torn_tail_bytes : N
}.
End Recovered.

Module RecoveryError.
Inductive t :=
| Io
| Sqlite (e : SqlError.t)
| Diverged (fault : StoreAuditFault.t).
End RecoveryError.

Section recovery.
  Context `{Sha256} {D : Type}.

Definition io {A} (m : M D unit A) : M D RecoveryError.t A := rethrow (fun _ => RecoveryError.Io) m.

Definition sqlite {A} (m : M D SqlError.t A) : M D RecoveryError.t A :=
  rethrow RecoveryError.Sqlite m.

(** The file as [File::open] and its reads give it. *)
Definition read_log {E} : M D E (option string) := fun w =>
  match file_step w with
  | (Ok _, w) => (Ok (Some (File.contents (World.log w))), w)
  | (Err _, w) => (Ok None, w)
  end.

Definition recovery_error (fault : StoreAuditFault.t) : RecoveryError.t :=
  match fault with
  | StoreAuditFault.Store | StoreAuditFault.Log AuditLogFault.Io => RecoveryError.Io
  | other => RecoveryError.Diverged other
  end.

(** [while seq < chain.head]: the head is [fuel] records past [seq]. *)
Fixpoint append_pending (chain : StoreChain.t) (fuel : nat) (seq : N) (head : Sha256Hash.t)
    (appended : N) : M D RecoveryError.t (N * Sha256Hash.t * N) :=
  match fuel with
  | 0 => ret (seq, head, appended)
  | S fuel =>
      if negb (seq <? StoreChain.head chain)%N then ret (seq, head, appended)
      else
        let next := saturating_add seq 1 in
        let! record := sqlite (query (fun _ => StoreChain.record chain next)) in
        match record with
        | None => throw (RecoveryError.Diverged (StoreAuditFault.Diverged next))
        | Some record =>
            let! verified := lift (map_err
              (fun fault => RecoveryError.Diverged
                 (StoreAuditFault.Log (AuditLogFault.Record_ next fault)))
              (verify_line record next head)) in
            let! _ := io (write_all record) in
            let! _ := io (write_all (String newline "")) in
            append_pending chain fuel next (Verified.hash verified) (saturating_add appended 1)
        end
  end.

(** The partial final record is cut off, and the cut synced. *)
Definition remove_tail (tail : option (N * string)) : M D RecoveryError.t N :=
  match tail with
  | None => ret 0%N
  | Some (offset, bytes) =>
      let! _ := io (set_len offset) in
      let! _ := io sync_all in
      ret (str_len bytes)
  end.

Definition recover : M D RecoveryError.t Recovered.t :=
  let! chain := sqlite (query (fun w => StoreChain.read (World.tables w))) in
  let! file := read_log in
  let! compared := lift (map_err recovery_error (compare file chain)) in
  let comparison := Compared.comparison compared in
  let! _ := io file_step in
  let! torn_tail_bytes := remove_tail (Compared.tail compared) in
  let records := StoreComparison.log_records comparison in
  let! (seq, head, appended) :=
    append_pending chain (N.to_nat (StoreChain.head chain - records)) records
      (Compared.head compared) 0 in
  let! _ := io sync_all in
  match i64_of seq with
  | None => throw RecoveryError.Io
  | Some flushed_seq =>
      let! _ := sqlite (execute (update_state flushed_seq (Sha256Hash.to_hex head))) in
      ret (Recovered.Make seq head
             (saturating_sub records (StoreComparison.store_flushed comparison))
             appended torn_tail_bytes)
  end.

End recovery.

(** * The writer *)

Module FlushFailure.
Inductive t :=
| Io
| Sqlite (e : SqlError.t)
| Stopped (e : AuthorityError.t)
| Diverged.
End FlushFailure.

Section writer.
  Context `{Sha256} {D : Type}.
  Context (crash : CrashPoint.t -> M D AuthorityError.t unit).

Definition crash_at (point : CrashPoint.t) : M D FlushFailure.t unit :=
  rethrow FlushFailure.Stopped (crash point).

Definition flush_io (m : M D unit unit) : M D FlushFailure.t unit :=
  rethrow (fun _ => FlushFailure.Io) m.

(** [line.split_at(line.len() >> 1)]. *)
Definition split_half (line : string) : string * string :=
  let half := (String.length line / 2)%nat in
  (substring 0 half line, substring half (String.length line - half) line).

(** The loop over the pending rows. *)
Fixpoint write_rows (pending : list Row.t) (seq : N) (hash : Sha256Hash.t) :
    M D FlushFailure.t (N * Sha256Hash.t) :=
  match pending with
  | [] => ret (seq, hash)
  | row :: rest =>
      let next := saturating_add seq 1 in
      if negb (bool_decide (u64_of (Row.seq row) = Some next))
         || negb (String.eqb (Row.prev row) (Sha256Hash.to_hex hash))
      then throw FlushFailure.Diverged
      else
        let '(first, second) := split_half (Row.record row +:+ String newline "") in
        let! _ := flush_io (write_all first) in
        let! _ := crash_at CrashPoint.MidAuditRecord in
        let! _ := flush_io (write_all second) in
        match Sha256Hash.from_hex (Row.hash row) with
        | None => throw FlushFailure.Diverged
        | Some hash => write_rows rest next hash
        end
  end.

(** [flush_through] of the writer [self]. *)
Definition flush_through (self : AuditWriter.t) (target : N) : M D FlushFailure.t unit :=
  if (target <=? AuditWriter.durable_seq self)%N then ret ()
  else
    let! _ := crash_at CrashPoint.AfterCommitBeforeAudit in
    match i64_of (AuditWriter.durable_seq self) with
    | None => throw FlushFailure.Diverged
    | Some from =>
        let! pending :=
          rethrow FlushFailure.Sqlite (query (fun w => select_past from (World.tables w))) in
        let! (seq, hash) :=
          write_rows pending (AuditWriter.durable_seq self) (AuditWriter.durable_hash self) in
        if (seq <? target)%N then throw FlushFailure.Diverged
        else
          let! _ := crash_at CrashPoint.AfterAuditWriteBeforeSync in
          let! _ := flush_io sync_all in
          let! _ := modify (fun w => World.with_writer w (Some (AuditWriter.Make seq hash))) in
          let! _ := crash_at CrashPoint.AfterAuditSyncBeforeMark in
          match i64_of seq with
          | None => throw FlushFailure.Diverged
          | Some sql_seq =>
              let! _ := rethrow FlushFailure.Sqlite
                (execute (update_state_past sql_seq (Sha256Hash.to_hex hash))) in
              crash_at CrashPoint.AfterAuditMark
          end
    end.

End writer.

(** * What the handles share *)

Module Shared.
Section shared.
  Context `{Sha256} {D : Type}.

Definition check : M D AuthorityError.t unit := fun w =>
  match World.poisoned w with
  | None => (Ok (), w)
  | Some reason => (Err (AuthorityError.Poisoned reason), w)
  end.

(** The first reason stays; structural damage leaves a marker. *)
Definition poison {A} (reason : PoisonReason.t) : M D AuthorityError.t A := fun w =>
  let first := match World.poisoned w with Some first => first | None => reason end in
  (Err (AuthorityError.Poisoned reason),
   World.with_poison w (Some first) (World.quarantined w || PoisonReason.is_structural reason)).

Definition sql {A} (error : SqlError.t) : M D AuthorityError.t A :=
  match classify error with
  | Class_.Poison reason => poison reason
  | other => throw (to_error other)
  end.

(** A hook may stop the operation at any point. *)
Definition crash (point : CrashPoint.t) : M D AuthorityError.t unit :=
  let! f := fate in
  match f with
  | Goes => ret ()
  | Fails _ _ => poison (PoisonReason.Interrupted point)
  end.

Definition flush (target : N) : M D AuthorityError.t unit :=
  let! _ := check in
  let! writer := gets World.writer in
  match writer with
  | None => throw (AuthorityError.Invariant "the audit writer is not open")
  | Some writer =>
      catch (flush_through crash writer target) (fun failure =>
        match failure with
        | FlushFailure.Stopped error => throw error
        | FlushFailure.Io => poison PoisonReason.AuditIo
        | FlushFailure.Sqlite error => sql error
        | FlushFailure.Diverged => poison PoisonReason.AuditDiverged
        end)
  end.

End shared.
End Shared.

(** ** Transactions *)

(** One transaction's working context: the tables as the transaction has
    changed them. *)
Module Work.

Record t {D : Type} := Make { tx : Tables.t; data : D; now : N; last_seq : option N }.
Arguments t : clear implicits.
Arguments Make {D} _ _ _ _.

Section work.
  Context `{Sha256} {D : Type}.

(** What a body computes: a result and the context, or an error, which rolls
    the transaction back. *)
Definition body (A : Type) : Type := t D -> result (A * t D) AuthorityError.t.

Definition audit (event : AuditEvent.t) (fields : Fields.t) : body unit := fun work =>
  match append (tx work) (now work) event fields with
  | Ok (seq, tables) => Ok ((), Make tables (data work) (now work) (Some seq))
  | Err (AuditAppendError.Sqlite error) => Err (to_error (classify error))
  | Err (AuditAppendError.Authority error) => Err error
  end.

End work.
End Work.

Section transact.
  Context `{Sha256} {D : Type}.

(** [COMMIT]: when it is reported to have failed, it may have happened. *)
Definition commit (tables : Tables.t) (data : D) : M D SqlError.t unit :=
  let! f := fate in
  let committed w := World.with_data (World.with_tables w tables) data in
  match f with
  | Goes => modify committed
  | Fails n code =>
      let! _ := modify (fun w => if (n =? 0)%N then w else committed w) in
      throw code
  end.

(** [transact] up to its commit, at the time [now] the clock gives: the body's
    result and the last record appended.  Any statement of the body may fail:
    the fate of its first stands for it. *)
Definition committed {A} (now : N) (body : Work.body A) : M D AuthorityError.t (A * option N) :=
  let! _ := Shared.check in
  let! _ := Shared.crash CrashPoint.BeforeTransaction in
  let! work := catch (query (fun w => Work.Make (World.tables w) (World.data w) now None))
                 Shared.sql in
  match body work with
  | Err error =>
      match error with
      | AuthorityError.Poisoned reason => Shared.poison reason
      | _ => throw error
      end
  | Ok (result, work) =>
      let! _ := Shared.crash CrashPoint.BeforeCommit in
      let! _ := catch (commit (Work.tx work) (Work.data work)) Shared.sql in
      ret (result, Work.last_seq work)
  end.

(** [transact]. *)
Definition transact {A} (now : N) (body : Work.body A) : M D AuthorityError.t A :=
  let! (result, last_seq) := committed now body in
  let! _ := match last_seq with Some seq => Shared.flush seq | None => ret () end in
  ret result.

End transact.

(** * Opening the log at start *)

Module StartError.
Inductive t := Quarantined | Audit | Io | Corrupt | Sqlite.
End StartError.

Section start.
  Context `{Sha256} {D : Type}.

(** [quarantined(paths, why)]. *)
Definition quarantine {A} (error : StartError.t) : M D StartError.t A :=
  let! _ := modify (fun w => World.with_poison w (World.poisoned w) true) in throw error.

(** [opened]. *)
Definition opened {A} (error : SqlError.t) : M D StartError.t A :=
  match classify error with
  | Class_.Poison PoisonReason.Corrupt | Class_.Poison PoisonReason.NotADatabase =>
      quarantine StartError.Corrupt
  | _ => throw StartError.Sqlite
  end.

(** A process that starts holds nothing of the previous one. *)
Definition start_log : M D StartError.t Recovered.t :=
  let! _ := modify (fun w => World.with_poison (World.with_writer w None) None (World.quarantined w)) in
  let! marker := gets World.quarantined in
  if marker then throw StartError.Quarantined
  else
    let! recovered := catch recover (fun error =>
      match error with
      | RecoveryError.Diverged _ => quarantine StartError.Audit
      | RecoveryError.Io => throw StartError.Io
      | RecoveryError.Sqlite error => opened error
      end) in
    let! _ := rethrow (fun _ => StartError.Io) file_step in
    let! _ := modify (fun w => World.with_writer w (Some
      (AuditWriter.Make (Recovered.durable_seq recovered) (Recovered.durable_hash recovered)))) in
    ret recovered.

End start.
