(* ===== verification/AuditRecordFacts.v ===== *)
(** What a line of the audit log binds: canonical objects as sets of members,
    verified lines, values of fields as JSON, and that what [append] writes
    verifies; and reading the log: every file is complete lines and a rest, and
    reading finds them. *)

From Stdlib Require Import ZArith.
From stdpp Require Import gmap.
From S2P Require Export JsonTheorems AuditRecord.

(** * Canonical objects *)

Lemma NoDup_keys_perm (l k : Object.t) : l ≡ₚ k -> NoDup (Object.keys l) -> NoDup (Object.keys k).
Proof. unfold Object.keys. by intros ->. Qed.

(** The order of members does not show. *)
Lemma write_object_perm l k :
  NoDup (Object.keys l) -> Forall Utf8 (Object.keys l) -> l ≡ₚ k ->
  write_value (Value.Object l) = write_value (Value.Object k).
Proof.
  intros Hnd Hu E. rewrite !write_object. do 4 f_equal.
  apply in_order_unique; try apply sort_members_in_order.
  - by rewrite sort_members_perm.
  - by rewrite sort_members_perm.
  - by rewrite !sort_members_perm.
Qed.

Lemma comma_separated_size l :
  String.length (comma_separated l) = sum_list (map (fun s => S (String.length s)) l) - 1.
Proof.
  induction l as [|x [|y l] IH]; [done|simpl; lia|].
  change (comma_separated (x :: y :: l)) with (x +:+ String "," (comma_separated (y :: l))).
  rewrite str_length_app. cbn [String.length]. rewrite IH. simpl. lia.
Qed.

Lemma member_text_length_pos m : 0 < String.length (member_text m).
Proof. unfold member_text, write_string. simpl. lia. Qed.

(** A member more makes the text longer. *)
Lemma write_object_shorter m l k :
  k ≡ₚ m :: l ->
  String.length (write_value (Value.Object l)) <= String.length (write_value (Value.Object k)).
Proof.
  intros E. rewrite !write_object. cbn [String.length]. rewrite !str_length_app, !comma_separated_size.
  rewrite !map_map. set (f := fun x => S (String.length (member_text x))).
  rewrite (sum_list_perm id (map f (sort_members k)) (map f (m :: l)))
    by (by apply Permutation_map; rewrite sort_members_perm).
  rewrite (sum_list_perm id (map f (sort_members l)) (map f l))
    by (by apply Permutation_map; rewrite sort_members_perm).
  simpl. lia.
Qed.

(** [remove] takes one member out. *)
Lemma remove_Some o key v o' :
  Object.remove o key = Some (v, o') -> Object.get o key = Some v /\ o ≡ₚ (key, v) :: o'.
Proof.
  unfold Object.get. revert o'. induction o as [|[k x] o IH]; intros o'; simpl; [done|].
  destruct (String.eqb_spec k key) as [->|_]; [by intros [= -> ->]|].
  destruct (Object.remove o key) as [[w r]|]; [|done]. cbn [mbind option_bind]. intros [= -> <-].
  destruct (IH r eq_refl) as [-> ->]. split; [done|constructor].
Qed.

Lemma get_remove o key v :
  Object.get o key = Some v -> exists o', Object.remove o key = Some (v, o').
Proof.
  unfold Object.get. induction o as [|[k x] o IH]; simpl; [done|].
  destruct (String.eqb k key); [intros [= ->]; eauto|]. intros E.
  destruct (IH E) as [o' ->]. simpl. eauto.
Qed.

Lemma without_perm o key v :
  Object.get o key = Some v -> o ≡ₚ (key, v) :: without o key.
Proof.
  intros E. unfold without. destruct (get_remove _ _ _ E) as [o' Er]. rewrite Er.
  by apply remove_Some in Er as [_ ->].
Qed.

(** Distinct keys: [get] does not see the order of members. *)
Lemma get_perm l k key : NoDup (Object.keys l) -> l ≡ₚ k -> Object.get l key = Object.get k key.
Proof.
  intros Hnd E. pose proof (NoDup_keys_perm _ _ E Hnd) as Hnd'.
  destruct (Object.get l key) as [v|] eqn:El.
  - symmetry. apply get_member; [done|]. rewrite <- E. by apply get_Some.
  - destruct (Object.get k key) as [v|] eqn:Ek; [|done]. apply get_Some in Ek.
    rewrite <- E in Ek. apply (get_member l) in Ek; [congruence|done].
Qed.

Lemma get_on_value f (o : Object.t) key :
  Object.get (map (on_value f) o) key = f <$> Object.get o key.
Proof.
  unfold Object.get. induction o as [|[k x] o IH]; [done|]. cbn [map on_value List.find fst].
  by destruct (String.eqb k key).
Qed.

(** * Texts in one line *)

Definition printable (a : ascii) : bool := negb (byte_of a <? 32)%N.

Lemma write_char_printable a : str_all printable (write_char a) = true.
Proof. revert a. apply ascii_forall. by vm_compute. Qed.

Lemma write_string_printable s : str_all printable (write_string s) = true.
Proof.
  unfold write_string. cbn [str_all]. rewrite str_all_app, andb_true_r. simpl.
  induction s as [|a s IH]; [done|]. simpl. by rewrite str_all_app, write_char_printable.
Qed.

Lemma comma_separated_printable l :
  Forall (fun s => str_all printable s = true) l -> str_all printable (comma_separated l) = true.
Proof.
  induction 1 as [|x [|y l] Hx _ IH]; [done|done|].
  change (comma_separated (x :: y :: l)) with (x +:+ String "," (comma_separated (y :: l))).
  rewrite str_all_app, Hx. exact IH.
Qed.

Lemma show_Z_printable i : str_all printable (show_Z i) = true.
Proof.
  assert (forall n, str_all printable (show_N n) = true) as Hn.
  { intros n. apply (str_all_impl is_digit); [|apply show_N_digits].
    intros a Ha. apply is_digit_spec in Ha. unfold printable. apply negb_true_iff, N.ltb_ge. lia. }
  unfold show_Z. destruct i; simpl; rewrite ?Hn; done.
Qed.

(** Values of the protocol's profile. *)
Definition value_dwkp : Value.t -> Prop := value_ok (number_in ParseOptions.dwkp).

Lemma write_value_printable v : value_dwkp v -> str_all printable (write_value v) = true.
Proof.
  induction v as [|[]|x|s|items IH|members IH] using Value.value_ind; intros Hv; try done.
  - inversion Hv as [| |? Hx| | |]; subst. destruct Hx as [_ Hx]. specialize (Hx eq_refl).
    destruct x; [|done]. apply show_Z_printable.
  - apply write_string_printable.
  - inversion Hv as [| | | |? Hi|]; subst. cbn [write_value str_all]. rewrite str_all_app.
    cbn [str_all]. rewrite comma_separated_printable; [done|].
    rewrite Forall_forall in IH, Hi. apply Forall_forall.
    intros s (x & -> & Hx)%list_elem_of_fmap. apply IH; [done|by apply Hi].
  - inversion Hv as [| | | | |? Hnd Hu Hi]; subst. rewrite write_object. cbn [str_all].
    rewrite str_all_app. cbn [str_all]. rewrite comma_separated_printable; [done|].
    rewrite Forall_forall in IH. rewrite Forall_forall in Hi.
    apply Forall_forall. intros s (m & -> & Hm)%list_elem_of_fmap.
    rewrite sort_members_perm in Hm. unfold member_text.
    rewrite str_all_app, write_string_printable. simpl. apply IH; [done|].
    apply Hi. by apply list_elem_of_fmap_2.
Qed.

(** * Numbers *)

Lemma safe_integer_Ok n x :
  safe_integer n = Ok x <-> (n <= MAX_SAFE_INTEGER)%N /\ x = Number.Int (Z.of_N n).
Proof.
  unfold safe_integer, invariant, i64_of, I64_MAX. destruct (N.ltb_spec MAX_SAFE_INTEGER n) as [Hn|Hn].
  - split; [done|]. intros [? _]. lia.
  - unfold MAX_SAFE_INTEGER in Hn. rewrite (proj2 (Z.leb_le (Z.of_N n) _)) by lia.
    cbn [mbind option_bind]. unfold Number.from_i64, WireLimits.MAX_SAFE_INTEGER.
    rewrite (proj2 (Z.leb_le (Z.abs (Z.of_N n)) _)) by lia. cbn [ok_or].
    split; [intros [= <-]; done|intros [_ ->]; done].
Qed.

Lemma safe_integer_dwkp n x : safe_integer n = Ok x -> number_in ParseOptions.dwkp x.
Proof.
  intros [Hn ->]%safe_integer_Ok. split; [|done]. unfold MAX_SAFE_INTEGER in Hn.
  apply Z.leb_le. unfold WireLimits.MAX_SAFE_INTEGER. lia.
Qed.

Lemma uint_Int o key n x :
  Object.get o key = Some (Value.Number x) -> safe_integer n = Ok x -> uint o key = Ok n.
Proof.
  intros Hg [_ ->]%safe_integer_Ok. unfold uint. rewrite Hg. unfold u64_of.
  rewrite (proj2 (Z.ltb_ge (Z.of_N n) 0)) by lia. cbn [ok_or]. by rewrite N2Z.id.
Qed.

Lemma hash_field_String o key h :
  Object.get o key = Some (Value.String (Sha256Hash.to_hex h)) -> Sha256Hash.wf h ->
  hash_field o key = Ok h.
Proof. intros Hg Hw. unfold hash_field. by rewrite Hg, Sha256Hash.from_hex_to_hex. Qed.

Lemma hash_field_Ok o key h :
  hash_field o key = Ok h ->
  Sha256Hash.wf h /\ Object.get o key = Some (Value.String (Sha256Hash.to_hex h)).
Proof.
  unfold hash_field. destruct (Object.get o key) as [[| | |s| |]|]; try done.
  intros E%ok_or_Ok. by apply Sha256Hash.from_hex_Some in E as [Hw <-].
Qed.

(** * Verified lines *)

Section lines.
  Context `{Sha256}.

(** A record's object, signed over the rest of it. *)
Definition signed_object (object : Object.t) (seq : N) (prev hash : Sha256Hash.t) : Prop :=
  uint object "v" = Ok AUDIT_FORMAT_VERSION /\ uint object "seq" = Ok seq /\
  hash_field object "prev" = Ok prev /\ (exists ts_ms, uint object "ts_ms" = Ok ts_ms) /\
  is_string (Object.get object "event") = true /\ hash_field object "hash" = Ok hash /\
  chain_hash prev (to_canonical_bytes (Value.Object (without object "hash"))) = hash.

(** What [verify_line] accepts. *)
Lemma verify_line_Ok line seq prev v :
  verify_line line seq prev = Ok v <->
  (str_len line <= MAX_RECORD_BYTES)%N /\ Verified.seq v = seq /\
  exists object, parse line ParseOptions.dwkp = Ok (Value.Object object) /\
    to_canonical_bytes (Value.Object object) = line /\ signed_object object seq prev (Verified.hash v).
Proof.
  unfold verify_line, signed_object. split.
  - destruct (N.ltb_spec MAX_RECORD_BYTES (str_len line)) as [|Hl]; [done|]. intros Hv. split; [done|].
    destruct (parse line ParseOptions.dwkp) as [[| | | | |object]|]; try done.
    destruct (String.eqb_spec (to_canonical_bytes (Value.Object object)) line); [|done].
    cbn [negb] in Hv. destruct (uint object "v") as [version|] eqn:?; [|done].
    destruct (N.eqb_spec version AUDIT_FORMAT_VERSION) as [->|]; [|done]. cbn [negb] in Hv.
    destruct (uint object "seq") as [n|] eqn:?; [|done].
    destruct (N.eqb_spec n seq) as [->|]; [|done]. cbn [negb] in Hv.
    destruct (hash_field object "prev") as [p|] eqn:?; [|done].
    destruct (bool_decide_reflect (p = prev)) as [->|]; [|done]. cbn [negb] in Hv.
    destruct (uint object "ts_ms") eqn:?; [|done].
    destruct (is_string _) eqn:?; [|done]. cbn [negb] in Hv.
    destruct (hash_field object "hash") as [h|] eqn:?; [|done].
    destruct (bool_decide_reflect (chain_hash prev (to_canonical_bytes
      (Value.Object (without object "hash"))) = h)) as [Hh|]; [|done]. cbn [negb] in Hv.
    injection Hv as <-. split; [done|]. exists object. by eauto 10.
  - intros (Hl & Hs & object & -> & Hc & Hv & Hseq & Hprev & [ts Hts] & He & Hh & Hr).
    apply N.ltb_ge in Hl as ->. rewrite Hc, String.eqb_refl, Hv, Hseq, Hprev, Hts, He, Hh. cbn [negb].
    rewrite !N.eqb_refl, !bool_decide_true by done. destruct v; cbn in *. by subst.
Qed.

(** The bytes a chain hash is taken of. *)
Definition framed (p : Sha256Hash.t) (c : string) : string :=
  AUDIT_RECORD +:+ String "000" (u64_be (u64_len (Sha256Hash.as_bytes p))
    +:+ Sha256Hash.as_bytes p +:+ u64_be (u64_len c) +:+ c).

Lemma chain_hash_framed p c : chain_hash p c = Sha256Hash.Make (sha256 (framed p c)).
Proof.
  unfold chain_hash, DomainHash.finish, framed, DomainHash.bytes, DomainHash.new.
  cbn [DomainHash.fed]. generalize AUDIT_RECORD. intros d. rewrite !string_app_assoc. done.
Qed.

Lemma framed_inj p c p' c' :
  Sha256Hash.wf p -> Sha256Hash.wf p' -> sized c -> sized c' ->
  framed p c = framed p' c' -> p = p' /\ c = c'.
Proof.
  intros Hp Hp' Hc Hc'. unfold framed. intros [_ E]%domain_inj; [|by vm_compute..].
  assert (forall q : Sha256Hash.t, Sha256Hash.wf q -> sized (Sha256Hash.as_bytes q)) as Hsized.
  { intros q Hq. unfold sized, U64_MAX, Sha256Hash.wf in *. rewrite Hq. lia. }
  apply bytes_frame_inj in E as [E1 E]; [|by apply Hsized..].
  destruct (bytes_frame_inj c c' "" "") as [Ec _]; [done|done|by rewrite !string_app_nil_r|].
  destruct p, p'; cbn in *; split; congruence.
Qed.

(** A chain hash binds its predecessor and its bytes. *)
Lemma chain_hash_binds p c p' c' :
  Sha256Hash.wf p -> Sha256Hash.wf p' -> sized c -> sized c' ->
  chain_hash p c = chain_hash p' c' -> collision \/ (p = p' /\ c = c').
Proof.
  intros Hp Hp' Hc Hc'. rewrite !chain_hash_framed. intros [= E].
  destruct (String.eqb_spec (framed p c) (framed p' c')) as [Ef|];
    [right; by apply framed_inj|left; red; eauto].
Qed.

(** The object of a record without its hash, for one that parses. *)
Lemma without_hash_carried object :
  carried ParseOptions.dwkp (Value.Object object) -> is_Some (Object.get object "hash") ->
  carried ParseOptions.dwkp (Value.Object (without object "hash")) /\
  Object.keys object ≡ₚ "hash"%string :: Object.keys (without object "hash").
Proof.
  intros [Hok Hh] [v Hv]. pose proof (without_perm _ _ _ Hv) as E.
  generalize dependent (without object "hash"). intros w E.
  assert (Object.keys object ≡ₚ "hash"%string :: Object.keys w) as Ek.
  { exact (fmap_Permutation fst _ _ E). }
  inversion Hok as [| | | | |? Hnd Hu Hi]; subst. split; [|done]. split.
  - rewrite Ek in Hnd, Hu. rewrite E in Hi. apply NoDup_cons in Hnd as [_ Hnd].
    apply Forall_cons in Hu as [_ Hu]. apply Forall_cons in Hi as [_ Hi]. by constructor.
  - cbn [height] in *. set (f := fun m h => _) in *.
    assert (forall l k : Object.t, l ≡ₚ k -> fold_right f 0 l = fold_right f 0 k) as Hf.
    { induction 1; simpl; unfold f in *; lia. }
    rewrite (Hf _ _ E) in Hh. simpl in Hh. unfold f at 1 in Hh. lia.
Qed.

(** The canonical text of the rest, with the hash, is the line's. *)
Lemma write_with_hash object object' :
  carried ParseOptions.dwkp (Value.Object object) ->
  carried ParseOptions.dwkp (Value.Object object') ->
  is_Some (Object.get object "hash") -> Object.get object "hash" = Object.get object' "hash" ->
  to_canonical_bytes (Value.Object (without object "hash"))
    = to_canonical_bytes (Value.Object (without object' "hash")) ->
  to_canonical_bytes (Value.Object object) = to_canonical_bytes (Value.Object object').
Proof.
  intros Hc Hc' Hs Eh E.
  destruct (without_hash_carried object Hc Hs) as [Hw Ek].
  destruct (without_hash_carried object' Hc') as [Hw' Ek']; [by rewrite <- Eh|].
  pose proof (parse_canonical _ _ Hw) as P. pose proof (parse_canonical _ _ Hw') as P'.
  rewrite E, P', !canonical_object in P. injection P as P.
  destruct Hs as [v Hv]. pose proof (without_perm _ _ _ Hv) as Ho.
  rewrite Eh in Hv. pose proof (without_perm _ _ _ Hv) as Ho'.
  unfold to_canonical_bytes. rewrite <- (write_canonical (Value.Object object)),
    <- (write_canonical (Value.Object object')), !canonical_object. do 2 f_equal.
  destruct Hc as [Hok _]. inversion Hok as [| | | | |? Hnd Hu _]; subst.
  apply in_order_unique; try apply sort_members_in_order.
  - by rewrite sort_members_perm, on_value_keys.
  - by rewrite sort_members_perm, on_value_keys.
  - rewrite !sort_members_perm, (Permutation_map (on_value canonical) Ho),
      (Permutation_map (on_value canonical) Ho'). cbn [map]. constructor.
    by rewrite <- (sort_members_perm (map _ (without object "hash"))), <- P, sort_members_perm.
Qed.

(** Verified lines with one hash are one line in one place, or two inputs
    collide. *)
Lemma verified_line_binds line seq prev v line' seq' prev' v' :
  verify_line line seq prev = Ok v -> verify_line line' seq' prev' = Ok v' ->
  Verified.hash v = Verified.hash v' ->
  collision \/ (line = line' /\ seq = seq' /\ prev = prev').
Proof.
  intros (Hl & _ & o & Po & Wo & _ & Hseq & Hp & _ & _ & Hh & Hr)%verify_line_Ok
    (Hl' & _ & o' & Po' & Wo' & _ & Hseq' & Hp' & _ & _ & Hh' & Hr')%verify_line_Ok E.
  apply hash_field_Ok in Hh as [_ Hg], Hh' as [_ Hg'], Hp as [Hp _], Hp' as [Hp' _].
  rewrite <- E in Hg', Hr'. rewrite <- Hr' in Hr.
  assert (forall o line, to_canonical_bytes (Value.Object o) = line ->
    (str_len line <= MAX_RECORD_BYTES)%N -> is_Some (Object.get o "hash") ->
    sized (to_canonical_bytes (Value.Object (without o "hash")))) as Hsized.
  { clear. intros o line <- Hl [v Hv%without_perm].
    pose proof (write_object_shorter _ _ _ Hv) as Hs.
    unfold sized, str_len, MAX_RECORD_BYTES, U64_MAX, to_canonical_bytes in *. lia. }
  apply chain_hash_binds in Hr as [|[-> Ec]]; [by left|right|done|done|eauto..].
  assert (line = line') as <-.
  { rewrite <- Wo, <- Wo'. apply write_with_hash.
    - by apply (parse_carried line).
    - by apply (parse_carried line').
    - by rewrite Hg.
    - congruence.
    - done. }
  rewrite Po in Po'. injection Po' as ->. rewrite Hseq in Hseq'. by injection Hseq' as ->.
Qed.

(** ** What a verified line is made of *)

Lemma verified_line_wf line seq prev v :
  verify_line line seq prev = Ok v ->
  Sha256Hash.wf (Verified.hash v) /\ Verified.seq v = seq /\ (seq <= MAX_SAFE_INTEGER)%N /\
  (str_len line <= MAX_RECORD_BYTES)%N /\ str_all printable line = true.
Proof.
  intros (Hl & Hs & o & Po & <- & _ & Hseq & _ & _ & _ & Hh & _)%verify_line_Ok.
  apply parse_carried in Po as [Hok _]. split_and!; try done.
  - by apply hash_field_Ok in Hh as [? _].
  - unfold uint in Hseq. destruct (Object.get o "seq") as [[| |[i|]| | |]|] eqn:Eg; try done.
    apply ok_or_Ok in Hseq. unfold u64_of in Hseq. destruct (Z.ltb_spec i 0); [done|].
    injection Hseq as <-. apply get_Some in Eg. inversion Hok as [| | | | |? _ _ Hi]; subst.
    rewrite Forall_forall in Hi. apply (list_elem_of_fmap_2 snd) in Eg. specialize (Hi _ Eg).
    inversion Hi as [| |? [Hn _]| | |]; subst. apply Z.leb_le in Hn.
    unfold WireLimits.MAX_SAFE_INTEGER, MAX_SAFE_INTEGER in *. lia.
  - by apply write_value_printable.
Qed.

End lines.

Lemma fold_max_le {A} (h : A -> nat) (l : list A) n :
  Forall (fun x => h x <= n) l <-> fold_right (fun x m => Nat.max (h x) m) 0 l <= n.
Proof.
  induction l as [|x l IH]; simpl; [by split; [lia|constructor]|].
  rewrite Forall_cons, IH. lia.
Qed.

(** * Values of fields *)

(** A value of the profile, no deeper than its field. *)
Definition fits (n : nat) (v : Value.t) : Prop := value_dwkp v /\ height v <= n.

Lemma insert_Ok object key value object' :
  insert object key value = Ok object' <->
  (key ∉ Object.keys object) /\ object' = object ++ [(key, value)].
Proof.
  unfold insert, Object.insert, Object.keys. rewrite map_err_Ok.
  destruct (existsb _ object) eqn:E.
  - split; [done|]. intros [Hk _]. exfalso. apply Hk.
    apply existsb_exists in E as (m & Hin%list_elem_of_In & <-%String.eqb_eq).
    by apply (list_elem_of_fmap_2 fst) in Hin.
  - split; [intros [= <-]; split; [|done]|by intros [_ ->]].
    intros (m & -> & Hin%list_elem_of_In)%list_elem_of_fmap.
    assert (existsb (fun m' => String.eqb m'.1 m.1) object = true); [|congruence].
    apply existsb_exists. exists m. split; [done|]. by apply String.eqb_eq.
Qed.

(** A loop of inserts adds members with new keys. *)
Definition adds (keys : list string) (P : Value.t -> Prop) (object object' : Object.t) : Prop :=
  exists members, object' = object ++ members /\ Object.keys members = keys /\
    Forall P members.*2 /\ (NoDup (Object.keys object) -> NoDup (Object.keys object')).

Lemma adds_nil P object : adds [] P object object.
Proof. exists []. rewrite app_nil_r. by split_and!; [..|constructor|]. Qed.

Lemma adds_cons k ks P object object' object'' v :
  insert object k v = Ok object' -> P v -> adds ks P object' object'' ->
  adds (k :: ks) P object object''.
Proof.
  intros [Hk ->]%insert_Ok Hv (members & -> & <- & Hm & Hnd).
  exists ((k, v) :: members). rewrite <- app_assoc in *. split_and!; [done..|by constructor|].
  intros Hobj. apply Hnd. unfold Object.keys in *. rewrite fmap_app. apply NoDup_app.
  split_and!; [done| |apply NoDup_singleton].
  intros x Hx ->%list_elem_of_singleton. done.
Qed.

Lemma insert_all_adds {A} (fv : A -> result Value.t AuthorityError.t) P members object object' :
  Forall (fun x => forall v, fv x = Ok v -> P v) members.*2 ->
  insert_all fv members object = Ok object' -> adds members.*1 P object object'.
Proof.
  revert object. induction members as [|[k x] members IH]; intros object; cbn [insert_all].
  - intros _ [= <-]. apply adds_nil.
  - intros [Hx Hm]%Forall_cons. destruct (fv x) as [v|] eqn:Ev; [|done].
    destruct (insert object k v) as [o|] eqn:Eo; [|done]. intros Hall.
    eapply adds_cons; [done|by apply Hx|]. by apply IH.
Qed.

Lemma fits_array items n :
  Forall (fits n) items -> fits (S n) (Value.Array items).
Proof.
  intros Hi. split.
  - constructor. apply (Forall_impl _ _ _ Hi). by intros v [? _].
  - cbn [height]. apply le_n_S, fold_max_le. apply (Forall_impl _ _ _ Hi). by intros v [_ ?].
Qed.

Lemma fits_object members n :
  NoDup (Object.keys members) -> Forall Utf8 (Object.keys members) ->
  Forall (fits n) members.*2 -> fits (S n) (Value.Object members).
Proof.
  intros Hnd Hu Hi. split.
  - constructor; [done|done|]. apply (Forall_impl _ _ _ Hi). by intros v [? _].
  - cbn [height]. apply le_n_S, (fold_max_le (fun m : string * Value.t => height m.2)).
    apply (Forall_fmap snd) in Hi. apply (Forall_impl _ _ _ Hi). by intros m [_ ?].
Qed.

Lemma fits_scalar v n : value_dwkp v -> height v = 0 -> fits n v.
Proof. intros Hv Hh. split; [done|lia]. Qed.

Lemma field_value_fits f v n :
  Field.field_ok f -> Field.height f <= n -> field_value f = Ok v -> fits n v.
Proof.
  revert v n. induction f as [s|i|b|items IH|members IH] using Field.field_ind; intros v n Hok Hn;
    cbn [field_value].
  - intros [= <-]. inversion Hok; subst. apply fits_scalar; [by constructor|done].
  - destruct (safe_integer i) as [x|] eqn:E; [|done]. intros [= <-].
    apply fits_scalar; [|done]. constructor. by apply safe_integer_dwkp in E.
  - intros [= <-]. apply fits_scalar; [constructor|done].
  - destruct (collect (map field_value items)) as [vs|] eqn:E; [|done]. intros [= <-].
    apply collect_Ok in E. inversion Hok as [| | |? Hi|]; subst.
    destruct n as [|n]; cbn [Field.height] in Hn; [lia|]. apply le_S_n, fold_max_le in Hn.
    apply fits_array. clear Hok. revert vs E.
    induction items as [|x items IHi]; intros [|y vs]; try done. intros [= Ex E].
    apply Forall_cons in IH as [Hx IH], Hi as [Hxo Hi], Hn as [Hxn Hn].
    constructor; [by apply Hx|by apply IHi].
  - destruct (insert_all field_value members Object.new) as [o|] eqn:E; [|done]. intros [= <-].
    inversion Hok as [| | | |? Hu Hi]; subst.
    destruct n as [|n]; cbn [Field.height] in Hn; [lia|].
    apply le_S_n, (fold_max_le (fun m : string * Field.t => Field.height m.2)) in Hn.
    apply (insert_all_adds _ (fits n)) in E as (ms & -> & Ek & Hm & Hnd).
    + cbn [app Object.new] in *. apply fits_object; [by apply Hnd; constructor|by rewrite Ek|done].
    + rewrite Forall_fmap. rewrite Forall_forall in IH, Hi. rewrite Forall_forall in Hn.
      apply Forall_forall. intros m Hm v Hv. pose proof (list_elem_of_fmap_2 snd _ _ Hm) as Hm2.
      apply (IH _ Hm2); [by apply Hi|by apply Hn|done].
Qed.

(** * Events *)

(** What holds of every event the code emits: its strings are UTF-8, and it
    nests within what the parser reads. *)
Definition fields_ok (fields : Fields.t) : Prop :=
  Forall Utf8 fields.*1 /\ Forall Field.field_ok fields.*2 /\
  Forall (fun f => S (Field.height f) <= WireLimits.MAX_DEPTH) fields.*2.

Lemma insert_fields_adds fields object object' :
  fields_ok fields -> insert_fields fields object = Ok object' ->
  adds fields.*1 (fits (WireLimits.MAX_DEPTH - 1)) object object' /\
  Forall (fun k => k ∉ RESERVED_KEYS) fields.*1.
Proof.
  revert object. induction fields as [|[k f] fields IH]; intros object (Hu & Hok & Hh); cbn [insert_fields].
  - intros [= <-]. split; [apply adds_nil|constructor].
  - apply Forall_cons in Hu as [Huk Hu], Hok as [Hf Hok], Hh as [Hhf Hh]. cbn [snd] in *.
    destruct (bool_decide_reflect (k ∈ RESERVED_KEYS)) as [|Hk]; [done|].
    destruct (field_value f) as [v|] eqn:Ev; [|done].
    destruct (insert object k v) as [o|] eqn:Eo; [|done]. intros E.
    destruct (IH o (conj Hu (conj Hok Hh)) E) as [Ha Hr]. split; [|by constructor].
    eapply adds_cons; [done| |done]. eapply field_value_fits; [done| |done]. lia.
Qed.

(** * Records *)

(** What an unsigned record starts with. *)
Definition envelope (seq : N) (prev : Sha256Hash.t) (ts_ms : N) (event : AuditEvent.t) : Object.t :=
  [("v", Value.Number (Number.Int 1)); ("seq", Value.Number (Number.Int (Z.of_N seq)));
   ("prev", Value.String (Sha256Hash.to_hex prev));
   ("ts_ms", Value.Number (Number.Int (Z.of_N ts_ms)));
   ("event", Value.String (AuditEvent.as_str event))].

Lemma unsigned_record_Ok seq prev ts_ms event fields object :
  unsigned_record seq prev ts_ms event fields = Ok object ->
  (seq <= MAX_SAFE_INTEGER)%N /\ (ts_ms <= MAX_SAFE_INTEGER)%N /\
  insert_fields fields (envelope seq prev ts_ms event) = Ok object.
Proof.
  unfold unsigned_record. destruct (safe_integer AUDIT_FORMAT_VERSION) as [v|] eqn:Ev; [|done].
  apply safe_integer_Ok in Ev as [_ ->]. cbn [insert Object.insert existsb map_err].
  destruct (safe_integer seq) as [s|] eqn:Es; [|done]. apply safe_integer_Ok in Es as [Hs ->].
  destruct (safe_integer ts_ms) as [t|] eqn:Et.
  - apply safe_integer_Ok in Et as [Ht ->]. intros E. split_and!; [done..|]. exact E.
  - done.
Qed.

Lemma get_app_l (o o' : Object.t) key v :
  Object.get o key = Some v -> Object.get (o ++ o') key = Some v.
Proof.
  unfold Object.get. induction o as [|[k x] o IH]; [done|]. cbn [app List.find fst].
  by destruct (String.eqb k key).
Qed.

Lemma hex_ascii bytes : str_all is_ascii (Sha256Hash.hex bytes) = true.
Proof.
  induction bytes as [|b r IH]; [done|]. cbn [Sha256Hash.hex str_all]. rewrite IH, andb_true_r.
  revert b. apply ascii_forall. by vm_compute.
Qed.

Lemma to_hex_Utf8 h : Utf8 (Sha256Hash.to_hex h).
Proof. apply Utf8_all_ascii, hex_ascii. Qed.

Lemma event_Utf8 event : Utf8 (AuditEvent.as_str event).
Proof. apply Utf8_all_ascii. by destruct event. Qed.

Lemma envelope_fits seq prev ts_ms event :
  (seq <= MAX_SAFE_INTEGER)%N -> (ts_ms <= MAX_SAFE_INTEGER)%N ->
  Forall (fits (WireLimits.MAX_DEPTH - 1)) (envelope seq prev ts_ms event).*2.
Proof.
  intros Hs Ht.
  assert (forall n, (n <= MAX_SAFE_INTEGER)%N ->
    value_dwkp (Value.Number (Number.Int (Z.of_N n)))) as Hn.
  { intros n Hn. constructor. apply (safe_integer_dwkp n). by apply safe_integer_Ok. }
  repeat apply List.Forall_cons; [..|apply List.Forall_nil]; (apply fits_scalar; [|done]).
  - by apply (Hn 1%N).
  - by apply Hn.
  - constructor. apply to_hex_Utf8.
  - by apply Hn.
  - constructor. apply event_Utf8.
Qed.

(** A record [unsigned_record] builds is one the parser can carry. *)
Lemma unsigned_record_carried seq prev ts_ms event fields object :
  fields_ok fields -> unsigned_record seq prev ts_ms event fields = Ok object ->
  NoDup (Object.keys object) /\ Forall Utf8 (Object.keys object) /\
  Forall (fits (WireLimits.MAX_DEPTH - 1)) object.*2 /\ ("hash"%string ∉ Object.keys object) /\
  exists members, object = envelope seq prev ts_ms event ++ members.
Proof.
  intros Hf (Hs & Ht & E)%unsigned_record_Ok.
  apply insert_fields_adds in E as [(ms & -> & Ek & Hm & Hnd) Hr]; [|done].
  assert (Object.keys (envelope seq prev ts_ms event ++ ms)
    = ["v"; "seq"; "prev"; "ts_ms"; "event"]%string ++ fields.*1) as Hkeys.
  { unfold Object.keys in *. by rewrite fmap_app, Ek. }
  split_and!.
  - apply Hnd. unfold Object.keys. simpl. apply (bool_decide_unpack _). by vm_compute.
  - rewrite Hkeys. apply Forall_app. split; [|apply Hf].
    repeat (apply List.Forall_cons; [by apply Utf8_all_ascii|]). apply List.Forall_nil.
  - rewrite fmap_app. apply Forall_app. split; [by apply envelope_fits|done].
  - rewrite Hkeys, elem_of_app. intros [Hin|Hin].
    + revert Hin. apply (bool_decide_unpack _). by vm_compute.
    + rewrite Forall_forall in Hr. apply (Hr _ Hin). apply (bool_decide_unpack _). by vm_compute.
  - by exists ms.
Qed.

(** ** A record with its hash *)

Section record.
  Context (object : Object.t) (h : Sha256Hash.t)
    (Hnd : NoDup (Object.keys object)) (Hu : Forall Utf8 (Object.keys object))
    (Hfit : Forall (fits (WireLimits.MAX_DEPTH - 1)) object.*2)
    (Hh : "hash"%string ∉ Object.keys object).

Let hash_value : Value.t := Value.String (Sha256Hash.to_hex h).

Let record : Object.t := object ++ [("hash"%string, hash_value)].

Lemma record_keys : Object.keys record = Object.keys object ++ ["hash"%string].
Proof using. clear. unfold record, Object.keys. by rewrite fmap_app. Qed.

Lemma record_keys_NoDup : NoDup (Object.keys record).
Proof using Hnd Hh.
  rewrite record_keys. apply NoDup_app. split_and!; [done| |apply NoDup_singleton].
  intros x Hx ->%list_elem_of_singleton. done.
Qed.

Lemma record_carried : carried ParseOptions.dwkp (Value.Object record).
Proof using Hnd Hu Hfit Hh.
  apply (fits_object record (WireLimits.MAX_DEPTH - 1)); [apply record_keys_NoDup| |].
  - rewrite record_keys. apply Forall_app. split; [done|].
    apply List.Forall_cons; [by apply Utf8_all_ascii|apply List.Forall_nil].
  - unfold record. rewrite fmap_app. apply Forall_app. split; [done|].
    apply List.Forall_cons; [|apply List.Forall_nil]. apply fits_scalar; [|done].
    constructor. apply to_hex_Utf8.
Qed.

(** The object the line parses to. *)
Definition parsed_record : Object.t := sort_members (map (on_value canonical) record).

Lemma parse_record :
  parse (to_canonical_bytes (Value.Object record)) ParseOptions.dwkp
    = Ok (Value.Object parsed_record) /\
  to_canonical_bytes (Value.Object parsed_record) = to_canonical_bytes (Value.Object record).
Proof using Hnd Hu Hfit Hh.
  split; [|exact (write_canonical (Value.Object record))].
  rewrite (parse_canonical _ _ record_carried). by rewrite canonical_object.
Qed.

Lemma parsed_record_NoDup : NoDup (Object.keys parsed_record).
Proof using Hnd Hh.
  apply (NoDup_keys_perm (map (on_value canonical) record)).
  - unfold parsed_record. by rewrite sort_members_perm.
  - unfold Object.keys. rewrite on_value_keys. apply record_keys_NoDup.
Qed.

Lemma parsed_record_get key :
  Object.get parsed_record key = canonical <$> Object.get record key.
Proof using Hnd Hh.
  rewrite <- get_on_value. apply get_perm; [apply parsed_record_NoDup|].
  apply sort_members_perm.
Qed.

Lemma parsed_record_hash : Object.get parsed_record "hash" = Some hash_value.
Proof using Hnd Hh.
  rewrite parsed_record_get, (get_member record "hash" hash_value); [done|apply record_keys_NoDup|].
  apply elem_of_app. right. apply elem_of_here.
Qed.

(** Without the hash it is the record that was signed. *)
Lemma parsed_record_without :
  to_canonical_bytes (Value.Object (without parsed_record "hash"))
  = to_canonical_bytes (Value.Object object).
Proof using Hnd Hu Hh.
  pose proof (without_perm _ _ _ parsed_record_hash) as Hw.
  unfold to_canonical_bytes. rewrite <- (write_canonical (Value.Object object)), canonical_object.
  symmetry. apply write_object_perm.
  - unfold Object.keys. by rewrite sort_members_perm, on_value_keys.
  - unfold Object.keys. by rewrite sort_members_perm, on_value_keys.
  - rewrite sort_members_perm. apply (Permutation_cons_inv (a := ("hash"%string, hash_value))).
    rewrite <- Hw. unfold parsed_record. rewrite sort_members_perm. unfold record.
    rewrite map_app. simpl. by rewrite Permutation_app_comm.
Qed.
End record.

Section signed.
  Context `{Sha256}.

(** [append]'s line verifies in its place, under its hash. *)
Lemma signed_record_verifies seq prev ts_ms event fields hash line :
  fields_ok fields -> Sha256Hash.wf prev ->
  signed_record seq prev ts_ms event fields = Ok (hash, line) ->
  verify_line line seq prev = Ok (Verified.Make seq hash).
Proof.
  intros Hf Hp. unfold signed_record.
  destruct (unsigned_record seq prev ts_ms event fields) as [object|] eqn:Eu; [|done].
  pose proof (unsigned_record_Ok _ _ _ _ _ _ Eu) as (Hs & Ht & _).
  apply unsigned_record_carried in Eu as (Hnd & Hu & Hfit & Hh & ms & Eo); [|done].
  set (h := chain_hash prev _). rewrite (proj2 (insert_Ok object "hash" _ _) (conj Hh eq_refl)).
  destruct (N.ltb_spec MAX_RECORD_BYTES (str_len (to_canonical_bytes (Value.Object
    (object ++ [("hash"%string, Value.String (Sha256Hash.to_hex h))]))))) as [|Hl]; [done|].
  intros [= <- <-]. destruct (parse_record object h Hnd Hu Hfit Hh) as [Hparse Hwrite].
  apply verify_line_Ok. split; [done|]. split; [done|]. exists (parsed_record object h).
  split; [done|]. split; [done|].
  assert (forall key v, Object.get (envelope seq prev ts_ms event) key = Some v ->
    Object.get (parsed_record object h) key = Some (canonical v)) as Henv.
  { intros key v Hv. rewrite parsed_record_get by done. rewrite Eo at 1.
    by rewrite (get_app_l _ _ _ v) by (by apply get_app_l). }
  assert (forall key n, Object.get (envelope seq prev ts_ms event) key
      = Some (Value.Number (Number.Int (Z.of_N n))) -> (n <= MAX_SAFE_INTEGER)%N ->
    uint (parsed_record object h) key = Ok n) as Huint.
  { intros key n Hg%Henv Hn. by apply (uint_Int _ _ n _ Hg), safe_integer_Ok. }
  split_and!.
  - by apply Huint.
  - by apply Huint.
  - apply hash_field_String; [by apply (Henv "prev"%string _ eq_refl)|done].
  - exists ts_ms. by apply Huint.
  - by rewrite (Henv "event"%string _ eq_refl).
  - apply hash_field_String; [by apply parsed_record_hash|apply finish_wf].
  - by rewrite parsed_record_without.
Qed.
End signed.

(** * Lines *)

Definition line_ok (l : string) : Prop :=
  str_contains newline l = false /\ (str_len l <= MAX_RECORD_BYTES)%N.

(** Lines as the file holds them. *)
Fixpoint render (lines : list string) : string :=
  match lines with
  | [] => ""
  | l :: r => l +:+ String newline (render r)
  end.

Lemma render_app l k : render (l ++ k) = render l +:+ render k.
Proof. induction l as [|x l IH]; simpl; [done|]. by rewrite IH, string_app_assoc. Qed.

Lemma str_len_app s t : str_len (s +:+ t) = (str_len s + str_len t)%N.
Proof. unfold str_len. rewrite str_length_app. lia. Qed.

Lemma str_len_String a s : str_len (String a s) = (str_len s + 1)%N.
Proof. unfold str_len. simpl. lia. Qed.

Lemma render_line l r : str_len (l +:+ String newline r) = (str_len l + 1 + str_len r)%N.
Proof. rewrite str_len_app, str_len_String. lia. Qed.

Lemma printable_no_newline s : str_all printable s = true -> str_contains newline s = false.
Proof.
  induction s as [|a s IH]; [done|]. cbn [str_all str_contains]. intros [Ha Hs]%andb_true_iff.
  apply orb_false_iff. split; [|auto].
  revert Ha. destruct (Ascii.eqb_spec a newline) as [->|]; done.
Qed.

(** * Reading *)

Import LogReader.

Lemma read_until_line limit l r :
  str_contains newline l = false -> (str_len l < limit)%N ->
  read_until limit (l +:+ String newline r) = (l +:+ String newline "", r).
Proof.
  revert limit. induction l as [|a l IH]; intros limit Hl Hn; simpl.
  - rewrite (proj2 (N.eqb_neq limit 0)) by (cbn in Hn; lia). done.
  - cbn [str_contains] in Hl. apply orb_false_iff in Hl as [Ha Hl]. rewrite str_len_String in Hn.
    rewrite (proj2 (N.eqb_neq limit 0)), Ha, IH by (done || lia). done.
Qed.

Lemma read_until_all limit s :
  str_contains newline s = false -> (str_len s <= limit)%N -> read_until limit s = (s, "").
Proof.
  revert limit. induction s as [|a s IH]; intros limit Hs Hn; simpl; [done|].
  cbn [str_contains] in Hs. apply orb_false_iff in Hs as [Ha Hs]. rewrite str_len_String in Hn.
  by rewrite (proj2 (N.eqb_neq limit 0)), Ha, IH by (done || lia).
Qed.

(** What bounded reading comes to. *)
Lemma read_until_cases limit s :
  (exists l r, s = l +:+ String newline r /\ str_contains newline l = false /\
    (str_len l < limit)%N) \/
  (str_contains newline s = false /\ (str_len s <= limit)%N) \/
  (exists b r, read_until limit s = (b, r) /\ s = b +:+ r /\ str_contains newline b = false /\
    str_len b = limit).
Proof.
  revert limit. induction s as [|a s IH]; intros limit; [right; left; split; [done|apply N.le_0_l]|].
  cbn [read_until]. destruct (N.eqb_spec limit 0) as [->|Hl].
  { right; right. exists "", (String a s). done. }
  destruct (Ascii.eqb_spec a newline) as [->|Ha].
  { left. exists "", s. split_and!; [done..|]. change (str_len "") with 0%N. lia. }
  apply Ascii.eqb_neq in Ha.
  destruct (IH (limit - 1)%N) as [(l & r & -> & Hnl & Hlen)|[[Hnl Hlen]|(b & r & -> & -> & Hnl & Hlen)]].
  - left. exists (String a l), r. cbn [str_contains]. rewrite Ha, str_len_String.
    split_and!; [done..|lia].
  - right; left. cbn [str_contains]. rewrite Ha, str_len_String. split; [done|lia].
  - right; right. exists (String a b), r. cbn [str_contains]. rewrite Ha, str_len_String.
    split_and!; [done..|lia].
Qed.

Lemma strip_newline l : str_strip_suffix newline (l +:+ String newline "") = Some l.
Proof. by apply str_strip_suffix_Some. Qed.

Lemma strip_no_newline s : str_contains newline s = false -> str_strip_suffix newline s = None.
Proof.
  intros Hs. destruct (str_strip_suffix newline s) as [l|] eqn:E; [|done].
  apply str_strip_suffix_Some in E as ->. rewrite str_contains_app in Hs.
  apply orb_false_iff in Hs as [_ Hs]. done.
Qed.

Lemma limit_eq : saturating_add MAX_RECORD_BYTES 1 = (MAX_RECORD_BYTES + 1)%N.
Proof. done. Qed.

Lemma read_chunk_end off : read_chunk (Make "" off) = (None, Make "" off).
Proof. done. Qed.

Lemma read_chunk_line l r off :
  line_ok l ->
  read_chunk (Make (l +:+ String newline r) off)
  = (Some (off, Chunk.Line l), Make r (saturating_add off (str_len l + 1))).
Proof.
  intros [Hnl Hl]. unfold read_chunk. cbn [rest offset].
  rewrite limit_eq, read_until_line by (done || lia).
  rewrite str_len_app, strip_newline. change (str_len (String newline "")) with 1%N.
  by rewrite (proj2 (N.eqb_neq _ 0)) by lia.
Qed.

Lemma read_chunk_tail s off :
  line_ok s -> s <> "" ->
  read_chunk (Make s off)
  = (Some (off, Chunk.Tail s), Make "" (saturating_add off (str_len s))).
Proof.
  intros [Hnl Hl] Hs. unfold read_chunk. cbn [rest offset].
  rewrite limit_eq, read_until_all, strip_no_newline by (done || lia).
  rewrite (proj2 (N.eqb_neq _ 0)), (proj2 (N.ltb_ge _ _)) by (done || by destruct s).
  done.
Qed.

(** A text with no line in its first bytes. *)
Definition oversized (s : string) : Prop :=
  exists b r, s = b +:+ r /\ str_contains newline b = false /\ str_len b = (MAX_RECORD_BYTES + 1)%N.

Lemma read_chunk_oversized s off :
  oversized s -> exists self, read_chunk (Make s off) = (Some (off, Chunk.Oversized), self).
Proof.
  intros (b & r & -> & Hb & Hlen). unfold read_chunk. cbn [rest offset]. rewrite limit_eq.
  assert (read_until (MAX_RECORD_BYTES + 1) (b +:+ r) = (b, r)) as ->.
  { rewrite <- Hlen. clear Hlen. revert Hb. induction b as [|a b IH]; intros Hb.
    - by destruct r.
    - cbn [str_contains] in Hb. apply orb_false_iff in Hb as [Ha Hb].
      cbn [String.append read_until]. rewrite str_len_String, (proj2 (N.eqb_neq _ 0)), Ha by lia.
      by rewrite N.add_sub, IH. }
  rewrite Hlen, strip_no_newline by done. eauto.
Qed.

(** Complete lines, and a rest that is no complete line. *)
Lemma lines_and_rest s :
  exists lines t, s = render lines +:+ t /\ Forall line_ok lines /\ (line_ok t \/ oversized t).
Proof.
  remember (String.length s) as n eqn:Hn. assert (String.length s <= n) as Hle by lia. clear Hn.
  revert s Hle. induction n as [|n IH]; intros s Hle.
  { destruct s; [|simpl in Hle; lia]. exists [], "". split_and!; [done|constructor|left; by split]. }
  destruct (read_until_cases (MAX_RECORD_BYTES + 1) s)
    as [(l & r & -> & Hl)|[[Hs Hl]|(b & r & _ & -> & Hb & Hlen)]].
  - destruct (IH r) as (lines & t & -> & Hlines & Ht).
    { rewrite str_length_app in Hle. simpl in Hle. lia. }
    exists (l :: lines), t. simpl. rewrite string_app_assoc. split_and!; [done| |done].
    constructor; [split; [apply Hl|lia]|done].
  - destruct (N.eq_dec (str_len s) (MAX_RECORD_BYTES + 1)%N) as [E|E].
    + exists [], s. split_and!; [done|constructor|right]. exists s, "".
      by rewrite string_app_nil_r.
    + exists [], s. split_and!; [done|constructor|left]. split; [done|lia].
  - exists [], (b +:+ r). split_and!; [done|constructor|right]. by exists b, r.
Qed.

(** * Chunks *)

Fixpoint line_chunks (off : N) (lines : list string) : list (N * Chunk.t) :=
  match lines with
  | [] => []
  | l :: r => (off, Chunk.Line l) :: line_chunks (saturating_add off (str_len l + 1)) r
  end.

Fixpoint end_of (off : N) (lines : list string) : N :=
  match lines with [] => off | l :: r => end_of (saturating_add off (str_len l + 1)) r end.

Definition tail_chunks (off : N) (t : string) : list (N * Chunk.t) :=
  if is_empty t then [] else [(off, Chunk.Tail t)].

Lemma end_of_render off lines :
  (off + str_len (render lines) <= U64_MAX)%N -> end_of off lines = (off + str_len (render lines))%N.
Proof.
  revert off. induction lines as [|l r IH]; intros off; simpl.
  - intros _. change (str_len "") with 0%N. lia.
  - rewrite render_line. intros H. unfold saturating_add. rewrite N.min_l by lia. rewrite IH; lia.
Qed.

Lemma chunks_from_end fuel off : chunks_from fuel (Make "" off) = [].
Proof. by destruct fuel. Qed.

Lemma chunks_from_lines fuel off lines t :
  String.length (render lines +:+ t) <= fuel -> Forall line_ok lines ->
  exists fuel', String.length t <= fuel' /\
    chunks_from fuel (Make (render lines +:+ t) off)
    = line_chunks off lines ++ chunks_from fuel' (Make t (end_of off lines)).
Proof.
  revert fuel off. induction lines as [|l r IH]; intros fuel off Hf Hl.
  { by exists fuel. }
  apply Forall_cons in Hl as [Hl Hr]. cbn [render] in *. rewrite string_app_assoc in *.
  rewrite str_length_app in Hf. cbn [String.append String.length] in *.
  destruct fuel as [|fuel]; [lia|]. cbn [chunks_from]. rewrite read_chunk_line by done.
  destruct (IH fuel (saturating_add off (str_len l + 1)) ltac:(lia) Hr) as (fuel' & Hf' & ->).
  by exists fuel'.
Qed.

Lemma chunks_render off lines t :
  Forall line_ok lines -> line_ok t ->
  chunks (Make (render lines +:+ t) off) = line_chunks off lines ++ tail_chunks (end_of off lines) t.
Proof.
  intros Hl Ht. unfold chunks. cbn [rest].
  destruct (chunks_from_lines _ off lines t (le_n _) Hl) as (fuel & Hf & ->). f_equal.
  unfold tail_chunks. destruct t as [|a t]; [apply chunks_from_end|].
  destruct fuel as [|fuel]; [simpl in Hf; lia|]. cbn [chunks_from is_empty].
  rewrite read_chunk_tail by done. by rewrite chunks_from_end.
Qed.

Lemma chunks_oversized off lines t :
  Forall line_ok lines -> oversized t ->
  exists junk, chunks (Make (render lines +:+ t) off)
    = line_chunks off lines ++ (end_of off lines, Chunk.Oversized) :: junk.
Proof.
  intros Hl Ht. unfold chunks. cbn [rest].
  destruct (chunks_from_lines _ off lines t (le_n _) Hl) as (fuel & Hf & ->).
  destruct (read_chunk_oversized t (end_of off lines) Ht) as [self E].
  destruct Ht as (b & r & -> & _ & Hlen). destruct fuel as [|fuel].
  { rewrite str_length_app in Hf. unfold str_len, MAX_RECORD_BYTES in Hlen. lia. }
  cbn [chunks_from]. rewrite E. eauto.
Qed.

(** * Chains of verified lines *)

Section chained.
  Context `{Sha256}.

(** Lines that verify one after the other, from record [n] with hash [h] to
    record [m] with hash [k]. *)
Inductive chained : N -> Sha256Hash.t -> list string -> N -> Sha256Hash.t -> Prop :=
| chained_nil n h : chained n h [] n h
| chained_cons n h l v lines m k :
    verify_line l (n + 1) h = Ok v -> chained (n + 1) (Verified.hash v) lines m k ->
    chained n h (l :: lines) m k.

Lemma verified_line_ok l n h v : verify_line l n h = Ok v -> line_ok l.
Proof.
  intros (_ & _ & _ & Hl & Hp)%verified_line_wf. split; [|done]. by apply printable_no_newline.
Qed.

Lemma saturating_next_of n : (saturating_add n 1 <= MAX_SAFE_INTEGER)%N -> saturating_add n 1 = (n + 1)%N.
Proof. unfold saturating_add, MAX_SAFE_INTEGER, U64_MAX. lia. Qed.

Lemma saturating_small n : (n <= MAX_SAFE_INTEGER)%N -> saturating_add n 1 = (n + 1)%N.
Proof. unfold saturating_add, MAX_SAFE_INTEGER, U64_MAX. lia. Qed.

(** A line verified in the next place is in the next place. *)
Lemma verified_next l n h v :
  verify_line l (saturating_add n 1) h = Ok v ->
  saturating_add n 1 = (n + 1)%N /\ Verified.seq v = (n + 1)%N.
Proof.
  intros (_ & Hs & Hn & _)%verified_line_wf. apply saturating_next_of in Hn.
  by rewrite Hs, Hn.
Qed.

Lemma chained_lines_ok n h lines m k : chained n h lines m k -> Forall line_ok lines.
Proof. induction 1; constructor; eauto using verified_line_ok. Qed.

Lemma chained_length n h lines m k : chained n h lines m k -> m = (n + N.of_nat (length lines))%N.
Proof. induction 1 as [|??????? _ _ ->]; simpl; lia. Qed.

Lemma chained_wf n h lines m k : chained n h lines m k -> Sha256Hash.wf h -> Sha256Hash.wf k.
Proof. induction 1 as [|??????? Hv _ IH]; [done|]. intros _. by apply IH, (verified_line_wf _ _ _ _ Hv). Qed.

Lemma chained_app n h l1 l2 m k :
  chained n h (l1 ++ l2) m k <->
  exists n' h', chained n h l1 n' h' /\ chained n' h' l2 m k.
Proof.
  split.
  - revert n h. induction l1 as [|l l1 IH]; intros n h Hc; [eauto using chained_nil|].
    inversion Hc as [|????? ? ? Hv Hc']; subst. destruct (IH _ _ Hc') as (n' & h' & H1 & H2).
    eauto using chained_cons.
  - intros (n' & h' & H1 & H2). induction H1; [done|]. simpl. eauto using chained_cons.
Qed.

Lemma chained_det n h lines m k m' k' :
  chained n h lines m k -> chained n h lines m' k' -> m = m' /\ k = k'.
Proof.
  intros Hc. revert m' k'. induction Hc as [|n h l v lines m k Hv _ IH]; inversion 1; subst; [done|].
  apply IH. congruence.
Qed.

Lemma saturating_next n m : (n + 1 <= m)%N -> (m <= MAX_SAFE_INTEGER)%N -> saturating_add n 1 = (n + 1)%N.
Proof. unfold saturating_add, MAX_SAFE_INTEGER, U64_MAX. lia. Qed.

Lemma chained_bound n h lines m k :
  chained n h lines m k -> lines <> [] -> (m <= MAX_SAFE_INTEGER)%N.
Proof.
  induction 1 as [|n h l v lines m k Hv Hc IH]; [done|]. intros _.
  destruct lines; [|by apply IH]. inversion Hc; subst.
  by apply verified_line_wf in Hv as (_ & _ & ? & _).
Qed.

(** ** The loops, on the lines of a file *)

Lemma verify_loop_chained off rest n h lines m k :
  chained n h lines m k ->
  verify_loop (line_chunks off lines ++ rest) n h = verify_loop rest m k.
Proof.
  intros Hc. revert off. induction Hc as [|n h l v lines m k Hv _ IH]; intros off; [done|].
  pose proof (verified_line_wf _ _ _ _ Hv) as (_ & Hs & Hn & _). cbn [line_chunks app verify_loop].
  rewrite (saturating_next n (n + 1)) by (done || lia). rewrite Hv. cbn [map_err].
  rewrite Hs. apply IH.
Qed.

Lemma verify_loop_lines_Ok off lines rest n h s :
  verify_loop (line_chunks off lines ++ rest) n h = Ok s ->
  exists m k, chained n h lines m k /\ verify_loop rest m k = Ok s.
Proof.
  revert off n h. induction lines as [|l lines IH]; intros off n h; [eauto using chained_nil|].
  cbn [line_chunks app verify_loop].
  destruct (verify_line l (saturating_add n 1) h) as [v|] eqn:Hv; [|done]. cbn [map_err].
  pose proof (verified_next _ _ _ _ Hv) as [E Es]. rewrite E in Hv. rewrite Es.
  intros (m & k & Hc & Hr)%IH. eauto using chained_cons.
Qed.

(** A log verifies exactly when it is the rendering of a chain from nothing. *)
Lemma verify_audit_log_Ok contents s :
  verify_audit_log (Some contents) = Ok s <->
  exists lines, contents = render lines /\
    chained 0 Sha256Hash.ZERO lines (AuditLogSummary.records s) (AuditLogSummary.head s).
Proof.
  unfold verify_audit_log, open. split.
  - intros Hok. destruct (lines_and_rest contents) as (lines & t & -> & Hl & Ht). exists lines.
    destruct Ht as [Ht|Ht].
    + rewrite chunks_render in Hok by done. apply verify_loop_lines_Ok in Hok as (m & k & Hc & Hr).
      destruct t as [|a t]; [|done]. injection Hr as <-. by rewrite string_app_nil_r.
    + destruct (chunks_oversized 0 lines t Hl Ht) as [junk E]. rewrite E in Hok.
      apply verify_loop_lines_Ok in Hok as (m & k & _ & Hr). done.
  - intros (lines & -> & Hc). pose proof (chained_lines_ok _ _ _ _ _ Hc) as Hl.
    rewrite <- (string_app_nil_r (render lines)), chunks_render by done.
    rewrite (verify_loop_chained _ _ _ _ _ _ _ Hc). by destruct s.
Qed.

(** ** A hash binds a chain *)

Lemma chained_snoc n h lines l m k :
  chained n h (lines ++ [l]) m k ->
  exists n' h' v, chained n h lines n' h' /\ verify_line l (n' + 1) h' = Ok v /\
    m = (n' + 1)%N /\ k = Verified.hash v.
Proof.
  intros (n' & h' & H1 & H2)%chained_app. inversion H2 as [|????? ? ? Hv H3]; subst.
  inversion H3; subst. eauto 10.
Qed.

(** A digest whose bytes are all zero. *)
Definition zero_digest : Prop := exists x, sha256 x = Sha256Hash.as_bytes Sha256Hash.ZERO.

Lemma verified_hash_digest l n h v :
  verify_line l n h = Ok v -> exists x, sha256 x = Sha256Hash.as_bytes (Verified.hash v).
Proof.
  intros (_ & _ & o & _ & _ & _ & _ & _ & _ & _ & _ & <-)%verify_line_Ok.
  rewrite chain_hash_framed. eauto.
Qed.

Lemma chained_hash_binds lines lines' m m' k :
  chained 0 Sha256Hash.ZERO lines m k -> chained 0 Sha256Hash.ZERO lines' m' k ->
  lines = lines' \/ collision \/ (zero_digest /\ m <> m').
Proof.
  revert lines' m m' k.
  induction lines as [|l lines IH] using rev_ind; intros lines' m m' k Hc Hc';
    destruct lines' as [|l' lines' _] using rev_ind; [by left|..].
  - inversion Hc; subst. apply chained_snoc in Hc' as (n' & h' & v & _ & Hv & -> & E).
    right; right. split; [|lia]. apply verified_hash_digest in Hv. by rewrite <- E in Hv.
  - inversion Hc'; subst. apply chained_snoc in Hc as (n' & h' & v & _ & Hv & -> & E).
    right; right. split; [|lia]. apply verified_hash_digest in Hv. by rewrite <- E in Hv.
  - apply chained_snoc in Hc as (n & h & v & Hc & Hv & -> & ->).
    apply chained_snoc in Hc' as (n' & h' & v' & Hc' & Hv' & -> & E).
    destruct (verified_line_binds _ _ _ _ _ _ _ _ Hv Hv' E) as [|(-> & En & ->)]; [by right; left|].
    destruct (IH _ _ _ _ Hc Hc') as [->|[|[? ?]]]; [by left|by right; left|].
    right; right. split; [done|lia].
Qed.
End chained.
