(* ===== verification/AuditStoreFacts.v ===== *)
(** The outbox is a chain of verified records, [append] extends it, a log
    compares with it exactly when it is a beginning of its rendering, and what
    the comparison answers for every log. *)

From Stdlib Require Import ZArith.
From S2P Require Export AuditStore AuditRecordFacts Machine.

(** * Chains of rows *)

Section rows.
  Context `{Sha256}.

(** Rows from after record [n] with hash [h] to record [m] with hash [k]. *)
Inductive row_chain : N -> Sha256Hash.t -> list Row.t -> N -> Sha256Hash.t -> Prop :=
| row_nil n h : row_chain n h [] n h
| row_cons n h r v rows m k :
    verify_line (Row.record r) (n + 1) h = Ok v -> Row.seq r = Z.of_N (n + 1) ->
    Row.prev r = Sha256Hash.to_hex h -> Row.hash r = Sha256Hash.to_hex (Verified.hash v) ->
    row_chain (n + 1) (Verified.hash v) rows m k -> row_chain n h (r :: rows) m k.

Lemma row_chain_chained n h rows m k :
  row_chain n h rows m k -> chained n h (map Row.record rows) m k.
Proof. induction 1; simpl; eauto using chained_nil, chained_cons. Qed.

Lemma row_chain_length n h rows m k : row_chain n h rows m k -> m = (n + N.of_nat (length rows))%N.
Proof. intros Hc%row_chain_chained%chained_length. by rewrite length_map in Hc. Qed.

Lemma row_chain_app n h l1 l2 m k :
  row_chain n h (l1 ++ l2) m k <->
  exists n' h', row_chain n h l1 n' h' /\ row_chain n' h' l2 m k.
Proof.
  split.
  - revert n h. induction l1 as [|r l1 IH]; intros n h Hc; [eauto using row_nil|].
    inversion Hc as [|??????? Hv Hs Hp Hh Hc']; subst.
    destruct (IH _ _ Hc') as (n' & h' & H1 & H2). eauto 10 using row_cons.
  - intros (n' & h' & H1 & H2). induction H1; [done|]. simpl. eauto using row_cons.
Qed.

Lemma row_chain_take i n h rows m k :
  row_chain n h rows m k -> i <= length rows ->
  exists h', row_chain n h (take i rows) (n + N.of_nat i) h' /\
    row_chain (n + N.of_nat i) h' (drop i rows) m k.
Proof.
  intros Hc Hi. rewrite <- (take_drop i rows) in Hc.
  apply row_chain_app in Hc as (n' & h' & H1 & H2). exists h'.
  pose proof (row_chain_length _ _ _ _ _ H1) as E. rewrite length_take, Nat.min_l in E by done.
  by subst.
Qed.

Lemma row_chain_lookup n h rows m k i r :
  row_chain n h rows m k -> rows !! i = Some r -> Row.seq r = Z.of_N (n + N.of_nat i + 1).
Proof.
  intros Hc. revert i. induction Hc as [|n h r' v rows m k Hv Hs Hp Hh Hc IH]; intros i; [done|].
  destruct i as [|i]; cbn [lookup list_lookup].
  - intros [= <-]. rewrite Hs. f_equal. lia.
  - intros E%IH. rewrite E. f_equal. lia.
Qed.

Lemma row_chain_find n h rows m k i :
  row_chain n h rows m k ->
  List.find (fun r => Row.seq r =? Z.of_N (n + N.of_nat i + 1))%Z rows = rows !! i.
Proof.
  intros Hc. revert i. induction Hc as [|n h r v rows m k Hv Hs Hp Hh Hc IH]; intros i; [done|].
  cbn [List.find]. rewrite Hs. destruct i as [|i]; cbn [lookup list_lookup].
  - by rewrite (proj2 (Z.eqb_eq _ _)) by lia.
  - rewrite (proj2 (Z.eqb_neq _ _)) by lia. rewrite <- IH. f_equal.
    replace (n + 1 + N.of_nat i + 1)%N with (n + N.of_nat (S i) + 1)%N by lia. done.
Qed.

(** The rows past one. *)
Lemma row_chain_filter n h rows m k i :
  row_chain n h rows m k ->
  List.filter (fun r => Z.of_N (n + N.of_nat i) <? Row.seq r)%Z rows = drop i rows.
Proof.
  intros Hc. revert i. induction Hc as [|n h r v rows m k Hv Hs Hp Hh Hc IH]; intros i.
  { by destruct i. }
  cbn [List.filter]. rewrite Hs. destruct i as [|i]; cbn [drop].
  - rewrite (proj2 (Z.ltb_lt _ _)) by lia. f_equal.
    transitivity (drop 0 rows); [|done]. rewrite <- (IH 0).
    apply List.filter_ext_in. intros r' Hin.
    apply list_elem_of_In, list_elem_of_lookup in Hin as [j Hj].
    pose proof (row_chain_lookup _ _ _ _ _ _ _ Hc Hj) as E. rewrite E.
    by rewrite !(proj2 (Z.ltb_lt _ _)) by lia.
  - rewrite (proj2 (Z.ltb_ge _ _)) by lia. rewrite <- IH. apply List.filter_ext. intros r'.
    by replace (n + 1 + N.of_nat i)%N with (n + N.of_nat (S i))%N by lia.
Qed.

(** The outbox's tables. *)
Definition tables_ok (t : Tables.t) : Prop :=
  exists h, row_chain 0 Sha256Hash.ZERO (Tables.chain t) (N.of_nat (length (Tables.chain t))) h /\
    Tables.head_seq t = Z.of_nat (length (Tables.chain t)) /\
    Tables.head_hash t = Sha256Hash.to_hex h /\ Sha256Hash.wf h /\
    (0 <= Tables.flushed_seq t <= Tables.head_seq t)%Z.

(** The lines of the outbox, as the log is to hold them. *)
Definition lines_of (t : Tables.t) : list string := map Row.record (Tables.chain t).

Lemma genesis_ok : tables_ok genesis.
Proof. exists Sha256Hash.ZERO. split_and!; try done. constructor. Qed.

Lemma row_chain_wf n h rows m k : row_chain n h rows m k -> Sha256Hash.wf h -> Sha256Hash.wf k.
Proof. intros Hc%row_chain_chained Hw. exact (chained_wf _ _ _ _ _ Hc Hw). Qed.

Lemma to_hex_length h : Sha256Hash.wf h -> String.length (Sha256Hash.to_hex h) = 64.
Proof. intros Hw. unfold Sha256Hash.to_hex. by rewrite Sha256Hash.hex_length, Hw. Qed.

Lemma chars_count_ascii s : str_all is_ascii s = true -> chars_count s = String.length s.
Proof.
  induction s as [|a s IH]; [done|]. cbn [str_all chars_count String.length].
  intros [Ha Hs]%andb_true_iff. rewrite IH by done.
  destruct (is_continuation a) eqn:Hc; [|done].
  apply is_continuation_spec in Hc. apply in_range_spec in Ha. lia.
Qed.

Lemma check_hash_to_hex h : Sha256Hash.wf h -> check_hash (Sha256Hash.to_hex h) = true.
Proof.
  intros Hw. apply Nat.eqb_eq. by rewrite chars_count_ascii, to_hex_length by (done || apply hex_ascii).
Qed.

(** ** Appending *)

Lemma put_row_last row rows :
  Forall (fun r => (Row.seq r <= Row.seq row)%Z) rows -> put_row row rows = rows ++ [row].
Proof.
  induction 1 as [|r rows Hr _ IH]; simpl; [done|].
  by rewrite (proj2 (Z.ltb_ge _ _)), IH by lia.
Qed.

(** What [append] does when it does not fail. *)
Lemma append_Ok tx ts_ms event fields seq tx' :
  tables_ok tx -> fields_ok fields -> AuditStore.append tx ts_ms event fields = Ok (seq, tx') ->
  tables_ok tx' /\ seq = N.of_nat (S (length (Tables.chain tx))) /\
  (exists row, Tables.chain tx' = Tables.chain tx ++ [row]) /\
  Tables.flushed_seq tx' = Tables.flushed_seq tx.
Proof.
  intros (h & Hc & Hs & Hh & Hw & Hf) Hfields. unfold AuditStore.append.
  rewrite Hh, Sha256Hash.from_hex_to_hex, Hs by done. unfold u64_of.
  rewrite (proj2 (Z.ltb_ge _ 0)) by lia. cbn [mbind option_bind].
  destruct (checked_add _ 1) as [n|] eqn:En; [|done].
  destruct (signed_record n h ts_ms event fields) as [[hash line]|] eqn:Es; [|done]. cbn [map_err].
  assert (n = N.of_nat (length (Tables.chain tx)) + 1)%N as ->.
  { unfold checked_add in En. case_match; [|done]. injection En as <-. lia. }
  pose proof (signed_record_verifies _ _ _ _ _ _ _ Hfields Hw Es) as Hv.
  pose proof (verified_line_wf _ _ _ _ Hv) as (Hwh & _). cbn [Verified.hash] in Hwh.
  destruct (i64_of _) as [q|] eqn:Eq; [|done]. unfold i64_of in Eq. case_match; [|done].
  injection Eq as <-. set (row := Row.Make _ _ _ _).
  destruct (insert_chain row tx) as [t|] eqn:Ei; [|done]. cbn [map_err].
  unfold insert_chain in Ei. do 3 (case_match; [done|]). injection Ei as <-.
  rewrite put_row_last in *; [|].
  - unfold update_head. cbn [Tables.head_seq Tables.chain Tables.flushed_seq Tables.flushed_hash].
    rewrite Hs, (proj2 (Z.eqb_eq _ _)), (proj2 (Z.leb_le 0 _)), check_hash_to_hex by (done || lia).
    cbn [negb andb map_err]. intros [= <- <-]. split_and!; [|lia|by exists row|done].
    exists hash. cbn [Tables.chain Tables.head_seq Tables.head_hash Tables.flushed_seq].
    rewrite length_app. cbn [length]. split_and!; [|lia|done|done|lia|lia].
    apply row_chain_app. exists (N.of_nat (length (Tables.chain tx))), h. split; [done|].
    replace (N.of_nat (length (Tables.chain tx) + 1)) with (N.of_nat (length (Tables.chain tx)) + 1)%N by lia.
    eapply row_cons; [exact Hv|done|done|done|constructor].
  - apply Forall_forall. intros r [j Hj]%list_elem_of_lookup.
    pose proof (row_chain_lookup _ _ _ _ _ _ _ Hc Hj) as ->.
    apply lookup_lt_Some in Hj. cbn. lia.
Qed.
(** ** The store's view *)

Lemma lines_bound t : tables_ok t -> (N.of_nat (length (Tables.chain t)) <= MAX_SAFE_INTEGER)%N.
Proof.
  intros (h & Hc & _). destruct (Tables.chain t) as [|r rows] eqn:E; [done|].
  apply row_chain_chained in Hc. by apply chained_bound in Hc.
Qed.

Lemma read_head t : tables_ok t -> StoreChain.head (StoreChain.read t) = N.of_nat (length (Tables.chain t)).
Proof.
  intros (h & _ & Hs & _). unfold StoreChain.read, StoreChain.head, u64_of. rewrite Hs.
  rewrite (proj2 (Z.ltb_ge _ 0)) by lia. cbn [from_option id]. lia.
Qed.

(** How many records the store recorded as durable. *)
Definition flushed_of (t : Tables.t) : nat := Z.to_nat (Tables.flushed_seq t).

Lemma read_flushed t : tables_ok t -> StoreChain.flushed (StoreChain.read t) = N.of_nat (flushed_of t).
Proof.
  intros (h & _ & _ & _ & _ & Hf). unfold StoreChain.read, StoreChain.flushed, u64_of, flushed_of.
  rewrite (proj2 (Z.ltb_ge _ 0)) by lia. cbn [from_option id]. lia.
Qed.

Lemma flushed_le t : tables_ok t -> flushed_of t <= length (lines_of t).
Proof.
  intros (h & _ & Hs & _ & _ & Hf). unfold flushed_of, lines_of. rewrite length_map. lia.
Qed.

Lemma read_record t i :
  tables_ok t -> StoreChain.record (StoreChain.read t) (N.of_nat i + 1) = lines_of t !! i.
Proof.
  intros Ht. pose proof (lines_bound t Ht) as Hb. destruct Ht as (h & Hc & _).
  unfold StoreChain.record, i64_of, select_record, lines_of, I64_MAX.
  rewrite list_lookup_fmap. cbn [StoreChain.conn StoreChain.read].
  destruct (Z.leb_spec (Z.of_N (N.of_nat i + 1)) 9223372036854775807).
  - cbn [mbind option_bind]. f_equal. rewrite <- (row_chain_find _ _ _ _ _ i Hc).
    by replace (0 + N.of_nat i + 1)%N with (N.of_nat i + 1)%N by lia.
  - rewrite (proj2 (lookup_ge_None (Tables.chain t) i)); [done|].
    unfold MAX_SAFE_INTEGER in Hb. lia.
Qed.

(** ** The loop of [compare], on the lines of a file *)

Lemma compare_step t rows0 r rows2 h v off rest :
  tables_ok t -> Tables.chain t = rows0 ++ r :: rows2 ->
  verify_line (Row.record r) (N.of_nat (length rows0) + 1) h = Ok v ->
  compare_loop (StoreChain.read t) ((off, Chunk.Line (Row.record r)) :: rest)
    (N.of_nat (length rows0)) h
  = compare_loop (StoreChain.read t) rest (N.of_nat (length rows0) + 1) (Verified.hash v).
Proof.
  intros Ht E Hv. pose proof (lines_bound t Ht) as Hb. rewrite E, length_app in Hb. simpl in Hb.
  cbn [compare_loop]. rewrite (saturating_next _ (N.of_nat (length rows0) + 1)) by lia.
  rewrite read_head, E, length_app by done. cbn [length]. rewrite (proj2 (N.ltb_ge _ _)) by lia.
  rewrite Hv. cbn [map_err].
  rewrite read_record by done. unfold lines_of. rewrite E, map_app, lookup_app_r, length_map, Nat.sub_diag
    by (by rewrite length_map). by rewrite bool_decide_true.
Qed.

Lemma compare_rows t rows0 rows1 rows2 h m k off rest :
  tables_ok t -> Tables.chain t = rows0 ++ rows1 ++ rows2 ->
  row_chain (N.of_nat (length rows0)) h rows1 m k ->
  compare_loop (StoreChain.read t) (line_chunks off (map Row.record rows1) ++ rest)
    (N.of_nat (length rows0)) h
  = compare_loop (StoreChain.read t) rest m k.
Proof.
  intros Ht. revert rows0 h off. induction rows1 as [|r rows1 IH]; intros rows0 h off E Hc.
  { by inversion Hc; subst. }
  inversion Hc as [|? ? ? ? ? ? ? Hv _ _ _ Hc']; subst. cbn [map line_chunks app] in *.
  rewrite (compare_step t rows0 r (rows1 ++ rows2) h v) by done.
  replace (N.of_nat (length rows0) + 1)%N with (N.of_nat (length (rows0 ++ [r]))) in *
    by (rewrite length_app; simpl; lia).
  apply IH; [by rewrite <- app_assoc|done].
Qed.

Lemma compare_lines_Ok t rows0 rows' h m k off lines rest x :
  tables_ok t -> Tables.chain t = rows0 ++ rows' ->
  row_chain (N.of_nat (length rows0)) h rows' m k ->
  compare_loop (StoreChain.read t) (line_chunks off lines ++ rest) (N.of_nat (length rows0)) h = Ok x ->
  exists rows1 rows2, rows' = rows1 ++ rows2 /\ lines = map Row.record rows1.
Proof.
  intros Ht. revert rows0 rows' h off.
  induction lines as [|l lines IH]; intros rows0 rows' h off E Hc Hx.
  { by exists [], rows'. }
  pose proof (lines_bound t Ht) as Hb. rewrite E, length_app in Hb.
  cbn [line_chunks app compare_loop] in Hx.
  rewrite (saturating_small (N.of_nat (length rows0))) in Hx by lia.
  destruct (_ <? _)%N; [done|]. destruct (verify_line l _ h) as [v|] eqn:Hv; [|done].
  cbn [map_err] in Hx. rewrite read_record in Hx by done.
  destruct (bool_decide_reflect (lines_of t !! length rows0 = Some l)) as [El|]; [|done].
  unfold lines_of in El. rewrite E, map_app, lookup_app_r, length_map, Nat.sub_diag in El
      by (by rewrite length_map).
  destruct rows' as [|r rows']; [done|]. cbn in El. injection El as <-.
  inversion Hc as [|? ? ? ? ? ? ? Hv' _ _ _ Hc']; subst. rewrite Hv in Hv'. injection Hv' as <-.
  cbn [negb] in Hx.
  replace (N.of_nat (length rows0) + 1)%N with (N.of_nat (length (rows0 ++ [r]))) in *
      by (rewrite length_app; simpl; lia).
  assert (Tables.chain t = (rows0 ++ [r]) ++ rows') as E' by (by rewrite <- app_assoc).
  destruct (IH _ rows' _ _ E' Hc' Hx) as (rows1 & rows2 & -> & ->).
  by exists (r :: rows1), rows2.
Qed.
End rows.

(** * Beginnings of a rendering *)

(** A partial last line: none, or part of the line due, short of its newline. *)
Definition torn (lines : list string) (k : nat) (tl : string) : Prop :=
  tl = "" \/ exists l, lines !! k = Some l /\ sprefix tl l.

Lemma sprefix_strict p l a :
  sprefix p (l +:+ String a "") /\ String.length p < String.length (l +:+ String a "") <-> sprefix p l.
Proof.
  rewrite str_length_app. cbn [String.length]. split.
  - intros [Hp Hl]. apply (sprefix_le _ _ (l +:+ String a "")); [done|apply sprefix_app|lia].
  - intros Hp. split; [by apply (sprefix_trans _ l), sprefix_app|]. apply sprefix_length in Hp. lia.
Qed.

Lemma render_prefix lines c :
  sprefix c (render lines) ->
  exists k tl, k <= length lines /\ c = render (take k lines) +:+ tl /\ torn lines k tl.
Proof.
  revert c. induction lines as [|l lines IH]; intros c Hc.
  { exists 0, "". destruct Hc as [t E]. destruct c; [|done]. split_and!; [done..|by left]. }
  cbn [render] in Hc. assert (l +:+ String newline (render lines)
    = (l +:+ String newline "") +:+ render lines) as E by (by rewrite string_app_assoc).
  rewrite E in Hc.
  destruct (sprefix_total c (l +:+ String newline "") _ Hc (sprefix_app _ _)) as [Hp|[d ->]].
  - destruct (decide (String.length c < String.length (l +:+ String newline ""))) as [Hl|Hl].
    + exists 0, c. split_and!; [lia|done|right]. exists l. split; [done|]. by apply sprefix_strict with newline.
    + apply sprefix_antisym in Hp as ->; [|lia]. exists 1, "".
      split_and!; [simpl; lia|cbn; by rewrite string_app_nil_r|by left].
  - apply sprefix_app_inv in Hc. destruct (IH d Hc) as (k & tl & Hk & -> & Ht).
    exists (S k), tl. cbn [take render length]. rewrite !string_app_assoc.
    split_and!; [lia|done|exact Ht].
Qed.

Lemma render_take_prefix lines k tl :
  torn lines k tl -> sprefix (render (take k lines) +:+ tl) (render lines).
Proof.
  intros Ht. rewrite <- (take_drop k lines) at 2. rewrite render_app. apply sprefix_app_app.
  destruct Ht as [->|(l & Hl & Htl)]; [apply sprefix_nil|].
  rewrite (drop_S _ _ _ Hl). cbn [render]. by apply (sprefix_trans _ l), sprefix_app.
Qed.

Lemma render_take_le lines i k :
  i <= k -> sprefix (render (take i lines)) (render (take k lines)).
Proof.
  intros Hi. replace (take i lines) with (take i (take k lines)) by (rewrite take_take; f_equal; lia).
  rewrite <- (take_drop i (take k lines)) at 2. rewrite render_app. apply sprefix_app.
Qed.

(** Renderings grow: which is the longer tells how many lines. *)
Lemma render_take_inv lines i k tl :
  i <= length lines -> k <= length lines -> torn lines k tl ->
  sprefix (render (take i lines)) (render (take k lines) +:+ tl) -> i <= k.
Proof.
  intros Hi Hk Ht Hp. destruct (decide (i <= k)) as [|Hik]; [done|exfalso].
  assert (k < length lines) as [l Hl]%lookup_lt_is_Some by lia.
  assert (sprefix (render (take (S k) lines)) (render (take k lines) +:+ tl)) as Hs.
  { apply (sprefix_trans _ (render (take i lines))); [|done]. apply render_take_le. lia. }
  rewrite (take_S_r _ _ _ Hl), render_app in Hs. cbn [render] in Hs.
  apply sprefix_app_inv, sprefix_length in Hs. rewrite str_length_app in Hs. cbn in Hs.
  destruct Ht as [->|(l' & Hl' & Htl%sprefix_length)]; [cbn in Hs; lia|].
  rewrite Hl in Hl'. injection Hl' as ->. lia.
Qed.

Lemma torn_line_ok lines k tl : Forall line_ok lines -> torn lines k tl -> line_ok tl.
Proof.
  intros Hl [->|(l & Hlk & [x ->])]; [done|].
  rewrite Forall_forall in Hl. destruct (Hl (tl +:+ x)) as [Hc Hn].
  { by apply list_elem_of_lookup_2 in Hlk. }
  rewrite str_contains_app in Hc. apply orb_false_iff in Hc as [Hc _].
  rewrite str_len_app in Hn. split; [done|lia].
Qed.

(** * Comparing *)

Section compare.
  Context `{Sha256}.
  Implicit Types (t : Tables.t).

Lemma lines_ok t : tables_ok t -> Forall line_ok (lines_of t).
Proof. intros (h & Hc%row_chain_chained & _). by apply chained_lines_ok in Hc. Qed.

Definition tail_of (off : N) (tl : string) : option (N * string) :=
  if is_empty tl then None else Some (off, tl).

Lemma torn_tail_Ok t k off tl b :
  tables_ok t -> k <= length (lines_of t) ->
  torn_tail (StoreChain.read t) (N.of_nat k) (tail_of off tl) = Ok b <->
  b = negb (is_empty tl) /\ torn (lines_of t) k tl.
Proof.
  intros Ht Hk. pose proof (lines_bound t Ht) as Hb. unfold lines_of in Hk. rewrite length_map in Hk.
  unfold torn_tail, tail_of. destruct tl as [|a tl]; cbn [is_empty negb].
  { split; [intros [= <-]; split; [done|by left]|by intros [-> _]]. }
  rewrite saturating_small, read_record, read_head by (done || lia).
  assert ((if (N.of_nat k + 1 <=? N.of_nat (length (Tables.chain t)))%N then lines_of t !! k else None)
    = lines_of t !! k) as ->.
  { destruct (N.leb_spec (N.of_nat k + 1) (N.of_nat (length (Tables.chain t)))); [done|].
    symmetry. apply lookup_ge_None. unfold lines_of. rewrite length_map. lia. }
  unfold torn. destruct (lines_of t !! k) as [l|]; [|by split; [|intros [_ [|(? & ? & _)]]]].
  destruct (_ || _) eqn:Eb.
  - split; [done|]. intros [_ [|(l' & [= <-] & Hp)]]; [done|].
    apply sprefix_strict with (a := newline) in Hp as [Hp Hl].
    apply sprefix_starts_with in Hp. apply orb_true_iff in Eb as [Eb|Eb].
    + apply N.leb_le in Eb. unfold str_len in Eb. lia.
    + by rewrite Hp in Eb.
  - apply orb_false_iff in Eb as [Eb Ep]. apply N.leb_gt in Eb. apply negb_false_iff in Ep.
    apply sprefix_starts_with in Ep. split; [|by intros [-> _]]. intros [= <-]. split; [done|right].
    exists l. split; [done|]. apply sprefix_strict with newline. unfold str_len in Eb. split; [done|lia].
Qed.

(** What [compare] finds in a sound log: its records, and the tail. *)
Definition found t (k : nat) (tl : string) (h : Sha256Hash.t) : Compared.t :=
  Compared.Make
    (StoreComparison.Make (N.of_nat k) (N.of_nat (length (lines_of t))) (N.of_nat (flushed_of t))
       (negb (is_empty tl)))
    (tail_of (end_of 0 (take k (lines_of t))) tl) h.

Lemma compare_beginning t k tl :
  tables_ok t -> k <= length (lines_of t) -> torn (lines_of t) k tl -> flushed_of t <= k ->
  exists h, row_chain 0 Sha256Hash.ZERO (take k (Tables.chain t)) (N.of_nat k) h /\
    row_chain (N.of_nat k) h (drop k (Tables.chain t)) (N.of_nat (length (lines_of t)))
      (default h (Sha256Hash.from_hex (Tables.head_hash t))) /\
    AuditStore.compare (Some (render (take k (lines_of t)) +:+ tl)) (StoreChain.read t) = Ok (found t k tl h).
Proof.
  intros Ht Hk Htl Hf. pose proof Ht as (hh & Hc & _ & Hhh & Hwh & _).
  unfold lines_of in Hk |- *. rewrite length_map in Hk |- *.
  destruct (row_chain_take k _ _ _ _ _ Hc Hk) as (h & H1 & H2). rewrite N.add_0_l in H1, H2.
  exists h. rewrite Hhh, Sha256Hash.from_hex_to_hex by done. split_and!; [done|done|].
  pose proof (lines_ok t Ht) as Hl. unfold AuditStore.compare, LogReader.open.
  rewrite chunks_render; [|by apply Forall_take|by eapply torn_line_ok].
  rewrite firstn_map. rewrite (compare_rows t [] (take k (Tables.chain t)) (drop k (Tables.chain t))
    _ (N.of_nat k) h); [|done|by rewrite take_drop|done].
  assert (forall off, compare_loop (StoreChain.read t) (tail_chunks off tl) (N.of_nat k) h
    = Ok (N.of_nat k, tail_of off tl, h)) as -> by (intros off; by destruct tl).
  rewrite read_flushed, read_head by done. rewrite (proj2 (N.ltb_ge _ _)) by lia.
  rewrite (proj2 (torn_tail_Ok t k _ tl _ Ht ltac:(unfold lines_of; rewrite length_map; lia))
    (conj eq_refl Htl)).
  unfold found, lines_of. rewrite length_map, firstn_map. done.
Qed.

(** [compare] accepts nothing else. *)
Lemma compare_Ok t contents c :
  tables_ok t -> AuditStore.compare (Some contents) (StoreChain.read t) = Ok c ->
  exists k tl, k <= length (lines_of t) /\ torn (lines_of t) k tl /\ flushed_of t <= k /\
    contents = render (take k (lines_of t)) +:+ tl.
Proof.
  intros Ht. pose proof Ht as (hh & Hc & _). unfold AuditStore.compare, LogReader.open. intros E.
  destruct (compare_loop _ _ 0 _) as [[[n tail] h]|] eqn:El; [|done].
  destruct (lines_and_rest contents) as (lines & tl & -> & Hl & Htl).
  assert (exists off, LogReader.chunks (LogReader.Make (render lines +:+ tl) 0)
    = line_chunks 0 lines ++ off) as [rest Er].
  { destruct Htl as [Htl|Htl]; [rewrite chunks_render by done; eauto|].
    destruct (chunks_oversized 0 lines tl Hl Htl) as [junk ->]. eauto. }
  rewrite Er in El. destruct (compare_lines_Ok t [] _ _ _ _ _ _ _ _ Ht eq_refl Hc El)
    as (rows1 & rows2 & Erows & ->).
  pose proof Hc as Hc'. rewrite Erows in Hc'. apply row_chain_app in Hc' as (m & k & H1 & _).
  rewrite (compare_rows t [] rows1 rows2 _ m k _ _ Ht Erows H1) in El.
  pose proof (row_chain_length _ _ _ _ _ H1) as ->. rewrite N.add_0_l in *.
  assert (take (length rows1) (lines_of t) = map Row.record rows1) as Etake.
  { unfold lines_of. rewrite Erows, map_app, take_app_length'; [done|by rewrite length_map]. }
  assert (length rows1 <= length (lines_of t)) as Hlen.
  { unfold lines_of. rewrite Erows, length_map, length_app. lia. }
  exists (length rows1), tl. rewrite Etake.
  destruct Htl as [Htl|Htl].
  - rewrite chunks_render in Er by done. apply app_inv_head in Er as <-.
    assert (n = N.of_nat (length rows1) /\ tail = tail_of (end_of 0 (map Row.record rows1)) tl) as [-> ->].
    { unfold tail_chunks, tail_of in *. destruct tl; cbn in El |- *; by injection El as <- <- _. }
    rewrite read_flushed in E by done. destruct (N.ltb_spec (N.of_nat (length rows1)) (N.of_nat (flushed_of t))) as [|Hf];
      [done|].
    destruct (torn_tail _ _ _) as [b|] eqn:Et; [|done].
    apply torn_tail_Ok in Et as [_ Et]; [|done..]. split_and!; [done|done|lia|done].
  - destruct (chunks_oversized 0 _ tl Hl Htl) as [junk Ej]. rewrite Ej in Er.
    apply app_inv_head in Er as <-. done.
Qed.
End compare.
