(* ===== verification/RecoveryFacts.v ===== *)
(** Recovery from any crash, interrupted or not: the log stays a beginning of
    the store's rendering that holds what was acknowledged, and recovery makes
    it the whole. Flushing, transactions and starts keep the log sound; what a
    flush acknowledges is durable; runs of a store, the worlds they reach and
    effects that do not fail. *)

From Stdlib Require Import ZArith.
From S2P Require Export AuditRecovery AuditStoreFacts.

Section facts.
  Context `{Sha256} {D : Type}.
  Implicit Types (w : World.t D) (f : File.t) (t : Tables.t).

(** * Invariants *)

(** A text that holds what was acknowledged, and nothing that was not
    committed. *)
Definition log_ok t (s : string) : Prop :=
  sprefix s (render (lines_of t)) /\ sprefix (render (take (flushed_of t) (lines_of t))) s /\
  (str_len s <= FILE_MAX)%N.

Definition file_ok t f : Prop := log_ok t (File.contents f) /\ log_ok t (File.synced f).

(** The file holds exactly the first [k] records, synced. *)
Definition exactly t f (k : nat) : Prop :=
  File.contents f = render (take k (lines_of t)) /\ File.synced f = File.contents f.

(** The hash of the first [k] records. *)
Definition hash_at t (k : nat) (h : Sha256Hash.t) : Prop :=
  row_chain 0 Sha256Hash.ZERO (take k (Tables.chain t)) (N.of_nat k) h.

Definition writer_ok t f (writer : AuditWriter.t) : Prop :=
  exists k, AuditWriter.durable_seq writer = N.of_nat k /\ k <= length (lines_of t) /\
    hash_at t k (AuditWriter.durable_hash writer) /\ exactly t f k.

(** The world with another log and script. *)
Definition logged w f (s : list Fate) : World.t D :=
  World.Make f (World.tables w) (World.data w) (World.writer w) (World.poisoned w)
    (World.quarantined w) s.

Lemma logged_eta w : logged w (World.log w) (World.script w) = w.
Proof. by destruct w. Qed.

(** The tables with another flushed mark. *)
Definition same_chain t t' : Prop := Tables.chain t' = Tables.chain t.

Lemma same_chain_lines t t' : same_chain t t' -> lines_of t' = lines_of t.
Proof. unfold same_chain, lines_of. by intros ->. Qed.

Lemma log_ok_prefix t s s' :
  log_ok t s -> sprefix s s' -> sprefix s' (render (lines_of t)) -> (str_len s' <= FILE_MAX)%N ->
  log_ok t s'.
Proof. intros (_ & Hf & _) Hs Hr Hl. split_and!; [done|by apply (sprefix_trans _ s)|done]. Qed.

(** Between two sound texts every text is sound. *)
Lemma survives_ok t f s : file_ok t f -> File.survives f s -> log_ok t s.
Proof.
  intros [(Hc & Hcf & Hcl) (Hs & Hsf & Hsl)] [Hor Hall]. split_and!.
  - by destruct Hor as [Hp|Hp]; apply (sprefix_trans _ _ _ Hp).
  - by apply Hall.
  - destruct Hor as [Hp|Hp]; apply sprefix_len in Hp; lia.
Qed.

Lemma exactly_log_ok t k :
  flushed_of t <= k -> (str_len (render (take k (lines_of t))) <= FILE_MAX)%N ->
  log_ok t (render (take k (lines_of t))).
Proof.
  intros Hf Hl. split_and!; [|by apply render_take_le|done].
  rewrite <- (string_app_nil_r (render (take k _))). apply render_take_prefix. by left.
Qed.

(** ** The mark *)

Lemma hash_at_wf t k h : hash_at t k h -> Sha256Hash.wf h.
Proof. intros Hh. by apply (row_chain_wf _ _ _ _ _ Hh). Qed.

Lemma update_state_Ok t k h :
  tables_ok t -> flushed_of t <= k -> k <= length (lines_of t) -> Sha256Hash.wf h ->
  exists t', update_state (Z.of_nat k) (Sha256Hash.to_hex h) t = Ok t' /\
    tables_ok t' /\ same_chain t t' /\ flushed_of t' = k.
Proof.
  intros (hh & Hc & Hs & Hh & Hw & Hf) Hk Hl Hwh. unfold lines_of in Hl. rewrite length_map in Hl.
  unfold flushed_of in Hk. unfold update_state.
  rewrite (proj2 (Z.ltb_ge _ _)), (proj2 (Z.ltb_ge _ _)), (proj2 (Z.leb_le _ _)), check_hash_to_hex
    by (done || lia). cbn [negb orb andb]. eexists. split; [done|]. split_and!; [|done|].
  - exists hh. cbn. split_and!; try done; lia.
  - unfold flushed_of. cbn. lia.
Qed.

Lemma i64_of_records t k :
  tables_ok t -> k <= length (lines_of t) -> i64_of (N.of_nat k) = Some (Z.of_nat k).
Proof.
  intros Ht Hk. pose proof (lines_bound t Ht) as Hb. unfold lines_of in Hk. rewrite length_map in Hk.
  unfold i64_of, I64_MAX, MAX_SAFE_INTEGER in *. rewrite (proj2 (Z.leb_le _ _)) by lia.
  f_equal. lia.
Qed.

(** * Appending what is pending *)

Lemma lines_lookup_row t k l :
  lines_of t !! k = Some l -> exists r, Tables.chain t !! k = Some r /\ Row.record r = l.
Proof.
  unfold lines_of. rewrite list_lookup_fmap. destruct (Tables.chain t !! k) as [r|]; [|done].
  intros [= <-]. eauto.
Qed.

Lemma hash_at_next t k h r :
  tables_ok t -> hash_at t k h -> Tables.chain t !! k = Some r ->
  exists v, verify_line (Row.record r) (N.of_nat k + 1) h = Ok v /\
    hash_at t (S k) (Verified.hash v) /\ Row.seq r = Z.of_N (N.of_nat k + 1) /\
    Row.prev r = Sha256Hash.to_hex h /\ Row.hash r = Sha256Hash.to_hex (Verified.hash v).
Proof.
  intros (hh & Hc & _) Hh Hr.
  destruct (row_chain_take (S k) _ _ _ _ _ Hc) as (h' & H1 & _); [by apply lookup_lt_Some in Hr|].
  rewrite (take_S_r _ _ _ Hr) in H1. apply row_chain_app in H1 as (n & h0 & H0 & H1).
  assert (n = N.of_nat k /\ h0 = h) as [-> ->].
  { apply row_chain_chained in Hh, H0. by apply (chained_det _ _ _ _ _ _ _ H0). }
  inversion H1 as [|? ? ? v ? ? ? Hv Hs Hp Hrh Hn]; subst. inversion Hn; subst.
  exists v. split_and!; try done. unfold hash_at. rewrite (take_S_r _ _ _ Hr).
  replace (N.of_nat (S k)) with (N.of_nat k + 1)%N by lia.
  apply row_chain_app. exists (N.of_nat k), h. eauto using row_cons, row_nil.
Qed.

Lemma hash_at_zero t : hash_at t 0 Sha256Hash.ZERO.
Proof. constructor. Qed.

Lemma hash_at_exists t k : tables_ok t -> k <= length (lines_of t) -> exists h, hash_at t k h.
Proof.
  intros (hh & Hc & _) Hk. unfold lines_of in Hk. rewrite length_map in Hk.
  destruct (row_chain_take k _ _ _ _ _ Hc Hk) as (h & Hh & _). by exists h.
Qed.

Lemma hash_at_det t k h h' : hash_at t k h -> hash_at t k h' -> h = h'.
Proof.
  intros H1%row_chain_chained H2%row_chain_chained. exact (proj2 (chained_det _ _ _ _ _ _ _ H1 H2)).
Qed.

(** Writing more of the rendering. *)
Lemma append_ok t f p :
  file_ok t f -> sprefix (File.contents f +:+ p) (render (lines_of t)) ->
  (str_len (File.contents f +:+ p) <= FILE_MAX)%N -> file_ok t (File.append f p).
Proof.
  intros [Hc Hs] Hp Hl. split; [|done]. cbn [File.contents File.append].
  eapply log_ok_prefix; [exact Hc|apply sprefix_app|done|done].
Qed.

Lemma render_next t k l p :
  lines_of t !! k = Some l -> sprefix p (l +:+ String newline "") ->
  sprefix (render (take k (lines_of t)) +:+ p) (render (lines_of t)).
Proof.
  intros Hl Hp. apply (sprefix_trans _ (render (take (S k) (lines_of t)))).
  - rewrite (take_S_r _ _ _ Hl), render_app. by apply sprefix_app_app.
  - rewrite <- (firstn_all (lines_of t)) at 2. apply render_take_le. by apply lookup_lt_Some in Hl.
Qed.

Lemma render_take_next t k l :
  lines_of t !! k = Some l ->
  (render (take k (lines_of t)) +:+ l) +:+ String newline ""
  = render (take (S k) (lines_of t)).
Proof. intros Hl. rewrite (take_S_r _ _ _ Hl), render_app, string_app_assoc. done. Qed.

Lemma write_all_wp t w bytes (Q R : unit -> World.t D -> Prop) :
  file_ok t (World.log w) ->
  sprefix (File.contents (World.log w) +:+ bytes) (render (lines_of t)) ->
  (forall s f, file_ok t f -> File.contents f = File.contents (World.log w) +:+ bytes ->
     Q () (logged w f s)) ->
  (forall s f, file_ok t f -> R () (logged w f s)) ->
  wp (write_all bytes) Q R w.
Proof.
  intros Hf Hp HQ HR. apply wp_write_all; [by apply Hf| |].
  - intros s Hm. apply (HQ s (File.append (World.log w) bytes)); [by apply append_ok|done].
  - intros s p Hpb Hm. apply (HR s (File.append (World.log w) p)). apply append_ok; [done| |done].
    apply (sprefix_trans _ (File.contents (World.log w) +:+ bytes)); [by apply sprefix_app_app|done].
Qed.

(** ** The loop *)

Lemma append_pending_wp t fuel k h w n :
  tables_ok t -> k <= length (lines_of t) -> fuel = length (lines_of t) - k -> hash_at t k h ->
  file_ok t (World.log w) -> File.contents (World.log w) = render (take k (lines_of t)) ->
  wp (append_pending (StoreChain.read t) fuel (N.of_nat k) h n)
    (fun x w' => exists f s h' n', w' = logged w f s /\ file_ok t f /\
       File.contents f = render (lines_of t) /\
       x = (N.of_nat (length (lines_of t)), h', n') /\ hash_at t (length (lines_of t)) h')
    (fun e w' => exists f s, w' = logged w f s /\ file_ok t f /\
       forall fault, e <> RecoveryError.Diverged fault) w.
Proof.
  intros Ht. revert k h w n. induction fuel as [|fuel IH]; intros k h w n Hk Hfuel Hh Hf Hc;
    cbn [append_pending].
  { apply wp_ret. assert (k = length (lines_of t)) as -> by lia. rewrite firstn_all in Hc.
    exists (World.log w), (World.script w), h, n. by rewrite logged_eta. }
  assert (k < length (lines_of t)) as Hlt by lia.
  pose proof (lines_bound t Ht) as Hb. pose proof Hlt as Hlt'. unfold lines_of in Hlt'.
  rewrite length_map in Hlt'. rewrite read_head, (proj2 (N.ltb_lt _ _)) by (done || lia). cbn [negb].
  rewrite saturating_small by lia. apply wp_bind, wp_rethrow, wp_query.
  2:{ intros e s. exists (World.log w), s. done. }
  intros s. rewrite read_record by done.
  destruct (lookup_lt_is_Some_2 _ _ Hlt) as [l Hl]. rewrite Hl.
  destruct (lines_lookup_row t k l Hl) as (r & Hr & <-).
  destruct (hash_at_next t k h r Ht Hh Hr) as (v & Hv & Hhv & _).
  apply wp_bind, wp_lift. rewrite Hv. cbn [map_err].
  apply wp_bind, wp_rethrow, (write_all_wp t); [done| | |].
  { cbn [World.log World.with_script]. rewrite Hc. by apply (render_next t k _ _ Hl), sprefix_app. }
  2:{ intros s' f Hf'. exists f, s'. done. }
  intros s' f Hf' Ef. cbn [World.log World.with_script] in Ef. rewrite Hc in Ef.
  apply wp_bind, wp_rethrow, (write_all_wp t); [done| | |].
  { cbn [World.log logged]. rewrite Ef, string_app_assoc. by apply (render_next t k _ _ Hl). }
  2:{ intros s2 f2 Hf2. exists f2, s2. done. }
  intros s2 f2 Hf2 Ef2. cbn [World.log logged] in Ef2. rewrite Ef, (render_take_next t k _ Hl) in Ef2.
  replace (N.of_nat k + 1)%N with (N.of_nat (S k)) by lia.
  eapply wp_mono; [apply IH; [lia|lia|done|done|done]| |].
  - intros x w' (f3 & s3 & h' & n' & -> & Hrest). by exists f3, s3, h', n'.
  - intros e w' (f3 & s3 & -> & Hrest). by exists f3, s3.
Qed.

(** * Recovery *)

(** What recovery leaves: the log is the whole of the store's records, synced,
    and the store knows. *)
Definition recovered w w' (r : Recovered.t) : Prop :=
  let n := length (lines_of (World.tables w)) in
  exists f t s, w' = World.with_tables (logged w f s) t /\ tables_ok t /\
    same_chain (World.tables w) t /\ file_ok t f /\ exactly t f n /\ flushed_of t = n /\
    Recovered.durable_seq r = N.of_nat n /\ hash_at t n (Recovered.durable_hash r).

(** What an interrupted recovery leaves. *)
Definition interrupted w w' : Prop :=
  exists f t s, w' = World.with_tables (logged w f s) t /\ tables_ok t /\
    same_chain (World.tables w) t /\ file_ok t f.

Lemma interrupted_log w f s : tables_ok (World.tables w) -> file_ok (World.tables w) f -> interrupted w (logged w f s).
Proof. intros Ht Hf. by exists f, (World.tables w), s. Qed.

Lemma remove_tail_wp t w k tl :
  tables_ok t -> file_ok t (World.log w) -> flushed_of t <= k -> k <= length (lines_of t) ->
  File.contents (World.log w) = render (take k (lines_of t)) +:+ tl ->
  wp (remove_tail (tail_of (end_of 0 (take k (lines_of t))) tl))
    (fun _ w' => exists f s, w' = logged w f s /\ file_ok t f /\
       File.contents f = render (take k (lines_of t)))
    (fun e w' => exists f s, w' = logged w f s /\ file_ok t f /\
       forall fault, e <> RecoveryError.Diverged fault) w.
Proof.
  intros Ht Hf Hk Hkl Ec. unfold tail_of. destruct tl as [|a tl]; cbn [is_empty remove_tail].
  { apply wp_ret. exists (World.log w), (World.script w). rewrite logged_eta.
    by rewrite string_app_nil_r in Ec. }
  pose proof Hf as [(_ & _ & Hm) Hsync]. rewrite Ec, str_len_append in Hm.
  rewrite end_of_render, N.add_0_l by (unfold U64_MAX, FILE_MAX in *; lia).
  set (f := File.set_len (World.log w) (str_len (render (take k (lines_of t))))).
  assert (File.contents f = render (take k (lines_of t)) /\ File.synced f = File.synced (World.log w)) as [Ef Es].
  { unfold f, File.set_len. rewrite Ec, str_len_append, (proj2 (N.ltb_ge _ _)) by lia.
    split; [apply str_take_app|done]. }
  assert (log_ok t (render (take k (lines_of t)))) as Hok by (apply exactly_log_ok; [done|lia]).
  apply wp_bind, wp_rethrow, wp_set_len.
  2:{ intros s. by exists (World.log w), s. }
  intros s. apply wp_bind, wp_rethrow, wp_sync_all.
  - intros s'. apply wp_ret. exists (File.sync f), s'. split_and!; [done| |done].
    by split; cbn [File.contents File.synced File.sync]; rewrite Ef.
  - intros s'. exists f, s'. split_and!; [done| |done]. split; [by rewrite Ef|by rewrite Es].
Qed.

Lemma read_log_wp {E} (Q : option string -> World.t D -> Prop) (R : E -> World.t D -> Prop) w :
  (forall s, Q (Some (File.contents (World.log w))) (logged w (World.log w) s)) ->
  (forall s, Q None (logged w (World.log w) s)) -> wp read_log Q R w.
Proof.
  intros HS HN. unfold wp, read_log, file_step, bind, fate.
  destruct w as [log tables data writer poisoned quarantined script]. cbn [World.script].
  destruct script as [|[|n e] s]; [apply (HS [])|apply (HS s)|apply (HN s)].
Qed.

(** The end of a recovery: the sync and the mark. *)
Lemma finish_wp w f s h n (mk : N -> Sha256Hash.t -> Recovered.t) :
  let t := World.tables w in
  tables_ok t -> file_ok t f -> File.contents f = render (lines_of t) -> n = length (lines_of t) ->
  hash_at t n h -> Recovered.durable_seq (mk (N.of_nat n) h) = N.of_nat n ->
  Recovered.durable_hash (mk (N.of_nat n) h) = h ->
  wp (let! _ := io sync_all in
      match i64_of (N.of_nat n) with
      | None => throw RecoveryError.Io
      | Some flushed_seq =>
          let! _ := sqlite (execute (update_state flushed_seq (Sha256Hash.to_hex h))) in
          ret (mk (N.of_nat n) h)
      end)
    (fun r w' => recovered w w' r)
    (fun e w' => interrupted w w' /\ forall fault, e <> RecoveryError.Diverged fault) (logged w f s).
Proof.
  intros t Ht Hf Ec -> Hh Hs Hhash. pose proof (flushed_le t Ht) as Hfl.
  apply wp_bind, wp_rethrow, wp_sync_all.
  2:{ intros s'. split; [by apply (interrupted_log w f)|done]. }
  intros s'. change (World.with_log _ _) with (logged w (File.sync f) s').
  assert (file_ok t (File.sync f)) as Hsync by (split; apply Hf).
  rewrite (i64_of_records t) by done. apply wp_bind, wp_rethrow, wp_execute.
  2:{ intros e s2. split; [by apply (interrupted_log w (File.sync f))|done]. }
  destruct (update_state_Ok t (length (lines_of t)) h Ht Hfl (le_n _) (hash_at_wf _ _ _ Hh))
    as (t' & Eu & Ht' & Hsame & Hft'). cbn [World.tables logged]. fold t. rewrite Eu.
  pose proof (same_chain_lines _ _ Hsame) as Hlines.
  assert (file_ok t' (File.sync f)) as Hfile.
  { assert (log_ok t' (File.contents f)) as Hok; [|by split].
    destruct Hf as [(_ & _ & Hm) _]. split_and!; [by rewrite Hlines, Ec| |done].
    rewrite Hlines, Hft', Ec, firstn_all. done. }
  split.
  - intros s2. apply wp_ret. red. fold t. exists (File.sync f), t', s2.
    split_and!; try done.
    + split; [|done]. cbn [File.contents File.sync]. by rewrite Ec, Hlines, firstn_all.
    + unfold hash_at. rewrite Hhash, Hsame. exact Hh.
  - intros e s2. split; [|done]. by exists (File.sync f), t', s2.
Qed.

(** From any sound log, recovery ends with the whole log, or with an error of
    an effect that failed; it never finds the log and the store at odds. *)
Lemma recover_wp w :
  tables_ok (World.tables w) -> file_ok (World.tables w) (World.log w) ->
  wp recover (fun r w' => recovered w w' r)
    (fun e w' => interrupted w w' /\ forall fault, e <> RecoveryError.Diverged fault) w.
Proof.
  intros Ht Hf. set (t := World.tables w) in *.
  assert (forall f s, file_ok t f -> interrupted w (logged w f s)) as Hint by (intros; by apply interrupted_log).
  apply wp_bind, wp_rethrow, wp_query; [|intros e s; split; [by apply Hint|done]].
  intros s. apply wp_bind. cbn [World.tables World.with_script]. fold t.
  pose proof Hf as [(Hp & Hfl & Hm) _]. apply render_prefix in Hp as (k & tl & Hk & Ec & Htl).
  assert (flushed_of t <= k) as Hfk.
  { rewrite Ec in Hfl. apply (render_take_inv (lines_of t) _ _ tl); [by apply flushed_le|done..]. }
  destruct (compare_beginning t k tl Ht Hk Htl Hfk) as (h & Hh & _ & Hcmp).
  apply read_log_wp; [|intros s1; apply wp_bind, wp_lift; split; [by apply Hint|done]].
  intros s1. cbn [World.log World.with_script]. rewrite Ec, Hcmp. apply wp_bind, wp_lift.
  cbn [map_err]. apply wp_bind, wp_rethrow, wp_file_step.
  2:{ intros s2. split; [by apply Hint|done]. }
  intros s2. cbn [found Compared.tail Compared.comparison Compared.head StoreComparison.log_records].
  apply wp_bind. eapply wp_mono; [by apply (remove_tail_wp t _ k tl)| |].
  2:{ intros e w' (f & s3 & -> & Hf3 & He). split; [by apply Hint|done]. }
  intros bytes w' (f & s3 & -> & Hf3 & Ec3).
  rewrite read_head by done. apply wp_bind.
  eapply wp_mono; [apply (append_pending_wp t _ k); try done| |].
  { unfold lines_of. rewrite length_map. lia. }
  2:{ intros e w' (f4 & s4 & -> & Hf4 & He). split; [by apply Hint|done]. }
  intros x w' (f4 & s4 & h' & n' & -> & Hf4 & Ec4 & -> & Hh').
  apply (finish_wp w f4 s4 h' _ (fun seq head => Recovered.Make seq head _ _ _)); done.
Qed.

End facts.

Section facts.
  Context `{Sha256} {D : Type}.
  Implicit Types (w : World.t D) (f : File.t) (t : Tables.t).

(** * Invariants of a world *)

Definition sound w : Prop := tables_ok (World.tables w) /\ file_ok (World.tables w) (World.log w).

(** While nothing has failed, the writer knows exactly what the log holds. *)
Definition inv w : Prop :=
  sound w /\
  (World.poisoned w = None -> forall writer, World.writer w = Some writer ->
     writer_ok (World.tables w) (World.log w) writer).

(** The first [n] records are in the log, and synced. *)
Definition durable w (n : nat) : Prop :=
  n <= length (lines_of (World.tables w)) /\
  sprefix (render (take n (lines_of (World.tables w)))) (File.contents (World.log w)) /\
  sprefix (render (take n (lines_of (World.tables w)))) (File.synced (World.log w)).

(** The same records committed, and the same data. *)
Definition follows w w' : Prop :=
  same_chain (World.tables w) (World.tables w') /\ World.data w' = World.data w.

Lemma follows_refl w : follows w w.
Proof. done. Qed.

Lemma follows_trans w1 w2 w3 : follows w1 w2 -> follows w2 w3 -> follows w1 w3.
Proof. unfold follows, same_chain. intros [-> ->] [-> ->]. done. Qed.

Lemma writer_durable w writer n :
  tables_ok (World.tables w) -> writer_ok (World.tables w) (World.log w) writer ->
  n <= N.to_nat (AuditWriter.durable_seq writer) -> durable w n.
Proof.
  intros Ht (k & -> & Hk & _ & Ec & Es) Hn. rewrite Nat2N.id in Hn. unfold durable.
  rewrite Es, Ec. split_and!; [lia|by apply render_take_le..].
Qed.

Lemma writer_ok_same t t' f writer :
  same_chain t t' -> writer_ok t f writer -> writer_ok t' f writer.
Proof.
  intros E (k & Hs & Hk & Hh & Hx). pose proof (same_chain_lines _ _ E) as El.
  exists k. unfold exactly, hash_at in *. rewrite El. by rewrite E.
Qed.

(** * Flushing *)

(** A hook stops, and poisons, or does nothing. *)
Lemma crash_wp point w (Q : unit -> World.t D -> Prop) (R : AuthorityError.t -> World.t D -> Prop) :
  (forall s, Q () (logged w (World.log w) s)) ->
  (forall e s p q, R e (World.with_poison (logged w (World.log w) s) (Some p) q)) ->
  wp (Shared.crash point) Q R w.
Proof.
  intros HQ HR. apply wp_bind, wp_fate. intros [|n e] s; [apply (HQ s)|]. apply HR.
Qed.

Lemma crash_at_wp point w (Q : unit -> World.t D -> Prop) (R : FlushFailure.t -> World.t D -> Prop) :
  (forall s, Q () (logged w (World.log w) s)) ->
  (forall e s p q, R (FlushFailure.Stopped e) (World.with_poison (logged w (World.log w) s) (Some p) q)) ->
  wp (crash_at Shared.crash point) Q R w.
Proof. intros HQ HR. apply wp_rethrow. by apply crash_wp. Qed.

(** What a failed flush leaves, by how it failed. *)
Definition flush_failed w (e : FlushFailure.t) w' : Prop :=
  sound w' /\ follows w w' /\
  match e with
  | FlushFailure.Io => True
  | FlushFailure.Stopped _ => World.poisoned w' <> None
  | FlushFailure.Sqlite _ =>
      World.poisoned w' = World.poisoned w /\
      exists writer, World.writer w' = Some writer /\
        writer_ok (World.tables w') (World.log w') writer
  | FlushFailure.Diverged => False
  end.

Lemma stopped_failed w f s e p q :
  tables_ok (World.tables w) -> file_ok (World.tables w) f ->
  flush_failed w (FlushFailure.Stopped e) (World.with_poison (logged w f s) (Some p) q).
Proof. intros Ht Hf. by split_and!. Qed.

Lemma split_half_app line : (split_half line).1 +:+ (split_half line).2 = line.
Proof.
  unfold split_half. cbn [fst snd]. apply substring_split.
  apply Nat.Div0.div_le_upper_bound. lia.
Qed.

Lemma io_failed w f s : tables_ok (World.tables w) -> file_ok (World.tables w) f ->
  flush_failed w FlushFailure.Io (logged w f s).
Proof. intros Ht Hf. by split_and!. Qed.

(** Writing the rows past the first [k]. *)
Lemma write_rows_wp w pending k hash f s :
  let t := World.tables w in
  tables_ok t -> pending = drop k (Tables.chain t) -> k <= length (lines_of t) ->
  hash_at t k hash -> file_ok t f -> File.contents f = render (take k (lines_of t)) ->
  wp (write_rows Shared.crash pending (N.of_nat k) hash)
    (fun x w' => exists f' s' h', w' = logged w f' s' /\ file_ok t f' /\
       File.contents f' = render (lines_of t) /\
       x = (N.of_nat (length (lines_of t)), h') /\ hash_at t (length (lines_of t)) h')
    (flush_failed w) (logged w f s).
Proof.
  intros t Ht. pose proof (lines_bound t Ht) as Hb.
  assert (length (lines_of t) = length (Tables.chain t)) as El by apply length_map.
  revert k hash f s. induction pending as [|r pending IH]; intros k hash f s Ep Hk Hh Hf Ec;
    cbn [write_rows].
  { apply wp_ret. assert (k = length (lines_of t)) as ->.
    { symmetry in Ep. apply (f_equal length) in Ep. rewrite length_drop in Ep. simpl in Ep. lia. }
    rewrite firstn_all in Ec. by exists f, s, hash. }
  assert (Tables.chain t !! k = Some r) as Hr.
  { rewrite <- (Nat.add_0_r k), <- lookup_drop, <- Ep. done. }
  assert (lines_of t !! k = Some (Row.record r)) as Hl.
  { unfold lines_of. by rewrite list_lookup_fmap, Hr. }
  pose proof (lookup_lt_Some _ _ _ Hr) as Hlt.
  destruct (hash_at_next t k hash r Ht Hh Hr) as (v & Hv & Hhv & Hseq & Hprev & Hhash).
  rewrite saturating_small by lia. rewrite Hseq, Hprev, Hhash, String.eqb_refl.
  unfold u64_of. rewrite (proj2 (Z.ltb_ge _ 0)), N2Z.id, bool_decide_true by (done || lia).
  cbn [negb orb]. pose proof (split_half_app (Row.record r +:+ String newline "")) as Hsplit.
  destruct (split_half _) as [first second]. cbn [fst snd] in Hsplit.
  pose proof (render_next t k _ (first +:+ second) Hl) as Hnext. rewrite Hsplit in Hnext.
  specialize (Hnext (sprefix_refl _)). rewrite <- Hsplit, <- string_app_assoc in Hnext.
  apply wp_bind, wp_rethrow, (write_all_wp t); [done| | |].
  { cbn [World.log logged]. rewrite Ec. by apply (sprefix_trans _ _ _ (sprefix_app _ second)). }
  2:{ intros s1 f1 Hf1. by apply (io_failed w). }
  intros s1 f1 Hf1 E1. cbn [World.log logged] in E1. rewrite Ec in E1.
  apply wp_bind, crash_at_wp; [|intros; by apply (stopped_failed w)].
  intros s2. apply wp_bind, wp_rethrow, (write_all_wp t); [done| | |].
  { cbn [World.log logged]. by rewrite E1. }
  2:{ intros s3 f3 Hf3. by apply (io_failed w). }
  intros s3 f3 Hf3 E3. cbn [World.log logged] in E3.
  rewrite Sha256Hash.from_hex_to_hex by (by apply (verified_line_wf _ _ _ _ Hv)).
  replace (N.of_nat k + 1)%N with (N.of_nat (S k)) by lia.
  apply IH; [|lia|done|done|].
  - rewrite (drop_S _ _ _ Hr) in Ep. by injection Ep as ->.
  - rewrite E3, E1, string_app_assoc, Hsplit, <- string_app_assoc. by apply render_take_next.
Qed.

(** The mark of a flush: recorded, or not. *)
Lemma update_state_past_Ok t k h :
  tables_ok t -> k <= length (lines_of t) -> Sha256Hash.wf h ->
  exists t', update_state_past (Z.of_nat k) (Sha256Hash.to_hex h) t = Ok t' /\
    tables_ok t' /\ same_chain t t' /\ flushed_of t' <= Nat.max k (flushed_of t).
Proof.
  intros Ht Hk Hh. unfold update_state_past. destruct (Z.ltb_spec (Tables.flushed_seq t) (Z.of_nat k)).
  - assert (flushed_of t <= k) as Hf by (unfold flushed_of; lia).
    destruct (update_state_Ok t k h Ht Hf Hk Hh) as (t' & E & Ht' & Hs & <-).
    exists t'. split_and!; [done..|lia].
  - exists t. split_and!; [done..|lia].
Qed.

Lemma file_ok_exactly t t' f :
  tables_ok t' -> same_chain t t' -> exactly t f (length (lines_of t)) ->
  (str_len (File.contents f) <= FILE_MAX)%N -> file_ok t' f.
Proof.
  intros Ht' Hs [Ec Es] Hm. pose proof (same_chain_lines _ _ Hs) as El.
  rewrite firstn_all in Ec. unfold file_ok. rewrite Es.
  assert (log_ok t' (File.contents f)) as Hok; [|done].
  rewrite Ec, <- El in *. split_and!; [done| |done].
  rewrite <- (firstn_all (lines_of t')) at 2. by apply render_take_le, flushed_le.
Qed.

(** A flush makes its target durable. *)
Lemma flush_through_wp w writer n :
  sound w -> World.writer w = Some writer ->
  writer_ok (World.tables w) (World.log w) writer -> n <= length (lines_of (World.tables w)) ->
  wp (flush_through Shared.crash writer (N.of_nat n))
    (fun _ w' => inv w' /\ follows w w' /\ durable w' n) (flush_failed w) w.
Proof.
  intros [Ht Hf] Ew Hw Hn. unfold flush_through.
  destruct (N.leb_spec (N.of_nat n) (AuditWriter.durable_seq writer)) as [Hd|Hd].
  { apply wp_ret. split_and!; [split; [done|]|done|].
    - intros _ writer' E. rewrite Ew in E. by injection E as <-.
    - apply (writer_durable w writer); [done|done|lia]. }
  destruct Hw as (k & Ek & Hk & Hh & Ec & Es). set (t := World.tables w) in *.
  assert (exists h, row_chain 0 Sha256Hash.ZERO (Tables.chain t)
    (N.of_nat (length (Tables.chain t))) h) as [hh Hc] by (destruct Ht as (h & Hc & _); eauto).
  apply wp_bind, crash_at_wp; [|intros; by apply (stopped_failed w)].
  intros s. rewrite Ek, (i64_of_records t) by done. apply wp_bind, wp_rethrow, wp_query.
  2:{ intros e s1. split_and!; [done|done|done|]. exists writer. split; [done|].
      by exists k. }
  intros s1. cbn [World.tables World.with_script logged]. fold t. unfold select_past.
  pose proof (row_chain_filter _ _ _ _ _ k Hc) as Efilter. rewrite N.add_0_l, nat_N_Z in Efilter.
  rewrite Efilter. change (World.with_script _ s1) with (logged w (World.log w) s1).
  apply wp_bind. eapply wp_mono; [by apply (write_rows_wp w _ k)| |done].
  intros x w' (f & s2 & h & -> & Hf' & Ec' & -> & Hh').
  fold t in Hf', Ec', Hh' |- *. rewrite (proj2 (N.ltb_ge _ _)) by lia.
  apply wp_bind, crash_at_wp; [|intros; by apply (stopped_failed w)].
  intros s3. apply wp_bind, wp_rethrow, wp_sync_all; [|intros s4; by apply (io_failed w)].
  intros s4. apply wp_bind, wp_modify. cbn [World.log logged].
  set (writer' := AuditWriter.Make (N.of_nat (length (lines_of t))) h).
  set (w1 := World.with_writer w (Some writer')).
  change (World.with_writer _ _) with (logged w1 (File.sync f) s4).
  assert (file_ok t (File.sync f)) as Hsync by (split; apply Hf').
  assert (exactly t (File.sync f) (length (lines_of t))) as Hx.
  { split; [|done]. cbn [File.contents File.sync]. by rewrite Ec', firstn_all. }
  assert (forall t', tables_ok t' -> same_chain t t' ->
    file_ok t' (File.sync f) /\ writer_ok t' (File.sync f) writer' /\
    (forall w', World.tables w' = t' -> World.log w' = File.sync f -> durable w' n)) as Hend.
  { intros t' Ht' Hs. split; [apply (file_ok_exactly t); [done..|apply Hsync]|].
    assert (writer_ok t' (File.sync f) writer') as Hw'.
    { apply (writer_ok_same t); [done|]. by exists (length (lines_of t)). }
    split; [done|]. intros w' Et El. apply (writer_durable w' writer'); rewrite ?Et, ?El; [done..|].
    cbn [AuditWriter.durable_seq writer']. lia. }
  apply wp_bind, crash_at_wp; [|intros; by apply (stopped_failed w1)].
  intros s5. rewrite (i64_of_records t) by done. apply wp_bind, wp_rethrow, wp_execute.
  2:{ intros e s6. split_and!; [by split|done|done|]. exists writer'. split; [done|].
      by apply Hend. }
  destruct (update_state_past_Ok t (length (lines_of t)) h Ht (le_n _) (hash_at_wf _ _ _ Hh'))
    as (t' & Eu & Ht' & Hs & _).
  cbn [World.tables World.with_tables logged w1 World.with_writer]. fold t. rewrite Eu.
  destruct (Hend t' Ht' Hs) as (Hf2 & Hw2 & Hd2). split.
  - intros s6. apply crash_at_wp.
    + intros s7. split_and!; [|done|by apply Hd2]. split; [done|].
      intros _ wr [= <-]. exact Hw2.
    + intros e s7 p q. split_and!; done.
  - intros e s6. split_and!; [done|done|done|]. by exists writer'.
Qed.

Lemma poison_wp {A} reason w (Q : A -> World.t D -> Prop) (R : AuthorityError.t -> World.t D -> Prop) :
  (forall p q, R (AuthorityError.Poisoned reason) (World.with_poison w (Some p) q)) ->
  wp (Shared.poison reason) Q R w.
Proof. intros HR. apply HR. Qed.

(** A poisoned world writes no more to its log. *)
Lemma poisoned_inv w p q : sound w -> inv (World.with_poison w (Some p) q).
Proof. intros Hs. split; [exact Hs|done]. Qed.

(** A database error poisons, or leaves the world as it was. *)
Lemma sql_wp {A} e w (Q : A -> World.t D -> Prop) (R : AuthorityError.t -> World.t D -> Prop) :
  (forall e', R e' w) -> (forall e' p q, R e' (World.with_poison w (Some p) q)) ->
  wp (Shared.sql e) Q R w.
Proof. intros H0 H1. unfold Shared.sql. destruct e; cbn; (apply H0 || apply H1). Qed.

(** * The handles *)

Lemma check_wp w (Q : unit -> World.t D -> Prop) (R : AuthorityError.t -> World.t D -> Prop) :
  (World.poisoned w = None -> Q () w) -> (forall e, R e w) -> wp Shared.check Q R w.
Proof. intros HQ HR. unfold wp, Shared.check. destruct (World.poisoned w); auto. Qed.

Lemma flush_wp w n :
  inv w -> n <= length (lines_of (World.tables w)) ->
  wp (Shared.flush (N.of_nat n)) (fun _ w' => inv w' /\ follows w w' /\ durable w' n)
    (fun _ w' => inv w' /\ follows w w') w.
Proof.
  intros Hinv Hn. pose proof Hinv as [Hs Hw]. apply wp_bind, check_wp; [|by intros _].
  intros Ep. apply wp_bind, wp_gets. destruct (World.writer w) as [writer|] eqn:Ew; [|done].
  apply wp_catch. eapply wp_mono; [by apply (flush_through_wp w writer n); auto|done|].
  intros e w' (Hs' & Hfw & He). destruct e as [|e|e|]; [| | |done].
  - apply poison_wp. intros p q. split; [by apply poisoned_inv|done].
  - destruct He as (Ep' & writer' & Ew' & Hw'). apply sql_wp.
    + intros e'. split; [split; [done|]|done]. intros _ wr E. rewrite Ew' in E. by injection E as <-.
    + intros e' p q. split; [by apply poisoned_inv|done].
  - apply wp_throw. split; [|done]. split; [done|]. by intros ?%He.
Qed.

(** ** Transactions *)

(** How a body changes its context: data as it likes, the audit's tables only
    by appending records. *)
Inductive extends (c1 : Work.t D) : Work.t D -> Prop :=
| extends_refl : extends c1 c1
| extends_data c2 d : extends c1 c2 ->
    extends c1 (Work.Make (Work.tx c2) d (Work.now c2) (Work.last_seq c2))
| extends_audit c2 c3 event fields : extends c1 c2 -> fields_ok fields ->
    Work.audit event fields c2 = Ok ((), c3) -> extends c1 c3.

(** What is asked of a body: every operation of the authority's is built of
    [Work.audit] and changes of its own data. *)
Definition body_ok {A} (body : Work.body A) : Prop :=
  forall c1 a c2, body c1 = Ok (a, c2) -> extends c1 c2.

(** More records, the same mark. *)
Definition grown t t' : Prop :=
  tables_ok t' /\ flushed_of t' = flushed_of t /\ exists rows, Tables.chain t' = Tables.chain t ++ rows.

Definition last_ok (work : Work.t D) : Prop :=
  forall seq, Work.last_seq work = Some seq ->
    exists n, seq = N.of_nat n /\ n <= length (lines_of (Work.tx work)).

Lemma extends_grown c1 c2 :
  extends c1 c2 -> tables_ok (Work.tx c1) -> last_ok c1 -> grown (Work.tx c1) (Work.tx c2) /\ last_ok c2.
Proof.
  intros He Ht Hl. induction He as [|c2 d _ IH|c2 c3 event fields _ IH Hf Ha]; [|done|].
  - split; [|done]. split_and!; [done..|]. exists []. by rewrite app_nil_r.
  - destruct IH as [(Ht2 & Hfl & rows & Er) _]. unfold Work.audit in Ha.
    destruct (AuditStore.append _ _ _ _) as [[seq t]|[]] eqn:Ea; try done. injection Ha as <-.
    cbn [Work.tx Work.last_seq]. destruct (append_Ok _ _ _ _ _ _ Ht2 Hf Ea) as (Ht3 & -> & (row & Ec) & Ef).
    split.
    + split_and!; [done| |].
      * unfold flushed_of in *. by rewrite Ef.
      * exists (rows ++ [row]). by rewrite Ec, Er, app_assoc.
    + intros seq' [= <-]. eexists. split; [done|]. unfold lines_of. cbn [Work.tx].
      rewrite length_map, Ec, length_app. simpl. lia.
Qed.

Lemma grown_take t t' k :
  grown t t' -> k <= length (lines_of t) ->
  take k (Tables.chain t') = take k (Tables.chain t) /\ take k (lines_of t') = take k (lines_of t).
Proof.
  intros (_ & _ & rows & E) Hk. unfold lines_of in *. rewrite length_map in Hk.
  rewrite !firstn_map, E, take_app_le by done. done.
Qed.

Lemma grown_log_ok t t' s : tables_ok t -> grown t t' -> log_ok t s -> log_ok t' s.
Proof.
  intros Ht Hg (Hp & Hf & Hm). pose proof Hg as (Ht' & Efl & rows & E). split_and!; [| |done].
  - apply (sprefix_trans _ _ _ Hp). unfold lines_of. rewrite E, map_app, render_app. apply sprefix_app.
  - destruct (grown_take t t' (flushed_of t) Hg (flushed_le t Ht)) as [_ El]. by rewrite Efl, El.
Qed.

Lemma grown_writer_ok t t' f writer :
  grown t t' -> writer_ok t f writer -> writer_ok t' f writer.
Proof.
  intros Hg (k & Hs & Hk & Hh & Hx). destruct (grown_take t t' k Hg Hk) as [Ec El].
  exists k. unfold hash_at, exactly in *. rewrite Ec, El. split_and!; try done; try apply Hx.
  destruct Hg as (_ & _ & rows & E). unfold lines_of in *. rewrite E, length_map, length_app in *. lia.
Qed.

(** The world once a context is committed. *)
Definition after w (work : Work.t D) : World.t D :=
  World.with_data (World.with_tables w (Work.tx work)) (Work.data work).

Lemma after_inv w work : inv w -> grown (World.tables w) (Work.tx work) -> inv (after w work).
Proof.
  intros [[Ht Hf] Hw] Hg. split.
  - split; [apply Hg|]. split; (eapply grown_log_ok; [done|done|apply Hf]).
  - intros Ep writer Ew. eapply grown_writer_ok; [done|]. by apply Hw.
Qed.

(** The body's context at the start of a transaction. *)
Definition start_of w (now : N) : Work.t D := Work.Make (World.tables w) (World.data w) now None.

(** Whether a transaction committed, and what. *)
Definition rolled_back_or_committed {A} w now (body : Work.body A) w' : Prop :=
  follows w w' \/ exists a work, body (start_of w now) = Ok (a, work) /\ follows (after w work) w'.

Lemma commit_wp w work :
  inv w -> grown (World.tables w) (Work.tx work) ->
  wp (catch (commit (Work.tx work) (Work.data work)) Shared.sql)
    (fun _ w' => inv w' /\ follows (after w work) w')
    (fun _ w' => inv w' /\ (follows w w' \/ follows (after w work) w')) w.
Proof.
  intros Hinv Hg. pose proof (after_inv w work Hinv Hg) as Hafter.
  apply wp_catch, wp_bind, wp_fate. intros [|n e] s; [by apply wp_modify|].
  apply wp_bind, wp_modify, wp_throw. destruct (n =? 0)%N; apply sql_wp.
  - intros _. split; [exact Hinv|by left].
  - intros _ p q. split; [apply (poisoned_inv (logged w (World.log w) s)), Hinv|by left].
  - intros _. split; [exact Hafter|by right].
  - intros _ p q. split; [apply (poisoned_inv (logged (after w work) (World.log w) s)), Hafter|by right].
Qed.

Lemma committed_wp {A} now (body : Work.body A) w :
  inv w -> body_ok body ->
  wp (committed now body)
    (fun x w' => exists work, body (start_of w now) = Ok (x.1, work) /\ x.2 = Work.last_seq work /\
       grown (World.tables w) (Work.tx work) /\ last_ok work /\ follows (after w work) w' /\ inv w')
    (fun _ w' => inv w' /\ rolled_back_or_committed w now body w') w.
Proof.
  intros Hinv Hbody. pose proof Hinv as [Hs Hw].
  apply wp_bind, check_wp; [|by intros _; split; [|left]].
  intros Ep. apply wp_bind, crash_wp; [|intros e s p q; split; [by apply poisoned_inv|by left]].
  intros s. apply wp_bind, wp_catch, wp_query.
  2:{ intros e s1. apply sql_wp; [by intros _; split; [|left]|].
      intros e' p q. split; [by apply poisoned_inv|by left]. }
  intros s1. change (Work.Make _ _ now None) with (start_of w now).
  destruct (body (start_of w now)) as [[a work]|e] eqn:Eb.
  2:{ destruct e; try (apply wp_throw; split; [done|by left]).
      apply poison_wp. intros p q. split; [by apply poisoned_inv|by left]. }
  destruct (extends_grown _ _ (Hbody _ _ _ Eb) (proj1 Hs)) as [Hg Hl]; [done|].
  apply wp_bind, crash_wp; [|intros e s2 p q; split; [by apply poisoned_inv|by left]].
  intros s2. apply wp_bind. eapply wp_mono; [by apply commit_wp| |].
  - intros _ w' [Hi Hfw]. apply wp_ret. by exists work.
  - intros _ w' [Hi [Hfw|Hfw]]; (split; [done|]); [by left|right; by exists a, work].
Qed.

(** A transaction that answers has committed what its body computed, and its
    records are durable; one that does not has committed it too, or nothing. *)
Lemma transact_wp {A} now (body : Work.body A) w :
  inv w -> body_ok body ->
  wp (transact now body)
    (fun a w' => inv w' /\ exists work, body (start_of w now) = Ok (a, work) /\
       follows (after w work) w' /\
       forall seq, Work.last_seq work = Some seq -> durable w' (N.to_nat seq))
    (fun _ w' => inv w' /\ rolled_back_or_committed w now body w') w.
Proof.
  intros Hinv Hbody. apply wp_bind. eapply wp_mono; [by apply committed_wp| |done].
  intros [a last] w' (work & Eb & Elast & Hg & Hl & Hfw & Hi). cbn [fst snd] in *. subst last.
  destruct (Work.last_seq work) as [seq|] eqn:El.
  - destruct (Hl seq El) as (n & -> & Hn). apply wp_bind.
    assert (n <= length (lines_of (World.tables w'))) as Hn'.
    { destruct Hfw as [Hc _]. by rewrite (same_chain_lines _ _ Hc). }
    eapply wp_mono; [by apply (flush_wp w' n)| |].
    + intros _ w2 (Hi2 & Hf2 & Hd). apply wp_ret. split; [done|]. exists work.
      split_and!; [done|by apply (follows_trans _ w')|]. intros seq' E.
      rewrite El in E. injection E as <-. by rewrite Nat2N.id.
    + intros _ w2 [Hi2 Hf2]. split; [done|right]. exists a, work.
      split; [done|by apply (follows_trans _ w')].
  - apply wp_bind, wp_ret, wp_ret. split; [done|]. exists work. split_and!; [done..|].
    intros seq' E. by rewrite El in E.
Qed.

(** * Starts *)

Definition restarted w : World.t D :=
  World.with_poison (World.with_writer w None) None (World.quarantined w).

(** A start from a sound log makes it whole, or fails with an effect. *)
Lemma start_log_wp w :
  sound w ->
  wp start_log
    (fun r w' => inv w' /\ follows w w' /\ World.poisoned w' = None /\
       (exists writer, World.writer w' = Some writer) /\
       exactly (World.tables w') (World.log w') (length (lines_of (World.tables w))) /\
       flushed_of (World.tables w') = length (lines_of (World.tables w)))
    (fun e w' => inv w' /\ follows w w' /\ e <> StartError.Audit) w.
Proof.
  intros [Ht Hf]. apply wp_bind, wp_modify, wp_bind, wp_gets.
  change (World.with_poison _ None _) with (restarted w).
  destruct (World.quarantined (restarted w)); [by apply wp_throw; split_and!|].
  apply wp_bind, wp_catch. eapply wp_mono; [by apply (recover_wp (restarted w))| |].
  - intros r w' (f & t & s & -> & Ht' & Hsame & Hf' & Hx & Hfl & Hseq & Hhash).
    apply wp_bind, wp_rethrow, wp_file_step; [|intros s1; by split_and!].
    intros s1. apply wp_bind, wp_modify, wp_ret.
    pose proof (same_chain_lines _ _ Hsame) as El. cbn [World.tables restarted] in El.
    split; [split; [by split|]|split_and!; try done; by eexists].
    intros _ writer [= <-]. exists (length (lines_of (World.tables w))).
    split_and!; [done|cbn; by rewrite El|exact Hhash|exact Hx].
  - intros e w' [(f & t & s & -> & Ht' & Hsame & Hf') He]. destruct e as [|e|fault]; [| |by destruct (He fault)].
    + apply wp_throw. by split_and!.
    + unfold opened. destruct e; cbn; by split_and!.
Qed.
End facts.

(** * Runs *)

Section runs.
  Context `{Sha256} {D : Type}.
  Implicit Types (w : World.t D).

(** A store as [create_store] makes it, before its first record. *)
Definition created (d : D) : World.t D :=
  World.Make (File.found "") genesis d None None false [].

(** Worlds the authority's processes can be in: transactions that commit and
    flushes of what was committed, each cut short by any fates, one handle's
    flush after another's commit; crashes at any of those points, a file left
    with any text that survives; and starts after them, cut short too. *)
Inductive reachable : World.t D -> Prop :=
| reach_created d : reachable (created d)
| reach_commit w s (A : Type) now (body : Work.body A) :
    reachable w -> body_ok body -> reachable (committed now body (World.with_script w s)).2
| reach_flush w s n :
    reachable w -> n <= length (lines_of (World.tables w)) ->
    reachable (Shared.flush (N.of_nat n) (World.with_script w s)).2
| reach_crash w s text :
    reachable w -> File.survives (World.log w) text ->
    reachable (start_log (World.with_script (World.with_log w (File.found text)) s)).2.

Lemma wp_snd {E A} (m : M D E A) (P : World.t D -> Prop) w :
  wp m (fun _ w' => P w') (fun _ w' => P w') w -> P (m w).2.
Proof. unfold wp. by destruct (m w) as [[a|e] w']. Qed.

Lemma found_ok t text : log_ok t text -> file_ok t (File.found text).
Proof. by split. Qed.

Lemma created_inv d : inv (created d).
Proof.
  split; [|done]. split; [exact genesis_ok|]. apply found_ok. split_and!; [by exists ""|by exists ""|done].
Qed.

Lemma reachable_inv w : reachable w -> inv w.
Proof.
  induction 1 as [d|w s A now body _ IH Hb|w s n _ IH Hn|w s text _ IH Hs].
  - apply created_inv.
  - apply wp_snd. eapply wp_mono; [by apply committed_wp| |by intros e w' [? _]].
    by intros x w' (work & _ & _ & _ & _ & _ & ?).
  - apply wp_snd. eapply wp_mono; [by apply flush_wp| |by intros e w' [? _]].
    by intros x w' [? _].
  - apply wp_snd. eapply wp_mono; [apply start_log_wp| |by intros e w' [? _]].
    + destruct IH as [[Ht Hf] _]. split; [done|]. by apply found_ok, (survives_ok _ (World.log w)).
    + by intros x w' [? _].
Qed.

(** * Effects that do not fail *)

Definition calm w : Prop := World.script w = [].

Lemma wp_query_calm {A} (f : World.t D -> A) Q (R : SqlError.t -> World.t D -> Prop) w :
  calm w -> Q (f w) w -> wp (query f) Q R w.
Proof. intros Hc HQ. unfold wp, query, bind, fate. by rewrite Hc. Qed.

Lemma wp_file_step_calm Q (R : unit -> World.t D -> Prop) w : calm w -> Q () w -> wp file_step Q R w.
Proof. intros Hc HQ. unfold wp, file_step, bind, fate. by rewrite Hc. Qed.

Lemma wp_sync_all_calm Q (R : unit -> World.t D -> Prop) w :
  calm w -> Q () (World.with_log w (File.sync (World.log w))) -> wp sync_all Q R w.
Proof. intros Hc HQ. unfold wp, sync_all, bind, fate. by rewrite Hc. Qed.

Lemma wp_set_len_calm n Q (R : unit -> World.t D -> Prop) w :
  calm w -> Q () (World.with_log w (File.set_len (World.log w) n)) -> wp (set_len n) Q R w.
Proof. intros Hc HQ. unfold wp, set_len, bind, fate. by rewrite Hc. Qed.

Lemma wp_write_all_calm bytes Q (R : unit -> World.t D -> Prop) w :
  calm w -> (str_len (File.contents (World.log w) +:+ bytes) <= FILE_MAX)%N ->
  Q () (World.with_log w (File.append (World.log w) bytes)) -> wp (write_all bytes) Q R w.
Proof.
  intros Hc Hl HQ. unfold wp, write_all, bind, fate, gets. rewrite Hc. unfold File.fits.
  rewrite str_len_append in Hl. by rewrite (proj2 (N.leb_le _ _) Hl).
Qed.

Lemma wp_execute_calm f Q (R : SqlError.t -> World.t D -> Prop) w t :
  calm w -> f (World.tables w) = Ok t -> Q () (World.with_tables w t) -> wp (execute f) Q R w.
Proof. intros Hc Hf HQ. unfold wp, execute, bind, fate, gets, lift, modify. rewrite Hc. by rewrite Hf. Qed.

(** ** Recovery without faults *)

Lemma append_pending_calm t fuel k h w n :
  tables_ok t -> k <= length (lines_of t) -> fuel = length (lines_of t) - k -> hash_at t k h ->
  calm w -> File.contents (World.log w) = render (take k (lines_of t)) ->
  (str_len (render (lines_of t)) <= FILE_MAX)%N ->
  wp (append_pending (StoreChain.read t) fuel (N.of_nat k) h n)
    (fun x w' => calm w' /\ World.tables w' = World.tables w /\
       x.1.1 = N.of_nat (length (lines_of t)) /\ hash_at t (length (lines_of t)) x.1.2)
    (fun _ _ => False) w.
Proof.
  intros Ht. revert k h w n. induction fuel as [|fuel IH]; intros k h w n Hk Hfuel Hh Hcalm Hc Hm;
    cbn [append_pending].
  { apply wp_ret. by assert (k = length (lines_of t)) as -> by lia. }
  assert (k < length (lines_of t)) as Hlt by lia.
  pose proof (lines_bound t Ht) as Hb. pose proof Hlt as Hlt'. unfold lines_of in Hlt'.
  rewrite length_map in Hlt'. rewrite read_head, (proj2 (N.ltb_lt _ _)) by (done || lia). cbn [negb].
  rewrite saturating_small by lia. apply wp_bind, wp_rethrow, wp_query_calm; [done|].
  rewrite read_record by done. destruct (lookup_lt_is_Some_2 _ _ Hlt) as [l Hl]. rewrite Hl.
  destruct (lines_lookup_row t k l Hl) as (r & Hr & <-).
  destruct (hash_at_next t k h r Ht Hh Hr) as (v & Hv & Hhv & _).
  apply wp_bind, wp_lift. rewrite Hv. cbn [map_err].
  assert (str_len (render (take (S k) (lines_of t))) <= FILE_MAX)%N as Hm'.
  { eapply N.le_trans; [|exact Hm]. apply sprefix_len.
    rewrite <- (firstn_all (lines_of t)) at 2. by apply render_take_le. }
  rewrite <- (render_take_next t k _ Hl) in Hm'.
  apply wp_bind, wp_rethrow, wp_write_all_calm; [done|rewrite Hc; rewrite str_len_append in Hm'; lia|].
  apply wp_bind, wp_rethrow, wp_write_all_calm; [done|cbn; by rewrite Hc|].
  replace (N.of_nat k + 1)%N with (N.of_nat (S k)) by lia.
  eapply wp_mono; [apply IH; [lia|lia|done|done| |done]|done|done].
  cbn. rewrite Hc. by apply render_take_next.
Qed.

Lemma remove_tail_calm t w k tl :
  (str_len (render (lines_of t)) <= FILE_MAX)%N -> calm w ->
  File.contents (World.log w) = render (take k (lines_of t)) +:+ tl ->
  wp (remove_tail (tail_of (end_of 0 (take k (lines_of t))) tl))
    (fun _ w' => calm w' /\ World.tables w' = World.tables w /\
       File.contents (World.log w') = render (take k (lines_of t)))
    (fun _ _ => False) w.
Proof.
  intros Hm Hcalm Ec. unfold tail_of. destruct tl as [|a tl]; cbn [is_empty remove_tail].
  { apply wp_ret. by rewrite string_app_nil_r in Ec. }
  assert (str_len (render (take k (lines_of t))) <= FILE_MAX)%N as Hm'.
  { eapply N.le_trans; [|exact Hm]. apply sprefix_len.
    rewrite <- (string_app_nil_r (render (take _ _))). apply render_take_prefix. by left. }
  rewrite end_of_render, N.add_0_l by (unfold U64_MAX, FILE_MAX in *; lia).
  apply wp_bind, wp_rethrow, wp_set_len_calm; [done|].
  apply wp_bind, wp_rethrow, wp_sync_all_calm; [done|]. apply wp_ret. split_and!; [done..|].
  cbn. unfold File.set_len. rewrite Ec, str_len_append, (proj2 (N.ltb_ge _ _)) by lia.
  apply str_take_app.
Qed.

Lemma recover_calm w :
  sound w -> calm w -> (str_len (render (lines_of (World.tables w))) <= FILE_MAX)%N ->
  wp recover (fun _ w' => calm w') (fun _ _ => False) w.
Proof.
  intros [Ht Hf] Hcalm Hm. set (t := World.tables w) in *.
  pose proof Hf as [(Hp & Hfl & _) _]. apply render_prefix in Hp as (k & tl & Hk & Ec & Htl).
  assert (flushed_of t <= k) as Hfk.
  { rewrite Ec in Hfl. apply (render_take_inv (lines_of t) _ _ tl); [by apply flushed_le|done..]. }
  destruct (compare_beginning t k tl Ht Hk Htl Hfk) as (h & Hh & _ & Hcmp).
  apply wp_bind, wp_rethrow, wp_query_calm; [done|]. fold t. apply wp_bind.
  assert (forall Q (R : RecoveryError.t -> World.t D -> Prop),
    Q (Some (File.contents (World.log w))) w -> wp read_log Q R w) as Hread.
  { intros Q R HQ. unfold wp, read_log, file_step, bind, fate. by rewrite Hcalm. }
  apply Hread. rewrite Ec, Hcmp. apply wp_bind, wp_lift. cbn [map_err].
  apply wp_bind, wp_rethrow, wp_file_step_calm; [done|].
  cbn [found Compared.tail Compared.comparison Compared.head StoreComparison.log_records].
  apply wp_bind. eapply wp_mono; [by apply (remove_tail_calm t w k tl)| |done].
  intros bytes w1 (Hc1 & Et1 & Ec1). rewrite read_head by done. apply wp_bind.
  eapply wp_mono; [apply (append_pending_calm t _ k); try done| |done].
  { unfold lines_of. rewrite length_map. lia. }
  intros [[seq head] n] w2 (Hc2 & Et2 & Hseq & Hhash). cbn [fst snd] in *. subst seq.
  apply wp_bind, wp_rethrow, wp_sync_all_calm; [done|]. rewrite (i64_of_records t) by done.
  destruct (update_state_Ok t _ head Ht (flushed_le t Ht) (le_n _) (hash_at_wf _ _ _ Hhash))
    as (t' & Eu & _). apply wp_bind, wp_rethrow.
  apply (wp_execute_calm _ _ _ _ t'); [done|cbn; by rewrite Et2, Et1|done].
Qed.

Lemma start_log_calm w :
  sound w -> calm w -> World.quarantined w = false ->
  (str_len (render (lines_of (World.tables w))) <= FILE_MAX)%N ->
  wp start_log (fun _ _ => True) (fun _ _ => False) w.
Proof.
  intros Hs Hcalm Hq Hm. apply wp_bind, wp_modify, wp_bind, wp_gets.
  change (World.with_poison _ None _) with (restarted w).
  change (World.quarantined (restarted w)) with (World.quarantined w). rewrite Hq.
  apply wp_bind, wp_catch. eapply wp_mono; [by apply (recover_calm (restarted w))| |done].
  intros r w' Hc. apply wp_bind, wp_rethrow, wp_file_step_calm; [done|]. done.
Qed.

End runs.

(** * A digest to show statements on: it collides, as any function to
    thirty-two bytes does. *)

Fixpoint checksum (s : string) (acc : N) : N :=
  match s with
  | EmptyString => acc
  | String a r => checksum r ((acc * 257 + byte_of a) mod 2 ^ 256)
  end.

Definition toy : Sha256 := {|
  sha256 s := be_bytes 32 (checksum s 1);
  sha256_length s := be_bytes_length 32 _
|}.
