(* ===== verification/AuditTheorems.v ===== *)
(** The properties of the audit: what a head hash binds, what an answer to a
    caller has behind it, and that no crash loses or forks the record. *)

From Stdlib Require Import ZArith.
From S2P Require Export RecoveryFacts.

(** * The properties *)

Section properties.
  Context `{Sha256} {D : Type}.

(** C25: A head hash binds the whole log: two logs that verify and end in one
    hash are the same bytes, unless SHA-256 collides (or gives the all-zero
    digest the empty log stands for). *)
Theorem head_hash_binds_log a b s s' :
  verify_audit_log (Some a) = Ok s -> verify_audit_log (Some b) = Ok s' ->
  AuditLogSummary.head s = AuditLogSummary.head s' ->
  a = b \/ collision \/
  (zero_digest /\ AuditLogSummary.records s <> AuditLogSummary.records s').
Proof.
  intros (la & -> & Ha)%verify_audit_log_Ok (lb & -> & Hb)%verify_audit_log_Ok E.
  rewrite <- E in Hb. destruct (chained_hash_binds _ _ _ _ _ Ha Hb) as [->|[|]]; tauto.
Qed.

(** C4: No crash loses or forks the record. Whatever stopped the processes so
    far (fates, crashes, interrupted starts), and whatever text the last crash
    left in the file, the next start that meets no fault makes the log exactly
    the committed records, once each and in order; it verifies, ends in the
    store's head hash, and no committed data is lost. *)
Theorem crash_recovers (w : World.t D) text :
  reachable w -> File.survives (World.log w) text -> World.quarantined w = false ->
  let lines := lines_of (World.tables w) in
  (str_len (render lines) <= FILE_MAX)%N ->
  exists r w' s, start_log (World.with_script (World.with_log w (File.found text)) []) = (Ok r, w') /\
    File.contents (World.log w') = render lines /\ File.synced (World.log w') = render lines /\
    lines_of (World.tables w') = lines /\ World.data w' = World.data w /\
    flushed_of (World.tables w') = length lines /\
    verify_audit_log (Some (File.contents (World.log w'))) = Ok s /\
    AuditLogSummary.records s = N.of_nat (length lines) /\
    Sha256Hash.to_hex (AuditLogSummary.head s) = Tables.head_hash (World.tables w).
Proof.
  intros [[Ht Hf] _]%reachable_inv Hs Hq lines Hm.
  set (w0 := World.with_script (World.with_log w (File.found text)) []).
  assert (sound w0) as Hw0 by (split; [done|by apply found_ok, (survives_ok _ (World.log w))]).
  pose proof (start_log_wp w0 Hw0) as Hok. pose proof (start_log_calm w0 Hw0 eq_refl Hq Hm) as Hcalm.
  unfold wp in Hok, Hcalm. destruct (start_log w0) as [[r|e] w']; [|done].
  destruct Hok as (_ & [Hc Hd] & _ & _ & [Ec Es] & Hfl).
  pose proof (same_chain_lines _ _ Hc) as El. rewrite El in Ec.
  change (lines_of (World.tables w0)) with lines in *. rewrite firstn_all in Ec.
  destruct Ht as (h & Hch & _ & Hh & _).
  exists r, w', (AuditLogSummary.Make (N.of_nat (length lines)) h).
  split_and!; try done; [by rewrite Es|].
  apply verify_audit_log_Ok. exists lines. split; [done|]. cbn.
  unfold lines, lines_of. rewrite length_map. by apply row_chain_chained in Hch.
Qed.

(** The context of a transaction is what a world holds committed. *)
Definition committed_as (work : Work.t D) (w : World.t D) : Prop :=
  Tables.chain (World.tables w) = Tables.chain (Work.tx work) /\ World.data w = Work.data work.

(** What there is behind a transaction's answer, or the want of one. *)
Definition answered {A} (w : World.t D) now (body : Work.body A)
    (outcome : result A AuthorityError.t * World.t D) : Prop :=
  match outcome with
  | (Ok a, w') =>
      exists work, body (start_of w now) = Ok (a, work) /\ committed_as work w' /\
        forall seq, Work.last_seq work = Some seq ->
          forall text, File.survives (World.log w') text ->
            sprefix (render (take (N.to_nat seq) (lines_of (Work.tx work)))) text
  | (Err e, w') =>
      follows w w' \/ exists a work, body (start_of w now) = Ok (a, work) /\ committed_as work w'
  end.

(** C5: A transaction answers only once its records are durable: the answer is
    what its body computed, its data and records are committed, and whatever
    text a later crash leaves in the log begins with them. One that does not
    answer has committed nothing, or all of it. *)
Theorem answer_is_audited (w : World.t D) s {A} now (body : Work.body A) :
  reachable w -> body_ok body -> answered w now body (transact now body (World.with_script w s)).
Proof.
  intros Hr%reachable_inv Hb. pose proof (transact_wp now body (World.with_script w s) Hr Hb) as Ht.
  unfold wp in Ht. destruct (transact _ _ _) as [[a|e] w'].
  - destruct Ht as (_ & work & Eb & [Ec Ed] & Hd). exists work. split; [done|]. split; [done|].
    intros seq Hseq text [_ Hall]. destruct (Hd seq Hseq) as (_ & H1 & H2).
    assert (lines_of (World.tables w') = lines_of (Work.tx work)) as El by by apply same_chain_lines.
    rewrite El in *. by apply Hall.
  - destruct Ht as [_ [Hf|(a & work & Eb & [Ec Ed])]]; [by left|right]. by exists a, work.
Qed.

(** C26: The log checks against the store exactly when it holds every record
    acknowledged as durable and nothing but a beginning of the records
    committed: a truncation, an addition, an edit, a foreign tail is refused. *)
Theorem store_check_exact (w : World.t D) text :
  reachable w ->
  (exists c, verify_audit_against_store (Some (World.tables w)) (Some text) = Ok c) <->
  sprefix text (render (lines_of (World.tables w))) /\
  sprefix (render (take (flushed_of (World.tables w)) (lines_of (World.tables w)))) text.
Proof.
  intros [[Ht _] _]%reachable_inv. set (t := World.tables w) in *. unfold verify_audit_against_store.
  split.
  - intros [c E]. destruct (AuditStore.compare _ _) as [found|] eqn:Ec; [|done].
    apply compare_Ok in Ec as (k & tl & Hk & Htl & Hf & ->); [|done].
    split; [by apply render_take_prefix|].
    apply (sprefix_trans _ (render (take k (lines_of t)))); [by apply render_take_le|apply sprefix_app].
  - intros [Hp Hf]. apply render_prefix in Hp as (k & tl & Hk & -> & Htl).
    assert (flushed_of t <= k) as Hfk.
    { apply (render_take_inv (lines_of t) _ _ tl); [by apply flushed_le|done..]. }
    destruct (compare_beginning t k tl Ht Hk Htl Hfk) as (h & _ & _ & ->). eauto.
Qed.
End properties.

(** * Witnesses *)

#[local] Existing Instance toy.

Definition note : Work.body (D := unit) () :=
  Work.audit AuditEvent.LeaseAcquired
    (Fields.int (Fields.text Fields.new "session_id" "s") "epoch" 1).

Lemma note_ok : body_ok note.
Proof.
  intros c1 [] c2 E. apply (extends_audit _ c1 _ AuditEvent.LeaseAcquired
    (Fields.int (Fields.text Fields.new "session_id" "s") "epoch" 1)); [constructor| |exact E].
  split_and!; repeat (apply List.Forall_cons || apply List.Forall_nil); try constructor;
    try (by apply Utf8_all_ascii); cbn; unfold WireLimits.MAX_DEPTH; lia.
Qed.

(** A store that has started, and a record committed in it. *)
Definition started : World.t unit :=
  (start_log (World.with_script (World.with_log (created ()) (File.found "")) [])).2.

Definition noted : World.t unit := (committed 7 note (World.with_script started [])).2.

(** Its flush, stopped in the middle of the line. *)
Definition cut : World.t unit :=
  (Shared.flush 1 (World.with_script noted [Goes; Goes; Fails 10 SqlError.OtherCode])).2.

Lemma survives_here (f : File.t) : File.survives f (File.contents f).
Proof. split; [left; apply sprefix_refl|by intros]. Qed.

Lemma started_reachable : reachable started.
Proof. apply (reach_crash (created ()) [] ""); [constructor|apply survives_here]. Qed.

Lemma noted_reachable : reachable noted.
Proof. apply (reach_commit started []); [exact started_reachable|exact note_ok]. Qed.

Lemma noted_lines : length (lines_of (World.tables noted)) = 1.
Proof. by vm_compute. Qed.

Lemma cut_reachable : reachable cut.
Proof.
  assert (1 <= length (lines_of (World.tables noted))) as Hn by (by rewrite noted_lines).
  exact (reach_flush noted _ 1 noted_reachable Hn).
Qed.

Definition line1 : string := render (lines_of (World.tables noted)).

(** The digest of its one record. *)
Definition head1 : Sha256Hash.t :=
  match verify_audit_log (Some line1) with
  | Ok s => AuditLogSummary.head s
  | Err _ => Sha256Hash.ZERO
  end.

Lemma line1_verifies : verify_audit_log (Some line1) = Ok (AuditLogSummary.Make 1 head1).
Proof. vm_compute. reflexivity. Qed.

Lemma head_hash_binds_log_witness :
  let s := AuditLogSummary.Make 1 head1 in
  verify_audit_log (Some line1) = Ok s /\
  (line1 = line1 \/ collision \/ (zero_digest /\ AuditLogSummary.records s <> AuditLogSummary.records s)).
Proof.
  split; [exact line1_verifies|].
  exact (head_hash_binds_log line1 line1 _ _ line1_verifies line1_verifies eq_refl).
Defined.

(** Five bytes of the ten written are left, and the line comes back whole. *)
Lemma crash_recovers_witness :
  reachable cut /\ File.survives (World.log cut) (str_take 5 line1) /\
  exists r w' s, start_log (World.with_script
      (World.with_log cut (File.found (str_take 5 line1))) []) = (Ok r, w') /\
    File.contents (World.log w') = render (lines_of (World.tables cut)) /\
    File.synced (World.log w') = render (lines_of (World.tables cut)) /\
    lines_of (World.tables w') = lines_of (World.tables cut) /\ World.data w' = World.data cut /\
    flushed_of (World.tables w') = length (lines_of (World.tables cut)) /\
    verify_audit_log (Some (File.contents (World.log w'))) = Ok s /\
    AuditLogSummary.records s = N.of_nat (length (lines_of (World.tables cut))) /\
    Sha256Hash.to_hex (AuditLogSummary.head s) = Tables.head_hash (World.tables cut).
Proof.
  split; [exact cut_reachable|].
  assert (File.survives (World.log cut) (str_take 5 line1)) as Hs.
  { split; [left; exists (substring 5 5 line1); vm_compute; reflexivity|].
    assert (File.synced (World.log cut) = "") as Ec by (vm_compute; reflexivity).
    intros p _ [t Ht]. rewrite Ec in Ht. destruct p; [apply sprefix_nil|discriminate Ht]. }
  split; [exact Hs|].
  apply (crash_recovers cut (str_take 5 line1) cut_reachable Hs).
  - vm_compute. reflexivity.
  - vm_compute. discriminate.
Defined.

Lemma answer_is_audited_witness :
  reachable started /\ body_ok note /\ (transact 7 note (World.with_script started [])).1 = Ok () /\
  answered started 7 note (transact 7 note (World.with_script started [])).
Proof.
  split; [exact started_reachable|]. split; [exact note_ok|]. split; [vm_compute; reflexivity|].
  exact (answer_is_audited started [] 7 note started_reachable note_ok).
Defined.

Lemma store_check_exact_witness :
  reachable noted /\
  ((exists c, verify_audit_against_store (Some (World.tables noted)) (Some line1) = Ok c) <->
   sprefix line1 (render (lines_of (World.tables noted))) /\
   sprefix (render (take (flushed_of (World.tables noted)) (lines_of (World.tables noted)))) line1).
Proof.
  split; [exact noted_reachable|]. exact (store_check_exact noted line1 noted_reachable).
Defined.
