(* ===== verification/WireId.v ===== *)
(** Prefixed identifiers ([dwk-proto/src/wire/id.rs]) and how the authority
    mints them ([dwkd-authority/src/state/ids.rs]): UUIDv7 values as Crockford
    base32 texts. *)

From S2P Require Export Prelude Text.

(** * Base32 *)

Definition ALPHABET : string := "0123456789ABCDEFGHJKMNPQRSTVWXYZ".
Definition ENCODED_LEN : nat := 26.
Definition U128_MAX : N := 340282366920938463463374607431768211455.

(** [ALPHABET.iter().position(|a| *a == byte)]. *)
Fixpoint position_from (at_ : N) (byte : ascii) (s : string) : option N :=
  match s with
  | EmptyString => None
  | String a r => if Ascii.eqb a byte then Some at_ else position_from (at_ + 1) byte r
  end.

Definition position (byte : ascii) : option N := position_from 0 byte ALPHABET.

(** [u128::checked_mul] and [checked_add]. *)
Definition u128 (v : N) : option N := if (v <=? U128_MAX)%N then Some v else None.

(** The loop of [decode_uuid7]; [first] is [i == 0]. *)
Fixpoint decode_loop (first : bool) (bytes : string) (value : N) : option N :=
  match bytes with
  | EmptyString => Some value
  | String byte rest =>
      digit ← position byte;
      if first && (7 <? digit)%N then None
      else
        value ← u128 (value * 32); value ← u128 (value + digit);
        decode_loop false rest value
  end.

(** The version and variant bits of a UUIDv7. *)
Definition is_uuid7 (value : N) : bool :=
  let version := N.land (N.shiftr value 76) 15 in
  let variant := N.land (N.shiftr value 62) 3 in
  (version =? 7)%N && (variant =? 2)%N.

Definition decode_uuid7 (body : string) : option N :=
  if negb (String.length body =? ENCODED_LEN)%nat then None
  else
    value ← decode_loop true body 0;
    then_some (is_uuid7 value) value.

(** [ALPHABET.get(index).copied().unwrap_or(b'0')]. *)
Definition symbol (index : N) : ascii := default "0"%char (String.get (N.to_nat index) ALPHABET).

(** The loop of [encode_uuid], from the last slot. *)
Fixpoint encode_loop (slots : nat) (v : N) (out : string) : string :=
  match slots with
  | 0 => out
  | S slots => encode_loop slots (N.shiftr v 5) (String (symbol (N.land v 31)) out)
  end.

Definition encode_uuid (value : N) : string := encode_loop ENCODED_LEN value "".

(** * Identifiers *)

(** The types [wire_id!] declares, by their prefix. *)
Module Id.

Record t (prefix : string) := Make { as_str : string }.
Arguments Make {prefix} _.
Arguments as_str {prefix} _.

#[global] Instance id_eq_dec prefix : EqDecision (t prefix).
Proof. solve_decision. Defined.

Definition parse (prefix s : string) : option (t prefix) :=
  body ← str_strip_prefix (prefix +:+ "_") s;
  _ ← decode_uuid7 body;
  Some (Make s).

Definition from_uuid (prefix : string) (value : N) : option (t prefix) :=
  parse prefix (prefix +:+ "_" +:+ encode_uuid value).

End Id.

Definition MessageId : Type := Id.t "msg".
Definition EventId : Type := Id.t "evt".
Definition SessionId : Type := Id.t "ses".
Definition RunId : Type := Id.t "run".
Definition CapId : Type := Id.t "cap".
Definition InvocationId : Type := Id.t "inv".
Definition ProcessId : Type := Id.t "prc".
Definition EnvironmentId : Type := Id.t "env".

Module AnyId.

Record t := Make { as_str : string }.

Definition parse (s : string) : option t :=
  '(prefix, body) ← str_split_once "_" s;
  let prefix_ok :=
    (2 <=? String.length prefix)%nat && (String.length prefix <=? 8)%nat
    && str_all is_lower prefix in
  then_some (prefix_ok && is_some (decode_uuid7 body)) (Make s).

Definition prefix (a : t) : string :=
  match str_split_once "_" (as_str a) with Some (p, _) => p | None => "" end.

End AnyId.

(** * Minting *)

Definition MAX_ID_COUNTER : N := 4398046511103.
Definition MAX_TS_MS : N := 281474976710655.

(** The layout of a minted value. *)
Definition uuid7 (ts_ms counter store_instance : N) : option N :=
  if (MAX_TS_MS <? ts_ms)%N || (MAX_ID_COUNTER <? counter)%N then None
  else
    let rand_a := N.land (N.shiftr counter 30) 0x0fff in
    let rand_b := N.lor (N.shiftl (N.land counter 0x3fffffff) 32) store_instance in
    Some (N.lor (N.lor (N.lor (N.lor (N.shiftl ts_ms 80) (N.shiftl 7 76))
            (N.shiftl rand_a 64)) (N.shiftl 2 62)) rand_b).

(** * Facts *)

(** ** Bits as arithmetic *)

Lemma land_mod v n : N.land v (N.ones n) = (v mod 2 ^ n)%N.
Proof. apply N.land_ones. Qed.

Lemma lor_shiftl_add a b n : (b < 2 ^ n)%N -> N.lor (N.shiftl a n) b = (a * 2 ^ n + b)%N.
Proof.
  intros Hb. rewrite <- N.shiftl_mul_pow2. symmetry.
  assert (N.land (N.shiftl a n) b = 0%N) as H0.
  { apply N.bits_inj_iff. intros i. rewrite N.land_spec, N.bits_0.
    destruct (N.lt_ge_cases i n) as [Hi|Hi].
    - by rewrite N.shiftl_spec_low.
    - rewrite <- (N.mod_small b (2 ^ n)), N.mod_pow2_bits_high by done. apply andb_false_r. }
  rewrite N.add_nocarry_lxor by done. by rewrite <- N.lxor_lor.
Qed.

(** ** Base32 *)

Lemma position_symbol n : (n < 32)%N -> position (symbol n) = Some n.
Proof.
  intros Hn. assert (forall k, k < 32 -> position (symbol (N.of_nat k)) = Some (N.of_nat k)) as H.
  { intros k Hk. do 32 (destruct k as [|k]; [by vm_compute|]). lia. }
  rewrite <- (N2Nat.id n). apply H. lia.
Qed.

Lemma position_Some byte n : position byte = Some n -> (n < 32)%N /\ symbol n = byte.
Proof.
  revert byte n. assert (forall a, is_none_or (position a)
    (fun n => (n <? 32)%N && Ascii.eqb (symbol n) a) = true) as H.
  { apply ascii_forall. by vm_compute. }
  intros a n E. specialize (H a). rewrite E in H. cbn in H.
  apply andb_true_iff in H as [?%N.ltb_lt ?%Ascii.eqb_eq]. done.
Qed.

Lemma u128_Some v w : u128 v = Some w <-> (v <= U128_MAX)%N /\ w = v.
Proof. unfold u128. destruct (N.leb_spec v U128_MAX); split; [by intros [= <-]|by intros [_ ->]|done|lia]. Qed.

Lemma u128_fits v : (v <= U128_MAX)%N -> u128 v = Some v.
Proof. intros Hv. by apply u128_Some. Qed.

Lemma encode_loop_app slots v out : encode_loop slots v out = encode_loop slots v "" +:+ out.
Proof.
  revert v out. induction slots as [|n IH]; intros v out; [done|]. cbn [encode_loop].
  rewrite IH, (IH _ (String _ "")), string_app_assoc. done.
Qed.

Lemma encode_loop_head slots v out :
  encode_loop (S slots) v out =
  String (symbol (v / 32 ^ N.of_nat slots mod 32)) (encode_loop slots v out).
Proof.
  revert v out. induction slots as [|n IH]; intros v out.
  - cbn [encode_loop]. rewrite N.div_1_r. f_equal. f_equal. exact (land_mod v 5).
  - change (encode_loop (S (S n)) v out)
      with (encode_loop (S n) (N.shiftr v 5) (String (symbol (N.land v 31)) out)).
    rewrite IH, N.shiftr_div_pow2, N.Div0.div_div.
    replace (2 ^ 5 * 32 ^ N.of_nat n)%N with (32 ^ N.of_nat (S n))%N
      by (rewrite Nat2N.inj_succ, N.pow_succ_r by lia; lia).
    cbn [encode_loop]. by rewrite N.shiftr_div_pow2.
Qed.

Lemma encode_loop_length slots v : String.length (encode_loop slots v "") = slots.
Proof. induction slots as [|n IH]; [done|]. rewrite encode_loop_head. cbn. by rewrite IH. Qed.

(** What follows the first symbols of a text adds to what they are worth. *)
Lemma decode_encode slots v out x :
  (x * 32 ^ N.of_nat slots + v mod 32 ^ N.of_nat slots <= U128_MAX)%N ->
  decode_loop false (encode_loop slots v out) x =
  decode_loop false out (x * 32 ^ N.of_nat slots + v mod 32 ^ N.of_nat slots).
Proof.
  revert x. induction slots as [|n IH]; intros x Hx; [by rewrite N.mul_1_r, N.mod_1_r, N.add_0_r|].
  rewrite encode_loop_head. cbn [decode_loop]. set (p := (32 ^ N.of_nat n)%N) in *.
  assert (32 ^ N.of_nat (S n) = p * 32)%N as Ep by (unfold p; rewrite Nat2N.inj_succ, N.pow_succ_r; lia).
  rewrite Ep in *. rewrite N.Div0.mod_mul_r in *. assert (1 <= p)%N as Hp.
  { assert (p <> 0)%N by (by apply N.pow_nonzero). lia. }
  set (d := (v / p mod 32)%N) in *. assert (d < 32)%N as Hd by (by apply N.mod_lt).
  rewrite position_symbol by done. cbn [mbind option_bind andb].
  set (m := (v mod p)%N) in *. clearbody d m p.
  assert ((x * 32 + d) * 1 <= (x * 32 + d) * p)%N as Hm by (by apply N.mul_le_mono_l).
  assert (x * 32 + d <= U128_MAX)%N as Hle by lia.
  rewrite (u128_fits (x * 32)) by lia. cbn [mbind option_bind].
  rewrite (u128_fits (x * 32 + d)) by done. cbn [mbind option_bind].
  rewrite IH by lia. f_equal. lia.
Qed.

(** A text read is the one written. *)
Lemma decode_loop_Some s x v :
  (x <= U128_MAX)%N -> decode_loop false s x = Some v ->
  (v <= U128_MAX)%N /\ (v / 32 ^ N.of_nat (String.length s))%N = x /\
  s = encode_loop (String.length s) v "".
Proof.
  revert x. induction s as [|a s IH]; intros x Hx; cbn [decode_loop String.length].
  { intros [= <-]. by rewrite N.div_1_r. }
  destruct (position a) as [d|] eqn:Ed; [|done]. apply position_Some in Ed as [Hd <-].
  cbn [mbind option_bind andb]. destruct (u128 (x * 32)) as [y|] eqn:Ey; [|done].
  apply u128_Some in Ey as [_ ->]. cbn [mbind option_bind].
  destruct (u128 (x * 32 + d)) as [z|] eqn:Ez; [|done]. apply u128_Some in Ez as [Hz ->].
  cbn [mbind option_bind]. intros (Hv & Eq & Es)%IH; [|done].
  assert (v / 32 ^ N.of_nat (S (String.length s)) = x)%N as Ex.
  { rewrite Nat2N.inj_succ, N.pow_succ_r, N.mul_comm, <- N.Div0.div_div, Eq by lia.
    symmetry. apply (N.div_unique _ 32 x d); lia. }
  split_and!; [done|done|]. rewrite encode_loop_head, Eq, <- Es. do 2 f_equal.
  apply (N.mod_unique _ 32 x d); lia.
Qed.

Lemma decode_uuid7_Some body v :
  decode_uuid7 body = Some v <-> (v <= U128_MAX)%N /\ is_uuid7 v = true /\ body = encode_uuid v.
Proof.
  unfold decode_uuid7. split.
  - destruct (Nat.eqb_spec (String.length body) ENCODED_LEN) as [El|]; [|done]. cbn [negb].
    destruct body as [|a s]; [done|]. cbn [decode_loop].
    destruct (position a) as [d|] eqn:Ed; [|done]. apply position_Some in Ed as [Hd <-].
    cbn [mbind option_bind andb]. destruct (N.ltb_spec 7 d); [done|].
    rewrite (u128_fits (0 * 32)) by done. cbn [mbind option_bind].
    rewrite u128_fits by (unfold U128_MAX; lia). cbn [mbind option_bind].
    destruct (decode_loop false s _) as [w|] eqn:Ew; [|done]. cbn [mbind option_bind].
    destruct (is_uuid7 w) eqn:Eu; [|done]. intros [= <-].
    apply decode_loop_Some in Ew as (Hw & Eq & Es); [|unfold U128_MAX; lia].
    split_and!; [done|done|]. unfold encode_uuid. rewrite <- El. cbn [String.length].
    rewrite encode_loop_head, Eq, <- Es. do 2 f_equal. rewrite N.add_0_l.
    by rewrite N.mod_small.
  - intros (Hv & Hu & ->). unfold encode_uuid. rewrite encode_loop_length, Nat.eqb_refl. cbn [negb].
    change ENCODED_LEN with 26. rewrite encode_loop_head. cbn [decode_loop].
    set (d := (v / 32 ^ N.of_nat 25 mod 32)%N).
    assert (d = v / 32 ^ N.of_nat 25 /\ d <= 7)%N as [Ed Hd].
    { assert (v / 32 ^ N.of_nat 25 <= 7)%N.
      { change 7%N with (U128_MAX / 32 ^ N.of_nat 25)%N. by apply N.Div0.div_le_mono. }
      unfold d. rewrite N.mod_small by lia. done. }
    rewrite position_symbol by lia. cbn [mbind option_bind andb].
    rewrite (proj2 (N.ltb_ge _ _)) by done.
    rewrite !u128_fits by (unfold U128_MAX; lia). cbn [mbind option_bind].
    rewrite u128_fits by (unfold U128_MAX; lia). cbn [mbind option_bind].
    assert (0 * 32 + d = v / 32 ^ N.of_nat 25)%N as -> by (by rewrite Ed).
    rewrite decode_encode; rewrite (N.mul_comm (_ / _)), <- N.div_mod by done; [|done].
    cbn [decode_loop mbind option_bind]. by rewrite Hu.
Qed.

(** ** Identifiers *)

Lemma string_app_inj_l (p s t : string) : p +:+ s = p +:+ t -> s = t.
Proof. induction p as [|a p IH]; [done|]. simpl. intros [= E]. by apply IH. Qed.

Lemma parse_Some prefix s (i : Id.t prefix) :
  Id.parse prefix s = Some i <->
  Id.as_str i = s /\ exists v, (v <= U128_MAX)%N /\ is_uuid7 v = true /\ s = prefix +:+ "_" +:+ encode_uuid v.
Proof.
  unfold Id.parse. destruct (str_strip_prefix (prefix +:+ "_") s) as [body|] eqn:Ep.
  - apply str_strip_prefix_Some in Ep as ->. cbn [mbind option_bind].
    destruct (decode_uuid7 body) as [v|] eqn:Ed; cbn [mbind option_bind].
    + apply decode_uuid7_Some in Ed as (Hv & Hu & ->). rewrite string_app_assoc. split.
      * intros [= <-]. eauto 6.
      * intros [<- _]. by destruct i.
    + split; [done|]. intros (_ & v & Hv & Hu & E). rewrite string_app_assoc in E.
      apply string_app_inj_l in E. injection E as ->.
      by rewrite (proj2 (decode_uuid7_Some _ v)) in Ed.
  - split; [done|]. intros (_ & v & _ & _ & ->).
    by rewrite (proj2 (str_strip_prefix_Some _ _ (encode_uuid v))) in Ep by (by rewrite string_app_assoc).
Qed.

(** ** Minting *)

Lemma uuid7_value ts c inst v :
  (inst <= U32_MAX)%N -> uuid7 ts c inst = Some v ->
  (ts <= MAX_TS_MS)%N /\ (c <= MAX_ID_COUNTER)%N /\
  v = (ts * 2 ^ 80 + 7 * 2 ^ 76 + (c / 2 ^ 30) * 2 ^ 64 + 2 ^ 63 + (c mod 2 ^ 30) * 2 ^ 32 + inst)%N.
Proof.
  intros Hi. unfold uuid7.
  destruct (N.ltb_spec MAX_TS_MS ts) as [|Ht]; [done|].
  destruct (N.ltb_spec MAX_ID_COUNTER c) as [|Hc]; [done|]. cbn [orb]. intros [= <-].
  split; [done|]. split; [done|].
  change 0x0fff%N with (N.ones 12). change 0x3fffffff%N with (N.ones 30).
  rewrite !N.land_ones, N.shiftr_div_pow2. unfold MAX_TS_MS, MAX_ID_COUNTER, U32_MAX in *.
  assert (c / 2 ^ 30 < 2 ^ 12)%N as Ha by (apply N.Div0.div_lt_upper_bound; lia).
  rewrite (N.mod_small (c / 2 ^ 30)) by done.
  assert (c mod 2 ^ 30 < 2 ^ 30)%N as Hb by (by apply N.mod_lt).
  set (a := (c / 2 ^ 30)%N) in *. set (b := (c mod 2 ^ 30)%N) in *. clearbody a b.
  rewrite <- !N.lor_assoc. repeat rewrite lor_shiftl_add; lia.
Qed.

(** What is minted is a UUIDv7. *)
Lemma uuid7_is_uuid7 ts c inst v :
  (inst <= U32_MAX)%N -> uuid7 ts c inst = Some v -> (v <= U128_MAX)%N /\ is_uuid7 v = true.
Proof.
  intros Hi (Ht & Hc & Ev)%uuid7_value; [|done]. unfold MAX_TS_MS, MAX_ID_COUNTER, U32_MAX in *.
  assert (c / 2 ^ 30 < 2 ^ 12)%N as Ha by (apply N.Div0.div_lt_upper_bound; lia).
  assert (c mod 2 ^ 30 < 2 ^ 30)%N as Hb by (by apply N.mod_lt).
  set (a := (c / 2 ^ 30)%N) in *. set (b := (c mod 2 ^ 30)%N) in *. clearbody a b.
  split; [unfold U128_MAX; lia|]. unfold is_uuid7. rewrite !N.shiftr_div_pow2.
  change 15%N with (N.ones 4). change 3%N with (N.ones 2). rewrite !N.land_ones.
  apply andb_true_iff. split; apply N.eqb_eq.
  - replace (v / 2 ^ 76)%N with (ts * 16 + 7)%N
      by (apply (N.div_unique _ _ _ (a * 2 ^ 64 + 2 ^ 63 + b * 2 ^ 32 + inst)); lia).
    symmetry. apply (N.mod_unique _ _ ts); lia.
  - replace (v / 2 ^ 62)%N with (ts * 2 ^ 18 + 7 * 2 ^ 14 + a * 4 + 2)%N
      by (apply (N.div_unique _ _ _ (b * 2 ^ 32 + inst)); lia).
    symmetry. apply (N.mod_unique _ _ (ts * 2 ^ 16 + 7 * 2 ^ 12 + a)); lia.
Qed.

(** Distinct counters give distinct values, whatever the clock says. *)
Lemma uuid7_inj ts ts' c c' inst v :
  (inst <= U32_MAX)%N -> uuid7 ts c inst = Some v -> uuid7 ts' c' inst = Some v -> c = c'.
Proof.
  intros Hi (Ht & Hc & Ev)%uuid7_value (Ht' & Hc' & Ev')%uuid7_value; [|done..].
  unfold MAX_TS_MS, MAX_ID_COUNTER, U32_MAX in *.
  assert (c / 2 ^ 30 < 2 ^ 12)%N by (apply N.Div0.div_lt_upper_bound; lia).
  assert (c' / 2 ^ 30 < 2 ^ 12)%N by (apply N.Div0.div_lt_upper_bound; lia).
  assert (c mod 2 ^ 30 < 2 ^ 30)%N by (by apply N.mod_lt).
  assert (c' mod 2 ^ 30 < 2 ^ 30)%N by (by apply N.mod_lt).
  rewrite (N.div_mod c (2 ^ 30)), (N.div_mod c' (2 ^ 30)) by done.
  set (a := (c / 2 ^ 30)%N) in *. set (b := (c mod 2 ^ 30)%N) in *.
  set (a' := (c' / 2 ^ 30)%N) in *. set (b' := (c' mod 2 ^ 30)%N) in *. clearbody a b a' b'. lia.
Qed.
