(* ===== verification/Scalar.v ===== *)
(** Scalars of the wire ([dwk-proto/src/wire/scalar.rs]): bounded integers and
    closed enumerations.  Their decoding from JSON is not here. *)

From S2P Require Export Prelude Text Vocabulary.

(** What [wire_int!] declares: an integer within its range. *)
Module Epoch.

Record t := Make { get : N }.

#[global] Instance eq_dec : EqDecision t.
Proof. solve_decision. Defined.

Definition MIN : N := 1.
Definition MAX : N := 9007199254740991.

Definition new (value : N) : option t :=
  then_some ((MIN <=? value)%N && (value <=? MAX)%N) (Make value).

End Epoch.

(** The operation a refusal answers. *)
Module RefusedOperation.

Inductive t :=
| AcquireLease | ReleaseLease | Heartbeat | AdmitRun | ReleaseRun | QueryAuthority.

#[global] Instance eq_dec : EqDecision t.
Proof. solve_decision. Defined.

Definition ALL : list t := [AcquireLease; ReleaseLease; Heartbeat; AdmitRun; ReleaseRun;
  QueryAuthority].

Definition as_str (x : t) : string :=
  match x with
  | AcquireLease => "ACQUIRE_LEASE" | ReleaseLease => "RELEASE_LEASE" | Heartbeat => "HEARTBEAT"
  | AdmitRun => "ADMIT_RUN" | ReleaseRun => "RELEASE_RUN" | QueryAuthority => "QUERY_AUTHORITY"
  end.

#[global] Instance vocabulary : Vocabulary ALL as_str.
Proof. solve_vocabulary. Qed.

End RefusedOperation.

(** Why the state does not permit an operation. *)
Module RefusalReason.

Inductive t :=
| StaleEpoch | LeaseHeld | IdempotencyConflict | AdmissionEnded | UnknownAgentProfile
  | UnknownRun | NoCanonicalAction.

#[global] Instance eq_dec : EqDecision t.
Proof. solve_decision. Defined.

Definition ALL : list t := [StaleEpoch; LeaseHeld; IdempotencyConflict; AdmissionEnded;
  UnknownAgentProfile; UnknownRun; NoCanonicalAction].

Definition as_str (x : t) : string :=
  match x with
  | StaleEpoch => "STALE_EPOCH" | LeaseHeld => "LEASE_HELD"
  | IdempotencyConflict => "IDEMPOTENCY_CONFLICT" | AdmissionEnded => "ADMISSION_ENDED"
  | UnknownAgentProfile => "UNKNOWN_AGENT_PROFILE" | UnknownRun => "UNKNOWN_RUN"
  | NoCanonicalAction => "NO_CANONICAL_ACTION"
  end.

#[global] Instance vocabulary : Vocabulary ALL as_str.
Proof. solve_vocabulary. Qed.

End RefusalReason.
