(* ===== verification/Sandbox.v ===== *)
(** Execution environments as the authority judges them
    ([dwk-proto/src/brokerp/sandbox.rs], [dwkd-authority/src/sandbox.rs]): the
    invariants a measurement reports, and the level they earn. *)

From stdpp Require Import sets.
From S2P Require Export Prelude Text Vocabulary.

(** * The vocabulary *)

(** What an environment is connected to. *)
Module NetworkTopology.

Inductive t :=
| ProxyOnly | NoNetwork.

#[global] Instance eq_dec : EqDecision t.
Proof. solve_decision. Defined.

Definition ALL : list t := [ProxyOnly; NoNetwork].

Definition as_str (x : t) : string :=
  match x with
  | ProxyOnly => "PROXY_ONLY" | NoNetwork => "NO_NETWORK"
  end.

#[global] Instance vocabulary : Vocabulary ALL as_str.
Proof. solve_vocabulary. Qed.

End NetworkTopology.

(** What a container is to its environment. *)
Module ContainerRole.

Inductive t :=
| Environment | Relay | Setup.

#[global] Instance eq_dec : EqDecision t.
Proof. solve_decision. Defined.

Definition ALL : list t := [Environment; Relay; Setup].

Definition as_str (x : t) : string :=
  match x with
  | Environment => "ENVIRONMENT" | Relay => "RELAY" | Setup => "SETUP"
  end.

#[global] Instance vocabulary : Vocabulary ALL as_str.
Proof. solve_vocabulary. Qed.

Definition label (x : t) : string :=
  match x with Environment => "environment" | Relay => "relay" | Setup => "setup" end.

Definition from_label (value : string) : option t := find_spelling ALL label value.

End ContainerRole.

(** How strongly an environment confines. *)
Module AssuranceLevel.

Inductive t :=
| None | ProcessIsolation | ContainerIsolation | VmIsolation.

#[global] Instance eq_dec : EqDecision t.
Proof. solve_decision. Defined.

Definition ALL : list t := [None; ProcessIsolation; ContainerIsolation; VmIsolation].

Definition as_str (x : t) : string :=
  match x with
  | None => "NONE" | ProcessIsolation => "PROCESS_ISOLATION"
  | ContainerIsolation => "CONTAINER_ISOLATION" | VmIsolation => "VM_ISOLATION"
  end.

#[global] Instance vocabulary : Vocabulary ALL as_str.
Proof. solve_vocabulary. Qed.

Definition rank (x : t) : N :=
  match x with None => 0 | ProcessIsolation => 1 | ContainerIsolation => 2 | VmIsolation => 3 end.

Definition min (x y : t) : t := if (rank x <=? rank y)%N then x else y.

End AssuranceLevel.

(** What was observed of an invariant. *)
Module Verdict.

Inductive t :=
| Pass | Fail | Unobservable.

#[global] Instance eq_dec : EqDecision t.
Proof. solve_decision. Defined.

Definition ALL : list t := [Pass; Fail; Unobservable].

Definition as_str (x : t) : string :=
  match x with
  | Pass => "PASS" | Fail => "FAIL" | Unobservable => "UNOBSERVABLE"
  end.

#[global] Instance vocabulary : Vocabulary ALL as_str.
Proof. solve_vocabulary. Qed.

End Verdict.

(** Where an invariant is observed from. *)
Module Vantage.
Inductive t := Host | Container.

#[global] Instance eq_dec : EqDecision t.
Proof. solve_decision. Defined.
End Vantage.

(** What a clean environment is. *)
Module SandboxInvariant.

Inductive t :=
| HostImagePinned | HostProbeDigest | HostNotPrivileged | HostUserNonRoot | HostRootReadOnly
  | HostCapabilitiesDropped | HostNoNewPrivileges | HostSeccompProfile | HostPidNamespacePrivate
  | HostIpcNamespacePrivate | HostUtsNamespacePrivate | HostUsernsNotHost
  | HostCgroupNamespacePrivate | HostNetworkIsolated | HostMountsExact | HostNoRuntimeSocket
  | HostNoDevices | HostResourceLimits | HostLabelsExact | HostRunning | HostWorkspaceIdentity
  | HostWorkspaceOwnership | HostWorkspaceCapacity | HostProxyEnvironment | HostProxyRelay
  | HostRelayDigest | ContainerUidGid | ContainerCapabilitiesEmpty | ContainerNoNewPrivileges
  | ContainerSeccompFilter | ContainerSeccompProfileActive | ContainerRootReadOnly
  | ContainerWorkspaceWritable | ContainerWorkspaceGroupInherited | ContainerTmpWritable
  | ContainerTmpFresh | ContainerNoRuntimeSocket | ContainerMountsExpected
  | ContainerDevicesMinimal | ContainerPidNamespacePrivate | ContainerNetworkIsolated
  | ContainerProxyReachable | ContainerDirectEgressRefused | ContainerDirectDnsRefused
  | ContainerRawSocketsRefused | ContainerRlimits | ContainerCgroupLimits
  | ContainerProcRestricted | ContainerMountBlocked | ContainerUnshareBlocked
  | ContainerSetnsBlocked | ContainerKeyringBlocked.

#[global] Instance eq_dec : EqDecision t.
Proof. solve_decision. Defined.

Definition ALL : list t := [HostImagePinned; HostProbeDigest; HostNotPrivileged;
  HostUserNonRoot; HostRootReadOnly; HostCapabilitiesDropped; HostNoNewPrivileges;
  HostSeccompProfile; HostPidNamespacePrivate; HostIpcNamespacePrivate; HostUtsNamespacePrivate;
  HostUsernsNotHost; HostCgroupNamespacePrivate; HostNetworkIsolated; HostMountsExact;
  HostNoRuntimeSocket; HostNoDevices; HostResourceLimits; HostLabelsExact; HostRunning;
  HostWorkspaceIdentity; HostWorkspaceOwnership; HostWorkspaceCapacity; HostProxyEnvironment;
  HostProxyRelay; HostRelayDigest; ContainerUidGid; ContainerCapabilitiesEmpty;
  ContainerNoNewPrivileges; ContainerSeccompFilter; ContainerSeccompProfileActive;
  ContainerRootReadOnly; ContainerWorkspaceWritable; ContainerWorkspaceGroupInherited;
  ContainerTmpWritable; ContainerTmpFresh; ContainerNoRuntimeSocket; ContainerMountsExpected;
  ContainerDevicesMinimal; ContainerPidNamespacePrivate; ContainerNetworkIsolated;
  ContainerProxyReachable; ContainerDirectEgressRefused; ContainerDirectDnsRefused;
  ContainerRawSocketsRefused; ContainerRlimits; ContainerCgroupLimits; ContainerProcRestricted;
  ContainerMountBlocked; ContainerUnshareBlocked; ContainerSetnsBlocked;
  ContainerKeyringBlocked].

Definition as_str (x : t) : string :=
  match x with
  | HostImagePinned => "HOST_IMAGE_PINNED" | HostProbeDigest => "HOST_PROBE_DIGEST"
  | HostNotPrivileged => "HOST_NOT_PRIVILEGED" | HostUserNonRoot => "HOST_USER_NON_ROOT"
  | HostRootReadOnly => "HOST_ROOT_READ_ONLY"
  | HostCapabilitiesDropped => "HOST_CAPABILITIES_DROPPED"
  | HostNoNewPrivileges => "HOST_NO_NEW_PRIVILEGES"
  | HostSeccompProfile => "HOST_SECCOMP_PROFILE"
  | HostPidNamespacePrivate => "HOST_PID_NAMESPACE_PRIVATE"
  | HostIpcNamespacePrivate => "HOST_IPC_NAMESPACE_PRIVATE"
  | HostUtsNamespacePrivate => "HOST_UTS_NAMESPACE_PRIVATE"
  | HostUsernsNotHost => "HOST_USERNS_NOT_HOST"
  | HostCgroupNamespacePrivate => "HOST_CGROUP_NAMESPACE_PRIVATE"
  | HostNetworkIsolated => "HOST_NETWORK_ISOLATED" | HostMountsExact => "HOST_MOUNTS_EXACT"
  | HostNoRuntimeSocket => "HOST_NO_RUNTIME_SOCKET" | HostNoDevices => "HOST_NO_DEVICES"
  | HostResourceLimits => "HOST_RESOURCE_LIMITS" | HostLabelsExact => "HOST_LABELS_EXACT"
  | HostRunning => "HOST_RUNNING" | HostWorkspaceIdentity => "HOST_WORKSPACE_IDENTITY"
  | HostWorkspaceOwnership => "HOST_WORKSPACE_OWNERSHIP"
  | HostWorkspaceCapacity => "HOST_WORKSPACE_CAPACITY"
  | HostProxyEnvironment => "HOST_PROXY_ENVIRONMENT" | HostProxyRelay => "HOST_PROXY_RELAY"
  | HostRelayDigest => "HOST_RELAY_DIGEST" | ContainerUidGid => "CONTAINER_UID_GID"
  | ContainerCapabilitiesEmpty => "CONTAINER_CAPABILITIES_EMPTY"
  | ContainerNoNewPrivileges => "CONTAINER_NO_NEW_PRIVILEGES"
  | ContainerSeccompFilter => "CONTAINER_SECCOMP_FILTER"
  | ContainerSeccompProfileActive => "CONTAINER_SECCOMP_PROFILE_ACTIVE"
  | ContainerRootReadOnly => "CONTAINER_ROOT_READ_ONLY"
  | ContainerWorkspaceWritable => "CONTAINER_WORKSPACE_WRITABLE"
  | ContainerWorkspaceGroupInherited => "CONTAINER_WORKSPACE_GROUP_INHERITED"
  | ContainerTmpWritable => "CONTAINER_TMP_WRITABLE"
  | ContainerTmpFresh => "CONTAINER_TMP_FRESH"
  | ContainerNoRuntimeSocket => "CONTAINER_NO_RUNTIME_SOCKET"
  | ContainerMountsExpected => "CONTAINER_MOUNTS_EXPECTED"
  | ContainerDevicesMinimal => "CONTAINER_DEVICES_MINIMAL"
  | ContainerPidNamespacePrivate => "CONTAINER_PID_NAMESPACE_PRIVATE"
  | ContainerNetworkIsolated => "CONTAINER_NETWORK_ISOLATED"
  | ContainerProxyReachable => "CONTAINER_PROXY_REACHABLE"
  | ContainerDirectEgressRefused => "CONTAINER_DIRECT_EGRESS_REFUSED"
  | ContainerDirectDnsRefused => "CONTAINER_DIRECT_DNS_REFUSED"
  | ContainerRawSocketsRefused => "CONTAINER_RAW_SOCKETS_REFUSED"
  | ContainerRlimits => "CONTAINER_RLIMITS" | ContainerCgroupLimits => "CONTAINER_CGROUP_LIMITS"
  | ContainerProcRestricted => "CONTAINER_PROC_RESTRICTED"
  | ContainerMountBlocked => "CONTAINER_MOUNT_BLOCKED"
  | ContainerUnshareBlocked => "CONTAINER_UNSHARE_BLOCKED"
  | ContainerSetnsBlocked => "CONTAINER_SETNS_BLOCKED"
  | ContainerKeyringBlocked => "CONTAINER_KEYRING_BLOCKED"
  end.

#[global] Instance vocabulary : Vocabulary ALL as_str.
Proof. solve_vocabulary. Qed.

Definition vantage (x : t) : Vantage.t :=
  match x with
  | HostImagePinned | HostProbeDigest | HostNotPrivileged | HostUserNonRoot | HostRootReadOnly
  | HostCapabilitiesDropped | HostNoNewPrivileges | HostSeccompProfile | HostPidNamespacePrivate
  | HostIpcNamespacePrivate | HostUtsNamespacePrivate | HostUsernsNotHost
  | HostCgroupNamespacePrivate | HostNetworkIsolated | HostMountsExact | HostNoRuntimeSocket
  | HostNoDevices | HostResourceLimits | HostLabelsExact | HostRunning | HostWorkspaceIdentity
  | HostWorkspaceOwnership | HostWorkspaceCapacity | HostProxyEnvironment | HostProxyRelay
  | HostRelayDigest => Vantage.Host
  | _ => Vantage.Container
  end.

Definition proxy_only (x : t) : bool :=
  match x with HostRelayDigest | ContainerProxyReachable => true | _ => false end.

Definition workspace_contract (x : t) : bool :=
  match x with
  | HostWorkspaceOwnership | HostWorkspaceCapacity | ContainerWorkspaceGroupInherited => true
  | _ => false
  end.

End SandboxInvariant.

(** The workspace an environment is judged under. *)
Module WorkspaceContract.

Inductive t := Bounded | UnverifiedEvidence.

#[global] Instance eq_dec : EqDecision t.
Proof. solve_decision. Defined.

Definition as_str (x : t) : string :=
  match x with Bounded => "BOUNDED" | UnverifiedEvidence => "UNVERIFIED_EVIDENCE" end.

End WorkspaceContract.

Definition required_invariants (topology : NetworkTopology.t) (workspace : WorkspaceContract.t) :
    list SandboxInvariant.t :=
  List.filter (fun i => bool_decide (workspace = WorkspaceContract.Bounded)
                        || negb (SandboxInvariant.workspace_contract i))
    (List.filter (fun i => bool_decide (topology = NetworkTopology.ProxyOnly)
                           || negb (SandboxInvariant.proxy_only i)) SandboxInvariant.ALL).

Definition probe_invariants : list SandboxInvariant.t :=
  List.filter (fun i => bool_decide (SandboxInvariant.vantage i = Vantage.Container))
    SandboxInvariant.ALL.

(** ** The runtime's names *)

Definition lower_hex (s : string) : bool :=
  str_all (fun b => is_digit b || in_range 97 102 b) s.

Module ContainerRef.

Record t := Make { as_str : string }.

#[global] Instance eq_dec : EqDecision t.
Proof. solve_decision. Defined.

Definition MAX_CHARS : nat := 64.

Definition new (value : string) : option t :=
  then_some ((chars_count value <=? MAX_CHARS)%nat && (String.length value =? 64)%nat
             && lower_hex value) (Make value).

End ContainerRef.

(** * Judging *)

Module EnvironmentKind.

Inductive t := Oci.

(** [DeclaredAssurance]. *)
Definition declared (kind : t) : AssuranceLevel.t :=
  match kind with Oci => AssuranceLevel.ContainerIsolation end.

Definition required (kind : t) : AssuranceLevel.t :=
  match kind with Oci => AssuranceLevel.ContainerIsolation end.

End EnvironmentKind.

(** [EffectiveAssurance::of]. *)
Definition effective_of (declared measured : AssuranceLevel.t) : AssuranceLevel.t :=
  AssuranceLevel.min declared measured.

Module Judgement.

Record t := Make {
  declared : AssuranceLevel.t; measured : AssuranceLevel.t; effective : AssuranceLevel.t;
  failed : list SandboxInvariant.t; unobservable : list SandboxInvariant.t
}.

Definition usable (self : t) (kind : EnvironmentKind.t) : bool :=
  (AssuranceLevel.rank (EnvironmentKind.required kind) <=? AssuranceLevel.rank (effective self))%N
  && match failed self with [] => true | _ => false end
  && match unobservable self with [] => true | _ => false end.

Section failure.
Import SandboxInvariant.

Definition failure (self : Judgement.t) (kind : EnvironmentKind.t) : option string :=
  if usable self kind then Datatypes.None
  else
    let failed i := bool_decide (i ∈ Judgement.failed self) in
    Some (if failed HostProbeDigest then "PROBE_MISMATCH"
    else if failed HostImagePinned then "IMAGE_MISMATCH"
    else if failed HostRelayDigest then "RELAY_MISMATCH"
    else if existsb failed
        [HostNetworkIsolated; HostProxyRelay; ContainerNetworkIsolated; ContainerProxyReachable;
         ContainerDirectEgressRefused; ContainerDirectDnsRefused; ContainerRawSocketsRefused]
    then "NETWORK_TOPOLOGY_FAILED"
    else if existsb failed [HostResourceLimits; ContainerRlimits; ContainerCgroupLimits]
    then "RESOURCE_LIMIT_FAILED"
    else if failed HostWorkspaceCapacity then "WORKSPACE_UNBOUNDED"
    else if existsb failed
        [HostWorkspaceIdentity; HostWorkspaceOwnership; ContainerWorkspaceGroupInherited]
    then "WORKSPACE_CONTRACT_FAILED"
    else match Judgement.failed self with
         | [] => "ASSURANCE_UNOBSERVABLE"
         | _ => "ASSURANCE_FAILED"
         end)%string.
End failure.

End Judgement.

(** The verdicts reported of one invariant. *)
Definition reported (invariant : SandboxInvariant.t)
    (checks : list (SandboxInvariant.t * Verdict.t)) : list Verdict.t :=
  map snd (List.filter (fun c => bool_decide (c.1 = invariant)) checks).

(** The loop of [judge]. *)
Fixpoint judge_loop (invariants : list SandboxInvariant.t)
    (checks : list (SandboxInvariant.t * Verdict.t)) (failed unobservable : list SandboxInvariant.t) :
    list SandboxInvariant.t * list SandboxInvariant.t :=
  match invariants with
  | [] => (failed, unobservable)
  | invariant :: rest =>
      match reported invariant checks with
      | [Verdict.Pass] => judge_loop rest checks failed unobservable
      | [Verdict.Fail] => judge_loop rest checks (failed ++ [invariant]) unobservable
      | _ => judge_loop rest checks failed (unobservable ++ [invariant])
      end
  end.

Definition judge (kind : EnvironmentKind.t) (topology : NetworkTopology.t)
    (workspace : WorkspaceContract.t) (checks : list (SandboxInvariant.t * Verdict.t)) :
    Judgement.t :=
  let '(failed, unobservable) :=
    judge_loop (required_invariants topology workspace) checks [] [] in
  let measured :=
    match failed, unobservable with
    | [], [] => EnvironmentKind.declared kind
    | _, _ => AssuranceLevel.None
    end in
  let declared := EnvironmentKind.declared kind in
  Judgement.Make declared measured (effective_of declared measured) failed unobservable.

(** ** What a judgement means *)

Definition passed (checks : list (SandboxInvariant.t * Verdict.t)) (i : SandboxInvariant.t) : Prop :=
  reported i checks = [Verdict.Pass].

Definition found_false (checks : list (SandboxInvariant.t * Verdict.t)) (i : SandboxInvariant.t) : Prop :=
  reported i checks = [Verdict.Fail].

#[global] Instance passed_dec checks i : Decision (passed checks i).
Proof. unfold passed. apply _. Defined.

#[global] Instance found_false_dec checks i : Decision (found_false checks i).
Proof. unfold found_false. apply _. Defined.

Lemma judge_loop_spec invariants checks failed unobservable f u :
  judge_loop invariants checks failed unobservable = (f, u) ->
  (forall i, i ∈ f <-> i ∈ failed \/ (i ∈ invariants /\ found_false checks i)) /\
  (forall i, i ∈ u <-> i ∈ unobservable \/
     (i ∈ invariants /\ ~ passed checks i /\ ~ found_false checks i)).
Proof.
  unfold passed, found_false. revert failed unobservable.
  induction invariants as [|x rest IH]; intros failed unobservable; cbn [judge_loop].
  { intros [= <- <-]. set_solver. }
  destruct (reported x checks) as [|[] [|]] eqn:Er; intros [Hf Hu]%IH;
    (split; intros i; [rewrite Hf|rewrite Hu]); clear Hf Hu IH; set_unfold;
    (destruct (decide (i = x)) as [->|]; [rewrite ?Er|]); naive_solver congruence.
Qed.

Lemma judge_lists kind topology workspace checks :
  let j := judge kind topology workspace checks in
  (forall i, i ∈ Judgement.failed j <->
     i ∈ required_invariants topology workspace /\ found_false checks i) /\
  (forall i, i ∈ Judgement.unobservable j <->
     i ∈ required_invariants topology workspace /\ ~ passed checks i /\ ~ found_false checks i).
Proof.
  unfold judge. destruct (judge_loop _ _ _ _) as [f u] eqn:E.
  apply judge_loop_spec in E as [Hf Hu]. cbn [Judgement.failed Judgement.unobservable].
  revert Hf Hu. generalize (required_invariants topology workspace). intros l Hf Hu.
  split; intros i; [rewrite Hf|rewrite Hu]; rewrite elem_of_nil; tauto.
Qed.

Lemma no_elem_nil {A} (l : list A) : l = [] <-> forall x, x ∉ l.
Proof.
  split; [by intros -> x ?%not_elem_of_nil|]. destruct l as [|a l]; [done|].
  intros H. destruct (H a). set_solver.
Qed.

Lemma usable_judge kind topology workspace checks :
  Judgement.usable (judge kind topology workspace checks) kind = true <->
  forall i, i ∈ required_invariants topology workspace -> passed checks i.
Proof.
  pose proof (judge_lists kind topology workspace checks) as [Hf Hu].
  assert (Judgement.usable (judge kind topology workspace checks) kind = true <->
    Judgement.failed (judge kind topology workspace checks) = [] /\
    Judgement.unobservable (judge kind topology workspace checks) = []) as ->.
  { destruct kind. unfold judge, Judgement.usable. destruct (judge_loop _ _ _ _) as [[] []]; cbn; naive_solver. }
  rewrite !no_elem_nil. setoid_rewrite Hf. setoid_rewrite Hu. split.
  - intros [H1 H2] i Hi. destruct (decide (passed checks i)) as [|Hp]; [done|].
    destruct (decide (found_false checks i)) as [Hff|Hff]; [by destruct (H1 i)|by destruct (H2 i)].
  - intros H. split; intros i [Hi Hx]; specialize (H i Hi); unfold passed, found_false in *; [congruence|tauto].
Qed.

Lemma judge_level kind topology workspace checks :
  let j := judge kind topology workspace checks in
  Judgement.effective j = Judgement.measured j /\
  Judgement.measured j =
    if Judgement.usable j kind then EnvironmentKind.declared kind else AssuranceLevel.None.
Proof. destruct kind. unfold judge, Judgement.usable. by destruct (judge_loop _ _ _ _) as [[] []]. Qed.
