(* ===== verification/Db.v ===== *)
(** The tables of [kernel.db] that sessions, runs and environments are kept in
    ([dwkd-authority/src/state/schema.rs]), with the constraints and triggers a
    statement on them answers to.

    A table is a map from its primary key; a column is its text or integer.
    The rows a statement returns come in no order the code may rely on, unless
    it orders them. *)

From Stdlib Require Import ZArith.
From stdpp Require Import relations.
From stdpp Require Export gmap.
From S2P Require Export AuditStore.

(** * Rows *)

Module StoreMeta.
Record t := Make { store_id : string; created_ms : Z; incarnation : Z; id_counter : Z }.
End StoreMeta.

Module LeaseRow.
Record t := Make {
  epoch : Z; state : string;
  holder_subject : option string; holder_incarnation : option Z; holder_connection : option Z;
  expires_ms : option Z;
  last_holder_incarnation : option Z; last_holder_connection : option Z
}.
End LeaseRow.

Module RunRow.
Record t := Make {
  session_id : string; subject : string; epoch : Z;
  agent_profile : string; agent_profile_revision : Z; activation_id : Z;
  state : string; admitted_ms : Z; ended_ms : option Z
}.
End RunRow.

Module EnvironmentRow.
Record t := Make {
  run_id : string; profile : string; network : string; image : string; probe_sha256 : string;
  declared : string; measured : option string; effective : option string;
  container : option string; state : string; failure : option string;
  incarnation : Z; intent_ms : Z; ended_ms : option Z
}.
End EnvironmentRow.

Module Db.

Record t := Make {
  store_meta : StoreMeta.t;
  session_lease : gmap string LeaseRow.t;
  run : gmap string RunRow.t;
  environment : gmap string EnvironmentRow.t
}.

Definition with_meta (d : t) (m : StoreMeta.t) : t := Make m (session_lease d) (run d) (environment d).
Definition with_lease (d : t) (l : gmap string LeaseRow.t) : t := Make (store_meta d) l (run d) (environment d).
Definition with_run (d : t) (r : gmap string RunRow.t) : t := Make (store_meta d) (session_lease d) r (environment d).
Definition with_environment (d : t) (e : gmap string EnvironmentRow.t) : t :=
  Make (store_meta d) (session_lease d) (run d) e.

End Db.

(** * Statements *)

Section table.
  Context {Row : Type}.

(** [UPDATE .. SET .. WHERE .. RETURNING key]: every row the condition takes is
    set, unless a constraint or trigger refuses one, which aborts the whole. *)
Definition update (allowed : string -> Row -> Row -> bool) (where_ : string -> Row -> bool)
    (set_ : Row -> Row) (rows : gmap string Row) : result (gmap string Row * list string) SqlError.t :=
  let taken := List.filter (fun kr => where_ kr.1 kr.2) (map_to_list rows) in
  if negb (forallb (fun kr => allowed kr.1 kr.2 (set_ kr.2)) taken) then constraint
  else Ok (map_imap (fun k r => Some (if where_ k r then set_ r else r)) rows, taken.*1).

(** [INSERT]: a key that is there refuses it. *)
Definition insert_row (allowed : Row -> bool) (key : string) (row : Row) (rows : gmap string Row) :
    result (gmap string Row) SqlError.t :=
  match rows !! key with
  | Some _ => constraint
  | None => if negb (allowed row) then constraint else Ok (<[key := row]> rows)
  end.

End table.

(** [text IN (..)]. *)
Definition in_ (texts : list string) (text : string) : bool := existsb (String.eqb text) texts.

(** [text IS NULL OR ..]. *)
Definition null_or (check : string -> bool) (text : option string) : bool := is_none_or text check.

(** ** [store_meta] *)

Definition MAX_COUNTER : Z := 4398046511103.

(** [store_meta_counters_monotonic] and the checks; the identity columns are
    never set. *)
Definition meta_allowed (old new : StoreMeta.t) : bool :=
  (StoreMeta.incarnation old <=? StoreMeta.incarnation new)%Z
  && (StoreMeta.id_counter old <=? StoreMeta.id_counter new)%Z
  && (0 <=? StoreMeta.incarnation new)%Z
  && (0 <=? StoreMeta.id_counter new)%Z && (StoreMeta.id_counter new <=? MAX_COUNTER)%Z.

Definition update_meta (new : StoreMeta.t) (d : Db.t) : result Db.t SqlError.t :=
  if meta_allowed (Db.store_meta d) new then Ok (Db.with_meta d new) else constraint.

(** ** [session_lease] *)

Definition lease_checks (r : LeaseRow.t) : bool :=
  let held := String.eqb (LeaseRow.state r) "HELD" in
  (1 <=? LeaseRow.epoch r)%Z && (LeaseRow.epoch r <=? 9007199254740991)%Z
  && in_ ["HELD"; "RELEASED"; "INVALIDATED"] (LeaseRow.state r)
  && Bool.eqb held (is_some (LeaseRow.holder_subject r) && is_some (LeaseRow.holder_incarnation r)
                    && is_some (LeaseRow.holder_connection r) && is_some (LeaseRow.expires_ms r))
  && (held || negb (is_some (LeaseRow.holder_subject r) || is_some (LeaseRow.holder_incarnation r)
                    || is_some (LeaseRow.holder_connection r) || is_some (LeaseRow.expires_ms r))).

(** The triggers [session_lease_epoch_never_decreases] and
    [session_lease_new_tenure_new_epoch]. *)
Definition lease_allowed (old new : LeaseRow.t) : bool :=
  let same_tenure :=
    String.eqb (LeaseRow.state old) "HELD"
    && bool_decide (LeaseRow.holder_incarnation old = LeaseRow.holder_incarnation new)
    && bool_decide (LeaseRow.holder_connection old = LeaseRow.holder_connection new)
    && (LeaseRow.epoch old =? LeaseRow.epoch new)%Z in
  negb (LeaseRow.epoch new <? LeaseRow.epoch old)%Z
  && negb (String.eqb (LeaseRow.state new) "HELD" && negb same_tenure
           && (LeaseRow.epoch new <=? LeaseRow.epoch old)%Z)
  && lease_checks new.

Definition insert_lease (session_id : string) (row : LeaseRow.t) (d : Db.t) : result Db.t SqlError.t :=
  let? rows := insert_row lease_checks session_id row (Db.session_lease d) in
  Ok (Db.with_lease d rows).

Definition update_lease (where_ : string -> LeaseRow.t -> bool) (set_ : LeaseRow.t -> LeaseRow.t)
    (d : Db.t) : result (list string * Db.t) SqlError.t :=
  let? (rows, keys) := update (fun _ => lease_allowed) where_ set_ (Db.session_lease d) in
  Ok (keys, Db.with_lease d rows).

(** ** [run] *)

Definition run_checks (r : RunRow.t) : bool :=
  (1 <=? RunRow.epoch r)%Z && in_ ["ACTIVE"; "RELEASED"; "REAPED"] (RunRow.state r)
  && Bool.eqb (String.eqb (RunRow.state r) "ACTIVE") (negb (is_some (RunRow.ended_ms r))).

(** [run_never_resurrects], for the statements that set [state], which all do;
    [run_admission_fixed] is about columns none sets. *)
Definition run_allowed (old new : RunRow.t) : bool :=
  String.eqb (RunRow.state old) "ACTIVE" && run_checks new.

Definition update_run (where_ : string -> RunRow.t -> bool) (set_ : RunRow.t -> RunRow.t)
    (d : Db.t) : result (list string * Db.t) SqlError.t :=
  let? (rows, keys) := update (fun _ => run_allowed) where_ set_ (Db.run d) in
  Ok (keys, Db.with_run d rows).

(** ** [environment] *)

Definition LEVELS : list string := ["NONE"; "PROCESS_ISOLATION"; "CONTAINER_ISOLATION"; "VM_ISOLATION"].
Definition LIVE : list string := ["PREPARING"; "READY"; "DESTROYING"; "UNKNOWN"].

(** [NOT GLOB '*[^0-9a-f]*'] and [NOT GLOB '*[^A-Z0-9_]*']. *)
Definition all_hex (s : string) : bool := str_all (fun a => is_digit a || in_range 97 102 a) s.
Definition all_class (s : string) : bool := str_all (fun a => is_upper a || is_digit a || Ascii.eqb a "_") s.

Definition environment_checks (id : string) (r : EnvironmentRow.t) : bool :=
  let length := chars_count in
  let state := EnvironmentRow.state r in
  (length id =? 30)%nat && str_starts_with "env_" id
  && in_ ["OCI_STRICT"] (EnvironmentRow.profile r)
  && in_ ["NO_NETWORK"; "PROXY_ONLY"] (EnvironmentRow.network r)
  && (length (EnvironmentRow.image r) =? 71)%nat
  && is_some_and (str_strip_prefix "sha256:" (EnvironmentRow.image r)) all_hex
  && (length (EnvironmentRow.probe_sha256 r) =? 64)%nat && all_hex (EnvironmentRow.probe_sha256 r)
  && in_ LEVELS (EnvironmentRow.declared r)
  && null_or (in_ LEVELS) (EnvironmentRow.measured r)
  && null_or (in_ LEVELS) (EnvironmentRow.effective r)
  && null_or (fun c => (length c =? 64)%nat && all_hex c) (EnvironmentRow.container r)
  && in_ ["PREPARING"; "READY"; "REFUSED"; "DESTROYING"; "DESTROYED"; "LOST"; "UNKNOWN"] state
  && null_or (fun f => (1 <=? length f)%nat && (length f <=? 64)%nat && all_class f)
       (EnvironmentRow.failure r)
  && (1 <=? EnvironmentRow.incarnation r)%Z
  && Bool.eqb (in_ ["REFUSED"; "DESTROYED"; "LOST"] state) (is_some (EnvironmentRow.ended_ms r))
  && (negb (String.eqb state "READY")
      || (is_some (EnvironmentRow.container r) && is_some (EnvironmentRow.effective r)))
  && (negb (String.eqb state "REFUSED") || is_some (EnvironmentRow.failure r)).

(** [environment_moves_forward]. *)
Definition moves_forward (old new : string) : bool :=
  (String.eqb old "PREPARING" && in_ ["READY"; "REFUSED"; "UNKNOWN"; "DESTROYING"] new)
  || (String.eqb old "READY" && in_ ["DESTROYING"; "LOST"] new)
  || (String.eqb old "UNKNOWN" && in_ ["DESTROYING"; "DESTROYED"; "LOST"] new)
  || (String.eqb old "DESTROYING" && in_ ["DESTROYING"; "DESTROYED"; "LOST"] new).

(** The checks and triggers on a statement that sets [state], as all do: with
    [environment_container_fixed]; the columns of [environment_intent_fixed] are
    never set. *)
Definition environment_allowed (id : string) (old new : EnvironmentRow.t) : bool :=
  moves_forward (EnvironmentRow.state old) (EnvironmentRow.state new)
  && (negb (is_some (EnvironmentRow.container old))
      || bool_decide (EnvironmentRow.container new = EnvironmentRow.container old))
  && environment_checks id new.

(** A row no longer live stays so, and keys and runs are fixed: an update
    leaves [environment_one_live_per_run] true. *)
Definition update_environment (where_ : string -> EnvironmentRow.t -> bool)
    (set_ : EnvironmentRow.t -> EnvironmentRow.t) (d : Db.t) : result (list string * Db.t) SqlError.t :=
  let? (rows, keys) := update environment_allowed where_ set_ (Db.environment d) in
  Ok (keys, Db.with_environment d rows).

(** * Updates *)

Section update.
  Context {Row : Type} (allowed : string -> Row -> Row -> bool) (where_ : string -> Row -> bool)
    (set_ : Row -> Row).
  Implicit Types (rows : gmap string Row).

(** A row after an update. *)
Definition set_where (k : string) (r : Row) : Row := if where_ k r then set_ r else r.

Lemma update_rows rows rows' keys k :
  update allowed where_ set_ rows = Ok (rows', keys) -> rows' !! k = set_where k <$> rows !! k.
Proof.
  unfold update. case_match; [done|]. intros [= <- _]. rewrite map_lookup_imap. by destruct (rows !! k).
Qed.

Lemma update_allowed rows rows' keys k r :
  update allowed where_ set_ rows = Ok (rows', keys) -> rows !! k = Some r -> where_ k r = true ->
  allowed k r (set_ r) = true.
Proof.
  unfold update. case_match eqn:E; [done|]. apply negb_false_iff in E. rewrite forallb_forall in E.
  intros _ Hk Hw. apply (E (k, r)), filter_In. split; [|done]. by apply list_elem_of_In, elem_of_map_to_list.
Qed.

Lemma update_keys rows rows' keys k :
  update allowed where_ set_ rows = Ok (rows', keys) ->
  k ∈ keys <-> exists r, rows !! k = Some r /\ where_ k r = true.
Proof.
  unfold update. case_match; [done|]. intros [= _ <-]. rewrite list_elem_of_fmap. split.
  - intros ([k' r] & -> & Hin). apply list_elem_of_In, filter_In in Hin as [Hin Hw].
    apply list_elem_of_In, elem_of_map_to_list in Hin. eauto.
  - intros (r & Hk & Hw). exists (k, r). split; [done|]. apply list_elem_of_In, filter_In.
    split; [|done]. by apply list_elem_of_In, elem_of_map_to_list.
Qed.

Lemma update_keys_NoDup rows rows' keys :
  update allowed where_ set_ rows = Ok (rows', keys) -> NoDup keys.
Proof.
  unfold update. case_match eqn:E; [done|]. clear E. intros [= _ <-].
  assert (NoDup (map_to_list rows).*1) as Hn by apply NoDup_fst_map_to_list.
  induction (map_to_list rows) as [|[k r] l IH]; [constructor|]. cbn in Hn |- *.
  apply NoDup_cons in Hn as [Hk Hn]. specialize (IH Hn).
  destruct (where_ k r); [|done]. cbn. apply NoDup_cons. split; [|done].
  intros ([k' r'] & -> & Hin)%list_elem_of_fmap. apply Hk, list_elem_of_fmap. exists (k', r').
  split; [done|]. apply list_elem_of_In in Hin. apply filter_In in Hin as [Hin _].
  by apply list_elem_of_In.
Qed.

(** An update whose every change is allowed is made. *)
Lemma update_is_Ok rows :
  (forall k r, rows !! k = Some r -> where_ k r = true -> allowed k r (set_ r) = true) ->
  exists rows' keys, update allowed where_ set_ rows = Ok (rows', keys).
Proof.
  intros Hall. unfold update. case_match eqn:E; [|eauto]. apply negb_true_iff in E.
  exfalso. apply not_true_iff_false in E. apply E, forallb_forall. intros [k r] Hin.
  apply filter_In in Hin as [Hin Hw]. apply list_elem_of_In, elem_of_map_to_list in Hin. by apply Hall.
Qed.

End update.

(** A condition on the key takes one row. *)
Lemma update_one_keys {Row} (allowed : string -> Row -> Row -> bool) key (where_ : string -> Row -> bool)
    set_ rows rows' keys :
  (forall k r, where_ k r = true -> k = key) ->
  update allowed where_ set_ rows = Ok (rows', keys) ->
  keys = match rows !! key with Some r => if where_ key r then [key] else [] | None => [] end.
Proof.
  intros Hkey E. pose proof (update_keys_NoDup _ _ _ _ _ _ E) as Hn.
  assert (forall k, k ∈ keys -> k = key) as Hall.
  { intros k (r & _ & Hw)%(update_keys _ _ _ _ _ _ k E). by eapply Hkey. }
  pose proof (update_keys _ _ _ _ _ _ key E) as Hk.
  assert (keys = [] \/ keys = [key]) as [->| ->].
  { destruct keys as [|k [|k' keys]]; [by left| |].
    - right. f_equal. apply Hall. by left.
    - exfalso. assert (k = key) by (apply Hall; by left). subst k.
      assert (k' = key) by (apply Hall; right; by left). subst k'.
      apply NoDup_cons in Hn as [Hn _]. apply Hn. by left. }
  - destruct (rows !! key) as [r|]; [|done]. destruct (where_ key r) eqn:Hw; [|done].
    exfalso. apply (not_elem_of_nil key), Hk. eauto.
  - destruct (proj1 Hk) as (r & Er & Hw); [by left|]. by rewrite Er, Hw.
Qed.

(** * What only moves forward *)

(** Rows stay, and change as [R] says. *)
Definition table_evolves {Row} (R : relation Row) (rows rows' : gmap string Row) : Prop :=
  forall k r, rows !! k = Some r -> exists r', rows' !! k = Some r' /\ R r r'.

#[export] Instance table_evolves_preorder {Row} (R : relation Row) `{!PreOrder R} :
  PreOrder (table_evolves R).
Proof.
  split.
  - intros rows k r Hk. exists r. by split.
  - intros rows1 rows2 rows3 H12 H23 k r1 (r2 & H2 & HR)%H12. apply H23 in H2 as (r3 & H3 & HR').
    exists r3. split; [done|]. by transitivity r2.
Qed.

Lemma update_evolves {Row} (R : relation Row) `{!PreOrder R} (allowed : string -> Row -> Row -> bool)
    where_ set_ rows rows' keys :
  (forall k r, where_ k r = true -> allowed k r (set_ r) = true -> R r (set_ r)) ->
  update allowed where_ set_ rows = Ok (rows', keys) -> table_evolves R rows rows'.
Proof.
  intros HR E k r Hk. exists (set_where where_ set_ k r). rewrite (update_rows _ _ _ _ _ _ k E), Hk.
  split; [done|]. unfold set_where. case_match eqn:Hw; [|done].
  apply (HR k r Hw). by apply (update_allowed _ _ _ _ _ _ k r E).
Qed.

Lemma insert_row_Ok {Row} (allowed : Row -> bool) key row (rows rows' : gmap string Row) :
  insert_row allowed key row rows = Ok rows' ->
  rows !! key = None /\ allowed row = true /\ rows' = <[key := row]> rows.
Proof.
  unfold insert_row. destruct (rows !! key); [done|]. case_match eqn:E; [done|].
  apply negb_false_iff in E. by intros [= <-].
Qed.

Lemma insert_row_evolves {Row} (R : relation Row) `{!PreOrder R} allowed key row (rows rows' : gmap string Row) :
  insert_row allowed key row rows = Ok rows' -> table_evolves R rows rows'.
Proof.
  intros (Hn & _ & ->)%insert_row_Ok k r Hk. exists r. split; [|done].
  apply lookup_insert_Some. right. split; [|done]. by intros ->; rewrite Hn in Hk.
Qed.

(** ** The columns *)

(** Counters never go back. *)
Definition meta_evolves (m m' : StoreMeta.t) : Prop :=
  StoreMeta.store_id m = StoreMeta.store_id m' /\ StoreMeta.created_ms m = StoreMeta.created_ms m' /\
  (StoreMeta.incarnation m <= StoreMeta.incarnation m')%Z /\ (StoreMeta.id_counter m <= StoreMeta.id_counter m')%Z.

#[export] Instance meta_evolves_preorder : PreOrder meta_evolves.
Proof.
  split; [done|]. intros a b c (? & ? & ? & ?) (? & ? & ? & ?). unfold meta_evolves.
  split_and!; [congruence..|lia|lia].
Qed.

(** Epochs never decrease, and one epoch is held by one holder, once. *)
Definition lease_evolves (r r' : LeaseRow.t) : Prop :=
  (LeaseRow.epoch r <= LeaseRow.epoch r')%Z /\
  (LeaseRow.epoch r = LeaseRow.epoch r' -> LeaseRow.state r' = "HELD" ->
   LeaseRow.state r = "HELD" /\ LeaseRow.holder_incarnation r = LeaseRow.holder_incarnation r' /\
   LeaseRow.holder_connection r = LeaseRow.holder_connection r').

#[export] Instance lease_evolves_preorder : PreOrder lease_evolves.
Proof.
  split; [done|]. intros a b c [H1 G1] [H2 G2]. split; [lia|]. intros E Hc.
  destruct G2 as (Hb & G2 & G3); [lia|done|]. destruct G1 as (? & ? & ?); [lia|done|]. split_and!; congruence.
Qed.

(** An admission is fixed, and a run that ended stays as it is. *)
Definition run_evolves (r r' : RunRow.t) : Prop :=
  (RunRow.session_id r, RunRow.subject r, RunRow.epoch r, RunRow.agent_profile r,
   RunRow.agent_profile_revision r, RunRow.activation_id r, RunRow.admitted_ms r) =
  (RunRow.session_id r', RunRow.subject r', RunRow.epoch r', RunRow.agent_profile r',
   RunRow.agent_profile_revision r', RunRow.activation_id r', RunRow.admitted_ms r') /\
  (r' = r \/ RunRow.state r = "ACTIVE").

#[export] Instance run_evolves_preorder : PreOrder run_evolves.
Proof.
  split; [by intros r; split; [|left]|]. intros a b c [H1 G1] [H2 G2]. split; [congruence|].
  destruct G1 as [->|?]; [done|by right].
Qed.

(** An environment's row moves along its lifecycle, keeps its container once it
    has one, and stays as it is once it ended. *)
Definition moves : relation string := fun s s' => moves_forward s s' = true.

Definition environment_evolves (r r' : EnvironmentRow.t) : Prop :=
  (EnvironmentRow.run_id r, EnvironmentRow.profile r, EnvironmentRow.network r, EnvironmentRow.image r,
   EnvironmentRow.incarnation r, EnvironmentRow.intent_ms r) =
  (EnvironmentRow.run_id r', EnvironmentRow.profile r', EnvironmentRow.network r', EnvironmentRow.image r',
   EnvironmentRow.incarnation r', EnvironmentRow.intent_ms r') /\
  (EnvironmentRow.container r = None \/ EnvironmentRow.container r' = EnvironmentRow.container r) /\
  rtc moves (EnvironmentRow.state r) (EnvironmentRow.state r') /\
  (in_ LIVE (EnvironmentRow.state r) = true \/ r' = r).

#[export] Instance environment_evolves_preorder : PreOrder environment_evolves.
Proof.
  split; [by intros r; split_and!; try right|]. intros a b c (H1 & H2 & H3 & H4) (G1 & G2 & G3 & G4).
  split_and!; [congruence| |by etransitivity|].
  - destruct H2 as [?|E]; [by left|]. destruct G2 as [?|E']; [left|right]; congruence.
  - destruct H4 as [?| ->]; [by left|done].
Qed.

Lemma moves_live s s' : moves_forward s s' = true -> in_ LIVE s = true.
Proof.
  unfold moves_forward, in_, LIVE. cbn. rewrite !orb_true_iff, !andb_true_iff. tauto.
Qed.

(** What no statement undoes. *)
Record evolves (d d' : Db.t) : Prop := {
  evolves_meta : meta_evolves (Db.store_meta d) (Db.store_meta d');
  evolves_lease : table_evolves lease_evolves (Db.session_lease d) (Db.session_lease d');
  evolves_run : table_evolves run_evolves (Db.run d) (Db.run d');
  evolves_environment : table_evolves environment_evolves (Db.environment d) (Db.environment d')
}.

#[export] Instance evolves_preorder : PreOrder evolves.
Proof. split; [by split|]. intros a b c [] []. split; by etransitivity. Qed.

(** ** Statements evolve the tables *)

Lemma lease_allowed_evolves old new : lease_allowed old new = true -> lease_evolves old new.
Proof.
  unfold lease_allowed. rewrite !andb_true_iff, !negb_true_iff. intros [[He Ht] _].
  apply Z.ltb_ge in He. split; [done|]. intros E Hs. rewrite Hs, E in Ht. cbn in Ht.
  rewrite Z.leb_refl, Z.eqb_refl, !andb_true_r in Ht. apply negb_false_iff in Ht.
  rewrite !andb_true_iff in Ht. destruct Ht as [[?%String.eqb_eq ?%bool_decide_eq_true] ?%bool_decide_eq_true].
  done.
Qed.

Lemma update_meta_evolves m d d' :
  StoreMeta.store_id m = StoreMeta.store_id (Db.store_meta d) ->
  StoreMeta.created_ms m = StoreMeta.created_ms (Db.store_meta d) ->
  update_meta m d = Ok d' -> evolves d d'.
Proof.
  unfold update_meta. intros E1 E2. case_match eqn:E; [|done]. intros [= <-]. split; [|done..]. cbn.
  unfold meta_allowed in E. rewrite !andb_true_iff in E. destruct E as [[[[?%Z.leb_le ?%Z.leb_le] _] _] _].
  by split_and!.
Qed.

Lemma insert_lease_evolves session_id row d d' : insert_lease session_id row d = Ok d' -> evolves d d'.
Proof.
  unfold insert_lease. destruct (insert_row _ _ _ _) as [rows|] eqn:E; [|done]. intros [= <-].
  split; [done| |done..]. by apply (insert_row_evolves _ _ _ _ _ _ E).
Qed.

Lemma update_lease_evolves where_ set_ d keys d' :
  update_lease where_ set_ d = Ok (keys, d') -> evolves d d'.
Proof.
  unfold update_lease. destruct (update _ _ _ _) as [[rows ks]|] eqn:E; [|done]. intros [= _ <-].
  split; [done| |done..]. eapply update_evolves, E; [apply _|]. intros k r _. apply lease_allowed_evolves.
Qed.

Definition admission (r : RunRow.t) :=
  (RunRow.session_id r, RunRow.subject r, RunRow.epoch r, RunRow.agent_profile r,
   RunRow.agent_profile_revision r, RunRow.activation_id r, RunRow.admitted_ms r).

Lemma update_run_evolves where_ set_ d keys d' :
  (forall r, admission (set_ r) = admission r) ->
  update_run where_ set_ d = Ok (keys, d') -> evolves d d'.
Proof.
  intros Hset. unfold update_run. destruct (update _ _ _ _) as [[rows ks]|] eqn:E; [|done].
  intros [= _ <-]. split; [done..| |done]. eapply update_evolves, E; [apply _|].
  unfold run_allowed. intros k r _ [?%String.eqb_eq _]%andb_true_iff.
  split; [symmetry; apply Hset|by right].
Qed.

Definition intent (r : EnvironmentRow.t) :=
  (EnvironmentRow.run_id r, EnvironmentRow.profile r, EnvironmentRow.network r, EnvironmentRow.image r,
   EnvironmentRow.incarnation r, EnvironmentRow.intent_ms r).

Lemma update_environment_evolves where_ set_ d keys d' :
  (forall r, intent (set_ r) = intent r) ->
  update_environment where_ set_ d = Ok (keys, d') -> evolves d d'.
Proof.
  intros Hset. unfold update_environment. destruct (update _ _ _ _) as [[rows ks]|] eqn:E; [|done].
  intros [= _ <-]. split; [done..|]. eapply update_evolves, E; [apply _|].
  unfold environment_allowed. intros k r _. rewrite !andb_true_iff, orb_true_iff. intros [[Hm Hc] _].
  split_and!; [symmetry; apply Hset| |by apply rtc_once|left; by eapply moves_live].
  destruct (EnvironmentRow.container r) as [c|]; [|by left]. right.
  destruct Hc as [Hc|Hc%bool_decide_eq_true]; [done|by rewrite Hc].
Qed.
