(* ===== verification/WorkOps.v ===== *)
(** What the operations of the authority are written in: the [Work] of one
    transaction ([dwkd-authority/src/state/mod.rs]) as a monad of bodies, its
    statements, records and identifiers, and what every body built of them
    keeps. *)

From Stdlib Require Import ZArith.
From S2P Require Export Prelude Text Db WireId Scalar AuditRecovery.

Module AuthenticatedSubject.

(** A [u32]. *)
Record t := Make { uid : N }.

#[global] Instance eq_dec : EqDecision t.
Proof. solve_decision. Defined.

Definition unix_uid (uid : N) : t := Make uid.

Definition storage_key (self : t) : string := "uid:" +:+ show_N (uid self).

Definition display (self : t) : string := "uid:" +:+ show_N (uid self).

Lemma storage_key_inj s s' : storage_key s = storage_key s' -> s = s'.
Proof.
  destruct s, s'. unfold storage_key. cbn [uid]. intros [= E%(f_equal parse_N)].
  rewrite !parse_N_show in E. by injection E as ->.
Qed.

End AuthenticatedSubject.

Module LeaseHolder.

Record t := Make { incarnation : N; connection : N }.

#[global] Instance eq_dec : EqDecision t.
Proof. solve_decision. Defined.

Definition new (incarnation connection : N) : t := Make incarnation connection.

Definition display (self : t) : string :=
  show_N (incarnation self) +:+ ":" +:+ show_N (connection self).

End LeaseHolder.

Module CallerContext.

Record t := Make { subject : AuthenticatedSubject.t; holder : LeaseHolder.t }.

#[global] Instance eq_dec : EqDecision t.
Proof. solve_decision. Defined.

Definition new (subject : AuthenticatedSubject.t) (holder : LeaseHolder.t) : t := Make subject holder.

End CallerContext.

(** A well-formed answer. *)
Module Reply.

Inductive t (T : Type) : Type :=
| Done (value : T)
| Refused (reason : RefusalReason.t).
Arguments Done {T} _.
Arguments Refused {T} _.

Definition done {T} (self : t T) : option T :=
  match self with Done value => Some value | Refused _ => None end.

Definition refused {T} (self : t T) : option RefusalReason.t :=
  match self with Done _ => None | Refused reason => Some reason end.

End Reply.

(** What operations read of what the handles share. *)
Module Process.
Record t := Make { incarnation : N; store_instance : N; lease_ttl_ms : N }.
End Process.

Notation op := (Work.body (D := Db.t)).

Section monad.
  Context `{Sha256}.

Definition done {A} (a : A) : op A := fun work => Ok (a, work).
Definition fail {A} (e : AuthorityError.t) : op A := fun _ => Err e.

Definition and_then {A B} (m : op A) (k : A -> op B) : op B := fun work =>
  match m work with Ok (a, work) => k a work | Err e => Err e end.

(** A result of a computation that reads nothing. *)
Definition from {A} (r : result A AuthorityError.t) : op A := fun work =>
  match r with Ok a => Ok (a, work) | Err e => Err e end.

(** [work.db(work.tx.query_row(..))]: a query that reads. *)
Definition select {A} (f : Db.t -> A) : op A := fun work => Ok (f (Work.data work), work).

(** [work.db(work.tx.execute(..))]: a statement, whose error is classified. *)
Definition exec {A} (statement : Db.t -> result (A * Db.t) SqlError.t) : op A := fun work =>
  match statement (Work.data work) with
  | Ok (a, data) => Ok (a, Work.Make (Work.tx work) data (Work.now work) (Work.last_seq work))
  | Err error => Err (to_error (classify error))
  end.

Definition exec_ (statement : Db.t -> result Db.t SqlError.t) : op () :=
  exec (fun d => let? d := statement d in Ok ((), d)).

(** [work.now]. *)
Definition now : op N := fun work => Ok (Work.now work, work).

(** A loop over a list, with [?]. *)
Fixpoint for_each {A B} (f : A -> op B) (l : list A) : op (list B) :=
  match l with
  | [] => done []
  | a :: rest => and_then (f a) (fun b => and_then (for_each f rest) (fun bs => done (b :: bs)))
  end.

(** A column of texts, read row by row: [row.get::<_, String>] refuses what is
    not UTF-8. *)
Definition texts : list string -> op (list string) :=
  for_each (fun s => if valid_utf8 s then done s else fail AuthorityError.Sqlite).

End monad.

Notation "'let*' x := m 'in' k" := (and_then m (fun x => k))
  (at level 200, x pattern, m at level 100, k at level 200) : rust_scope.

(** [AuthorityError::Invariant]. *)
Definition broken {A} (what : string) : result A AuthorityError.t := Err (AuthorityError.Invariant what).

(** [to_sql]. *)
Definition to_sql (value : N) : result Z AuthorityError.t :=
  match i64_of value with Some z => Ok z | None => broken "a value exceeds i64" end.

(** [i64::try_from(work.now)]. *)
Definition now_sql `{Sha256} : op Z :=
  let* ms := now in
  from (match i64_of ms with Some z => Ok z | None => broken "the clock does not fit" end).

(** ** Identifiers *)

Section ids.
  Context `{Sha256} (process : Process.t).

Definition counter (stored : Z) : result N AuthorityError.t :=
  match u64_of stored with Some n => Ok n | None => broken "the id counter is negative" end.

(** [UPDATE store_meta SET id_counter = id_counter + 1 .. RETURNING id_counter]. *)
Definition next_counter (d : Db.t) : result (Z * Db.t) SqlError.t :=
  let m := Db.store_meta d in
  let next := (StoreMeta.id_counter m + 1)%Z in
  let? d := update_meta (StoreMeta.Make (StoreMeta.store_id m) (StoreMeta.created_ms m)
                           (StoreMeta.incarnation m) next) d in
  Ok (next, d).

Definition next_uuid : op N :=
  let* stored := select (fun d => StoreMeta.id_counter (Db.store_meta d)) in
  let* current := from (counter stored) in
  if (MAX_ID_COUNTER <=? current)%N then fail AuthorityError.IdSpaceExhausted
  else
    let* next := exec next_counter in
    let* next := from (counter next) in
    let* ms := now in
    from (ok_or (uuid7 ms next (Process.store_instance process)) AuthorityError.IdSpaceExhausted).

Definition mint (prefix : string) (what : string) : op (Id.t prefix) :=
  let* value := next_uuid in
  from (match Id.from_uuid prefix value with Some i => Ok i | None => broken what end).

Definition run_id : op RunId := mint "run" "a minted run id is not a UUIDv7".
Definition cap_id : op CapId := mint "cap" "a minted cap id is not a UUIDv7".
Definition invocation_id : op InvocationId := mint "inv" "a minted invocation id is not a UUIDv7".
Definition process_id : op ProcessId := mint "prc" "a minted process id is not a UUIDv7".
Definition environment_id : op EnvironmentId := mint "env" "a minted environment id is not a UUIDv7".

End ids.
