(* ===== verification/Egress.v ===== *)
(** What an environment with a proxy may reach ([dwk-proto/src/brokerp/egress.rs]
    and [egress_targets] of [dwkd-authority/src/sandbox.rs]): the destinations a
    run's grants give it, the budgets, and what its proxy counted. *)

From stdpp Require Import sets.
From S2P Require Export Prelude Vocabulary Capabilities.

(** * The wire types *)

Module EgressHost.

Record t := Make { as_str : string }.

#[global] Instance eq_dec : EqDecision t.
Proof. solve_decision. Defined.

Definition MAX_CHARS : nat := 253.

Definition new (value : string) : option t :=
  then_some ((chars_count value <=? MAX_CHARS)%nat
             && (is_host value && negb (is_address_literal value))) (Make value).

End EgressHost.

Module EgressPort.

Record t := Make { get : N }.

#[global] Instance eq_dec : EqDecision t.
Proof. solve_decision. Defined.

Definition new (value : N) : option t :=
  then_some ((1 <=? value)%N && (value <=? 65535)%N) (Make value).

End EgressPort.

Module EgressTarget.

Record t := Make { host : EgressHost.t; port : EgressPort.t }.

#[global] Instance eq_dec : EqDecision t.
Proof. solve_decision. Defined.

End EgressTarget.

Definition MAX_EGRESS_TARGETS : nat := 64.

(** [BoundedList<EgressTarget, MAX_EGRESS_TARGETS>]. *)
Module EgressTargets.

Record t := Make { as_slice : list EgressTarget.t }.

Definition new (items : list EgressTarget.t) : option t :=
  then_some (length items <=? MAX_EGRESS_TARGETS)%nat (Make items).

End EgressTargets.

Module EgressTunnelLimit.
Record t := Make { get : N }.

Definition new (value : N) : option t :=
  then_some ((1 <=? value)%N && (value <=? 64)%N) (Make value).
End EgressTunnelLimit.

Module EgressByteBudget.
Record t := Make { get : N }.

Definition new (value : N) : option t :=
  then_some ((1 <=? value)%N && (value <=? 17179869184)%N) (Make value).
End EgressByteBudget.

Module EgressGrant.

Record t := Make {
  targets : EgressTargets.t; max_tunnels : EgressTunnelLimit.t;
  max_upload_bytes : EgressByteBudget.t; max_download_bytes : EgressByteBudget.t
}.

Definition permits (self : t) (host : string) (port : N) : bool :=
  existsb (fun t => String.eqb (EgressHost.as_str (EgressTarget.host t)) host
                    && (EgressPort.get (EgressTarget.port t) =? port)%N)
    (EgressTargets.as_slice (targets self)).

End EgressGrant.

(** How a connection to the proxy ended. *)
Module EgressDisposition.

Inductive t :=
| Malformed | RequestTimeout | NotConnect | TargetNotCanonical | TargetNotGranted | TunnelLimit
  | ResolutionFailed | ResolutionTimeout | AddressBlocked | AddressMixed | ConnectFailed
  | ClientHelloTimeout | ClientHelloMalformed | SniMissing | SniAmbiguous | SniMismatch
  | EchRefused | Closed | UploadBudget | DownloadBudget | IdleTimeout | LifetimeExceeded
  | EnvironmentClosed.

#[global] Instance eq_dec : EqDecision t.
Proof. solve_decision. Defined.

Definition ALL : list t := [Malformed; RequestTimeout; NotConnect; TargetNotCanonical;
  TargetNotGranted; TunnelLimit; ResolutionFailed; ResolutionTimeout; AddressBlocked;
  AddressMixed; ConnectFailed; ClientHelloTimeout; ClientHelloMalformed; SniMissing;
  SniAmbiguous; SniMismatch; EchRefused; Closed; UploadBudget; DownloadBudget; IdleTimeout;
  LifetimeExceeded; EnvironmentClosed].

Definition as_str (x : t) : string :=
  match x with
  | Malformed => "MALFORMED" | RequestTimeout => "REQUEST_TIMEOUT" | NotConnect => "NOT_CONNECT"
  | TargetNotCanonical => "TARGET_NOT_CANONICAL" | TargetNotGranted => "TARGET_NOT_GRANTED"
  | TunnelLimit => "TUNNEL_LIMIT" | ResolutionFailed => "RESOLUTION_FAILED"
  | ResolutionTimeout => "RESOLUTION_TIMEOUT" | AddressBlocked => "ADDRESS_BLOCKED"
  | AddressMixed => "ADDRESS_MIXED" | ConnectFailed => "CONNECT_FAILED"
  | ClientHelloTimeout => "CLIENT_HELLO_TIMEOUT"
  | ClientHelloMalformed => "CLIENT_HELLO_MALFORMED" | SniMissing => "SNI_MISSING"
  | SniAmbiguous => "SNI_AMBIGUOUS" | SniMismatch => "SNI_MISMATCH"
  | EchRefused => "ECH_REFUSED" | Closed => "CLOSED" | UploadBudget => "UPLOAD_BUDGET"
  | DownloadBudget => "DOWNLOAD_BUDGET" | IdleTimeout => "IDLE_TIMEOUT"
  | LifetimeExceeded => "LIFETIME_EXCEEDED" | EnvironmentClosed => "ENVIRONMENT_CLOSED"
  end.

#[global] Instance vocabulary : Vocabulary ALL as_str.
Proof. solve_vocabulary. Qed.

End EgressDisposition.

Module EgressCounters.

Record t := Make {
  dispositions : list (EgressDisposition.t * N); bytes_upstream : N; bytes_downstream : N
}.

Definition count (self : t) (disposition : EgressDisposition.t) : N :=
  match List.find (fun c => bool_decide (c.1 = disposition)) (dispositions self) with
  | Some c => c.2
  | None => 0
  end.

End EgressCounters.

(** * What a run's grants give *)

Module EgressConfig.

Record t := Make {
  relay_sha256 : string; max_tunnels : EgressTunnelLimit.t;
  max_upload_bytes : EgressByteBudget.t; max_download_bytes : EgressByteBudget.t
}.

Definition grant (self : t) (targets : EgressTargets.t) : EgressGrant.t :=
  EgressGrant.Make targets (max_tunnels self) (max_upload_bytes self) (max_download_bytes self).

End EgressConfig.

Definition dwk_sandbox_profile_probe_host : string := "direwolf-probe.invalid".

(** The body of the loop of [egress_targets]: the destination a capability
    gives, if it gives one. *)
Definition egress_target (capability : Capability.t) : option EgressTarget.t :=
  let verb := Capability.verb capability in
  if negb (bool_decide (Verb.namespace verb = Namespace.Network))
     || negb (bool_decide (Verb.action verb = Action.Https)) then None
  else
    match Capability.scope capability with
    | Scope.Syntactic (SyntacticScope.Endpoint endpoint) =>
        match Endpoint.host endpoint with
        | HostPattern.Exact _ =>
            let host := HostPattern.display (Endpoint.host endpoint) in
            if String.eqb host dwk_sandbox_profile_probe_host then None
            else
              let port :=
                match Endpoint.port endpoint with PortSpec.Port port => port | PortSpec.Any => 443%N end in
              host ← EgressHost.new host; port ← EgressPort.new port;
              Some (EgressTarget.Make host port)
        | _ => None
        end
    | _ => None
    end.

Fixpoint egress_loop (capabilities : list Capability.t) (targets : list EgressTarget.t) :
    list EgressTarget.t :=
  match capabilities with
  | [] => targets
  | capability :: rest =>
      match egress_target capability with
      | Some target =>
          egress_loop rest (if bool_decide (target ∈ targets) then targets else targets ++ [target])
      | None => egress_loop rest targets
      end
  end.

Definition egress_targets (capabilities : list Capability.t) : result EgressTargets.t string :=
  let targets := egress_loop capabilities [] in
  if (MAX_EGRESS_TARGETS <? length targets)%nat then Err "EGRESS_GRANT_TOO_LARGE"
  else ok_or (EgressTargets.new targets) "EGRESS_GRANT_TOO_LARGE".

(** * Facts *)

Lemma egress_loop_spec capabilities targets t :
  t ∈ egress_loop capabilities targets <->
  t ∈ targets \/ exists c, c ∈ capabilities /\ egress_target c = Some t.
Proof.
  revert targets. induction capabilities as [|c rest IH]; intros targets; cbn [egress_loop].
  { split; [by left|]. intros [|(c & Hc & _)]; [done|]. by apply not_elem_of_nil in Hc. }
  destruct (egress_target c) as [target|] eqn:E; rewrite IH.
  - assert (t ∈ (if bool_decide (target ∈ targets) then targets else targets ++ [target]) <->
      t ∈ targets \/ t = target) as ->.
    { case_bool_decide; [naive_solver|]. rewrite elem_of_app, list_elem_of_singleton. done. }
    split.
    + intros [[Hin|Heq]|(c' & Hc & Ht)]; [by left|right; exists c; set_solver|right; exists c'; set_solver].
    + intros [|(c' & [->|Hc]%elem_of_cons & Ht)]; [by left; left|left; right; congruence|right; eauto].
  - split.
    + intros [|(c' & Hc & Ht)]; [by left|right; exists c'; set_solver].
    + intros [|(c' & [->|Hc]%elem_of_cons & Ht)]; [by left|congruence|right; eauto].
Qed.

Lemma egress_loop_NoDup capabilities targets :
  NoDup targets -> NoDup (egress_loop capabilities targets).
Proof.
  revert targets. induction capabilities as [|c rest IH]; intros targets Hnd; cbn [egress_loop]; [done|].
  destruct (egress_target c) as [target|]; [|by apply IH]. apply IH.
  case_bool_decide; [done|]. apply NoDup_app. split_and!; [done|set_solver|apply NoDup_singleton].
Qed.

Lemma chars_count_le s : chars_count s <= String.length s.
Proof. induction s as [|a s IH]; [done|]. cbn. destruct (is_continuation a); lia. Qed.

Lemma is_host_chars text : is_host text = true -> chars_count text <= EgressHost.MAX_CHARS.
Proof.
  intros H. unfold is_host in H. destruct (is_empty text); [done|]. cbn [orb] in H.
  destruct (Nat.ltb_spec MAX_HOST_BYTES (String.length text)); [done|].
  pose proof (chars_count_le text). unfold EgressHost.MAX_CHARS, MAX_HOST_BYTES in *. lia.
Qed.

(** What each destination is of the capability that gives it. *)
Lemma egress_target_Some c t :
  egress_target c = Some t <->
  exists labels spec,
    Capability.verb c = Verb.of_ Namespace.Network Action.Https /\
    Capability.scope c = Scope.Syntactic (SyntacticScope.Endpoint (Endpoint.new (HostPattern.Exact labels) spec)) /\
    EgressHost.as_str (EgressTarget.host t) = HostPattern.labels_text labels /\
    EgressPort.get (EgressTarget.port t) = (match spec with PortSpec.Any => 443%N | PortSpec.Port p => p end) /\
    is_host (HostPattern.labels_text labels) = true /\
    is_address_literal (HostPattern.labels_text labels) = false /\
    HostPattern.labels_text labels <> dwk_sandbox_profile_probe_host /\
    (1 <= EgressPort.get (EgressTarget.port t) <= 65535)%N.
Proof.
  unfold egress_target. destruct c as [[ns act] scope k]. cbn. split.
  - destruct (decide (ns = Namespace.Network)) as [->|]; [|by rewrite bool_decide_eq_false_2].
    destruct (decide (act = Action.Https)) as [->|]; [|by rewrite (bool_decide_eq_false_2 (act = _))].
    rewrite !bool_decide_eq_true_2 by done. cbn [negb orb].
    destruct scope as [|[[[labels|] spec]| | | | | | | | |]| |]; try done. cbn [Endpoint.host Endpoint.port HostPattern.display].
    destruct (String.eqb_spec (HostPattern.labels_text labels) dwk_sandbox_profile_probe_host) as [|Hp]; [done|].
    unfold EgressHost.new, EgressPort.new.
    destruct (chars_count _ <=? _)%nat; [|done]. destruct (is_host _) eqn:Eh; [|done].
    destruct (is_address_literal _) eqn:Ea; [done|]. cbn [andb negb then_some mbind option_bind].
    set (port := match spec with PortSpec.Any => 443%N | PortSpec.Port p => p end).
    destruct (N.leb_spec 1 port); [|done]. destruct (N.leb_spec port 65535); [|done].
    cbn [andb then_some mbind option_bind]. intros [= <-]. exists labels, spec. by split_and!.
  - intros (labels & spec & [= -> ->] & -> & Eh & Ep & Hh & Ha & Hp & Hl & Hu).
    rewrite !bool_decide_eq_true_2 by done. cbn [negb orb Endpoint.host Endpoint.port HostPattern.display].
    rewrite (proj2 (String.eqb_neq _ _)) by done. unfold EgressHost.new.
    rewrite Hh, Ha, (proj2 (Nat.leb_le _ _)) by (by apply is_host_chars). cbn [andb negb then_some mbind option_bind].
    rewrite <- Ep. unfold EgressPort.new. rewrite !(proj2 (N.leb_le _ _)) by done.
    cbn [andb then_some mbind option_bind]. destruct t as [[host] [port]]. cbn in *. by subst.
Qed.
