(* ===== verification/Guard.v ===== *)
(** The address guard ([dwk-proto/src/wire/guard.rs]) and the broker's adapter
    to it ([dwkd-broker/src/egress/guard.rs]): which resolved addresses may be
    connected to. *)

From Stdlib Require Import ZArith.
From stdpp Require Import sets.
From S2P Require Export Prelude Text Egress.

Definition METADATA_NAMES : list string :=
  ["metadata.google.internal"; "metadata.goog"; "instance-data"].

(** [str::strip_suffix] of a string. *)
Fixpoint strip_suffix (p s : string) : option string :=
  if String.eqb p s then Some ""
  else match s with EmptyString => None | String a r => String a <$> strip_suffix p r end.

Definition name_blocked (host : string) : bool :=
  existsb (fun name => String.eqb host name
    || is_some_and (strip_suffix name host) (fun prefix => str_ends_with "." prefix)) METADATA_NAMES.

(** Octets in network order. *)
Module Address.

Inductive t := V4 (octets : list N) | V6 (octets : list N).

#[global] Instance eq_dec : EqDecision t.
Proof. solve_decision. Defined.

Definition octets (a : t) : list N := match a with V4 o | V6 o => o end.

(** What [[u8; 4]] and [[u8; 16]] hold. *)
Definition wf (a : t) : Prop :=
  Forall (fun b => b < 256)%N (octets a) /\
  length (octets a) = match a with V4 _ => 4 | V6 _ => 16 end.

End Address.

(** [u32::from_be_bytes] and [u128::from_be_bytes]. *)
Definition from_be_bytes (octets : list N) : N := fold_left (fun v b => v * 256 + b)%N octets 0%N.

(** [MAX.checked_shl(width - bits).unwrap_or(0)] in [width] bits. *)
Definition mask (width bits : N) : N :=
  if (width <=? width - bits)%N then 0%N
  else (N.shiftl (N.ones width) (width - bits) mod 2 ^ width)%N.

Definition v4_in (octets base : list N) (bits : N) : bool :=
  (N.land (from_be_bytes octets) (mask 32 bits) =? N.land (from_be_bytes base) (mask 32 bits))%N.

Definition v6_value (groups : list N) : N :=
  fold_left (fun value group => N.lor (N.shiftl value 16 mod 2 ^ 128) group) groups 0%N.

Definition v6_in (octets base : list N) (bits : N) : bool :=
  (N.land (from_be_bytes octets) (mask 128 bits) =? N.land (v6_value base) (mask 128 bits))%N.

Definition V4_BLOCKS : list (list N * N) :=
  [([0; 0; 0; 0], 8); ([10; 0; 0; 0], 8); ([100; 64; 0; 0], 10); ([127; 0; 0; 0], 8);
   ([169; 254; 0; 0], 16); ([172; 16; 0; 0], 12); ([192; 0; 0; 0], 24); ([192; 0; 2; 0], 24);
   ([192; 88; 99; 0], 24); ([192; 168; 0; 0], 16); ([198; 18; 0; 0], 15); ([198; 51; 100; 0], 24);
   ([203; 0; 113; 0], 24); ([224; 0; 0; 0], 4); ([240; 0; 0; 0], 4)]%N.

Definition v4_blocked (octets : list N) : bool :=
  existsb (fun block => v4_in octets block.1 block.2) V4_BLOCKS.

Definition NAT64 : list N := [0x64; 0xff9b; 0; 0; 0; 0; 0; 0]%N.
Definition UNICAST : list N := [0x2000; 0; 0; 0; 0; 0; 0; 0]%N.
Definition SIX_TO_FOUR : list N := [0x2002; 0; 0; 0; 0; 0; 0; 0]%N.
Definition V6_BLOCKS : list (list N * N) :=
  [([0x2001; 0; 0; 0; 0; 0; 0; 0], 23); ([0x2001; 0xdb8; 0; 0; 0; 0; 0; 0], 32);
   ([0x3fff; 0; 0; 0; 0; 0; 0; 0], 20)]%N.

Definition v6_blocked (octets : list N) : bool :=
  if v6_in octets NAT64 96 then v4_blocked (drop 12 octets)
  else if negb (v6_in octets UNICAST 3) then true
  else if v6_in octets SIX_TO_FOUR 16 then v4_blocked (take 4 (drop 2 octets))
  else existsb (fun block => v6_in octets block.1 block.2) V6_BLOCKS.

Definition blocked (address : Address.t) : bool :=
  match address with
  | Address.V4 octets => v4_blocked octets
  | Address.V6 octets => v6_blocked octets
  end.

Module GuardVerdict.
Inductive t := Allowed | Empty | Blocked | Mixed.
End GuardVerdict.

Definition judge (answer exceptions : list Address.t) : GuardVerdict.t :=
  if (length answer =? 0)%nat then GuardVerdict.Empty
  else
    let refused := length (List.filter
      (fun address => blocked address && negb (bool_decide (address ∈ exceptions))) answer) in
    if (refused =? length answer)%nat then GuardVerdict.Blocked
    else if (0 <? refused)%nat then GuardVerdict.Mixed
    else GuardVerdict.Allowed.

(** The broker's [judge]: [std::net] addresses are their octets. *)
Definition judge_answer (answer exceptions : list Address.t) :
    result (list Address.t) EgressDisposition.t :=
  match judge answer exceptions with
  | GuardVerdict.Allowed => Ok answer
  | GuardVerdict.Empty => Err EgressDisposition.ResolutionFailed
  | GuardVerdict.Blocked => Err EgressDisposition.AddressBlocked
  | GuardVerdict.Mixed => Err EgressDisposition.AddressMixed
  end.

(** * Blocks are intervals *)

Lemma land_mask w k x :
  (0 < k)%N -> (k <= w)%N -> (x < 2 ^ w)%N ->
  N.land x (mask w k) = (x / 2 ^ (w - k) * 2 ^ (w - k))%N.
Proof.
  intros Hk Hw Hx. unfold mask. destruct (N.leb_spec w (w - k)); [lia|].
  apply N.bits_inj. intros i. rewrite <- N.shiftl_mul_pow2, <- N.shiftr_div_pow2, N.land_spec.
  destruct (N.ltb_spec i w).
  - rewrite N.mod_pow2_bits_low by done. destruct (N.ltb_spec i (w - k)).
    + rewrite !N.shiftl_spec_low by done. apply andb_false_r.
    + rewrite !N.shiftl_spec_high' by done. rewrite N.ones_spec_low by lia.
      rewrite N.shiftr_spec', andb_true_r. f_equal. lia.
  - rewrite N.mod_pow2_bits_high by done. rewrite andb_false_r, N.shiftl_spec_high' by lia.
    rewrite N.shiftr_spec'. symmetry. destruct (N.eq_dec x 0%N) as [->|Hx0]; [apply N.bits_0|].
    apply N.bits_above_log2. apply N.log2_lt_pow2 in Hx; lia.
Qed.

(** A block whose base has its low bits clear is an interval. *)
Lemma land_mask_eq w k x base :
  (0 < k)%N -> (k <= w)%N -> (x < 2 ^ w)%N -> (base < 2 ^ w)%N -> (base mod 2 ^ (w - k) = 0)%N ->
  N.land x (mask w k) = N.land base (mask w k) <-> (base <= x < base + 2 ^ (w - k))%N.
Proof.
  intros Hk Hw Hx Hb H0. rewrite !land_mask by done.
  assert (2 ^ (w - k) <> 0)%N as Hn by (apply N.pow_nonzero; lia).
  generalize dependent (2 ^ (w - k))%N. intros m H0 Hn.
  pose proof (N.div_mod base m Hn) as Eb. rewrite H0, N.add_0_r in Eb.
  pose proof (N.div_mod x m Hn) as Ex. pose proof (N.mod_lt x m Hn) as Hr.
  rewrite !(N.mul_comm _ m). split.
  - intros E. rewrite E, <- Eb in Ex. clear - Ex Hr. generalize dependent (x mod m)%N. intros r. lia.
  - intros [H1 H2]. rewrite <- (N.div_unique x m (base / m) (x - base)); [done|lia|].
    rewrite <- Eb. lia.
Qed.

Lemma from_be_bytes_app o p : from_be_bytes (o ++ p) = fold_left (fun v b => v * 256 + b)%N p (from_be_bytes o).
Proof. apply fold_left_app. Qed.

Lemma from_be_bytes_lt o :
  Forall (fun b => b < 256)%N o -> (from_be_bytes o < 256 ^ N.of_nat (length o))%N.
Proof.
  induction o as [|b o IH] using rev_ind; [done|]. rewrite Forall_app, Forall_singleton. intros [Ho Hb].
  rewrite from_be_bytes_app, length_app. cbn. specialize (IH Ho).
  replace (N.of_nat (length o + 1)) with (N.succ (N.of_nat (length o))) by lia. rewrite N.pow_succ_r'. lia.
Qed.

Lemma value_lt a :
  Address.wf a -> (from_be_bytes (Address.octets a) < 2 ^ (match a with Address.V4 _ => 32 | _ => 128 end))%N.
Proof. intros [Hb Hl]. apply from_be_bytes_lt in Hb. rewrite Hl in Hb. by destruct a. Qed.

(** [value] is in the block of [bits] that begins at [base]. *)
Definition in_block (width : N) (value base bits : N) : Prop := (base <= value < base + 2 ^ (width - bits))%N.

(** A table's blocks: widths within range, bases with their low bits clear. *)
Definition block_ok (width : N) (value : list N -> N) (block : list N * N) : bool :=
  (0 <? block.2)%N && (block.2 <=? width)%N && (value block.1 <? 2 ^ width)%N
  && (value block.1 mod 2 ^ (width - block.2) =? 0)%N.

Lemma block_in width value block x :
  block_ok width value block = true -> (x < 2 ^ width)%N ->
  (N.land x (mask width block.2) =? N.land (value block.1) (mask width block.2))%N = true <->
  in_block width x (value block.1) block.2.
Proof.
  intros [[[?%N.ltb_lt ?%N.leb_le]%andb_true_iff ?%N.ltb_lt]%andb_true_iff ?%N.eqb_eq]%andb_true_iff Hx.
  rewrite N.eqb_eq. by apply land_mask_eq.
Qed.

Lemma blocks_in width value blocks x :
  forallb (block_ok width value) blocks = true -> (x < 2 ^ width)%N ->
  existsb (fun block => N.land x (mask width block.2) =? N.land (value block.1) (mask width block.2))%N blocks = true <->
  exists block, block ∈ blocks /\ in_block width x (value block.1) block.2.
Proof.
  intros Hok Hx. rewrite existsb_exists. rewrite forallb_forall in Hok.
  split; intros (b & Hin & Hb); exists b; rewrite ?list_elem_of_In in *; split; [done| |done|];
    revert Hb; rewrite block_in; auto.
Qed.

(** ** IPv4 *)

Definition v4_value (octets : list N) : N := from_be_bytes octets.

Lemma v4_blocked_spec o : Address.wf (Address.V4 o) ->
  v4_blocked o = true <-> exists block, block ∈ V4_BLOCKS /\ in_block 32 (v4_value o) (v4_value block.1) block.2.
Proof. intros Hwf%value_lt. apply (blocks_in 32 v4_value); [by vm_compute|exact Hwf]. Qed.

(** ** IPv6 *)

Lemma v6_in_spec o base bits : Address.wf (Address.V6 o) -> block_ok 128 v6_value (base, bits) = true ->
  v6_in o base bits = true <-> in_block 128 (from_be_bytes o) (v6_value base) bits.
Proof. intros Hwf%value_lt Hb. by apply (block_in 128 v6_value (base, bits)). Qed.

Lemma v6_blocks_spec o : Address.wf (Address.V6 o) ->
  existsb (fun block => v6_in o block.1 block.2) V6_BLOCKS = true <->
  exists block, block ∈ V6_BLOCKS /\ in_block 128 (from_be_bytes o) (v6_value block.1) block.2.
Proof. intros Hwf%value_lt. apply (blocks_in 128 v6_value); [by vm_compute|exact Hwf]. Qed.

(** The IPv4 address a prefix embeds, in its bits. *)
Lemma embedded_low o : length o = 16 -> Address.wf (Address.V6 o) -> Address.wf (Address.V4 (drop 12 o)).
Proof. intros Hl [Hb _]. split; cbn in *; [by apply Forall_drop|rewrite length_drop; lia]. Qed.

Lemma embedded_high o : length o = 16 -> Address.wf (Address.V6 o) -> Address.wf (Address.V4 (take 4 (drop 2 o))).
Proof.
  intros Hl [Hb _]. split; cbn in *; [by apply Forall_take, Forall_drop|].
  rewrite length_take, length_drop. lia.
Qed.

(** ** Answers *)

(** Let through: not blocked, or excepted. *)
Definition passes (exceptions : list Address.t) (a : Address.t) : Prop := blocked a = false \/ a ∈ exceptions.

Lemma refused_passes exceptions a :
  blocked a && negb (bool_decide (a ∈ exceptions)) = false <-> passes exceptions a.
Proof.
  unfold passes. destruct (blocked a); cbn; [|naive_solver].
  rewrite negb_false_iff, bool_decide_eq_true. naive_solver.
Qed.

Lemma refused_none exceptions answer :
  length (List.filter (fun a => blocked a && negb (bool_decide (a ∈ exceptions))) answer) = 0 <->
  Forall (passes exceptions) answer.
Proof.
  rewrite Forall_forall. induction answer as [|a l IH]; cbn; [set_solver|].
  destruct (blocked a && _) eqn:E; cbn.
  - split; [done|]. intros Hp. specialize (Hp a (list_elem_of_here _ _)). apply refused_passes in Hp. congruence.
  - rewrite IH. apply refused_passes in E. set_solver.
Qed.

Lemma judge_allowed answer exceptions :
  judge answer exceptions = GuardVerdict.Allowed <-> answer <> [] /\ Forall (passes exceptions) answer.
Proof.
  rewrite <- refused_none. unfold judge. cbv zeta. set (r := length (List.filter _ answer)).
  destruct answer as [|a l]; cbn [length Nat.eqb]; [naive_solver|].
  destruct (Nat.eqb_spec r (S (length l))); [split; [done|intros [_ ?]; lia]|].
  destruct (Nat.ltb_spec 0 r); split; try done; [intros [_ ?]; lia|intros _; split; [done|lia]].
Qed.

Lemma judge_answer_Ok answer exceptions pinned :
  judge_answer answer exceptions = Ok pinned <->
  pinned = answer /\ answer <> [] /\ Forall (passes exceptions) answer.
Proof.
  rewrite <- judge_allowed. unfold judge_answer. destruct (judge _ _); split; naive_solver.
Qed.
