(* ===== verification/ConnectRequest.v ===== *)
(** The request an environment's proxy reads
    ([dwkd-broker/src/egress/request.rs]): one strict CONNECT and its headers,
    whatever pieces it arrives in. *)

From S2P Require Export Prelude Text Utf8 Numerals Host Names Egress Guard.

Definition REQUEST_MAX_BYTES : nat := 8 * 1024.
Definition REQUEST_MAX_HEADERS : nat := 32.

Module Target.
Record t := Make { host : string; port : N }.

(** How a request line spells it. *)
Definition authority (t : t) : string := host t +:+ ":" +:+ show_N (port t).

Definition wf (t : t) : Prop :=
  is_host (host t) = true /\ is_address_literal (host t) = false /\ (1 <= port t <= U16_MAX)%N.
End Target.

Module Parsed.
Inductive t := Need | Done (target : Target.t) (consumed : nat).
End Parsed.

Definition CR : ascii := "013".
Definition LF : ascii := "010".
Definition HT : ascii := "009".
Definition CRLF : string := String CR (String LF "").

(** A token character. *)
Definition tchar (b : ascii) : bool :=
  is_alphanumeric b
  || one_of ["!"; "#"; "$"; "%"; "&"; "'"; "*"; "+"; "-"; "."; "^"; "_"; "`"; "|"; "~"]%char b.

Definition parse_port (text : string) : option N :=
  if is_empty text || (5 <? String.length text)%nat || negb (str_all is_digit text) then None
  else if (1 <? String.length text)%nat && starts_with_char "0" text then None
  else
    port ← parse_uint U16_MAX text;
    if negb (port =? 0)%N then Some port else None.

Definition parse_target (authority : string) : result Target.t EgressDisposition.t :=
  let refused := EgressDisposition.TargetNotCanonical in
  if str_contains "@" authority || starts_with_char "[" authority then Err refused
  else
    let? (name, number) := ok_or (str_split_once ":" authority) refused in
    if str_contains ":" number || negb (is_host name) || is_address_literal name then Err refused
    else
      let? port := ok_or (parse_port number) refused in
      Ok (Target.Make name port).

(** What comes before the first blank line, if one has arrived. *)
Fixpoint before_blank (s : string) : option string :=
  if str_starts_with (CRLF +:+ CRLF) s then Some ""
  else match s with EmptyString => None | String a r => String a <$> before_blank r end.

Definition is_control (b : ascii) : bool := in_range 0 31 b || Ascii.eqb b "127".

(** What the loop over the head refuses: [before] came before [b] and [r] comes
    after.  A carriage return that ends what has arrived may yet be followed by
    its line feed. *)
Definition wrong (complete : bool) (before : option ascii) (b : ascii) (r : string) : bool :=
  let last := is_empty r in
  let lone_cr := Ascii.eqb b CR && negb (starts_with_char LF r) && (complete || negb last) in
  let lone_lf := Ascii.eqb b LF && negb (bool_decide (before = Some CR)) in
  let control := is_control b && negb (one_of [CR; LF; HT] b) in
  lone_cr || lone_lf || control || negb (is_ascii b).

Fixpoint scan (complete : bool) (before : option ascii) (s : string) : bool :=
  match s with
  | EmptyString => true
  | String b r => if wrong complete before b r then false else scan complete (Some b) r
  end.

(** [split("\r\n")]. *)
Fixpoint split_lines (s : string) : list string :=
  match s with
  | EmptyString => [""]
  | String a r =>
      if Ascii.eqb a CR && starts_with_char LF r
      then match r with String _ rest => "" :: split_lines rest | EmptyString => [] end
      else match split_lines r with l :: ls => String a l :: ls | [] => [] end
  end.

(** [trim_matches]. *)
Fixpoint trim_start (f : ascii -> bool) (s : string) : string :=
  match s with
  | EmptyString => ""
  | String a r => if f a then trim_start f r else s
  end.

Fixpoint trim_end (f : ascii -> bool) (s : string) : string :=
  match s with
  | EmptyString => ""
  | String a r => match trim_end f r with
                  | EmptyString => if f a then "" else String a ""
                  | r => String a r
                  end
  end.

Definition trim_matches (f : ascii -> bool) (s : string) : string := trim_end f (trim_start f s).

Definition is_blank (a : ascii) : bool := one_of [" "%char; HT] a.

(** The loop over the header lines: all are well formed, none names a body, and
    one may name the host, which is the target's. *)
Fixpoint header_loop (authority : string) (headers : nat) (host_seen : bool) (lines : list string) :
    result () EgressDisposition.t :=
  let malformed := EgressDisposition.Malformed in
  match lines with
  | [] => Ok ()
  | line :: rest =>
      let headers := S headers in
      if (REQUEST_MAX_HEADERS <? headers)%nat then Err malformed
      else if starts_with_char " " line || starts_with_char HT line then Err malformed
      else
        let? (name, value) := ok_or (str_split_once ":" line) malformed in
        if is_empty name || negb (str_all tchar name) then Err malformed
        else
          let value := trim_matches is_blank value in
          let name := to_ascii_lowercase name in
          if String.eqb name "content-length" || String.eqb name "transfer-encoding" then Err malformed
          else if String.eqb name "host" then
            if host_seen || negb (String.eqb value authority) then Err malformed
            else header_loop authority headers true rest
          else header_loop authority headers host_seen rest
  end.

(** A whole head's request line and headers. *)
Definition parse_head (head : string) : result Target.t EgressDisposition.t :=
  let malformed := EgressDisposition.Malformed in
  if negb (valid_utf8 head) then Err malformed
  else
    match split_lines head with
    | [] => Err malformed
    | line :: lines =>
        if str_contains HT line then Err malformed
        else
          match str_split " " line with
          | [method; authority; version] =>
              if negb (String.eqb method "CONNECT") then
                Err (if negb (is_empty method) && str_all tchar method
                     then EgressDisposition.NotConnect else malformed)
              else if negb (String.eqb version "HTTP/1.1") && negb (String.eqb version "HTTP/1.0")
              then Err malformed
              else
                let? target := parse_target authority in
                let? _ := header_loop authority 0 false lines in
                Ok target
          | _ => Err malformed
          end
    end.

Definition parse (bytes : string) : result Parsed.t EgressDisposition.t :=
  let malformed := EgressDisposition.Malformed in
  let end_ := before_blank bytes in
  let head := match end_ with Some head => head | None => bytes end in
  if negb (scan (is_some end_) None head) then Err malformed
  else
    match end_ with
    | None => if (REQUEST_MAX_BYTES <=? String.length bytes)%nat then Err malformed else Ok Parsed.Need
    | Some head =>
        let consumed := String.length head + 4 in
        if (REQUEST_MAX_BYTES <? consumed)%nat then Err malformed
        else
          let? target := parse_head head in
          Ok (Parsed.Done target consumed)
    end.

(** * What has arrived *)

Lemma before_blank_Some s head :
  before_blank s = Some head -> exists rest, s = head +:+ CRLF +:+ CRLF +:+ rest.
Proof.
  revert head. induction s as [|a s IH]; intros head E; cbn [before_blank] in E; [done|].
  destruct (str_starts_with _ _) eqn:Hs.
  - injection E as <-. apply str_starts_with_spec in Hs as [r ->]. by exists r.
  - destruct (before_blank s) as [h|]; [|done]. injection E as <-.
    destruct (IH h eq_refl) as [r ->]. by exists r.
Qed.

Lemma starts_with_app p s x :
  str_starts_with p (s +:+ x) = true -> String.length p <= String.length s -> str_starts_with p s = true.
Proof. rewrite !sprefix_starts_with. intros H Hl. eapply sprefix_le, Hl; [exact H|apply sprefix_app]. Qed.

Lemma before_blank_length s head : before_blank s = Some head -> String.length s >= String.length head + 4.
Proof. intros (r & ->)%before_blank_Some. rewrite !str_length_app. cbn. lia. Qed.

(** The blank line found is the first, so what follows it does not matter. *)
Lemma before_blank_app s head x : before_blank s = Some head -> before_blank (s +:+ x) = Some head.
Proof.
  revert head. induction s as [|a s IH]; intros head E; [done|]. pose proof (before_blank_length _ _ E) as Hl.
  cbn [String.append]. cbn [before_blank] in *.
  destruct (str_starts_with _ (String a (s +:+ x))) eqn:Hx.
  - apply (starts_with_app _ (String a s) x) in Hx; [by rewrite Hx in E|cbn in *; lia].
  - destruct (str_starts_with _ (String a s)) eqn:Hs.
    + apply sprefix_starts_with in Hs. assert (sprefix (CRLF +:+ CRLF) (String a s +:+ x)) as Hp.
      { etransitivity; [exact Hs|apply sprefix_app]. }
      apply sprefix_starts_with in Hp. cbn [String.append] in *. congruence.
    + destruct (before_blank s) as [h|]; [|done]. by rewrite (IH h eq_refl).
Qed.

(** A blank line that was not there ends after what was. *)
Lemma before_blank_later s head x :
  before_blank s = None -> before_blank (s +:+ x) = Some head -> String.length s < String.length head + 4.
Proof.
  intros En E. destruct (Nat.lt_ge_cases (String.length s) (String.length head + 4)) as [|Hl]; [done|exfalso].
  apply before_blank_Some in E as (r & E). rewrite <- !string_app_assoc in E.
  assert (sprefix (head +:+ CRLF +:+ CRLF) s) as [y ->].
  { apply (sprefix_le _ _ (s +:+ x)); [rewrite E, <- !string_app_assoc; apply sprefix_app|apply sprefix_app|].
    rewrite !str_length_app. cbn. lia. }
  clear - En. induction head as [|a head IH]; [done|]. cbn [String.append before_blank] in En.
  destruct (str_starts_with _ _); [done|]. apply IH. by destruct (before_blank _).
Qed.

(** A byte that is wrong stays wrong, and one of a complete head was never
    wrong before it was complete. *)
Lemma wrong_app c p b s x : wrong false p b s = true -> wrong c p b (s +:+ x) = true.
Proof.
  unfold wrong. cbv zeta. destruct s as [|a s]; cbn [is_empty negb orb String.append starts_with_char].
  - rewrite andb_false_r. cbn [orb]. rewrite <- !orb_assoc. intros ->. by rewrite orb_true_r.
  - by rewrite orb_true_r.
Qed.

Lemma wrong_cut p b a s x : wrong true p b (String a s) = wrong false p b (String a (s +:+ x)).
Proof. reflexivity. Qed.

Lemma scan_app c p s x : scan false p s = false -> scan c p (s +:+ x) = false.
Proof.
  revert p. induction s as [|b s IH]; intros p; [done|]. cbn [String.append scan].
  destruct (wrong false p b s) eqn:Hw; [by rewrite (wrong_app c _ _ _ x Hw)|].
  intros H. rewrite (IH _ H). by destruct (wrong c _ _ _).
Qed.

Lemma scan_cut p head t r :
  t +:+ r = CRLF +:+ CRLF -> String.length r > 0 -> scan true p head = true -> scan false p (head +:+ t) = true.
Proof.
  intros Et Hr. revert p. induction head as [|b head IH]; intros p; cbn [String.append].
  - intros _. destruct t as [|a t]; [done|]. injection Et as -> Et.
    destruct t as [|a t]; [by destruct p|]. injection Et as -> Et.
    destruct t as [|a t]; [by destruct p|]. injection Et as -> Et.
    destruct t as [|a t]; [by destruct p|]. injection Et as -> Et. destruct t; [cbn in Et; subst; cbn in Hr; lia|done].
  - cbn [scan]. destruct (wrong true p b head) eqn:Hw; [done|]. intros Hs. destruct head as [|a head].
    + replace (wrong false p b ("" +:+ t)) with false; [by apply IH|]. symmetry. revert Hw. unfold wrong. cbv zeta.
      cbn [is_empty negb orb starts_with_char String.append]. rewrite !andb_true_r.
      destruct (Ascii.eqb b CR); [done|]. cbn [andb orb]. done.
    + rewrite (wrong_cut _ _ _ _ t) in Hw. cbn [String.append]. rewrite Hw. by apply IH.
Qed.

(** What has been decided of a request stays decided, whatever arrives next. *)
Lemma parse_arrival bytes more : parse bytes <> Ok Parsed.Need -> parse (bytes +:+ more) = parse bytes.
Proof.
  unfold parse. cbv zeta. destruct (before_blank bytes) as [head|] eqn:E.
  { by rewrite (before_blank_app _ _ more E). }
  cbn [is_some]. destruct (scan false None bytes) eqn:Hs; cbn [negb]; intros Hn.
  - destruct (Nat.leb_spec REQUEST_MAX_BYTES (String.length bytes)) as [Hl|]; [clear Hn|done].
    destruct (before_blank (bytes +:+ more)) as [head|] eqn:E'.
    + apply before_blank_later in E'; [|done].
      rewrite (proj2 (Nat.ltb_lt _ _)) by lia. by destruct (negb _).
    + rewrite (proj2 (Nat.leb_le _ _)) by (rewrite str_length_app; lia). by destruct (negb _).
  - clear Hn. destruct (before_blank (bytes +:+ more)) as [head|] eqn:E'; cbn [is_some].
    + assert (scan true None head = false) as ->; [|done]. apply not_true_iff_false. intros Ht.
      pose proof (before_blank_later _ _ _ E E') as Hl. apply before_blank_Some in E' as (r & E').
      destruct (Nat.le_gt_cases (String.length bytes) (String.length head)) as [Hle|Hgt].
      * assert (sprefix bytes head) as [y ->].
        { eapply sprefix_le, Hle; [apply sprefix_app|]. rewrite E'. apply sprefix_app. }
        by rewrite (scan_app true _ _ y Hs) in Ht.
      * assert (sprefix head bytes) as [t ->].
        { eapply sprefix_le; [|apply sprefix_app|]; [rewrite E'; apply sprefix_app|lia]. }
        rewrite string_app_assoc in E'. apply str_app_inj in E'.
        rewrite str_length_app in Hl. assert (sprefix t (CRLF +:+ CRLF)) as [y Hy].
        { rewrite <- string_app_assoc in E'.
          eapply sprefix_le; [apply sprefix_app|rewrite E'; apply sprefix_app|].
          cbn. lia. }
        rewrite (scan_cut None head t y) in Hs; [done|done| |done].
        apply (f_equal String.length) in Hy. rewrite !str_length_app in Hy. cbn in Hy. lia.
    + by rewrite (scan_app false _ _ more Hs).
Qed.

(** * The one strict form *)

Fixpoint join_lines (lines : list string) : string :=
  match lines with
  | [] => ""
  | [line] => line
  | line :: rest => line +:+ CRLF +:+ join_lines rest
  end.

Definition request_line (t : Target.t) (version : string) : string :=
  "CONNECT " +:+ Target.authority t +:+ " " +:+ version.

(** The bytes a line may hold. *)
Definition plain (b : ascii) : bool := is_ascii b && (negb (is_control b) || Ascii.eqb b HT).

(** A header line for the target at [authority]. *)
Definition header_ok (authority line : string) : Prop :=
  exists name value, line = name +:+ String ":" value /\ name <> "" /\ str_all tchar name = true /\
    to_ascii_lowercase name <> "content-length" /\ to_ascii_lowercase name <> "transfer-encoding" /\
    (to_ascii_lowercase name = "host" -> trim_matches is_blank value = authority).

Definition is_host_header (line : string) : bool :=
  is_some_and (str_split_once ":" line) (fun nv => String.eqb (to_ascii_lowercase nv.1) "host").

(** ** Targets *)

Lemma parse_port_Some text p : parse_port text = Some p <-> text = show_N p /\ (1 <= p <= U16_MAX)%N.
Proof.
  assert (parse_port text =
    if (5 <? String.length text)%nat then None
    else p ← parse_u16_strict text; if negb (p =? 0)%N then Some p else None) as ->.
  { unfold parse_port, parse_u16_strict. destruct (is_empty text), (5 <? _), (str_all _ _); try done.
    cbn [orb negb]. by destruct (_ && _). }
  split.
  - destruct (_ <? _); [done|]. destruct (parse_u16_strict text) as [q|] eqn:E; [|done].
    apply parse_u16_strict_Some in E as [<- Hq]. cbn. destruct (N.eqb_spec q 0); [done|].
    intros [= <-]. split; [done|lia].
  - intros [-> Hp]. rewrite (proj2 (Nat.ltb_ge _ _)) by (apply show_u16_length; lia).
    rewrite (proj2 (parse_u16_strict_Some _ p)) by (split; [done|lia]). cbn.
    by rewrite (proj2 (N.eqb_neq _ _)) by lia.
Qed.

Lemma parse_target_Ok authority t :
  parse_target authority = Ok t <-> authority = Target.authority t /\ Target.wf t.
Proof.
  unfold parse_target, Target.authority, Target.wf. cbv zeta. split.
  - destruct (_ || _) eqn:Ea; [done|]. destruct (str_split_once ":" authority) as [[name number]|] eqn:Es; [|done].
    cbn [ok_or]. destruct (str_contains ":" number || _ || _) eqn:Eh; [done|].
    destruct (parse_port number) as [p|] eqn:Ep; [|done].
    intros [= <-]. apply parse_port_Some in Ep as [-> Hp]. apply str_split_once_Some in Es as [-> _].
    apply orb_false_iff in Eh as [[_ Hh]%orb_false_iff Hl]. apply negb_false_iff in Hh.
    cbn. by split_and!; try apply Hp.
  - destruct t as [name port]. cbn. intros (-> & Hh & Hl & Hp).
    assert (forall c, is_label_byte c = false -> Ascii.eqb "." c = false -> str_contains c name = false) as Hn
      by (intros; by apply is_host_no).
    assert (starts_with_char "[" (name +:+ String ":" (show_N port)) = false) as ->.
    { destruct name; [done|]. specialize (Hn "["%char eq_refl eq_refl). by apply orb_false_iff in Hn as [? _]. }
    rewrite !str_contains_app, Hn by done. cbn [str_contains]. rewrite show_N_no by done. cbn.
    rewrite str_split_once_app by by apply Hn. cbn. rewrite show_N_no, Hh, Hl by done. cbn.
    by rewrite (proj2 (parse_port_Some _ port)).
Qed.

(** ** Headers *)

Lemma tchar_no_blank name : str_all tchar name = true -> starts_with_char " " name = false /\ starts_with_char HT name = false.
Proof. intros H. split; apply starts_no_contains; by apply (str_all_not_contains tchar). Qed.


Definition host_count (lines : list string) : nat := length (List.filter is_host_header lines).

Lemma host_header name value :
  str_all tchar name = true ->
  is_host_header (name +:+ String ":" value) = String.eqb (to_ascii_lowercase name) "host".
Proof.
  intros Hn. unfold is_host_header. rewrite str_split_once_app by by apply (str_all_not_contains tchar).
  done.
Qed.

(** What the loop accepts: few enough headers, each one right, one host. *)
Lemma header_loop_Ok authority n (seen : bool) lines :
  n <= REQUEST_MAX_HEADERS ->
  header_loop authority n seen lines = Ok () <->
  n + length lines <= REQUEST_MAX_HEADERS /\ Forall (header_ok authority) lines /\
  host_count lines + (if seen then 1 else 0) <= 1.
Proof.
  revert n seen. induction lines as [|line lines IH]; intros n seen Hn.
  { cbn. split; [intros _|done]. split_and!; [lia|constructor|by destruct seen; lia]. }
  rewrite Forall_cons. cbn [length header_loop]. cbv zeta. destruct (Nat.ltb_spec REQUEST_MAX_HEADERS (S n)).
  { split; [done|lia]. }
  destruct (str_split_once ":" line) as [[name value]|] eqn:Es; cbn [ok_or]; cycle 1.
  { split; [by destruct (_ || _)|]. intros (_ & [(x & v & -> & _ & Hx & _) _] & _).
    rewrite str_split_once_app in Es; [done|by apply (str_all_not_contains tchar)]. }
  apply str_split_once_Some in Es as [-> Hc]. destruct (str_all tchar name) eqn:Ht; cycle 1.
  { rewrite orb_true_r. split; [by destruct (_ || _)|]. intros (_ & [(x & v & E & _ & Hx & _) _] & _).
    exfalso. assert (str_split_once ":" (name +:+ String ":" value) = Some (x, v)) as E'.
    { rewrite E. apply str_split_once_app. by apply (str_all_not_contains tchar). }
    rewrite str_split_once_app in E' by done. injection E' as -> ->. congruence. }
  assert (header_ok authority (name +:+ String ":" value) <->
    name <> "" /\ to_ascii_lowercase name <> "content-length" /\ to_ascii_lowercase name <> "transfer-encoding" /\
    (to_ascii_lowercase name = "host" -> trim_matches is_blank value = authority)) as ->.
  { split; [|intros (? & ? & ? & ?); exists name, value; by split_and!].
    intros (x & v & E & ? & Hx & ? & ? & ?).
    assert (str_split_once ":" (name +:+ String ":" value) = Some (x, v)) as E'.
    { rewrite E. apply str_split_once_app. by apply (str_all_not_contains tchar). }
    rewrite str_split_once_app in E' by done. injection E' as -> ->. by split_and!. }
  replace (starts_with_char " " _ || _) with false; cycle 1.
  { symmetry. destruct (tchar_no_blank _ Ht). destruct name; [done|]. cbn in *. by apply orb_false_iff. }
  rewrite orb_false_r. unfold host_count. cbn [List.filter]. rewrite (host_header _ _ Ht).
  assert (forall s, is_empty s = false <-> s <> "") as He by (by intros []).
  destruct (is_empty name) eqn:Hm.
  { apply is_empty_true in Hm as ->. split; [done|naive_solver]. }
  apply He in Hm. destruct (String.eqb_spec (to_ascii_lowercase name) "content-length"); [split; [done|naive_solver]|].
  destruct (String.eqb_spec (to_ascii_lowercase name) "transfer-encoding"); [split; [done|naive_solver]|].
  cbn [orb]. destruct (String.eqb_spec (to_ascii_lowercase name) "host") as [Hh|Hh]; cbn [length].
  - destruct seen; cbn [orb]; [split; [done|intros (_ & _ & ?); lia]|].
    destruct (String.eqb_spec (trim_matches is_blank value) authority); cbn [negb]; [|split; [done|naive_solver]].
    rewrite IH by lia. unfold host_count. split; intros (? & ? & ?); split_and!; try done; try lia; naive_solver.
  - rewrite IH by lia. unfold host_count. split; intros (? & ? & ?); split_and!; try done; try lia; naive_solver.
Qed.

(** ** Lines *)

Lemma plain_no_cr l : str_all plain l = true -> str_contains CR l = false.
Proof. by apply str_all_not_contains. Qed.

Lemma join_cons l ls : ls <> [] -> join_lines (l :: ls) = l +:+ CRLF +:+ join_lines ls.
Proof. by destruct ls. Qed.

Lemma split_cons l s : str_contains CR l = false -> split_lines (l +:+ CRLF +:+ s) = l :: split_lines s.
Proof.
  induction l as [|a l IH]; [done|]. cbn [str_contains String.append]. intros [Ha Hl]%orb_false_iff.
  cbn [split_lines]. rewrite Ha. cbn [andb]. by rewrite IH.
Qed.

Lemma split_one l : str_contains CR l = false -> split_lines l = [l].
Proof.
  induction l as [|a l IH]; [done|]. cbn [str_contains]. intros [Ha Hl]%orb_false_iff.
  cbn [split_lines]. rewrite Ha. cbn [andb]. by rewrite IH.
Qed.

Lemma split_join ls :
  ls <> [] -> Forall (fun l => str_all plain l = true) ls -> split_lines (join_lines ls) = ls.
Proof.
  intros Hn H. induction H as [|l ls Hl H IH]; [done|]. apply plain_no_cr in Hl.
  destruct ls as [|l' ls]; [by apply split_one|]. by rewrite join_cons, split_cons, IH.
Qed.

Lemma split_lines_not_nil s : split_lines s <> [].
Proof.
  induction s as [|a s IH]; [done|]. cbn [split_lines]. destruct (_ && _) eqn:E.
  - by destruct s; [rewrite andb_false_r in E|].
  - by destruct (split_lines s).
Qed.

(** A head every byte of which is right is lines of plain bytes. *)
Lemma scan_lines p s :
  p <> Some CR -> scan true p s = true ->
  join_lines (split_lines s) = s /\ Forall (fun l => str_all plain l = true) (split_lines s).
Proof.
  revert p. induction (well_founded_ltof _ String.length s) as [s _ IH]. intros p Hp. destruct s as [|b s].
  { intros _. split; [done|by constructor]. }
  cbn [scan]. destruct (wrong true p b s) eqn:Hw; [done|]. unfold wrong in Hw. cbv zeta in Hw.
  cbn [orb] in Hw. rewrite andb_true_r in Hw.
  apply orb_false_iff in Hw as [[[Hcr Hlf]%orb_false_iff Hctl]%orb_false_iff Hascii]. apply negb_false_iff in Hascii.
  cbn [split_lines]. destruct (Ascii.eqb_spec b CR) as [->|Hb].
  - apply negb_false_iff in Hcr. rewrite Hcr. destruct s as [|b s]; [done|]. cbn in Hcr.
    apply Ascii.eqb_eq in Hcr as ->. cbn [scan]. destruct (wrong _ _ _ _); [done|].
    intros [Hj Hf]%IH; [|unfold ltof; cbn; lia|done]. split; [|by constructor].
    cbn [andb]. rewrite join_cons by apply split_lines_not_nil. by rewrite Hj.
  - cbn [andb]. intros [Hj Hf]%IH; [|unfold ltof; cbn; lia|congruence].
    destruct (split_lines s) as [|l ls] eqn:E; [by apply split_lines_not_nil in E|].
    apply Forall_cons in Hf as [Hl Hf]. split; [rewrite <- Hj; by destruct ls|].
    constructor; [|done]. cbn [str_all]. rewrite Hl, andb_true_r. unfold plain. rewrite Hascii. cbn [andb].
    unfold one_of in Hctl. cbn [existsb] in Hctl. destruct (is_control b); [|done]. cbn [negb orb andb] in *.
    rewrite bool_decide_eq_false_2, andb_true_r in Hlf by done. apply negb_false_iff in Hctl.
    rewrite Hlf, orb_false_r in Hctl. by destruct (Ascii.eqb_spec b CR).
Qed.

Lemma plain_right c p b s : plain b = true -> wrong c p b s = false.
Proof.
  unfold plain, wrong. cbv zeta. intros [-> Hc]%andb_true_iff.
  destruct (Ascii.eqb_spec b CR) as [->|]; [done|]. destruct (Ascii.eqb_spec b LF) as [->|]; [done|].
  destruct (is_control b); [|done]. cbn in Hc. unfold one_of. cbn [existsb]. rewrite Hc. by rewrite !orb_true_r.
Qed.

Lemma scan_plain c p l s : str_all plain l = true -> exists q, scan c p (l +:+ s) = scan c q s.
Proof.
  revert p. induction l as [|b l IH]; intros p; [by exists p|]. cbn [str_all String.append scan].
  intros [Hb Hl]%andb_true_iff. rewrite plain_right by done. by apply IH.
Qed.

Lemma scan_join p ls : Forall (fun l => str_all plain l = true) ls -> scan true p (join_lines ls) = true.
Proof.
  intros H. revert p. induction H as [|l ls Hl H IH]; intros p; [done|]. destruct ls as [|l' ls].
  - destruct (scan_plain true p l "" Hl) as [q Hq]. by rewrite string_app_nil_r in Hq.
  - rewrite join_cons by done. destruct (scan_plain true p l (CRLF +:+ join_lines (l' :: ls)) Hl) as [q ->].
    cbn [CRLF String.append scan]. apply IH.
Qed.

(** The first blank line of a head is its end. *)
Lemma before_blank_plain l s :
  str_all plain l = true -> before_blank (l +:+ s) = (fun h => l +:+ h) <$> before_blank s.
Proof.
  induction l as [|a l IH]; [intros _; cbn [String.append]; by destruct (before_blank s)|]. cbn [str_all String.append before_blank].
  intros [Ha Hl]%andb_true_iff. rewrite IH by done. assert (CR <> a) by (intros <-; by vm_compute in Ha).
  unfold str_starts_with. cbn [str_strip_prefix CRLF String.append].
  destruct (Ascii.eqb_spec CR a); [done|]. cbn. by destruct (before_blank s).
Qed.

Lemma before_blank_join ls rest :
  ls <> [] -> Forall (fun l => str_all plain l = true /\ l <> "") ls ->
  before_blank (join_lines ls +:+ CRLF +:+ CRLF +:+ rest) = Some (join_lines ls).
Proof.
  intros Hn H. induction H as [|l ls [Hl Hne] H IH]; [done|]. destruct ls as [|l' ls].
  - cbn [join_lines]. rewrite before_blank_plain by done. cbn. by rewrite string_app_nil_r.
  - rewrite join_cons, !string_app_assoc, before_blank_plain by done.
    apply Forall_cons in H as [[Hl' Hne'] _]. specialize (IH ltac:(done)).
    set (tail := join_lines (l' :: ls) +:+ CRLF +:+ CRLF +:+ rest) in *.
    assert (starts_with_char CR tail = false) as Ht.
    { apply plain_no_cr, starts_no_contains in Hl'. unfold tail. destruct l'; [done|]. by destruct ls. }
    cbn [CRLF String.append before_blank str_starts_with str_strip_prefix Ascii.eqb].
    rewrite IH. destruct tail as [|a tail]; [done|]. cbn in Ht. unfold str_starts_with. cbn.
    destruct (Ascii.eqb_spec CR a) as [<-|]; [done|]. cbn. destruct a as [[] [] [] [] [] [] [] []]; try done.
Qed.

(** ** Heads *)

Record request_ok (t : Target.t) (version : string) (headers : list string) : Prop := {
  ok_target : Target.wf t;
  ok_version : version = "HTTP/1.1" \/ version = "HTTP/1.0";
  ok_plain : Forall (fun l => str_all plain l = true) headers;
  ok_headers : Forall (header_ok (Target.authority t)) headers;
  ok_few : length headers <= REQUEST_MAX_HEADERS;
  ok_host : host_count headers <= 1
}.

Definition head_of (t : Target.t) (version : string) (headers : list string) : string :=
  join_lines (request_line t version :: headers).

(** Words hold no space, and only plain bytes. *)
Definition wordly (b : ascii) : bool := is_label_byte b || is_digit b || one_of ["."; ":"]%char b.

Lemma authority_wordly t : Target.wf t -> str_all wordly (Target.authority t) = true.
Proof.
  intros (Hh & _ & _). unfold Target.authority. rewrite !str_all_app. apply andb_true_iff. split.
  - apply is_host_spec in Hh as (_ & _ & Hl & _). rewrite <- (str_join_split "." (Target.host t)).
    induction Hl as [|l ls Hl _ IH]; [done|]. apply is_label_spec in Hl as (_ & _ & _ & _ & Hl).
    assert (str_all wordly l = true) as Hw by (eapply str_all_impl, Hl; intros a; unfold wordly; by intros ->).
    destruct ls; [done|]. rewrite str_join_cons, str_all_app, Hw by done. exact IH.
  - cbn [str_all]. eapply str_all_impl; [|apply show_N_digits]. intros a Ha. unfold wordly.
    by rewrite Ha, orb_true_r.
Qed.

Lemma wordly_plain : forall a, implb (wordly a) (plain a && negb (Ascii.eqb a " ")) = true.
Proof. apply ascii_forall. by vm_compute. Qed.

Lemma wordly_str s : str_all wordly s = true -> str_all plain s = true /\ str_contains " " s = false.
Proof.
  intros H. split.
  - eapply str_all_impl, H. intros a Ha. pose proof (wordly_plain a) as Hp. rewrite Ha in Hp.
    by apply andb_true_iff in Hp as [? _].
  - by apply (str_all_not_contains wordly).
Qed.

Lemma request_line_words t version headers :
  request_ok t version headers ->
  str_split " " (request_line t version) = ["CONNECT"; Target.authority t; version] /\
  str_contains HT (request_line t version) = false /\
  str_all plain (request_line t version) = true /\ request_line t version <> "".
Proof.
  intros [Ht Hv _ _ _ _]. pose proof (authority_wordly _ Ht) as Hw. destruct (wordly_str _ Hw) as [Hp Hs].
  unfold request_line. split_and!; [| | |done].
  - change ("CONNECT " +:+ ?x) with ("CONNECT" +:+ String " " x). rewrite str_split_app by done. f_equal.
    change (" " +:+ version) with (String " " version). rewrite str_split_app by done. f_equal.
    by destruct Hv as [-> | ->].
  - rewrite !str_contains_app. cbn [str_contains]. rewrite (str_all_not_contains wordly) by done.
    by destruct Hv as [-> | ->].
  - rewrite !str_all_app, Hp. by destruct Hv as [-> | ->].
Qed.

Lemma header_nonempty authority l : header_ok authority l -> l <> "".
Proof. intros (name & value & -> & Hn & _). by destruct name. Qed.

Lemma join_ascii ls : Forall (fun l => str_all plain l = true) ls -> str_all is_ascii (join_lines ls) = true.
Proof.
  assert (forall a, plain a = true -> is_ascii a = true) as Ha by (intros a; unfold plain; by intros [? _]%andb_true_iff).
  induction 1 as [|l ls Hl H IH]; [done|]. apply (str_all_impl _ is_ascii) in Hl; [|done].
  destruct ls; [done|]. rewrite join_cons, !str_all_app, Hl by done. exact IH.
Qed.

Lemma parse_head_Ok head t :
  scan true None head = true ->
  parse_head head = Ok t <-> exists version headers, request_ok t version headers /\ head = head_of t version headers.
Proof.
  intros Hs. apply scan_lines in Hs as [Hj Hf]; [|done]. unfold parse_head. cbv zeta.
  rewrite (proj2 (valid_utf8_spec head)) by (rewrite <- Hj; by apply Utf8_all_ascii, join_ascii). cbn [negb]. split.
  - destruct (split_lines head) as [|line lines]; [done|]. destruct (str_contains HT line); [done|].
    apply Forall_cons in Hf as [_ Hf]. destruct (str_split " " line) as [|m [|a [|v [|]]]] eqn:Ew; try done.
    destruct (String.eqb_spec m "CONNECT") as [->|]; cbn [negb]; [|done].
    destruct (_ && _) eqn:Ev; [done|]. destruct (parse_target a) as [t'|] eqn:Et; [|done].
    apply parse_target_Ok in Et as [-> Hwf]. destruct (header_loop _ _ _ _) as [[]|] eqn:Eh; [|done]. intros [= <-].
    apply header_loop_Ok in Eh as (Hl & Hh & Hc); [|cbn; lia]. exists v, lines. split.
    + split; [done| |done|done|lia|lia].
      apply andb_false_iff in Ev as [Ev|Ev]; apply negb_false_iff, String.eqb_eq in Ev; auto.
    + rewrite <- Hj. unfold head_of. f_equal. f_equal. by rewrite <- (str_join_split " " line), Ew.
  - intros (version & headers & Hok & ->). destruct (request_line_words _ _ _ Hok) as (Ew & Ht & Hp & _).
    destruct Hok as [Hwf Hv Hpl Hh Hl Hc]. unfold head_of in *.
    rewrite split_join in * by (done || by constructor). rewrite Ht, Ew. cbn [String.eqb negb andb].
    assert (negb (String.eqb version "HTTP/1.1") && negb (String.eqb version "HTTP/1.0") = false) as ->
      by (by destruct Hv as [-> | ->]).
    rewrite (proj2 (parse_target_Ok _ t)) by done. rewrite (proj2 (header_loop_Ok _ _ _ _ (Nat.le_0_l _))); [done|].
    split_and!; [done|done|lia].
Qed.

(** Read whole: exactly a request in its one form, and where it ended. *)
Lemma parse_Done bytes t n :
  parse bytes = Ok (Parsed.Done t n) <->
  exists version headers rest, request_ok t version headers /\
    bytes = head_of t version headers +:+ CRLF +:+ CRLF +:+ rest /\
    n = String.length (head_of t version headers) + 4 /\ n <= REQUEST_MAX_BYTES.
Proof.
  unfold parse. cbv zeta. split.
  - destruct (before_blank bytes) as [head|] eqn:E; cbn [is_some]; cycle 1.
    { destruct (negb _); [done|]. by destruct (_ <=? _). }
    destruct (scan true None head) eqn:Hs; cbn [negb]; [|done].
    destruct (Nat.ltb_spec REQUEST_MAX_BYTES (String.length head + 4)); [done|].
    destruct (parse_head head) as [t'|] eqn:Eh; [|done]. intros [= <- <-].
    apply parse_head_Ok in Eh as (version & headers & Hok & ->); [|done].
    apply before_blank_Some in E as [rest ->]. exists version, headers, rest. by split_and!.
  - intros (version & headers & rest & Hok & -> & -> & Hn).
    pose proof (request_line_words _ _ _ Hok) as (_ & _ & Hp & Hne).
    assert (Forall (fun l => str_all plain l = true) (request_line t version :: headers)) as Hall
      by (constructor; [done|apply Hok]).
    assert (before_blank (head_of t version headers +:+ CRLF +:+ CRLF +:+ rest) = Some (head_of t version headers)) as ->.
    { apply before_blank_join; [done|]. constructor; [done|]. destruct Hok as [_ _ Hpl Hh _ _].
      apply Forall_and; split; [done|]. eapply Forall_impl; [exact Hh|]. intros l. apply header_nonempty. }
    pose proof (scan_join None _ Hall) as Hs. fold (head_of t version headers) in Hs.
    cbn [is_some]. rewrite Hs. cbn [negb]. rewrite (proj2 (Nat.ltb_ge _ _)) by done.
    rewrite (proj2 (parse_head_Ok _ t Hs)); [done|]. by exists version, headers.
Qed.
