(* ===== verification/ClientHello.v ===== *)
(** The server name of a TLS [ClientHello]
    ([dwkd-broker/src/egress/hello.rs]), read from the records a tunnel begins
    with, whatever pieces they arrive in. *)

From stdpp Require Import sets.
From S2P Require Export Prelude Text Utf8 Egress.

Definition HELLO_MAX_BYTES : nat := 16 * 1024.
Definition HELLO_MAX_BUFFERED : N := 64 * 1024.
Definition HANDSHAKE : N := 22.
Definition CLIENT_HELLO : N := 1.
Definition RECORD_MAX : N := N.shiftl 1 14.
Definition SERVER_NAME : N := 0.
Definition ENCRYPTED_CLIENT_HELLO : N := 0xfe0d.
Definition NAME_MAX : nat := 253.

Abbreviation disposition := EgressDisposition.t (only parsing).

(** A bounds-checked reader: what it read, and what is left. *)
Module Cursor.

Fixpoint split_at (n : nat) (s : string) : option (string * string) :=
  match n, s with
  | O, _ => Some ("", s)
  | S n, String a r => '(h, t) ← split_at n r; Some (String a h, t)
  | S _, EmptyString => None
  end.

Definition take (n : nat) (c : string) : result (string * string) disposition :=
  ok_or (split_at n c) EgressDisposition.ClientHelloMalformed.

Definition u8 (c : string) : result (N * string) disposition :=
  match c with
  | String a r => Ok (byte_of a, r)
  | _ => Err EgressDisposition.ClientHelloMalformed
  end.

Definition u16 (c : string) : result (N * string) disposition :=
  match c with
  | String a (String b r) => Ok (byte_of a * 256 + byte_of b, r)%N
  | _ => Err EgressDisposition.ClientHelloMalformed
  end.

Definition u24 (c : string) : result (N * string) disposition :=
  match c with
  | String a (String b (String d r)) => Ok ((byte_of a * 256 + byte_of b) * 256 + byte_of d, r)%N
  | _ => Err EgressDisposition.ClientHelloMalformed
  end.

End Cursor.
Import Cursor.

Definition tls_version (v : N) : bool := (0x0301 <=? v)%N && (v <=? 0x0303)%N.

(** ** The body *)

(** The names of a [server_name] extension. *)
Fixpoint name_loop (fuel : nat) (list_ : string) (names : list string) : result (list string) disposition :=
  match fuel with
  | O => Ok names
  | S fuel =>
      if is_empty list_ then Ok names
      else
        let? (kind, c) := u8 list_ in
        let? (length, c) := u16 c in
        let? (name, c) := take (N.to_nat length) c in
        if negb (kind =? 0)%N || is_empty name || (NAME_MAX <? String.length name)%nat
        then Err EgressDisposition.ClientHelloMalformed
        else name_loop fuel c (names ++ [name])
  end.

Definition host_name (data : string) : result string disposition :=
  let malformed := EgressDisposition.ClientHelloMalformed in
  let? (length, extension) := u16 data in
  let? (list_, extension) := take (N.to_nat length) extension in
  if negb (is_empty extension) || is_empty list_ then Err malformed
  else
    let? names := name_loop (String.length list_) list_ [] in
    match names with
    | [one] => Ok one
    | [] => Err EgressDisposition.SniMissing
    | _ => Err EgressDisposition.SniAmbiguous
    end.

(** The extensions: [seen] holds their types, [name] and [ech] what was read. *)
Fixpoint extension_loop (fuel : nat) (extensions : string) (seen : list N) (name : option string)
    (ech : bool) : result (option string * bool) disposition :=
  match fuel with
  | O => Ok (name, ech)
  | S fuel =>
      if is_empty extensions then Ok (name, ech)
      else
        let? (kind, c) := u16 extensions in
        let? (length, c) := u16 c in
        let? (data, c) := take (N.to_nat length) c in
        if bool_decide (kind ∈ seen) then Err EgressDisposition.ClientHelloMalformed
        else if (kind =? SERVER_NAME)%N then
          let? one := host_name data in extension_loop fuel c (kind :: seen) (Some one) ech
        else extension_loop fuel c (kind :: seen) name ((kind =? ENCRYPTED_CLIENT_HELLO)%N || ech)
  end.

Definition server_name (body : string) : result string disposition :=
  let malformed := EgressDisposition.ClientHelloMalformed in
  let? (version, hello) := u16 body in
  if negb (tls_version version) then Err malformed
  else
    let? (_, hello) := take 32 hello in
    let? (session, hello) := u8 hello in
    if (32 <? session)%N then Err malformed
    else
      let? (_, hello) := take (N.to_nat session) hello in
      let? (suites, hello) := u16 hello in
      if (suites <? 2)%N || negb (suites mod 2 =? 0)%N then Err malformed
      else
        let? (_, hello) := take (N.to_nat suites) hello in
        let? (compression, hello) := u8 hello in
        if (compression <? 1)%N then Err malformed
        else
          let? (_, hello) := take (N.to_nat compression) hello in
          if is_empty hello then Err EgressDisposition.SniMissing
          else
            let? (length, hello) := u16 hello in
            let? (extensions, hello) := take (N.to_nat length) hello in
            if negb (is_empty hello) then Err malformed
            else
              let? (name, ech) := extension_loop (String.length extensions) extensions [] None false in
              if (ech : bool) then Err EgressDisposition.EchRefused
              else ok_or name EgressDisposition.SniMissing.

(** ** Records *)

(** The hello as it arrives: where the first record not yet read starts, and
    the handshake bytes of those read. *)
Module Hello.
Record t := Make { end_ : nat; handshake : string }.

Definition default : t := Make 0 "".
End Hello.

(** What the handshake bytes read so far come to. *)
Definition message (handshake : string) : result (option string) disposition :=
  let malformed := EgressDisposition.ClientHelloMalformed in
  if (String.length handshake <? 4)%nat then Ok None
  else
    let? (kind, c) := u8 handshake in
    if negb (kind =? CLIENT_HELLO)%N then Err malformed
    else
      let? (declared, c) := u24 c in
      if (N.of_nat HELLO_MAX_BYTES <? declared)%N || (declared <? str_len c)%N then Err malformed
      else if (str_len c =? declared)%N then let? name := server_name c in Ok (Some name)
      else Ok None.

(** The fragment of the record that [rest] begins with and what follows it,
    once it is whole. *)
Definition next_record (rest : string) : result (option (string * string)) disposition :=
  if (String.length rest <? 5)%nat then Ok None
  else
    let? (kind, c) := u8 rest in
    let? (version, c) := u16 c in
    let? (length, c) := u16 c in
    if negb (kind =? HANDSHAKE)%N || negb (tls_version version) || (length =? 0)%N || (RECORD_MAX <? length)%N
    then Err EgressDisposition.ClientHelloMalformed
    else if (str_len c <? length)%N then Ok None
    else let? (fragment, c) := take (N.to_nat length) c in Ok (Some (fragment, c)).

(** The loop of [feed]. *)
Fixpoint feed_loop (fuel : nat) (h : Hello.t) (rest : string) : result (option string * Hello.t) disposition :=
  match fuel with
  | O => Ok (None, h)
  | S fuel =>
      let? record := next_record rest in
      match record with
      | None => Ok (None, h)
      | Some (fragment, c) =>
          let h := Hello.Make (Hello.end_ h + 5 + String.length fragment) (Hello.handshake h +:+ fragment) in
          let? found := message (Hello.handshake h) in
          match found with
          | Some name => Ok (Some name, h)
          | None => feed_loop fuel h c
          end
      end
  end.

Definition feed (h : Hello.t) (bytes : string) : result (option string * Hello.t) disposition :=
  let malformed := EgressDisposition.ClientHelloMalformed in
  if (HELLO_MAX_BUFFERED <? str_len bytes)%N then Err malformed
  else
    let? (_, rest) := ok_or (split_at (Hello.end_ h) bytes) malformed in
    feed_loop (S (String.length rest)) h rest.

(** * What is read *)

Definition enc16 (n : N) : string := String (byte (n / 256)) (String (byte (n mod 256)) "").
Definition enc24 (n : N) : string :=
  String (byte (n / 65536)) (String (byte (n / 256 mod 256)) (String (byte (n mod 256)) "")).

(** Bytes behind their length. *)
Definition vec8 (s : string) : string := String (byte (str_len s)) s.
Definition vec16 (s : string) : string := enc16 (str_len s) +:+ s.

Lemma split_at_Some n s h t : split_at n s = Some (h, t) <-> s = h +:+ t /\ String.length h = n.
Proof.
  revert s h. induction n as [|n IH]; intros s h; cbn [split_at].
  - split; [by intros [= <- <-]|]. intros [-> Hl]. by destruct h.
  - destruct s as [|a s]; [split; [done|]; intros [E Hl]; by destruct h|]. split.
    + destruct (split_at n s) as [[h' t']|] eqn:E; [|done]. intros [= <- <-].
      apply IH in E as [-> <-]. done.
    + intros [E Hl]. destruct h as [|b h]; [done|]. injection E as <- E. injection Hl as Hl.
      by rewrite (proj2 (IH s h)).
Qed.

Lemma split_at_enough n s : n <= String.length s -> exists h t, split_at n s = Some (h, t).
Proof.
  revert s. induction n as [|n IH]; intros s Hn; [by exists "", s|]. destruct s as [|a s]; [cbn in Hn; lia|].
  cbn in Hn. destruct (IH s ltac:(lia)) as (h & t & E). exists (String a h), t. cbn [split_at]. by rewrite E.
Qed.

Lemma take_Ok n s h t : take n s = Ok (h, t) <-> s = h +:+ t /\ String.length h = n.
Proof. unfold take. by rewrite ok_or_Ok, split_at_Some. Qed.

Lemma u8_Ok c v r : u8 c = Ok (v, r) <-> c = String (byte v) r /\ (v < 256)%N.
Proof.
  destruct c as [|a c]; cbn; [split; [done|by intros [? _]]|]. split.
  - intros [= <- <-]. rewrite byte_byte_of. split; [done|apply byte_of_lt].
  - intros [[= -> ->] Hv]. by rewrite byte_of_byte.
Qed.

Lemma u16_Ok c v r : u16 c = Ok (v, r) <-> c = enc16 v +:+ r /\ (v < 65536)%N.
Proof.
  unfold enc16. destruct c as [|a [|b c]]; cbn; [split; [done|by intros [? _]]..|]. split.
  - intros [= <- <-]. pose proof (byte_of_lt a). pose proof (byte_of_lt b).
    rewrite N.div_add_l, N.div_small, N.add_0_r by lia.
    rewrite N.add_comm, N.Div0.mod_add, N.mod_small, !byte_byte_of by lia. split; [done|lia].
  - intros [[= -> -> ->] Hv]. pose proof (N.mod_lt v 256). rewrite !byte_of_byte.
    + by rewrite N.mul_comm, <- N.div_mod.
    + lia.
    + apply N.Div0.div_lt_upper_bound. lia.
Qed.

Lemma u24_Ok c v r : u24 c = Ok (v, r) <-> c = enc24 v +:+ r /\ (v < 16777216)%N.
Proof.
  unfold enc24. destruct c as [|a [|b [|d c]]]; cbn; [split; [done|by intros [? _]]..|]. split.
  - intros [= <- <-]. pose proof (byte_of_lt a). pose proof (byte_of_lt b). pose proof (byte_of_lt d).
    replace (((byte_of a * 256 + byte_of b) * 256 + byte_of d) / 65536)%N with (byte_of a)
      by (apply (N.div_unique _ _ _ (byte_of b * 256 + byte_of d)); lia).
    replace (((byte_of a * 256 + byte_of b) * 256 + byte_of d) / 256)%N with (byte_of a * 256 + byte_of b)%N
      by (apply (N.div_unique _ _ _ (byte_of d)); lia).
    replace (((byte_of a * 256 + byte_of b) * 256 + byte_of d) mod 256)%N with (byte_of d)
      by (apply (N.mod_unique _ _ (byte_of a * 256 + byte_of b)); lia).
    replace ((byte_of a * 256 + byte_of b) mod 256)%N with (byte_of b)
      by (apply (N.mod_unique _ _ (byte_of a)); lia).
    rewrite !byte_byte_of. split; [done|lia].
  - intros [[= -> -> -> ->] Hv]. rewrite !byte_of_byte.
    + f_equal. f_equal. replace (v / 65536)%N with (v / 256 / 256)%N by by rewrite N.Div0.div_div.
      rewrite (N.mul_comm (v / 256 / 256)), <- N.div_mod by done. by rewrite N.mul_comm, <- N.div_mod.
    + apply N.mod_lt. done.
    + apply N.mod_lt. done.
    + apply N.Div0.div_lt_upper_bound. lia.
Qed.

(** A length and the bytes it counts. *)
Lemma vec16_Ok c l d r c1 :
  u16 c = Ok (l, c1) /\ take (N.to_nat l) c1 = Ok (d, r) <->
  c = vec16 d +:+ r /\ (str_len d < 65536)%N /\ l = str_len d /\ c1 = d +:+ r.
Proof.
  unfold vec16, str_len. rewrite u16_Ok, take_Ok, string_app_assoc. split.
  - intros [[-> ?] [-> El]]. assert (l = N.of_nat (String.length d)) as -> by lia. by split_and!.
  - intros (-> & ? & -> & ->). by rewrite Nat2N.id.
Qed.

Lemma vec8_Ok c l d r c1 :
  u8 c = Ok (l, c1) /\ take (N.to_nat l) c1 = Ok (d, r) <->
  c = vec8 d +:+ r /\ (str_len d < 256)%N /\ l = str_len d /\ c1 = d +:+ r.
Proof.
  unfold vec8, str_len. rewrite u8_Ok, take_Ok. split.
  - intros [[-> ?] [-> El]]. assert (l = N.of_nat (String.length d)) as -> by lia. by split_and!.
  - intros (-> & ? & -> & ->). by rewrite Nat2N.id.
Qed.

Lemma vec16_length d : String.length (vec16 d) = 2 + String.length d.
Proof. unfold vec16. by rewrite str_length_app. Qed.

Lemma u16_vec d r : (str_len d < 65536)%N -> u16 (vec16 d +:+ r) = Ok (str_len d, d +:+ r).
Proof. intros H. by apply (vec16_Ok _ _ d r). Qed.

Lemma u8_vec d r : (str_len d < 256)%N -> u8 (vec8 d +:+ r) = Ok (str_len d, d +:+ r).
Proof. intros H. by apply (vec8_Ok _ _ d r). Qed.

Lemma take_vec d r : take (N.to_nat (str_len d)) (d +:+ r) = Ok (d, r).
Proof. apply take_Ok. unfold str_len. by rewrite Nat2N.id. Qed.

Fixpoint concat_texts {A} (f : A -> string) (l : list A) : string :=
  match l with [] => "" | a :: l => f a +:+ concat_texts f l end.

(** ** Names *)

Definition name_entry (name : string) : string := String (byte 0) (vec16 name).
Definition name_ok (name : string) : Prop := name <> "" /\ String.length name <= NAME_MAX.

Lemma name_loop_Ok fuel c acc names :
  String.length c <= fuel ->
  name_loop fuel c acc = Ok names <->
  exists ns, c = concat_texts name_entry ns /\ Forall name_ok ns /\ names = acc ++ ns.
Proof.
  revert c acc. induction fuel as [|fuel IH]; intros c acc Hf; cbn [name_loop].
  { destruct c; [|cbn in Hf; lia]. split.
    - intros [= <-]. exists []. split_and!; [done|constructor|by rewrite app_nil_r].
    - intros (ns & E & _ & ->). destruct ns; [by rewrite app_nil_r|done]. }
  destruct (is_empty c) eqn:Ec.
  { apply is_empty_true in Ec as ->. split.
    - intros [= <-]. exists []. split_and!; [done|constructor|by rewrite app_nil_r].
    - intros (ns & E & _ & ->). destruct ns; [by rewrite app_nil_r|done]. }
  split.
  - destruct (u8 c) as [[k c1]|] eqn:E1; [|done]. destruct (u16 c1) as [[l c2]|] eqn:E2; [|done].
    destruct (take _ c2) as [[name c3]|] eqn:E3; [|done].
    destruct (_ || _) eqn:Eb; [done|]. apply u8_Ok in E1 as [-> _].
    destruct (proj1 (vec16_Ok _ _ _ _ _) (conj E2 E3)) as (-> & Hl & _ & _).
    apply orb_false_iff in Eb as [[Ek%negb_false_iff%N.eqb_eq En]%orb_false_iff Em%Nat.ltb_ge]. subst k.
    rewrite IH by (cbn [String.length] in Hf; rewrite str_length_app, vec16_length in Hf; lia).
    intros (ns & -> & Hns & ->). exists (name :: ns). split_and!; [done| |by rewrite <- app_assoc].
    constructor; [|done]. split; [by destruct name|done].
  - intros (ns & -> & Hns & ->). destruct Hns as [|name ns [Hne Hm] Hns]; [done|].
    assert (str_len name < 65536)%N as Hl by (unfold str_len, NAME_MAX in *; lia).
    cbn [concat_texts name_entry String.append u8] in *. rewrite byte_of_byte, u16_vec, take_vec by done.
    cbn [N.eqb negb orb]. rewrite (proj2 (Nat.ltb_ge _ _)) by done.
    destruct name as [|a name]; [done|]. cbn [is_empty orb].
    rewrite IH; [exists ns; split_and!; [done|done|by rewrite <- app_assoc]|].
    cbn [String.length] in Hf. rewrite str_length_app, vec16_length in Hf. lia.
Qed.

(** The extension that carries one name. *)
Definition sni (name : string) : string := vec16 (name_entry name).

Lemma name_entry_length name : String.length (name_entry name) = 3 + String.length name.
Proof. unfold name_entry. cbn [String.length]. by rewrite vec16_length. Qed.

Lemma host_name_Ok data name : host_name data = Ok name <-> data = sni name /\ name_ok name.
Proof.
  unfold host_name, sni. cbv zeta. split.
  - destruct (u16 data) as [[l c]|] eqn:E1; [|done]. destruct (take _ c) as [[list_ r]|] eqn:E2; [|done].
    destruct (proj1 (vec16_Ok _ _ _ _ _) (conj E1 E2)) as (-> & Hl & _ & _). destruct r; [|done].
    destruct (is_empty list_) eqn:Ee; [done|]. cbn [negb is_empty orb].
    destruct (name_loop _ _ _) as [names|] eqn:En; [|done].
    apply name_loop_Ok in En as (ns & -> & Hns & ->); [|lia]. cbn [app].
    destruct ns as [|n [|]]; [done| |done]. intros [= <-]. rewrite string_app_nil_r.
    rewrite Forall_singleton in Hns.
    cbn [concat_texts].
    by rewrite string_app_nil_r.
  - intros (-> & Hok). assert (str_len (name_entry name) < 65536)%N as Hl.
    { unfold str_len. rewrite name_entry_length. destruct Hok. unfold NAME_MAX in *. lia. }
    rewrite <- (string_app_nil_r (vec16 _)), u16_vec, take_vec by done. cbn [is_empty negb orb name_entry].
    rewrite (proj2 (name_loop_Ok _ _ [] [name] (le_n _))); [done|]. exists [name].
    split_and!; [cbn [concat_texts]; by rewrite string_app_nil_r|by apply Forall_singleton|done].
Qed.


(** ** Extensions *)

Definition extension_entry (e : N * string) : string := enc16 e.1 +:+ vec16 e.2.
Definition extension_ok (e : N * string) : Prop := (e.1 < 65536)%N /\ (str_len e.2 < 65536)%N.

Lemma u16_enc n r : (n < 65536)%N -> u16 (enc16 n +:+ r) = Ok (n, r).
Proof. intros H. by apply u16_Ok. Qed.

(** The name the extensions carry, after one that was carried before them. *)
Definition carried (exts : list (N * string)) (name : option string) : option string :=
  fold_left (fun name e =>
    if (e.1 =? SERVER_NAME)%N then match host_name e.2 with Ok one => Some one | Err _ => None end else name)
    exts name.

Definition has_ech (exts : list (N * string)) : bool :=
  existsb (fun e => (e.1 =? ENCRYPTED_CLIENT_HELLO)%N) exts.

(** Every type once, and a server name that reads. *)
Definition extensions_ok (seen : list N) (exts : list (N * string)) : Prop :=
  Forall extension_ok exts /\ NoDup exts.*1 /\ (forall k, k ∈ exts.*1 -> k ∉ seen) /\
  Forall (fun e => e.1 = SERVER_NAME -> exists one, host_name e.2 = Ok one) exts.

Lemma extensions_ok_nil seen : extensions_ok seen [].
Proof. split_and!; [constructor|constructor|set_solver|constructor]. Qed.

Lemma extensions_ok_cons seen k d exts :
  extensions_ok seen ((k, d) :: exts) <->
  extension_ok (k, d) /\ (k ∉ seen) /\ (k = SERVER_NAME -> exists one, host_name d = Ok one) /\
  extensions_ok (k :: seen) exts.
Proof.
  unfold extensions_ok. rewrite !Forall_cons. cbn [fmap list_fmap fst]. rewrite NoDup_cons. set_solver.
Qed.

Lemma concat_nil exts : concat_texts extension_entry exts = "" -> exts = [].
Proof. by destruct exts as [|[k d] exts]. Qed.

Lemma concat_extension k d exts :
  concat_texts extension_entry ((k, d) :: exts) = enc16 k +:+ vec16 d +:+ concat_texts extension_entry exts.
Proof. exact (string_app_assoc _ _ _). Qed.

Lemma extension_none seen name ech r :
  (Ok (name, ech) : result _ disposition) = Ok r <->
  exists exts, "" = concat_texts extension_entry exts /\ extensions_ok seen exts /\
    r = (carried exts name, has_ech exts || ech).
Proof.
  split.
  - intros [= <-]. exists []. split_and!; [done|apply extensions_ok_nil|done].
  - intros (exts & ->%eq_sym%concat_nil & _ & ->). done.
Qed.

Lemma extension_length k d r : String.length (enc16 k +:+ vec16 d +:+ r) = 4 + String.length d + String.length r.
Proof. by rewrite !str_length_app, vec16_length. Qed.

Lemma extension_loop_Ok fuel c seen name ech r :
  String.length c <= fuel ->
  extension_loop fuel c seen name ech = Ok r <->
  exists exts, c = concat_texts extension_entry exts /\ extensions_ok seen exts /\
    r = (carried exts name, has_ech exts || ech).
Proof.
  revert c seen name ech. induction fuel as [|fuel IH]; intros c seen name ech Hf; cbn [extension_loop].
  { destruct c; [apply extension_none|cbn in Hf; lia]. }
  destruct (is_empty c) eqn:Ec; [apply is_empty_true in Ec as ->; apply extension_none|]. split.
  - destruct (u16 c) as [[k c1]|] eqn:E1; [|done]. destruct (u16 c1) as [[l c2]|] eqn:E2; [|done].
    destruct (take _ c2) as [[d c3]|] eqn:E3; [|done]. apply u16_Ok in E1 as [-> Hk].
    destruct (proj1 (vec16_Ok _ _ _ _ _) (conj E2 E3)) as (-> & Hl & _ & _).
    destruct (bool_decide _) eqn:Es; [done|]. apply bool_decide_eq_false in Es.
    rewrite extension_length in Hf. destruct (N.eqb_spec k SERVER_NAME) as [->|Hs].
    + destruct (host_name d) as [one|] eqn:Eh; [|done]. rewrite IH by lia.
      intros (exts & -> & Hok & ->). exists ((SERVER_NAME, d) :: exts). split_and!.
      * by rewrite concat_extension.
      * apply extensions_ok_cons. split_and!; [done|done|by exists one|done].
      * cbn. by rewrite Eh.
    + rewrite IH by lia. intros (exts & -> & Hok & ->). exists ((k, d) :: exts). split_and!.
      * by rewrite concat_extension.
      * by apply extensions_ok_cons.
      * cbn [carried fold_left has_ech existsb fst]. rewrite (proj2 (N.eqb_neq k SERVER_NAME) Hs).
        change (existsb _ exts) with (has_ech exts). f_equal. by destruct (has_ech exts), (k =? ENCRYPTED_CLIENT_HELLO)%N, ech.
  - intros (exts & -> & Hok & ->). destruct exts as [|[k d] exts]; [done|].
    apply extensions_ok_cons in Hok as ([Hk Hl] & Hn & Hs & Hok). cbn [fst snd] in *.
    rewrite concat_extension in *. rewrite extension_length in Hf.
    rewrite u16_enc, u16_vec, take_vec by done. rewrite bool_decide_eq_false_2 by done.
    destruct (N.eqb_spec k SERVER_NAME) as [->|Hk0].
    + destruct (Hs eq_refl) as [one Eh]. rewrite Eh, IH by lia. exists exts. split_and!; [done|done|].
      cbn. by rewrite Eh.
    + rewrite IH by lia. exists exts. split_and!; [done|done|].
      cbn [carried fold_left has_ech existsb fst]. rewrite (proj2 (N.eqb_neq k SERVER_NAME) Hk0).
      change (existsb _ exts) with (has_ech exts). f_equal. by destruct (has_ech exts), (k =? ENCRYPTED_CLIENT_HELLO)%N, ech.
Qed.

(** ** Bodies *)

Module Body.
Record t := Make {
  version : N; random : string; session : string; suites : string; compression : string;
  extensions : list (N * string)
}.

Definition encode (b : t) : string :=
  enc16 (version b) +:+ random b +:+ vec8 (session b) +:+ vec16 (suites b) +:+ vec8 (compression b)
  +:+ vec16 (concat_texts extension_entry (extensions b)).

Record ok (b : t) : Prop := {
  ok_version : tls_version (version b) = true;
  ok_random : String.length (random b) = 32;
  ok_session : (str_len (session b) <= 32)%N;
  ok_suites : (2 <= str_len (suites b) < 65536)%N /\ (str_len (suites b) mod 2 = 0)%N;
  ok_compression : (1 <= str_len (compression b) < 256)%N;
  ok_extensions : extensions_ok [] (extensions b);
  ok_length : (str_len (concat_texts extension_entry (extensions b)) < 65536)%N
}.
End Body.

(** With every type once, the one name is the one that is read. *)
Lemma carried_spec exts name one :
  NoDup exts.*1 -> Forall (fun e => e.1 = SERVER_NAME -> exists one, host_name e.2 = Ok one) exts ->
  carried exts name = Some one <->
  (exists d, (SERVER_NAME, d) ∈ exts /\ host_name d = Ok one) \/ ((SERVER_NAME ∉ exts.*1) /\ name = Some one).
Proof.
  revert name. induction exts as [|[k d] exts IH]; intros name.
  { intros _ _. cbn. set_solver. }
  cbn [fmap list_fmap fst]. rewrite NoDup_cons, Forall_cons. cbn [fst snd]. intros [Hk Hn] [Hs Hf].
  cbn [carried fold_left fst snd]. change (fold_left _ exts) with (carried exts). rewrite IH by done.
  destruct (N.eqb_spec k SERVER_NAME) as [->|Hne].
  - destruct (Hs eq_refl) as [o Eh]. rewrite Eh. split.
    + intros [(d' & Hd & _)|[_ [= ->]]]; [|left; exists d; set_solver].
      exfalso. apply Hk. apply list_elem_of_fmap. by exists (SERVER_NAME, d').
    + intros [(d' & Hd & E)|[Hx _]]; [|set_solver]. apply elem_of_cons in Hd as [[= ->]|Hd].
      * right. split; [done|congruence].
      * exfalso. apply Hk. apply list_elem_of_fmap. by exists (SERVER_NAME, d').
  - split; (intros [(d' & Hd & E)|[Hx E]]; [left; exists d'|right]); set_solver.
Qed.

(** One name, and no encrypted hello behind it. *)
Definition names_one (b : Body.t) (name : string) : Prop :=
  (SERVER_NAME, sni name) ∈ Body.extensions b /\ name_ok name /\ (ENCRYPTED_CLIENT_HELLO ∉ (Body.extensions b).*1).

Lemma has_ech_false exts : has_ech exts = false <-> ENCRYPTED_CLIENT_HELLO ∉ exts.*1.
Proof.
  rewrite <- not_true_iff_false. unfold has_ech. rewrite existsb_exists. split.
  - intros Hn (e & E & He)%list_elem_of_fmap. apply Hn. exists e. split; [by apply list_elem_of_In|].
    by apply N.eqb_eq.
  - intros Hn (e & He%list_elem_of_In & E%N.eqb_eq). apply Hn. apply list_elem_of_fmap. by exists e.
Qed.

Lemma extensions_named b name :
  Body.ok b -> carried (Body.extensions b) None = Some name <->
  (SERVER_NAME, sni name) ∈ Body.extensions b /\ name_ok name.
Proof.
  intros [_ _ _ _ _ (_ & Hn & _ & Hs) _]. rewrite carried_spec by done. split.
  - intros [(d & Hd & [-> Hok]%host_name_Ok)|[_ ?]]; done.
  - intros [Hd Hok]. left. exists (sni name). split; [done|by apply host_name_Ok].
Qed.

Lemma nil_app_inv s : is_empty s = true -> s = "".
Proof. by destruct s. Qed.

(** A body is read exactly when it is one, and names one host. *)
Lemma server_name_Ok body name :
  server_name body = Ok name <-> exists b, Body.ok b /\ body = Body.encode b /\ names_one b name.
Proof.
  unfold server_name, Body.encode. cbv zeta. split.
  - destruct (u16 body) as [[version c1]|] eqn:E1; [|done]. destruct (tls_version version) eqn:Hv; cbn [negb]; [|done].
    destruct (take 32 c1) as [[random c2]|] eqn:E2; [|done]. destruct (u8 c2) as [[l3 c3]|] eqn:E3; [|done].
    destruct (N.ltb_spec 32 l3) as [|H3]; [done|]. destruct (take _ c3) as [[session c4]|] eqn:E4; [|done].
    destruct (u16 c4) as [[l5 c5]|] eqn:E5; [|done]. destruct (_ || _) eqn:H5; [done|].
    destruct (take _ c5) as [[suites c6]|] eqn:E6; [|done]. destruct (u8 c6) as [[l7 c7]|] eqn:E7; [|done].
    destruct (N.ltb_spec l7 1) as [|H7]; [done|]. destruct (take _ c7) as [[compression c8]|] eqn:E8; [|done].
    destruct (is_empty c8) eqn:H8; [done|]. destruct (u16 c8) as [[l9 c9]|] eqn:E9; [|done].
    destruct (take _ c9) as [[exts c10]|] eqn:E10; [|done].
    destruct (is_empty c10) eqn:H10; cbn [negb]; [|done]. apply nil_app_inv in H10 as ->.
    destruct (extension_loop _ _ _ _ _) as [[found ech]|] eqn:Ee; [|done].
    apply extension_loop_Ok in Ee as (es & -> & Hes & [= -> ->]); [|lia]. rewrite orb_false_r.
    destruct (has_ech es) eqn:Hech; [done|]. apply has_ech_false in Hech. rewrite ok_or_Ok. intros Hc.
    apply u16_Ok in E1 as [-> _]. apply take_Ok in E2 as [-> Hr].
    destruct (proj1 (vec8_Ok _ _ _ _ _) (conj E3 E4)) as (-> & _ & -> & _).
    destruct (proj1 (vec16_Ok _ _ _ _ _) (conj E5 E6)) as (-> & Hl5 & -> & _).
    destruct (proj1 (vec8_Ok _ _ _ _ _) (conj E7 E8)) as (-> & Hl7 & -> & _).
    destruct (proj1 (vec16_Ok _ _ _ _ _) (conj E9 E10)) as (-> & Hl9 & -> & _).
    apply orb_false_iff in H5 as [H5%N.ltb_ge H5'%negb_false_iff%N.eqb_eq].
    exists (Body.Make version random session suites compression es). cbn.
    assert (Body.ok (Body.Make version random session suites compression es)) as Hok by by split.
    split; [done|]. split; [by rewrite string_app_nil_r|].
    apply (extensions_named (Body.Make version random session suites compression es)) in Hc as [? ?]; [|done]. by split_and!.
  - intros (b & Hok & -> & Hn & Hname & Hech). pose proof (proj2 (extensions_named b name Hok) (conj Hn Hname)) as Hc.
    destruct Hok as [Hv Hr Hs [Hsu Hsm] Hco Hes Hl]. destruct b as [version random session suites compression es].
    cbn [Body.version Body.random Body.session Body.suites Body.compression Body.extensions] in *.
    pose proof (proj2 (proj1 (andb_true_iff _ _) Hv)) as Hv'%N.leb_le. rewrite u16_enc, Hv by lia. cbn [negb].
    rewrite (proj2 (take_Ok 32 _ random _)) by done. rewrite u8_vec by lia.
    rewrite (proj2 (N.ltb_ge 32 _)) by done. rewrite take_vec, u16_vec by lia.
    rewrite (proj2 (N.ltb_ge _ 2)), Hsm by lia. cbn [N.eqb negb orb]. rewrite take_vec, u8_vec by lia.
    rewrite (proj2 (N.ltb_ge _ 1)), take_vec by lia.
    rewrite <- (string_app_nil_r (vec16 (concat_texts extension_entry es))).
    replace (is_empty (vec16 _ +:+ "")) with false by done.
    rewrite u16_vec, take_vec by done. cbn [is_empty negb].
    rewrite (proj2 (extension_loop_Ok _ _ [] None false (carried es None, has_ech es || false) (le_n _)))
      by by exists es.
    rewrite (proj2 (has_ech_false es)) by done. cbn [orb]. by rewrite Hc.
Qed.

(** ** Records *)

Definition record_entry (r : N * string) : string := String (byte HANDSHAKE) (enc16 r.1 +:+ vec16 r.2).
Definition record_ok (r : N * string) : Prop :=
  tls_version r.1 = true /\ (1 <= str_len r.2 <= RECORD_MAX)%N.

(** The handshake message that carries a body. *)
Definition handshake_of (body : string) : string :=
  String (byte CLIENT_HELLO) (enc24 (str_len body) +:+ body).

Lemma enc24_length n : String.length (enc24 n) = 3.
Proof. done. Qed.

Lemma message_Some hs name :
  message hs = Ok (Some name) <->
  exists body, hs = handshake_of body /\ String.length body <= HELLO_MAX_BYTES /\ server_name body = Ok name.
Proof.
  unfold message, handshake_of. cbv zeta. split.
  - destruct (_ <? 4)%nat; [done|]. destruct (u8 hs) as [[k c1]|] eqn:E1; [|done].
    destruct (N.eqb_spec k CLIENT_HELLO) as [->|]; cbn [negb]; [|done].
    destruct (u24 c1) as [[d c2]|] eqn:E2; [|done]. destruct (_ || _) eqn:Eb; [done|].
    destruct (N.eqb_spec (str_len c2) d) as [<-|]; [|done].
    destruct (server_name c2) as [n|] eqn:En; [|done]. intros [= <-].
    apply u8_Ok in E1 as [-> _]. apply u24_Ok in E2 as [-> _]. exists c2. split_and!; [done| |done].
    apply orb_false_iff in Eb as [Eb%N.ltb_ge _]. unfold str_len in Eb. lia.
  - intros (body & -> & Hb & En).
    rewrite (proj2 (Nat.ltb_ge _ _)) by (cbn [String.length]; rewrite str_length_app, enc24_length; lia).
    rewrite (proj2 (u8_Ok _ CLIENT_HELLO _)) by done. cbn [N.eqb CLIENT_HELLO Pos.eqb negb].
    assert (str_len body <= N.of_nat HELLO_MAX_BYTES)%N as Hl by (unfold str_len; lia).
    rewrite (proj2 (u24_Ok _ (str_len body) body)) by (split; [done|unfold HELLO_MAX_BYTES in *; lia]).
    rewrite (proj2 (N.ltb_ge (N.of_nat HELLO_MAX_BYTES) _)), N.ltb_irrefl, N.eqb_refl by done.
    cbn [orb]. by rewrite En.
Qed.

(** What is not the whole message yet. *)
Lemma message_partial p s body :
  handshake_of body = p +:+ s -> s <> "" -> String.length body <= HELLO_MAX_BYTES -> message p = Ok None.
Proof.
  unfold message, handshake_of. cbv zeta. intros E Hs Hb.
  destruct (Nat.ltb_spec (String.length p) 4) as [|Hp]; [done|].
  destruct p as [|a [|b [|c [|d p]]]]; cbn [String.length] in Hp; try lia.
  cbn [enc24 String.append] in E. injection E as Ea Eb Ec Ed Ep.
  assert (String a (String b (String c (String d p))) = String (byte CLIENT_HELLO) (enc24 (str_len body) +:+ p)) as -> by
    (by subst a b c d).
  rewrite (proj2 (u8_Ok _ CLIENT_HELLO _)) by done. cbn [N.eqb CLIENT_HELLO Pos.eqb negb].
  assert (str_len body <= N.of_nat HELLO_MAX_BYTES)%N as Hl by (unfold str_len; lia).
  rewrite (proj2 (u24_Ok _ (str_len body) p)) by (split; [done|unfold HELLO_MAX_BYTES in *; lia]).
  assert (str_len p < str_len body)%N as Hlt.
  { subst body. unfold str_len. rewrite str_length_app. destruct s; [done|]. cbn. lia. }
  rewrite (proj2 (N.ltb_ge (N.of_nat HELLO_MAX_BYTES) _)), (proj2 (N.ltb_ge (str_len body) _)) by lia.
  cbn [orb]. by rewrite (proj2 (N.eqb_neq _ _)) by lia.
Qed.


(** A record is read when it is whole. *)
Lemma next_record_Some rest f left :
  next_record rest = Ok (Some (f, left)) <->
  exists v, record_ok (v, f) /\ rest = record_entry (v, f) +:+ left.
Proof.
  unfold next_record, record_entry, record_ok. cbn [fst snd]. split.
  - destruct (_ <? 5)%nat; [done|]. destruct (u8 rest) as [[k c1]|] eqn:E1; [|done].
    destruct (u16 c1) as [[v c2]|] eqn:E2; [|done]. destruct (u16 c2) as [[l c3]|] eqn:E3; [|done].
    destruct (_ || _) eqn:Eb; [done|]. destruct (str_len c3 <? l)%N; [done|].
    destruct (take _ c3) as [[f' c4]|] eqn:E4; [|done]. intros [= <- <-].
    apply u8_Ok in E1 as [-> _]. apply u16_Ok in E2 as [-> _].
    destruct (proj1 (vec16_Ok _ _ _ _ _) (conj E3 E4)) as (-> & _ & -> & _).
    apply orb_false_iff in Eb as [[[Ek%negb_false_iff%N.eqb_eq Ev%negb_false_iff]%orb_false_iff
      El%N.eqb_neq]%orb_false_iff Em%N.ltb_ge]. subst k. exists v. split_and!; [done|lia|done|].
    cbn [String.append]. by rewrite string_app_assoc.
  - intros (v & (Hv & Hl) & ->). cbn [String.append]. rewrite string_app_assoc.
    rewrite (proj2 (Nat.ltb_ge _ _)); cycle 1.
    { cbn [String.length]. rewrite !str_length_app, vec16_length. unfold str_len in Hl. cbn. lia. }
    rewrite (proj2 (u8_Ok _ HANDSHAKE _)) by done.
    pose proof (proj2 (proj1 (andb_true_iff _ _) Hv)) as Hv'%N.leb_le.
    assert (RECORD_MAX = 16384)%N as HR by done. rewrite u16_enc, u16_vec by lia.
    rewrite Hv, (proj2 (N.eqb_neq _ 0)), (proj2 (N.ltb_ge RECORD_MAX _)) by lia.
    cbn [negb orb]. replace (negb (HANDSHAKE =? HANDSHAKE)%N) with false by done. cbn [orb].
    rewrite (proj2 (N.ltb_ge _ _)) by (unfold str_len; rewrite str_length_app; lia). by rewrite take_vec.
Qed.

Lemma record_length r : String.length (record_entry r) = 5 + String.length r.2.
Proof. unfold record_entry. cbn [String.length]. by rewrite str_length_app, vec16_length. Qed.

Lemma next_record_shorter rest f left :
  next_record rest = Ok (Some (f, left)) -> String.length rest = 5 + String.length f + String.length left.
Proof. intros (v & _ & ->)%next_record_Some. by rewrite str_length_app, record_length. Qed.

(** What has been decided of a record stays decided. *)
Lemma next_record_more rest x o :
  next_record rest = Ok (Some o) -> next_record (rest +:+ x) = Ok (Some (o.1, o.2 +:+ x)).
Proof.
  destruct o as [f left]. intros (v & Hv & ->)%next_record_Some. apply next_record_Some. exists v.
  by rewrite string_app_assoc.
Qed.

Lemma next_record_wrong rest x e : next_record rest = Err e -> next_record (rest +:+ x) = Err e.
Proof.
  unfold next_record. destruct (Nat.ltb_spec (String.length rest) 5) as [|Hl]; [done|].
  rewrite (proj2 (Nat.ltb_ge _ _)) by (rewrite str_length_app; lia).
  destruct rest as [|a [|b [|c [|d [|f rest]]]]]; cbn [String.length] in Hl; try lia.
  cbn [String.append u8 u16]. cbv zeta. destruct (_ || _); [done|].
  destruct (N.ltb_spec (str_len rest) (byte_of d * 256 + byte_of f)) as [|Hr]; [done|].
  set (l := (byte_of d * 256 + byte_of f)%N) in *.
  destruct (split_at_enough (N.to_nat l) rest) as (h & t & E); [unfold str_len in Hr; lia|].
  unfold take. by rewrite E.
Qed.

(** ** The loop *)

(** One turn, whatever the fuel. *)
Lemma feed_loop_fuel fuel fuel' h rest :
  String.length rest < fuel -> String.length rest < fuel' -> feed_loop fuel h rest = feed_loop fuel' h rest.
Proof.
  revert fuel' h rest. induction fuel as [|fuel IH]; intros fuel' h rest Hf Hf'; [lia|].
  destruct fuel' as [|fuel']; [lia|]. cbn [feed_loop].
  destruct (next_record rest) as [[[f left]|]|] eqn:E; [|done|done].
  apply next_record_shorter in E. destruct (message _) as [[|]|]; [done| |done]. apply IH; lia.
Qed.

(** What was decided stays decided, and what was not goes on from where it
    stopped. *)
Lemma feed_loop_more fuel fuel' h rest x :
  String.length rest < fuel -> String.length (rest +:+ x) < fuel' ->
  match feed_loop fuel h rest with
  | Ok (None, h') => exists c left, rest = c +:+ left /\ Hello.end_ h' = Hello.end_ h + String.length c /\
      feed_loop fuel' h (rest +:+ x) = feed_loop (S (String.length (left +:+ x))) h' (left +:+ x)
  | decided => feed_loop fuel' h (rest +:+ x) = decided
  end.
Proof.
  revert fuel' h rest. induction fuel as [|fuel IH]; intros fuel' h rest Hf Hf'; [lia|].
  cbn [feed_loop]. destruct (next_record rest) as [[[f left]|]|e] eqn:E.
  - pose proof (next_record_shorter _ _ _ E) as Hl. destruct fuel' as [|fuel']; [lia|]. cbn [feed_loop].
    rewrite (next_record_more _ x _ E). cbn [fst snd Hello.handshake].
    destruct (message _) as [[name|]|e] eqn:Em; [done| |done].
    rewrite str_length_app in Hf'. set (h1 := Hello.Make _ _).
    specialize (IH fuel' h1 left ltac:(lia) ltac:(rewrite str_length_app; lia)).
    destruct (feed_loop fuel h1 left) as [[[name|] h']|e]; [done| |done].
    destruct IH as (c & l & -> & He & IH). apply next_record_Some in E as (v & Hv & ->).
    exists (record_entry (v, f) +:+ c), l. split_and!; [by rewrite string_app_assoc| |done].
    rewrite He, str_length_app, record_length. cbn. lia.
  - exists "", rest. split_and!; [done|cbn; lia|].
    exact (feed_loop_fuel _ _ h (rest +:+ x) Hf' (le_n _)).
  - destruct fuel' as [|fuel']; [lia|]. cbn [feed_loop]. by rewrite (next_record_wrong _ x _ E).
Qed.

Lemma fragments_nonempty r rs : record_ok r -> concat_texts snd (r :: rs) <> "".
Proof. destruct r as [v [|a f]]; [intros [_ [H _]]; change (1 <= 0)%N in H; lia|done]. Qed.

(** The records that carry a hello, read from what has come before them. *)
Lemma feed_loop_Some fuel h rest name :
  String.length rest < fuel -> message (Hello.handshake h) = Ok None ->
  (exists h', feed_loop fuel h rest = Ok (Some name, h')) <->
  exists records tail body, rest = concat_texts record_entry records +:+ tail /\ Forall record_ok records /\
    Hello.handshake h +:+ concat_texts snd records = handshake_of body /\
    String.length body <= HELLO_MAX_BYTES /\ server_name body = Ok name.
Proof.
  revert h rest. induction fuel as [|fuel IH]; intros h rest Hf Hm; [lia|]. cbn [feed_loop]. split.
  - intros [h' E]. destruct (next_record rest) as [[[f left]|]|] eqn:En; [|done|done].
    pose proof (next_record_shorter _ _ _ En) as Hl. apply next_record_Some in En as (v & Hv & ->).
    set (h1 := Hello.Make _ _) in *. destruct (message (Hello.handshake h1)) as [[n|]|] eqn:Em; [| |done].
    + injection E as -> <-. apply message_Some in Em as (body & Eb & Hb & En). cbn in Eb.
      exists [(v, f)], left, body. split_and!; [by cbn [concat_texts]; rewrite string_app_nil_r|by constructor| |done|done].
      cbn [concat_texts snd]. by rewrite string_app_nil_r.
    + destruct (proj1 (IH _ left ltac:(lia) Em) (ex_intro _ _ E)) as (rs & tail & body & -> & Hrs & Eb & Hb & En).
      exists ((v, f) :: rs), tail, body. split_and!; [| | |exact Hb|exact En].
      * cbn [concat_texts]. by rewrite string_app_assoc.
      * by constructor.
      * rewrite <- Eb. cbn [h1 Hello.handshake concat_texts snd]. by rewrite string_app_assoc.
  - intros (rs & tail & body & -> & Hrs & Eb & Hb & En). destruct Hrs as [|[v f] rs Hr Hrs].
    { cbn [concat_texts] in Eb. rewrite string_app_nil_r in Eb.
      rewrite (proj2 (message_Some _ name)) in Hm; [done|by exists body]. }
    cbn [concat_texts snd] in *. rewrite string_app_assoc in *.
    rewrite (proj2 (next_record_Some _ f (concat_texts record_entry rs +:+ tail))) by by exists v.
    rewrite str_length_app, record_length in Hf. cbn [snd] in Hf. cbn [Hello.handshake].
    rewrite <- string_app_assoc in Eb. destruct Hrs as [|r rs Hr' Hrs].
    + cbn [concat_texts] in Eb. rewrite string_app_nil_r in Eb.
      rewrite (proj2 (message_Some _ name)) by by exists body. by eexists.
    + pose proof (fragments_nonempty r rs Hr') as Hne.
      rewrite (message_partial _ _ _ (eq_sym Eb) Hne Hb). apply IH; [lia| |].
      * exact (message_partial _ _ _ (eq_sym Eb) Hne Hb).
      * exists (r :: rs), tail, body. by split_and!; [|constructor|..].
Qed.

(** Read whole: the records of one hello that names one host. *)
Lemma feed_Some bytes name :
  (exists h, feed Hello.default bytes = Ok (Some name, h)) <->
  (str_len bytes <= HELLO_MAX_BUFFERED)%N /\
  exists records tail b, bytes = concat_texts record_entry records +:+ tail /\ Forall record_ok records /\
    concat_texts snd records = handshake_of (Body.encode b) /\ String.length (Body.encode b) <= HELLO_MAX_BYTES /\
    Body.ok b /\ names_one b name.
Proof.
  unfold feed. cbv zeta. destruct (N.ltb_spec HELLO_MAX_BUFFERED (str_len bytes)) as [Hl|Hl].
  { split; [by intros [? ?]|]. intros [? _]. lia. }
  cbn [Hello.default Hello.end_ split_at ok_or]. rewrite feed_loop_Some by (done || lia). cbn [Hello.handshake Hello.default String.append].
  split.
  - intros (rs & tail & body & -> & Hrs & Eb & Hb & (b & Hok & -> & Hn)%server_name_Ok). split; [done|].
    exists rs, tail, b. by split_and!.
  - intros (_ & rs & tail & b & -> & Hrs & Eb & Hb & Hok & Hn). exists rs, tail, (Body.encode b).
    split_and!; [done|done|done|done|]. apply server_name_Ok. by exists b.
Qed.

(** However a hello arrives, it is read as if it had come at once. *)
Lemma feed_more h bytes x :
  (str_len (bytes +:+ x) <= HELLO_MAX_BUFFERED)%N ->
  match feed h bytes with
  | Ok (None, h') => feed h (bytes +:+ x) = feed h' (bytes +:+ x)
  | decided => Hello.end_ h <= String.length bytes -> feed h (bytes +:+ x) = decided
  end.
Proof.
  intros Hl. unfold feed. cbv zeta. rewrite (proj2 (N.ltb_ge _ (str_len (bytes +:+ x)))) by done.
  rewrite str_len_append in Hl. rewrite (proj2 (N.ltb_ge _ (str_len bytes))) by lia.
  destruct (split_at (Hello.end_ h) bytes) as [[p rest]|] eqn:E; cbn [ok_or]; cycle 1.
  { intros Hle. destruct (split_at_enough _ _ Hle) as (? & ? & ?). congruence. }
  apply split_at_Some in E as [-> Hp]. rewrite string_app_assoc, (proj2 (split_at_Some _ _ p (rest +:+ x))) by done.
  cbn [ok_or]. pose proof (feed_loop_more _ _ h rest x (le_n _) (le_n _)) as H.
  destruct (feed_loop _ h rest) as [[[name|] h']|e]; [done| |done].
  destruct H as (c & left & -> & He & H). rewrite H.
  rewrite (proj2 (split_at_Some (Hello.end_ h') _ (p +:+ c) (left +:+ x))); [done|].
  rewrite !string_app_assoc, str_length_app, He, Hp. by split.
Qed.
