(* ===== verification/Tunnel.v ===== *)
(** An environment's connections to its proxy
    ([dwkd-broker/src/egress/tunnel.rs]): the checks before anything is dialled,
    the tunnel after, and what the connections of one environment share.

    A connection is a state of [connection], [pump] and [carry], and [advance]
    is one turn of it.  A turn makes at most one access to what another's turns
    depend on (the count of tunnels, a budget, whether the environment closes),
    so that turns of connections interleave as their threads' accesses do.
    What the sockets, the resolver and the clocks answer is the turn's input:
    any answer is possible. *)

From stdpp Require Import gmap.
From S2P Require Export ConnectRequest ClientHello Guard.

(** What one environment's proxy shares between its connections: [Context],
    with its [Counters]. *)
Module Context.
Record t := Make {
  grant : EgressGrant.t; exceptions : list Address.t; tunnels : N; upload : N; download : N;
  closing : bool; upstream : N; downstream : N; dispositions : gmap string (EgressDisposition.t * N)
}.

Definition new (grant : EgressGrant.t) (exceptions : list Address.t) : t :=
  Make grant exceptions 0 (EgressByteBudget.get (EgressGrant.max_upload_bytes grant))
    (EgressByteBudget.get (EgressGrant.max_download_bytes grant)) false 0 0 ∅.

Section updates.
  Context (s : t).

Definition with_tunnels (n : N) : t :=
  Make (grant s) (exceptions s) n (upload s) (download s) (closing s) (upstream s) (downstream s) (dispositions s).
Definition with_closing : t :=
  Make (grant s) (exceptions s) (tunnels s) (upload s) (download s) true (upstream s) (downstream s) (dispositions s).
Definition with_dispositions (d : gmap string (EgressDisposition.t * N)) : t :=
  Make (grant s) (exceptions s) (tunnels s) (upload s) (download s) (closing s) (upstream s) (downstream s) d.

(** The budget of a direction, and what is left of it. *)
Definition left (up : bool) : N := if up then upload s else download s.
Definition with_left (up : bool) (n : N) : t :=
  if up then Make (grant s) (exceptions s) (tunnels s) n (download s) (closing s) (upstream s) (downstream s) (dispositions s)
  else Make (grant s) (exceptions s) (tunnels s) (upload s) n (closing s) (upstream s) (downstream s) (dispositions s).

(** [Counters::upstream] and [downstream]: [fetch_add]. *)
Definition count (up : bool) (bytes : N) : t :=
  let add n := ((n + bytes) mod 2 ^ 64)%N in
  if up
  then Make (grant s) (exceptions s) (tunnels s) (upload s) (download s) (closing s) (add (upstream s)) (downstream s) (dispositions s)
  else Make (grant s) (exceptions s) (tunnels s) (upload s) (download s) (closing s) (upstream s) (add (downstream s)) (dispositions s).

(** [Counters::record]. *)
Definition record (d : EgressDisposition.t) : t :=
  let key := EgressDisposition.as_str d in
  let entry := default (d, 0%N) (dispositions s !! key) in
  with_dispositions (<[key := (entry.1, saturating_add entry.2 1)]> (dispositions s)).

(** [Budget::spend]. *)
Definition spend (up : bool) (bytes : N) : option t :=
  if (bytes <=? left up)%N then Some (with_left up (left up - bytes)) else None.

(** [Budget::take]. *)
Definition take (up : bool) (bytes : N) : N * t :=
  (N.min (left up) bytes, with_left up (left up - bytes)).

(** [Held::take]. *)
Definition hold : option t :=
  if (tunnels s <? EgressTunnelLimit.get (EgressGrant.max_tunnels (grant s)))%N
  then Some (with_tunnels (tunnels s + 1)) else None.

Definition release : t := with_tunnels (tunnels s - 1).
End updates.
End Context.

Definition PROXY_DECISION_HEADER : string := "X-DireWolf-Egress".

(** What a refusal before the tunnel is answered. *)
Definition refusal (d : EgressDisposition.t) : string :=
  let status :=
    match d with
    | EgressDisposition.Malformed | EgressDisposition.NotConnect
    | EgressDisposition.TargetNotCanonical => "400 Bad Request"
    | EgressDisposition.RequestTimeout => "408 Request Timeout"
    | _ => "403 Forbidden"
    end in
  "HTTP/1.1 " +:+ status +:+ CRLF +:+ PROXY_DECISION_HEADER +:+ ": " +:+ EgressDisposition.as_str d
  +:+ CRLF +:+ "Content-Length: 0" +:+ CRLF +:+ "Connection: close" +:+ CRLF +:+ CRLF.

(** ** Inputs *)

(** Why a bounded read stopped. *)
Module Stop.
Inductive t := Timeout | Eof | Failed.
End Stop.

(** What a socket answers. *)
Inductive Io := Moved (bytes : string) | Ended_ | Ticked | Broken.

(** What one address answers within the dial's deadline. *)
Inductive Try := Accepts | Refuses | TooLate.

Inductive Input :=
| Go
| Received (r : result string Stop.t)
| Resolved (r : result (list Address.t) EgressDisposition.t)
| Answered (ok : bool)
| Tried (tries : list Try)
| Looked (late idle : bool)
| ReadOnce (r : Io)
| WroteOnce (late idle : bool) (r : Io).

(** ** States *)

(** Where one direction of a tunnel is: about to look at its clocks, then at
    its budget, about to read at most [room], holding what it read, or writing
    what the budget let through. *)
Inductive Leg :=
| Looking
| Sizing
| Reading (room : N)
| Holding (bytes : string)
| Writing (rest : string) (written allowed total : N)
| Finished.

(** A direction: what it has read and written, what it has spent. *)
Module Flow.
Record t := Make { leg : Leg; read : string; sent : string; spent : N }.

Definition at_ (f : t) (l : Leg) : t := Make l (read f) (sent f) (spent f).
Definition more (f : t) (bytes : string) : t := Make (leg f) (read f +:+ bytes) (sent f) (spent f).
Definition wrote (f : t) (bytes : string) : t := Make (leg f) (read f) (sent f +:+ bytes) (spent f).
Definition spend (f : t) (n : N) : t := Make (leg f) (read f) (sent f) (spent f + n).
Definition idle : t := Make Looking "" "" 0.
End Flow.

Inductive Stage :=
| Requesting (buffer : string)
| Granting (target : Target.t)
| Resolving (target : Target.t)
| Greeting (target : Target.t) (pinned : list Address.t)
| Helloing (target : Target.t) (pinned : list Address.t) (hello : Hello.t)
| Dialling (target : Target.t) (pinned : list Address.t)
| Spending
| Opening (rest : string) (written : N)
| Starting
| Pumping (ending : option EgressDisposition.t)
| Ended (d : EgressDisposition.t) (reply : option string).

(** A connection: [up] has read what came after the request. *)
Module Conn.
Record t := Make {
  stage : Stage; held : bool; dialled : option (Address.t * N); up : Flow.t; down : Flow.t
}.

Definition new : t := Make (Requesting "") false None Flow.idle Flow.idle.

Definition at_ (c : t) (s : Stage) : t := Make s (held c) (dialled c) (up c) (down c).
Definition hold (c : t) : t := Make (stage c) true (dialled c) (up c) (down c).
Definition dial (c : t) (a : Address.t) (port : N) : t := Make (stage c) (held c) (Some (a, port)) (up c) (down c).
Definition flow (u : bool) (c : t) : Flow.t := if u then up c else down c.
Definition with_flow (u : bool) (c : t) (f : Flow.t) : t :=
  if u then Make (stage c) (held c) (dialled c) f (down c)
  else Make (stage c) (held c) (dialled c) (up c) f.
End Conn.

Section advance.
  Context (s : Context.t) (c : Conn.t).

(** The end of [connection] and [serve]: the slot is given back and the ending
    counted. *)
Definition finish (d : EgressDisposition.t) (reply : option string) : Context.t * Conn.t :=
  let s := if Conn.held c then Context.release s else s in
  (Context.record s d, Conn.Make (Ended d reply) false (Conn.dialled c) (Conn.up c) (Conn.down c)).

Definition refuse (d : EgressDisposition.t) : Context.t * Conn.t := finish d (Some (refusal d)).
Definition stop (d : EgressDisposition.t) : Context.t * Conn.t := finish d None.

(** [read_before] into [room] bytes. *)
Definition read_before (room : N) (r : result string Stop.t) (k : string -> Context.t * Conn.t)
    (timeout failed : Context.t * Conn.t) : option (Context.t * Conn.t) :=
  if Context.closing s then Some (stop EgressDisposition.EnvironmentClosed)
  else
    match r with
    | Ok bytes => if (1 <=? str_len bytes)%N && (str_len bytes <=? room)%N then Some (k bytes) else None
    | Err Stop.Timeout => Some timeout
    | Err _ => Some failed
    end.

(** The first address that accepts, in order, before the deadline. *)
Fixpoint dial (pinned : list Address.t) (tries : list Try) : option Address.t :=
  match pinned, tries with
  | a :: pinned, Accepts :: _ => Some a
  | _ :: pinned, Refuses :: tries => dial pinned tries
  | _, _ => None
  end.

Definition expired (late idle : bool) : option EgressDisposition.t :=
  if Context.closing s then Some EgressDisposition.EnvironmentClosed
  else if late then Some EgressDisposition.LifetimeExceeded
  else if idle then Some EgressDisposition.IdleTimeout
  else None.

(** One turn of [write_watching] over [rest]: done, or ended, or what is left. *)
Definition write_watching (rest : string) (late idle : bool) (r : Io) :
    option (result (string * string) EgressDisposition.t) :=
  match expired late idle with
  | Some why => Some (Err why)
  | None =>
      match r with
      | Moved bytes =>
          if is_empty bytes then Some (Err EgressDisposition.Closed)
          else
            let n := str_len bytes in
            if String.eqb (str_take n rest) bytes then Some (Ok (bytes, str_drop n rest)) else None
      | Ended_ | Broken => Some (Err EgressDisposition.Closed)
      | Ticked => Some (Ok ("", rest))
      end
  end.

(** [Ending::set] and the return of a direction. *)
Definition fail (up : bool) (ending : option EgressDisposition.t) (why : EgressDisposition.t) : Conn.t :=
  let ending := match ending with Some d => d | None => why end in
  Conn.with_flow up (Conn.at_ c (Pumping (Some ending))) (Flow.at_ (Conn.flow up c) Finished).

Definition BUFFER : N := 16 * 1024.

(** One turn of [carry]. *)
Definition carry (up : bool) (ending : option EgressDisposition.t) (input : Input) :
    option (Context.t * Conn.t) :=
  let f := Conn.flow up c in
  let goto f := Conn.with_flow up c f in
  match Flow.leg f, input with
  | Looking, Looked late idle =>
      if is_some ending then Some (s, goto (Flow.at_ f Finished))
      else
        match expired late idle with
        | Some why => Some (s, fail up ending why)
        | None => Some (s, goto (Flow.at_ f Sizing))
        end
  | Sizing, Go =>
      Some (s, goto (Flow.at_ f (Reading (N.min (saturating_add (Context.left s up) 1) BUFFER))))
  | Reading room, ReadOnce r =>
      match r with
      | Moved bytes =>
          if (1 <=? str_len bytes)%N && (str_len bytes <=? room)%N
          then Some (s, goto (Flow.at_ (Flow.more f bytes) (Holding bytes))) else None
      | Ended_ => Some (s, goto (Flow.at_ f Finished))
      | Ticked => Some (s, goto (Flow.at_ f Looking))
      | Broken => Some (s, fail up ending EgressDisposition.Closed)
      end
  | Holding bytes, Go =>
      let total := str_len bytes in
      let '(allowed, s) := Context.take s up total in
      Some (s, goto (Flow.at_ (Flow.spend f allowed) (Writing (str_take allowed bytes) 0 allowed total)))
  | Writing rest written allowed total, WroteOnce late idle r =>
      let exceeded := if up then EgressDisposition.UploadBudget else EgressDisposition.DownloadBudget in
      if is_empty rest then
        Some (Context.count s up allowed,
          if (allowed <? total)%N then fail up ending exceeded else goto (Flow.at_ f Looking))
      else
        match write_watching rest late idle r with
        | None => None
        | Some (Err why) => Some (Context.count s up written, fail up ending why)
        | Some (Ok (bytes, rest)) =>
            Some (s, goto (Flow.at_ (Flow.wrote f bytes) (Writing rest (written + str_len bytes) allowed total)))
        end
  | _, _ => None
  end.

(** One turn of [pump]: both directions' threads, and their end. *)
Definition pump (up : bool) (input : Input) : option (Context.t * Conn.t) :=
  match Conn.stage c, input with
  | Starting, Answered ok =>
      Some (if ok : bool then (s, Conn.at_ c (Pumping None)) else stop EgressDisposition.Closed)
  | Pumping ending, _ =>
      match Flow.leg (Conn.up c), Flow.leg (Conn.down c), input with
      | Finished, Finished, Go => Some (stop (default EgressDisposition.Closed ending))
      | _, _, _ => carry up ending input
      end
  | _, _ => None
  end.

Definition CHUNK : N := 4096.

(** One turn of a connection; of its upstream direction when [up] and of its
    downstream one otherwise, once it is a tunnel. *)
Definition advance (up : bool) (input : Input) : option (Context.t * Conn.t) :=
  let early := Flow.read (Conn.up c) in
  let goto stage := Conn.at_ c stage in
  match Conn.stage c, input with
  | Requesting buffer, _ =>
      match parse buffer, input with
      | Ok (Parsed.Done target consumed), Go =>
          Some (s, Conn.with_flow true (goto (Granting target))
                     (Flow.more (Conn.up c) (str_drop (N.of_nat consumed) buffer)))
      | Ok Parsed.Need, Received r =>
          read_before (N.min (N.of_nat REQUEST_MAX_BYTES - str_len buffer) CHUNK) r
            (fun bytes => (s, goto (Requesting (buffer +:+ bytes))))
            (refuse EgressDisposition.RequestTimeout) (stop EgressDisposition.Malformed)
      | Err d, Go => Some (refuse d)
      | _, _ => None
      end
  | Granting target, Go =>
      if negb (EgressGrant.permits (Context.grant s) (Target.host target) (Target.port target))
      then Some (refuse EgressDisposition.TargetNotGranted)
      else if name_blocked (Target.host target) then Some (refuse EgressDisposition.AddressBlocked)
      else
        match Context.hold s with
        | None => Some (refuse EgressDisposition.TunnelLimit)
        | Some s => Some (s, Conn.hold (goto (Resolving target)))
        end
  | Resolving target, Resolved r =>
      Some (match (let? answer := r in judge_answer answer (Context.exceptions s)) with
            | Ok pinned => (s, goto (Greeting target pinned))
            | Err d => refuse d
            end)
  | Greeting target pinned, Answered ok =>
      Some (if ok : bool then (s, goto (Helloing target pinned Hello.default))
            else stop EgressDisposition.Closed)
  | Helloing target pinned hello, _ =>
      match feed hello early, input with
      | Ok (Some name, _), Go =>
          Some (if String.eqb name (Target.host target) then (s, goto (Dialling target pinned))
                else stop EgressDisposition.SniMismatch)
      | Ok (None, hello), Received r =>
          read_before (N.min (HELLO_MAX_BUFFERED + 1 - str_len early) CHUNK) r
            (fun bytes => (s, Conn.with_flow true (goto (Helloing target pinned hello))
                                (Flow.more (Conn.up c) bytes)))
            (stop EgressDisposition.ClientHelloTimeout) (stop EgressDisposition.ClientHelloMalformed)
      | Err d, Go => Some (stop d)
      | _, _ => None
      end
  | Dialling target pinned, Tried tries =>
      if (Context.upload s <? str_len early)%N then Some (stop EgressDisposition.UploadBudget)
      else
        Some (match dial pinned tries with
              | None => stop EgressDisposition.ConnectFailed
              | Some a => (s, Conn.dial (goto Spending) a (Target.port target))
              end)
  | Spending, Go =>
      Some (match Context.spend s true (str_len early) with
            | None => stop EgressDisposition.UploadBudget
            | Some s => (s, Conn.with_flow true (goto (Opening early 0))
                              (Flow.spend (Conn.up c) (str_len early)))
            end)
  | Opening rest written, WroteOnce late idle r =>
      if is_empty rest then Some (Context.count s true (str_len early), goto Starting)
      else
        match write_watching rest late idle r with
        | None => None
        | Some (Err why) =>
            Some (let '(s, c) := stop why in (Context.count s true written, c))
        | Some (Ok (bytes, rest)) =>
            Some (s, Conn.with_flow true (goto (Opening rest (written + str_len bytes)))
                       (Flow.wrote (Conn.up c) bytes))
        end
  | (Starting | Pumping _), _ => pump up input
  | _, _ => None
  end.

End advance.

(** ** Every connection of an environment *)

Module Proxy.
Record t := Make { context : Context.t; conns : list Conn.t }.
Definition open (grant : EgressGrant.t) (exceptions : list Address.t) : t :=
  Make (Context.new grant exceptions) [].
End Proxy.

(** One turn of one connection. *)
Inductive proxy_turn : relation Proxy.t :=
| turn_of p i c up input s' c' :
    Proxy.conns p !! i = Some c -> advance (Proxy.context p) c up input = Some (s', c') ->
    proxy_turn p (Proxy.Make s' (<[i := c']> (Proxy.conns p))).

(** A connection arrives, one takes a turn, or the environment is closed. *)
Inductive proxy_step : relation Proxy.t :=
| step_accept p : proxy_step p (Proxy.Make (Proxy.context p) (Proxy.conns p ++ [Conn.new]))
| step_turn p p' : proxy_turn p p' -> proxy_step p p'
| step_close p : proxy_step p (Proxy.Make (Context.with_closing (Proxy.context p)) (Proxy.conns p)).
