(* ===== verification/TunnelFacts.v ===== *)
(** What one turn of a connection keeps: where it may have been connected to,
    what it has carried, and what it has changed of what is shared. *)

From stdpp Require Import gmap.
From S2P Require Export Tunnel.

Lemma sprefix_app_r p s t : sprefix p s -> sprefix p (s +:+ t).
Proof. intros [x ->]. exists (x +:+ t). by rewrite string_app_assoc. Qed.

#[export] Hint Resolve sprefix_refl sprefix_nil sprefix_app sprefix_app_r : core.

(** The bytes counted in a direction. *)
Definition counter (s : Context.t) (up : bool) : N := if up then Context.upstream s else Context.downstream s.

Definition b2n (b : bool) : N := if b then 1 else 0.

Section conn.
  Context (g : EgressGrant.t) (ex : list Address.t).

(** * What a connection has been checked for *)

Definition granted (t : Target.t) : Prop :=
  Target.wf t /\ EgressGrant.permits g (Target.host t) (Target.port t) = true /\
  name_blocked (Target.host t) = false.

Definition answered (pinned : list Address.t) : Prop := pinned <> [] /\ Forall (passes ex) pinned.

(** [early] is a client's hello for [host], and what came with it. *)
Definition greeted (early host : string) : Prop := exists h, feed Hello.default early = Ok (Some host, h).

(** Connecting to [a] and [port] was checked: for a target, and after
    [early]. *)
Definition checked (early : string) (ap : Address.t * N) : Prop :=
  exists t, granted t /\ ap.2 = Target.port t /\ passes ex ap.1 /\ greeted early (Target.host t).

Definition connected (c : Conn.t) : Prop :=
  match Conn.dialled c with
  | None => Flow.sent (Conn.up c) = "" /\ Conn.down c = Flow.idle
  | Some ap => exists early, sprefix early (Flow.read (Conn.up c)) /\ checked early ap
  end.

(** * What a direction has carried *)

(** A direction of a tunnel that may be [ending]. *)
Definition carried (ending : bool) (f : Flow.t) : Prop :=
  match Flow.leg f with
  | Looking | Sizing | Reading _ => Flow.read f = Flow.sent f /\ Flow.spent f = str_len (Flow.sent f)
  | Holding bytes => Flow.read f = Flow.sent f +:+ bytes /\ Flow.spent f = str_len (Flow.sent f)
  | Writing rest written allowed total =>
      (exists dropped, Flow.read f = Flow.sent f +:+ rest +:+ dropped /\ (str_len dropped + allowed = total)%N) /\
      (Flow.spent f = str_len (Flow.sent f) + str_len rest)%N /\
      (allowed = written + str_len rest)%N /\ (written <= str_len (Flow.sent f))%N
  | Finished =>
      sprefix (Flow.sent f) (Flow.read f) /\ (str_len (Flow.sent f) <= Flow.spent f)%N /\
      (ending = false -> Flow.sent f = Flow.read f /\ Flow.spent f = str_len (Flow.sent f))
  end.

(** One that carries nothing more. *)
Definition settled (f : Flow.t) : Prop :=
  sprefix (Flow.sent f) (Flow.read f) /\ (str_len (Flow.sent f) <= Flow.spent f)%N /\
  (Flow.leg f = Looking \/ Flow.leg f = Finished).

(** * Connections *)

Definition unspent (c : Conn.t) : Prop :=
  Conn.up c = Flow.Make Looking (Flow.read (Conn.up c)) "" 0 /\ Conn.down c = Flow.idle.

Definition fresh (c : Conn.t) : Prop := Conn.dialled c = None /\ unspent c.

Definition stage_ok (c : Conn.t) : Prop :=
  let early := Flow.read (Conn.up c) in
  match Conn.stage c with
  | Requesting _ => fresh c /\ early = ""
  | Granting t => fresh c /\ Target.wf t
  | Resolving t => fresh c /\ granted t
  | Greeting t pinned => fresh c /\ granted t /\ answered pinned
  | Helloing t pinned hello =>
      fresh c /\ granted t /\ answered pinned /\ feed hello early = feed Hello.default early
  | Dialling t pinned => fresh c /\ granted t /\ answered pinned /\ greeted early (Target.host t)
  | Spending => unspent c /\ connected c /\ Conn.dialled c <> None
  | Opening rest written =>
      exists sent, Conn.up c = Flow.Make Looking (sent +:+ rest) sent (str_len (sent +:+ rest)) /\
        written = str_len sent /\ Conn.down c = Flow.idle /\ connected c /\ Conn.dialled c <> None
  | Starting =>
      Conn.up c = Flow.Make Looking early early (str_len early) /\
      Conn.down c = Flow.idle /\ connected c /\ Conn.dialled c <> None
  | Pumping ending =>
      carried (is_some ending) (Conn.up c) /\ carried (is_some ending) (Conn.down c) /\
      connected c /\ Conn.dialled c <> None
  | Ended _ _ => settled (Conn.up c) /\ settled (Conn.down c) /\ connected c
  end.

(** The stages between taking a tunnel's slot and giving it back. *)
Definition holds (st : Stage) : bool :=
  match st with Requesting _ | Granting _ | Ended _ _ => false | _ => true end.

Record conn_ok (c : Conn.t) : Prop := {
  ok_stage : stage_ok c;
  ok_held : Conn.held c = holds (Conn.stage c)
}.

Lemma Conn_at_stage u c f : Conn.with_flow u (Conn.at_ c (Conn.stage c)) f = Conn.with_flow u c f.
Proof. by destruct c, u. Qed.

Lemma new_ok : conn_ok Conn.new.
Proof. by split. Qed.

(** What of a direction's writes is not counted yet. *)
Definition in_flight (up : bool) (c : Conn.t) : N :=
  match Conn.stage c, Flow.leg (Conn.flow up c) with
  | Opening _ written, _ => if up then written else 0
  | _, Writing _ written _ _ => written
  | _, _ => 0
  end.

Definition counted (up : bool) (c : Conn.t) : N := (str_len (Flow.sent (Conn.flow up c)) - in_flight up c)%N.

Definition is_ended (c : Conn.t) : bool := match Conn.stage c with Ended _ _ => true | _ => false end.

(** What a connection's turn leaves. *)
Record advances (s : Context.t) (c : Conn.t) (s' : Context.t) (c' : Conn.t) : Prop := {
  adv_shared : Context.grant s' = Context.grant s /\ Context.exceptions s' = Context.exceptions s /\
    Context.closing s' = Context.closing s;
  adv_ok : conn_ok c';
  adv_left u : (Context.left s' u + Flow.spent (Conn.flow u c') = Context.left s u + Flow.spent (Conn.flow u c))%N;
  adv_tunnels : (Context.tunnels s' + b2n (Conn.held c) = Context.tunnels s + b2n (Conn.held c'))%N;
  adv_limit : (Context.tunnels s' <= N.max (Context.tunnels s)
                 (EgressTunnelLimit.get (EgressGrant.max_tunnels (Context.grant s))))%N;
  adv_counted u : exists n, (counted u c' = counted u c + n)%N /\
    (counter s' u mod 2 ^ 64 = (counter s u + n) mod 2 ^ 64)%N;
  adv_recorded : is_ended c = false /\
    Context.dispositions s' =
      match Conn.stage c' with
      | Ended d _ => Context.dispositions (Context.record s d)
      | _ => Context.dispositions s
      end
}.

(** * One turn *)

(** A turn that changes nothing that is shared. *)
Lemma local_advances s c c' :
  conn_ok c' -> is_ended c = false -> is_ended c' = false -> Conn.held c' = Conn.held c ->
  (forall u, Flow.spent (Conn.flow u c') = Flow.spent (Conn.flow u c)) ->
  (forall u, counted u c' = counted u c) -> advances s c s c'.
Proof.
  intros Hok He He' Hh Hs Hc. split; [done|done| | | | |].
  - intros u. by rewrite Hs.
  - by rewrite Hh.
  - lia.
  - intros u. exists 0%N. by rewrite Hc, !N.add_0_r.
  - split; [done|]. unfold is_ended in He'. by destruct (Conn.stage c').
Qed.

(** The end of a connection; [n] more bytes of it are counted. *)
Lemma finish_advances s c d reply n :
  conn_ok c -> is_ended c = false -> (Conn.held c = true -> 0 < Context.tunnels s)%N ->
  settled (Conn.up c) -> settled (Conn.down c) -> connected c ->
  in_flight true c = n -> in_flight false c = 0%N -> (n <= str_len (Flow.sent (Conn.up c)))%N ->
  advances s c (Context.count (finish s c d reply).1 true n) (finish s c d reply).2.
Proof.
  intros Hok He Hh Hu Hd Hc Hn Hn' Hle.
  assert (forall u, in_flight u (finish s c d reply).2 = 0%N) as Hf.
  { intros u. unfold in_flight. cbn. destruct Hu as (_ & _ & Hu), Hd as (_ & _ & Hd).
    destruct u; cbn; [destruct Hu as [-> | ->]|destruct Hd as [-> | ->]]; done. }
  assert (forall u, Conn.flow u (finish s c d reply).2 = Conn.flow u c) as Hfl by by intros [].
  split.
  - cbn. destruct (Conn.held c); by split_and!.
  - split; [by split_and!|done].
  - intros u. rewrite Hfl. cbn. by destruct u, (Conn.held c).
  - cbn. destruct (Conn.held c); cbn; [specialize (Hh eq_refl)|]; lia.
  - cbn. destruct (Conn.held c); cbn; lia.
  - intros u. unfold counted. rewrite Hf, Hfl. destruct u; [exists n|exists 0%N].
    + rewrite Hn. split; [cbn; lia|]. cbn. destruct (Conn.held c); cbn; by rewrite N.Div0.mod_mod.
    + rewrite Hn', !N.add_0_r, N.sub_0_r. cbn. by destruct (Conn.held c).
  - split; [done|]. cbn. by destruct (Conn.held c).
Qed.

Lemma count_nothing s c s' c' : advances s c (Context.count s' true 0) c' -> advances s c s' c'.
Proof.
  intros [? ? Hl ? ? Hc ?]. split; [done|done| |done|done| |done].
  - intros []; [apply (Hl true)|apply (Hl false)].
  - intros u. destruct (Hc u) as (n & ? & E). exists n. split; [done|]. rewrite <- E.
    destruct u; cbn; [|done]. by rewrite N.add_0_r, N.Div0.mod_mod.
Qed.

(** An end when nothing is being written. *)
Lemma stop_advances s c d reply :
  conn_ok c -> is_ended c = false -> (Conn.held c = true -> 0 < Context.tunnels s)%N ->
  settled (Conn.up c) -> settled (Conn.down c) -> connected c ->
  (forall u, in_flight u c = 0%N) -> advances s c (finish s c d reply).1 (finish s c d reply).2.
Proof. intros. apply count_nothing, finish_advances; auto. lia. Qed.

Lemma settled_idle : settled Flow.idle.
Proof. split_and!; [done|done|by left]. Qed.

Lemma settled_looking read sent spent :
  sprefix sent read -> (str_len sent <= spent)%N -> settled (Flow.Make Looking read sent spent).
Proof. intros. split_and!; [done|done|by left]. Qed.

Lemma unspent_settled c : unspent c -> settled (Conn.up c) /\ settled (Conn.down c).
Proof.
  intros [-> ->]. split; [|exact settled_idle]. by apply settled_looking; [apply sprefix_nil|].
Qed.

Lemma fresh_connected c : fresh c -> connected c.
Proof. intros [Hd [Hu ?]]. unfold connected. rewrite Hd. split; [|done]. by rewrite Hu. Qed.

(** ** One direction *)

(** What of a direction's writes is not counted yet, in a tunnel. *)
Definition writing (f : Flow.t) : N := match Flow.leg f with Writing _ written _ _ => written | _ => 0 end.

Lemma carried_writing e f : carried e f -> (writing f <= str_len (Flow.sent f))%N.
Proof. unfold carried, writing. destruct (Flow.leg f); lia. Qed.

Lemma carried_more e e' f : (e = true -> e' = true) -> carried e f -> carried e' f.
Proof.
  unfold carried. intros He. destruct (Flow.leg f); try done. intros (? & ? & H).
  split_and!; [done|done|]. intros ->. apply H. by destruct e; [specialize (He eq_refl)|].
Qed.

Lemma pumping_counted u c ending :
  Conn.stage c = Pumping ending ->
  counted u c = (str_len (Flow.sent (Conn.flow u c)) - writing (Conn.flow u c))%N.
Proof. unfold counted, in_flight. by intros ->. Qed.

(** What a direction's turn may do. *)
Record carries (s : Context.t) (u : bool) (f : Flow.t) (s' : Context.t) (f' : Flow.t) : Prop := {
  car_shared : Context.grant s' = Context.grant s /\ Context.exceptions s' = Context.exceptions s /\
    Context.closing s' = Context.closing s /\ Context.tunnels s' = Context.tunnels s /\
    Context.dispositions s' = Context.dispositions s;
  car_other : Context.left s' (negb u) = Context.left s (negb u) /\ counter s' (negb u) = counter s (negb u);
  car_read : sprefix (Flow.read f) (Flow.read f');
  car_left : (Context.left s' u + Flow.spent f' = Context.left s u + Flow.spent f)%N;
  car_counted : exists n,
    (str_len (Flow.sent f') - writing f' = str_len (Flow.sent f) - writing f + n)%N /\
    (counter s' u mod 2 ^ 64 = (counter s u + n) mod 2 ^ 64)%N
}.

Lemma carries_advances s u c ending s' f' ending' :
  conn_ok c -> Conn.stage c = Pumping ending -> carries s u (Conn.flow u c) s' f' ->
  carried (is_some ending') f' -> (is_some ending = true -> is_some ending' = true) ->
  advances s c s' (Conn.with_flow u (Conn.at_ c (Pumping ending')) f').
Proof.
  intros [Hst Hh] E [(Hg & Hx & Hc & Ht & Hd) [Ho Ho'] Hr Hl (n & Hn & Hn')] Hf' Hmono.
  unfold stage_ok in Hst. rewrite E in Hst, Hh. destruct Hst as (Hup & Hdn & Hcon & Hne).
  set (c' := Conn.with_flow _ _ _).
  assert (Conn.stage c' = Pumping ending') as E' by by destruct u.
  assert (Conn.flow u c' = f' /\ Conn.flow (negb u) c' = Conn.flow (negb u) c) as [Hfl Hfl'] by by destruct u.
  assert (Conn.held c' = Conn.held c) as Hheld by by destruct u.
  assert (connected c') as Hcon'.
  { unfold connected in *. destruct u; cbn in *; destruct (Conn.dialled c); try done.
    destruct Hcon as (early & Hp & ?). exists early. split; [|done]. by etransitivity. }
  split.
  - done.
  - split; [|by rewrite E', Hheld]. unfold stage_ok. rewrite E'.
    split_and!; [| |exact Hcon'|by destruct u]; destruct u; cbn; try done; by eapply carried_more.
  - intros v. destruct (decide (v = u)) as [->|Hv]; [by rewrite Hfl|].
    assert (v = negb u) as -> by by destruct v, u. by rewrite Hfl', Ho.
  - by rewrite Ht, Hheld.
  - rewrite Ht. lia.
  - intros v. rewrite (pumping_counted _ _ _ E), (pumping_counted _ _ _ E').
    destruct (decide (v = u)) as [->|Hv]; [rewrite Hfl; by exists n|].
    assert (v = negb u) as -> by by destruct v, u. exists 0%N. by rewrite Hfl', Ho', !N.add_0_r.
  - split; [unfold is_ended; by rewrite E|]. by rewrite E'.
Qed.

Lemma carries_local s u f f' :
  sprefix (Flow.read f) (Flow.read f') -> Flow.spent f' = Flow.spent f ->
  (str_len (Flow.sent f') - writing f' = str_len (Flow.sent f) - writing f)%N -> carries s u f s f'.
Proof.
  intros Hr Hs Hn. split; [by split_and!|done|done|by rewrite Hs|].
  exists 0%N. by rewrite Hn, !N.add_0_r.
Qed.

(** Writing done, or given up: [n] bytes are counted. *)
Lemma carries_count s u f n l :
  writing f = n -> writing (Flow.at_ f l) = 0%N -> (n <= str_len (Flow.sent f))%N ->
  carries s u f (Context.count s u n) (Flow.at_ f l).
Proof.
  intros Hn Hl Hle. split; [by destruct u; split_and!|by destruct u|done|by destruct u|].
  exists n. rewrite Hn, Hl. split; [cbn; lia|]. destruct u; cbn; by rewrite N.Div0.mod_mod.
Qed.

Lemma carries_take s u f bytes allowed s' :
  Context.take s u (str_len bytes) = (allowed, s') ->
  writing f = 0%N -> carries s u f s' (Flow.at_ (Flow.spend f allowed)
    (Writing (str_take allowed bytes) 0 allowed (str_len bytes))).
Proof.
  unfold Context.take. intros [= <- <-] Hw.
  split; [by destruct u; split_and!|by destruct u|done|destruct u; cbn; lia|].
  exists 0%N. rewrite Hw. unfold writing. cbn. rewrite !N.sub_0_r, !N.add_0_r. by destruct u.
Qed.

Lemma write_watching_Ok s rest late idle r bytes rest' :
  write_watching s rest late idle r = Some (Ok (bytes, rest')) -> rest = bytes +:+ rest'.
Proof.
  unfold write_watching. destruct (expired s late idle); [done|].
  destruct r as [b| | |]; [|done| |done].
  - destruct (is_empty b); [done|]. cbv zeta. destruct (String.eqb_spec (str_take (str_len b) rest) b) as [E|]; [|done].
    intros [= <- <-]. rewrite <- E at 1. by rewrite str_take_drop.
  - by intros [= <- <-].
Qed.

Lemma carried_fail e f : carried e f -> carried true (Flow.at_ f Finished).
Proof.
  unfold carried. intros H. cbn. destruct (Flow.leg f).
  1-3: destruct H as [-> ->]; split_and!; [done|lia|done].
  - destruct H as [-> ->]. split_and!; [by apply sprefix_app|lia|done].
  - destruct H as ((dropped & -> & _) & -> & _). split_and!; [by apply sprefix_app|lia|done].
  - destruct H as (? & ? & _). by split_and!.
Qed.

Lemma pumping_carried u c ending :
  conn_ok c -> Conn.stage c = Pumping ending -> carried (is_some ending) (Conn.flow u c).
Proof. intros [Hst _] E. unfold stage_ok in Hst. rewrite E in Hst. destruct Hst as (? & ? & _). by destruct u. Qed.

(** A direction's turn that leaves how the tunnel ends alone. *)
Lemma goto_advances s u c ending s' f' :
  conn_ok c -> Conn.stage c = Pumping ending -> carries s u (Conn.flow u c) s' f' ->
  carried (is_some ending) f' -> advances s c s' (Conn.with_flow u c f').
Proof.
  intros Hok E Hc Hf'. pose proof (carries_advances s u c ending s' f' ending Hok E Hc Hf' id) as H.
  by rewrite <- E, Conn_at_stage in H.
Qed.

(** One that ends it. *)
Lemma fail_advances s u c ending why n :
  conn_ok c -> Conn.stage c = Pumping ending -> writing (Conn.flow u c) = n ->
  advances s c (Context.count s u n) (fail c u ending why).
Proof.
  intros Hok E Hn. pose proof (pumping_carried u c ending Hok E) as Hf.
  apply (carries_advances s u c ending _ _ (Some _)); [done|done| |by eapply carried_fail|done].
  apply carries_count; [done|done|]. rewrite <- Hn. by eapply carried_writing.
Qed.

Lemma fail_local s u c ending why :
  conn_ok c -> Conn.stage c = Pumping ending -> writing (Conn.flow u c) = 0%N ->
  advances s c s (fail c u ending why).
Proof.
  intros Hok E Hn. pose proof (pumping_carried u c ending Hok E) as Hf.
  apply (carries_advances s u c ending _ _ (Some _)); [done|done| |by eapply carried_fail|done].
  apply carries_local; [done|done|]. rewrite Hn. done.
Qed.

Lemma carry_advances s u c ending input s' c' :
  conn_ok c -> Conn.stage c = Pumping ending -> carry s c u ending input = Some (s', c') ->
  advances s c s' c'.
Proof.
  intros Hok E. pose proof (pumping_carried u c ending Hok E) as Hf. unfold carry. cbv zeta.
  assert (forall f', sprefix (Flow.read (Conn.flow u c)) (Flow.read f') ->
    Flow.spent f' = Flow.spent (Conn.flow u c) ->
    (str_len (Flow.sent f') - writing f' = str_len (Flow.sent (Conn.flow u c)) - writing (Conn.flow u c))%N ->
    carried (is_some ending) f' -> advances s c s (Conn.with_flow u c f')) as Hgo.
  { intros f' H1 H2 H3. apply goto_advances; [done|done|]. by apply carries_local. }
  pose proof (fun why => fail_local s u c ending why Hok E) as Hfail. unfold writing in Hgo, Hfail.
  destruct (Flow.leg (Conn.flow u c)) as [| |room|bytes|rest written allowed total|] eqn:El,
    input as [| | | | | |r|late idle r]; try done; unfold carried in Hf, Hgo; rewrite El in Hf.
  - destruct (is_some ending); [|destruct (expired s late idle) as [why|]]; intros [= <- <-];
      [apply Hgo|apply Hfail|apply Hgo]; try done. cbn. destruct Hf as [-> ->]. by split_and!.
  - intros [= <- <-]. by apply Hgo.
  - destruct Hf as [Hr Hs]. destruct r as [b| | |]; [destruct (_ && _); [|done]| | |];
      intros [= <- <-]; [apply Hgo|apply Hgo|apply Hgo|apply Hfail]; cbn; try done.
    + by rewrite Hr.
    + rewrite Hr, Hs. by split_and!.
  - destruct Hf as [Hr Hs]. destruct (Context.take s u (str_len bytes)) as [allowed s0] eqn:Et. intros [= <- <-].
    apply goto_advances with ending; [done|done|apply carries_take; [done|unfold writing; by rewrite El]|].
    unfold Context.take in Et. injection Et as <- _. unfold carried. cbn.
    assert (str_len (str_take (Context.left s u `min` str_len bytes)%N bytes)
      = Context.left s u `min` str_len bytes)%N as Ht by (rewrite str_take_len; lia).
    rewrite Ht, Hs. split_and!; [|done|lia|lia].
    exists (str_drop (Context.left s u `min` str_len bytes) bytes). rewrite str_take_drop, Hr. split; [done|].
    pose proof (f_equal str_len (str_take_drop (Context.left s u `min` str_len bytes) bytes)) as Hb.
    rewrite str_len_append, Ht in Hb. clear - Hb. lia.
  - destruct Hf as ((dropped & Hr & Hd) & Hs & Ha & Hw). destruct (is_empty rest) eqn:Ee.
    + apply is_empty_true in Ee as ->. change (str_len "") with 0%N in *. rewrite N.add_0_r in Ha, Hs. subst allowed. intros [= <- <-]. assert (writing (Conn.flow u c) = written) as Hwr by (unfold writing; by rewrite El).
      destruct (N.ltb_spec written total); [by apply fail_advances|].
      apply goto_advances with ending; [done|done|by apply carries_count|]. unfold carried. cbn.
      assert (dropped = "") as -> by (destruct dropped; [done|unfold str_len in Hd; cbn in Hd; lia]).
      cbn [String.append] in Hr. rewrite string_app_nil_r in Hr. by rewrite Hr, Hs.
    + destruct (write_watching s rest late idle r) as [[[b rest']|why]|] eqn:Ew; [| |done]; intros [= <- <-].
      * apply write_watching_Ok in Ew as ->. rewrite !str_len_append in *.
        apply Hgo; cbn; rewrite ?str_len_append; [done|done|lia|]. split_and!; [|lia|lia|lia].
        exists dropped. by rewrite Hr, !string_app_assoc.
      * apply fail_advances; [done|done|]. unfold writing. by rewrite El.
Qed.
(** ** A connection *)

(** An early turn's end. *)
Lemma early_stop s c d reply :
  conn_ok c -> is_ended c = false -> (Conn.held c = true -> 0 < Context.tunnels s)%N ->
  unspent c -> connected c -> (forall u, in_flight u c = 0%N) ->
  advances s c (finish s c d reply).1 (finish s c d reply).2.
Proof. intros ? ? ? [Hu Hd]%unspent_settled ? ?. by apply stop_advances. Qed.

Lemma fresh_in_flight u c : fresh c -> (forall r w, Conn.stage c <> Opening r w) -> in_flight u c = 0%N.
Proof.
  intros [_ [Hu Hd]] Hs. unfold in_flight. destruct u; cbn.
  - rewrite Hu. cbn. destruct (Conn.stage c); try done. by edestruct Hs.
  - rewrite Hd. cbn. by destruct (Conn.stage c).
Qed.

(** An early turn's progress. *)
Lemma early_goto s c st :
  conn_ok c -> fresh c -> is_ended c = false -> (forall r w, Conn.stage c <> Opening r w) ->
  (forall r w, st <> Opening r w) -> is_ended (Conn.at_ c st) = false ->
  holds st = holds (Conn.stage c) -> stage_ok (Conn.at_ c st) -> advances s c s (Conn.at_ c st).
Proof.
  intros [Hst Hh] Hf He Hs Hs' He' Hho Hok. apply local_advances; [split; [done|]|done|done|done|by intros []|].
  - cbn. by rewrite Hho, <- Hh.
  - intros u. unfold counted. rewrite !fresh_in_flight; [by destruct u|done|done|done|done].
Qed.

(** Reading before anything has been sent. *)
Definition reads (c : Conn.t) (bytes : string) : Conn.t :=
  Conn.with_flow true c (Flow.more (Conn.up c) bytes).

Lemma fresh_reads c bytes : fresh c -> fresh (reads c bytes).
Proof. intros (Hd & Hu & Hw). split; [done|split; [|done]]. cbn. by rewrite Hu. Qed.

Lemma early_reads s c st bytes :
  conn_ok c -> fresh c -> is_ended c = false -> (forall r w, Conn.stage c <> Opening r w) ->
  (forall r w, st <> Opening r w) -> is_ended (Conn.at_ c st) = false ->
  holds st = holds (Conn.stage c) -> stage_ok (reads (Conn.at_ c st) bytes) ->
  advances s c s (reads (Conn.at_ c st) bytes).
Proof.
  intros [Hst Hh] Hf He Hs Hs' He' Hho Hok.
  apply local_advances; [split; [done|]|done|done|done|by intros []|].
  - cbn. by rewrite Hho, <- Hh.
  - intros u. unfold counted. rewrite (fresh_in_flight u c), (fresh_in_flight u (reads _ _)); [by destruct u| | |done|done];
      [by apply fresh_reads|done].
Qed.

(** What [parse] reads is a target. *)
Lemma parse_target_wf bytes t n : parse bytes = Ok (Parsed.Done t n) -> Target.wf t.
Proof. intros (version & headers & rest & [Hwf _ _ _ _ _] & _)%parse_Done. done. Qed.

(** A hello read on is the hello read whole. *)
Lemma feed_on hello early h x :
  feed hello early = Ok (None, h) -> feed hello early = feed Hello.default early ->
  feed h (early +:+ x) = feed Hello.default (early +:+ x).
Proof.
  intros E Heq. destruct (N.ltb_spec HELLO_MAX_BUFFERED (str_len (early +:+ x))) as [Hl|Hl].
  - unfold feed. by rewrite (proj2 (N.ltb_lt _ _)).
  - pose proof (feed_more Hello.default early x Hl) as H. rewrite <- Heq, E in H. done.
Qed.

Lemma dial_elem pinned tries a : dial pinned tries = Some a -> a ∈ pinned.
Proof.
  revert tries. induction pinned as [|b pinned IH]; intros [|[] tries]; cbn; try done.
  - intros [= ->]. constructor.
  - intros H%IH. by constructor.
Qed.

Lemma judged_answered r pinned :
  (let? answer := r in judge_answer answer ex) = Ok pinned -> answered pinned.
Proof. destruct r as [answer|]; [|done]. cbn. intros (-> & ? & ?)%judge_answer_Ok. done. Qed.

Lemma early_hold s s' c st :
  conn_ok c -> fresh c -> Conn.stage c = st -> holds st = false -> is_ended c = false ->
  forall t, granted t -> Context.hold s = Some s' ->
  advances s c s' (Conn.hold (Conn.at_ c (Resolving t))).
Proof.
  intros [Hst Hh] Hf E Hho He t Ht. unfold Context.hold.
  destruct (N.ltb_spec (Context.tunnels s) (EgressTunnelLimit.get (EgressGrant.max_tunnels (Context.grant s)))); [|done].
  intros [= <-]. rewrite E, Hho in Hh.
  assert (forall u, in_flight u c = 0%N) as Hz.
  { intros u. apply fresh_in_flight; [done|]. intros r w Er. rewrite Er in E. by subst st. }
  split.
  - done.
  - by split.
  - by intros [].
  - cbn. rewrite Hh. cbn. lia.
  - cbn. lia.
  - intros u. exists 0%N. unfold counted. rewrite Hz, fresh_in_flight by done.
    rewrite !N.add_0_r. by destruct u.
  - done.
Qed.

Section turn.
  Context (s : Context.t) (c : Conn.t).
  Hypotheses (Hok : conn_ok c) (Hh : (Conn.held c = true -> 0 < Context.tunnels s)%N).
  Hypotheses (Hg : Context.grant s = g) (Hx : Context.exceptions s = ex).

Definition stepped (o : option (Context.t * Conn.t)) : Prop :=
  forall s' c', o = Some (s', c') -> advances s c s' c'.

(** A bounded read ends the connection, or goes on with what it read. *)
Lemma read_before_stepped room r k timeout failed :
  fresh c -> is_ended c = false -> (forall r w, Conn.stage c <> Opening r w) ->
  (forall bytes, (str_len bytes <= room)%N -> stepped (Some (k bytes))) ->
  stepped (Some timeout) -> stepped (Some failed) -> stepped (read_before s c room r k timeout failed).
Proof.
  intros Hf He Hs Hk Ht Hfl s' c'. unfold read_before. destruct (Context.closing s).
  - intros [= <- <-]. apply early_stop; auto; [by destruct Hf|by apply fresh_connected|]. intros u. by apply fresh_in_flight.
  - destruct r as [bytes|[]]; [|apply Ht|apply Hfl|apply Hfl]. destruct (_ && _) eqn:E; [|done].
    apply andb_true_iff in E as [_ E%N.leb_le]. by apply Hk.
Qed.

Lemma fresh_finish d reply :
  fresh c -> is_ended c = false -> (forall r w, Conn.stage c <> Opening r w) -> stepped (Some (finish s c d reply)).
Proof.
  intros Hf He Hs s' c' [= <- <-]. apply early_stop; auto; [by destruct Hf|by apply fresh_connected|].
  intros u. by apply fresh_in_flight.
Qed.

Lemma requesting_stepped up input buffer :
  Conn.stage c = Requesting buffer -> stepped (advance s c up input).
Proof.
  intros E. pose proof (ok_stage c Hok) as Hst. unfold stage_ok in Hst. rewrite E in Hst. destruct Hst as [Hf Hr].
  assert (is_ended c = false) as He by (unfold is_ended; by rewrite E).
  assert (forall r w, Conn.stage c <> Opening r w) as Hs by by rewrite E.
  unfold advance. rewrite E. cbv zeta.
  destruct (parse buffer) as [[|t n]|d] eqn:Ep, input; try done.
  - apply read_before_stepped; [done|done|done| |by apply fresh_finish|by apply fresh_finish].
    intros bytes _ s' c' [= <- <-]. apply early_goto; auto; rewrite ?E; done.
  - intros s' c' [= <- <-]. apply (early_reads s c (Granting t)); auto; rewrite ?E; try done.
    split; [by apply fresh_reads|]. by eapply parse_target_wf.
  - by apply fresh_finish.
Qed.

(** What a stage before the dial gives. *)
Ltac early_stage E :=
  let Hst := fresh "Hst" in
  pose proof (ok_stage c Hok) as Hst; unfold stage_ok in Hst; rewrite E in Hst; destruct Hst as [Hf Hst];
  assert (is_ended c = false) as He by (unfold is_ended; by rewrite E);
  assert (forall r w, Conn.stage c <> Opening r w) as Hs by (by rewrite E);
  unfold advance; rewrite E; cbv zeta.

Lemma granting_stepped up input t : Conn.stage c = Granting t -> stepped (advance s c up input).
Proof.
  intros E. early_stage E. destruct input; try done.
  destruct (EgressGrant.permits _ _ _) eqn:Ep; cbn [negb]; [|by apply fresh_finish].
  destruct (name_blocked _) eqn:En; [by apply fresh_finish|].
  destruct (Context.hold s) as [s0|] eqn:Eh; [|by apply fresh_finish].
  intros s' c' [= <- <-]. eapply early_hold; eauto. rewrite Hg in Ep. by split_and!.
Qed.

Lemma resolving_stepped up input t : Conn.stage c = Resolving t -> stepped (advance s c up input).
Proof.
  intros E. early_stage E. destruct input as [| |r| | | | |]; try done. rewrite Hx.
  destruct (let? answer := r in judge_answer answer ex) as [pinned|d] eqn:Ej; [|by apply fresh_finish].
  intros s' c' [= <- <-]. apply early_goto; auto; rewrite ?E; try done.
  by split_and!; [..|eapply judged_answered].
Qed.

Lemma greeting_stepped up input t pinned : Conn.stage c = Greeting t pinned -> stepped (advance s c up input).
Proof.
  intros E. early_stage E. destruct input as [| | |[]| | | |]; try done; [|by apply fresh_finish].
  destruct Hst as [? ?]. intros s' c' [= <- <-]. apply early_goto; auto; rewrite ?E; done.
Qed.

Lemma helloing_stepped up input t pinned hello :
  Conn.stage c = Helloing t pinned hello -> stepped (advance s c up input).
Proof.
  intros E. early_stage E. destruct Hst as (Hgr & Han & Hfe).
  destruct (feed hello (Flow.read (Conn.up c))) as [[[name|] h]|d] eqn:Ef, input; try done.
  - destruct (String.eqb_spec name (Target.host t)) as [->|]; [|by apply fresh_finish].
    intros s' c' [= <- <-]. apply early_goto; auto; rewrite ?E; try done.
    split_and!; [done|done|done|]. by exists h.
  - apply read_before_stepped; [done|done|done| |by apply fresh_finish|by apply fresh_finish].
    intros bytes _ s' c' [= <- <-]. apply (early_reads s c (Helloing t pinned h)); auto; rewrite ?E; try done.
    split_and!; [by apply fresh_reads|done|done|]. cbn. eapply feed_on; [exact Ef|congruence].
  - by apply fresh_finish.
Qed.

Lemma dialling_stepped up input t pinned : Conn.stage c = Dialling t pinned -> stepped (advance s c up input).
Proof.
  intros E. early_stage E. destruct Hst as (Hgr & Han & Hgt). destruct input as [| | | |tries| | |]; try done.
  destruct (_ <? _)%N; [by apply fresh_finish|].
  destruct (dial pinned tries) as [a|] eqn:Ed; [|by apply fresh_finish]. intros s' c' [= <- <-].
  pose proof Hf as (_ & Hu & Hdn).
  apply local_advances; [|done|done|done|by intros []|].
  - split; [|cbn; rewrite (ok_held c Hok); by rewrite E]. split; [done|split; [|done]].
    exists (Flow.read (Conn.up c)). split; [done|]. exists t. split_and!; [done|done| |done].
    apply dial_elem in Ed. destruct Han as [_ Hp]. rewrite Forall_forall in Hp. by apply Hp.
  - intros u. unfold counted. rewrite (fresh_in_flight u c) by done. unfold in_flight. destruct u; cbn; [by rewrite Hu|by rewrite Hdn].
Qed.

Lemma spending_stepped up input : Conn.stage c = Spending -> stepped (advance s c up input).
Proof.
  intros E. pose proof (ok_stage c Hok) as Hst. unfold stage_ok in Hst. rewrite E in Hst. destruct Hst as (Hun & Hc & Hd).
  assert (is_ended c = false) as He by (unfold is_ended; by rewrite E).
  assert (forall u, in_flight u c = 0%N) as Hz.
  { destruct Hun as [Hu Hdn]. intros u. unfold in_flight. rewrite E. destruct u; cbn; [by rewrite Hu|by rewrite Hdn]. }
  unfold advance. rewrite E. cbv zeta. destruct input; try done. unfold Context.spend.
  destruct (N.leb_spec (str_len (Flow.read (Conn.up c))) (Context.left s true)) as [Hle|]; intros s' c' [= <- <-];
    [|by apply early_stop].
  destruct Hun as [Hu Hdn]. assert (Flow.spent (Conn.up c) = 0%N /\ Flow.sent (Conn.up c) = "") as [Hs0 Hs1] by by rewrite Hu.
  split.
  - done.
  - split; [|cbn; rewrite (ok_held c Hok); by rewrite E]. exists "". split_and!; [cbn; by rewrite Hu|done|done|done|done].
  - intros []; cbn; [|done]. change (Context.left s true) with (Context.upload s) in Hle. lia.
  - done.
  - cbn. lia.
  - intros u. exists 0%N. unfold counted. rewrite Hz, !N.add_0_r. destruct u; cbn; [by rewrite Hs1|by rewrite Hdn].
  - done.
Qed.

Lemma opening_stepped up input rest written : Conn.stage c = Opening rest written -> stepped (advance s c up input).
Proof.
  intros E. pose proof (ok_stage c Hok) as Hst. unfold stage_ok in Hst. rewrite E in Hst.
  destruct Hst as (sent & Hu & Hw & Hdn & Hc & Hd).
  assert (is_ended c = false) as He by (unfold is_ended; by rewrite E).
  assert (in_flight true c = written /\ in_flight false c = 0%N) as [Hz Hz']. by (unfold in_flight; by rewrite E).
  assert (Flow.sent (Conn.up c) = sent) as Hs by by rewrite Hu.
  unfold advance. rewrite E. cbv zeta. destruct input as [| | | | | | |late idle r]; try done.
  destruct (is_empty rest) eqn:Ee; [|destruct (write_watching s rest late idle r) as [[[b rest']|why]|] eqn:Ew; [| |done]];
    intros s' c' [= <- <-].
  - apply is_empty_true in Ee as ->. rewrite string_app_nil_r in Hu. split.
    + done.
    + split; [|cbn; rewrite (ok_held c Hok); by rewrite E]. split_and!; [cbn; by rewrite Hu|done|done|done].
    + by intros [].
    + done.
    + cbn. lia.
    + intros []; [exists written|exists 0%N]; unfold counted; rewrite ?Hz, ?Hz'.
      * unfold in_flight. cbn. rewrite Hu. cbn. rewrite N.Div0.mod_mod, Hw. split; [lia|done].
      * unfold in_flight. cbn. rewrite Hdn. by rewrite !N.add_0_r.
    + done.
  - apply write_watching_Ok in Ew as ->.
    apply local_advances; [|done|done|done|by intros []|].
    + split; [|cbn; rewrite (ok_held c Hok); by rewrite E]. exists (sent +:+ b). cbn. rewrite Hu. cbn.
      split_and!; [by rewrite string_app_assoc|by rewrite str_len_append, Hw|done| |done].
      revert Hc. unfold connected. cbn. rewrite Hu. by destruct (Conn.dialled c).
    + intros []; unfold counted; rewrite ?Hz, ?Hz'; unfold in_flight; cbn; [|by rewrite Hdn].
      rewrite Hs, str_len_append. lia.
  - cbn. apply finish_advances; auto; [| |rewrite Hs, Hw; done].
    + rewrite Hu. apply settled_looking; [apply sprefix_app|]. rewrite str_len_append. lia.
    + rewrite Hdn. exact settled_idle.
Qed.

Lemma starting_stepped up input : Conn.stage c = Starting -> stepped (advance s c up input).
Proof.
  intros E. pose proof (ok_stage c Hok) as Hst. unfold stage_ok in Hst. rewrite E in Hst. destruct Hst as (Hu & Hdn & Hc & Hd).
  assert (is_ended c = false) as He by (unfold is_ended; by rewrite E).
  assert (forall u, in_flight u c = 0%N) as Hz.
  { intros u. unfold in_flight. rewrite E. destruct u; cbn; [by rewrite Hu|by rewrite Hdn]. }
  unfold advance, pump. rewrite E. cbv zeta. destruct input as [| | |[]| | | |]; try done; intros s' c' [= <- <-].
  - apply local_advances; [|done|done|done|by intros []|].
    + split; [|cbn; rewrite (ok_held c Hok); by rewrite E]. split_and!; [|cbn; by rewrite Hdn|done|done].
      cbn. unfold carried. rewrite Hu. by split.
    + intros u. unfold counted. rewrite Hz. unfold in_flight. destruct u; cbn; [by rewrite Hu|by rewrite Hdn].
  - apply stop_advances; auto; [rewrite Hu; by apply settled_looking|rewrite Hdn; exact settled_idle].
Qed.

Lemma pumping_stepped up input ending : Conn.stage c = Pumping ending -> stepped (advance s c up input).
Proof.
  intros E. assert (is_ended c = false) as He by (unfold is_ended; by rewrite E).
  pose proof (ok_stage c Hok) as Hst. unfold stage_ok in Hst. rewrite E in Hst. destruct Hst as (Hu & Hdn & Hc & Hd).
  assert (stepped (carry s c up ending input)) as Hcar by (intros s' c'; by apply carry_advances).
  unfold advance, pump. rewrite E. destruct (Flow.leg (Conn.up c)) eqn:Eu; try exact Hcar.
  destruct (Flow.leg (Conn.down c)) eqn:Ed; try exact Hcar. destruct input; try exact Hcar.
  unfold carried in *. rewrite Eu in Hu. rewrite Ed in Hdn. destruct Hu as (? & ? & _), Hdn as (? & ? & _).
  intros s' c' [= <- <-]. apply stop_advances; auto; [split_and!; auto|split_and!; auto|].
  intros u. unfold in_flight. rewrite E. destruct u; cbn; [by rewrite Eu|by rewrite Ed].
Qed.

Lemma advance_advances up input : stepped (advance s c up input).
Proof.
  destruct (Conn.stage c) eqn:E.
  - by eapply requesting_stepped.
  - by eapply granting_stepped.
  - by eapply resolving_stepped.
  - by eapply greeting_stepped.
  - by eapply helloing_stepped.
  - by eapply dialling_stepped.
  - by apply spending_stepped.
  - by eapply opening_stepped.
  - by apply starting_stepped.
  - by eapply pumping_stepped.
  - unfold advance. by rewrite E.
Qed.

End turn.

End conn.

(** ** Counters keep their width *)

Definition counts (s s' : Context.t) : Prop := forall u, counter s' u = counter s u \/ (counter s' u < 2 ^ 64)%N.

Lemma counts_record s c d : counts s (Context.record (if Conn.held c then Context.release s else s) d).
Proof. intros u. left. destruct (Conn.held c); by destruct u. Qed.

Lemma advance_counts s c up input s' c' : advance s c up input = Some (s', c') -> counts s s'.
Proof.
  unfold advance, pump, read_before, refuse, stop, finish, carry, Context.hold, Context.spend, Context.take. cbv zeta.
  intros H. repeat (case_match; simplify_eq; try done); try apply counts_record;
    intros []; destruct up; cbn; try (by right; apply N.mod_lt); left; by try destruct (Conn.held c).
Qed.

(** * Every connection of an environment *)

Definition total (f : Conn.t -> N) (l : list Conn.t) : N := foldr (fun c n => f c + n)%N 0%N l.

Lemma total_snoc f l c : total f (l ++ [c]) = (total f l + f c)%N.
Proof. unfold total. induction l as [|d l IH]; cbn; [lia|]. rewrite IH. lia. Qed.

Lemma total_insert f l i c c' :
  l !! i = Some c -> (total f (<[i := c']> l) + f c = total f l + f c')%N.
Proof.
  revert i. induction l as [|d l IH]; intros [|i]; try done; intros H.
  - injection H as ->. cbn. lia.
  - specialize (IH i H). change (<[S i := c']> (d :: l)) with (d :: <[i := c']> l).
    unfold total in *. cbn [foldr]. lia.
Qed.

Lemma total_le f h l : Forall (fun c => f c <= h c)%N l -> (total f l <= total h l)%N.
Proof. unfold total. induction 1; cbn; lia. Qed.

Lemma total_eq f h l : Forall (fun c => f c = h c) l -> total f l = total h l.
Proof. unfold total. induction 1; cbn; congruence. Qed.

Lemma total_elem f l c : c ∈ l -> (f c <= total f l)%N.
Proof. unfold total. induction 1; cbn; lia. Qed.

#[global] Arguments total : simpl never.

Definition spent (up : bool) (c : Conn.t) : N := Flow.spent (Conn.flow up c).
Definition held (c : Conn.t) : N := b2n (Conn.held c).
Definition ended_with (d : EgressDisposition.t) (c : Conn.t) : N :=
  match Conn.stage c with Ended d' _ => b2n (bool_decide (d' = d)) | _ => 0 end.

(** How the counters report [n] endings. *)
Definition reported (d : EgressDisposition.t) (n : N) : option (EgressDisposition.t * N) :=
  if (n =? 0)%N then None else Some (d, N.min n U64_MAX).

Definition budget (g : EgressGrant.t) (up : bool) : N :=
  EgressByteBudget.get (if up then EgressGrant.max_upload_bytes g else EgressGrant.max_download_bytes g).

(** What every connection and every step keeps. *)
Record proxy_ok (g : EgressGrant.t) (ex : list Address.t) (p : Proxy.t) : Prop := {
  pok_grant : Context.grant (Proxy.context p) = g /\ Context.exceptions (Proxy.context p) = ex;
  pok_conns : Forall (conn_ok g ex) (Proxy.conns p);
  pok_left u : (Context.left (Proxy.context p) u + total (spent u) (Proxy.conns p) = budget g u)%N;
  pok_tunnels : Context.tunnels (Proxy.context p) = total held (Proxy.conns p);
  pok_limit : (Context.tunnels (Proxy.context p) <= EgressTunnelLimit.get (EgressGrant.max_tunnels g))%N;
  pok_counted u : (counter (Proxy.context p) u mod 2 ^ 64 = total (counted u) (Proxy.conns p) mod 2 ^ 64)%N;
  pok_width u : (counter (Proxy.context p) u < 2 ^ 64)%N;
  pok_recorded d : Context.dispositions (Proxy.context p) !! EgressDisposition.as_str d
    = reported d (total (ended_with d) (Proxy.conns p))
}.

Lemma record_reported s d d' n :
  (forall d, Context.dispositions s !! EgressDisposition.as_str d = reported d (n d)) ->
  Context.dispositions (Context.record s d) !! EgressDisposition.as_str d'
  = reported d' (n d' + b2n (bool_decide (d = d'))).
Proof.
  intros H. unfold Context.record. cbn. rewrite (H d). case_bool_decide as E.
  - subst d'. rewrite lookup_insert_eq. unfold reported, saturating_add. cbn [b2n].
    rewrite (proj2 (N.eqb_neq (n d + 1) 0)) by lia.
    destruct (N.eqb_spec (n d) 0) as [->|]; cbn; [done|]. do 2 f_equal. lia.
  - rewrite lookup_insert_ne by (intros Hs; by apply E, (as_str_inj EgressDisposition.ALL EgressDisposition.as_str)). by rewrite H, N.add_0_r.
Qed.

Lemma open_ok g ex : proxy_ok g ex (Proxy.open g ex).
Proof.
  split; [done|constructor| |done|apply N.le_0_l|by intros []|by intros []|done].
  intros []; apply N.add_0_r.
Qed.

Lemma held_positive g ex p i c :
  proxy_ok g ex p -> Proxy.conns p !! i = Some c -> Conn.held c = true -> (0 < Context.tunnels (Proxy.context p))%N.
Proof.
  intros Hp Hi Hh. rewrite (pok_tunnels _ _ _ Hp).
  pose proof (total_elem held _ c (list_elem_of_lookup_2 _ _ _ Hi)) as Hle.
  unfold held at 1 in Hle. rewrite Hh in Hle. cbn in Hle. lia.
Qed.

(** Sums that change by what one connection changed. *)
Lemma counts_step (a a' t t' k k' n : N) :
  (t' + k = t + k')%N -> (k' = k + n)%N -> (a' mod 2 ^ 64 = (a + n) mod 2 ^ 64)%N ->
  (a mod 2 ^ 64 = t mod 2 ^ 64)%N -> (a' mod 2 ^ 64 = t' mod 2 ^ 64)%N.
Proof.
  intros Ht -> -> Ha. assert (t' = t + n)%N as -> by lia.
  by rewrite N.Div0.add_mod, Ha, <- N.Div0.add_mod.
Qed.

Lemma turn_ok g ex p p' : proxy_ok g ex p -> proxy_turn p p' -> proxy_ok g ex p'.
Proof.
  intros Hp Ht0. destruct Ht0 as [p i c up input s' c' Hi E]. pose proof Hp as [[Hg Hx] Hc Hl Ht Hm Hn Hwd Hr].
  assert (conn_ok g ex c) as Hok by (rewrite Forall_forall in Hc; eapply Hc, list_elem_of_lookup_2, Hi).
  destruct (advance_advances g ex _ c Hok (held_positive _ _ _ _ _ Hp Hi) Hg Hx up input s' c' E)
    as [(Hg' & Hx' & _) Hok' Hl' Ht' Hm' Hn' [He Hr']].
  split; cbn.
  - by rewrite Hg', Hx'.
  - by apply Forall_insert.
  - intros u. rewrite <- (Hl u). specialize (Hl' u). pose proof (total_insert (spent u) _ _ _ c' Hi) as H.
    unfold spent at 2 4 in H. lia.
  - pose proof (total_insert held _ _ _ c' Hi) as H. unfold held at 2 4 in H. lia.
  - rewrite Hg in Hm'. lia.
  - intros u. destruct (Hn' u) as (n & ? & ?). eapply counts_step; [by apply total_insert|done|done|done].
  - intros u. destruct (advance_counts _ _ _ _ _ _ E u) as [->|?]; [apply Hwd|done].
  - intros d. pose proof (total_insert (ended_with d) _ _ _ c' Hi) as H.
    unfold ended_with at 2 4 in H. unfold is_ended in He.
    destruct (Conn.stage c); try done; rewrite N.add_0_r in H; rewrite H, Hr';
      destruct (Conn.stage c'); rewrite ?N.add_0_r; first [exact (Hr d) | exact (record_reported _ _ d _ Hr)].
Qed.

Lemma proxy_step_ok g ex p p' : proxy_ok g ex p -> proxy_step p p' -> proxy_ok g ex p'.
Proof.
  intros Hp Hs. destruct Hs as [p|p p' Ht|p].
  - destruct Hp as [? Hc Hl Ht Hm Hn Hwd Hr]. split; cbn; try done.
    + apply Forall_app. split; [done|]. repeat constructor.
    + intros u. rewrite total_snoc, <- (Hl u). assert (spent u Conn.new = 0%N) as -> by by destruct u.
      by rewrite N.add_0_r.
    + by rewrite total_snoc, N.add_0_r.
    + intros u. rewrite total_snoc, Hn. assert (counted u Conn.new = 0%N) as -> by by destruct u.
      by rewrite N.add_0_r.
    + intros d. by rewrite total_snoc, N.add_0_r.
  - by eapply turn_ok.
  - by destruct Hp.
Qed.

Lemma reachable_ok g ex p : rtc proxy_step (Proxy.open g ex) p -> proxy_ok g ex p.
Proof.
  apply (rtc_ind_r (proxy_ok g ex)); [apply open_ok|]. intros p1 p2 _ Hs Hp. by eapply proxy_step_ok.
Qed.

(** * Closing *)

#[local] Instance Leg_eq_dec : EqDecision Leg.
Proof. solve_decision. Defined.

Definition leg_rank (l : Leg) : nat :=
  match l with
  | Finished => 0 | Looking => 1 | Writing _ _ _ _ => 2 | Holding _ => 3 | Reading _ => 4 | Sizing => 5
  end.

(** The turns a connection has at most once its environment closes. *)
Definition remaining (c : Conn.t) : nat :=
  match Conn.stage c with
  | Ended _ _ => 0
  | Pumping _ => 1 + leg_rank (Flow.leg (Conn.up c)) + leg_rank (Flow.leg (Conn.down c))
  | Starting => 4 | Opening _ _ => 5 | Spending => 6 | Dialling _ _ => 7 | Helloing _ _ _ => 8
  | Greeting _ _ => 9 | Resolving _ => 10 | Granting _ => 11 | Requesting _ => 12
  end.

Lemma remaining_most c : remaining c <= 12.
Proof. unfold remaining. destruct (Conn.stage c); try lia. destruct (Flow.leg (Conn.up c)), (Flow.leg (Conn.down c)); cbn; lia. Qed.

(** A turn of one direction, closing. *)
Lemma carry_remaining s c u ending input s' c' :
  Conn.stage c = Pumping ending -> Context.closing s = true -> carry s c u ending input = Some (s', c') ->
  remaining c' < remaining c.
Proof.
  intros E Hcl Ec.
  assert (exists ending' f', c' = Conn.with_flow u (Conn.at_ c (Pumping ending')) f' /\
    leg_rank (Flow.leg f') < leg_rank (Flow.leg (Conn.flow u c))) as (e' & f' & -> & Hlt).
  { assert (forall f', Conn.with_flow u c f' = Conn.with_flow u (Conn.at_ c (Pumping ending)) f') as Hgo
      by (intros f'; by rewrite <- E, Conn_at_stage).
    revert Ec. unfold carry, write_watching, expired, fail. cbv zeta. rewrite Hcl.
    destruct (Flow.leg (Conn.flow u c)) as [| |room|bytes|rest written allowed total|], input as [| | | | | |r|late idle r]; try done;
      [destruct (is_some ending)| |destruct r; [destruct (_ && _); [|done]| | |]| |destruct (is_empty rest); [destruct (_ <? _)%N|]];
      intros [= _ <-]; rewrite ?Hgo; eexists _, _; (split; [done|cbn; lia]). }
  unfold remaining. rewrite E. destruct u; cbn in *; lia.
Qed.

(** Closing, each turn leaves a connection fewer. *)
Lemma advance_remaining g ex s c up input s' c' :
  conn_ok g ex c -> Context.closing s = true -> advance s c up input = Some (s', c') -> remaining c' < remaining c.
Proof.
  intros [Hst _] Hcl. unfold advance, pump, stage_ok in *. cbv zeta in *.
  destruct (Conn.stage c) as [buffer|t|t|t pinned|t pinned hello|t pinned| |rest written| |ending|] eqn:E;
    try (assert (remaining c = remaining c) as Hr by done; unfold remaining in Hr at 2; rewrite E in Hr; rewrite Hr).
  - destruct (parse buffer) as [[|? ?]|], input; try done;
      [unfold read_before; rewrite Hcl| |]; intros [= _ <-]; cbn; lia.
  - destruct input; try done. destruct (negb _); [|destruct (name_blocked _); [|destruct (Context.hold s)]];
      intros [= _ <-]; cbn; lia.
  - destruct input as [| |r| | | | |]; try done. destruct (let? answer := r in _); intros [= _ <-]; cbn; lia.
  - destruct input as [| | |[]| | | |]; try done; intros [= _ <-]; cbn; lia.
  - destruct (feed hello _) as [[[name|] h]|], input; try done;
      [destruct (String.eqb _ _)|unfold read_before; rewrite Hcl|]; intros [= _ <-]; cbn; lia.
  - destruct input; try done. destruct (_ <? _)%N; [|destruct (dial _ _)]; intros [= _ <-]; cbn; lia.
  - destruct input; try done. destruct (Context.spend _ _ _); intros [= _ <-]; cbn; lia.
  - destruct input as [| | | | | | |late idle r]; try done. unfold write_watching, expired. rewrite Hcl.
    destruct (is_empty rest); intros [= _ <-]; cbn; lia.
  - destruct Hst as (Hu & Hd & _). destruct input as [| | |[]| | | |]; try done; intros [= _ <-]; [|cbn; lia].
    unfold remaining. cbn. rewrite Hu, Hd. cbn. lia.
  - rewrite <- Hr. assert (carry s c up ending input = Some (s', c') -> remaining c' < remaining c) as Hc by by apply carry_remaining.
    destruct (Flow.leg (Conn.up c)); try exact Hc. destruct (Flow.leg (Conn.down c)); try exact Hc.
    destruct input; try exact Hc. intros [= _ <-]. rewrite Hr. cbn. lia.
  - done.
Qed.

Lemma carry_enabled s u c ending :
  Flow.leg (Conn.flow u c) <> Finished -> exists input, carry s c u ending input <> None.
Proof.
  intros Hl. unfold carry. cbv zeta. destruct (Flow.leg (Conn.flow u c)); [..|done].
  - exists (Looked false false). destruct (is_some ending); [done|]. by destruct (expired s false false).
  - by exists Go.
  - by exists (ReadOnce Ended_).
  - by exists Go.
  - exists (WroteOnce false false Ticked). destruct (is_empty rest); [done|].
    unfold write_watching. by destruct (expired s false false).
Qed.

(** Every connection that has not ended has a turn. *)
Lemma advance_enabled s c : is_ended c = false -> exists up input, advance s c up input <> None.
Proof.
  intros He. unfold is_ended in He. unfold advance, pump. cbv zeta.
  destruct (Conn.stage c) as [buffer|t|t|t pinned|t pinned hello|t pinned| |rest written| |ending|] eqn:E; try done; clear He E.
  - destruct (parse buffer) as [[|? ?]|]; [exists true, (Received (Err Stop.Timeout))|exists true, Go|exists true, Go]; try done.
    unfold read_before. by destruct (Context.closing s).
  - exists true, Go. destruct (negb _); [done|]. destruct (name_blocked _); [done|]. by destruct (Context.hold s).
  - by exists true, (Resolved (Err EgressDisposition.ResolutionFailed)).
  - by exists true, (Answered true).
  - destruct (feed hello _) as [[[name|] h]|]; [exists true, Go|exists true, (Received (Err Stop.Timeout))|exists true, Go]; try done.
    unfold read_before. by destruct (Context.closing s).
  - exists true, (Tried []). by destruct (_ <? _)%N.
  - by exists true, Go.
  - exists true, (WroteOnce false false Ticked). destruct (is_empty rest); [done|].
    unfold write_watching. by destruct (expired s false false).
  - by exists true, (Answered true).
  - destruct (decide (Flow.leg (Conn.up c) = Finished)) as [Eu|Hu]; cycle 1.
    { destruct (carry_enabled s true c ending Hu) as (input & Hc). exists true, input.
      destruct (Flow.leg (Conn.up c)); by try exact Hc. }
    rewrite Eu. destruct (decide (Flow.leg (Conn.down c) = Finished)) as [Ed|Hd].
    { exists true, Go. by rewrite Ed. }
    destruct (carry_enabled s false c ending Hd) as (input & Hc). exists false, input.
    destruct (Flow.leg (Conn.down c)); by try exact Hc.
Qed.

(** The turns an environment's connections have at most once it closes. *)
Definition work (p : Proxy.t) : N := total (fun c => N.of_nat (remaining c)) (Proxy.conns p).

Lemma work_most p : (work p <= 12 * N.of_nat (length (Proxy.conns p)))%N.
Proof.
  unfold work, total. induction (Proxy.conns p) as [|c l IH]; cbn [foldr length]; [done|].
  pose proof (remaining_most c). lia.
Qed.

Lemma closing_turn g ex p p' :
  proxy_ok g ex p -> Context.closing (Proxy.context p) = true -> proxy_turn p p' ->
  proxy_ok g ex p' /\ Context.closing (Proxy.context p') = true /\ (work p' < work p)%N.
Proof.
  intros Hp Hcl Ht. split; [by eapply turn_ok|]. destruct Ht as [p i c up input s' c' Hi E].
  pose proof Hp as [[Hg Hx] Hc _ _ _ _ _ _].
  assert (conn_ok g ex c) as Hok by (rewrite Forall_forall in Hc; eapply Hc, list_elem_of_lookup_2, Hi).
  destruct (advance_advances g ex _ c Hok (held_positive _ _ _ _ _ Hp Hi) Hg Hx up input s' c' E) as [(_ & _ & Hk) _ _ _ _ _ _].
  cbn. split; [congruence|]. unfold work. cbn. pose proof (advance_remaining _ _ _ _ _ _ _ _ Hok Hcl E).
  pose proof (total_insert (fun c => N.of_nat (remaining c)) _ _ _ c' Hi). cbv beta in *. lia.
Qed.

Lemma closing_turns g ex n p p' :
  proxy_ok g ex p -> Context.closing (Proxy.context p) = true -> nsteps proxy_turn n p p' ->
  proxy_ok g ex p' /\ (N.of_nat n + work p' <= work p)%N.
Proof.
  intros Hp Hcl Hn. induction Hn as [p|n p p1 p' Ht _ IH]; [split; [done|lia]|].
  destruct (closing_turn _ _ _ _ Hp Hcl Ht) as (Hp1 & Hcl1 & Hw).
  destruct (IH Hp1 Hcl1) as [? ?]. split; [done|lia].
Qed.

Lemma no_turn_ended p : (forall p', ~ proxy_turn p p') -> Forall (fun c => is_ended c = true) (Proxy.conns p).
Proof.
  intros Hn. apply Forall_forall. intros c [i Hi]%list_elem_of_lookup. apply not_false_is_true. intros He.
  destruct (advance_enabled (Proxy.context p) c He) as (up & input & Ha).
  destruct (advance (Proxy.context p) c up input) as [[s' c']|] eqn:E; [|done].
  by eapply Hn, turn_of.
Qed.

Lemma ended_free g ex p :
  proxy_ok g ex p -> Forall (fun c => is_ended c = true) (Proxy.conns p) -> Context.tunnels (Proxy.context p) = 0%N.
Proof.
  intros Hp He. rewrite (pok_tunnels _ _ _ Hp). pose proof (pok_conns _ _ _ Hp) as Hc.
  induction (Proxy.conns p) as [|c l IH]; [done|]. inversion He; inversion Hc; subst.
  change (total held (c :: l)) with (held c + total held l)%N. rewrite IH by done. unfold held.
  match goal with H : conn_ok _ _ c |- _ => rewrite (ok_held _ _ _ H) end.
  unfold is_ended in *. by destruct (Conn.stage c).
Qed.
