(* ===== verification/EgressTheorems.v ===== *)
(** The properties of an environment's proxy: which addresses may be reached,
    which requests and hellos are read, where a connection may be opened to,
    what it carries and what it spends. *)

From Stdlib Require Import ZArith.
From stdpp Require Import gmap sets.
From S2P Require Export TunnelFacts.

(** ** The guard *)

Definition ip (a b c d : N) : N := ((a * 256 + b) * 256 + c) * 256 + d.

(** The IPv4 addresses that are not public, first and last. *)
Definition V4_RESERVED : list (N * N) :=
  [(ip 0 0 0 0, ip 0 255 255 255); (ip 10 0 0 0, ip 10 255 255 255); (ip 100 64 0 0, ip 100 127 255 255);
   (ip 127 0 0 0, ip 127 255 255 255); (ip 169 254 0 0, ip 169 254 255 255); (ip 172 16 0 0, ip 172 31 255 255);
   (ip 192 0 0 0, ip 192 0 0 255); (ip 192 0 2 0, ip 192 0 2 255); (ip 192 88 99 0, ip 192 88 99 255);
   (ip 192 168 0 0, ip 192 168 255 255); (ip 198 18 0 0, ip 198 19 255 255); (ip 198 51 100 0, ip 198 51 100 255);
   (ip 203 0 113 0, ip 203 0 113 255); (ip 224 0 0 0, ip 239 255 255 255); (ip 240 0 0 0, ip 255 255 255 255)]%N.

(** The IPv6 addresses that are not public, of those that are unicast. *)
Definition V6_RESERVED : list (N * N) :=
  [(0x20010000000000000000000000000000, 0x200101ffffffffffffffffffffffffff);
   (0x20010db8000000000000000000000000, 0x20010db8ffffffffffffffffffffffff);
   (0x3fff0000000000000000000000000000, 0x3fff0fffffffffffffffffffffffffff)]%N.

Definition V6_NAT64 : N * N := (0x0064ff9b000000000000000000000000, 0x0064ff9b0000000000000000ffffffff)%N.
Definition V6_SIX_TO_FOUR : N * N := (0x20020000000000000000000000000000, 0x2002ffffffffffffffffffffffffffff)%N.
Definition V6_UNICAST : N * N := (0x20000000000000000000000000000000, 0x3fffffffffffffffffffffffffffffff)%N.

Definition between (range : N * N) (v : N) : Prop := (range.1 <= v <= range.2)%N.

Definition range_of (width : N) (value : list N -> N) (block : list N * N) : N * N :=
  (value block.1, value block.1 + 2 ^ (width - block.2) - 1)%N.

Lemma between_range width value block v :
  between (range_of width value block) v <-> in_block width v (value block.1) block.2.
Proof.
  unfold between, range_of, in_block. cbn. pose proof (N.pow_nonzero 2 (width - block.2)). lia.
Qed.

Lemma ranges_exact width value blocks ranges v :
  range_of width value <$> blocks = ranges ->
  (exists block, block ∈ blocks /\ in_block width v (value block.1) block.2) <->
  Exists (fun range => between range v) ranges.
Proof.
  intros <-. rewrite Exists_exists. split.
  - intros (b & Hb & Hv). exists (range_of width value b). split; [by apply list_elem_of_fmap_2|].
    by apply between_range.
  - intros (r & (b & -> & Hb)%list_elem_of_fmap & Hv%between_range). by exists b.
Qed.

Lemma v4_ranges o : Address.wf (Address.V4 o) ->
  blocked (Address.V4 o) = true <-> Exists (fun range => between range (from_be_bytes o)) V4_RESERVED.
Proof. intros H. cbn. rewrite (v4_blocked_spec o H). apply ranges_exact. by vm_compute. Qed.

Lemma v6_range o base bits range : Address.wf (Address.V6 o) ->
  block_ok 128 v6_value (base, bits) = true -> range_of 128 v6_value (base, bits) = range ->
  v6_in o base bits = bool_decide (between range (from_be_bytes o)).
Proof.
  intros H Hb <-. apply eq_iff_eq_true. rewrite bool_decide_eq_true, between_range. by apply v6_in_spec.
Qed.

(** C31: The guard blocks exactly the reserved IPv4 addresses; of IPv6 it allows
    exactly what a NAT64 or 6to4 prefix wraps around an allowed IPv4 address,
    and the unicast addresses that are neither 6to4 nor reserved; and an
    answer is allowed exactly when it has an address and each is allowed or
    excepted, so one blocked address refuses the whole. *)
Theorem guard_exact :
  (forall o, Address.wf (Address.V4 o) ->
    blocked (Address.V4 o) = true <-> Exists (fun range => between range (from_be_bytes o)) V4_RESERVED) /\
  (forall o, Address.wf (Address.V6 o) ->
    blocked (Address.V6 o) = false <->
    let v := from_be_bytes o in
    between V6_NAT64 v /\ blocked (Address.V4 (drop 12 o)) = false \/
    between V6_SIX_TO_FOUR v /\ blocked (Address.V4 (take 4 (drop 2 o))) = false \/
    between V6_UNICAST v /\ ~ between V6_SIX_TO_FOUR v /\ ~ Exists (fun range => between range v) V6_RESERVED) /\
  (forall answer exceptions pinned, judge_answer answer exceptions = Ok pinned <->
    pinned = answer /\ answer <> [] /\ Forall (fun a => blocked a = false \/ a ∈ exceptions) answer).
Proof.
  split; [exact v4_ranges|]. split; [|exact judge_answer_Ok]. intros o H. cbv zeta.
  change (blocked (Address.V6 o)) with (v6_blocked o).
  change (blocked (Address.V4 (drop 12 o))) with (v4_blocked (drop 12 o)).
  change (blocked (Address.V4 (take 4 (drop 2 o)))) with (v4_blocked (take 4 (drop 2 o))).
  assert (existsb (fun block => v6_in o block.1 block.2) V6_BLOCKS = true <->
    Exists (fun range => between range (from_be_bytes o)) V6_RESERVED) as Hb.
  { rewrite (v6_blocks_spec o H). apply ranges_exact. by vm_compute. }
  unfold v6_blocked. rewrite (v6_range o NAT64 96 V6_NAT64 H), (v6_range o UNICAST 3 V6_UNICAST H),
    (v6_range o SIX_TO_FOUR 16 V6_SIX_TO_FOUR H) by by vm_compute.
  rewrite <- Hb, <- not_true_iff_false. generalize (existsb (fun block => v6_in o block.1 block.2) V6_BLOCKS).
  intros bs. generalize (v4_blocked (drop 12 o)) (v4_blocked (take 4 (drop 2 o))). intros b12 b2.
  assert (between V6_NAT64 (from_be_bytes o) -> ~ between V6_UNICAST (from_be_bytes o)) as H1
    by (unfold between, V6_NAT64, V6_UNICAST; cbn; lia).
  assert (between V6_SIX_TO_FOUR (from_be_bytes o) -> between V6_UNICAST (from_be_bytes o)) as H2
    by (unfold between, V6_SIX_TO_FOUR, V6_UNICAST; cbn; lia).
  revert H1 H2. clear. generalize (from_be_bytes o). intros v H1 H2.
  case_bool_decide; [|case_bool_decide; cbn [negb]; [case_bool_decide|]]; destruct b12, b2, bs; intuition congruence.
Qed.

Lemma guard_exact_witness :
  blocked (Address.V4 [172; 31; 0; 1]%N) = true /\ judge_answer [Address.V4 [1; 1; 1; 1]%N] [] = Ok [Address.V4 [1; 1; 1; 1]%N].
Proof.
  destruct guard_exact as (H4 & _ & Ha). split.
  - apply H4; [split; [repeat constructor|done]|]. do 5 apply Exists_cons_tl. apply Exists_cons_hd. by vm_compute.
  - apply Ha. split_and!; [done|done|]. constructor; [left; by vm_compute|constructor].
Defined.

(** ** The request *)

Lemma parse_bounded bytes : REQUEST_MAX_BYTES <= String.length bytes -> parse bytes <> Ok Parsed.Need.
Proof.
  unfold parse. cbv zeta. intros Hl. destruct (before_blank bytes) as [head|].
  - destruct (negb _); [done|]. destruct (_ <? _)%nat; [done|]. by destruct (parse_head head).
  - destruct (negb _); [done|]. by rewrite (proj2 (Nat.leb_le _ _)).
Qed.

(** C32: A request is accepted exactly when it is one CONNECT of a canonical
    name and port, in HTTP/1.0 or 1.1, with at most thirty-two plain header
    lines of which at most one is Host and names that very target, within the
    bound; what a decided request says does not change with what arrives after
    it, and one is decided by the time it is as long as the bound. *)
Theorem request_strict bytes :
  (forall t n, parse bytes = Ok (Parsed.Done t n) <->
    exists version headers rest, request_ok t version headers /\
      bytes = head_of t version headers +:+ CRLF +:+ CRLF +:+ rest /\
      n = String.length (head_of t version headers) + 4 /\ n <= REQUEST_MAX_BYTES) /\
  (parse bytes <> Ok Parsed.Need -> forall more, parse (bytes +:+ more) = parse bytes) /\
  (REQUEST_MAX_BYTES <= String.length bytes -> parse bytes <> Ok Parsed.Need).
Proof.
  split; [apply parse_Done|]. split; [|apply parse_bounded]. intros H more. by apply parse_arrival.
Qed.

(** ** The hello *)

(** C30: The server name is read exactly when the bytes begin with TLS records
    carrying one well-formed ClientHello, within the bounds, that names one
    host and has no encrypted hello; and a hello is read the same however it is cut:
    reading on from where a shorter read stopped is reading the whole. *)
Theorem hello_exact bytes :
  (forall name, (exists h, feed Hello.default bytes = Ok (Some name, h)) <->
    (str_len bytes <= HELLO_MAX_BUFFERED)%N /\
    exists records tail b, bytes = concat_texts record_entry records +:+ tail /\ Forall record_ok records /\
      concat_texts snd records = handshake_of (Body.encode b) /\ String.length (Body.encode b) <= HELLO_MAX_BYTES /\
      Body.ok b /\ names_one b name) /\
  (forall more, match feed Hello.default bytes with
    | Ok (None, h) => feed h (bytes +:+ more) = feed Hello.default (bytes +:+ more)
    | decided => (str_len (bytes +:+ more) <= HELLO_MAX_BUFFERED)%N -> feed Hello.default (bytes +:+ more) = decided
    end).
Proof.
  split; [intros name; apply feed_Some|]. intros more.
  destruct (feed Hello.default bytes) as [[[name|] h]|d] eqn:E.
  2: exact (feed_on _ _ _ more E eq_refl).
  all: intros Hl; pose proof (feed_more Hello.default bytes more Hl) as H; rewrite E in H; apply H, Nat.le_0_l.
Qed.

(** ** What reaches where *)

(** What was checked of a connection to [a] and [port] that began with
    [early]: the whole of it. *)
Definition vetted (grant : EgressGrant.t) (exceptions : list Address.t) (early : string) (a : Address.t) (port : N) : Prop :=
  exists host,
    is_host host = true /\ is_address_literal host = false /\ name_blocked host = false /\
    EgressGrant.permits grant host port = true /\ (blocked a = false \/ a ∈ exceptions) /\
    exists records tail b, early = concat_texts record_entry records +:+ tail /\ Forall record_ok records /\
      concat_texts snd records = handshake_of (Body.encode b) /\ Body.ok b /\ names_one b host.

Lemma checked_vetted g ex early ap : checked g ex early ap -> vetted g ex early ap.1 ap.2.
Proof.
  intros (t & ((Hh & Hl & _) & Hp & Hn) & E & Ha & (_ & records & tail & b & ? & ? & ? & _ & ? & ?)%feed_Some).
  exists (Target.host t). rewrite E. split_and!; try done. by exists records, tail, b.
Qed.

(** Every stage keeps the connection's checks. *)
Lemma conn_connected g ex c : conn_ok g ex c -> connected g ex c.
Proof.
  intros [Hst _]. unfold stage_ok in Hst. cbv zeta in Hst.
  destruct (Conn.stage c); try (apply fresh_connected; by destruct Hst); try (by destruct Hst as (_ & Hc & _)); try (by destruct Hst as (_ & _ & Hc)).
  - by destruct Hst as (sent & _ & _ & _ & Hc & _).
  - by destruct Hst as (_ & _ & Hc & _).
  - by destruct Hst as (_ & _ & Hc & _).
Qed.

(** C11: However connections interleave and whatever the sockets, the resolver
    and the clocks answer, an address is connected to only for a granted host
    and port, not a metadata name, that resolved to allowed addresses, and
    after a client hello naming that very host; until then nothing is sent and
    nothing is read back. *)
Theorem dialled_only_granted g ex p c :
  rtc proxy_step (Proxy.open g ex) p -> c ∈ Proxy.conns p ->
  match Conn.dialled c with
  | None => Flow.sent (Conn.up c) = "" /\ Flow.read (Conn.down c) = ""
  | Some (a, port) => exists early, sprefix early (Flow.read (Conn.up c)) /\ vetted g ex early a port
  end.
Proof.
  intros Hr Hc. pose proof (pok_conns _ _ _ (reachable_ok _ _ _ Hr)) as Hok. rewrite Forall_forall in Hok.
  pose proof (conn_connected _ _ _ (Hok c Hc)) as H. unfold connected in H. destruct (Conn.dialled c) as [[a port]|].
  - destruct H as (early & ? & H%checked_vetted). by exists early.
  - by destruct H as [-> ->].
Qed.

(** ** What is spent *)

Definition sent (up : bool) (c : Conn.t) : N := str_len (Flow.sent (Conn.flow up c)).

Lemma carried_sent e f : carried e f -> sprefix (Flow.sent f) (Flow.read f) /\ (str_len (Flow.sent f) <= Flow.spent f)%N.
Proof.
  unfold carried. destruct (Flow.leg f).
  1-3: intros [-> ->]; by split.
  - intros [-> ->]. by split; [apply sprefix_app|].
  - intros ((dropped & -> & _) & -> & _). split; [apply sprefix_app|lia].
  - by intros (? & ? & _).
Qed.

Lemma unspent_sent c u : unspent c -> sprefix (Flow.sent (Conn.flow u c)) (Flow.read (Conn.flow u c)) /\ (sent u c <= Flow.spent (Conn.flow u c))%N.
Proof. intros [Hu Hd]. unfold sent. destruct u; cbn; [rewrite Hu|rewrite Hd]; (split; [apply sprefix_nil|done]). Qed.

(** What a connection sent is the beginning of what it read, and was spent. *)
Lemma conn_sent g ex c u :
  conn_ok g ex c ->
  sprefix (Flow.sent (Conn.flow u c)) (Flow.read (Conn.flow u c)) /\ (sent u c <= Flow.spent (Conn.flow u c))%N.
Proof.
  intros [Hst _]. unfold stage_ok in Hst. cbv zeta in Hst.
  destruct (Conn.stage c); try (apply unspent_sent; by destruct Hst as [[_ ?] _]).
  - apply unspent_sent. by destruct Hst.
  - destruct Hst as (s & Hu & _ & Hd & _). unfold sent. destruct u; cbn; [rewrite Hu|rewrite Hd; by split].
    cbn. rewrite str_len_append. split; [apply sprefix_app|lia].
  - destruct Hst as (Hu & Hd & _). unfold sent. destruct u; cbn; [rewrite Hu|rewrite Hd]; by split.
  - destruct Hst as (Hu & Hd & _). destruct u; by eapply carried_sent.
  - destruct Hst as ((? & ? & _) & (? & ? & _) & _). by destruct u.
Qed.

Lemma sent_spent g ex l u : Forall (conn_ok g ex) l -> (total (sent u) l <= total (spent u) l)%N.
Proof. intros H. apply total_le. eapply Forall_impl; [exact H|]. intros c Hok. by eapply conn_sent. Qed.

(** C14: However connections interleave, the bytes they have spent and what is
    left of a budget are the budget, each has sent no more than it spent, so that all of
    them together never send more than was granted; and the tunnels counted
    are those open, never more than the grant allows. *)
Theorem budgets_hold g ex p :
  rtc proxy_step (Proxy.open g ex) p ->
  (forall up, (Context.left (Proxy.context p) up + total (spent up) (Proxy.conns p) = budget g up /\
    total (sent up) (Proxy.conns p) <= total (spent up) (Proxy.conns p))%N) /\
  Context.tunnels (Proxy.context p) = N.of_nat (length (List.filter Conn.held (Proxy.conns p))) /\
  (Context.tunnels (Proxy.context p) <= EgressTunnelLimit.get (EgressGrant.max_tunnels g))%N.
Proof.
  intros [_ Hc Hl Ht Hm _ _ _]%reachable_ok. split; [|split; [|done]].
  - intros u. split; [apply Hl|by eapply sent_spent].
  - rewrite Ht. clear. unfold total, held. induction (Proxy.conns p) as [|c l IH]; [done|].
    cbn [foldr List.filter]. rewrite IH. destruct (Conn.held c); cbn [length b2n]; lia.
Qed.

(** ** What is carried *)

Lemma ended_counted g ex c u : conn_ok g ex c -> is_ended c = true -> counted u c = sent u c.
Proof.
  intros [Hst _] He. unfold stage_ok in Hst. unfold is_ended in He. unfold counted, sent, in_flight.
  destruct (Conn.stage c); try done. destruct Hst as ((_ & _ & Hu) & (_ & _ & Hd) & _).
  destruct u; cbn; [destruct Hu as [-> | ->]|destruct Hd as [-> | ->]]; apply N.sub_0_r.
Qed.

(** C33: What a connection has sent either way is the beginning of what it read
    that way, byte for byte, and a direction that ran to its end in a tunnel
    nothing has ended sent all of it; once every connection has ended the
    counters give the bytes sent, without wrapping, and how many connections
    ended each way. *)
Theorem tunnels_carry_and_count g ex p :
  rtc proxy_step (Proxy.open g ex) p ->
  Forall (fun c => forall up, let f := Conn.flow up c in
    sprefix (Flow.sent f) (Flow.read f) /\
    (Conn.stage c = Pumping None -> Flow.leg f = Finished -> Flow.sent f = Flow.read f)) (Proxy.conns p) /\
  (Forall (fun c => is_ended c = true) (Proxy.conns p) ->
    (forall up, (budget g up < 2 ^ 64)%N -> counter (Proxy.context p) up = total (sent up) (Proxy.conns p)) /\
    forall d, Context.dispositions (Proxy.context p) !! EgressDisposition.as_str d =
      reported d (total (ended_with d) (Proxy.conns p))).
Proof.
  intros [_ Hc Hl _ _ Hn Hw Hd]%reachable_ok. split.
  - eapply Forall_impl; [exact Hc|]. intros c Hok u. cbv zeta. split; [by eapply conn_sent|].
    intros E El. pose proof (pumping_carried g ex u c None Hok E) as Hf. unfold carried in Hf. rewrite El in Hf.
    by apply Hf.
  - intros He. split; [|exact Hd]. intros u Hlt.
    assert (total (counted u) (Proxy.conns p) = total (sent u) (Proxy.conns p)) as Et.
    { apply total_eq. rewrite Forall_forall in *. intros c Hin. by eapply ended_counted; [apply Hc|apply He]. }
    specialize (Hn u). rewrite Et, !N.mod_small in Hn; [done| |apply Hw].
    pose proof (sent_spent _ _ _ u Hc). specialize (Hl u). lia.
Qed.

(** ** Closing *)

(** C34: Once an environment closes, whatever is answered, its connections have
    at most twelve turns each; while one has not ended a turn is there for
    it, and when none is left every connection has ended and every tunnel's
    slot has been given back. *)
Theorem closing_ends_connections g ex p :
  rtc proxy_step (Proxy.open g ex) p -> Context.closing (Proxy.context p) = true ->
  (forall n p', nsteps proxy_turn n p p' -> n <= 12 * length (Proxy.conns p)) /\
  (forall n p', nsteps proxy_turn n p p' -> (forall p'', ~ proxy_turn p' p'') ->
    Forall (fun c => is_ended c = true) (Proxy.conns p') /\ Context.tunnels (Proxy.context p') = 0%N).
Proof.
  intros Hr%reachable_ok Hcl. split; intros n p' Hn; destruct (closing_turns _ _ _ _ _ Hr Hcl Hn) as [Hok Hw].
  - pose proof (work_most p). lia.
  - intros He%no_turn_ended. split; [done|]. by eapply ended_free.
Qed.

(** * Witnesses *)

(** A history, played. *)
Inductive Move := Accept | Turn (i : nat) (up : bool) (input : Input) | Close.

Definition move (p : Proxy.t) (m : Move) : option Proxy.t :=
  match m with
  | Accept => Some (Proxy.Make (Proxy.context p) (Proxy.conns p ++ [Conn.new]))
  | Turn i up input =>
      c ← Proxy.conns p !! i;
      '(s, c') ← advance (Proxy.context p) c up input;
      Some (Proxy.Make s (<[i := c']> (Proxy.conns p)))
  | Close => Some (Proxy.Make (Context.with_closing (Proxy.context p)) (Proxy.conns p))
  end.

Fixpoint play (p : Proxy.t) (ms : list Move) : option Proxy.t :=
  match ms with [] => Some p | m :: ms => p' ← move p m; play p' ms end.

Lemma move_step p m p' : move p m = Some p' -> proxy_step p p'.
Proof.
  destruct m as [|i up input|]; cbn.
  - intros [= <-]. apply step_accept.
  - destruct (Proxy.conns p !! i) as [c|] eqn:Hi; [|done]. cbn.
    destruct (advance _ _ _ _) as [[s c']|] eqn:E; [|done]. intros [= <-]. eapply step_turn, turn_of; eauto.
  - intros [= <-]. apply step_close.
Qed.

Lemma play_steps p ms p' : play p ms = Some p' -> rtc proxy_step p p'.
Proof.
  revert p. induction ms as [|m ms IH]; intros p; [by intros [= ->]|]. cbn.
  destruct (move p m) as [p1|] eqn:E; [|done]. cbn. intros H%IH. eapply rtc_l; [by eapply move_step|done].
Qed.

Definition example_grant : EgressGrant.t :=
  EgressGrant.Make (EgressTargets.Make [EgressTarget.Make (EgressHost.Make "a.example") (EgressPort.Make 443)])
    (EgressTunnelLimit.Make 1) (EgressByteBudget.Make 100) (EgressByteBudget.Make 3).

Definition example_request : string := "CONNECT a.example:443 HTTP/1.1" +:+ CRLF +:+ CRLF.

Definition example_body : Body.t :=
  Body.Make 0x0303 "01234567890123456789012345678901" "" (enc16 0x1301) (String (byte 0) "") [(SERVER_NAME, sni "a.example")].

Definition example_hello : string := record_entry (0x0301%N, handshake_of (Body.encode example_body)).

Definition one_one : Address.t := Address.V4 [1; 1; 1; 1]%N.

(** A client is let through, reads three of the four bytes its upstream sends,
    and is ended by its budget. *)
Definition example_opening : list Move :=
  Turn 0 true <$> [Received (Ok example_request); Go; Go; Resolved (Ok [one_one]); Answered true;
    Received (Ok example_hello); Go; Tried [Accepts]; Go; WroteOnce false false (Moved example_hello);
    WroteOnce false false Ticked; Answered true].

Definition example_tunnel : list Move :=
  [Turn 0 false (Looked false false); Turn 0 false Go; Turn 0 false (ReadOnce (Moved "abcd")); Turn 0 false Go;
   Turn 0 false (WroteOnce false false (Moved "abc")); Turn 0 false (WroteOnce false false Ticked);
   Turn 0 true (Looked false false); Turn 0 true Go].

Definition played (ms : list Move) : Proxy.t := default (Proxy.open example_grant []) (play (Proxy.open example_grant []) ms).

Definition example_end : Proxy.t := played (Accept :: example_opening ++ example_tunnel).

Example example_ends :
  Conn.stage <$> Proxy.conns example_end = [Ended EgressDisposition.DownloadBudget None] /\
  (Flow.sent ∘ Conn.down) <$> Proxy.conns example_end = ["abc"].
Proof. by vm_compute. Qed.

Lemma request_strict_witness :
  (forall more, parse (example_request +:+ more) = parse example_request) /\
  exists version headers rest, request_ok (Target.Make "a.example" 443) version headers /\
    example_request = head_of (Target.Make "a.example" 443) version headers +:+ CRLF +:+ CRLF +:+ rest.
Proof.
  destruct (request_strict example_request) as (Hd & Hm & _). split.
  - apply Hm. by vm_compute.
  - destruct (proj1 (Hd (Target.Make "a.example" 443) 34)) as (v & hs & rest & ? & ? & _); [by vm_compute|].
    by exists v, hs, rest.
Defined.

Lemma hello_exact_witness :
  (exists b, handshake_of (Body.encode b) <> "" /\ Body.ok b /\ names_one b "a.example") /\
  forall x h, feed Hello.default (str_take 20 example_hello) = Ok (None, h) ->
    feed h (str_take 20 example_hello +:+ x) = feed Hello.default (str_take 20 example_hello +:+ x).
Proof.
  split.
  - destruct (hello_exact example_hello) as [H _].
    destruct (proj1 (H "a.example")) as (_ & records & tail & b & _ & _ & _ & _ & ? & ?).
    { eexists. by vm_compute. }
    by exists b.
  - intros x h E. destruct (hello_exact (str_take 20 example_hello)) as [_ H]. specialize (H x). by rewrite E in H.
Defined.

Lemma example_reached ms : play (Proxy.open example_grant []) ms = Some (played ms) -> rtc proxy_step (Proxy.open example_grant []) (played ms).
Proof. apply play_steps. Qed.

Lemma all_ended l : forallb is_ended l = true -> Forall (fun c => is_ended c = true) l.
Proof. rewrite forallb_forall, Forall_forall. intros H c Hc. by apply H, list_elem_of_In. Qed.

Lemma dialled_only_granted_witness :
  exists c early, c ∈ Proxy.conns example_end /\ Conn.dialled c = Some (one_one, 443%N) /\
    sprefix early (Flow.read (Conn.up c)) /\ vetted example_grant [] early one_one 443.
Proof.
  set (c := nth 0 (Proxy.conns example_end) Conn.new).
  assert (c ∈ Proxy.conns example_end) as Hin by (apply list_elem_of_lookup; exists 0; by vm_compute).
  assert (Conn.dialled c = Some (one_one, 443%N)) as Hd by by vm_compute.
  pose proof (dialled_only_granted example_grant [] example_end c ltac:(apply example_reached; by vm_compute) Hin) as H.
  rewrite Hd in H. destruct H as (early & Hp & Hv). exists c, early. exact (conj Hin (conj Hd (conj Hp Hv))).
Defined.

Lemma budgets_hold_witness :
  (Context.left (Proxy.context example_end) false + total (spent false) (Proxy.conns example_end) = 3 /\
   total (sent false) (Proxy.conns example_end) <= total (spent false) (Proxy.conns example_end))%N.
Proof.
  apply (budgets_hold example_grant [] example_end). apply example_reached. by vm_compute.
Defined.

Lemma tunnels_carry_and_count_witness :
  counter (Proxy.context example_end) false = 3%N /\
  Context.dispositions (Proxy.context example_end) !! "DOWNLOAD_BUDGET" = Some (EgressDisposition.DownloadBudget, 1%N).
Proof.
  destruct (tunnels_carry_and_count example_grant [] example_end) as [_ H]; [apply example_reached; by vm_compute|].
  destruct H as [Hc Hd]; [apply all_ended; by vm_compute|]. split.
  - rewrite (Hc false) by by vm_compute. by vm_compute.
  - pose proof (Hd EgressDisposition.DownloadBudget) as H. change (EgressDisposition.as_str _) with "DOWNLOAD_BUDGET" in H.
    rewrite H. by vm_compute.
Defined.

(** A tunnel is being read when its environment closes. *)
Definition example_closing : Proxy.t := played (Accept :: example_opening ++ take 2 example_tunnel ++ [Close]).

Lemma closing_ends_connections_witness :
  existsb is_ended (Proxy.conns example_closing) = false /\
  forall n p', nsteps proxy_turn n example_closing p' -> n <= 12.
Proof.
  split; [by vm_compute|]. intros n p' Hn.
  destruct (closing_ends_connections example_grant [] example_closing) as [H _];
    [apply example_reached; by vm_compute|by vm_compute|]. exact (H n p' Hn).
Defined.
