(* ===== verification/Environment.v ===== *)
(** Execution environments' durable lifecycle
    ([dwkd-authority/src/state/environment.rs]): outcomes of preparations,
    destructions and their ends, and reconciliation with what the container
    runtime lists.  Starting a preparation is not here: it reads the run's
    admission. *)

From Stdlib Require Import ZArith.
From S2P Require Export WorkOps Order Sandbox Egress.

Module EnvironmentState.

Inductive t := Preparing | Ready | Refused | Destroying | Destroyed | Lost | Unknown.

#[global] Instance eq_dec : EqDecision t.
Proof. solve_decision. Defined.

Definition ALL : list t := [Preparing; Ready; Refused; Destroying; Destroyed; Lost; Unknown].

Definition as_str (self : t) : string :=
  match self with
  | Preparing => "PREPARING" | Ready => "READY" | Refused => "REFUSED"
  | Destroying => "DESTROYING" | Destroyed => "DESTROYED" | Lost => "LOST" | Unknown => "UNKNOWN"
  end.

#[global] Instance vocabulary : Vocabulary ALL as_str.
Proof. solve_vocabulary. Qed.

(** The arms of [parse] spell the variants. *)
Definition parse (text : string) : option t := find_spelling ALL as_str text.

Definition is_final (self : t) : bool :=
  match self with Refused | Destroyed | Lost => true | _ => false end.

End EnvironmentState.

(** How a preparation ended. *)
Module Prepared.
Inductive t :=
| Ready (container : ContainerRef.t) (judgement : Judgement.t)
| Refused (reason : string) (judgement : option Judgement.t)
| Unknown (container : option ContainerRef.t) (reason : string)
| Unusable (container : ContainerRef.t) (reason : string) (judgement : Judgement.t).
End Prepared.

Module EnvironmentRecord.

Record t := Make {
  environment : EnvironmentId; run : RunId; state : EnvironmentState.t;
  container : option ContainerRef.t; network : NetworkTopology.t; incarnation : N;
  failure : option string
}.

#[global] Instance eq_dec : EqDecision t.
Proof. solve_decision. Defined.

End EnvironmentRecord.

(** What starting a destruction decided. *)
Module DestroyBegun.
Inductive t :=
| Refused (why : string)
| Pending (record : EnvironmentRecord.t) (invocation : InvocationId).

Definition is_pending (self : t) : bool := match self with Pending _ _ => true | _ => false end.
End DestroyBegun.

(** How a destruction ended. *)
Module DestroyEnding.
Inductive t :=
| Gone (container : option ContainerRef.t) (already : bool) (egress : option EgressCounters.t)
| Pending (reason : string).
End DestroyEnding.

Definition level : AssuranceLevel.t -> string := AssuranceLevel.as_str.

(** * Statements *)

Section statements.
  Import EnvironmentRow.

(** The columns [state], [container], [measured], [effective], [failure] and
    [ended_ms] of a row, set. *)
Definition set_columns (r : t) (state : string) (container measured effective failure : option string)
    (ended_ms : option Z) : t :=
  Make (run_id r) (profile r) (network r) (image r) (probe_sha256 r) (declared r) measured effective
    container state failure (incarnation r) (intent_ms r) ended_ms.

Definition coalesce {A} (a b : option A) : option A := match a with Some _ => a | None => b end.

(** [WHERE environment_id = ?1 [AND state = ?]]. *)
Definition the_environment (id : EnvironmentId) (state_ : option string) (key : string) (r : t) : bool :=
  String.eqb key (Id.as_str id) && is_none_or state_ (String.eqb (state r)).

(** How many rows a statement changed. *)
Definition changed (r : result (list string * Db.t) SqlError.t) : result (nat * Db.t) SqlError.t :=
  let? (keys, d) := r in Ok (length keys, d).
End statements.

Section ops.
  Context `{Sha256} (process : Process.t).

(** * Preparations *)

Definition invariants (l : list SandboxInvariant.t) : list Field.t :=
  map (fun i => Field.Text (SandboxInvariant.as_str i)) l.

Definition judged (fields : Fields.t) (judgement : Judgement.t) : Fields.t :=
  let fields := Fields.text fields "declared" (level (Judgement.declared judgement)) in
  let fields := Fields.text fields "measured" (level (Judgement.measured judgement)) in
  let fields := Fields.text fields "effective" (level (Judgement.effective judgement)) in
  let fields := Fields.list fields "failed" (invariants (Judgement.failed judgement)) in
  Fields.list fields "unobservable" (invariants (Judgement.unobservable judgement)).

(** Both ids, as every record of an environment begins. *)
Definition ids (environment : EnvironmentId) (run : RunId) : Fields.t :=
  Fields.text (Fields.text Fields.new "environment_id" (Id.as_str environment))
    "run_id" (Id.as_str run).

Definition record_prepared (environment : EnvironmentId) (run : RunId) (prepared : Prepared.t)
    (timing : Fields.t) : op () :=
  let* now := now_sql in
  let base := ids environment run in
  let preparing := the_environment environment (Some "PREPARING") in
  let* changed :=
    match prepared with
    | Prepared.Ready container judgement =>
        let* changed := exec (fun d => changed (update_environment preparing (fun r =>
          set_columns r "READY" (Some (ContainerRef.as_str container))
            (Some (level (Judgement.measured judgement))) (Some (level (Judgement.effective judgement)))
            (EnvironmentRow.failure r) (EnvironmentRow.ended_ms r)) d)) in
        let fields :=
          judged (Fields.text base "container" (ContainerRef.as_str container)) judgement in
        let* _ := Work.audit AuditEvent.EnvironmentReady (Fields.extend fields timing) in
        done changed
    | Prepared.Refused reason judgement =>
        let* changed := exec (fun d => changed (update_environment preparing (fun r =>
          set_columns r "REFUSED" (EnvironmentRow.container r)
            ((fun j => level (Judgement.measured j)) <$> judgement)
            ((fun j => level (Judgement.effective j)) <$> judgement)
            (Some reason) (Some now)) d)) in
        let fields := Fields.text base "reason" reason in
        let fields := match judgement with Some j => judged fields j | None => fields end in
        let* _ := Work.audit AuditEvent.EnvironmentRefused (Fields.extend fields timing) in
        done changed
    | Prepared.Unknown container reason =>
        let* changed := exec (fun d => changed (update_environment preparing (fun r =>
          set_columns r "UNKNOWN" (ContainerRef.as_str <$> container) (EnvironmentRow.measured r)
            (EnvironmentRow.effective r) (Some reason) (EnvironmentRow.ended_ms r)) d)) in
        let* _ := Work.audit AuditEvent.EnvironmentOutcomeUnknown (Fields.text base "reason" reason) in
        done changed
    | Prepared.Unusable container reason judgement =>
        let* changed := exec (fun d => changed (update_environment preparing (fun r =>
          set_columns r "DESTROYING" (Some (ContainerRef.as_str container))
            (Some (level (Judgement.measured judgement))) (Some (level (Judgement.effective judgement)))
            (Some reason) (EnvironmentRow.ended_ms r)) d)) in
        let fields := judged (Fields.text (Fields.text base "container" (ContainerRef.as_str container))
                                "reason" reason) judgement in
        let* _ := Work.audit AuditEvent.EnvironmentRefused fields in
        done changed
    end in
  if negb (changed =? 1)%nat
  then fail (AuthorityError.Invariant "a preparation's outcome found no preparing record")
  else done ().

(** * Records *)

(** A key and row, decoded. *)
Definition record_of (row : string * EnvironmentRow.t) : result EnvironmentRecord.t AuthorityError.t :=
  let '(key, r) := row in
  let malformed := AuthorityError.Invariant "a stored environment is malformed" in
  let? environment := ok_or (Id.parse "env" key) malformed in
  let? run := ok_or (Id.parse "run" (EnvironmentRow.run_id r)) malformed in
  let? state := ok_or (EnvironmentState.parse (EnvironmentRow.state r)) malformed in
  let? container :=
    match EnvironmentRow.container r with
    | Some c => let? c := ok_or (ContainerRef.new c) malformed in Ok (Some c)
    | None => Ok None
    end in
  let? network :=
    ok_or (find_spelling NetworkTopology.ALL NetworkTopology.as_str (EnvironmentRow.network r)) malformed in
  let? incarnation := ok_or (u64_of (EnvironmentRow.incarnation r)) malformed in
  Ok (EnvironmentRecord.Make environment run state container network incarnation
        (EnvironmentRow.failure r)).

Definition record (environment : EnvironmentId) : op (option EnvironmentRecord.t) :=
  let key := Id.as_str environment in
  let* row := select (fun d => Db.environment d !! key) in
  match row with
  | None => done None
  | Some row => let* found := from (record_of (key, row)) in done (Some found)
  end.

(** The keys of the rows a condition takes, [ORDER BY environment_id]. *)
Definition keys_where (where_ : EnvironmentRow.t -> bool) (d : Db.t) : list string :=
  sort (List.filter (fun kr => where_ kr.2) (map_to_list (Db.environment d))).*1.

Definition is_live (r : EnvironmentRow.t) : bool := in_ LIVE (EnvironmentRow.state r).

Definition live : op (list EnvironmentRecord.t) :=
  let* rows := select (fun d =>
    omap (fun key => pair key <$> Db.environment d !! key) (keys_where is_live d)) in
  for_each (fun row => from (record_of row)) rows.

(** * Destructions *)

(** The arm of [begin_destroy] that begins it. *)
Definition begin_recorded (environment : EnvironmentId) (reason : string) (record : EnvironmentRecord.t) :
    op DestroyBegun.t :=
  let* invocation := invocation_id process in
  let* _ := exec (update_environment (the_environment environment None) (fun r =>
    set_columns r "DESTROYING" (EnvironmentRow.container r) (EnvironmentRow.measured r)
      (EnvironmentRow.effective r) (coalesce (EnvironmentRow.failure r) (Some reason))
      (EnvironmentRow.ended_ms r))) in
  let fields := ids environment (EnvironmentRecord.run record) in
  let fields := Fields.text fields "invocation_id" (Id.as_str invocation) in
  let fields := Fields.text fields "reason" reason in
  let* _ := Work.audit AuditEvent.EnvironmentDestroyIntent
    (Fields.text fields "from" (EnvironmentState.as_str (EnvironmentRecord.state record))) in
  done (DestroyBegun.Pending record invocation).

Definition begin_destroy (environment : EnvironmentId) (reason : string) : op DestroyBegun.t :=
  let* found := record environment in
  match found with
  | None => done (DestroyBegun.Refused "UNKNOWN_ENVIRONMENT")
  | Some record =>
      match EnvironmentRecord.state record with
      | EnvironmentState.Refused | EnvironmentState.Destroyed | EnvironmentState.Lost =>
          done (DestroyBegun.Refused "ENVIRONMENT_ENDED")
      | EnvironmentState.Preparing => done (DestroyBegun.Refused "ENVIRONMENT_PREPARING")
      | EnvironmentState.Ready | EnvironmentState.Unknown | EnvironmentState.Destroying =>
          begin_recorded environment reason record
      end
  end.

(** The loop of [begin_run_end] and [begin_reaped_at_start]. *)
Definition begin_destroy_key (reason : string) (key : string) : op DestroyBegun.t :=
  let* environment := from (ok_or (Id.parse "env" key)
    (AuthorityError.Invariant "a stored environment id is malformed")) in
  begin_destroy environment reason.

Definition begin_run_end (run : RunId) (reason : string) : op (list DestroyBegun.t) :=
  let* live := select (keys_where (fun r => is_live r && String.eqb (EnvironmentRow.run_id r) (Id.as_str run))) in
  let* live := texts live in
  for_each (begin_destroy_key reason) live.

Definition begin_reaped_at_start : op N :=
  let* ended := select (fun d => keys_where (fun r =>
    String.eqb (EnvironmentRow.state r) "READY"
    && is_some_and (Db.run d !! EnvironmentRow.run_id r)
         (fun run => negb (String.eqb (RunRow.state run) "ACTIVE"))) d) in
  let* ended := texts ended in
  let* _ := for_each (begin_destroy_key "REAPED") ended in
  done (N.min (N.of_nat (length ended)) U64_MAX).

Definition end_with_its_run (environment : EnvironmentId) (run : RunId) : op (option DestroyBegun.t) :=
  let* row := select (fun d => Db.run d !! Id.as_str run) in
  match row with
  | None => fail AuthorityError.Sqlite (* [QueryReturnedNoRows] *)
  | Some row =>
      if String.eqb (RunRow.state row) "ACTIVE" then done None
      else
        let* found := record environment in
        match EnvironmentRecord.state <$> found with
        | Some EnvironmentState.Ready | Some EnvironmentState.Unknown =>
            let* begun := begin_destroy environment "RUN_ENDED" in done (Some begun)
        | _ => done None
        end
  end.

(** The transaction of a preparation's outcome ([environment_prepare]). *)
Definition record_outcome (environment : EnvironmentId) (run : RunId) (prepared : Prepared.t)
    (timing : Fields.t) : op (option DestroyBegun.t) :=
  let* _ := record_prepared environment run prepared timing in
  end_with_its_run environment run.

Definition egress_fields (fields : Fields.t) (counters : EgressCounters.t) : Fields.t :=
  let fields := Fields.list fields "egress_dispositions"
    (map (fun c => Field.Text (EgressDisposition.as_str c.1 +:+ "=" +:+ show_N c.2))
       (EgressCounters.dispositions counters)) in
  let fields := Fields.int fields "egress_bytes_upstream" (EgressCounters.bytes_upstream counters) in
  Fields.int fields "egress_bytes_downstream" (EgressCounters.bytes_downstream counters).

Definition record_destroyed (record : EnvironmentRecord.t) (ending : DestroyEnding.t)
    (timing : Fields.t) : op () :=
  let* now := now_sql in
  let base := ids (EnvironmentRecord.environment record) (EnvironmentRecord.run record) in
  match ending with
  | DestroyEnding.Gone container already egress =>
      let container := coalesce container (EnvironmentRecord.container record) in
      let* _ := exec (update_environment
        (the_environment (EnvironmentRecord.environment record) (Some "DESTROYING")) (fun r =>
          set_columns r "DESTROYED"
            (coalesce (EnvironmentRow.container r) (ContainerRef.as_str <$> container))
            (EnvironmentRow.measured r) (EnvironmentRow.effective r) (EnvironmentRow.failure r)
            (Some now))) in
      let fields := Fields.flag base "already_gone" already in
      let fields := Fields.maybe_text fields "container" (ContainerRef.as_str <$> container) in
      let fields :=
        match egress with Some counters => egress_fields fields counters | None => fields end in
      Work.audit AuditEvent.EnvironmentDestroyed (Fields.extend fields timing)
  | DestroyEnding.Pending reason =>
      Work.audit AuditEvent.EnvironmentDestroyFailed (Fields.text base "reason" reason)
  end.

(** * Measurements *)

Definition record_measured (record : EnvironmentRecord.t) (judgement : Judgement.t) (timing : Fields.t) : op () :=
  let fields := judged (ids (EnvironmentRecord.environment record) (EnvironmentRecord.run record)) judgement in
  Work.audit AuditEvent.EnvironmentMeasured (Fields.extend fields timing).

Definition record_drifted (record : EnvironmentRecord.t) (reason : string)
    (judgement : option Judgement.t) : op () :=
  let fields := Fields.text
    (ids (EnvironmentRecord.environment record) (EnvironmentRecord.run record)) "reason" reason in
  let fields := match judgement with Some j => judged fields j | None => fields end in
  Work.audit AuditEvent.EnvironmentDrifted fields.

(** * Reconciliation *)

Definition record_lost (record : EnvironmentRecord.t) : op () :=
  let* now := now_sql in
  let '(state, event) :=
    if bool_decide (EnvironmentRecord.state record = EnvironmentState.Destroying)
    then ("DESTROYED", AuditEvent.EnvironmentDestroyed)
    else ("LOST", AuditEvent.EnvironmentLost) in
  let* _ := exec (update_environment (the_environment (EnvironmentRecord.environment record) None)
    (fun r => set_columns r state (EnvironmentRow.container r) (EnvironmentRow.measured r)
       (EnvironmentRow.effective r) (coalesce (EnvironmentRow.failure r) (Some "MISSING")) (Some now))) in
  let fields := ids (EnvironmentRecord.environment record) (EnvironmentRecord.run record) in
  let fields := Fields.text fields "was" (EnvironmentState.as_str (EnvironmentRecord.state record)) in
  Work.audit event (Fields.text fields "class" "MISSING").

Definition reconcile_open : op N :=
  let* found := exec (update_environment (fun _ r => String.eqb (EnvironmentRow.state r) "PREPARING")
    (fun r => set_columns r "UNKNOWN" (EnvironmentRow.container r) (EnvironmentRow.measured r)
       (EnvironmentRow.effective r) (Some "INTERRUPTED") (EnvironmentRow.ended_ms r))) in
  let* runs := select (fun d =>
    map (fun key => default "" (EnvironmentRow.run_id <$> Db.environment d !! key)) found) in
  let* found := texts found in
  let* runs := texts runs in
  let* _ := for_each (fun '(environment, run) =>
    let fields := Fields.text (Fields.text Fields.new "environment_id" environment) "run_id" run in
    Work.audit AuditEvent.EnvironmentOutcomeUnknown (Fields.text fields "reason" "INTERRUPTED"))
    (combine found runs) in
  done (N.min (N.of_nat (length found)) U64_MAX).

End ops.
