(* ===== verification/Lease.v ===== *)
(** Session leases and epoch fencing ([dwkd-authority/src/state/lease.rs]), and
    the release of a run ([admission.rs]). *)

From Stdlib Require Import ZArith.
From S2P Require Export Environment.

(** What a lease's end left to the broker. *)
Definition Teardown : Type := list DestroyBegun.t.

Definition DEFAULT_LEASE_TTL_MS : N := 60000.
Definition MIN_LEASE_TTL_MS : N := 1000.
Definition MAX_LEASE_TTL_MS : N := 600000.
Definition MAX_EPOCH : N := Epoch.MAX.

Module Lease.

Record t := Make {
  epoch : N; state : string; holder_subject : option string; holder : option (N * N);
  expires_ms : option N; last_holder : option (N * N)
}.

(** The closure [pair] of [load]. *)
Definition pair (a b : option Z) : option (N * N) :=
  a ← a; a ← u64_of a; b ← b; b ← u64_of b; Some (a, b).

(** A row, decoded. *)
Definition of_row (r : LeaseRow.t) : result t AuthorityError.t :=
  let? epoch :=
    match u64_of (LeaseRow.epoch r) with
    | Some epoch => Ok epoch
    | None => broken "a stored epoch is negative"
    end in
  Ok (Make epoch (LeaseRow.state r) (LeaseRow.holder_subject r)
        (pair (LeaseRow.holder_incarnation r) (LeaseRow.holder_connection r))
        (LeaseRow.expires_ms r ≫= u64_of)
        (pair (LeaseRow.last_holder_incarnation r) (LeaseRow.last_holder_connection r))).

End Lease.

Definition holder_pair (caller : CallerContext.t) : N * N :=
  (LeaseHolder.incarnation (CallerContext.holder caller),
   LeaseHolder.connection (CallerContext.holder caller)).

Definition fenced_ok (lease : Lease.t) (caller : CallerContext.t) (epoch now : N) : bool :=
  String.eqb (Lease.state lease) "HELD"
  && (Lease.epoch lease =? epoch)%N
  && bool_decide (Lease.holder lease = Some (holder_pair caller))
  && bool_decide (Lease.holder_subject lease =
                  Some (AuthenticatedSubject.storage_key (CallerContext.subject caller)))
  && is_some_and (Lease.expires_ms lease) (fun expires => (now <? expires)%N).

Definition refusal_fields (caller : CallerContext.t) (operation : RefusedOperation.t)
    (reason : RefusalReason.t) (session : SessionId) (presented_epoch : option Epoch.t) : Fields.t :=
  let fields := Fields.text Fields.new "operation" (RefusedOperation.as_str operation) in
  let fields := Fields.text fields "reason" (RefusalReason.as_str reason) in
  let fields := Fields.text fields "subject"
                  (AuthenticatedSubject.storage_key (CallerContext.subject caller)) in
  let fields := Fields.text fields "holder" (LeaseHolder.display (CallerContext.holder caller)) in
  let fields := Fields.text fields "session_id" (Id.as_str session) in
  match presented_epoch with
  | Some epoch => Fields.int fields "presented_epoch" (Epoch.get epoch)
  | None => fields
  end.

(** What the records of a caller's own tenure begin with. *)
Definition caller_fields (caller : CallerContext.t) (session : SessionId) : Fields.t :=
  let fields := Fields.text Fields.new "subject"
                  (AuthenticatedSubject.storage_key (CallerContext.subject caller)) in
  let fields := Fields.text fields "holder" (LeaseHolder.display (CallerContext.holder caller)) in
  Fields.text fields "session_id" (Id.as_str session).

Section ops.
  Context `{Sha256} (process : Process.t).

Definition load (session : SessionId) : op (option Lease.t) :=
  let* row := select (fun d => Db.session_lease d !! Id.as_str session) in
  match row with
  | None => done None
  | Some row => let* lease := from (Lease.of_row row) in done (Some lease)
  end.

Definition fence (caller : CallerContext.t) (session : SessionId) (epoch : Epoch.t) : op bool :=
  let* lease := load session in
  let* now := now in
  done (is_some_and lease (fun lease => fenced_ok lease caller (Epoch.get epoch) now)).

(** A refusal is recorded, and changes nothing else. *)
Definition refuse {A} (event : AuditEvent.t) (caller : CallerContext.t)
    (operation : RefusedOperation.t) (reason : RefusalReason.t) (session : SessionId)
    (presented_epoch : option Epoch.t) : op (Reply.t A) :=
  let* _ := Work.audit event (refusal_fields caller operation reason session presented_epoch) in
  done (Reply.Refused reason).

Definition the_session (session : SessionId) (key : string) (_ : LeaseRow.t) : bool :=
  String.eqb key (Id.as_str session).

(** The loop of [reap]. *)
Definition reap_run (session : SessionId) (cause run : string) : op Teardown :=
  let* id := from (ok_or (Id.parse "run" run)
    (AuthorityError.Invariant "a stored run_id is malformed")) in
  let fields := Fields.text Fields.new "session_id" (Id.as_str session) in
  let* _ := Work.audit AuditEvent.RunReaped
    (Fields.text (Fields.text fields "run_id" run) "cause" cause) in
  begin_run_end process id "REAPED".

(** [reap]. *)
Definition reap (session : SessionId) (below_epoch : N) (cause : string) : op Teardown :=
  let* below := from (to_sql below_epoch) in
  let* ms := now in
  let* ended := from (to_sql ms) in
  let* reaped := exec (update_run
    (fun _ r => String.eqb (RunRow.session_id r) (Id.as_str session)
                && String.eqb (RunRow.state r) "ACTIVE" && (RunRow.epoch r <? below)%Z)
    (fun r => RunRow.Make (RunRow.session_id r) (RunRow.subject r) (RunRow.epoch r)
       (RunRow.agent_profile r) (RunRow.agent_profile_revision r) (RunRow.activation_id r)
       "REAPED" (RunRow.admitted_ms r) (Some ended))) in
  let* reaped := texts reaped in
  let* teardown := for_each (reap_run session cause) reaped in
  done (concat teardown).

(** What [acquire] decides from the row it found: the next epoch and how the
    last tenure ended, or that another holds the lease. *)
Definition next_tenure (current : option Lease.t) (caller : CallerContext.t) (now : N) :
    result (option (N * string)) AuthorityError.t :=
  match current with
  | None => Ok (Some (1%N, "none"))
  | Some lease =>
      let live := String.eqb (Lease.state lease) "HELD"
                  && is_some_and (Lease.expires_ms lease) (fun e => (now <? e)%N) in
      if live && negb (bool_decide (Lease.holder lease = Some (holder_pair caller))) then Ok None
      else if (MAX_EPOCH <=? Lease.epoch lease)%N then Err AuthorityError.EpochExhausted
      else
        let prior :=
          if String.eqb (Lease.state lease) "HELD" then if live then "reissued" else "expired"
          else if String.eqb (Lease.state lease) "RELEASED" then "released" else "invalidated" in
        Ok (Some (saturating_add (Lease.epoch lease) 1, prior))
  end.

Definition acquire (caller : CallerContext.t) (session : SessionId) (ttl_ms : N) :
    op (Reply.t Epoch.t * Teardown) :=
  let* ms := now in
  let expires := saturating_add ms ttl_ms in
  let '(inc, conn) := holder_pair caller in
  let* current := load session in
  let* decided := from (next_tenure current caller ms) in
  match decided with
  | None =>
      let* reply := refuse AuditEvent.LeaseRefused caller RefusedOperation.AcquireLease
                      RefusalReason.LeaseHeld session None in
      done (reply, [])
  | Some (epoch, prior) =>
      let* epoch_sql := from (to_sql epoch) in
      let subject := AuthenticatedSubject.storage_key (CallerContext.subject caller) in
      let* inc := from (to_sql inc) in
      let* conn := from (to_sql conn) in
      let* expires_sql := from (to_sql expires) in
      let held last_incarnation last_connection :=
        LeaseRow.Make epoch_sql "HELD" (Some subject) (Some inc) (Some conn) (Some expires_sql)
          last_incarnation last_connection in
      let* teardown :=
        match current with
        | None =>
            let* _ := exec_ (insert_lease (Id.as_str session) (held None None)) in done []
        | Some _ =>
            let* _ := exec (update_lease (the_session session)
              (fun r => held (LeaseRow.last_holder_incarnation r) (LeaseRow.last_holder_connection r))) in
            reap session epoch "lease_reacquired"
        end in
      let fields := Fields.int (caller_fields caller session) "epoch" epoch in
      let* _ := Work.audit AuditEvent.LeaseAcquired
        (Fields.int (Fields.text fields "prior" prior) "expires_ms" expires) in
      match Epoch.new epoch with
      | Some epoch => done (Reply.Done epoch, teardown)
      | None => fail AuthorityError.EpochExhausted
      end
  end.

Definition heartbeat (caller : CallerContext.t) (session : SessionId) (epoch : Epoch.t) (ttl_ms : N) :
    op (Reply.t ()) :=
  let* fenced := fence caller session epoch in
  if negb fenced then
    refuse AuditEvent.LeaseRefused caller RefusedOperation.Heartbeat RefusalReason.StaleEpoch
      session (Some epoch)
  else
    let* ms := now in
    let* expires := from (to_sql (saturating_add ms ttl_ms)) in
    let* _ := exec (update_lease (the_session session) (fun r =>
      LeaseRow.Make (LeaseRow.epoch r) (LeaseRow.state r) (LeaseRow.holder_subject r)
        (LeaseRow.holder_incarnation r) (LeaseRow.holder_connection r) (Some expires)
        (LeaseRow.last_holder_incarnation r) (LeaseRow.last_holder_connection r))) in
    done (Reply.Done ()).

(** A retry of a release that happened. *)
Definition released_already (lease : Lease.t) (caller : CallerContext.t) (epoch : Epoch.t) : bool :=
  String.eqb (Lease.state lease) "RELEASED" && (Lease.epoch lease =? Epoch.get epoch)%N
  && bool_decide (Lease.last_holder lease = Some (holder_pair caller)).

Definition release (caller : CallerContext.t) (session : SessionId) (epoch : Epoch.t) :
    op (Reply.t () * Teardown) :=
  let* lease := load session in
  let* ms := now in
  let stale :=
    let* reply := refuse AuditEvent.LeaseRefused caller RefusedOperation.ReleaseLease
                    RefusalReason.StaleEpoch session (Some epoch) in
    done (reply, []) in
  match lease with
  | None => stale
  | Some lease =>
      if fenced_ok lease caller (Epoch.get epoch) ms then
        let* inc := from (to_sql (holder_pair caller).1) in
        let* conn := from (to_sql (holder_pair caller).2) in
        let* _ := exec (update_lease (the_session session) (fun r =>
          LeaseRow.Make (LeaseRow.epoch r) "RELEASED" None None None None (Some inc) (Some conn))) in
        let* teardown := reap session (saturating_add (Lease.epoch lease) 1) "lease_released" in
        let* _ := Work.audit AuditEvent.LeaseReleased
          (Fields.int (caller_fields caller session) "epoch" (Lease.epoch lease)) in
        done (Reply.Done (), teardown)
      else if released_already lease caller epoch then done (Reply.Done (), [])
      else stale
  end.

(** [invalidate_all]: how many leases and runs it ended. *)
Definition invalidate_all : op (N * N) :=
  let* leases := exec (update_lease (fun _ r => String.eqb (LeaseRow.state r) "HELD") (fun r =>
    LeaseRow.Make (LeaseRow.epoch r) "INVALIDATED" None None None None
      (LeaseRow.holder_incarnation r) (LeaseRow.holder_connection r))) in
  let* ms := now in
  let* ended := from (to_sql ms) in
  let* runs := exec (update_run (fun _ r => String.eqb (RunRow.state r) "ACTIVE") (fun r =>
    RunRow.Make (RunRow.session_id r) (RunRow.subject r) (RunRow.epoch r) (RunRow.agent_profile r)
      (RunRow.agent_profile_revision r) (RunRow.activation_id r) "REAPED" (RunRow.admitted_ms r)
      (Some ended))) in
  done (N.min (N.of_nat (length leases)) U64_MAX, N.min (N.of_nat (length runs)) U64_MAX).

(** [admission::release]. *)
Definition release_admission (caller : CallerContext.t) (session : SessionId) (run : RunId)
    (epoch : Epoch.t) : op (Reply.t bool) :=
  let* fenced := fence caller session epoch in
  if negb fenced then
    refuse AuditEvent.RunReleaseRefused caller RefusedOperation.ReleaseRun RefusalReason.StaleEpoch
      session (Some epoch)
  else
    let subject := AuthenticatedSubject.storage_key (CallerContext.subject caller) in
    let* epoch_sql := from (to_sql (Epoch.get epoch)) in
    let* ms := now in
    let* ended := from (to_sql ms) in
    let* changed := exec (fun d => changed (update_run
      (fun key r => String.eqb key (Id.as_str run) && String.eqb (RunRow.session_id r) (Id.as_str session)
         && String.eqb (RunRow.subject r) subject && (RunRow.epoch r =? epoch_sql)%Z
         && String.eqb (RunRow.state r) "ACTIVE")
      (fun r => RunRow.Make (RunRow.session_id r) (RunRow.subject r) (RunRow.epoch r)
         (RunRow.agent_profile r) (RunRow.agent_profile_revision r) (RunRow.activation_id r)
         "RELEASED" (RunRow.admitted_ms r) (Some ended)) d)) in
    let* _ :=
      if (changed =? 1)%nat then
        Work.audit AuditEvent.RunReleased
          (Fields.text (Fields.int (caller_fields caller session) "epoch" (Epoch.get epoch))
             "run_id" (Id.as_str run))
      else done () in
    done (Reply.Done (changed =? 1)%nat).

(** The body of [Authority::release_run]. *)
Definition release_run (caller : CallerContext.t) (session : SessionId) (run : RunId)
    (epoch : Epoch.t) : op (Reply.t () * Teardown) :=
  let* released := release_admission caller session run epoch in
  let* teardown :=
    match released with
    | Reply.Done true => begin_run_end process run "RELEASED"
    | _ => done []
    end in
  let reply :=
    match released with
    | Reply.Done _ => Reply.Done ()
    | Reply.Refused reason => Reply.Refused reason
    end in
  done (reply, teardown).

End ops.
