(* ===== verification/WorkFacts.v ===== *)
(** What the operations' bodies keep: they extend the audit chain, and no
    column of the tables goes back; with the rules by which this is proved of a
    body from its records and statements; and what the operations on
    environments keep. *)

From Stdlib Require Import ZArith.
From S2P Require Export Utf8 WorkOps RecoveryFacts Db Environment.

(** * Fields *)

Lemma fields_ok_new : fields_ok Fields.new.
Proof. repeat constructor. Qed.

Lemma fields_ok_app f g : fields_ok f -> fields_ok g -> fields_ok (f ++ g).
Proof.
  intros (H1 & H2 & H3) (G1 & G2 & G3). unfold fields_ok. rewrite !fmap_app, !Forall_app. tauto.
Qed.

Lemma fields_ok_one key f :
  Utf8 key -> Field.field_ok f -> S (Field.height f) <= WireLimits.MAX_DEPTH -> fields_ok [(key, f)].
Proof. intros Hk Hf Hh. split_and!; by apply Forall_singleton. Qed.

Lemma fields_ok_text f key value :
  fields_ok f -> Utf8 key -> Utf8 value -> fields_ok (Fields.text f key value).
Proof.
  intros Hf Hk Hv. apply fields_ok_app; [done|]. apply fields_ok_one; [done|by constructor|].
  cbn. unfold WireLimits.MAX_DEPTH. lia.
Qed.

Lemma fields_ok_int f key value : fields_ok f -> Utf8 key -> fields_ok (Fields.int f key value).
Proof.
  intros Hf Hk. apply fields_ok_app; [done|]. apply fields_ok_one; [done|constructor|].
  cbn. unfold WireLimits.MAX_DEPTH. lia.
Qed.

Lemma fields_ok_flag f key value : fields_ok f -> Utf8 key -> fields_ok (Fields.flag f key value).
Proof.
  intros Hf Hk. apply fields_ok_app; [done|]. apply fields_ok_one; [done|constructor|].
  cbn. unfold WireLimits.MAX_DEPTH. lia.
Qed.

Lemma fields_ok_maybe_text f key value :
  fields_ok f -> Utf8 key -> is_none_or value (fun v => str_all is_ascii v) = true ->
  fields_ok (Fields.maybe_text f key value).
Proof. intros Hf Hk Hv. destruct value as [v|]; [|done]. apply fields_ok_text; [done..|]. by apply Utf8_all_ascii. Qed.

Lemma fields_ok_texts f key items :
  fields_ok f -> Utf8 key -> Forall Utf8 items -> fields_ok (Fields.list f key (map Field.Text items)).
Proof.
  intros Hf Hk Hi. apply fields_ok_app; [done|]. apply fields_ok_one; [done| |].
  - constructor. apply Forall_forall. intros x Hx. apply list_elem_of_In, in_map_iff in Hx as (s & <- & Hs).
    constructor. rewrite Forall_forall in Hi. by apply Hi, list_elem_of_In.
  - assert (Field.height (Field.List (map Field.Text items)) = 1) as ->.
    { cbn. f_equal. induction items as [|s r IH]; [done|]. cbn. apply IH. by inversion Hi. }
    unfold WireLimits.MAX_DEPTH. lia.
Qed.

Lemma fields_ok_extend f g : fields_ok f -> fields_ok g -> fields_ok (Fields.extend f g).
Proof. apply fields_ok_app. Qed.

(** ** Texts the operations record *)

Lemma implies_ascii (f : ascii -> bool) :
  forallb (fun k => implb (f (ascii_of_N (N.of_nat k))) (is_ascii (ascii_of_N (N.of_nat k)))) (seq 0 256) = true ->
  forall s, str_all f s = true -> str_all is_ascii s = true.
Proof.
  intros H s. apply str_all_impl. intros a Ha.
  pose proof (ascii_forall (fun a => implb (f a) (is_ascii a)) H a) as E. cbn in E. by rewrite Ha in E.
Qed.

Lemma show_N_Utf8 n : Utf8 (show_N n).
Proof. apply Utf8_all_ascii, (implies_ascii is_digit); [by vm_compute|apply show_N_digits]. Qed.

Lemma symbol_ascii n : is_ascii (symbol n) = true.
Proof.
  unfold symbol. assert (forall k, is_ascii (default "0"%char (String.get k ALPHABET)) = true) as H; [|apply H].
  intros k. do 32 (destruct k as [|k]; [by vm_compute|]). by destruct k.
Qed.

Lemma encode_uuid_Utf8 v : Utf8 (encode_uuid v).
Proof.
  apply Utf8_all_ascii. unfold encode_uuid. generalize ENCODED_LEN. intros n.
  induction n as [|n IH]; [done|]. rewrite encode_loop_head. cbn [str_all]. by rewrite symbol_ascii.
Qed.

(** What [wire_id!] types hold. *)
Definition id_ok {prefix} (i : Id.t prefix) : Prop := Id.parse prefix (Id.as_str i) = Some i.

Lemma id_Utf8 {prefix} (i : Id.t prefix) : Utf8 prefix -> id_ok i -> Utf8 (Id.as_str i).
Proof.
  intros Hp (_ & v & _ & _ & ->)%parse_Some. apply Utf8_app; [done|].
  apply Utf8_app; [by apply Utf8_all_ascii|apply encode_uuid_Utf8].
Qed.

Lemma parse_id_ok {prefix} s (i : Id.t prefix) : Id.parse prefix s = Some i -> id_ok i /\ Id.as_str i = s.
Proof. intros E. pose proof (proj1 (proj1 (parse_Some _ _ _) E)) as Es. unfold id_ok. by rewrite Es. Qed.

Lemma storage_key_Utf8 s : Utf8 (AuthenticatedSubject.storage_key s).
Proof. apply Utf8_app; [by apply Utf8_all_ascii|apply show_N_Utf8]. Qed.

Lemma holder_Utf8 h : Utf8 (LeaseHolder.display h).
Proof.
  apply Utf8_app; [apply show_N_Utf8|]. apply Utf8_app; [by apply Utf8_all_ascii|apply show_N_Utf8].
Qed.

Lemma vocabulary_Utf8 {A} (ALL : list A) as_str `{!Vocabulary ALL as_str} a :
  forallb (fun x => str_all is_ascii (as_str x)) ALL = true -> Utf8 (as_str a).
Proof.
  intros H. rewrite forallb_forall in H. apply Utf8_all_ascii, H, list_elem_of_In, vocabulary_complete.
Qed.

Create HintDb fields discriminated.
#[export] Hint Constants Opaque : fields.
#[export] Hint Resolve fields_ok_new fields_ok_text fields_ok_int fields_ok_flag fields_ok_maybe_text
  fields_ok_texts fields_ok_extend show_N_Utf8 storage_key_Utf8 holder_Utf8 : fields.
#[export] Hint Extern 5 (Utf8 _) => (apply Utf8_all_ascii; vm_compute; reflexivity) : fields.

(** * What bodies keep *)

Section keeps.
  Context `{Sha256}.

(** A body that answers leaves a context its start relates to. *)
Definition keeps (R : relation (Work.t Db.t)) {A} (body : op A) : Prop :=
  forall c a c', body c = Ok (a, c') -> R c c'.

Lemma and_then_Ok {A B} (m : op A) (k : A -> op B) c b c'' :
  and_then m k c = Ok (b, c'') -> exists a c', m c = Ok (a, c') /\ k a c' = Ok (b, c'').
Proof. unfold and_then. destruct (m c) as [[a c']|]; [eauto|done]. Qed.

Lemma from_Ok {A} (r : result A AuthorityError.t) c a c' : from r c = Ok (a, c') -> r = Ok a /\ c' = c.
Proof. unfold from. destruct r; [|done]. by intros [= -> ->]. Qed.

Lemma texts_Ok l c r c' : texts l c = Ok (r, c') -> r = l /\ c' = c /\ Forall Utf8 l.
Proof.
  unfold texts. revert c r c'. induction l as [|s l IH]; intros c r c'; cbn [for_each].
  { intros [= <- <-]. by split_and!. }
  unfold and_then at 1. destruct (valid_utf8 s) eqn:Es; [|done]. unfold done at 1, and_then.
  destruct (for_each _ l c) as [[r2 c2]|] eqn:E; [|done]. intros [= <- <-].
  apply IH in E as (-> & -> & Hl). split_and!; [done..|]. constructor; [by apply valid_utf8_spec|done].
Qed.

Lemma exec_Ok {A} (s : Db.t -> result (A * Db.t) SqlError.t) c a c' :
  exec s c = Ok (a, c') ->
  exists d, s (Work.data c) = Ok (a, d) /\ c' = Work.Make (Work.tx c) d (Work.now c) (Work.last_seq c).
Proof. unfold exec. destruct (s _) as [[b d]|]; [|done]. intros [= -> <-]. eauto. Qed.

Lemma exec__Ok (s : Db.t -> result Db.t SqlError.t) c a c' :
  exec_ s c = Ok (a, c') ->
  exists d, s (Work.data c) = Ok d /\ c' = Work.Make (Work.tx c) d (Work.now c) (Work.last_seq c).
Proof.
  unfold exec_. intros (d & E & ->)%exec_Ok. destruct (s _) as [d'|]; [|done]. injection E as _ ->. eauto.
Qed.

Lemma audit_Ok event fields (c : Work.t Db.t) a c' :
  Work.audit event fields c = Ok (a, c') -> Work.data c' = Work.data c /\ Work.now c' = Work.now c.
Proof. intros E. unfold Work.audit in E. repeat case_match; simplify_eq/=; by split. Qed.

Section rules.
  Context (R : relation (Work.t Db.t)) `{!PreOrder R}.

(** What follows may use what the first part found. *)
Lemma keeps_bind_of {A B} (m : op A) (k : A -> op B) :
  keeps R m -> (forall a c c', m c = Ok (a, c') -> keeps R (k a)) -> keeps R (and_then m k).
Proof.
  intros Hm Hk c1 b c2 (a & c & E & E2)%and_then_Ok. transitivity c; [by eapply Hm|by eapply Hk].
Qed.

Lemma keeps_bind {A B} (m : op A) (k : A -> op B) :
  keeps R m -> (forall a, keeps R (k a)) -> keeps R (and_then m k).
Proof. intros Hm Hk. by apply keeps_bind_of. Qed.

Lemma keeps_done {A} (a : A) : keeps R (done a : op A).
Proof. by intros c b c' [= _ <-]. Qed.

Lemma keeps_fail {A} e : keeps R (fail e : op A).
Proof. by intros c b c'. Qed.

Lemma keeps_from {A} (r : result A AuthorityError.t) : keeps R (from r : op A).
Proof. by intros c b c' [_ ->]%from_Ok. Qed.

Lemma keeps_select {A} (f : Db.t -> A) : keeps R (select f : op A).
Proof. by intros c b c' [= _ <-]. Qed.

Lemma keeps_now : keeps R (now : op N).
Proof. by intros c b c' [= _ <-]. Qed.

Lemma keeps_texts l : keeps R (texts l : op _).
Proof. by intros c r c' (_ & -> & _)%texts_Ok. Qed.

Lemma keeps_for_each {A B} (f : A -> op B) l : (forall a, a ∈ l -> keeps R (f a)) -> keeps R (for_each f l).
Proof.
  intros Hf. induction l as [|a l IH]; [apply keeps_done|]. cbn [for_each].
  apply keeps_bind; [apply Hf; left|]. intros b. apply keeps_bind.
  - apply IH. intros x Hx. apply Hf. by right.
  - intros bs. apply keeps_done.
Qed.
End rules.

(** ** ... of the tables *)

Definition on_data (R : relation Db.t) : relation (Work.t Db.t) :=
  fun c c' => R (Work.data c) (Work.data c').

#[export] Instance on_data_preorder R `{!PreOrder R} : PreOrder (on_data R).
Proof. split; [by intros c; red|]. intros a b c ??. red. by transitivity (Work.data b). Qed.

(** A part of the tables that is not touched. *)
Definition frame {A} (f : Db.t -> A) : relation Db.t := fun d d' => f d' = f d.

#[export] Instance frame_preorder {A} (f : Db.t -> A) : PreOrder (frame f).
Proof. split; [done|]. intros a b c ??. red. by transitivity (f b). Qed.

Definition statement_keeps (R : relation Db.t) {A} (s : Db.t -> result (A * Db.t) SqlError.t) : Prop :=
  forall d a d', s d = Ok (a, d') -> R d d'.

Lemma keeps_exec R {A} (s : Db.t -> result (A * Db.t) SqlError.t) :
  statement_keeps R s -> keeps (on_data R) (exec s).
Proof. by intros Hs c a c' (d & E%Hs & ->)%exec_Ok. Qed.

Lemma keeps_audit R `{!PreOrder R} event fields : keeps (on_data R) (Work.audit event fields).
Proof. intros c a c' [E _]%audit_Ok. red. by rewrite E. Qed.

(** ** ... of the law: the chain extended by records, no column taken back,
    one clock. *)

Definition law (c c' : Work.t Db.t) : Prop :=
  extends c c' /\ evolves (Work.data c) (Work.data c') /\ Work.now c' = Work.now c.

Lemma extends_trans (c1 c2 c3 : Work.t Db.t) : extends c1 c2 -> extends c2 c3 -> extends c1 c3.
Proof. intros H1 H2. induction H2; [done|by constructor|by eapply extends_audit]. Qed.

#[export] Instance law_preorder : PreOrder law.
Proof.
  split; [intros c; split_and!; [constructor|done|done]|]. intros a b c (? & ? & ?) (? & ? & ?).
  split_and!; [by eapply extends_trans|by etransitivity|congruence].
Qed.

Lemma law_exec {A} (s : Db.t -> result (A * Db.t) SqlError.t) :
  statement_keeps evolves s -> keeps law (exec s).
Proof.
  intros Hs c b c' (d & E%Hs & ->)%exec_Ok. split_and!; [apply extends_data; constructor|done..].
Qed.

Lemma law_audit event fields : fields_ok fields -> keeps law (Work.audit event fields : op ()).
Proof.
  intros Hf c [] c' E. pose proof (audit_Ok _ _ _ _ _ E) as [Ed En].
  split_and!; [eapply extends_audit; [constructor|done|done]|by rewrite Ed|done].
Qed.

(** ** Identifiers *)

Lemma next_counter_Ok d z d' :
  next_counter d = Ok (z, d') ->
  z = (StoreMeta.id_counter (Db.store_meta d) + 1)%Z /\
  StoreMeta.id_counter (Db.store_meta d') = z /\ evolves d d'.
Proof.
  unfold next_counter. destruct (update_meta _ _) as [d2|] eqn:E; [|done]. intros [= <- <-].
  split; [done|]. split; [|by eapply update_meta_evolves, E].
  unfold update_meta in E. case_match; [|done]. by injection E as <-.
Qed.

Lemma next_counter_evolves : statement_keeps evolves next_counter.
Proof. by intros d z d' (_ & _ & ?)%next_counter_Ok. Qed.

Lemma keeps_next_uuid (R : relation (Work.t Db.t)) `{!PreOrder R} process :
  keeps R (exec next_counter) -> keeps R (next_uuid process).
Proof.
  intros HR. repeat first [apply keeps_bind; [done| |intros ?] | apply keeps_select; done | apply keeps_from; done
    | exact HR | apply keeps_now; done | apply keeps_fail | case_match].
Qed.

Lemma mint_id_ok process prefix what c i c' :
  mint process prefix what c = Ok (i, c') -> id_ok i.
Proof.
  intros (v & c2 & _ & [E _]%from_Ok)%and_then_Ok.
  destruct (Id.from_uuid prefix v) as [j|] eqn:Ej; [|done]. injection E as <-.
  by apply parse_id_ok in Ej as [? _].
Qed.

Lemma keeps_mint (R : relation (Work.t Db.t)) `{!PreOrder R} process prefix what :
  keeps R (exec next_counter) -> keeps R (mint process prefix what).
Proof. intros HR. apply keeps_bind; [done|by apply keeps_next_uuid|]. intros v. by apply keeps_from. Qed.

Lemma keeps_bind_mint (R : relation (Work.t Db.t)) `{!PreOrder R} process prefix what {B} (k : Id.t prefix -> op B) :
  keeps R (exec next_counter) -> (forall i, id_ok i -> keeps R (k i)) ->
  keeps R (and_then (mint process prefix what) k).
Proof.
  intros HR Hk. apply keeps_bind_of; [done|by apply keeps_mint|]. intros i c c' Hi%mint_id_ok. by apply Hk.
Qed.

Lemma law_next_counter : keeps law (exec next_counter).
Proof. apply law_exec, next_counter_evolves. Qed.

(** ** Statements *)

Lemma statement_update_lease where_ set_ : statement_keeps evolves (update_lease where_ set_).
Proof. intros d keys d'. apply update_lease_evolves. Qed.

Lemma statement_insert_lease session_id row :
  statement_keeps evolves (fun d => let? d := insert_lease session_id row d in Ok ((), d)).
Proof.
  intros d [] d'. destruct (insert_lease _ _ _) as [d2|] eqn:E; [|done]. intros [= <-].
  by eapply insert_lease_evolves.
Qed.

Lemma statement_update_run where_ set_ :
  (forall r, admission (set_ r) = admission r) -> statement_keeps evolves (update_run where_ set_).
Proof. intros Hs d keys d'. by apply update_run_evolves. Qed.

Lemma statement_update_environment where_ set_ :
  (forall r, intent (set_ r) = intent r) -> statement_keeps evolves (update_environment where_ set_).
Proof. intros Hs d keys d'. by apply update_environment_evolves. Qed.

Lemma statement_changed R s : statement_keeps R s -> statement_keeps R (fun d => changed (s d)).
Proof.
  intros Hs d n d'. unfold changed. destruct (s d) as [[l d2]|] eqn:E; [|done]. intros [= _ <-].
  by eapply Hs.
Qed.

(** ** What statements leave alone *)

Section frame.
  Context {A : Type} (f : Db.t -> A).

Lemma frame_update_lease where_ set_ :
  (forall d l, f (Db.with_lease d l) = f d) -> statement_keeps (frame f) (update_lease where_ set_).
Proof.
  intros Hf d keys d'. unfold update_lease. destruct (update _ _ _ _) as [[l ks]|]; [|done].
  intros [= _ <-]. apply Hf.
Qed.

Lemma frame_insert_lease session_id row :
  (forall d l, f (Db.with_lease d l) = f d) ->
  statement_keeps (frame f) (fun d => let? d := insert_lease session_id row d in Ok ((), d)).
Proof.
  intros Hf d a d'. unfold insert_lease. destruct (insert_row _ _ _ _) as [l|]; [|done].
  intros [= _ <-]. apply Hf.
Qed.

Lemma frame_update_run where_ set_ :
  (forall d r, f (Db.with_run d r) = f d) -> statement_keeps (frame f) (update_run where_ set_).
Proof.
  intros Hf d keys d'. unfold update_run. destruct (update _ _ _ _) as [[l ks]|]; [|done].
  intros [= _ <-]. apply Hf.
Qed.

Lemma frame_update_environment where_ set_ :
  (forall d e, f (Db.with_environment d e) = f d) ->
  statement_keeps (frame f) (update_environment where_ set_).
Proof.
  intros Hf d keys d'. unfold update_environment. destruct (update _ _ _ _) as [[l ks]|]; [|done].
  intros [= _ <-]. apply Hf.
Qed.

Lemma frame_next_counter :
  (forall d m, f (Db.with_meta d m) = f d) -> statement_keeps (frame f) next_counter.
Proof.
  intros Hf d z d'. unfold next_counter, update_meta. destruct (meta_allowed _ _); [|done].
  intros [= _ <-]. apply Hf.
Qed.
End frame.

End keeps.

Notation lawful := (keeps law).

Lemma lawful_body_ok `{Sha256} {A} (body : op A) : lawful body -> body_ok body.
Proof. by intros Hl c a c' [? _]%Hl. Qed.

Create HintDb keeps.
#[export] Hint Resolve keeps_exec law_exec law_next_counter statement_update_lease statement_insert_lease
  statement_update_run statement_update_environment statement_changed
  frame_update_lease frame_insert_lease frame_update_run frame_update_environment frame_next_counter : keeps.
#[export] Hint Extern 3 (keeps _ (mint _ _ _)) => (apply keeps_mint; [apply _|]) : keeps.

(** Takes a body apart. *)
Ltac keeps_mint := apply keeps_bind_mint; [apply _|solve [eauto 4 with keeps]|intros ? ?].
Ltac keeps_step :=
  lazymatch goal with
  | |- keeps _ (and_then (run_id _) _) => keeps_mint
  | |- keeps _ (and_then (cap_id _) _) => keeps_mint
  | |- keeps _ (and_then (invocation_id _) _) => keeps_mint
  | |- keeps _ (and_then (process_id _) _) => keeps_mint
  | |- keeps _ (and_then (environment_id _) _) => keeps_mint
  | |- keeps _ (and_then _ _) => apply keeps_bind; [apply _| |intros ?]
  | |- keeps _ (done _) => apply keeps_done; apply _
  | |- keeps _ (fail _) => apply keeps_fail
  | |- keeps _ (from _) => apply keeps_from; apply _
  | |- keeps _ (select _) => apply keeps_select; apply _
  | |- keeps _ (for_each _ _) => apply keeps_for_each; [apply _|intros ? _]
  | |- keeps _ (texts _) => apply keeps_texts; apply _
  | |- keeps _ now => apply keeps_now; apply _
  | |- keeps _ (exec _) => solve [eauto 5 with keeps]
  | |- keeps _ (exec_ _) => unfold exec_; solve [eauto 5 with keeps]
  | |- keeps law (Work.audit _ _) => apply law_audit; eauto 20 with fields
  | |- keeps (on_data _) (Work.audit _ _) => apply keeps_audit; apply _
  | |- keeps _ (match _ with _ => _ end) => case_match
  | |- keeps _ (let _ := _ in _) => intros ?
  | |- keeps _ _ => progress (eauto 2 with keeps)
  end.

Ltac keeps := repeat (cbv zeta; keeps_step).

(** * Records *)

Lemma state_Utf8 s : Utf8 (EnvironmentState.as_str s).
Proof. apply (vocabulary_Utf8 EnvironmentState.ALL EnvironmentState.as_str). by vm_compute. Qed.

Lemma level_Utf8 l : Utf8 (level l).
Proof. apply (vocabulary_Utf8 AssuranceLevel.ALL AssuranceLevel.as_str). by vm_compute. Qed.

Lemma invariant_Utf8 i : Utf8 (SandboxInvariant.as_str i).
Proof. apply (vocabulary_Utf8 SandboxInvariant.ALL SandboxInvariant.as_str). by vm_compute. Qed.

Lemma disposition_Utf8 i : Utf8 (EgressDisposition.as_str i).
Proof. apply (vocabulary_Utf8 EgressDisposition.ALL EgressDisposition.as_str). by vm_compute. Qed.

Lemma id_Utf8_env (i : EnvironmentId) : id_ok i -> Utf8 (Id.as_str i).
Proof. apply id_Utf8. by apply Utf8_all_ascii. Qed.

Lemma id_Utf8_run (i : RunId) : id_ok i -> Utf8 (Id.as_str i).
Proof. apply id_Utf8. by apply Utf8_all_ascii. Qed.

Lemma id_Utf8_inv (i : InvocationId) : id_ok i -> Utf8 (Id.as_str i).
Proof. apply id_Utf8. by apply Utf8_all_ascii. Qed.

Lemma id_Utf8_ses (i : SessionId) : id_ok i -> Utf8 (Id.as_str i).
Proof. apply id_Utf8. by apply Utf8_all_ascii. Qed.

#[export] Hint Resolve state_Utf8 level_Utf8 invariant_Utf8 disposition_Utf8 id_Utf8_env id_Utf8_run
  id_Utf8_inv id_Utf8_ses : fields.

Lemma ids_ok environment run : id_ok environment -> id_ok run -> fields_ok (ids environment run).
Proof. intros He Hr. unfold ids. eauto 10 with fields. Qed.

Lemma invariants_ok f key l : fields_ok f -> Utf8 key -> fields_ok (Fields.list f key (invariants l)).
Proof.
  intros Hf Hk. unfold invariants. rewrite <- (map_map SandboxInvariant.as_str Field.Text).
  apply fields_ok_texts; [done..|]. apply Forall_forall. intros s Hs.
  apply list_elem_of_In, in_map_iff in Hs as (i & <- & _). apply invariant_Utf8.
Qed.

#[export] Hint Resolve ids_ok invariants_ok : fields.

Lemma judged_ok f j : fields_ok f -> fields_ok (judged f j).
Proof. intros Hf. unfold judged. eauto 20 with fields. Qed.

Lemma container_Utf8 s c : ContainerRef.new s = Some c -> Utf8 (ContainerRef.as_str c).
Proof.
  unfold ContainerRef.new. intros [H <-]%then_some_Some. cbn.
  apply andb_true_iff in H as [_ H]. apply Utf8_all_ascii.
  apply (implies_ascii (fun b => is_digit b || in_range 97 102 b)); [by vm_compute|done].
Qed.

#[export] Hint Resolve judged_ok : fields.

Definition container_ok (c : option ContainerRef.t) : Prop :=
  forall r, c = Some r -> Utf8 (ContainerRef.as_str r).

Definition record_ok (r : EnvironmentRecord.t) : Prop :=
  id_ok (EnvironmentRecord.environment r) /\ id_ok (EnvironmentRecord.run r) /\
  container_ok (EnvironmentRecord.container r).

Lemma record_of_Ok key row r :
  record_of (key, row) = Ok r ->
  record_ok r /\ Id.as_str (EnvironmentRecord.environment r) = key /\
  Id.as_str (EnvironmentRecord.run r) = EnvironmentRow.run_id row /\
  EnvironmentState.as_str (EnvironmentRecord.state r) = EnvironmentRow.state row /\
  ContainerRef.as_str <$> EnvironmentRecord.container r = EnvironmentRow.container row.
Proof.
  unfold record_of. destruct (Id.parse "env" key) as [env|] eqn:Ee; [|done]. cbn [ok_or].
  destruct (Id.parse "run" _) as [run|] eqn:Er; [|done]. cbn [ok_or].
  destruct (EnvironmentState.parse _) as [st|] eqn:Es; [|done]. cbn [ok_or].
  apply parse_id_ok in Ee as [? Ee], Er as [? Er]. apply find_spelling_Some in Es; [|apply _].
  destruct (EnvironmentRow.container row) as [c|].
  - destruct (ContainerRef.new c) as [cr|] eqn:Ec; [|done]. cbn [ok_or].
    destruct (find_spelling _ _ _); [|done]. cbn [ok_or]. destruct (u64_of _); [|done]. cbn [ok_or].
    intros [= <-]. unfold record_ok. split_and!; try done.
    + intros x [= <-]. by eapply container_Utf8.
    + cbn. unfold ContainerRef.new in Ec. by apply then_some_Some in Ec as [_ <-].
  - destruct (find_spelling _ _ _); [|done]. cbn [ok_or]. destruct (u64_of _); [|done]. cbn [ok_or].
    intros [= <-]. unfold record_ok. by split_and!.
Qed.

Section bodies.
  Context `{Sha256} (process : Process.t).

Lemma record_result environment c r c' :
  record environment c = Ok (Some r, c') ->
  c' = c /\ record_ok r /\ EnvironmentRecord.environment r = environment.
Proof.
  unfold record, and_then, select. destruct (_ !! _) as [row|]; [|done]. unfold from.
  destruct (record_of _) as [r'|] eqn:E; [|done]. intros [= <- <-].
  apply record_of_Ok in E as (Hr & Ek & _). split; [done|]. split; [done|].
  destruct (EnvironmentRecord.environment r'), environment. cbn in Ek. by subst.
Qed.

Lemma lawful_record environment : lawful (record environment : op _).
Proof. unfold record. keeps. Qed.

Lemma lawful_begin_recorded environment reason r :
  Utf8 reason -> id_ok environment -> record_ok r -> lawful (begin_recorded process environment reason r).
Proof. intros Hr He (_ & Hrun & _). unfold begin_recorded. keeps. Qed.

#[local] Hint Resolve lawful_begin_recorded : keeps.

Lemma lawful_begin_destroy environment reason :
  Utf8 reason -> id_ok environment -> lawful (begin_destroy process environment reason).
Proof.
  intros Hr He. apply keeps_bind_of; [apply _|apply lawful_record|]. intros [r|] c c' E; [|keeps].
  apply record_result in E as (_ & Hrec & _). case_match; keeps.
Qed.

Lemma keys_where_elem where_ d key :
  key ∈ keys_where where_ d <-> exists r, Db.environment d !! key = Some r /\ where_ r = true.
Proof.
  unfold keys_where. rewrite sort_perm, list_elem_of_fmap. split.
  - intros ([k r] & -> & Hin). apply list_elem_of_In, filter_In in Hin as [Hin Hw].
    apply list_elem_of_In, elem_of_map_to_list in Hin. eauto.
  - intros (r & Hk & Hw). exists (key, r). split; [done|]. apply list_elem_of_In, filter_In.
    split; [|done]. by apply list_elem_of_In, elem_of_map_to_list.
Qed.

Lemma lawful_begin_destroy_key reason key : Utf8 reason -> lawful (begin_destroy_key process reason key).
Proof.
  intros Hr. apply keeps_bind_of; [apply _|apply keeps_from; apply _|]. intros env c c' E.
  apply lawful_begin_destroy; [done|]. unfold from in E.
  destruct (Id.parse "env" key) as [i|] eqn:Ei; [|done]. injection E as <- _.
  by apply parse_id_ok in Ei as [? _].
Qed.

#[local] Hint Resolve lawful_begin_destroy_key : keeps.

Lemma lawful_begin_run_end run reason : Utf8 reason -> lawful (begin_run_end process run reason).
Proof. intros Hr. unfold begin_run_end. keeps. Qed.

Lemma lawful_begin_reaped_at_start : lawful (begin_reaped_at_start process).
Proof. assert (Utf8 "REAPED") by by apply Utf8_all_ascii. unfold begin_reaped_at_start. keeps. Qed.

Lemma lawful_end_with_its_run environment run :
  id_ok environment -> lawful (end_with_its_run process environment run).
Proof.
  intros He. unfold end_with_its_run. assert (Utf8 "RUN_ENDED") by by apply Utf8_all_ascii.
  pose proof (lawful_begin_destroy environment "RUN_ENDED").
  pose proof (lawful_record environment). keeps.
Qed.

(** Destructions touch environments and the id counter alone. *)
Section frame.
  Context {A : Type} (f : Db.t -> A) (frame_environment : forall d e, f (Db.with_environment d e) = f d)
    (frame_meta : forall d m, f (Db.with_meta d m) = f d).

#[local] Hint Resolve frame_environment frame_meta : keeps.

Lemma frame_record environment : keeps (on_data (frame f)) (record environment).
Proof. unfold record. keeps. Qed.

#[local] Hint Resolve frame_record : keeps.

Lemma frame_begin_recorded environment reason r :
  keeps (on_data (frame f)) (begin_recorded process environment reason r).
Proof. unfold begin_recorded. keeps. Qed.

#[local] Hint Resolve frame_begin_recorded : keeps.

Lemma frame_begin_destroy environment reason :
  keeps (on_data (frame f)) (begin_destroy process environment reason).
Proof. unfold begin_destroy. keeps. Qed.

#[local] Hint Resolve frame_begin_destroy : keeps.

Lemma frame_begin_destroy_key reason key : keeps (on_data (frame f)) (begin_destroy_key process reason key).
Proof. unfold begin_destroy_key. keeps. Qed.

#[local] Hint Resolve frame_begin_destroy_key : keeps.

Lemma frame_begin_run_end run reason : keeps (on_data (frame f)) (begin_run_end process run reason).
Proof. unfold begin_run_end. keeps. Qed.

Lemma frame_begin_reaped_at_start : keeps (on_data (frame f)) (begin_reaped_at_start process).
Proof. unfold begin_reaped_at_start. keeps. Qed.

Lemma frame_end_with_its_run environment run :
  keeps (on_data (frame f)) (end_with_its_run process environment run).
Proof. unfold end_with_its_run. keeps. Qed.
End frame.

(** ** Outcomes *)

Definition prepared_ok (prepared : Prepared.t) : Prop :=
  match prepared with
  | Prepared.Ready container _ => Utf8 (ContainerRef.as_str container)
  | Prepared.Refused reason _ | Prepared.Unknown _ reason => Utf8 reason
  | Prepared.Unusable container reason _ => Utf8 (ContainerRef.as_str container) /\ Utf8 reason
  end.

Lemma lawful_now_sql : lawful now_sql.
Proof. unfold now_sql. keeps. Qed.

Lemma judged_maybe f j : fields_ok f -> fields_ok (match j with Some j => judged f j | None => f end).
Proof. intros Hf. destruct j; [by apply judged_ok|done]. Qed.

#[local] Hint Resolve lawful_now_sql judged_maybe : keeps.
#[local] Hint Resolve judged_maybe : fields.

Lemma lawful_record_prepared environment run prepared timing :
  id_ok environment -> id_ok run -> prepared_ok prepared -> fields_ok timing ->
  lawful (record_prepared environment run prepared timing).
Proof.
  intros He Hr Hp Ht. unfold record_prepared. apply keeps_bind; [apply _|keeps|]. intros ms.
  apply keeps_bind; [apply _| |intros n; case_match; keeps].
  destruct prepared as [c j|reason j|c reason|c reason j]; cbn in Hp; [| | |destruct Hp]; keeps.
Qed.

Lemma lawful_record_outcome environment run prepared timing :
  id_ok environment -> id_ok run -> prepared_ok prepared -> fields_ok timing ->
  lawful (record_outcome process environment run prepared timing).
Proof.
  intros. apply keeps_bind; [apply _|by apply lawful_record_prepared|]. intros.
  by apply lawful_end_with_its_run.
Qed.

Definition ending_ok (ending : DestroyEnding.t) : Prop :=
  match ending with
  | DestroyEnding.Gone container _ _ => container_ok container
  | DestroyEnding.Pending reason => Utf8 reason
  end.

Lemma container_fields f container :
  fields_ok f -> container_ok container -> fields_ok (Fields.maybe_text f "container" (ContainerRef.as_str <$> container)).
Proof.
  intros Hf Hc. destruct container as [c|]; [|done].
  apply fields_ok_text; [done|by apply Utf8_all_ascii|by apply Hc].
Qed.

Lemma egress_fields_ok f counters : fields_ok f -> fields_ok (egress_fields f counters).
Proof.
  intros Hf. unfold egress_fields. apply fields_ok_int; [|by apply Utf8_all_ascii].
  apply fields_ok_int; [|by apply Utf8_all_ascii].
  rewrite <- (map_map (fun c => EgressDisposition.as_str c.1 +:+ "=" +:+ show_N c.2) Field.Text).
  apply fields_ok_texts; [done|by apply Utf8_all_ascii|]. apply Forall_forall.
  intros s (c & <- & _)%list_elem_of_In%in_map_iff.
  apply Utf8_app; [apply disposition_Utf8|]. apply Utf8_app; [by apply Utf8_all_ascii|apply show_N_Utf8].
Qed.

Lemma coalesce_container a b : container_ok a -> container_ok b -> container_ok (coalesce a b).
Proof. by destruct a. Qed.

#[local] Hint Resolve container_fields egress_fields_ok coalesce_container : fields.

Lemma lawful_record_destroyed r ending timing :
  record_ok r -> ending_ok ending -> fields_ok timing -> lawful (record_destroyed r ending timing).
Proof.
  intros (He & Hr & Hc) Hend Ht. unfold record_destroyed. apply keeps_bind; [apply _|keeps|]. intros ms.
  destruct ending as [c already egress|reason]; cbn in Hend; [|keeps]. keeps.
  apply fields_ok_extend; [|done]. destruct egress; eauto 20 with fields.
Qed.

Lemma lawful_record_measured r judgement timing :
  record_ok r -> fields_ok timing -> lawful (record_measured r judgement timing).
Proof. intros (He & Hr & _) Ht. unfold record_measured. keeps. Qed.

Lemma lawful_record_drifted r reason judgement :
  record_ok r -> Utf8 reason -> lawful (record_drifted r reason judgement).
Proof. intros (He & Hr & _) Ht. unfold record_drifted. keeps. Qed.

Lemma lawful_record_lost r : record_ok r -> lawful (record_lost r).
Proof.
  intros (He & Hr & _). unfold record_lost. apply keeps_bind; [apply _|keeps|]. intros ms.
  case_match; keeps.
Qed.

Lemma lawful_reconcile_open : lawful reconcile_open.
Proof.
  unfold reconcile_open. apply keeps_bind; [apply _|keeps|]. intros keys. apply keeps_bind; [apply _|keeps|].
  intros runs. apply keeps_bind_of; [apply _|keeps|]. intros found c c' (-> & _ & Hk)%texts_Ok.
  apply keeps_bind_of; [apply _|keeps|]. intros runs' d d' (-> & _ & Hr)%texts_Ok.
  apply keeps_bind; [apply _| |intros; keeps]. apply keeps_for_each; [apply _|]. intros [key run] Hin.
  apply list_elem_of_In in Hin. rewrite Forall_forall in Hk, Hr.
  pose proof (Hk key (proj2 (list_elem_of_In _ _) (in_combine_l _ _ _ _ Hin))).
  pose proof (Hr run (proj2 (list_elem_of_In _ _) (in_combine_r _ _ _ _ Hin))). keeps.
Qed.
End bodies.

#[export] Hint Resolve lawful_begin_run_end lawful_begin_reaped_at_start lawful_record : keeps.
