(* ===== verification/LeaseFacts.v ===== *)
(** What the operations on leases keep, and what a fence says of the row it
    read. *)

From Stdlib Require Import ZArith.
From S2P Require Export WorkFacts Lease.

Lemma operation_Utf8 o : Utf8 (RefusedOperation.as_str o).
Proof. apply (vocabulary_Utf8 RefusedOperation.ALL RefusedOperation.as_str). by vm_compute. Qed.

Lemma reason_Utf8 r : Utf8 (RefusalReason.as_str r).
Proof. apply (vocabulary_Utf8 RefusalReason.ALL RefusalReason.as_str). by vm_compute. Qed.

#[export] Hint Resolve operation_Utf8 reason_Utf8 : fields.

Lemma refusal_fields_ok caller operation reason session epoch :
  id_ok session -> fields_ok (refusal_fields caller operation reason session epoch).
Proof. intros Hs. unfold refusal_fields. case_match; eauto 20 with fields. Qed.

Lemma caller_fields_ok caller session : id_ok session -> fields_ok (caller_fields caller session).
Proof. intros Hs. unfold caller_fields. eauto 20 with fields. Qed.

#[export] Hint Resolve refusal_fields_ok caller_fields_ok : fields.

(** ** Lawful bodies *)

Section bodies.
  Context `{Sha256} (process : Process.t).

Lemma lawful_load session : lawful (load session).
Proof. unfold load. keeps. Qed.

#[local] Hint Resolve lawful_load : keeps.

Lemma lawful_fence caller session epoch : lawful (fence caller session epoch).
Proof. unfold fence. keeps. Qed.

Lemma lawful_refuse {A} event caller operation reason session epoch :
  id_ok session -> lawful (refuse event caller operation reason session epoch : op (Reply.t A)).
Proof. intros Hs. unfold refuse. keeps. Qed.

#[local] Hint Resolve lawful_fence lawful_refuse : keeps.

Lemma lawful_reap session below cause :
  id_ok session -> Utf8 cause -> lawful (reap process session below cause).
Proof.
  intros Hs Hc. unfold reap. assert (Utf8 "REAPED") by by apply Utf8_all_ascii.
  do 4 (apply keeps_bind; [apply _|by keeps|intros ?]). apply keeps_bind_of; [apply _|keeps|]. intros runs c c' (-> & _ & Hr)%texts_Ok.
  apply keeps_bind; [apply _| |intros; keeps]. apply keeps_for_each; [apply _|]. intros run Hin.
  rewrite Forall_forall in Hr. apply Hr in Hin. unfold reap_run. keeps.
Qed.

#[local] Hint Resolve lawful_reap : keeps.

Lemma next_tenure_Utf8 current caller now epoch prior :
  next_tenure current caller now = Ok (Some (epoch, prior)) -> Utf8 prior.
Proof.
  unfold next_tenure. intros E. repeat case_match; simplify_eq/=; by apply Utf8_all_ascii.
Qed.

Lemma lawful_acquire caller session ttl : id_ok session -> lawful (acquire process caller session ttl).
Proof.
  intros Hs. unfold acquire. assert (Utf8 "lease_reacquired") by by apply Utf8_all_ascii.
  apply keeps_bind; [apply _|keeps|]. intros ms. destruct (holder_pair caller) as [inc conn].
  apply keeps_bind; [apply _|keeps|]. intros current. apply keeps_bind_of; [apply _|keeps|].
  intros decided c c' E. destruct decided as [[epoch prior]|]; [|keeps].
  assert (Utf8 prior).
  { unfold from in E. destruct (next_tenure _ _ _) eqn:En; [|done]. injection E as -> _.
    by eapply next_tenure_Utf8. }
  keeps.
Qed.

Lemma lawful_heartbeat caller session epoch ttl :
  id_ok session -> lawful (heartbeat caller session epoch ttl).
Proof. intros Hs. unfold heartbeat. keeps. Qed.

Lemma lawful_release caller session epoch : id_ok session -> lawful (release process caller session epoch).
Proof.
  intros Hs. unfold release. assert (Utf8 "lease_released") by by apply Utf8_all_ascii. keeps.
Qed.

Lemma lawful_invalidate_all : lawful invalidate_all.
Proof. unfold invalidate_all. keeps. Qed.

Lemma lawful_release_admission caller session run epoch :
  id_ok session -> id_ok run -> lawful (release_admission caller session run epoch).
Proof. intros Hs Hr. unfold release_admission. keeps. Qed.

#[local] Hint Resolve lawful_release_admission : keeps.

Lemma lawful_release_run caller session run epoch :
  id_ok session -> id_ok run -> lawful (release_run process caller session run epoch).
Proof.
  intros Hs Hr. assert (Utf8 "RELEASED") by by apply Utf8_all_ascii. unfold release_run. keeps.
Qed.
End bodies.

(** ** Fences and tenures *)

Lemma to_sql_Ok v z : to_sql v = Ok z -> z = Z.of_N v.
Proof. unfold to_sql, i64_of. destruct (_ <=? _)%Z; [|done]. by intros [= <-]. Qed.

Lemma to_sql_next n z : to_sql (saturating_add n 1) = Ok z -> saturating_add n 1 = (n + 1)%N.
Proof.
  unfold to_sql, i64_of, saturating_add. destruct (Z.leb_spec (Z.of_N (N.min (n + 1) U64_MAX)) I64_MAX) as [Hle|]; [|done].
  intros _. assert (I64_MAX < Z.of_N U64_MAX)%Z by done. lia.
Qed.

Lemma u64_of_Some z n : u64_of z = Some n -> z = Z.of_N n.
Proof. unfold u64_of. case_match eqn:E; [done|]. apply Z.ltb_ge in E. intros [= <-]. lia. Qed.

Lemma u64_of_of_N n : u64_of (Z.of_N n) = Some n.
Proof. unfold u64_of. rewrite (proj2 (Z.ltb_ge _ _)) by lia. by rewrite N2Z.id. Qed.

Lemma pair_Some a b i c :
  Lease.pair a b = Some (i, c) <-> a = Some (Z.of_N i) /\ b = Some (Z.of_N c).
Proof.
  unfold Lease.pair. split.
  - intros (x & -> & (n & En & (y & -> & (m & Em & [= -> ->])%bind_Some)%bind_Some)%bind_Some)%bind_Some.
    apply u64_of_Some in En, Em. by subst.
  - intros [-> ->]. cbn. rewrite u64_of_of_N. cbn. by rewrite u64_of_of_N.
Qed.

Lemma of_row_Ok r l :
  Lease.of_row r = Ok l ->
  LeaseRow.epoch r = Z.of_N (Lease.epoch l) /\ Lease.state l = LeaseRow.state r /\
  Lease.holder_subject l = LeaseRow.holder_subject r /\
  Lease.holder l = Lease.pair (LeaseRow.holder_incarnation r) (LeaseRow.holder_connection r) /\
  Lease.expires_ms l = LeaseRow.expires_ms r ≫= u64_of /\
  Lease.last_holder l = Lease.pair (LeaseRow.last_holder_incarnation r) (LeaseRow.last_holder_connection r).
Proof.
  unfold Lease.of_row. destruct (u64_of _) as [e|] eqn:E; [|done]. cbn. intros [= <-].
  apply u64_of_Some in E. by split_and!.
Qed.

(** A row holds a lease for a holder at an epoch. *)
Definition held_by (holder : N * N) (epoch : N) (r : LeaseRow.t) : Prop :=
  LeaseRow.state r = "HELD" /\ LeaseRow.epoch r = Z.of_N epoch /\
  LeaseRow.holder_incarnation r = Some (Z.of_N holder.1) /\
  LeaseRow.holder_connection r = Some (Z.of_N holder.2).

Lemma held_by_inj h h' e r : held_by h e r -> held_by h' e r -> h = h'.
Proof. destruct h, h'. intros (_ & _ & E1 & E2) (_ & _ & E3 & E4). cbn in *. f_equal; congruence || (simplify_eq; lia). Qed.

(** A later row at the same epoch is held by the same holder; a row at an
    earlier epoch there is not. *)
Lemma held_by_later h e h' e' r r' :
  lease_evolves r r' -> held_by h e r -> held_by h' e' r' -> (e <= e')%N /\ (e = e' -> h = h').
Proof.
  intros [Hle Hsame] Hr Hr'. pose proof Hr as (Hs & He & Hi & Hc). pose proof Hr' as (Hs' & He' & Hi' & Hc').
  split; [lia|]. intros <-. destruct (Hsame ltac:(congruence) Hs') as (_ & Ei & Ec).
  apply (held_by_inj _ _ e r); [done|]. split_and!; congruence.
Qed.

Section fences.
  Context `{Sha256} (process : Process.t).
  Implicit Types (c : Work.t Db.t).

Lemma load_lease_Ok session c l c' :
  load session c = Ok (l, c') ->
  c' = c /\ match Db.session_lease (Work.data c) !! Id.as_str session with
            | Some row => exists lease, Lease.of_row row = Ok lease /\ l = Some lease
            | None => l = None
            end.
Proof.
  intros (row & c2 & [= <- <-] & E)%and_then_Ok. case_match; [|by injection E as <- <-].
  apply and_then_Ok in E as (lease & c3 & [E ->]%from_Ok & [= <- <-]). eauto.
Qed.

Lemma fence_Ok caller session epoch c b c' :
  fence caller session epoch c = Ok (b, c') ->
  c' = c /\
  (b = true -> exists row, Db.session_lease (Work.data c) !! Id.as_str session = Some row /\
     held_by (holder_pair caller) (Epoch.get epoch) row /\
     LeaseRow.holder_subject row = Some (AuthenticatedSubject.storage_key (CallerContext.subject caller)) /\
     exists t, LeaseRow.expires_ms row = Some t /\ (Z.of_N (Work.now c) < t)%Z).
Proof.
  intros (l & c2 & [-> El]%load_lease_Ok & (ms & c3 & [= <- <-] & [= <- <-])%and_then_Ok)%and_then_Ok.
  split; [done|]. destruct (_ !! _) as [row|]; [|by subst]. destruct El as (lease & El & ->). cbn.
  apply of_row_Ok in El as (Ee & Es & Esub & Eh & Ex & _). unfold fenced_ok.
  rewrite !andb_true_iff, !bool_decide_eq_true. intros [[[[Hs%String.eqb_eq He%N.eqb_eq] Hh] Hsub] Hx].
  exists row. split; [done|]. rewrite Eh in Hh. destruct (holder_pair caller) as [i k] eqn:Ep.
  apply pair_Some in Hh as [Hi Hc]. split; [|split].
  - split_and!; [by rewrite <- Es|by rewrite Ee, He|done|done].
  - by rewrite <- Esub.
  - rewrite Ex in Hx. destruct (LeaseRow.expires_ms row) as [t|]; [|done]. cbn in Hx.
    destruct (u64_of t) as [x|] eqn:Et; [|done]. apply u64_of_Some in Et as ->. cbn in Hx.
    apply N.ltb_lt in Hx. exists (Z.of_N x). split; [done|lia].
Qed.

Lemma Epoch_new_Some n e : Epoch.new n = Some e -> Epoch.get e = n.
Proof. unfold Epoch.new. by intros [_ <-]%then_some_Some. Qed.

Lemma next_tenure_Some lease caller now epoch prior :
  next_tenure (Some lease) caller now = Ok (Some (epoch, prior)) -> (Lease.epoch lease < epoch)%N.
Proof.
  unfold next_tenure. case_match; [done|]. case_match eqn:E; [done|]. apply N.leb_gt in E.
  intros [= <- _]. unfold saturating_add, MAX_EPOCH, Epoch.MAX, U64_MAX in *. lia.
Qed.

Lemma frame_reap {A} (f : Db.t -> A) session below cause :
  (forall d e, f (Db.with_environment d e) = f d) -> (forall d m, f (Db.with_meta d m) = f d) ->
  (forall d r, f (Db.with_run d r) = f d) -> keeps (on_data (frame f)) (reap process session below cause).
Proof. intros He Hm Hr. pose proof @frame_begin_run_end. unfold reap, reap_run. keeps. Qed.

(** The row of a new tenure. *)
Definition tenure_row (caller : CallerContext.t) (epoch expires : N) (last : option Z * option Z) : LeaseRow.t :=
  LeaseRow.Make (Z.of_N epoch) "HELD"
    (Some (AuthenticatedSubject.storage_key (CallerContext.subject caller)))
    (Some (Z.of_N (holder_pair caller).1)) (Some (Z.of_N (holder_pair caller).2))
    (Some (Z.of_N expires)) last.1 last.2.

(** How a tenure is written: where there was a row, and where there was none. *)
Definition tenure_written (session : SessionId) caller epoch expires (current : option Lease.t)
    (c : Work.t Db.t) (t : Teardown) (d' : Db.t) : Prop :=
  match current with
  | None => insert_lease (Id.as_str session) (tenure_row caller epoch expires (None, None)) (Work.data c) = Ok d'
  | Some _ =>
      exists keys d c2,
        update_lease (the_session session) (fun r => tenure_row caller epoch expires
          (LeaseRow.last_holder_incarnation r, LeaseRow.last_holder_connection r)) (Work.data c) = Ok (keys, d) /\
        reap process session epoch "lease_reacquired" (Work.Make (Work.tx c) d (Work.now c) (Work.last_seq c)) = Ok (t, c2) /\
        d' = Work.data c2
  end.

(** What an acquisition that answers did. *)
Lemma acquire_Ok caller session ttl c reply td c' :
  acquire process caller session ttl c = Ok ((reply, td), c') ->
  exists current decided,
    load session c = Ok (current, c) /\ next_tenure current caller (Work.now c) = Ok decided /\
    match decided with
    | None => reply = Reply.Refused RefusalReason.LeaseHeld /\ Work.data c' = Work.data c
    | Some (epoch, _) => exists e, reply = Reply.Done e /\ Epoch.get e = epoch /\
        tenure_written session caller epoch (saturating_add (Work.now c) ttl) current c td (Work.data c')
    end.
Proof.
  unfold acquire. destruct (holder_pair caller) as [inc conn] eqn:Eh.
  intros (ms & c1 & [= <- <-] & (cur & c2 & El & (dec & c3 & [Ed ->]%from_Ok & E)%and_then_Ok)%and_then_Ok)%and_then_Ok.
  pose proof El as [-> _]%load_lease_Ok. exists cur, dec. split_and!; [done..|]. destruct dec as [[epoch prior]|].
  2:{ apply and_then_Ok in E as (r & c4 & (u & c5 & [Ea _]%audit_Ok & [= <- <-])%and_then_Ok & [= <- _ <-]).
      split; [done|exact Ea]. }
  apply and_then_Ok in E as (ez & c4 & [->%to_sql_Ok ->]%from_Ok & E).
  apply and_then_Ok in E as (iz & c4 & [->%to_sql_Ok ->]%from_Ok & E).
  apply and_then_Ok in E as (kz & c4 & [->%to_sql_Ok ->]%from_Ok & E).
  apply and_then_Ok in E as (xz & c4 & [->%to_sql_Ok ->]%from_Ok & E).
  apply and_then_Ok in E as (t & c4 & Et & (u & c5 & [Ea _]%audit_Ok & E)%and_then_Ok).
  destruct (Epoch.new epoch) as [e|] eqn:Ee; [|done]. injection E as <- <- <-. exists e.
  apply Epoch_new_Some in Ee. split_and!; [done..|]. rewrite Ea. unfold tenure_written, tenure_row.
  rewrite Eh. destruct cur as [lease|].
  - apply and_then_Ok in Et as (ks & c6 & (d & Eu & ->)%exec_Ok & Er). by exists ks, d, c4.
  - by apply and_then_Ok in Et as (u' & c6 & (d & Eu & ->)%exec__Ok & [= _ <-]).
Qed.

(** An update of the row of one session. *)
Lemma update_session_Ok (session : SessionId) set_ d keys d' :
  update_lease (the_session session) set_ d = Ok (keys, d') ->
  Db.run d' = Db.run d /\ Db.environment d' = Db.environment d /\
  Db.session_lease d' !! Id.as_str session = set_ <$> Db.session_lease d !! Id.as_str session /\
  forall k, k <> Id.as_str session -> Db.session_lease d' !! k = Db.session_lease d !! k.
Proof.
  unfold update_lease. destruct (update _ _ _ _) as [[rows ks]|] eqn:E; [|done]. intros [= _ <-].
  split_and!; [done..| |]; cbn.
  - rewrite (update_rows _ _ _ _ _ _ _ E). unfold set_where, the_session. by rewrite String.eqb_refl.
  - intros k Hk. rewrite (update_rows _ _ _ _ _ _ _ E). unfold set_where, the_session.
    destruct (String.eqb_spec k (Id.as_str session)); [done|]. by destruct (_ !! k).
Qed.

Lemma insert_lease_Ok k row d d' :
  insert_lease k row d = Ok d' ->
  Db.session_lease d !! k = None /\ Db.session_lease d' = <[k := row]> (Db.session_lease d) /\
  Db.run d' = Db.run d /\ Db.environment d' = Db.environment d.
Proof.
  unfold insert_lease. destruct (insert_row _ _ _ _) as [rows|] eqn:E; [|done]. intros [= <-].
  by apply insert_row_Ok in E as (? & _ & ->).
Qed.

(** The row that tenure leaves, and the others' as they were. *)
Lemma tenure_written_row session caller epoch expires current c t d' :
  load session c = Ok (current, c) -> tenure_written session caller epoch expires current c t d' ->
  (exists last, Db.session_lease d' !! Id.as_str session = Some (tenure_row caller epoch expires last)) /\
  forall k, k <> Id.as_str session -> Db.session_lease d' !! k = Db.session_lease (Work.data c) !! k.
Proof.
  intros [_ El]%load_lease_Ok. destruct current as [lease|]; cbn.
  - intros (keys & d & c2 & (_ & _ & Es & Eo)%update_session_Ok & Er & ->).
    apply (frame_reap Db.session_lease) in Er; [|done..]. red in Er. cbn in Er. rewrite Er. split; [|exact Eo].
    destruct (_ !! _) as [row|]; [|done]. rewrite Es. by eexists.
  - intros (_ & -> & _)%insert_lease_Ok. split; [eexists; by rewrite lookup_insert_eq|].
    intros k Hk. by rewrite lookup_insert_ne.
Qed.

(** A lease acquired is held by the caller, at an epoch above the last. *)
Lemma acquire_Done caller session ttl c e td c' :
  acquire process caller session ttl c = Ok ((Reply.Done e, td), c') ->
  exists row', Db.session_lease (Work.data c') !! Id.as_str session = Some row' /\
    held_by (holder_pair caller) (Epoch.get e) row' /\
    (forall row, Db.session_lease (Work.data c) !! Id.as_str session = Some row ->
       (LeaseRow.epoch row < Z.of_N (Epoch.get e))%Z).
Proof.
  intros (cur & dec & El & Ed & H1)%acquire_Ok. destruct dec as [[epoch prior]|]; [|by destruct H1 as [[=] _]].
  destruct H1 as (e' & [= <-] & <- & [[last Hrow] _]%tenure_written_row); [|done].
  eexists. split_and!; [exact Hrow|by split_and!|]. intros row Hr.
  apply load_lease_Ok in El as [_ El]. rewrite Hr in El. destruct El as (lease & Er & ->).
  apply of_row_Ok in Er as (-> & _). apply next_tenure_Some in Ed. lia.
Qed.

(** What a heartbeat that answers did. *)
Lemma heartbeat_Ok caller session epoch ttl c reply c' :
  heartbeat caller session epoch ttl c = Ok (reply, c') ->
  exists lease, load session c = Ok (lease, c) /\
    if is_some_and lease (fun l => fenced_ok l caller (Epoch.get epoch) (Work.now c))
    then reply = Reply.Done () /\ exists keys,
      update_lease (the_session session) (fun r =>
        LeaseRow.Make (LeaseRow.epoch r) (LeaseRow.state r) (LeaseRow.holder_subject r)
          (LeaseRow.holder_incarnation r) (LeaseRow.holder_connection r)
          (Some (Z.of_N (saturating_add (Work.now c) ttl)))
          (LeaseRow.last_holder_incarnation r) (LeaseRow.last_holder_connection r)) (Work.data c) =
      Ok (keys, Work.data c')
    else reply = Reply.Refused RefusalReason.StaleEpoch /\ Work.data c' = Work.data c.
Proof.
  intros (b & c1 & (l & c2 & El & (ms & c3 & [= <- <-] & [= <- <-])%and_then_Ok)%and_then_Ok & E)%and_then_Ok.
  pose proof El as [-> _]%load_lease_Ok. exists l. split; [done|].
  destruct (is_some_and _ _); cbn [negb] in E.
  - apply and_then_Ok in E as (ms & c1 & [= <- <-] & (x & c2 & [->%to_sql_Ok ->]%from_Ok & E)%and_then_Ok).
    apply and_then_Ok in E as (keys & c2 & (d & Eu & ->)%exec_Ok & [= <- <-]). eauto.
  - by apply and_then_Ok in E as (u & c5 & [Ea _]%audit_Ok & [= <- <-]).
Qed.

(** What a release that answers did. *)
Lemma release_Ok caller session epoch c reply td c' :
  release process caller session epoch c = Ok ((reply, td), c') ->
  exists lease, load session c = Ok (lease, c) /\
    if is_some_and lease (fun l => fenced_ok l caller (Epoch.get epoch) (Work.now c))
    then reply = Reply.Done () /\ exists l keys d c2, lease = Some l /\
      update_lease (the_session session) (fun r =>
        LeaseRow.Make (LeaseRow.epoch r) "RELEASED" None None None None
          (Some (Z.of_N (holder_pair caller).1)) (Some (Z.of_N (holder_pair caller).2))) (Work.data c) = Ok (keys, d) /\
      reap process session (saturating_add (Lease.epoch l) 1) "lease_released"
        (Work.Make (Work.tx c) d (Work.now c) (Work.last_seq c)) = Ok (td, c2) /\
      Work.data c' = Work.data c2
    else Work.data c' = Work.data c /\
      reply = if is_some_and lease (fun l => released_already l caller epoch) then Reply.Done ()
              else Reply.Refused RefusalReason.StaleEpoch.
Proof.
  intros (l & c1 & El & (ms & c2 & [= <- <-] & E)%and_then_Ok)%and_then_Ok.
  pose proof El as [-> _]%load_lease_Ok. exists l. split; [done|].
  assert (forall c'', (let* reply := refuse AuditEvent.LeaseRefused caller RefusedOperation.ReleaseLease
                    RefusalReason.StaleEpoch session (Some epoch) in done (reply, [])) c = Ok ((reply, td), c'') ->
     Work.data c'' = Work.data c /\ reply = Reply.Refused RefusalReason.StaleEpoch) as Hstale.
  { by intros c'' (r & c4 & (u & c5 & [Ea _]%audit_Ok & [= <- <-])%and_then_Ok & [= <- _ <-])%and_then_Ok. }
  destruct l as [lease|]; [|by apply Hstale]. cbn. destruct (fenced_ok _ _ _ _).
  - apply and_then_Ok in E as (? & ? & [->%to_sql_Ok ->]%from_Ok & E).
    apply and_then_Ok in E as (? & ? & [->%to_sql_Ok ->]%from_Ok & E).
    apply and_then_Ok in E as (keys & c1 & (d & Eu & ->)%exec_Ok & E).
    apply and_then_Ok in E as (t & c2 & Er & (u & c3 & [Ea _]%audit_Ok & [= <- <- <-])%and_then_Ok).
    split; [done|]. by exists lease, keys, d, c2.
  - destruct (released_already _ _ _); [|by apply Hstale]. by injection E as <- _ <-.
Qed.
End fences.
