(* ===== verification/SessionFacts.v ===== *)
(** Runs hold their session's lease, and ready environments an active run:
    what the operations keep of it. *)

From Stdlib Require Import ZArith.
From S2P Require Export LeaseFacts.

Definition is_ready (r : EnvironmentRow.t) : Prop := EnvironmentRow.state r = "READY".
Definition is_active (r : RunRow.t) : Prop := RunRow.state r = "ACTIVE".

(** No environment became ready. *)
Definition no_new_ready : relation Db.t := fun d d' =>
  forall k r, Db.environment d' !! k = Some r -> is_ready r -> Db.environment d !! k = Some r.

#[export] Instance no_new_ready_preorder : PreOrder no_new_ready.
Proof. split; [by intros d k r|]. intros a b c H1 H2 k r Hk Hr. apply H1; [by apply H2|done]. Qed.

(** No environment of a run, or no environment a condition takes, is ready. *)
Definition quiet (P : string -> EnvironmentRow.t -> Prop) (d : Db.t) : Prop :=
  forall k r, Db.environment d !! k = Some r -> P k r -> ~ is_ready r.

Lemma quiet_kept P d d' : no_new_ready d d' -> quiet P d -> quiet P d'.
Proof. intros Hn Hq k r Hk HP Hr. by apply (Hq k r); [apply Hn|..]. Qed.

Lemma ready_statement where_ set_ :
  (forall r, ~ is_ready (set_ r)) -> statement_keeps no_new_ready (update_environment where_ set_).
Proof.
  intros Hset d keys d'. unfold update_environment. destruct (update _ _ _ _) as [[rows ks]|] eqn:E; [|done].
  intros [= _ <-] k r. cbn. rewrite (update_rows _ _ _ _ _ _ k E).
  destruct (Db.environment d !! k) as [r0|]; [|done]. cbn. unfold set_where.
  intros [= <-]. case_match; [|done]. intros Hr. by destruct (Hset r0).
Qed.

Lemma ready_frame {A} (s : Db.t -> result (A * Db.t) SqlError.t) :
  statement_keeps (frame Db.environment) s -> statement_keeps no_new_ready s.
Proof. intros Hs d a d' E k r. by rewrite (Hs _ _ _ E). Qed.

(** What each body of a loop settles, all settle, when none unsettles it. *)
Lemma for_each_settles `{Sha256} (R : relation (Work.t Db.t)) {A B} (P : A -> Db.t -> Prop) (f : A -> op B) l c bs c' :
  (forall a, keeps R (f a)) -> (forall a c b c', f a c = Ok (b, c') -> P a (Work.data c')) ->
  (forall a c c', R c c' -> P a (Work.data c) -> P a (Work.data c')) -> `{PreOrder R} ->
  for_each f l c = Ok (bs, c') -> forall a, a ∈ l -> P a (Work.data c').
Proof.
  intros HR Hf HP Hpre. revert c bs. induction l as [|a l IH]; intros c bs; [by intros _ a ?%not_elem_of_nil|].
  cbn [for_each]. intros (b & c1 & E1 & (bs' & c2 & E2 & [= _ <-])%and_then_Ok)%and_then_Ok x [->|Hx]%elem_of_cons.
  - apply (HP _ c1); [|by eapply Hf]. by apply (keeps_for_each R f l (fun a _ => HR a) _ _ _ E2).
  - by eapply IH.
Qed.

Section ready.
  Context `{Sha256} (process : Process.t).

Lemma not_ready_destroying r c m e f t :
  ~ is_ready (set_columns r "DESTROYING" c m e f t).
Proof. done. Qed.

#[local] Hint Resolve ready_statement ready_frame not_ready_destroying : keeps.

Lemma ready_next_counter : statement_keeps no_new_ready next_counter.
Proof. apply ready_frame. by apply frame_next_counter. Qed.

#[local] Hint Resolve ready_next_counter : keeps.

Lemma ready_record environment : keeps (on_data no_new_ready) (record environment).
Proof. unfold record. keeps. Qed.

#[local] Hint Resolve ready_record : keeps.

Lemma ready_begin_recorded environment reason r :
  keeps (on_data no_new_ready) (begin_recorded process environment reason r).
Proof. unfold begin_recorded. keeps. Qed.

#[local] Hint Resolve ready_begin_recorded : keeps.

Lemma ready_begin_destroy environment reason :
  keeps (on_data no_new_ready) (begin_destroy process environment reason).
Proof. unfold begin_destroy. keeps. Qed.

#[local] Hint Resolve ready_begin_destroy : keeps.

Lemma ready_begin_destroy_key reason key : keeps (on_data no_new_ready) (begin_destroy_key process reason key).
Proof. unfold begin_destroy_key. keeps. Qed.

#[local] Hint Resolve ready_begin_destroy_key : keeps.

Lemma ready_begin_run_end run reason : keeps (on_data no_new_ready) (begin_run_end process run reason).
Proof. unfold begin_run_end. keeps. Qed.

(** A destruction begun, or refused, leaves its environment not ready. *)
Lemma begin_recorded_settles environment reason r c b c' :
  begin_recorded process environment reason r c = Ok (b, c') ->
  quiet (fun k _ => k = Id.as_str environment) (Work.data c').
Proof.
  intros (i & c1 & _ & (ks & c2 & (d & Eu & ->)%exec_Ok & (u & c3 & [Ea _]%audit_Ok & [= _ <-])%and_then_Ok)%and_then_Ok)%and_then_Ok.
  rewrite Ea. cbn. unfold update_environment in Eu. destruct (update _ _ _ _) as [[rows ks']|] eqn:E; [|done].
  injection Eu as _ <-. intros k r' Hk -> Hr. cbn in Hk.
  rewrite (update_rows _ _ _ _ _ _ _ E) in Hk. apply fmap_Some in Hk as (r0 & _ & ->).
  revert Hr. unfold set_where, the_environment. rewrite String.eqb_refl. apply not_ready_destroying.
Qed.

Lemma begin_destroy_settles environment reason c b c' :
  begin_destroy process environment reason c = Ok (b, c') ->
  quiet (fun k _ => k = Id.as_str environment) (Work.data c').
Proof.
  intros (found & c1 & Ef & E)%and_then_Ok. apply and_then_Ok in Ef as (row & c2 & [= <- <-] & Ef).
  destruct (Db.environment _ !! _) as [row|] eqn:Erow.
  2:{ injection Ef as <- <-. injection E as _ <-. intros k r Hk -> _. by rewrite Hk in Erow. }
  apply and_then_Ok in Ef as (rec & c3 & [Erec ->]%from_Ok & [= <- <-]).
  apply record_of_Ok in Erec as (_ & _ & _ & Est & _).
  destruct (EnvironmentRecord.state rec); try by eapply begin_recorded_settles.
  all: injection E as _ <-; intros k r Hk -> Hr; rewrite Hk in Erow; injection Erow as ->.
  all: red in Hr; by rewrite Hr in Est.
Qed.

Lemma begin_destroy_key_settles reason key c b c' :
  begin_destroy_key process reason key c = Ok (b, c') -> quiet (fun k _ => k = key) (Work.data c').
Proof.
  intros (env & c1 & [E ->]%from_Ok & Eb)%and_then_Ok. destruct (Id.parse "env" key) as [i|] eqn:Ei; [|done].
  injection E as ->. apply parse_id_ok in Ei as [_ <-]. by eapply begin_destroy_settles.
Qed.

(** All the environments a list of keys names. *)
Lemma destroy_all_settles reason keys c b c' :
  for_each (begin_destroy_key process reason) keys c = Ok (b, c') ->
  quiet (fun k _ => k ∈ keys) (Work.data c').
Proof.
  intros E k r Hk Hin. revert k Hin r Hk.
  assert (forall k, k ∈ keys -> quiet (fun k' _ => k' = k) (Work.data c')) as Hall.
  { apply (for_each_settles (on_data no_new_ready) (fun k => quiet (fun k' _ => k' = k)) (begin_destroy_key process reason) keys c b);
      [intros; apply ready_begin_destroy_key|intros; by eapply begin_destroy_key_settles| |apply _|done].
    intros a c1 c2. apply quiet_kept. }
  intros k Hin r Hk. by apply (Hall k Hin k r).
Qed.

(** ** The end of a run, and of an incarnation *)

Lemma begin_run_end_settles run reason c b c' :
  begin_run_end process run reason c = Ok (b, c') ->
  quiet (fun _ r => EnvironmentRow.run_id r = Id.as_str run) (Work.data c').
Proof.
  intros (keys & c1 & [= <- <-] & (keys' & c2 & (-> & -> & _)%texts_Ok & E)%and_then_Ok)%and_then_Ok.
  intros k r Hk Hrun Hr. apply (destroy_all_settles _ _ _ _ _ E k r Hk); [|done].
  assert (keeps (on_data no_new_ready) (for_each (begin_destroy_key process reason)
     (keys_where (fun r => is_live r && String.eqb (EnvironmentRow.run_id r) (Id.as_str run)) (Work.data c)))) as Hkeep
    by keeps.
  apply keys_where_elem. exists r. split; [by apply (Hkeep _ _ _ E)|].
  unfold is_live. red in Hr. rewrite Hr, Hrun, String.eqb_refl. done.
Qed.

(** An environment ready, its run ended: not after a start. *)
Lemma begin_reaped_at_start_settles c b c' :
  begin_reaped_at_start process c = Ok (b, c') ->
  quiet (fun _ r => exists row, Db.run (Work.data c) !! EnvironmentRow.run_id r = Some row /\ ~ is_active row)
    (Work.data c').
Proof.
  intros (keys & c1 & [= <- <-] & (keys' & c2 & (-> & -> & _)%texts_Ok & E)%and_then_Ok)%and_then_Ok.
  apply and_then_Ok in E as (bs & c2 & E & [= _ <-]).
  intros k r Hk (row & Hrow & Ha) Hr. apply (destroy_all_settles _ _ _ _ _ E k r Hk); [|done].
  match type of E with for_each ?f ?l _ = _ => assert (keeps (on_data no_new_ready) (for_each f l)) as Hkeep by keeps end.
  apply keys_where_elem. exists r. split; [by apply (Hkeep _ _ _ E)|]. red in Hr.
  rewrite Hr, Hrow. cbn. by destruct (String.eqb_spec (RunRow.state row) "ACTIVE").
Qed.
End ready.

(** A run has the lease of its session, held at its epoch. *)
Definition leased (d : Db.t) (r : RunRow.t) : Prop :=
  exists l, Db.session_lease d !! RunRow.session_id r = Some l /\
    LeaseRow.state l = "HELD" /\ LeaseRow.epoch l = RunRow.epoch r.

Definition run_active (d : Db.t) (key : string) : Prop :=
  exists r, Db.run d !! key = Some r /\ is_active r.

(** Authority flows from the lease: an active run's session is leased at the
    run's epoch, and a ready environment's run is active. *)
Record sessions_ok (d : Db.t) : Prop := {
  runs_leased k r : Db.run d !! k = Some r -> is_active r -> leased d r;
  ready_runs k e : Db.environment d !! k = Some e -> is_ready e -> run_active d (EnvironmentRow.run_id e)
}.

(** Leases and runs untouched, and no environment made ready. *)
Definition settles : relation Db.t := fun d d' =>
  frame Db.session_lease d d' /\ frame Db.run d d' /\ no_new_ready d d'.

#[export] Instance settles_preorder : PreOrder settles.
Proof. split; [by intros d|]. intros a b c (? & ? & ?) (? & ? & ?). split_and!; by etransitivity. Qed.

Lemma settles_ok d d' : settles d d' -> sessions_ok d -> sessions_ok d'.
Proof.
  intros (Hl & Hr & Hn) [H1 H2]. unfold frame in *. split; unfold leased, run_active; rewrite ?Hl, ?Hr.
  - exact H1.
  - intros k e Hk He. by apply (H2 k); [apply Hn|].
Qed.

(** A statement on environments that makes none ready settles. *)
Lemma settles_environment where_ set_ :
  (forall r, ~ is_ready (set_ r)) -> statement_keeps settles (update_environment where_ set_).
Proof.
  intros Hs d keys d' E. split_and!; [by eapply frame_update_environment, E..|by eapply ready_statement, E].
Qed.

Lemma settles_next_counter : statement_keeps settles next_counter.
Proof.
  intros d z d' E. split_and!; [by eapply frame_next_counter, E..|].
  eapply ready_frame, E. by apply frame_next_counter.
Qed.

(** A column set to another state than ready. *)
Lemma set_columns_not_ready r s c m e f t : s <> "READY" -> ~ is_ready (set_columns r s c m e f t).
Proof. done. Qed.

(** ** Runs of a table update *)

Section updates.
  Context (where_ : string -> RunRow.t -> bool) (set_ : RunRow.t -> RunRow.t)
    (ends : forall r, ~ is_active (set_ r)).

(** Runs that a statement ends are active no longer, and no other changes. *)
Lemma update_run_Ok d keys d' :
  update_run where_ set_ d = Ok (keys, d') ->
  Db.session_lease d' = Db.session_lease d /\ Db.environment d' = Db.environment d /\
  (forall k, Db.run d' !! k = set_where where_ set_ k <$> Db.run d !! k) /\
  (forall k, k ∈ keys <-> exists r, Db.run d !! k = Some r /\ where_ k r = true).
Proof.
  unfold update_run. destruct (update _ _ _ _) as [[rows ks]|] eqn:E; [|done]. intros [= <- <-].
  split_and!; [done..| |].
  - intros k. by apply (update_rows _ _ _ _ _ _ k E).
  - intros k. by apply (update_keys _ _ _ _ _ _ k E).
Qed.

Lemma still_active k r0 r : set_where where_ set_ k r0 = r -> is_active r -> where_ k r0 = false /\ r0 = r.
Proof. unfold set_where. case_match; [|done]. intros <- Hr. by destruct (ends r0). Qed.
End updates.

Section sessions.
  Context `{Sha256} (process : Process.t).

#[local] Hint Resolve settles_environment settles_next_counter set_columns_not_ready : keeps.
#[local] Hint Extern 1 (_ <> "READY") => discriminate : keeps.

Lemma settles_record environment : keeps (on_data settles) (record environment).
Proof. unfold record. keeps. Qed.

#[local] Hint Resolve settles_record : keeps.

Lemma settles_begin_recorded environment reason r :
  keeps (on_data settles) (begin_recorded process environment reason r).
Proof. unfold begin_recorded. keeps. Qed.

#[local] Hint Resolve settles_begin_recorded : keeps.

Lemma settles_begin_destroy environment reason :
  keeps (on_data settles) (begin_destroy process environment reason).
Proof. unfold begin_destroy. keeps. Qed.

#[local] Hint Resolve settles_begin_destroy : keeps.

Lemma settles_begin_destroy_key reason key : keeps (on_data settles) (begin_destroy_key process reason key).
Proof. unfold begin_destroy_key. keeps. Qed.

#[local] Hint Resolve settles_begin_destroy_key : keeps.

Lemma settles_begin_run_end run reason : keeps (on_data settles) (begin_run_end process run reason).
Proof. unfold begin_run_end. keeps. Qed.

#[local] Hint Resolve settles_begin_run_end : keeps.

Lemma settles_begin_reaped_at_start : keeps (on_data settles) (begin_reaped_at_start process).
Proof. unfold begin_reaped_at_start. keeps. Qed.

Lemma settles_end_with_its_run environment run :
  keeps (on_data settles) (end_with_its_run process environment run).
Proof. unfold end_with_its_run. keeps. Qed.

Lemma settles_now_sql : keeps (on_data settles) now_sql.
Proof. unfold now_sql. keeps. Qed.

#[local] Hint Resolve settles_now_sql : keeps.

Lemma settles_record_destroyed r ending timing : keeps (on_data settles) (record_destroyed r ending timing).
Proof. unfold record_destroyed. keeps. Qed.

Lemma settles_record_lost r : keeps (on_data settles) (record_lost r).
Proof.
  unfold record_lost. apply keeps_bind; [apply _|keeps|]. intros ms.
  case_bool_decide; keeps.
Qed.

Lemma settles_reconcile_open : keeps (on_data settles) reconcile_open.
Proof. unfold reconcile_open. keeps. Qed.

(** ** Reaping *)

Definition reaped (session : SessionId) (below : N) (r : RunRow.t) : Prop :=
  RunRow.session_id r = Id.as_str session /\ (RunRow.epoch r < Z.of_N below)%Z.

Lemma settles_reap_run session cause run : keeps (on_data settles) (reap_run process session cause run).
Proof. unfold reap_run. keeps. Qed.

#[local] Hint Resolve settles_reap_run : keeps.

(** The loop of [reap] leaves no environment of a run it ended ready. *)
Lemma reap_loop_settles session cause runs c t c' :
  for_each (reap_run process session cause) runs c = Ok (t, c') ->
  settles (Work.data c) (Work.data c') /\ quiet (fun _ e => EnvironmentRow.run_id e ∈ runs) (Work.data c').
Proof.
  intros E. split.
  { assert (keeps (on_data settles) (for_each (reap_run process session cause) runs)) as Hk by keeps.
    by apply Hk in E. }
  assert (forall run, run ∈ runs -> quiet (fun _ e => EnvironmentRow.run_id e = run) (Work.data c')) as Hall.
  { apply (for_each_settles (on_data settles) (fun run => quiet (fun _ e => EnvironmentRow.run_id e = run))
      (reap_run process session cause) runs c t); [intros; apply settles_reap_run| | |apply _|exact E].
    - intros run c1 b c2 (id & c3 & [Ei ->]%from_Ok & (u & c4 & _ & Eb)%and_then_Ok)%and_then_Ok.
      destruct (Id.parse "run" run) as [i|] eqn:Ep; [|done]. injection Ei as ->.
      apply parse_id_ok in Ep as [_ <-]. by eapply begin_run_end_settles.
    - intros a c1 c2 (_ & _ & Hn). by apply quiet_kept. }
  intros k e Hk Hin. by apply (Hall _ Hin k e).
Qed.

(** A reap restores what a new epoch, or a release, broke. *)
Lemma reap_sessions session below cause c t c' :
  (forall k r, Db.run (Work.data c) !! k = Some r -> is_active r ->
     reaped session below r \/ leased (Work.data c) r) ->
  (forall k e, Db.environment (Work.data c) !! k = Some e -> is_ready e ->
     run_active (Work.data c) (EnvironmentRow.run_id e)) ->
  reap process session below cause c = Ok (t, c') -> sessions_ok (Work.data c').
Proof.
  intros Hruns Hready (bz & c1 & [->%to_sql_Ok ->]%from_Ok & E)%and_then_Ok.
  apply and_then_Ok in E as (ms & c1 & [= <- <-] & E).
  apply and_then_Ok in E as (ez & c1 & [_ ->]%from_Ok & E).
  apply and_then_Ok in E as (keys & c1 & (d & Eu & ->)%exec_Ok & E).
  apply and_then_Ok in E as (keys' & c2 & (-> & -> & _)%texts_Ok & E).
  apply and_then_Ok in E as (ts & c2 & [Hs Hq]%reap_loop_settles & [= _ <-]). cbn in Hs.
  apply update_run_Ok in Eu as (El & Ee & Er & Ek).
  destruct Hs as (Hl & Hr & Hn). unfold frame in Hl, Hr. rewrite El in Hl.
  assert (forall k r, Db.run (Work.data c2) !! k = Some r -> is_active r ->
     Db.run (Work.data c) !! k = Some r /\ ~ reaped session below r) as Hact.
  { intros k r Hk Ha. rewrite Hr, Er in Hk. apply fmap_Some in Hk as (r0 & Hr0 & Hset).
    symmetry in Hset. apply still_active in Hset as [Hw ->]; [|done..]. split; [done|].
    intros [Hsid Hep]. rewrite Hsid, Ha, !String.eqb_refl, (proj2 (Z.ltb_lt _ _)) in Hw; done. }
  split.
  - intros k r Hk Ha. destruct (Hact k r Hk Ha) as [Hk' Hnr].
    destruct (Hruns k r Hk' Ha) as [?|(l & Hsl & ?)]; [done|]. exists l. by rewrite Hl.
  - intros k e Hk He. pose proof (Hn k e Hk He) as Hk0. rewrite Ee in Hk0.
    destruct (Hready k e Hk0 He) as (r & Hrun & Ha). exists r. split; [|done].
    rewrite Hr, Er, Hrun. cbn. unfold set_where. case_match eqn:Hw; [|done]. exfalso.
    apply (Hq k e Hk); [|done]. apply Ek. eauto.
Qed.

(** ** Leases *)

Lemma settles_refuse {A} event caller operation reason session epoch :
  keeps (on_data settles) (refuse event caller operation reason session epoch : op (Reply.t A)).
Proof. unfold refuse. keeps. Qed.

Lemma refuse_data {A} event caller operation reason session epoch c (a : Reply.t A) c' :
  refuse event caller operation reason session epoch c = Ok (a, c') -> Work.data c' = Work.data c.
Proof. by intros (u & c1 & [E _]%audit_Ok & [= _ <-])%and_then_Ok. Qed.

(** Runs of other sessions keep their lease through it. *)
Lemma leased_other (session : SessionId) d d' r :
  (forall k, k <> Id.as_str session -> Db.session_lease d' !! k = Db.session_lease d !! k) ->
  RunRow.session_id r <> Id.as_str session -> leased d r -> leased d' r.
Proof. intros Hk Hne (l & Hl & ?). exists l. by rewrite Hk. Qed.

Lemma heartbeat_sessions caller session epoch ttl c a c' :
  sessions_ok (Work.data c) -> heartbeat caller session epoch ttl c = Ok (a, c') ->
  sessions_ok (Work.data c').
Proof.
  intros Hok (l & _ & E)%heartbeat_Ok. destruct (is_some_and _ _); [|by destruct E as [_ ->]].
  destruct E as (_ & keys & (Er & Ee & Es & Eo)%update_session_Ok). destruct Hok as [H1 H2].
  split; unfold run_active; rewrite ?Er, ?Ee; [|exact H2]. intros k r Hk Ha.
  destruct (H1 k r Hk Ha) as (row & Hl & Hs & Hep). unfold leased.
  destruct (decide (RunRow.session_id r = Id.as_str session)) as [E|Hne].
  - rewrite E in *. rewrite Es, Hl. cbn. eexists. split; [done|]. by cbn.
  - exists row. by rewrite Eo.
Qed.

Lemma acquire_sessions caller session ttl c a c' :
  sessions_ok (Work.data c) -> acquire process caller session ttl c = Ok (a, c') ->
  sessions_ok (Work.data c').
Proof.
  destruct a as [reply td]. intros Hok (cur & dec & El & Ed & Hd)%acquire_Ok.
  destruct dec as [[epoch prior]|]; [|by destruct Hd as [_ ->]].
  destruct Hd as (e & _ & _ & Hw). apply load_lease_Ok in El as [_ El]. destruct Hok as [H1 H2].
  destruct cur as [lease|]; cbn in Hw.
  - destruct Hw as (keys & d & c2 & (Eru & Een & _ & Eo)%update_session_Ok & Er & ->).
    eapply reap_sessions, Er; cbn; [|by unfold run_active; rewrite Een, Eru].
    rewrite Eru. intros k r Hk Ha. pose proof (H1 k r Hk Ha) as Hl.
    destruct (decide (RunRow.session_id r = Id.as_str session)) as [Es|Hne]; [left|right; by eapply leased_other].
    split; [done|]. destruct Hl as (l & Hl & _ & <-). rewrite Es in Hl. rewrite Hl in El.
    destruct El as (lease' & El & [= <-]). apply of_row_Ok in El as (-> & _).
    apply next_tenure_Some in Ed. lia.
  - apply insert_lease_Ok in Hw as (Hn & Hl' & Hr' & He'). split; unfold run_active; rewrite ?Hr', ?He'; [|exact H2].
    intros k r Hk Ha. apply (leased_other session (Work.data c)); [|intros Es|by apply (H1 k)].
    + intros k' Hne. by rewrite Hl', lookup_insert_ne.
    + destruct (H1 k r Hk Ha) as (l & Hl & _). by rewrite Es, Hn in Hl.
Qed.

Lemma release_sessions caller session epoch c a c' :
  sessions_ok (Work.data c) -> release process caller session epoch c = Ok (a, c') ->
  sessions_ok (Work.data c').
Proof.
  destruct a as [reply td]. intros Hok (l & [_ El]%load_lease_Ok & E)%release_Ok.
  destruct (is_some_and _ _); [|by destruct E as [-> _]].
  destruct E as (_ & lease & keys & d & c2 & -> & (Eru & Een & _ & Eo)%update_session_Ok & Er & ->).
  destruct Hok as [H1 H2]. eapply reap_sessions, Er; cbn; [|by unfold run_active; rewrite Een, Eru].
  rewrite Eru. intros k r Hk Ha. pose proof (H1 k r Hk Ha) as Hl.
  destruct (decide (RunRow.session_id r = Id.as_str session)) as [Es|Hne]; [left|right; by eapply leased_other].
  split; [done|]. destruct Hl as (row & Hl & _ & <-). rewrite Es in Hl. rewrite Hl in El.
  destruct El as (lease' & El & [= <-]). apply of_row_Ok in El as (-> & _).
  apply and_then_Ok in Er as (bz & c4 & [Ebz%to_sql_next _]%from_Ok & _). rewrite Ebz. lia.
Qed.

(** ** Releases of runs *)

Lemma release_admission_Ok caller session run epoch c reply c' :
  release_admission caller session run epoch c = Ok (reply, c') ->
  Db.session_lease (Work.data c') = Db.session_lease (Work.data c) /\
  Db.environment (Work.data c') = Db.environment (Work.data c) /\
  (forall k r, Db.run (Work.data c') !! k = Some r -> is_active r -> Db.run (Work.data c) !! k = Some r) /\
  (forall k r, Db.run (Work.data c) !! k = Some r -> is_active r ->
     Db.run (Work.data c') !! k = Some r \/ (k = Id.as_str run /\ reply = Reply.Done true)).
Proof.
  intros (b & c1 & [-> _]%fence_Ok & E)%and_then_Ok. destruct (negb b).
  { apply refuse_data in E as ->. by split_and!; auto. }
  apply and_then_Ok in E as (ez & c1 & [_ ->]%from_Ok & E).
  apply and_then_Ok in E as (ms & c1 & [= <- <-] & (x & c2 & [_ ->]%from_Ok & E)%and_then_Ok).
  apply and_then_Ok in E as (n & c1 & (d & Eu & ->)%exec_Ok & (u & c2 & Ea & [= <- <-])%and_then_Ok).
  assert (Work.data c2 = d) as ->.
  { destruct (n =? 1)%nat; [by apply audit_Ok in Ea as [-> _]|by injection Ea as _ <-]. }
  unfold changed in Eu. destruct (update_run _ _ _) as [[keys d2]|] eqn:E; [|done].
  injection Eu as <- ->. pose proof E as (-> & -> & Er & Ek)%update_run_Ok. split_and!; [done..| |].
  - intros k r. rewrite Er. intros (r0 & Hr0 & Hset)%fmap_Some Ha. symmetry in Hset.
    by apply still_active in Hset as [_ <-].
  - intros k r Hk Ha. rewrite Er, Hk. cbn. unfold set_where. destruct (_ && _) eqn:Hw; [right|by left].
    rewrite !andb_true_iff in Hw. pose proof Hw as [[[[->%String.eqb_eq _] _] _] _]. split; [done|].
    assert (Id.as_str run ∈ keys) as Hin.
    { apply Ek. exists r. split; [done|]. by rewrite !andb_true_iff. }
    unfold update_run in E. destruct (update _ _ _ _) as [[rows ks]|] eqn:E'; [|done]. injection E as <- _.
    apply (update_one_keys _ (Id.as_str run)) in E'.
    + rewrite E', Hk in Hin |- *. destruct (_ && _); [done|]. by apply not_elem_of_nil in Hin.
    + intros k r0. rewrite !andb_true_iff. by intros [[[[?%String.eqb_eq _] _] _] _].
Qed.

Lemma release_run_sessions caller session run epoch c a c' :
  sessions_ok (Work.data c) -> release_run process caller session run epoch c = Ok (a, c') ->
  sessions_ok (Work.data c').
Proof.
  intros [H1 H2] (reply & c1 & (El & Ee & Hback & Hfwd)%release_admission_Ok & (t & c2 & E & [= _ <-])%and_then_Ok)%and_then_Ok.
  assert (settles (Work.data c1) (Work.data c2) /\
    (reply = Reply.Done true -> quiet (fun _ e => EnvironmentRow.run_id e = Id.as_str run) (Work.data c2)))
    as [(Hl & Hr & Hn) Hq].
  { destruct reply as [[]|]; [|injection E as _ <-; by split..].
    split; [by apply settles_begin_run_end in E|]. intros _. by eapply begin_run_end_settles. }
  unfold frame in Hl, Hr. rewrite El in Hl. split.
  - intros k r Hk Ha. rewrite Hr in Hk. destruct (H1 k r (Hback k r Hk Ha) Ha) as (l & ? & ?).
    exists l. by rewrite Hl.
  - intros k e Hk He. pose proof (Hn k e Hk He) as Hk0. rewrite Ee in Hk0.
    destruct (H2 k e Hk0 He) as (r & Hrun & Ha).
    destruct (Hfwd _ r Hrun Ha) as [Hrun'|[Erun ->]]; [exists r; by rewrite Hr|].
    by destruct (Hq eq_refl k e Hk Erun).
Qed.

(** ** Outcomes of preparations *)

(** Only the environment prepared may have become ready, of its run. *)
Definition of_run (key run : string) (d : Db.t) : Prop :=
  forall e, Db.environment d !! key = Some e -> EnvironmentRow.run_id e = run.

Definition readies (key run : string) : relation Db.t := fun d d' =>
  frame Db.session_lease d d' /\ frame Db.run d d' /\ (of_run key run d -> of_run key run d') /\
  forall k e, Db.environment d' !! k = Some e -> is_ready e -> Db.environment d !! k = Some e \/ k = key.

#[local] Instance readies_preorder key run : PreOrder (readies key run).
Proof.
  split; [intros d; by split_and!; auto|]. intros a b c (El & Er & Eo & Hr) (El' & Er' & Eo' & Hr').
  split_and!; [by etransitivity..|auto|]. intros k e Hk He.
  destruct (Hr' k e Hk He) as [Hk'|]; [|by right]. by apply Hr.
Qed.

Lemma readies_statement (environment : EnvironmentId) run state_ set_ :
  (forall r, EnvironmentRow.run_id (set_ r) = EnvironmentRow.run_id r) ->
  statement_keeps (readies (Id.as_str environment) run)
    (update_environment (the_environment environment state_) set_).
Proof.
  intros Hset d keys d' E. split_and!; [by eapply frame_update_environment, E..| |].
  all: unfold update_environment in E; destruct (update _ _ _ _) as [[rows ks]|] eqn:Eu; [|done];
    injection E as _ <-; unfold of_run; cbn.
  - intros Ho e. rewrite (update_rows _ _ _ _ _ _ _ Eu). intros (e0 & Hk & ->)%fmap_Some.
    unfold set_where. case_match; [rewrite Hset|]; by apply Ho.
  - intros k e. rewrite (update_rows _ _ _ _ _ _ _ Eu). intros (e0 & Hk & ->)%fmap_Some _.
    unfold set_where, the_environment. destruct (String.eqb_spec k (Id.as_str environment)); [by right|].
    by left.
Qed.

#[local] Hint Resolve readies_statement statement_changed : keeps.

Lemma readies_record_prepared environment run_ run prepared timing :
  keeps (on_data (readies (Id.as_str environment) run_)) (record_prepared environment run prepared timing).
Proof. unfold record_prepared, now_sql. keeps. Qed.

Lemma end_with_its_run_settles environment run c b c' :
  end_with_its_run process environment run c = Ok (b, c') ->
  run_active (Work.data c) (Id.as_str run) \/ quiet (fun k _ => k = Id.as_str environment) (Work.data c').
Proof.
  intros (row & c1 & [= <- <-] & E)%and_then_Ok. destruct (_ !! _) as [row|] eqn:Erow; [|done].
  destruct (String.eqb_spec (RunRow.state row) "ACTIVE") as [Ha|_]; [left; by exists row|right].
  apply and_then_Ok in E as (found & c1 & Ef & E). apply and_then_Ok in Ef as (erow & c2 & [= <- <-] & Ef).
  destruct (Db.environment _ !! _) as [erow|] eqn:Ee.
  2:{ injection Ef as <- <-. injection E as _ <-. intros k r Hk -> _. by rewrite Hk in Ee. }
  apply and_then_Ok in Ef as (rec & c3 & [Erec ->]%from_Ok & [= <- <-]).
  apply record_of_Ok in Erec as (_ & _ & _ & Est & _). cbn in E.
  destruct (EnvironmentRecord.state rec);
    try (apply and_then_Ok in E as (begun & c4 & E & [= _ <-]); by eapply begin_destroy_settles).
  all: injection E as _ <-; intros k r Hk -> Hr; rewrite Hk in Ee; injection Ee as ->.
  all: red in Hr; by rewrite Hr in Est.
Qed.

Lemma record_outcome_sessions environment run prepared timing c a c' :
  of_run (Id.as_str environment) (Id.as_str run) (Work.data c) ->
  sessions_ok (Work.data c) -> record_outcome process environment run prepared timing c = Ok (a, c') ->
  sessions_ok (Work.data c').
Proof.
  intros Ho [H1 H2] (u & c1 & E1 & E2)%and_then_Ok.
  apply (readies_record_prepared environment (Id.as_str run)) in E1 as (El & Er & Eo & Hr).
  pose proof E2 as (El' & Er' & Hn)%settles_end_with_its_run. apply end_with_its_run_settles in E2.
  unfold frame in *. rewrite El in El'. rewrite Er in Er'.
  assert (forall key, run_active (Work.data c) key -> run_active (Work.data c') key) as Hact.
  { intros key (r & ? & ?). exists r. by rewrite Er'. }
  split.
  - intros k r Hk Ha. rewrite Er' in Hk. destruct (H1 k r Hk Ha) as (l & ? & ?). exists l. by rewrite El'.
  - intros k e Hk He. apply Hact. pose proof (Hn k e Hk He) as Hk1.
    destruct (Hr k e Hk1 He) as [Hk0| ->]; [by apply (H2 k)|].
    rewrite (Eo Ho e Hk1). destruct E2 as [(r & Hrun & Ha)|Hq]; [exists r; by rewrite <- Er|].
    by destruct (Hq _ e Hk eq_refl).
Qed.

(** ** A new incarnation *)

Lemma invalidate_all_Ok c a c' :
  invalidate_all c = Ok (a, c') ->
  Db.environment (Work.data c') = Db.environment (Work.data c) /\
  (forall k r, Db.run (Work.data c') !! k = Some r -> ~ is_active r) /\
  (forall k, is_Some (Db.run (Work.data c) !! k) -> is_Some (Db.run (Work.data c') !! k)).
Proof.
  intros (ls & c1 & (d & El & ->)%exec_Ok & (ms & c2 & [= <- <-] & E)%and_then_Ok)%and_then_Ok.
  apply and_then_Ok in E as (ez & c2 & [_ ->]%from_Ok & (rs & c3 & (d' & Er & ->)%exec_Ok & [= _ <-])%and_then_Ok).
  cbn in *. apply update_run_Ok in Er as (_ & Ee & Er & _).
  pose proof (frame_update_lease Db.environment _ _ ltac:(done) _ _ _ El) as Ee'.
  pose proof (frame_update_lease Db.run _ _ ltac:(done) _ _ _ El) as Er'. unfold frame in Ee', Er'.
  split_and!; [congruence| |].
  - intros k r. rewrite Er. intros (r0 & _ & Hset)%fmap_Some Ha. symmetry in Hset.
    pose proof Hset as Hset'. apply still_active in Hset as [Hw ->]; [|done..]. by rewrite Ha in Hw.
  - intros k [r Hk]. rewrite Er, Er', Hk. by eexists.
Qed.

(** What the start of an incarnation does to these tables. *)
Lemma incarnation_sessions c a c' :
  sessions_ok (Work.data c) ->
  (let* ended := invalidate_all in let* unknown := reconcile_open in
   let* begun := begin_reaped_at_start process in done (ended, unknown, begun)) c = Ok (a, c') ->
  sessions_ok (Work.data c').
Proof.
  intros [_ H2] (x & c1 & (Ee & Hna & Hsome)%invalidate_all_Ok & E)%and_then_Ok.
  apply and_then_Ok in E as (y & c2 & (_ & Er & Hn)%settles_reconcile_open & E).
  apply and_then_Ok in E as (z & c3 & E & [= _ <-]).
  pose proof E as (_ & Er' & Hn')%settles_begin_reaped_at_start. apply begin_reaped_at_start_settles in E.
  unfold frame in *. rewrite Er in Er'. split.
  - intros k r Hk Ha. rewrite Er' in Hk. by destruct (Hna k r).
  - intros k e Hk He. exfalso. apply (E k e Hk); [|done]. rewrite Er.
    pose proof (Hn k e (Hn' k e Hk He) He) as Hk0. rewrite Ee in Hk0.
    destruct (H2 k e Hk0 He) as (r & Hrun & _). destruct (Hsome _ (mk_is_Some _ _ Hrun)) as [r' Hr'].
    exists r'. split; [done|by eapply Hna].
Qed.

End sessions.
