(* ===== verification/Reconcile.v ===== *)
(** Reconciliation with what the container runtime lists
    ([dwkd-authority/src/state/environment.rs], [environment_ops.rs]): which
    container is which record's, and what is settled of each. *)

From Stdlib Require Import ZArith.
From S2P Require Export Environment.

(** What the runtime says a container is doing ([dwk-proto/src/brokerp.rs]). *)
Module ContainerState.

Inductive t := Created | Running | Paused | Restarting | Exited | Dead | Removing.

#[global] Instance eq_dec : EqDecision t.
Proof. solve_decision. Defined.

Definition ALL : list t := [Created; Running; Paused; Restarting; Exited; Dead; Removing].

Definition as_str (x : t) : string :=
  match x with
  | Created => "CREATED" | Running => "RUNNING" | Paused => "PAUSED" | Restarting => "RESTARTING"
  | Exited => "EXITED" | Dead => "DEAD" | Removing => "REMOVING"
  end.

#[global] Instance vocabulary : Vocabulary ALL as_str.
Proof. solve_vocabulary. Qed.

End ContainerState.

(** One container labelled as this store's; its image is not read here. *)
Module OwnedEnvironment.

Record t := Make {
  container : ContainerRef.t; state : ContainerState.t;
  environment_id : option EnvironmentId; run_id : option RunId;
  role : option ContainerRole.t; labels_exact : bool
}.

#[global] Instance eq_dec : EqDecision t.
Proof. solve_decision. Defined.

End OwnedEnvironment.

Module ReconcileClass.
Inductive t :=
| StillRunning (record : EnvironmentRecord.t)
| Stopped (record : EnvironmentRecord.t)
| Missing (record : EnvironmentRecord.t)
| Pending (record : EnvironmentRecord.t)
| Ambiguous (environment : EnvironmentId)
| Foreign (container : ContainerRef.t)
| Orphan (owned : OwnedEnvironment.t).

#[global] Instance eq_dec : EqDecision t.
Proof. solve_decision. Defined.
End ReconcileClass.

Definition environment_role (owned : OwnedEnvironment.t) : bool :=
  bool_decide (OwnedEnvironment.role owned = Some ContainerRole.Environment).

(** * [classify] *)

Module Classes.
Record t := Make {
  classes : list ReconcileClass.t; claimed : list EnvironmentId;
  helped : list EnvironmentId; orphaned : list EnvironmentId
}.

Definition push (self : t) (class : ReconcileClass.t) : t :=
  Make (classes self ++ [class]) (claimed self) (helped self) (orphaned self).
Definition claim (self : t) (id : EnvironmentId) : t :=
  Make (classes self) (claimed self ++ [id]) (helped self) (orphaned self).
Definition help (self : t) (id : EnvironmentId) : t :=
  Make (classes self) (claimed self) (helped self ++ [id]) (orphaned self).
Definition orphan (self : t) (id : EnvironmentId) : t :=
  Make (classes self) (claimed self) (helped self) (orphaned self ++ [id]).
End Classes.

Section classify.
  Import EnvironmentState.
  Context (records : list EnvironmentRecord.t) (listed : list OwnedEnvironment.t) (current : N).

(** Labelled exactly as the record's environment, in its run. *)
Definition labelled (record : EnvironmentRecord.t) (o : OwnedEnvironment.t) : bool :=
  OwnedEnvironment.labels_exact o
  && bool_decide (OwnedEnvironment.environment_id o = Some (EnvironmentRecord.environment record))
  && bool_decide (OwnedEnvironment.run_id o = Some (EnvironmentRecord.run record)).

Definition twins (record : EnvironmentRecord.t) : nat :=
  length (List.filter (fun o => labelled record o && environment_role o) listed).

Definition beside (record : EnvironmentRecord.t) : bool :=
  existsb (fun o => environment_role o && labelled record o) listed.

Definition in_flight (record : EnvironmentRecord.t) : bool :=
  bool_decide (EnvironmentRecord.state record = Preparing)
  && (current <=? EnvironmentRecord.incarnation record)%N.

(** A helper's container. *)
Definition classify_helper (acc : Classes.t) (owned : OwnedEnvironment.t)
    (environment : EnvironmentId) (record : EnvironmentRecord.t) : Classes.t :=
  if is_final (EnvironmentRecord.state record) then
    if negb (beside record) && negb (bool_decide (environment ∈ Classes.orphaned acc))
    then Classes.push (Classes.orphan acc environment) (ReconcileClass.Orphan owned)
    else acc
  else if negb (bool_decide (environment ∈ Classes.helped acc))
  then Classes.help acc environment
  else acc.

(** An environment's own container. *)
Definition classify_own (acc : Classes.t) (owned : OwnedEnvironment.t)
    (environment : EnvironmentId) (record : EnvironmentRecord.t) : Classes.t :=
  if (1 <? twins record)%nat then
    if negb (bool_decide (environment ∈ Classes.claimed acc))
    then Classes.claim (Classes.push acc (ReconcileClass.Ambiguous environment)) environment
    else acc
  else
    let acc := Classes.claim acc environment in
    if in_flight record then acc
    else
      match EnvironmentRecord.state record with
      | Ready =>
          if negb (bool_decide (EnvironmentRecord.container record = Some (OwnedEnvironment.container owned)))
          then Classes.push acc (ReconcileClass.Ambiguous environment)
          else if bool_decide (OwnedEnvironment.state owned = ContainerState.Running)
          then Classes.push acc (ReconcileClass.StillRunning record)
          else Classes.push acc (ReconcileClass.Stopped record)
      | Refused | Destroyed | Lost =>
          Classes.push (Classes.orphan acc environment) (ReconcileClass.Orphan owned)
      | Preparing | Unknown | Destroying => Classes.push acc (ReconcileClass.Pending record)
      end.

(** The loop over the listing. *)
Definition classify_owned (acc : Classes.t) (owned : OwnedEnvironment.t) : Classes.t :=
  let foreign := Classes.push acc (ReconcileClass.Foreign (OwnedEnvironment.container owned)) in
  match (if OwnedEnvironment.labels_exact owned then OwnedEnvironment.environment_id owned else None) with
  | None => foreign
  | Some environment =>
      match find (fun r => bool_decide (EnvironmentRecord.environment r = environment)) records with
      | None => foreign
      | Some record =>
          if negb (bool_decide (OwnedEnvironment.run_id owned = Some (EnvironmentRecord.run record)))
          then foreign
          else if negb (environment_role owned) then classify_helper acc owned environment record
          else classify_own acc owned environment record
      end
  end.

(** The loop over the records. *)
Definition classify_record (acc : Classes.t) (record : EnvironmentRecord.t) : Classes.t :=
  let environment := EnvironmentRecord.environment record in
  if negb (is_final (EnvironmentRecord.state record)) && negb (in_flight record)
     && negb (bool_decide (environment ∈ Classes.claimed acc))
  then
    if bool_decide (environment ∈ Classes.helped acc)
    then Classes.push acc (ReconcileClass.Pending record)
    else Classes.push acc (ReconcileClass.Missing record)
  else acc.

Definition classify : list ReconcileClass.t :=
  let acc := fold_left classify_owned listed (Classes.Make [] [] [] []) in
  Classes.classes (fold_left classify_record records acc).

End classify.

(** * What it did *)

Module ReconcileReport.

Record t := Make {
  unobservable : bool; still_running : N; drifted : N; stopped : N; missing : N;
  pending_destroyed : N; ambiguous : N; foreign : N; orphans_reaped : N; incomplete : N
}.

Definition default : t := Make false 0 0 0 0 0 0 0 0 0.

Definition fields (self : t) : Fields.t :=
  let fields := Fields.flag Fields.new "unobservable" (unobservable self) in
  let fields := Fields.int fields "still_running" (still_running self) in
  let fields := Fields.int fields "drifted" (drifted self) in
  let fields := Fields.int fields "stopped" (stopped self) in
  let fields := Fields.int fields "missing" (missing self) in
  let fields := Fields.int fields "pending_destroyed" (pending_destroyed self) in
  let fields := Fields.int fields "ambiguous" (ambiguous self) in
  let fields := Fields.int fields "foreign" (foreign self) in
  let fields := Fields.int fields "orphans_reaped" (orphans_reaped self) in
  Fields.int fields "incomplete" (incomplete self).

End ReconcileReport.

Section ops.
  Context `{Sha256}.

Definition record_reconciled (report : ReconcileReport.t) : op () :=
  Work.audit AuditEvent.EnvironmentReconciled (ReconcileReport.fields report).

Definition record_orphan (owned : OwnedEnvironment.t) (removed : bool) : op () :=
  let fields := Fields.flag (Fields.text Fields.new "container"
                  (ContainerRef.as_str (OwnedEnvironment.container owned))) "removed" removed in
  let fields := Fields.maybe_text fields "environment_id"
                  (Id.as_str <$> OwnedEnvironment.environment_id owned) in
  let fields := Fields.maybe_text fields "run_id" (Id.as_str <$> OwnedEnvironment.run_id owned) in
  Work.audit AuditEvent.EnvironmentOrphanReaped fields.

(** The second transaction of [environment_reconcile]: the record, whatever its
    state, of every environment a listed container names. *)
Fixpoint join_listed (records : list EnvironmentRecord.t) (listed : list OwnedEnvironment.t) :
    op (list EnvironmentRecord.t) :=
  match listed with
  | [] => done records
  | owned :: rest =>
      match OwnedEnvironment.environment_id owned with
      | None => join_listed records rest
      | Some environment =>
          if existsb (fun r => bool_decide (EnvironmentRecord.environment r = environment)) records
          then join_listed records rest
          else
            let* found := record environment in
            join_listed (match found with Some r => records ++ [r] | None => records end) rest
      end
  end.

End ops.

(** * Classes by what they name *)

(** The environment a class is about. *)
Definition about (c : ReconcileClass.t) : option EnvironmentId :=
  match c with
  | ReconcileClass.StillRunning r | ReconcileClass.Stopped r
  | ReconcileClass.Missing r | ReconcileClass.Pending r => Some (EnvironmentRecord.environment r)
  | ReconcileClass.Ambiguous e => Some e
  | ReconcileClass.Foreign _ => None
  | ReconcileClass.Orphan o => OwnedEnvironment.environment_id o
  end.

Section bins.
  Context {A K : Type} `{EqDecision K} (key : A -> option K).

Definition bin (k : option K) (l : list A) : list A := List.filter (fun a => bool_decide (key a = k)) l.

Lemma bin_app k l l' : bin k (l ++ l') = bin k l ++ bin k l'.
Proof. apply List.filter_app. Qed.

Lemma bin_one k a : bin k [a] = if bool_decide (key a = k) then [a] else [].
Proof. done. Qed.

Lemma split_bin k l :
  l ≡ₚ bin k l ++ List.filter (fun a => negb (bool_decide (key a = k))) l.
Proof.
  induction l as [|a l IH]; [done|]. cbn. case_bool_decide; cbn; [by rewrite <- IH|].
  rewrite <- Permutation_middle. by rewrite <- IH.
Qed.

Lemma bin_other k k' l :
  k <> k' -> bin k (List.filter (fun a => negb (bool_decide (key a = k'))) l) = bin k l.
Proof.
  intros Hk. unfold bin. induction l as [|a l IH]; [done|]. cbn. case_bool_decide as Ha; cbn.
  - rewrite IH. rewrite bool_decide_eq_false_2; [done|congruence].
  - by rewrite IH.
Qed.

(** A list is its bins. *)
Lemma bins ks l :
  NoDup ks -> (forall a, a ∈ l -> forall k, key a = Some k -> k ∈ ks) ->
  l ≡ₚ bin None l ++ (ks ≫= fun k => bin (Some k) l).
Proof.
  intros Hn. revert l. induction Hn as [|k ks Hk _ IH]; intros l Hall.
  - cbn. rewrite app_nil_r. assert (bin None l = l) as ->; [|done]. unfold bin.
    induction l as [|a l IH]; [done|]. cbn. destruct (key a) as [k|] eqn:E.
    { by destruct (not_elem_of_nil k (Hall a ltac:(left) k E)). }
    rewrite bool_decide_eq_true_2 by done. f_equal. apply IH. intros a' Ha'. apply Hall. by right.
  - rewrite (split_bin (Some k) l) at 1. set (l' := List.filter _ l).
    rewrite (IH l').
    2:{ intros a (Ha & Hne)%list_elem_of_In%filter_In k' E. apply list_elem_of_In in Ha.
        apply (Hall a Ha) in E as E'. apply elem_of_cons in E' as [->|?]; [|done].
        by rewrite bool_decide_eq_true_2 in Hne. }
    unfold l' at 1. rewrite bin_other by done. cbn.
    assert ((ks ≫= fun k' => bin (Some k') l') = (ks ≫= fun k' => bin (Some k') l)) as ->.
    { clear IH Hall. unfold l'. induction ks as [|k' ks IH']; [done|]. cbn.
      rewrite bin_other, IH'; [done|by intros ?; apply Hk; right|intros [= ->]; apply Hk; left]. }
    rewrite !app_assoc. f_equiv. apply Permutation_app_comm.
Qed.
End bins.

#[global] Arguments bin : simpl never.

(** * The reference *)

Section verdict.
  Import EnvironmentState.
  Context (records : list EnvironmentRecord.t) (listed : list OwnedEnvironment.t) (current : N).
  Implicit Types (r : EnvironmentRecord.t) (o : OwnedEnvironment.t) (l : list OwnedEnvironment.t).

(** The containers that carry exactly a record's labels: its own, and its
    helpers'. *)
Definition own r l := List.filter (fun o => labelled r o && environment_role o) l.
Definition helpers r l := List.filter (fun o => labelled r o && negb (environment_role o)) l.

(** What becomes of a record whose one container is [o]. *)
Definition sole r o : list ReconcileClass.t :=
  if in_flight current r then []
  else
    match EnvironmentRecord.state r with
    | Ready =>
        if negb (bool_decide (EnvironmentRecord.container r = Some (OwnedEnvironment.container o)))
        then [ReconcileClass.Ambiguous (EnvironmentRecord.environment r)]
        else if bool_decide (OwnedEnvironment.state o = ContainerState.Running)
        then [ReconcileClass.StillRunning r]
        else [ReconcileClass.Stopped r]
    | Refused | Destroyed | Lost => [ReconcileClass.Orphan o]
    | Preparing | Unknown | Destroying => [ReconcileClass.Pending r]
    end.

(** The one class of a record, if it has one. *)
Definition verdict r : list ReconcileClass.t :=
  match own r listed, helpers r listed with
  | _ :: _ :: _, _ => [ReconcileClass.Ambiguous (EnvironmentRecord.environment r)]
  | [o], _ => sole r o
  | [], [] => if is_final (EnvironmentRecord.state r) || in_flight current r then [] else [ReconcileClass.Missing r]
  | [], h :: _ =>
      if is_final (EnvironmentRecord.state r) then [ReconcileClass.Orphan h]
      else if in_flight current r then [] else [ReconcileClass.Pending r]
  end.

(** The containers no record claims. *)
Definition strangers : list OwnedEnvironment.t :=
  List.filter (fun o => negb (existsb (fun r => labelled r o) records)) listed.

Context (distinct : NoDup (EnvironmentRecord.environment <$> records)).

Lemma find_record r :
  r ∈ records ->
  find (fun r' => bool_decide (EnvironmentRecord.environment r' = EnvironmentRecord.environment r)) records = Some r.
Proof.
  intros Hr. revert distinct Hr. induction records as [|r' rs IH]; [by intros _ ?%not_elem_of_nil|].
  cbn. intros [Hn Hd]%NoDup_cons [->|Hr]%elem_of_cons; [by rewrite bool_decide_eq_true_2|].
  case_bool_decide as E; [|by apply IH]. exfalso. apply Hn. rewrite E. by apply list_elem_of_fmap_2.
Qed.

(** The containers seen so far. *)
Definition after (l : list OwnedEnvironment.t) : Classes.t :=
  fold_left (classify_owned records listed current) l (Classes.Make [] [] [] []).

Lemma after_snoc l o : after (l ++ [o]) = classify_owned records listed current (after l) o.
Proof. unfold after. by rewrite fold_left_app. Qed.

(** What has been said of [r] once [l] has been seen. *)
Definition said r l : list ReconcileClass.t :=
  if (1 <? length (own r listed))%nat then
    match own r l with [] => [] | _ => [ReconcileClass.Ambiguous (EnvironmentRecord.environment r)] end
  else
    match own r l with
    | o :: _ => sole r o
    | [] =>
        if is_final (EnvironmentRecord.state r) && negb (beside listed r)
        then match helpers r l with h :: _ => [ReconcileClass.Orphan h] | [] => [] end
        else []
    end.

Record tracks r l : Prop := {
  tracks_classes : bin about (Some (EnvironmentRecord.environment r)) (Classes.classes (after l)) = said r l;
  tracks_claimed : EnvironmentRecord.environment r ∈ Classes.claimed (after l) <-> own r l <> [];
  tracks_helped : is_final (EnvironmentRecord.state r) = false ->
    EnvironmentRecord.environment r ∈ Classes.helped (after l) <-> helpers r l <> [];
  tracks_orphaned : is_final (EnvironmentRecord.state r) = true -> beside listed r = false ->
    EnvironmentRecord.environment r ∈ Classes.orphaned (after l) <-> helpers r l <> []
}.

Lemma own_snoc r l o : own r (l ++ [o]) = own r l ++ if labelled r o && environment_role o then [o] else [].
Proof. unfold own. rewrite List.filter_app. cbn. by case_match. Qed.

Lemma helpers_snoc r l o :
  helpers r (l ++ [o]) = helpers r l ++ if labelled r o && negb (environment_role o) then [o] else [].
Proof. unfold helpers. rewrite List.filter_app. cbn. by case_match. Qed.

Lemma twins_own r : twins listed r = length (own r listed).
Proof. done. Qed.

Lemma beside_own r : beside listed r = true <-> own r listed <> [].
Proof.
  unfold beside, own. rewrite existsb_exists. split.
  - intros (o & Hin & Ho) E. rewrite andb_comm in Ho. apply (in_nil (a := o)). rewrite <- E. by apply filter_In.
  - intros Hne. destruct (List.filter _ listed) as [|o l] eqn:E; [done|]. exists o.
    assert (In o (o :: l)) as Hin by by left. rewrite <- E in Hin. apply filter_In in Hin as [? Ho].
    by rewrite andb_comm in Ho.
Qed.

(** ** Containers that are not a record's *)

Definition agree (e : EnvironmentId) (acc acc' : Classes.t) : Prop :=
  bin about (Some e) (Classes.classes acc') = bin about (Some e) (Classes.classes acc) /\
  (e ∈ Classes.claimed acc' <-> e ∈ Classes.claimed acc) /\
  (e ∈ Classes.helped acc' <-> e ∈ Classes.helped acc) /\
  (e ∈ Classes.orphaned acc' <-> e ∈ Classes.orphaned acc).

Lemma agree_refl e acc : agree e acc acc.
Proof. done. Qed.

Lemma agree_push e acc acc' c : about c <> Some e -> agree e acc acc' -> agree e acc (Classes.push acc' c).
Proof.
  intros Hc (H1 & ?). split; [|done]. cbn. by rewrite bin_app, bin_one, bool_decide_eq_false_2, app_nil_r.
Qed.

Lemma agree_note e e' acc acc' :
  e' <> e -> agree e acc acc' ->
  agree e acc (Classes.claim acc' e') /\ agree e acc (Classes.help acc' e') /\ agree e acc (Classes.orphan acc' e').
Proof.
  intros Hne (H1 & H2 & H3 & H4). assert (forall l : list EnvironmentId, e ∈ l ++ [e'] <-> e ∈ l) as Hl.
  { intros l. rewrite elem_of_app, list_elem_of_singleton. split; [intros [?|E]; [done|by destruct Hne]|by left]. }
  unfold agree. cbn. rewrite !Hl. by split_and!.
Qed.

Lemma agree_other e acc o r :
  EnvironmentRecord.environment r <> e ->
  OwnedEnvironment.environment_id o = Some (EnvironmentRecord.environment r) ->
  agree e acc (classify_helper listed acc o (EnvironmentRecord.environment r) r) /\
  agree e acc (classify_own listed current acc o (EnvironmentRecord.environment r) r).
Proof.
  intros Hne Eo.
  assert (forall acc', agree e acc acc' -> forall c, about c = Some (EnvironmentRecord.environment r) ->
    agree e acc (Classes.push acc' c)) as Hpush.
  { intros acc' Ha c Hc. apply agree_push; [congruence|done]. }
  assert (forall acc', agree e acc acc' ->
    agree e acc (Classes.claim acc' (EnvironmentRecord.environment r)) /\
    agree e acc (Classes.help acc' (EnvironmentRecord.environment r)) /\
    agree e acc (Classes.orphan acc' (EnvironmentRecord.environment r))) as Hn.
  { intros acc' Ha. by apply agree_note. }
  split; [unfold classify_helper|unfold classify_own; cbv zeta];
    repeat case_match; try apply agree_refl;
    repeat first [apply Hpush; [|done] | apply Hn]; try apply agree_refl.
Qed.

Lemma agree_labelled r o acc :
  r ∈ records -> labelled r o = false ->
  agree (EnvironmentRecord.environment r) acc (classify_owned records listed current acc o).
Proof.
  intros Hr Hl. assert (forall c, agree (EnvironmentRecord.environment r) acc
    (Classes.push acc (ReconcileClass.Foreign c))) as Hf by (intros; by apply agree_push).
  unfold classify_owned. destruct (OwnedEnvironment.labels_exact o) eqn:Ex; [|apply Hf].
  destruct (OwnedEnvironment.environment_id o) as [e|] eqn:Eo; [|apply Hf].
  destruct (decide (e = EnvironmentRecord.environment r)) as [->|Hne].
  - rewrite (find_record r Hr). case_bool_decide as Erun; [|apply Hf]. exfalso.
    unfold labelled in Hl. by rewrite Ex, Eo, Erun, !bool_decide_eq_true_2 in Hl.
  - destruct (find _ records) as [r'|] eqn:Ef; [|apply Hf].
    apply find_some in Ef as [_ <-%bool_decide_eq_true].
    destruct (agree_other (EnvironmentRecord.environment r) acc o r' Hne Eo) as [Ha1 Ha2].
    case_match; [apply Hf|]. by case_match.
Qed.

Lemma classify_labelled r o acc :
  r ∈ records -> labelled r o = true ->
  OwnedEnvironment.environment_id o = Some (EnvironmentRecord.environment r) /\
  classify_owned records listed current acc o =
    if environment_role o then classify_own listed current acc o (EnvironmentRecord.environment r) r
    else classify_helper listed acc o (EnvironmentRecord.environment r) r.
Proof.
  intros Hr. unfold labelled. rewrite !andb_true_iff, !bool_decide_eq_true. intros [[Ex Eo] Erun].
  split; [done|]. unfold classify_owned. rewrite Ex, Eo, (find_record r Hr), bool_decide_eq_true_2 by done.
  cbn. by destruct (environment_role o).
Qed.

(** A helper seen. *)
Lemma tracks_helper r l o :
  r ∈ records -> tracks r l -> labelled r o = true -> environment_role o = false ->
  (own r l <> [] -> beside listed r = true) -> tracks r (l ++ [o]).
Proof.
  intros Hr [Hcl Hcm Hh Ho] Hl Hrole Hb. destruct (classify_labelled r o (after l) Hr Hl) as [Eo Ec].
  rewrite Hrole in Ec. assert (own r (l ++ [o]) = own r l) as Eown by by rewrite own_snoc, Hl, Hrole, app_nil_r.
  assert (helpers r (l ++ [o]) = helpers r l ++ [o]) as Ehelp by by rewrite helpers_snoc, Hl, Hrole.
  assert (helpers r (l ++ [o]) <> []) as Hne by (rewrite Ehelp; by destruct (helpers r l)).
  set (e := EnvironmentRecord.environment r) in *.
  split; rewrite ?after_snoc, Ec; unfold classify_helper; fold e.
  - unfold said. rewrite Eown, Ehelp. unfold said in Hcl.
    destruct (is_final _) eqn:Ef.
    2:{ transitivity (bin about (Some e) (Classes.classes (after l))); [by destruct (negb (bool_decide (e ∈ Classes.helped (after l))))|].
        exact Hcl. } 
    destruct (beside listed r) eqn:Eb; [exact Hcl|].
    assert (own r l = []) as En by (destruct (own r l); [done|by discriminate (Hb ltac:(done))]).
    assert ((1 <? length (own r listed))%nat = false) as Et.
    { destruct (own r listed) eqn:Eo'; [done|]. by rewrite (proj2 (beside_own r)) in Eb; rewrite ?Eo'. }
    rewrite En, Et in *. cbn in Hcl |- *. specialize (Ho eq_refl eq_refl).
    case_bool_decide as Hin; cbn; rewrite ?bin_app, ?bin_one, Hcl.
    + apply Ho in Hin. by destruct (helpers r l).
    + destruct (helpers r l) eqn:Ehl; [|by destruct Hin; apply Ho]. cbn.
      by rewrite bool_decide_eq_true_2.
  - rewrite Eown, <- Hcm. by repeat match goal with |- context [if ?b then _ else _] => destruct b end.
  - intros Hf. rewrite Hf. split; [done|intros _]. case_bool_decide as Hin; cbn; [done|].
    rewrite elem_of_app. right. by apply list_elem_of_singleton.
  - intros Hf Hbe. rewrite Hf, Hbe. split; [done|intros _]. cbn. case_bool_decide as Hin; cbn; [done|].
    rewrite elem_of_app. right. by apply list_elem_of_singleton.
Qed.

(** A record's own container seen. *)
Lemma tracks_own r l o :
  r ∈ records -> tracks r l -> labelled r o = true -> environment_role o = true ->
  length (own r (l ++ [o])) <= length (own r listed) -> beside listed r = true -> tracks r (l ++ [o]).
Proof.
  intros Hr [Hcl Hcm Hh Ho] Hl Hrole Hlen Hb. destruct (classify_labelled r o (after l) Hr Hl) as [Eo Ec].
  rewrite Hrole in Ec. assert (own r (l ++ [o]) = own r l ++ [o]) as Eown by by rewrite own_snoc, Hl, Hrole.
  assert (helpers r (l ++ [o]) = helpers r l) as Ehelp by by rewrite helpers_snoc, Hl, Hrole, app_nil_r.
  rewrite Eown, length_app in Hlen. cbn in Hlen.
  set (e := EnvironmentRecord.environment r) in *.
  assert (own r (l ++ [o]) <> []) as Hne by (rewrite Eown; by destruct (own r l)).
  rewrite Eown in Hne.
  split; rewrite ?after_snoc, ?Ec; unfold classify_own; fold e; rewrite ?twins_own, ?Eown.
  - unfold said in Hcl |- *. rewrite Eown.
    destruct (Nat.ltb_spec 1 (length (own r listed))) as [Ht|Ht].
    + case_bool_decide as Hin; cbn; rewrite ?bin_app, ?bin_one, Hcl.
      * apply Hcm in Hin. by destruct (own r l).
      * destruct (own r l) eqn:En; [|by destruct Hin; apply Hcm]. cbn. by rewrite bool_decide_eq_true_2.
    + assert (own r l = []) as En by (destruct (own r l); [done|cbn in Hlen; lia]).
      rewrite En, Hb, andb_false_r in *. cbn. unfold sole. fold e.
      repeat case_match; cbn; rewrite ?bin_app, ?bin_one, ?Hcl; cbn; rewrite ?bool_decide_eq_true_2 by done; done.
  - split; [done|intros _]. destruct (Nat.ltb_spec 1 (length (own r listed))) as [Ht|Ht].
    + case_bool_decide as Hin; cbn; [done|]. rewrite elem_of_app. right. by apply list_elem_of_singleton.
    + assert (e ∈ Classes.claimed (Classes.claim (after l) e)) as Hin.
      { cbn. rewrite elem_of_app. right. by apply list_elem_of_singleton. }
      by repeat case_match.
  - intros Hf. rewrite Ehelp, <- Hh by done.
    by repeat match goal with |- context [if ?b then _ else _] => destruct b | |- context [match ?s with _ => _ end] => destruct s end.
  - intros _ Hbe. by rewrite Hb in Hbe.
Qed.

(** Every container seen is accounted for. *)
Lemma tracks_all r l rest :
  r ∈ records -> listed = l ++ rest -> tracks r l.
Proof.
  intros Hr. revert rest. induction l as [|o l IH] using rev_ind; intros rest El.
  - split; cbn; try (intros; split; [by intros ?%not_elem_of_nil|done]).
    unfold said. cbn. by repeat case_match.
  - rewrite <- app_assoc in El. specialize (IH _ El).
    assert (own r l <> [] -> beside listed r = true) as Hb.
    { intros Hne. apply beside_own. rewrite El. unfold own in *. rewrite List.filter_app. intros E.
      by apply app_eq_nil in E as [? _]. }
    destruct (labelled r o) eqn:Hl.
    + destruct (environment_role o) eqn:Hrole; [|by apply tracks_helper].
      apply tracks_own; try done.
      * rewrite El, app_assoc. unfold own. rewrite (List.filter_app _ (l ++ [o]) rest), length_app. lia.
      * apply beside_own. rewrite El. unfold own. rewrite !List.filter_app. cbn. rewrite Hl, Hrole. cbn.
        intros E. by apply app_eq_nil in E as [_ [=]].
    + destruct (agree_labelled r o (after l) Hr Hl) as (A1 & A2 & A3 & A4). destruct IH as [B1 B2 B3 B4].
      assert (own r (l ++ [o]) = own r l) as Eo by by rewrite own_snoc, Hl, app_nil_r.
      assert (helpers r (l ++ [o]) = helpers r l) as Eh by by rewrite helpers_snoc, Hl, app_nil_r.
      split; rewrite ?after_snoc; unfold said; rewrite ?Eo, ?Eh.
      * rewrite A1. exact B1.
      * by rewrite A2.
      * intros Hf. rewrite A3. by apply B3.
      * intros Hf Hbe. rewrite A4. by apply B4.
Qed.

(** ** The loop over the records *)

(** What the loop says of a record. *)
Definition late (acc : Classes.t) r : list ReconcileClass.t :=
  if negb (is_final (EnvironmentRecord.state r)) && negb (in_flight current r)
     && negb (bool_decide (EnvironmentRecord.environment r ∈ Classes.claimed acc))
  then
    if bool_decide (EnvironmentRecord.environment r ∈ Classes.helped acc)
    then [ReconcileClass.Pending r] else [ReconcileClass.Missing r]
  else [].

Lemma late_about acc r c : c ∈ late acc r -> about c = Some (EnvironmentRecord.environment r).
Proof. unfold late. repeat case_match; by intros ?%list_elem_of_singleton || intros ?%not_elem_of_nil; subst. Qed.

Lemma classify_records rs acc :
  Classes.classes (fold_left (classify_record current) rs acc) = Classes.classes acc ++ (rs ≫= late acc).
Proof.
  revert acc. induction rs as [|r rs IH]; intros acc; cbn; [by rewrite app_nil_r|]. rewrite IH.
  assert (Classes.classes (classify_record current acc r) = Classes.classes acc ++ late acc r /\
    Classes.claimed (classify_record current acc r) = Classes.claimed acc /\
    Classes.helped (classify_record current acc r) = Classes.helped acc) as (-> & Ec & Eh).
  { unfold classify_record, late. case_match; [|by rewrite app_nil_r]. by case_match. }
  rewrite <- app_assoc. do 2 f_equal. unfold late. by rewrite Ec, Eh.
Qed.

Lemma bin_none k (l : list ReconcileClass.t) : (forall c, c ∈ l -> about c <> k) -> bin about k l = [].
Proof.
  induction l as [|c l IH]; intros Hl; [done|]. change (c :: l) with ([c] ++ l). rewrite bin_app, bin_one.
  rewrite bool_decide_eq_false_2, IH; [done|by intros c' ?; apply Hl; right|by apply Hl; left].
Qed.

Lemma bin_all k (l : list ReconcileClass.t) : (forall c, c ∈ l -> about c = k) -> bin about k l = l.
Proof.
  induction l as [|c l IH]; intros Hl; [done|]. change (c :: l) with ([c] ++ l). rewrite bin_app, bin_one.
  rewrite bool_decide_eq_true_2, IH; [done|by intros c' ?; apply Hl; right|by apply Hl; left].
Qed.

Lemma bin_late acc r : r ∈ records ->
  bin about (Some (EnvironmentRecord.environment r)) (records ≫= late acc) = late acc r.
Proof.
  intros Hr. revert distinct Hr. induction records as [|r' rs IH]; [by intros _ ?%not_elem_of_nil|].
  cbn. intros [Hn Hd]%NoDup_cons Hr. rewrite bin_app. apply elem_of_cons in Hr as [->|Hr].
  - rewrite bin_all by (by intros c ?%late_about). rewrite bin_none, app_nil_r; [done|].
    intros c (x & Hc%late_about & Hx)%list_elem_of_bind E. apply Hn. rewrite Hc in E. injection E as <-.
    by apply list_elem_of_fmap_2.
  - rewrite bin_none; [by apply IH|].
    intros c Hc%late_about E. rewrite Hc in E. injection E as E. apply Hn. rewrite E.
    by apply list_elem_of_fmap_2.
Qed.

(** The classes of one record, once both loops end. *)
Lemma classified r : r ∈ records ->
  bin about (Some (EnvironmentRecord.environment r)) (Reconcile.classify records listed current) = verdict r.
Proof.
  intros Hr. destruct (tracks_all r listed [] Hr) as [Hcl Hcm Hh Ho]; [by rewrite app_nil_r|].
  unfold Reconcile.classify. fold (after listed). rewrite classify_records, bin_app, Hcl, bin_late by done.
  unfold said, late, verdict. pose proof (beside_own r) as Hb.
  destruct (own r listed) as [|o [|o' l]] eqn:Eo; cbn.
  - rewrite (bool_decide_eq_false_2 (_ ∈ Classes.claimed _)) by (rewrite Hcm; by intros []).
    destruct (beside listed r); [by destruct (proj1 Hb eq_refl)|].
    destruct (is_final _) eqn:Ef; cbn; [by destruct (helpers r listed)|].
    destruct (in_flight current r); cbn; [by destruct (helpers r listed)|].
    specialize (Hh eq_refl). destruct (helpers r listed).
    + rewrite bool_decide_eq_false_2; [done|]. rewrite Hh. by intros [].
    + rewrite bool_decide_eq_true_2; [done|]. by apply Hh.
  - rewrite (bool_decide_eq_true_2 (_ ∈ Classes.claimed _)) by by apply Hcm.
    rewrite andb_false_r. cbn. by rewrite ?app_nil_r.
  - rewrite (bool_decide_eq_true_2 (_ ∈ Classes.claimed _)) by by apply Hcm.
    rewrite andb_false_r. cbn. by rewrite ?app_nil_r.
Qed.

(** ** Strangers *)

Definition stranger o : bool := negb (existsb (fun r => labelled r o) records).

Lemma classify_stranger acc o :
  exists more, Classes.classes (classify_owned records listed current acc o) = Classes.classes acc ++ more /\
    bin about None more =
      (if stranger o then [ReconcileClass.Foreign (OwnedEnvironment.container o)] else []) /\
    forall c e, c ∈ more -> about c = Some e -> e ∈ EnvironmentRecord.environment <$> records.
Proof.
  destruct (stranger o) eqn:Es.
  - exists [ReconcileClass.Foreign (OwnedEnvironment.container o)]. split_and!; [|done|].
    2:{ by intros c e ->%list_elem_of_singleton. }
    unfold classify_owned. destruct (OwnedEnvironment.labels_exact o) eqn:Ex; [|done].
    destruct (OwnedEnvironment.environment_id o) as [e|] eqn:Eo; [|done].
    destruct (find _ records) as [r|] eqn:Ef; [|done]. apply find_some in Ef as [Hin <-%bool_decide_eq_true].
    case_bool_decide as Erun; [|done]. unfold stranger in Es. apply negb_true_iff, not_true_iff_false in Es.
    destruct Es. apply existsb_exists. exists r. split; [done|]. unfold labelled.
    by rewrite Ex, Eo, Erun, !bool_decide_eq_true_2.
  - unfold stranger in Es. apply negb_false_iff, existsb_exists in Es as (r & Hr & Hl).
    apply list_elem_of_In in Hr. destruct (classify_labelled r o acc Hr Hl) as [Eo ->].
    assert (forall c, c ∈ [ReconcileClass.Ambiguous (EnvironmentRecord.environment r);
        ReconcileClass.Orphan o; ReconcileClass.StillRunning r; ReconcileClass.Stopped r; ReconcileClass.Pending r] ->
      bin about None [c] = [] /\ forall c' e, c' ∈ [c] -> about c' = Some e ->
        e ∈ EnvironmentRecord.environment <$> records) as Hone.
    { intros c Hc. assert (about c = Some (EnvironmentRecord.environment r)) as Ea.
      { repeat (apply elem_of_cons in Hc as [->|Hc]; [done|]). by apply not_elem_of_nil in Hc. }
      rewrite bin_one, bool_decide_eq_false_2 by (by rewrite Ea). split; [done|].
      intros c' e ->%list_elem_of_singleton E. rewrite Ea in E. injection E as <-.
      by apply list_elem_of_fmap_2. }
    assert (exists more, Classes.classes acc = Classes.classes acc ++ more /\ bin about None more = [] /\
      forall c e, c ∈ more -> about c = Some e -> e ∈ EnvironmentRecord.environment <$> records) as Hno.
    { exists []. rewrite app_nil_r. split_and!; [done..|]. by intros c e ?%not_elem_of_nil. }
    unfold classify_own, classify_helper. repeat case_match; try exact Hno;
      (eexists; split; [reflexivity|apply Hone; repeat constructor]).
Qed.

Lemma after_strangers l :
  bin about None (Classes.classes (after l)) =
    map (fun o => ReconcileClass.Foreign (OwnedEnvironment.container o)) (List.filter stranger l) /\
  forall c e, c ∈ Classes.classes (after l) -> about c = Some e -> e ∈ EnvironmentRecord.environment <$> records.
Proof.
  induction l as [|o l [IH1 IH2]] using rev_ind; [split; [done|by intros c e ?%not_elem_of_nil]|].
  rewrite after_snoc. destruct (classify_stranger (after l) o) as (more & -> & Hm & Hc). split.
  - rewrite bin_app, IH1, Hm, List.filter_app, map_app. f_equal. cbn. by destruct (stranger o).
  - intros c e [Hin|Hin]%elem_of_app; [by apply IH2|by apply Hc].
Qed.

Lemma classify_foreign :
  bin about None (Reconcile.classify records listed current) =
  map (fun o => ReconcileClass.Foreign (OwnedEnvironment.container o)) (List.filter stranger listed).
Proof.
  unfold Reconcile.classify. fold (after listed). rewrite classify_records, bin_app.
  destruct (after_strangers listed) as [-> _]. rewrite (bin_none None (records ≫= _)), app_nil_r; [done|].
  intros c (r & Hc%late_about & _)%list_elem_of_bind. by rewrite Hc.
Qed.

Lemma classify_about c e :
  c ∈ Reconcile.classify records listed current -> about c = Some e ->
  e ∈ EnvironmentRecord.environment <$> records.
Proof.
  unfold Reconcile.classify. fold (after listed). rewrite classify_records.
  intros [Hc|(r & Hc%late_about & Hr)%list_elem_of_bind]%elem_of_app E; [by eapply after_strangers|].
  rewrite Hc in E. injection E as <-. by apply list_elem_of_fmap_2.
Qed.

Lemma classify_verdicts rs :
  (forall r, r ∈ rs -> r ∈ records) ->
  ((EnvironmentRecord.environment <$> rs) ≫= fun e => bin about (Some e) (Reconcile.classify records listed current)) =
  rs ≫= verdict.
Proof.
  induction rs as [|r rs IH]; intros Hr; [done|]. cbn. rewrite (classified r) by (apply Hr; by left).
  f_equal. apply IH. intros x Hx. apply Hr. by right.
Qed.
End verdict.
