(* ===== verification/SessionRuns.v ===== *)
(** The operations on sessions, runs and environments as transactions, and the
    worlds they lead to: committed, flushed, crashed, started. A session's lease
    as a lock: what [state/lease.rs] promises to whoever holds an epoch, stated
    without tables, and that its operations are it. *)

From Stdlib Require Import ZArith.
From S2P Require Export RecoveryFacts SessionFacts Reconcile.

(** What the runtime lists is labelled with ids, or with none. *)
Definition owned_ok (o : OwnedEnvironment.t) : Prop :=
  Utf8 (ContainerRef.as_str (OwnedEnvironment.container o)) /\
  (forall e, OwnedEnvironment.environment_id o = Some e -> id_ok e) /\
  (forall r, OwnedEnvironment.run_id o = Some r -> id_ok r).

Section operations.
  Context `{Sha256} (process : Process.t).

(** What [begin_incarnation] does to the tables of sessions, runs and
    environments: it increments the incarnation, reconciles tables that are not
    here, and audits the start beside. *)
Definition incarnate : op ((N * N) * N * N) :=
  let* ended := invalidate_all in
  let* unknown := reconcile_open in
  let* begun := begin_reaped_at_start process in
  done (ended, unknown, begun).

(** The bodies of the transactions, from a database. *)
Inductive operation (d : Db.t) : forall {A}, op A -> Prop :=
| op_incarnate : operation d incarnate
| op_acquire caller session ttl : id_ok session -> operation d (acquire process caller session ttl)
| op_heartbeat caller session epoch ttl : id_ok session -> operation d (heartbeat caller session epoch ttl)
| op_release caller session epoch : id_ok session -> operation d (release process caller session epoch)
| op_release_run caller session run epoch : id_ok session -> id_ok run ->
    operation d (release_run process caller session run epoch)
| op_outcome environment run prepared timing :
    id_ok environment -> id_ok run -> prepared_ok prepared -> fields_ok timing ->
    of_run (Id.as_str environment) (Id.as_str run) d ->
    operation d (record_outcome process environment run prepared timing)
| op_begin_destroy environment reason : id_ok environment -> Utf8 reason ->
    operation d (begin_destroy process environment reason)
| op_destroyed r ending timing : record_ok r -> ending_ok ending -> fields_ok timing ->
    operation d (record_destroyed r ending timing)
| op_measured r judgement timing : record_ok r -> fields_ok timing ->
    operation d (record_measured r judgement timing)
| op_drifted r reason judgement : record_ok r -> Utf8 reason -> operation d (record_drifted r reason judgement)
| op_lost r : record_ok r -> operation d (record_lost r)
| op_orphan owned removed : owned_ok owned -> operation d (record_orphan owned removed)
| op_reconciled report : operation d (record_reconciled report)
| op_record environment : operation d (record environment)
| op_live : operation d live
| op_mint prefix what : operation d (mint process prefix what).

(** ** They are lawful, and keep what sessions hold *)

Lemma report_ok report : fields_ok (ReconcileReport.fields report).
Proof.
  unfold ReconcileReport.fields. cbv zeta.
  repeat (apply fields_ok_int; [|by apply Utf8_all_ascii]).
  apply fields_ok_flag; [apply fields_ok_new|by apply Utf8_all_ascii].
Qed.

Lemma maybe_id f {prefix} key (i : option (Id.t prefix)) :
  fields_ok f -> Utf8 key -> Utf8 prefix -> (forall x, i = Some x -> id_ok x) ->
  fields_ok (Fields.maybe_text f key (Id.as_str <$> i)).
Proof.
  intros Hf Hk Hp Hi. destruct i as [i|]; [|done]. apply fields_ok_text; [done..|].
  apply id_Utf8; [done|by apply Hi].
Qed.

Lemma lawful_record_orphan owned removed : owned_ok owned -> lawful (record_orphan owned removed).
Proof.
  intros (Hc & He & Hr). apply law_audit.
  do 2 (apply maybe_id; [|by apply Utf8_all_ascii|by apply Utf8_all_ascii|done]). eauto 20 with fields.
Qed.

#[local] Hint Resolve lawful_invalidate_all lawful_reconcile_open lawful_begin_reaped_at_start : keeps.

Lemma operation_lawful d {A} (body : op A) : operation d body -> lawful body.
Proof.
  destruct 1.
  - unfold incarnate. keeps.
  - by apply lawful_acquire.
  - by apply lawful_heartbeat.
  - by apply lawful_release.
  - by apply lawful_release_run.
  - by apply lawful_record_outcome.
  - by apply lawful_begin_destroy.
  - by apply lawful_record_destroyed.
  - by apply lawful_record_measured.
  - by apply lawful_record_drifted.
  - by apply lawful_record_lost.
  - by apply lawful_record_orphan.
  - apply law_audit, report_ok.
  - apply lawful_record.
  - unfold live. keeps.
  - apply keeps_mint; [apply _|apply law_next_counter].
Qed.

Lemma operation_sessions d {A} (body : op A) c a c' :
  operation d body -> d = Work.data c -> sessions_ok d -> body c = Ok (a, c') -> sessions_ok (Work.data c').
Proof.
  intros Hop -> Hok E. destruct Hop.
  - by eapply incarnation_sessions.
  - by eapply acquire_sessions.
  - by eapply heartbeat_sessions.
  - by eapply release_sessions.
  - by eapply release_run_sessions.
  - by eapply record_outcome_sessions.
  - eapply settles_ok, Hok. by apply settles_begin_destroy in E.
  - eapply settles_ok, Hok. by apply settles_record_destroyed in E.
  - apply audit_Ok in E as [-> _]. done.
  - apply audit_Ok in E as [-> _]. done.
  - eapply settles_ok, Hok. by apply settles_record_lost in E.
  - apply audit_Ok in E as [-> _]. done.
  - apply audit_Ok in E as [-> _]. done.
  - eapply settles_ok, Hok. by apply settles_record in E.
  - eapply settles_ok, Hok. assert (keeps (on_data settles) live) as Hk by (unfold live; keeps). by apply Hk in E.
  - eapply settles_ok, Hok. apply (keeps_mint (on_data settles)) in E; [done|].
    apply keeps_exec, settles_next_counter.
Qed.

End operations.

(** ** Histories *)

Section runs.
  Context `{Sha256}.

Abbreviation world := (World.t Db.t).

(** One transaction, flush or crash, cut short by any fates. *)
Inductive step (w : world) : world -> Prop :=
| step_commit process s {A} now (body : op A) : operation process (World.data w) body ->
    step w (committed now body (World.with_script w s)).2
| step_flush s n : n <= length (lines_of (World.tables w)) ->
    step w (Shared.flush (N.of_nat n) (World.with_script w s)).2
| step_crash s text : File.survives (World.log w) text ->
    step w (start_log (World.with_script (World.with_log w (File.found text)) s)).2.

(** What every history keeps of the data, committed or not. *)
Definition kept (w w' : world) : Prop :=
  evolves (World.data w) (World.data w') /\
  (sessions_ok (World.data w) -> sessions_ok (World.data w')).

Lemma kept_data w w' : World.data w' = World.data w -> kept w w'.
Proof. unfold kept. by intros ->. Qed.

#[export] Instance kept_preorder : PreOrder kept.
Proof.
  split; [by intros w; apply kept_data|]. intros a b c [? ?] [? ?]. split; [by etransitivity|auto].
Qed.

Lemma kept_body process (w : world) {A} now (body : op A) a work w' :
  operation process (World.data w) body -> body (start_of w now) = Ok (a, work) -> World.data w' = Work.data work ->
  kept w w'.
Proof.
  intros Hop Eb Ed. unfold kept. rewrite Ed. split.
  - by apply (operation_lawful _ _ _ Hop) in Eb as (_ & ? & _).
  - intros Hok. by eapply (operation_sessions process (World.data w) body (start_of w now)).
Qed.

Lemma step_kept w w' : inv w -> step w w' -> inv w' /\ kept w w'.
Proof.
  intros Hinv [process s A now body Hop|s n Hn|s text Hs].
  - apply (wp_snd _ (fun w2 => inv w2 /\ kept w w2)).
    eapply wp_mono; [apply committed_wp; [exact Hinv|by eapply lawful_body_ok, operation_lawful]| |].
    + intros [x seq] w2 (work & Eb & _ & _ & _ & [_ Ed] & Hi). split; [done|]. by eapply kept_body.
    + intros e w2 [Hi [[_ Ed]|(a & work & Eb & [_ Ed])]]; (split; [done|]); [by apply kept_data|].
      by eapply kept_body.
  - apply (wp_snd _ (fun w2 => inv w2 /\ kept w w2)).
    eapply wp_mono; [by apply flush_wp| |].
    + intros x w2 (Hi & [_ Ed] & _). split; [done|by apply kept_data].
    + intros e w2 (Hi & [_ Ed]). split; [done|by apply kept_data].
  - apply (wp_snd _ (fun w2 => inv w2 /\ kept w w2)).
    assert (sound (World.with_script (World.with_log w (File.found text)) s)) as Hsound.
    { destruct Hinv as [[Ht Hf] _]. split; [done|]. by apply found_ok, (survives_ok _ (World.log w)). }
    eapply wp_mono; [by apply start_log_wp| |].
    + intros x w2 (Hi & [_ Ed] & _). split; [done|by apply kept_data].
    + intros e w2 (Hi & [_ Ed] & _). split; [done|by apply kept_data].
Qed.

Lemma steps_kept w w' : inv w -> rtc step w w' -> inv w' /\ kept w w'.
Proof.
  intros Hinv Hs. revert Hinv. induction Hs as [w|w1 w2 w3 H12 _ IH]; intros Hinv; [by split; [|apply kept_data]|].
  destruct (step_kept _ _ Hinv H12) as [Hi Hk]. destruct (IH Hi) as [? ?].
  split; [done|by transitivity w2].
Qed.

(** An answer, and what it leaves. *)
Lemma transact_answer w s {A} now (body : op A) a w' :
  inv w -> lawful body -> transact now body (World.with_script w s) = (Ok a, w') ->
  inv w' /\ exists work, body (start_of w now) = Ok (a, work) /\ World.data w' = Work.data work.
Proof.
  intros Hinv Hl E. pose proof (transact_wp now body (World.with_script w s) Hinv (lawful_body_ok _ Hl)) as Ht.
  unfold wp in Ht. rewrite E in Ht. destruct Ht as (Hi & work & Eb & [_ Ed] & _). eauto.
Qed.

End runs.

(** * The lock *)

Module Lock.

(** A session's lock, with the epoch of its last tenure. *)
Inductive t :=
| Never
| Held (epoch : N) (holder : N * N) (subject : string) (expires : N)
| Released (epoch : N) (last_holder : N * N)
| Invalidated (epoch : N).

#[global] Instance eq_dec : EqDecision t.
Proof. solve_decision. Defined.

(** One who asks: a holder, its subject, and the time. *)
Record asker := Ask { who : N * N; subject : string; at_ms : N }.

Definition last_epoch (self : t) : N :=
  match self with Never => 0 | Held e _ _ _ | Released e _ | Invalidated e => e end.

(** A lock is another's while that holder's tenure lasts. *)
Definition taken (a : asker) (self : t) : bool :=
  match self with
  | Held _ holder _ expires => (at_ms a <? expires)%N && negb (bool_decide (holder = who a))
  | _ => false
  end.

(** It is the asker's at an epoch while the tenure lasts. *)
Definition fenced (a : asker) (epoch : N) (self : t) : bool :=
  match self with
  | Held e holder s expires =>
      (e =? epoch)%N && bool_decide (holder = who a) && String.eqb s (subject a) && (at_ms a <? expires)%N
  | _ => false
  end.

Definition acquire (a : asker) (ttl : N) (self : t) : Reply.t N * t :=
  if taken a self then (Reply.Refused RefusalReason.LeaseHeld, self)
  else
    let epoch := (last_epoch self + 1)%N in
    (Reply.Done epoch, Held epoch (who a) (subject a) (saturating_add (at_ms a) ttl)).

Definition heartbeat (a : asker) (epoch ttl : N) (self : t) : Reply.t () * t :=
  if fenced a epoch self
  then (Reply.Done (), Held epoch (who a) (subject a) (saturating_add (at_ms a) ttl))
  else (Reply.Refused RefusalReason.StaleEpoch, self).

(** Releasing again what one released is acknowledged. *)
Definition release (a : asker) (epoch : N) (self : t) : Reply.t () * t :=
  if fenced a epoch self then (Reply.Done (), Released epoch (who a))
  else if bool_decide (self = Released epoch (who a)) then (Reply.Done (), self)
  else (Reply.Refused RefusalReason.StaleEpoch, self).

Definition invalidate (self : t) : t :=
  match self with Held e _ _ _ => Invalidated e | _ => self end.

End Lock.

(** What a row, or its absence, shows of a lock. *)
Inductive shows : option LeaseRow.t -> Lock.t -> Prop :=
| shows_never : shows None Lock.Never
| shows_held r e h s x :
    LeaseRow.state r = "HELD" -> LeaseRow.epoch r = Z.of_N e -> LeaseRow.holder_subject r = Some s ->
    LeaseRow.holder_incarnation r = Some (Z.of_N h.1) -> LeaseRow.holder_connection r = Some (Z.of_N h.2) ->
    LeaseRow.expires_ms r = Some (Z.of_N x) -> shows (Some r) (Lock.Held e h s x)
| shows_released r e h :
    LeaseRow.state r = "RELEASED" -> LeaseRow.epoch r = Z.of_N e ->
    LeaseRow.last_holder_incarnation r = Some (Z.of_N h.1) ->
    LeaseRow.last_holder_connection r = Some (Z.of_N h.2) -> shows (Some r) (Lock.Released e h)
| shows_invalidated r e :
    LeaseRow.state r = "INVALIDATED" -> LeaseRow.epoch r = Z.of_N e ->
    shows (Some r) (Lock.Invalidated e).

Definition asker_of (caller : CallerContext.t) (now : N) : Lock.asker :=
  Lock.Ask (holder_pair caller) (AuthenticatedSubject.storage_key (CallerContext.subject caller)) now.

(** ** What the operations read *)

Lemma pair_of i c : Lease.pair (Some (Z.of_N i)) (Some (Z.of_N c)) = Some (i, c).
Proof. by apply pair_Some. Qed.

Lemma Some_decide {A} `{EqDecision A} (a b : A) : bool_decide (Some a = Some b) = bool_decide (a = b).
Proof. apply bool_decide_ext. split; congruence. Qed.

Lemma some_text_decide (s t : string) : bool_decide (Some s = Some t) = String.eqb s t.
Proof. rewrite Some_decide. destruct (String.eqb_spec s t); [by apply bool_decide_eq_true|by apply bool_decide_eq_false]. Qed.

(** The fence of the code is the fence of the lock. *)
Lemma fenced_shows r lease caller epoch now l :
  shows (Some r) l -> Lease.of_row r = Ok lease ->
  fenced_ok lease caller epoch now = Lock.fenced (asker_of caller now) epoch l.
Proof.
  intros Hs (Ee & Es & Esub & Eh & Ex & _)%of_row_Ok. unfold fenced_ok. rewrite Es, Esub, Eh, Ex.
  inversion Hs as [|? e [i k] s x Hst He Hsub Hi Hk Hx|? ? ? Hst|? ? Hst]; subst; rewrite Hst; [|done..].
  rewrite Hsub, Hi, Hk, Hx, pair_of. cbn [mbind option_bind]. rewrite u64_of_of_N.
  unfold Lock.fenced, asker_of. cbn [Lock.who Lock.subject Lock.at_ms is_some_and].
  assert (Lease.epoch lease = e) as -> by lia. rewrite Some_decide, some_text_decide. done.
Qed.

(** So is the decision of [acquire]. *)
Lemma tenure_shows r lease caller now l decided :
  shows (Some r) l -> Lease.of_row r = Ok lease ->
  next_tenure (Some lease) caller now = Ok decided ->
  fst <$> decided = (if Lock.taken (asker_of caller now) l then None else Some (Lock.last_epoch l + 1)%N).
Proof.
  intros Hs (Ee & Es & _ & Eh & Ex & _)%of_row_Ok. unfold next_tenure. rewrite Es, Eh, Ex.
  assert (forall e, Lease.epoch lease = e -> (e < MAX_EPOCH)%N -> saturating_add (Lease.epoch lease) 1 = (e + 1)%N) as Hnext.
  { intros e <- He. unfold saturating_add. assert (MAX_EPOCH <= U64_MAX)%N by done. lia. }
  inversion Hs as [|? e [i k] s x Hst He Hsub Hi Hk Hx|? e ? Hst He|? e Hst He]; subst; rewrite Hst.
  - rewrite Hi, Hk, Hx, pair_of. cbn. rewrite u64_of_of_N. cbn.
    rewrite Some_decide.
    destruct (_ && _); [by intros [= <-]|]. destruct (N.leb_spec MAX_EPOCH (Lease.epoch lease)); [done|].
    intros [= <-]. cbn. f_equal. apply Hnext; lia.
  - cbn. destruct (N.leb_spec MAX_EPOCH (Lease.epoch lease)); [done|]. intros [= <-]. cbn. f_equal. apply Hnext; lia.
  - cbn. destruct (N.leb_spec MAX_EPOCH (Lease.epoch lease)); [done|]. intros [= <-]. cbn. f_equal. apply Hnext; lia.
Qed.

Lemma shows_load session (c : Work.t Db.t) lk l c' `{Sha256} :
  shows (Db.session_lease (Work.data c) !! Id.as_str session) lk -> load session c = Ok (l, c') ->
  c' = c /\
  match l with
  | Some lease => exists r, Db.session_lease (Work.data c) !! Id.as_str session = Some r /\
      Lease.of_row r = Ok lease /\ shows (Some r) lk
  | None => Db.session_lease (Work.data c) !! Id.as_str session = None /\ lk = Lock.Never
  end.
Proof.
  intros Hs [-> El]%load_lease_Ok. split; [done|]. destruct (_ !! _) as [r|].
  - destruct El as (lease & Er & ->). eauto.
  - subst. by inversion Hs.
Qed.

(** ** The operations are the lock's *)

Section refines.
  Context `{Sha256} (process : Process.t).
  Implicit Types (c : Work.t Db.t).

Definition row_of (session : SessionId) c : option LeaseRow.t :=
  Db.session_lease (Work.data c) !! Id.as_str session.

(** What other sessions see of an operation on one. *)
Definition others_untouched (session : SessionId) c c' : Prop :=
  forall other : SessionId, Id.as_str other <> Id.as_str session -> row_of other c' = row_of other c.

Definition epoch_of (reply : Reply.t Epoch.t) : Reply.t N :=
  match reply with Reply.Done e => Reply.Done (Epoch.get e) | Reply.Refused reason => Reply.Refused reason end.

Lemma shows_tenure caller e x last :
  shows (Some (tenure_row caller e x last))
    (Lock.Held e (holder_pair caller) (AuthenticatedSubject.storage_key (CallerContext.subject caller)) x).
Proof. by apply shows_held. Qed.

Lemma acquire_refines caller session ttl c reply td c' l :
  shows (row_of session c) l -> acquire process caller session ttl c = Ok ((reply, td), c') ->
  exists l', shows (row_of session c') l' /\
    Lock.acquire (asker_of caller (Work.now c)) ttl l = (epoch_of reply, l') /\ others_untouched session c c'.
Proof.
  intros Hs (cur & dec & El & Ed & Hd)%acquire_Ok. unfold Lock.acquire, others_untouched, row_of in *.
  pose proof (shows_load _ _ _ _ _ Hs El) as [_ Hcur].
  assert (fst <$> dec = if Lock.taken (asker_of caller (Work.now c)) l then None else Some (Lock.last_epoch l + 1)%N) as Edec.
  { destruct cur as [lease|]; [destruct Hcur as (r & _ & Er & Hr); by eapply tenure_shows|].
    destruct Hcur as [_ ->]. by injection Ed as <-. }
  destruct dec as [[epoch prior]|]; destruct (Lock.taken _ _); try done.
  - injection Edec as ->. destruct Hd as (e & -> & Ee & [[last Hrow] Ho]%tenure_written_row); [|done].
    rewrite Hrow. eexists. split; [apply shows_tenure|]. cbn. rewrite Ee. split; [done|]. intros. by apply Ho.
  - destruct Hd as [-> ->]. by exists l.
Qed.

Lemma fence_shows session c lease l caller epoch :
  shows (row_of session c) l -> load session c = Ok (lease, c) ->
  is_some_and lease (fun l => fenced_ok l caller epoch (Work.now c)) =
  Lock.fenced (asker_of caller (Work.now c)) epoch l.
Proof.
  intros Hs El. apply (shows_load _ _ _ _ _ Hs) in El as [_ El]. destruct lease as [lease|].
  - destruct El as (r & _ & Er & Hr). cbn. by eapply fenced_shows.
  - by destruct El as [_ ->].
Qed.

Lemma heartbeat_refines caller session epoch ttl c reply c' l :
  shows (row_of session c) l -> heartbeat caller session epoch ttl c = Ok (reply, c') ->
  exists l', shows (row_of session c') l' /\
    Lock.heartbeat (asker_of caller (Work.now c)) (Epoch.get epoch) ttl l = (reply, l') /\
    others_untouched session c c'.
Proof.
  intros Hs (lease & El & E)%heartbeat_Ok. rewrite (fence_shows session c lease l) in E by done.
  unfold Lock.heartbeat, others_untouched. destruct (Lock.fenced _ _ _) eqn:Ef.
  2:{ destruct E as [-> Ed]. exists l. unfold row_of. rewrite Ed. by split_and!. }
  destruct E as (-> & keys & (_ & _ & Er & Eo)%update_session_Ok).
  destruct l as [|e h s x| |]; [done| |done..]. cbn in Ef. rewrite !andb_true_iff in Ef.
  destruct Ef as [[[->%N.eqb_eq Hh%bool_decide_eq_true] ->%String.eqb_eq] _].
  unfold row_of in *. rewrite Er. inversion Hs; subst. cbn [fmap option_fmap option_map].
  eexists. split; [by apply shows_held|]. split; [done|]. intros other Hne. by apply Eo.
Qed.

Lemma release_refines caller session epoch c reply td c' l :
  shows (row_of session c) l -> release process caller session epoch c = Ok ((reply, td), c') ->
  exists l', shows (row_of session c') l' /\
    Lock.release (asker_of caller (Work.now c)) (Epoch.get epoch) l = (reply, l') /\
    others_untouched session c c'.
Proof.
  intros Hs (lease & El & E)%release_Ok. rewrite (fence_shows session c lease l) in E by done.
  unfold Lock.release, others_untouched. destruct (Lock.fenced _ _ _) eqn:Ef.
  - destruct E as (-> & lease' & keys & d & c2 & _ & (_ & _ & Er & Eo)%update_session_Ok & Erp & Ed).
    apply (frame_reap process Db.session_lease) in Erp; [|done..]. red in Erp. cbn in Erp.
    unfold row_of in *. rewrite Ed, Erp.
    destruct l as [|e h s x| |]; [done| |done..]. cbn in Ef. rewrite !andb_true_iff in Ef.
    destruct Ef as [[[->%N.eqb_eq Hh%bool_decide_eq_true] _] _].
    rewrite Er. inversion Hs; subst. cbn [fmap option_fmap option_map].
    exists (Lock.Released (Epoch.get epoch) (holder_pair caller)). split; [by apply shows_released|]. split; [done|]. intros other Hne. by apply Eo.
  - destruct E as [Ed ->]. exists l. unfold row_of in *. rewrite Ed. split; [done|]. split; [|done].
    apply (shows_load _ _ _ _ _ Hs) in El as [_ El]. destruct lease as [lease|]; cbn.
    2:{ by destruct El as [_ ->]. }
    destruct El as (r & _ & Er & Hr). unfold released_already.
    apply of_row_Ok in Er as (Ee & Est & _ & _ & _ & Elh). rewrite Est, Elh.
    inversion Hr as [|? e h s x Hst|? e [i k] Hst He Hi Hk|? e Hst]; subst; rewrite Hst; try done.
    rewrite Hi, Hk, pair_of, Some_decide. cbn [String.eqb Ascii.eqb Bool.eqb andb].
    assert (Lease.epoch lease = e) as -> by lia.
    cbn [fst snd]. destruct (N.eqb_spec e (Epoch.get epoch)) as [->|Hne]; cbn [andb].
    + repeat case_bool_decide; congruence.
    + case_bool_decide; congruence.
Qed.

Lemma invalidate_refines session c a c' l :
  shows (row_of session c) l -> invalidate_all c = Ok (a, c') ->
  shows (row_of session c') (Lock.invalidate l).
Proof.
  intros Hs (ls & c1 & (d & El & ->)%exec_Ok & (ms & c2 & [= <- <-] & E)%and_then_Ok)%and_then_Ok.
  apply and_then_Ok in E as (ez & c2 & [_ ->]%from_Ok & (rs & c3 & (d' & Er & ->)%exec_Ok & [= _ <-])%and_then_Ok).
  apply update_run_Ok in Er as (Er & _). unfold row_of in *. cbn in *. rewrite Er.
  unfold update_lease in El. destruct (update _ _ _ _) as [[rows ks]|] eqn:Eu; [|done]. injection El as _ <-.
  cbn. rewrite (update_rows _ _ _ _ _ _ _ Eu). unfold set_where.
  inversion Hs as [|? e h s x Hst|? e h Hst|? e Hst]; subst; cbn [fmap option_fmap option_map];
    rewrite ?Hst; cbn; by econstructor.
Qed.
End refines.
