(* ===== verification/SessionTheorems.v ===== *)
(** The properties of sessions: what an epoch fences, what ends with it, what
    is never minted twice, and what reconciliation and judgement decide. *)

From Stdlib Require Import ZArith.
From stdpp Require Import sets.
From S2P Require Export SessionRuns.

(** ** Identifiers minted *)

Section mint.
  Context `{Sha256}.

Lemma next_uuid_Ok process c v c' :
  next_uuid process c = Ok (v, c') ->
  exists n, uuid7 (Work.now c) n (Process.store_instance process) = Some v /\
    Z.of_N n = (StoreMeta.id_counter (Db.store_meta (Work.data c)) + 1)%Z /\
    StoreMeta.id_counter (Db.store_meta (Work.data c')) = Z.of_N n.
Proof.
  intros (z & c1 & [= <- <-] & (n & c2 & [En ->]%from_Ok & E)%and_then_Ok)%and_then_Ok.
  destruct (_ <=? _)%N; [done|].
  apply and_then_Ok in E as (z & c1 & (d & (Ez & Ed & _)%next_counter_Ok & ->)%exec_Ok & E).
  apply and_then_Ok in E as (m & c2 & [Em ->]%from_Ok & (ms & c3 & [= <- <-] & [Eu ->]%from_Ok)%and_then_Ok).
  unfold counter in Em. destruct (u64_of z) as [m'|] eqn:Eu'; [|done]. injection Em as ->.
  apply u64_of_Some in Eu'. cbn in *. exists m. destruct (uuid7 _ _ _) as [v'|]; [|done]. injection Eu as ->.
  split_and!; [done|congruence|congruence].
Qed.

Lemma mint_Ok process prefix what c i c' :
  mint process prefix what c = Ok (i, c') ->
  exists v n, Id.as_str i = prefix +:+ "_" +:+ encode_uuid v /\
    uuid7 (Work.now c) n (Process.store_instance process) = Some v /\
    Z.of_N n = (StoreMeta.id_counter (Db.store_meta (Work.data c)) + 1)%Z /\
    StoreMeta.id_counter (Db.store_meta (Work.data c')) = Z.of_N n.
Proof.
  intros (v & c1 & (n & Hn)%next_uuid_Ok & [E ->]%from_Ok)%and_then_Ok. exists v, n.
  destruct (Id.from_uuid prefix v) as [j|] eqn:Ej; [|done]. injection E as ->.
  by apply parse_Some in Ej as [-> _].
Qed.

(** A text says which value it encodes. *)
Lemma encode_uuid_inj v v' :
  (v <= U128_MAX)%N -> is_uuid7 v = true -> (v' <= U128_MAX)%N -> is_uuid7 v' = true ->
  encode_uuid v = encode_uuid v' -> v = v'.
Proof.
  intros Hv Hu Hv' Hu' E. assert (decode_uuid7 (encode_uuid v) = Some v) as E1 by by apply decode_uuid7_Some.
  assert (decode_uuid7 (encode_uuid v') = Some v') as E2 by by apply decode_uuid7_Some.
  rewrite E in E1. congruence.
Qed.

End mint.

(** * The properties *)

Section properties.
  Context `{Sha256}.

(** C6: Fencing survives crashes. Once a lease was answered at an epoch, in
    every world a history of transactions, flushes, crashes and starts leads
    to, whoever passes the fence does so at that epoch or a later one, at that
    epoch only as the same holder; and every later acquisition is answered a
    greater epoch. *)
Theorem fencing_survives_crashes w s process caller session ttl now e td w1 w2 :
  reachable w -> id_ok session ->
  transact now (acquire process caller session ttl) (World.with_script w s) = (Ok (Reply.Done e, td), w1) ->
  rtc step w1 w2 ->
  (forall caller' e' now' c', fence caller' session e' (start_of w2 now') = Ok (true, c') ->
     (Epoch.get e <= Epoch.get e')%N /\
     (Epoch.get e = Epoch.get e' -> holder_pair caller' = holder_pair caller)) /\
  (forall process' caller' ttl' now' s' e' td' w3,
     transact now' (acquire process' caller' session ttl') (World.with_script w2 s') =
       (Ok (Reply.Done e', td'), w3) -> (Epoch.get e < Epoch.get e')%N).
Proof.
  intros Hw%reachable_inv Hid E Hs. apply transact_answer in E as (Hi1 & work & Ea & Ed);
    [|done|by apply lawful_acquire].
  apply acquire_Done in Ea as (row & Hrow & Hheld & _). rewrite <- Ed in Hrow.
  destruct (steps_kept _ _ Hi1 Hs) as [Hi2 [[_ Hle _ _] _]].
  destruct (Hle _ _ Hrow) as (row2 & Hrow2 & Hev). split.
  - intros caller' e' now' c' (_ & Hf)%fence_Ok. destruct (Hf eq_refl) as (row' & Hr' & Hh' & _).
    cbn in Hr'. rewrite Hrow2 in Hr'. injection Hr' as <-.
    destruct (held_by_later _ _ _ _ _ _ Hev Hheld Hh') as [? Hsame]. split; [done|].
    intros Ee. symmetry. by apply Hsame.
  - intros p' caller' ttl' now' s' e' td' w3 E3. apply transact_answer in E3 as (_ & work3 & Ea3 & _);
      [|done|by apply lawful_acquire].
    apply acquire_Done in Ea3 as (row3 & _ & _ & Hlt). specialize (Hlt row2 Hrow2).
    destruct Hev as [Hev _]. destruct Hheld as (_ & He & _). lia.
Qed.


(** C8: A session's lease is a lock: for a session whose row shows a lock,
    each operation that answers answers what the lock does and leaves a row
    that shows what it becomes, other sessions' rows as they were. *)
Theorem leases_refine_locks process caller session epoch ttl c l :
  shows (row_of session c) l ->
  let a := asker_of caller (Work.now c) in
  (forall reply td c', acquire process caller session ttl c = Ok ((reply, td), c') ->
     exists l', shows (row_of session c') l' /\ Lock.acquire a ttl l = (epoch_of reply, l') /\
       others_untouched session c c') /\
  (forall reply c', heartbeat caller session epoch ttl c = Ok (reply, c') ->
     exists l', shows (row_of session c') l' /\ Lock.heartbeat a (Epoch.get epoch) ttl l = (reply, l') /\
       others_untouched session c c') /\
  (forall reply td c', release process caller session epoch c = Ok ((reply, td), c') ->
     exists l', shows (row_of session c') l' /\ Lock.release a (Epoch.get epoch) l = (reply, l') /\
       others_untouched session c c') /\
  (forall n c', invalidate_all c = Ok (n, c') -> shows (row_of session c') (Lock.invalidate l)).
Proof.
  intros Hs. split_and!; intros.
  - by eapply acquire_refines.
  - by eapply heartbeat_refines.
  - by eapply release_refines.
  - by eapply invalidate_refines.
Qed.

(** C22: No identifier is minted twice: one minted in a transaction whose work
    was committed is minted by no later transaction of the store, whatever
    crashed or started in between. *)
Theorem ids_never_repeat process process' prefix what what' c i c' w1 w2 c2 i' c3 :
  (Process.store_instance process <= U32_MAX)%N ->
  Process.store_instance process' = Process.store_instance process ->
  mint process prefix what c = Ok (i, c') -> evolves (Work.data c') (World.data w1) ->
  reachable w1 -> rtc step w1 w2 -> evolves (World.data w2) (Work.data c2) ->
  mint process' prefix what' c2 = Ok (i', c3) -> i <> i'.
Proof.
  intros Hi Ei (v & n & Es & Ev & _ & En)%mint_Ok He1 Hw%reachable_inv Hs He2 (v' & n' & Es' & Ev' & En' & _)%mint_Ok ->.
  destruct (steps_kept _ _ Hw Hs) as [_ [Hk _]].
  assert (evolves (Work.data c') (Work.data c2)) as [(_ & _ & _ & Hc) _ _ _] by (etransitivity; [done|by etransitivity]).
  rewrite Es in Es'. apply string_app_inj_l, (string_app_inj_l "_") in Es'. rewrite Ei in Ev'.
  destruct (uuid7_is_uuid7 _ _ _ _ Hi Ev), (uuid7_is_uuid7 _ _ _ _ Hi Ev').
  apply encode_uuid_inj in Es' as <-; [|done..]. pose proof (uuid7_inj _ _ _ _ _ _ Hi Ev Ev') as <-. lia.
Qed.

(** C20: Reconciliation accounts for every container and every record once:
    what it decides is, up to order, one foreign class for each container no
    record's labels claim, and for each record the one class, or none, that
    its own containers and its helpers' come to. *)
Theorem reconciliation_accounts records listed current :
  NoDup (EnvironmentRecord.environment <$> records) ->
  Reconcile.classify records listed current ≡ₚ
    map (fun o => ReconcileClass.Foreign (OwnedEnvironment.container o)) (List.filter (stranger records) listed)
    ++ (records ≫= verdict listed current).
Proof.
  intros Hn. etransitivity.
  - apply (bins about (EnvironmentRecord.environment <$> records)); [done|].
    intros c Hc e. by apply (classify_about records listed current).
  - rewrite classify_foreign, (classify_verdicts _ _ _ Hn); done.
Qed.


(** C27: An environment is judged usable exactly when every invariant its
    topology and workspace require was reported once, and passed; only then is
    its effective level the declared one, and otherwise none. What failed is
    what was reported once and false; whatever else did not pass, missing or
    contradictory, is unobservable. *)
Theorem judgement_exact kind topology workspace checks :
  let j := judge kind topology workspace checks in
  let required := required_invariants topology workspace in
  (Judgement.usable j kind = true <-> forall i, i ∈ required -> reported i checks = [Verdict.Pass]) /\
  Judgement.effective j =
    (if Judgement.usable j kind then EnvironmentKind.declared kind else AssuranceLevel.None) /\
  (forall i, i ∈ Judgement.failed j <-> i ∈ required /\ reported i checks = [Verdict.Fail]) /\
  (forall i, i ∈ Judgement.unobservable j <->
     i ∈ required /\ reported i checks <> [Verdict.Pass] /\ reported i checks <> [Verdict.Fail]) /\
  (Judgement.failure j kind = None <-> Judgement.usable j kind = true).
Proof.
  cbv zeta. pose proof (judge_lists kind topology workspace checks) as [Hf Hu].
  pose proof (judge_level kind topology workspace checks) as [El Em].
  split_and!; [apply usable_judge|by rewrite El|exact Hf|exact Hu|].
  unfold Judgement.failure. by destruct (Judgement.usable _ _).
Qed.

(** A proxy lets through exactly what the run's grants name: a host and
    port for which it holds [network.https] on that exact host name (never a
    pattern, an address or the probe's name) and that port, and no more than
    the bound of destinations. *)
Lemma egress_exact capabilities targets config host port :
  egress_targets capabilities = Ok targets ->
  let grant := EgressConfig.grant config targets in
  (EgressGrant.permits grant host port = true <->
   exists c labels spec, c ∈ capabilities /\
     Capability.verb c = Verb.of_ Namespace.Network Action.Https /\
     Capability.scope c = Scope.Syntactic (SyntacticScope.Endpoint (Endpoint.new (HostPattern.Exact labels) spec)) /\
     host = HostPattern.labels_text labels /\
     port = (match spec with PortSpec.Any => 443%N | PortSpec.Port p => p end) /\
     is_host host = true /\ is_address_literal host = false /\
     host <> dwk_sandbox_profile_probe_host /\ (1 <= port <= 65535)%N) /\
  (EgressGrant.permits grant host port = true -> exists c labels, c ∈ capabilities /\
     host = HostPattern.labels_text labels /\
     Scope.matches (Capability.scope c) (Scope.Named (SyntacticScope.Connection labels port))) /\
  length (EgressTargets.as_slice targets) <= MAX_EGRESS_TARGETS /\
  NoDup (EgressTargets.as_slice targets).
Proof.
  intros E. cbv zeta.
  assert (EgressTargets.as_slice targets = egress_loop capabilities [] /\
    length (EgressTargets.as_slice targets) <= MAX_EGRESS_TARGETS) as [Et Hl].
  { unfold egress_targets, EgressTargets.new in E. destruct (Nat.ltb_spec MAX_EGRESS_TARGETS (length (egress_loop capabilities []))); [done|].
    rewrite (proj2 (Nat.leb_le _ _)) in E by done. by injection E as <-. }
  match goal with |- ?A /\ ?B /\ ?C /\ ?D => assert A as HA end.
  { unfold EgressGrant.permits. cbn. rewrite Et, existsb_exists. split.
    - intros (t & Hin & [Hh%String.eqb_eq Hp%N.eqb_eq]%andb_true_iff). apply list_elem_of_In, egress_loop_spec in Hin.
      destruct Hin as [?%not_elem_of_nil|(c & Hc & (labels & spec & ? & ? & Eh & Ep & ? & ? & ? & ?)%egress_target_Some)]; [done|].
      exists c, labels, spec. rewrite Hh in Eh. rewrite Hp in Ep. subst host. split_and!; congruence || lia.
    - intros (c & labels & spec & Hc & Hv & Hs & -> & Hp & Hh & Ha & Hne & Hr).
      exists (EgressTarget.Make (EgressHost.Make (HostPattern.labels_text labels)) (EgressPort.Make port)).
      split; [|cbn; by rewrite String.eqb_refl, N.eqb_refl].
      apply list_elem_of_In, egress_loop_spec. right. exists c. split; [done|].
      apply egress_target_Some. exists labels, spec. cbn. split_and!; done || lia. }
  split_and!; [exact HA| |done|rewrite Et; apply egress_loop_NoDup, NoDup_nil_2].
  intros (c & labels & spec & Hc & _ & Hs & -> & -> & _)%HA. exists c, labels. split_and!; [done..|].
  rewrite Hs. cbn. split; [done|]. by destruct spec.
Qed.

(** An identifier's text and its value are one: a text parses as an
    identifier of a kind exactly when it is the one spelling of one UUIDv7. *)
Lemma id_text_roundtrip prefix s (i : Id.t prefix) :
  Id.parse prefix s = Some i <->
  Id.as_str i = s /\ exists v, (v <= U128_MAX)%N /\ is_uuid7 v = true /\ Id.from_uuid prefix v = Some i /\
    forall v', (v' <= U128_MAX)%N -> is_uuid7 v' = true -> Id.from_uuid prefix v' = Some i -> v' = v.
Proof.
  rewrite parse_Some. split.
  - intros (Ei & v & Hv & Hu & ->). split; [done|]. exists v. split_and!; [done|done| |].
    + apply parse_Some. split; [done|]. by exists v.
    + intros v' Hv' Hu' [E _]%parse_Some. rewrite Ei in E. apply string_app_inj_l, (string_app_inj_l "_") in E.
      symmetry. by apply encode_uuid_inj.
  - intros (Ei & v & Hv & Hu & [E _]%parse_Some & _). split; [done|]. exists v. rewrite <- Ei. by split_and!.
Qed.
End properties.

(** * Witnesses *)

#[local] Existing Instance toy.

Definition demo_session : SessionId := Id.Make "ses_01HF7YAT00E008000004000007".
Definition demo_run : RunId := Id.Make "run_01HF7YAT00E008000004000007".
Definition demo_environment : EnvironmentId := Id.Make "env_01HF7YAT00E008000004000007".
Definition demo_process : Process.t := Process.Make 1 7 60000.
Definition demo_caller : CallerContext.t :=
  CallerContext.new (AuthenticatedSubject.unix_uid 1000) (LeaseHolder.new 1 4).
Definition demo_now : N := 1700000000000.
Definition demo_meta : StoreMeta.t := StoreMeta.Make "store" 0 1 0.
Definition demo_empty : Db.t := Db.Make demo_meta ∅ ∅ ∅.

(** A store opened on some data. *)
Definition opened (d : Db.t) : World.t Db.t :=
  (start_log (World.with_script (World.with_log (created d) (File.found "")) [])).2.

Lemma survives_contents (f : File.t) : File.survives f (File.contents f).
Proof. split; [left; apply sprefix_refl|by intros]. Qed.

Lemma opened_reachable d : reachable (opened d).
Proof. apply (reach_crash (created d) [] ""); [constructor|apply survives_contents]. Qed.

Lemma demo_session_ok : id_ok demo_session.
Proof. vm_compute. reflexivity. Qed.

(** The demo caller's first lease, and the world after a crash and a start. *)
Definition demo_acquire : op (Reply.t Epoch.t * Teardown) := acquire demo_process demo_caller demo_session 60000.

Definition acquired : result (Reply.t Epoch.t * Teardown) AuthorityError.t * World.t Db.t :=
  transact demo_now demo_acquire (World.with_script (opened demo_empty) []).

Definition epoch1 : Epoch.t := Epoch.Make 1.

Lemma acquired_first : acquired.1 = Ok (Reply.Done epoch1, []).
Proof. vm_compute. reflexivity. Qed.

Definition crashed (w : World.t Db.t) : World.t Db.t :=
  (start_log (World.with_script (World.with_log w (File.found (File.contents (World.log w)))) [])).2.

Lemma crashed_step w : step w (crashed w).
Proof. apply (step_crash w []), survives_contents. Qed.

Lemma fencing_survives_crashes_witness :
  let w2 := crashed acquired.2 in
  transact demo_now demo_acquire (World.with_script (opened demo_empty) []) =
    (Ok (Reply.Done epoch1, []), acquired.2) /\
  rtc step acquired.2 w2 /\
  (forall caller' e' now' c', fence caller' demo_session e' (start_of w2 now') = Ok (true, c') ->
     (1 <= Epoch.get e')%N /\ (1%N = Epoch.get e' -> holder_pair caller' = holder_pair demo_caller)) /\
  (exists c', fence demo_caller demo_session epoch1 (start_of w2 demo_now) = Ok (true, c')).
Proof.
  intros w2. assert (transact demo_now demo_acquire (World.with_script (opened demo_empty) []) =
    (Ok (Reply.Done epoch1, []), acquired.2)) as E.
  { pose proof acquired_first as E1. unfold acquired in *. by destruct (transact _ _ _); cbn in *; subst. }
  assert (rtc step acquired.2 w2) as Hs by apply rtc_once, crashed_step.
  split; [exact E|]. split; [exact Hs|]. split.
  - exact (proj1 (fencing_survives_crashes _ _ _ _ _ _ _ _ _ _ _ (opened_reachable demo_empty) demo_session_ok E Hs)).
  - exists (start_of w2 demo_now). vm_compute. reflexivity.
Defined.

(** A run with a ready environment, under a lease. *)
Definition demo_lease : LeaseRow.t :=
  LeaseRow.Make 3 "HELD" (Some "uid:1000") (Some 1%Z) (Some 4%Z) (Some 1800000000000%Z) None None.
Definition demo_active : RunRow.t :=
  RunRow.Make (Id.as_str demo_session) "uid:1000" 3 "agent" 1 1 "ACTIVE" 5 None.
Definition zeros : string := String.concat "" (repeat "00000000" 8).
Definition demo_ready : EnvironmentRow.t :=
  EnvironmentRow.Make (Id.as_str demo_run) "OCI_STRICT" "NO_NETWORK" ("sha256:" +:+ zeros) zeros
    "CONTAINER_ISOLATION" (Some "CONTAINER_ISOLATION") (Some "CONTAINER_ISOLATION") (Some zeros)
    "READY" None 1 5 None.
Definition demo_db : Db.t :=
  Db.Make demo_meta {[Id.as_str demo_session := demo_lease]} {[Id.as_str demo_run := demo_active]}
    {[Id.as_str demo_environment := demo_ready]}.

Lemma demo_sessions : sessions_ok demo_db.
Proof.
  split.
  - intros k r. cbn. intros [<- <-]%lookup_singleton_Some _. exists demo_lease. by vm_compute.
  - intros k e. cbn. intros [<- <-]%lookup_singleton_Some _. exists demo_active. by vm_compute.
Qed.

Definition released : World.t Db.t :=
  (committed demo_now (release demo_process demo_caller demo_session (Epoch.Make 3))
     (World.with_script (opened demo_db) [])).2.


Definition demo_work : Work.t Db.t := start_of (opened demo_empty) demo_now.

Lemma leases_refine_locks_witness :
  shows (row_of demo_session demo_work) Lock.Never /\
  exists c' l', demo_acquire demo_work = Ok ((Reply.Done epoch1, []), c') /\
    shows (row_of demo_session c') l' /\
    Lock.acquire (asker_of demo_caller demo_now) 60000 Lock.Never = (Reply.Done 1%N, l').
Proof.
  assert (shows (row_of demo_session demo_work) Lock.Never) as Hs.
  { replace (row_of demo_session demo_work) with (@None LeaseRow.t) by (vm_compute; reflexivity). constructor. }
  split; [exact Hs|].
  assert (exists c', demo_acquire demo_work = Ok ((Reply.Done epoch1, []), c')) as [c' E]
    by (eexists; vm_compute; reflexivity).
  destruct (proj1 (leases_refine_locks demo_process demo_caller demo_session epoch1 60000 demo_work Lock.Never Hs)
    _ _ _ E) as (l' & Hl & Ha & _).
  exists c', l'. split; [exact E|]. split; [exact Hl|exact Ha].
Defined.

Definition minted (c : Work.t Db.t) : result (InvocationId * Work.t Db.t) AuthorityError.t :=
  invocation_id demo_process c.

Definition minted_world : World.t Db.t :=
  (committed demo_now (invocation_id demo_process) (World.with_script (opened demo_empty) [])).2.

(** Two ids, of two transactions at the same instant. *)
Lemma ids_never_repeat_witness :
  exists i c' i' c3, minted demo_work = Ok (i, c') /\
    minted (start_of minted_world demo_now) = Ok (i', c3) /\ i <> i'.
Proof.
  assert (exists i c', minted demo_work = Ok (i, c') /\ Work.data c' = World.data minted_world) as (i & c' & E & Ed)
    by (do 2 eexists; split; vm_compute; reflexivity).
  assert (exists i' c3, minted (start_of minted_world demo_now) = Ok (i', c3)) as (i' & c3 & E')
    by (do 2 eexists; vm_compute; reflexivity).
  exists i, c', i', c3. split; [exact E|]. split; [exact E'|].
  apply (ids_never_repeat demo_process demo_process "inv" "a minted invocation id is not a UUIDv7"
    "a minted invocation id is not a UUIDv7" demo_work i c' minted_world minted_world
    (start_of minted_world demo_now) i' c3); [vm_compute; discriminate|reflexivity|exact E| | |apply rtc_refl|reflexivity|exact E'].
  - by rewrite Ed.
  - apply (reach_commit (opened demo_empty) []); [apply opened_reachable|].
    apply lawful_body_ok, (operation_lawful demo_process demo_empty). apply op_mint.
Defined.

Definition demo_record : EnvironmentRecord.t :=
  EnvironmentRecord.Make demo_environment demo_run EnvironmentState.Ready
    (Some (ContainerRef.Make zeros)) NetworkTopology.NoNetwork 1 None.

(** Its container, exited, and a copy of its labels on another run's. *)
Definition demo_listed : list OwnedEnvironment.t :=
  [OwnedEnvironment.Make (ContainerRef.Make "copy") ContainerState.Running (Some demo_environment)
     (Some (Id.Make "run_other")) (Some ContainerRole.Environment) true;
   OwnedEnvironment.Make (ContainerRef.Make zeros) ContainerState.Exited (Some demo_environment)
     (Some demo_run) (Some ContainerRole.Environment) true].

Lemma reconciliation_accounts_witness :
  NoDup (EnvironmentRecord.environment <$> [demo_record]) /\
  Reconcile.classify [demo_record] demo_listed 2 ≡ₚ
    [ReconcileClass.Foreign (ContainerRef.Make "copy"); ReconcileClass.Stopped demo_record].
Proof.
  split; [apply NoDup_singleton|].
  exact (reconciliation_accounts [demo_record] demo_listed 2 (NoDup_singleton _)).
Defined.

Definition demo_egress : EgressConfig.t :=
  EgressConfig.Make zeros (EgressTunnelLimit.Make 4) (EgressByteBudget.Make 1000) (EgressByteBudget.Make 1000).

Definition demo_grants : list Capability.t :=
  match HostPattern.parse "api.example.com" with
  | Ok host => [Capability.Make (Verb.of_ Namespace.Network Action.Https)
      (Scope.Syntactic (SyntacticScope.Endpoint (Endpoint.new host PortSpec.Any))) ConstraintSet.unconstrained]
  | Err _ => []
  end.


(** Every invariant required of an environment with no network, passed. *)
Definition demo_checks : list (SandboxInvariant.t * Verdict.t) :=
  map (fun i => (i, Verdict.Pass)) (required_invariants NetworkTopology.NoNetwork WorkspaceContract.Bounded).

Lemma judgement_exact_witness :
  Judgement.usable (judge EnvironmentKind.Oci NetworkTopology.NoNetwork WorkspaceContract.Bounded demo_checks)
    EnvironmentKind.Oci = true /\
  (forall i, i ∈ required_invariants NetworkTopology.NoNetwork WorkspaceContract.Bounded ->
     reported i demo_checks = [Verdict.Pass]).
Proof.
  assert (Judgement.usable (judge EnvironmentKind.Oci NetworkTopology.NoNetwork WorkspaceContract.Bounded demo_checks)
    EnvironmentKind.Oci = true) as Hu by (vm_compute; reflexivity).
  split; [exact Hu|]. exact (proj1 (proj1 (judgement_exact _ _ _ demo_checks)) Hu).
Defined.
