(* ===== verification/Redaction.v ===== *)
(** Redaction of what returns to cognition
    ([dwkd-authority/src/secret/redact/mod.rs] and [exact.rs], with the handles
    of [secret/metadata.rs]): the index of live secrets and its scan, the merge
    of what was found, and the redacted buffer.

    A buffer is a list of bytes and positions are [nat]. *)

From Stdlib Require Import Sorted.
From stdpp Require Import gmap.
From S2P Require Export Prelude Text Order Vocabulary Names.

Abbreviation buffer := (list ascii).

(** HMAC-SHA-256 under a key, a third-party crate's: a function. *)
Class Hmac := hmac : buffer -> buffer -> buffer.

#[global] Instance nat_ord : RustOrd nat := Nat.compare.

#[global] Instance nat_lawful : LawfulOrd nat.
Proof.
  split; unfold cmp, nat_ord.
  - apply Nat.compare_eq_iff.
  - apply Nat.compare_antisym.
  - intros x y z. rewrite !Nat.compare_lt_iff. lia.
Qed.

(** [core::cmp::Reverse]. *)
Module Reverse.
Record t (A : Type) := Make { get : A }.
Arguments Make {A} get.
Arguments get {A} t.

#[global] Instance ord {A} `{RustOrd A} : RustOrd (t A) := fun a b => cmp (get b) (get a).
End Reverse.

Module SecretHandle.
Record t : Set := Make { as_str : string }.

Definition MAX_CHARS : nat := 64.

Definition new (text : string) : option t :=
  match text with
  | EmptyString => None
  | String first chars =>
      let ok := is_lower first && (String.length text <=? MAX_CHARS)%nat
        && str_all (fun c => is_lower c || is_digit c || one_of ["."; "_"; "-"]%char c) chars in
      then_some (ok && is_some (Label.new text)) (Make text)
  end.

#[global] Instance eq_dec : EqDecision t.
Proof. solve_decision. Defined.

#[global] Instance countable : Countable t.
Proof. apply (inj_countable' as_str Make). by intros []. Defined.

#[global] Instance ord : RustOrd t := ord_by as_str.

#[global] Instance lawful : LawfulOrd t.
Proof. derive_ord as_str. Qed.
End SecretHandle.

Module PatternClass.
Inductive t := GitHub | OpenAi | Slack | Aws | PemPrivateKey | Jwt | Bearer | ConnectionString | Keyword.

#[global] Instance eq_dec : EqDecision t.
Proof. solve_decision. Defined.

Definition ALL : list t := [GitHub; OpenAi; Slack; Aws; PemPrivateKey; Jwt; Bearer; ConnectionString; Keyword].

Definition as_str (x : t) : string :=
  match x with
  | GitHub => "github" | OpenAi => "openai" | Slack => "slack" | Aws => "aws"
  | PemPrivateKey => "pem_private_key" | Jwt => "jwt" | Bearer => "bearer"
  | ConnectionString => "connection_string" | Keyword => "keyword"
  end.

Definition index (x : t) : N :=
  match x with
  | GitHub => 0 | OpenAi => 1 | Slack => 2 | Aws => 3 | PemPrivateKey => 4 | Jwt => 5 | Bearer => 6
  | ConnectionString => 7 | Keyword => 8
  end.

#[global] Instance ord : RustOrd t := ord_by index.

#[global] Instance countable : Countable t.
Proof. apply (inj_countable index (fun n => ALL !! N.to_nat n)). by intros []. Defined.
End PatternClass.

Module HitKind.
Inductive t := Handle (handle : SecretHandle.t) | Pattern (class : PatternClass.t).

#[global] Instance eq_dec : EqDecision t.
Proof. solve_decision. Defined.

Definition view (k : t) : SecretHandle.t + PatternClass.t :=
  match k with Handle h => inl h | Pattern c => inr c end.

Definition of_view (v : SecretHandle.t + PatternClass.t) : t :=
  match v with inl h => Handle h | inr c => Pattern c end.

#[global] Instance ord : RustOrd t := ord_by view.

#[global] Instance countable : Countable t.
Proof. apply (inj_countable' view of_view). by intros []. Defined.

Definition placeholder (k : t) : string :=
  match k with
  | Handle handle => "[redacted:" +:+ SecretHandle.as_str handle +:+ "]"
  | Pattern _ => "[redacted:pattern]"
  end.
End HitKind.

Module Redaction.
Record t := Make { bytes : buffer; hits : gmap HitKind.t N }.

Definition redacted (r : t) : bool := negb (bool_decide (hits r = ∅)).
End Redaction.

Module Span.
Record t := Make { start : nat; end_ : nat; kind : HitKind.t }.
End Span.

(** ** The index of live secrets *)

Definition MAX_ENTRIES : nat := 64.
Definition MIN_EXACT_BYTES : nat := 8.
Definition MAX_SECRET_BYTES : nat := 32 * 1024.

Definition P : N := N.shiftl 1 61 - 1.

Definition mul (a b : N) : N :=
  let product := (a * b)%N in
  let low := N.land product P in
  let high := N.shiftr product 61 in
  let folded := (low + high)%N in
  if (P <=? folded)%N then (folded - P)%N else folded.

Definition add (a b : N) : N :=
  let sum := (a + b)%N in
  if (P <=? sum)%N then (sum - P)%N else sum.

Definition sub (a b : N) : N := if (b <=? a)%N then (a - b)%N else (a + P - b)%N.

Module Entry.
Record t := Make { handle : SecretHandle.t; length : nat; rolling : N; tag : buffer }.
End Entry.

Module IndexError.
Inductive t := NoRandomness | Full.
End IndexError.

Module ExactIndex.
Record t := Make { key : buffer; base : N; entries : list Entry.t }.

Section index.
  Context `{Hmac}.

(** What the operating system's random source gave: a key, and the base's eight
    bytes as a number. *)
Definition new (random : option (buffer * N)) : result t IndexError.t :=
  match random with
  | Some (key, base) => Ok (Make key (base mod (P - 256) + 256) [])
  | None => Err IndexError.NoRandomness
  end.

Definition empty : t := Make (repeat "000"%char 32) 257 [].

Definition tag (self : t) (bytes : buffer) : buffer := hmac (key self) bytes.

Definition rolling (self : t) (bytes : buffer) : N :=
  fold_left (fun h b => add (mul h (base self)) (byte_of b)) bytes 0%N.

Definition remove (self : t) (handle : SecretHandle.t) : t :=
  Make (key self) (base self) (List.filter (fun e => negb (bool_decide (Entry.handle e = handle))) (entries self)).

(** What was answered, and the index after. *)
Definition insert (self : t) (handle : SecretHandle.t) (value : buffer) : result () IndexError.t * t :=
  let self := remove self handle in
  if (length value <? MIN_EXACT_BYTES)%nat || (MAX_SECRET_BYTES <? length value)%nat then (Ok (), self)
  else if (MAX_ENTRIES <=? length (entries self))%nat then (Err IndexError.Full, self)
  else
    (Ok (), Make (key self) (base self)
              (entries self ++ [Entry.Make handle (length value) (rolling self value) (tag self value)])).

Definition contains (self : t) (handle : SecretHandle.t) : bool :=
  existsb (fun e => bool_decide (Entry.handle e = handle)) (entries self).

(** What the entries say of the window of [length] at [start], whose rolling
    hash is [hash]. *)
Definition candidates (self : t) (input : buffer) (length_ start : nat) (hash : N) : list Span.t :=
  filter_map (fun e =>
    if (Entry.length e =? length_)%nat && (Entry.rolling e =? hash)%N then
      let window := take length_ (drop start input) in
      if bool_decide (tag self window = Entry.tag e)
      then Some (Span.Make start (start + length_) (HitKind.Handle (Entry.handle e))) else None
    else None) (entries self).

(** The loop that rolls the window on; [high] is the weight of the byte leaving
    it. *)
Fixpoint roll (fuel : nat) (self : t) (input : buffer) (length_ : nat) (high : N) (start : nat) (hash : N) :
    list Span.t :=
  match fuel with
  | O => []
  | S fuel =>
      candidates self input length_ start hash ++
      match input !! start, input !! (start + length_) with
      | Some outgoing, Some incoming =>
          let hash := add (mul (sub hash (mul (byte_of outgoing) high)) (base self)) (byte_of incoming) in
          roll fuel self input length_ high (S start) hash
      | _, _ => []
      end
  end.

Definition find_length (self : t) (input : buffer) (length_ : nat) : list Span.t :=
  if (length_ =? 0)%nat || (length input <? length_)%nat then []
  else
    let high := Nat.iter (length_ - 1) (fun high => mul high (base self)) 1%N in
    roll (S (length input)) self input length_ high 0 (rolling self (take length_ input)).

Definition find (self : t) (input : buffer) : list Span.t :=
  concat (map (find_length self input) (dedup (sort (Entry.length <$> entries self)))).

End index.
End ExactIndex.

(** ** The redacted buffer *)

Definition rank (s : Span.t) : N := match Span.kind s with HitKind.Handle _ => 0 | HitKind.Pattern _ => 1 end.

Definition better (a b : Span.t) : bool :=
  let key s := (rank s, (Span.start s, (Reverse.Make (Span.end_ s), Span.kind s))) in
  lt_b (key a) (key b).

(** [sort_by] on where spans start, then the longest first; it is stable. *)
Definition starts_before (a b : Span.t) : bool :=
  le_b (Span.start a, Reverse.Make (Span.end_ a)) (Span.start b, Reverse.Make (Span.end_ b)).

Fixpoint insert_span (s : Span.t) (l : list Span.t) : list Span.t :=
  match l with
  | [] => [s]
  | t :: r => if starts_before s t then s :: t :: r else t :: insert_span s r
  end.

Fixpoint sort_spans (l : list Span.t) : list Span.t :=
  match l with [] => [] | s :: r => insert_span s (sort_spans r) end.

(** The merge: [last] is the span that still grows. *)
Fixpoint merge_from (last : Span.t) (spans : list Span.t) : list Span.t :=
  match spans with
  | [] => [last]
  | span :: rest =>
      if (Span.start span <? Span.end_ last)%nat
      then merge_from (Span.Make (Span.start last) (Nat.max (Span.end_ last) (Span.end_ span))
             (if better span last then Span.kind span else Span.kind last)) rest
      else last :: merge_from span rest
  end.

Definition merge (spans : list Span.t) : list Span.t :=
  match spans with [] => [] | span :: rest => merge_from span rest end.

Definition count_hit (hits : gmap HitKind.t N) (kind : HitKind.t) : gmap HitKind.t N :=
  <[kind := saturating_add (default 0%N (hits !! kind)) 1]> hits.

(** [input.get(a..b).unwrap_or_default()]. *)
Definition slice (input : buffer) (a b : nat) : buffer :=
  if (a <=? b)%nat && (b <=? length input)%nat then take (b - a) (drop a input) else [].

Fixpoint render (input : buffer) (at_ : nat) (merged : list Span.t) : buffer :=
  match merged with
  | [] => slice input at_ (length input)
  | span :: rest =>
      slice input at_ (Span.start span) ++ list_ascii_of_string (HitKind.placeholder (Span.kind span))
      ++ render input (Span.end_ span) rest
  end.

(** [redact], given what the index and the scanners found. *)
Definition redact_spans (input : buffer) (spans : list Span.t) : Redaction.t :=
  match spans with
  | [] => Redaction.Make input ∅
  | _ =>
      let merged := merge (sort_spans spans) in
      Redaction.Make (render input 0 merged) (fold_left count_hit (Span.kind <$> merged) ∅)
  end.

(** * The index finds what it holds *)

Lemma P_eq : P = 2305843009213693951%N.
Proof. done. Qed.

Lemma mul_mod a b : (a < P)%N -> (b < P)%N -> mul a b = ((a * b) mod P)%N.
Proof.
  intros Ha Hb. unfold mul. cbv zeta. set (product := (a * b)%N).
  assert (N.land product P = product mod 2 ^ 61)%N as -> by exact (N.land_ones product 61).
  rewrite N.shiftr_div_pow2.
  pose proof (N.div_mod product (2 ^ 61) ltac:(done)) as E.
  pose proof (N.mod_lt product (2 ^ 61) ltac:(done)) as Hl.
  assert (product / 2 ^ 61 < P)%N as Hh.
  { apply N.Div0.div_lt_upper_bound. unfold product. rewrite P_eq in *. nia. }
  set (low := (product mod 2 ^ 61)%N) in *. set (high := (product / 2 ^ 61)%N) in *.
  rewrite P_eq in *. change (2 ^ 61)%N with 2305843009213693952%N in *.
  destruct (N.leb_spec 2305843009213693951 (low + high)).
  - apply (N.mod_unique _ _ (high + 1)); lia.
  - apply (N.mod_unique _ _ high); lia.
Qed.

Lemma add_mod a b : (a < P)%N -> (b < P)%N -> add a b = ((a + b) mod P)%N.
Proof.
  intros Ha Hb. unfold add. cbv zeta. destruct (N.leb_spec P (a + b)).
  - apply (N.mod_unique _ _ 1); lia.
  - by rewrite N.mod_small.
Qed.

Lemma sub_mod a b : (a < P)%N -> (b < P)%N -> (sub a b < P /\ (sub a b + b) mod P = a)%N.
Proof.
  intros Ha Hb. unfold sub. destruct (N.leb_spec b a).
  - split; [lia|]. replace (a - b + b)%N with a by lia. by apply N.mod_small.
  - split; [lia|]. symmetry. apply (N.mod_unique _ _ 1); lia.
Qed.

Lemma P_positive : (P <> 0)%N.
Proof. done. Qed.

(** Equal sums with one addend, modulo [P]. *)
Lemma add_cancel x y c : (x < P)%N -> ((x + c) mod P = (y + c) mod P)%N -> x = (y mod P)%N.
Proof.
  intros Hx E. pose proof (N.div_mod (x + c) P P_positive) as E1. pose proof (N.div_mod (y + c) P P_positive) as E2.
  pose proof (N.div_mod y P P_positive) as E3. pose proof (N.mod_lt y P P_positive).
  rewrite E in E1. revert E1 E2 E3.
  generalize ((x + c) / P)%N ((y + c) / P)%N (y / P)%N ((y + c) mod P)%N. intros q1 q2 q3 r E1 E2 E3.
  assert (x + P * q2 = P * q3 + y mod P + P * q1)%N as Exy by lia. clear - Hx H Exy.
  revert H Exy. generalize (y mod P)%N. intros m Hm. rewrite P_eq in *. lia.
Qed.

(** The number a window's bytes spell in a base. *)
Definition spelt (base : N) (bytes : buffer) : N := fold_left (fun h b => h * base + byte_of b)%N bytes 0%N.

Lemma byte_bounded b : (byte_of b < 256)%N.
Proof. apply N_ascii_bounded. Qed.

Lemma byte_of_P b : (byte_of b < P)%N.
Proof. pose proof (byte_bounded b). rewrite P_eq. lia. Qed.

Lemma spelt_snoc base l b : spelt base (l ++ [b]) = (spelt base l * base + byte_of b)%N.
Proof. unfold spelt. by rewrite fold_left_app. Qed.

Lemma spelt_cons base a l : spelt base (a :: l) = (byte_of a * base ^ N.of_nat (length l) + spelt base l)%N.
Proof.
  induction l as [|b l IH] using rev_ind; [cbn; lia|].
  rewrite app_comm_cons, !spelt_snoc, IH, length_app, Nat.add_1_r, Nat2N.inj_succ, N.pow_succ_r'. lia.
Qed.

Lemma elem_of_concat_map {A B} (f : A -> list B) l b : b ∈ concat (map f l) <-> exists a, a ∈ l /\ b ∈ f a.
Proof.
  rewrite !list_elem_of_In, in_concat. split.
  - intros (k & (a & <- & Ha)%in_map_iff & Hb). exists a. by rewrite !list_elem_of_In.
  - intros (a & Ha%list_elem_of_In & Hb%list_elem_of_In). exists (f a). split; [by apply in_map|done].
Qed.

Lemma dedup_elem {A} `{EqDecision A} (l : list A) a : a ∈ dedup l <-> a ∈ l.
Proof.
  induction l as [|x r IH]; [done|]. cbn [dedup]. destruct r as [|y r]; [done|].
  destruct (decide (x = y)) as [->|]; [rewrite IH|rewrite elem_of_cons, IH, (elem_of_cons (y :: r))]; set_solver.
Qed.

Section index.
  Context `{Hmac} (self : ExactIndex.t) (Hbase : (ExactIndex.base self < P)%N).
  #[local] Abbreviation base := (ExactIndex.base self).

Lemma rolling_spelt l : ExactIndex.rolling self l = (spelt base l mod P)%N.
Proof.
  induction l as [|b l IH] using rev_ind; [done|].
  unfold ExactIndex.rolling in *. rewrite fold_left_app. cbn [fold_left]. rewrite IH, spelt_snoc.
  pose proof (N.mod_lt (spelt base l) P P_positive) as Hl. pose proof (byte_of_P b).
  rewrite mul_mod, add_mod by (done || apply N.mod_lt, P_positive).
  by rewrite N.Div0.mul_mod_idemp_l, N.Div0.add_mod_idemp_l.
Qed.

Lemma high_weight n : Nat.iter n (fun high => mul high base) 1%N = (base ^ N.of_nat n mod P)%N.
Proof.
  induction n as [|n IH]; [by rewrite N.mod_small by done|].
  rewrite Nat.iter_succ, IH, mul_mod by (done || apply N.mod_lt, P_positive).
  by rewrite N.Div0.mul_mod_idemp_l, Nat2N.inj_succ, N.pow_succ_r', N.mul_comm.
Qed.

(** The hash rolled on is the next window's. *)
Lemma rolling_on a l b :
  add (mul (sub (ExactIndex.rolling self (a :: l)) (mul (byte_of a) (base ^ N.of_nat (length l) mod P))) base) (byte_of b)
  = ExactIndex.rolling self (l ++ [b]).
Proof.
  pose proof (byte_of_P a) as Ha. pose proof (byte_of_P b) as Hb.
  assert (forall n, n mod P < P)%N as Hm by (intros; apply N.mod_lt, P_positive).
  rewrite !rolling_spelt, (mul_mod (byte_of a)) by done.
  destruct (sub_mod (spelt base (a :: l) mod P) (byte_of a * (base ^ N.of_nat (length l) mod P) mod P)) as [Hd E]; [done|done|].
  set (d := sub _ _) in *. rewrite N.Div0.mul_mod_idemp_r, N.Div0.add_mod_idemp_r, spelt_cons, (N.add_comm _ (spelt base l)) in E.
  apply add_cancel in E as ->; [|done].
  rewrite mul_mod, add_mod by done. by rewrite spelt_snoc, N.Div0.mul_mod_idemp_l, N.Div0.add_mod_idemp_l.
Qed.

Definition window (input : buffer) (length_ start : nat) : buffer := take length_ (drop start input).

Lemma window_next input n start a b :
  input !! start = Some a -> input !! (start + S n) = Some b ->
  exists l, length l = n /\ window input (S n) start = a :: l /\ window input (S n) (S start) = l ++ [b].
Proof.
  intros Ha Hb. unfold window. exists (take n (drop (S start) input)).
  assert (start + S n < length input) as Hl by by eapply lookup_lt_Some.
  split_and!.
  - rewrite length_take, length_drop. lia.
  - by rewrite (drop_S input a start Ha).
  - apply take_S_r. by rewrite lookup_drop, Nat.add_succ_comm.
Qed.

(** The windows from [start] on. *)
Lemma roll_windows fuel input n start :
  n <> 0 -> start + n <= length input -> length input - n - start < fuel ->
  ExactIndex.roll fuel self input n (base ^ N.of_nat (n - 1) mod P) start (ExactIndex.rolling self (window input n start)) =
  concat (map (fun i => ExactIndex.candidates self input n i (ExactIndex.rolling self (window input n i)))
    (seq start (S (length input - n - start)))).
Proof.
  intros Hn. destruct n as [|n]; [done|]. clear Hn. replace (S n - 1) with n by lia.
  revert start. induction fuel as [|fuel IH]; intros start Hl Hf; [lia|].
  cbn [ExactIndex.roll seq map concat]. f_equal.
  destruct (input !! start) as [a|] eqn:Ea; cycle 1.
  { apply lookup_ge_None in Ea. lia. }
  destruct (input !! (start + S n)) as [b|] eqn:Eb; cycle 1.
  { apply lookup_ge_None in Eb. by replace (length input - S n - start) with 0 by lia. }
  destruct (window_next _ _ _ _ _ Ea Eb) as (l & El & E1 & E2). cbv zeta.
  rewrite E1, <- El, rolling_on, El, <- E2. apply lookup_lt_Some in Eb.
  rewrite IH by lia. do 3 f_equal. replace (S (length input - S n - S start)) with (length input - S n - start) by lia. done.
Qed.

(** One length's spans are every window's candidates. *)
Lemma find_length_windows input n :
  ExactIndex.find_length self input n =
  if (n =? 0)%nat || (length input <? n)%nat then []
  else concat (map (fun i => ExactIndex.candidates self input n i (ExactIndex.rolling self (window input n i)))
    (seq 0 (S (length input - n)))).
Proof.
  unfold ExactIndex.find_length. destruct (Nat.eqb_spec n 0); [done|].
  destruct (Nat.ltb_spec (length input) n); [done|]. cbn [orb]. cbv zeta.
  rewrite high_weight. change (take n input) with (window input n 0).
  rewrite roll_windows by lia. by rewrite Nat.sub_0_r.
Qed.

Lemma candidates_elem input n start hash s :
  s ∈ ExactIndex.candidates self input n start hash <->
  exists e, e ∈ ExactIndex.entries self /\ Entry.length e = n /\ Entry.rolling e = hash /\
    ExactIndex.tag self (window input n start) = Entry.tag e /\
    s = Span.Make start (start + n) (HitKind.Handle (Entry.handle e)).
Proof.
  unfold ExactIndex.candidates. rewrite elem_of_filter_map. split.
  - intros (e & He & E). exists e.
    destruct (Nat.eqb_spec (Entry.length e) n); [|done]. destruct (N.eqb_spec (Entry.rolling e) hash); [|done].
    cbn [andb] in E. case_bool_decide; [|done]. injection E as <-. done.
  - intros (e & He & <- & <- & E & ->). exists e. split; [done|]. rewrite Nat.eqb_refl, N.eqb_refl. cbn [andb].
    by rewrite bool_decide_eq_true_2.
Qed.

Lemma lengths_elem n : n ∈ dedup (sort (Entry.length <$> ExactIndex.entries self)) <->
  exists e, e ∈ ExactIndex.entries self /\ Entry.length e = n.
Proof. rewrite dedup_elem, sort_perm, list_elem_of_fmap. naive_solver. Qed.

(** The index finds exactly what its entries say of each window, hash and tag. *)
Lemma find_elem input s :
  s ∈ ExactIndex.find self input <->
  exists e start, e ∈ ExactIndex.entries self /\ Entry.length e <> 0 /\ start + Entry.length e <= length input /\
    Entry.rolling e = ExactIndex.rolling self (window input (Entry.length e) start) /\
    ExactIndex.tag self (window input (Entry.length e) start) = Entry.tag e /\
    s = Span.Make start (start + Entry.length e) (HitKind.Handle (Entry.handle e)).
Proof.
  unfold ExactIndex.find. rewrite elem_of_concat_map. split.
  - intros (n & _ & Hs). rewrite find_length_windows in Hs.
    destruct (Nat.eqb_spec n 0); [by apply elem_of_nil in Hs|].
    destruct (Nat.ltb_spec (length input) n); [by apply elem_of_nil in Hs|].
    apply elem_of_concat_map in Hs as (i & Hi%elem_of_seq & (e & He & <- & Hr & Ht & ->)%candidates_elem).
    exists e, i. split_and!; try done. lia.
  - intros (e & start & He & Hn & Hl & Hr & Ht & ->). exists (Entry.length e). split; [apply lengths_elem; by exists e|].
    rewrite find_length_windows. rewrite (proj2 (Nat.eqb_neq _ _)), (proj2 (Nat.ltb_ge _ _)) by (done || lia). cbn [orb].
    apply elem_of_concat_map. exists start. split; [apply elem_of_seq; lia|]. apply candidates_elem. by exists e.
Qed.
End index.

(** ** An index, abstractly: the live values *)

Section live.
  Context `{Hmac}.

(** A value that is indexed at all. *)
Definition indexable (value : buffer) : Prop := MIN_EXACT_BYTES <= length value <= MAX_SECRET_BYTES.

#[local] Instance indexable_dec value : Decision (indexable value).
Proof. unfold indexable. apply _. Defined.

(** What inserting and removing mean. *)
Definition live_insert (live : gmap SecretHandle.t buffer) (handle : SecretHandle.t) (value : buffer) :
    gmap SecretHandle.t buffer :=
  let live := delete handle live in
  if decide (indexable value /\ size live < MAX_ENTRIES) then <[handle := value]> live else live.

(** The index holds the fingerprints of the live values and nothing else. *)
Record holds_live (self : ExactIndex.t) (live : gmap SecretHandle.t buffer) : Prop := {
  hold_base : (ExactIndex.base self < P)%N;
  hold_once : NoDup (Entry.handle <$> ExactIndex.entries self);
  hold_indexable : map_Forall (fun _ value => indexable value) live;
  hold_entry e : e ∈ ExactIndex.entries self <->
    exists value, live !! Entry.handle e = Some value /\
      e = Entry.Make (Entry.handle e) (length value) (ExactIndex.rolling self value) (ExactIndex.tag self value)
}.

Lemma new_holds random self : ExactIndex.new random = Ok self -> holds_live self ∅.
Proof.
  destruct random as [[key base]|]; [|done]. intros [= <-]. split; cbn.
  - pose proof (N.mod_lt base (P - 256) ltac:(done)). rewrite P_eq in *. cbn in *. lia.
  - constructor.
  - apply map_Forall_empty.
  - intros e. rewrite lookup_empty. set_solver.
Qed.

Lemma remove_holds self live handle : holds_live self live -> holds_live (ExactIndex.remove self handle) (delete handle live).
Proof.
  intros [Hb Hn Hi He].
  assert (forall e, e ∈ ExactIndex.entries (ExactIndex.remove self handle) <-> e ∈ ExactIndex.entries self /\ Entry.handle e <> handle) as Hr.
  { intros e. unfold ExactIndex.remove. cbn. rewrite !list_elem_of_In, filter_In, negb_true_iff, bool_decide_eq_false. done. }
  split.
  - done.
  - unfold ExactIndex.remove. cbn. clear - Hn. induction (ExactIndex.entries self) as [|e l IH]; [constructor|].
    rewrite fmap_cons in Hn. apply NoDup_cons in Hn as [Hx Hn]. cbn [List.filter].
    destruct (negb _); [|by apply IH]. rewrite fmap_cons. apply NoDup_cons. split; [|by apply IH].
    rewrite list_elem_of_fmap in *. intros (e' & E & He'). apply Hx. exists e'. split; [done|].
    rewrite list_elem_of_In in *. by apply filter_In in He' as [? _].
  - by apply map_Forall_delete.
  - intros e. rewrite Hr, He. split.
    + intros [(v & Hv & E) Hne]. exists v. by rewrite lookup_delete_ne.
    + intros (v & Hv & E). apply lookup_delete_Some in Hv as [? Hv]. split; [by exists v|done].
Qed.

(** One entry for each live value. *)
Lemma holds_size self live : holds_live self live -> length (ExactIndex.entries self) = size live.
Proof.
  intros [_ Hn _ He]. rewrite <- size_dom, <- (length_fmap Entry.handle), <- (size_list_to_set (C := gset SecretHandle.t)) by done.
  f_equal. apply leibniz_equiv. intros h. rewrite elem_of_list_to_set, elem_of_dom, list_elem_of_fmap. split.
  - intros (e & -> & (v & Hv & _)%He). by exists v.
  - intros [v Hv]. eexists (Entry.Make h _ _ _). split; [done|]. apply He. by exists v.
Qed.

Lemma insert_holds self live handle value :
  holds_live self live -> holds_live (ExactIndex.insert self handle value).2 (live_insert live handle value).
Proof.
  intros Hh%(remove_holds _ _ handle). unfold ExactIndex.insert, live_insert. cbv zeta.
  pose proof (holds_size _ _ Hh) as Hs. set (self1 := ExactIndex.remove self handle) in *. set (live1 := delete handle live) in *.
  assert (live1 !! handle = None) as Hnone by apply lookup_delete_eq.
  destruct (decide (indexable value /\ size live1 < MAX_ENTRIES)) as [[[Hlo Hhi] Hsz]|Hno].
  - rewrite (proj2 (Nat.ltb_ge _ MIN_EXACT_BYTES)), (proj2 (Nat.ltb_ge MAX_SECRET_BYTES _)), (proj2 (Nat.leb_gt _ _)) by lia.
    cbn [orb snd]. destruct Hh as [Hb Hn Hi He].
    assert (forall e, e ∈ ExactIndex.entries self1 -> Entry.handle e <> handle) as Hfresh.
    { intros e (v & Hv & _)%He E. congruence. }
    split; cbn [ExactIndex.entries ExactIndex.base].
    + done.
    + rewrite fmap_app, NoDup_app. split_and!; [done| |apply NoDup_singleton].
      intros h (e & -> & Hin)%list_elem_of_fmap. intros E%list_elem_of_singleton. by apply (Hfresh e Hin).
    + by apply map_Forall_insert_2.
    + intros e. rewrite elem_of_app, list_elem_of_singleton, He. split.
      * intros [(v & Hv & E)| ->]; [exists v|exists value].
        -- rewrite lookup_insert_ne; [done|]. intros Eh. rewrite <- Eh in Hv. congruence.
        -- by rewrite lookup_insert_eq.
      * intros (v & Hv & E). destruct (decide (handle = Entry.handle e)) as [->|Hne].
        -- rewrite lookup_insert_eq in Hv. injection Hv as <-. by right.
        -- rewrite lookup_insert_ne in Hv by done. left. by exists v.
  - destruct (Nat.ltb_spec (length value) MIN_EXACT_BYTES); [done|].
    destruct (Nat.ltb_spec MAX_SECRET_BYTES (length value)); [done|]. cbn [orb].
    destruct (Nat.leb_spec MAX_ENTRIES (length (ExactIndex.entries self1))); [done|].
    exfalso. apply Hno. split; [by split|lia].
Qed.

(** What an index that holds live values finds. *)
Lemma find_live self live input handle value start :
  holds_live self live -> live !! handle = Some value -> start + length value <= length input ->
  window input (length value) start = value ->
  Span.Make start (start + length value) (HitKind.Handle handle) ∈ ExactIndex.find self input.
Proof.
  intros [Hb _ Hi He] Hv Hl Hw. apply find_elem; [done|].
  exists (Entry.Make handle (length value) (ExactIndex.rolling self value) (ExactIndex.tag self value)), start.
  cbn [Entry.handle Entry.length Entry.rolling Entry.tag]. rewrite Hw. split_and!; try done.
  - apply He. by exists value.
  - apply Hi in Hv. unfold indexable, MIN_EXACT_BYTES in Hv. lia.
Qed.

Lemma find_only_live self live input s :
  holds_live self live -> s ∈ ExactIndex.find self input ->
  exists handle value, live !! handle = Some value /\ Span.kind s = HitKind.Handle handle /\
    Span.end_ s = Span.start s + length value /\ Span.end_ s <= length input /\ length value <> 0 /\
    ExactIndex.rolling self (window input (length value) (Span.start s)) = ExactIndex.rolling self value /\
    ExactIndex.tag self (window input (length value) (Span.start s)) = ExactIndex.tag self value.
Proof.
  intros [Hb _ Hi He] (e & start & Hin & Hn & Hl & Hr & Ht & ->)%find_elem; [|done].
  apply He in Hin as (value & Hv & E). exists (Entry.handle e), value. rewrite E in Hr, Ht, Hl, Hn |- *. cbn in *.
  by split_and!.
Qed.
End live.

(** * The merge *)

(** A position some span covers. *)
Definition covered (spans : list Span.t) (p : nat) : bool :=
  existsb (fun s => (Span.start s <=? p)%nat && (p <? Span.end_ s)%nat) spans.

Lemma covered_spec spans p :
  covered spans p = true <-> exists s, s ∈ spans /\ Span.start s <= p < Span.end_ s.
Proof.
  unfold covered. rewrite existsb_exists. split; intros (s & Hs & H); exists s; rewrite ?list_elem_of_In in *; split; try done.
  - apply andb_true_iff in H as [?%Nat.leb_le ?%Nat.ltb_lt]. lia.
  - apply andb_true_iff. rewrite Nat.leb_le, Nat.ltb_lt. lia.
Qed.

Lemma covered_ext l k p : (forall s, s ∈ l <-> s ∈ k) -> covered l p = covered k p.
Proof. intros E. apply eq_iff_eq_true. rewrite !covered_spec. naive_solver. Qed.

(** Spans of a buffer of [n] bytes. *)
Definition span_ok (n : nat) (s : Span.t) : Prop := Span.start s < Span.end_ s <= n.

(** The order of the sort. *)
Definition before (a b : Span.t) : Prop :=
  Span.start a < Span.start b \/ Span.start a = Span.start b /\ Span.end_ b <= Span.end_ a.

Lemma starts_before_spec a b : starts_before a b = true <-> before a b.
Proof.
  unfold starts_before, le_b, cmp, prod_ord, before, cmp, nat_ord, Reverse.ord. cbn.
  destruct (Nat.compare_spec (Span.start a) (Span.start b)); [|split; [lia|done]|split; [done|lia]].
  change (cmp (Span.end_ b) (Span.end_ a)) with (Nat.compare (Span.end_ b) (Span.end_ a)).
  destruct (Nat.compare_spec (Span.end_ b) (Span.end_ a)); split; done || lia.
Qed.

#[local] Instance before_trans : Transitive before.
Proof. intros a b c. unfold before. lia. Qed.

Lemma insert_span_perm s l : insert_span s l ≡ₚ s :: l.
Proof.
  induction l as [|t r IH]; [done|]. cbn. destruct (starts_before s t); [done|].
  rewrite IH. apply Permutation_swap.
Qed.

Lemma sort_spans_perm l : sort_spans l ≡ₚ l.
Proof. induction l as [|s r IH]; [done|]. cbn. by rewrite insert_span_perm, IH. Qed.

Lemma insert_span_sorted s l : StronglySorted before l -> StronglySorted before (insert_span s l).
Proof.
  induction 1 as [|t r Hr IH Ht]; cbn; [repeat constructor|].
  destruct (starts_before s t) eqn:E.
  - apply starts_before_spec in E. constructor; [by constructor|]. constructor; [done|].
    eapply Forall_impl; [exact Ht|]. intros x Hx. by transitivity t.
  - constructor; [done|]. apply Forall_forall. intros x Hx. rewrite insert_span_perm in Hx.
    apply elem_of_cons in Hx as [->|Hx]; [|rewrite Forall_forall in Ht; by apply Ht].
    apply not_true_iff_false in E. rewrite starts_before_spec in E. unfold before in *. lia.
Qed.

Lemma sort_spans_sorted l : StronglySorted before (sort_spans l).
Proof. induction l as [|s r IH]; [constructor|]. by apply insert_span_sorted. Qed.

(** Spans laid out apart from [at_] on, within [n] bytes. *)
Fixpoint laid (at_ n : nat) (l : list Span.t) : Prop :=
  match l with
  | [] => at_ <= n
  | s :: r => at_ <= Span.start s /\ Span.start s < Span.end_ s /\ laid (Span.end_ s) n r
  end.

Lemma merge_from_laid a n last spans :
  a <= Span.start last -> span_ok n last -> Forall (span_ok n) spans -> laid a n (merge_from last spans).
Proof.
  revert a last. induction spans as [|s r IH]; intros a last Ha Hl Hs; cbn [merge_from].
  - unfold span_ok in Hl. cbn. lia.
  - apply Forall_cons in Hs as [Hs Hr]. destruct (Nat.ltb_spec (Span.start s) (Span.end_ last)).
    + apply IH; [done| |done]. unfold span_ok in *. cbn. lia.
    + cbn [laid]. unfold span_ok in *. split; [done|]. split; [lia|]. by apply IH; [lia|..].
Qed.

Lemma merge_from_covered last spans p :
  Forall (fun s => Span.start last <= Span.start s) spans -> StronglySorted before spans ->
  covered (merge_from last spans) p = covered (last :: spans) p.
Proof.
  revert last. induction spans as [|s r IH]; intros last Hl Hs; [done|]. cbn [merge_from].
  apply Forall_cons in Hl as [Hsl Hl]. apply StronglySorted_inv in Hs as [Hr Hs].
  destruct (Nat.ltb_spec (Span.start s) (Span.end_ last)) as [Hlt|Hge].
  - rewrite IH by (done || by cbn). unfold covered. cbn [existsb Span.start Span.end_].
    rewrite orb_assoc. f_equal.
    destruct (Nat.leb_spec (Span.start last) p), (Nat.ltb_spec p (Nat.max (Span.end_ last) (Span.end_ s))),
      (Nat.ltb_spec p (Span.end_ last)), (Nat.leb_spec (Span.start s) p), (Nat.ltb_spec p (Span.end_ s)); cbn; lia || done.
  - cbn [covered existsb]. f_equal. apply IH; [|done]. eapply Forall_impl; [exact Hs|]. intros x Hx. unfold before in Hx. lia.
Qed.

Lemma merge_laid n spans : Forall (span_ok n) spans -> laid 0 n (merge (sort_spans spans)).
Proof.
  intros H. rewrite <- sort_spans_perm in H. unfold merge. destruct (sort_spans spans) as [|s r]; [cbn; lia|].
  apply Forall_cons in H as [? ?]. by apply merge_from_laid; [lia|..].
Qed.

Lemma merge_covered spans p : covered (merge (sort_spans spans)) p = covered spans p.
Proof.
  rewrite (covered_ext spans (sort_spans spans)) by (intros s; by rewrite sort_spans_perm).
  pose proof (sort_spans_sorted spans) as Hs. unfold merge. destruct (sort_spans spans) as [|s r]; [done|].
  apply StronglySorted_inv in Hs as [Hr Hs]. apply merge_from_covered; [|done].
  eapply Forall_impl; [exact Hs|]. intros x Hx. unfold before in Hx. lia.
Qed.

(** ** What is rendered *)

(** What was kept, what it was followed by, and what that stood for. *)
Definition part : Type := buffer * HitKind.t * buffer.

Definition read_parts (parts : list part) (rest : buffer) : buffer :=
  concat (map (fun '(kept, _, cut) => kept ++ cut) parts) ++ rest.
Definition written_parts (parts : list part) (rest : buffer) : buffer :=
  concat (map (fun '(kept, kind, _) => kept ++ list_ascii_of_string (HitKind.placeholder kind)) parts) ++ rest.

(** Which positions were cut. *)
Definition mask_parts (parts : list part) (rest : buffer) : list bool :=
  concat (map (fun '(kept, _, cut) => repeat false (length kept) ++ repeat true (length cut)) parts)
  ++ repeat false (length rest).

Lemma read_parts_cons kept kind cut parts rest :
  read_parts ((kept, kind, cut) :: parts) rest = kept ++ cut ++ read_parts parts rest.
Proof. unfold read_parts. cbn. by rewrite <- !app_assoc. Qed.

Lemma written_parts_cons kept kind cut parts rest :
  written_parts ((kept, kind, cut) :: parts) rest
  = kept ++ list_ascii_of_string (HitKind.placeholder kind) ++ written_parts parts rest.
Proof. unfold written_parts. cbn. by rewrite <- !app_assoc. Qed.

Lemma mask_parts_cons kept kind cut parts rest :
  mask_parts ((kept, kind, cut) :: parts) rest
  = repeat false (length kept) ++ repeat true (length cut) ++ mask_parts parts rest.
Proof. unfold mask_parts. cbn. by rewrite <- !app_assoc. Qed.

Lemma map_seq_const {A} (f : nat -> A) a m n :
  (forall p, m <= p < m + n -> f p = a) -> map f (seq m n) = repeat a n.
Proof.
  revert m. induction n as [|n IH]; intros m H; [done|]. cbn. rewrite H by lia. f_equal. apply IH.
  intros p Hp. apply H. lia.
Qed.

Lemma slice_drop input a b : a <= b -> b <= length input -> slice input a b ++ drop b input = drop a input.
Proof.
  intros Ha Hb. unfold slice. rewrite (proj2 (Nat.leb_le _ _)), (proj2 (Nat.leb_le _ _)) by done. cbn [andb].
  rewrite <- (take_drop (b - a) (drop a input)) at 2. f_equal. rewrite drop_drop. f_equal. lia.
Qed.

Lemma slice_length input a b : a <= b -> b <= length input -> length (slice input a b) = b - a.
Proof.
  intros Ha Hb. unfold slice. rewrite (proj2 (Nat.leb_le _ _)), (proj2 (Nat.leb_le _ _)) by done. cbn [andb].
  rewrite length_take, length_drop. lia.
Qed.

Lemma laid_after at_ n l t : laid at_ n l -> t ∈ l -> at_ <= Span.start t.
Proof.
  revert at_. induction l as [|s r IH]; intros at_; cbn; [by intros _ ?%elem_of_nil|].
  intros (? & ? & Hl) [->|Ht]%elem_of_cons; [done|]. specialize (IH _ Hl Ht). lia.
Qed.

(** Rendering keeps what no span covers and cuts what one does. *)
Lemma render_parts input at_ merged :
  at_ <= length input -> laid at_ (length input) merged ->
  exists parts rest, drop at_ input = read_parts parts rest /\ render input at_ merged = written_parts parts rest /\
    mask_parts parts rest = map (covered merged) (seq at_ (length input - at_)) /\
    map (fun '(_, kind, _) => kind) parts = map Span.kind merged /\ Forall (fun '(_, _, cut) => cut <> []) parts.
Proof.
  revert at_. induction merged as [|s r IH]; intros at_ Ha Hl; cbn [laid render] in *.
  - exists [], (slice input at_ (length input)). pose proof (slice_drop input at_ (length input) Ha (le_n _)) as Hd.
    rewrite drop_all, app_nil_r in Hd. split_and!; [by rewrite Hd|done| |done|done].
    unfold mask_parts. cbn [map concat app]. rewrite slice_length by done. symmetry. by apply map_seq_const.
  - destruct Hl as (H1 & H2 & Hl). assert (Span.end_ s <= length input) as H3.
    { clear - Hl. revert Hl. generalize (Span.end_ s). induction r as [|t r IH]; intros a; cbn; [done|].
      intros (? & ? & H%IH). lia. }
    destruct (IH (Span.end_ s) H3 Hl) as (parts & rest & E1 & E2 & E3 & E4 & E5).
    exists ((slice input at_ (Span.start s), Span.kind s, slice input (Span.start s) (Span.end_ s)) :: parts), rest.
    split_and!.
    + rewrite read_parts_cons, <- E1, !slice_drop; [done|lia..].
    + by rewrite written_parts_cons, E2.
    + rewrite mask_parts_cons, E3, !slice_length by lia.
      replace (length input - at_) with ((Span.start s - at_) + ((Span.end_ s - Span.start s) + (length input - Span.end_ s))) by lia.
      rewrite !seq_app, !map_app. replace (at_ + (Span.start s - at_)) with (Span.start s) by lia.
      replace (Span.start s + (Span.end_ s - Span.start s)) with (Span.end_ s) by lia.
      assert (forall p, p < Span.end_ s -> covered r p = false) as Hr.
      { intros p Hp. apply not_true_iff_false. intros (t & Ht & Hc)%covered_spec. pose proof (laid_after _ _ _ _ Hl Ht). lia. }
      f_equal; [|f_equal].
      * symmetry. apply map_seq_const. intros p Hp. change (covered (s :: r) p) with (((Span.start s <=? p)%nat && (p <? Span.end_ s)%nat) || covered r p).
        rewrite Hr by lia. rewrite (proj2 (Nat.leb_gt _ _)) by lia. done.
      * symmetry. apply map_seq_const. intros p Hp. apply covered_spec. exists s. split; [by left|lia].
      * apply map_ext_in. intros p Hp%in_seq. change (covered (s :: r) p) with (((Span.start s <=? p)%nat && (p <? Span.end_ s)%nat) || covered r p).
        rewrite (proj2 (Nat.ltb_ge _ _)) by lia. by rewrite andb_false_r.
    + cbn. by rewrite E4.
    + constructor; [|done]. intros E. apply (f_equal length) in E. rewrite slice_length in E by lia. cbn in E. lia.
Qed.

(** ** What is counted *)

Definition hits_of (n : N) : option N := if (n =? 0)%N then None else Some (N.min n U64_MAX).

Lemma count_hits kinds hits (f : HitKind.t -> N) k :
  (forall k, hits !! k = hits_of (f k)) ->
  fold_left count_hit kinds hits !! k
  = hits_of (f k + N.of_nat (length (List.filter (fun x => bool_decide (x = k)) kinds))).
Proof.
  revert hits f. induction kinds as [|x kinds IH]; intros hits f H; cbn [fold_left List.filter].
  { rewrite H. f_equal. cbn. lia. }
  rewrite (IH _ (fun k => f k + N.of_nat (length (List.filter (fun y => bool_decide (y = k)) [x])))%N).
  - f_equal. cbn [List.filter]. case_bool_decide; cbn [length]; lia.
  - intros y. unfold count_hit. cbn [List.filter]. case_bool_decide as E; cbn [length].
    + subst y. rewrite lookup_insert_eq, H. unfold hits_of, saturating_add. change (N.of_nat 1) with 1%N.
      rewrite (proj2 (N.eqb_neq (f x + 1) 0)) by lia. f_equal.
      destruct (N.eqb_spec (f x) 0) as [->|]; cbn; lia.
    + rewrite lookup_insert_ne by done. rewrite H. f_equal. lia.
Qed.

(** ** What a merged span is labelled *)

Definition inside (m s : Span.t) : Prop := Span.start m <= Span.start s /\ Span.end_ s <= Span.end_ m.

(** The kind of a span inside it; of an exact one if there is one, which
    starts no later than any other, and reaches as far as any that starts there. *)
Definition label_ok (all : list Span.t) (m : Span.t) : Prop :=
  exists s, s ∈ all /\ inside m s /\ Span.kind s = Span.kind m /\
    forall t, t ∈ all -> inside m t -> rank t = 0%N -> rank s = 0%N /\ before s t.

Lemma cmp_pair {A B} `{RustOrd A, RustOrd B} (a c : A) (b d : B) :
  cmp (a, b) (c, d) = match cmp a c with Eq => cmp b d | o => o end.
Proof. done. Qed.

Lemma rank_kind a b : Span.kind a = Span.kind b -> rank a = rank b.
Proof. unfold rank. by intros ->. Qed.

Lemma rank_01 a : rank a = 0%N \/ rank a = 1%N.
Proof. unfold rank. destruct (Span.kind a); auto. Qed.

Lemma better_spec a b :
  better a b = true <->
  (rank a < rank b)%N \/ rank a = rank b /\
    (Span.start a < Span.start b \/ Span.start a = Span.start b /\
      (Span.end_ b < Span.end_ a \/ Span.end_ a = Span.end_ b /\ lt_b (Span.kind a) (Span.kind b) = true)).
Proof.
  unfold better. cbv zeta. unfold lt_b at 1. rewrite !cmp_pair.
  change (cmp (rank a) (rank b)) with (N.compare (rank a) (rank b)).
  change (cmp (Span.start a) (Span.start b)) with (Nat.compare (Span.start a) (Span.start b)).
  change (cmp (Reverse.Make (Span.end_ a)) (Reverse.Make (Span.end_ b))) with (Nat.compare (Span.end_ b) (Span.end_ a)).
  unfold lt_b. destruct (N.compare_spec (rank a) (rank b)), (Nat.compare_spec (Span.start a) (Span.start b)),
    (Nat.compare_spec (Span.end_ b) (Span.end_ a)), (cmp (Span.kind a) (Span.kind b)); split; intros; try done; lia.
Qed.

(** The label of what has been merged so far. *)
Definition labels (seen : list Span.t) (last : Span.t) : Prop :=
  exists s, s ∈ seen /\ Span.kind s = Span.kind last /\
    forall t, t ∈ seen -> rank t = 0%N -> rank s = 0%N /\ before s t.

Lemma labels_on seen last span :
  labels seen last -> (forall t, t ∈ seen -> inside last t /\ before t span) -> Span.start last <= Span.start span ->
  labels (seen ++ [span]) (Span.Make (Span.start last) (Nat.max (Span.end_ last) (Span.end_ span))
    (if better span last then Span.kind span else Span.kind last)).
Proof.
  intros (s & Hs & Hk & Hmin) Hin Hst. destruct (Hin s Hs) as [[Hi1 Hi2] Hbs].
  pose proof (rank_kind _ _ Hk) as Hr. destruct (better span last) eqn:Eb.
  - exists span. split_and!; [set_solver|done|]. apply better_spec in Eb.
    intros t [Ht|Ht]%elem_of_app Ht0; [|apply list_elem_of_singleton in Ht as ->; unfold before; split; [done|lia]].
    destruct (Hmin t Ht Ht0) as [Hs0 Hst0]. rewrite <- Hr, Hs0 in Eb. unfold before in *.
    destruct Eb as [?|(-> & Eb)]; [lia|]. split; [done|]. lia.
  - exists s. split_and!; [set_solver|done|]. apply not_true_iff_false in Eb. rewrite better_spec in Eb.
    intros t [Ht|Ht]%elem_of_app Ht0; [by apply Hmin|]. apply list_elem_of_singleton in Ht as ->.
    split; [|done]. destruct (rank_01 s); [done|]. lia.
Qed.

(** A merged span that grows no more. *)
Lemma labels_done prior seen last later :
  Forall (fun s => Span.start s < Span.end_ s) (prior ++ seen ++ later) ->
  (forall s, s ∈ prior -> Span.end_ s <= Span.start last) -> (forall s, s ∈ seen -> inside last s) ->
  (forall s, s ∈ later -> Span.end_ last <= Span.start s) -> labels seen last -> label_ok (prior ++ seen ++ later) last.
Proof.
  rewrite Forall_forall. intros Hok Hp Hs Hl (s & Hin & Hk & Hmin). exists s.
  split_and!; [set_solver|by apply Hs|done|]. intros t Ht Hi. apply Hmin.
  pose proof (Hok t Ht) as Hne. unfold inside in Hi.
  rewrite !elem_of_app in Ht. destruct Ht as [Ht|[Ht|Ht]]; [specialize (Hp t Ht); lia|done|specialize (Hl t Ht); lia].
Qed.

Lemma merge_from_labels prior seen last spans :
  Forall (fun s => Span.start s < Span.end_ s) (prior ++ seen ++ spans) ->
  (forall s, s ∈ prior -> Span.end_ s <= Span.start last) ->
  (forall s, s ∈ seen -> inside last s) -> (forall s t, s ∈ seen -> t ∈ spans -> before s t) ->
  StronglySorted before spans -> (forall t, t ∈ spans -> Span.start last <= Span.start t) -> labels seen last ->
  Forall (label_ok (prior ++ seen ++ spans)) (merge_from last spans).
Proof.
  revert prior seen last. induction spans as [|span rest IH]; intros prior seen last Hok Hp Hs Hb Hso Hst Hl;
    cbn [merge_from].
  { constructor; [|done]. apply labels_done; try done. intros s ?%elem_of_nil. done. }
  apply StronglySorted_inv in Hso as [Hso Hsp]. rewrite Forall_forall in Hsp.
  pose proof (Hst span (list_elem_of_here _ _)) as Hss.
  destruct (Nat.ltb_spec (Span.start span) (Span.end_ last)) as [Hlt|Hge].
  - replace (seen ++ span :: rest) with ((seen ++ [span]) ++ rest) in * by by rewrite <- app_assoc.
    apply IH; [done|done| | |done| |].
    + intros s [Hin|Hin%list_elem_of_singleton]%elem_of_app; [apply Hs in Hin|subst s]; unfold inside in *; cbn; lia.
    + intros s t [Hin|Hin%list_elem_of_singleton]%elem_of_app Ht; [apply Hb; [done|by right]|subst s; by apply Hsp].
    + intros t Ht. cbn. apply Hst. by right.
    + apply labels_on; [done| |done]. intros t Ht. split; [by apply Hs|]. apply Hb; [done|by left].
  - constructor.
    + apply labels_done; try done. intros s [->|Ht]%elem_of_cons; [done|].
      specialize (Hsp s Ht). unfold before in Hsp. lia.
    + change (span :: rest) with ([span] ++ rest) in *. rewrite app_assoc in *. apply IH; [done| | | |done| |].
      * intros s [Hin|Hin]%elem_of_app; [specialize (Hp s Hin)|specialize (Hs s Hin); unfold inside in Hs]; lia.
      * intros s Hin%list_elem_of_singleton. subst s. unfold inside. lia.
      * intros s t Hin%list_elem_of_singleton Ht. subst s. by apply Hsp.
      * intros t Ht. specialize (Hsp t Ht). unfold before in Hsp. lia.
      * exists span. split_and!; [by left|done|]. intros t Ht%list_elem_of_singleton Ht0. subst t.
        split; [done|unfold before; lia].
Qed.

Lemma merge_labels spans :
  Forall (fun s => Span.start s < Span.end_ s) spans -> Forall (label_ok spans) (merge (sort_spans spans)).
Proof.
  intros Hok. rewrite <- sort_spans_perm in Hok. pose proof (sort_spans_sorted spans) as Hs.
  assert (Forall (label_ok (sort_spans spans)) (merge (sort_spans spans))) as H.
  { unfold merge. destruct (sort_spans spans) as [|s r]; [done|]. apply StronglySorted_inv in Hs as [Hr Hs].
    rewrite Forall_forall in Hs. change (s :: r) with ([] ++ [s] ++ r) at 1. apply merge_from_labels; [done| | | |done| |].
    - intros t ?%elem_of_nil. done.
    - intros t Ht%list_elem_of_singleton. subst t. by split.
    - intros t u Ht%list_elem_of_singleton Hu. subst t. by apply Hs.
    - intros t Ht. specialize (Hs t Ht). unfold before in Hs. lia.
    - exists s. split_and!; [by left|done|]. intros t Ht%list_elem_of_singleton Ht0. subst t. split; [done|unfold before; lia]. }
  eapply Forall_impl; [exact H|]. intros m (s & Hin & Hi & Hk & Hmin). exists s.
  rewrite sort_spans_perm in Hin. split_and!; try done. intros t Ht. apply Hmin. by rewrite sort_spans_perm.
Qed.
