(* ===== verification/Url.v ===== *)
(** HTTPS URLs, as [dwk-proto/src/wire/url.rs] spells them: the strict parser,
    the canonical text, and the resolution of a redirect's reference; with what
    a URL's text is, apart from the parser. *)

From S2P Require Export Host Numerals.

Definition MAX_URL_BYTES : nat := 8 * 1024.
Definition HTTPS_DEFAULT_PORT : N := 443.

Module UrlError.
Inductive t :=
| Empty | TooLong | NotVisibleAscii | NotHttps | MissingAuthority | Userinfo | Host | AddressLiteral | Port | Path
| DotSegment | PercentEncoding | Query | Fragment.

#[global] Instance eq_dec : EqDecision t.
Proof. solve_decision. Defined.

Definition code (e : t) : string :=
  match e with
  | Empty => "URL_EMPTY" | TooLong => "URL_TOO_LONG" | NotVisibleAscii => "URL_NOT_VISIBLE_ASCII"
  | NotHttps => "URL_NOT_HTTPS" | MissingAuthority => "URL_MISSING_AUTHORITY" | Userinfo => "URL_USERINFO"
  | Host => "URL_HOST" | AddressLiteral => "URL_ADDRESS_LITERAL" | Port => "URL_PORT" | Path => "URL_PATH"
  | DotSegment => "URL_DOT_SEGMENT" | PercentEncoding => "URL_PERCENT_ENCODING" | Query => "URL_QUERY"
  | Fragment => "URL_FRAGMENT"
  end.
End UrlError.

(** ** The checks *)

Definition check_text (text : string) : result () UrlError.t :=
  if is_empty text then Err UrlError.Empty
  else if (MAX_URL_BYTES <? String.length text)%nat then Err UrlError.TooLong
  else if negb (str_all (in_range 33 126) text) then Err UrlError.NotVisibleAscii
  else Ok ().

Definition is_alphabetic (b : ascii) : bool := is_lower b || is_upper b.
Definition is_scheme_byte (b : ascii) : bool := is_alphanumeric b || one_of ["+"; "-"; "."]%char b.

(** The bytes of a scheme: a letter and then scheme bytes. *)
Definition scheme_shaped (scheme : string) : bool :=
  match scheme with EmptyString => false | String first rest => is_alphabetic first && str_all is_scheme_byte rest end.

Definition has_scheme (reference : string) : bool :=
  match str_split_once ":" reference with None => false | Some (scheme, _) => scheme_shaped scheme end.

Definition check_host (host : string) : result () UrlError.t :=
  if starts_with_char "[" host then Err UrlError.AddressLiteral
  else if negb (is_host host) then Err UrlError.Host
  else if is_address_literal host then Err UrlError.AddressLiteral
  else Ok ().

Module Origin.
Record t := Make { host : string; port : N }.

#[global] Instance eq_dec : EqDecision t.
Proof. solve_decision. Defined.

Definition new (host : string) (port : N) : result t UrlError.t :=
  let? _ := check_host host in
  if (port =? 0)%N then Err UrlError.Port else Ok (Make host port).

Definition display (self : t) : string := "https://" +:+ host self +:+ ":" +:+ show_N (port self).
End Origin.

Definition parse_port (text : string) : result N UrlError.t :=
  if is_empty text || (5 <? String.length text)%nat || starts_with_char "0" text || negb (str_all is_digit text)
  then Err UrlError.Port
  else
    match parse_uint U16_MAX text with
    | Some port => if (0 <? port)%N then Ok port else Err UrlError.Port
    | None => Err UrlError.Port
    end.

Definition parse_authority (authority : string) : result Origin.t UrlError.t :=
  if is_empty authority then Err UrlError.MissingAuthority
  else if str_contains "@" authority then Err UrlError.Userinfo
  else
    let? (host, port) :=
      match str_split_once ":" authority with
      | None => Ok (authority, HTTPS_DEFAULT_PORT)
      | Some (host, port) =>
          let? _ := check_host host in
          let? port := parse_port port in
          Ok (host, port)
      end in
    Origin.new host port.

Definition is_pchar (b : ascii) : bool :=
  is_alphanumeric b
  || one_of ["-"; "."; "_"; "~"; "!"; "$"; "&"; "'"; "("; ")"; "*"; "+"; ","; ";"; "="; ":"; "@"]%char b.

Definition ascii_uppercase (a : ascii) : ascii := if is_lower a then ascii_of_N (byte_of a - 32) else a.

Definition hex_value (digit : ascii) : N :=
  if is_digit digit then byte_of digit - 48
  else if in_range 65 70 digit then byte_of digit - 65 + 10
  else 0.

Fixpoint canonical_escapes (text : string) (allowed : ascii -> bool) (controls : bool) (refusal : UrlError.t) :
    result string UrlError.t :=
  match text with
  | EmptyString => Ok EmptyString
  | String b rest =>
      if Ascii.eqb b "%" then
        match rest with
        | String high (String low rest) =>
            if negb (is_hexdigit high) || negb (is_hexdigit low) then Err UrlError.PercentEncoding
            else
              let high := ascii_uppercase high in let low := ascii_uppercase low in
              let value := (hex_value high * 16 + hex_value low)%N in
              if (value =? 0)%N || (controls && ((value <? 32)%N || (value =? 127)%N)) then Err UrlError.PercentEncoding
              else
                let? out := canonical_escapes rest allowed controls refusal in
                Ok (String "%" (String high (String low out)))
        | _ => Err UrlError.PercentEncoding
        end
      else if allowed b then
        let? out := canonical_escapes rest allowed controls refusal in
        Ok (String b out)
      else Err refusal
  end.

(** [replace("%2E", ".")]. *)
Fixpoint unescape_dots (segment : string) : string :=
  match segment with
  | EmptyString => EmptyString
  | String a t =>
      match t with
      | String b (String c r) =>
          if Ascii.eqb a "%" && Ascii.eqb b "2" && Ascii.eqb c "E" then String "." (unescape_dots r)
          else String a (unescape_dots t)
      | _ => String a (unescape_dots t)
      end
  end.

Definition dot_segment (segment : string) : bool :=
  let dots := unescape_dots segment in String.eqb dots "." || String.eqb dots "..".

Definition path_byte (b : ascii) : bool := is_pchar b || Ascii.eqb b "/".
Definition query_byte (b : ascii) : bool := is_pchar b || Ascii.eqb b "/" || Ascii.eqb b "?".

Definition canonical_path (path : string) : result string UrlError.t :=
  if negb (starts_with_char "/" path) then Err UrlError.Path
  else
    let? canonical := canonical_escapes path path_byte true UrlError.Path in
    if existsb dot_segment (str_split "/" canonical) then Err UrlError.DotSegment else Ok canonical.

Definition canonical_query (query : string) : result string UrlError.t :=
  canonical_escapes query query_byte false UrlError.Query.

Definition parse_tail (tail : string) : result (string * option string) UrlError.t :=
  if str_contains "#" tail then Err UrlError.Fragment
  else
    let '(path, query) :=
      match str_split_once "?" tail with Some (path, query) => (path, Some query) | None => (tail, None) end in
    let? path := if is_empty path then Ok "/"%string else canonical_path path in
    let? query := match query with Some q => let? q := canonical_query q in Ok (Some q) | None => Ok None end in
    Ok (path, query).

(** [rest.split_at] where the first of [/], [?] and [#] is. *)
Fixpoint split_authority (rest : string) : string * string :=
  match rest with
  | EmptyString => (EmptyString, EmptyString)
  | String b r =>
      if one_of ["/"; "?"; "#"]%char b then (EmptyString, rest)
      else let '(authority, tail) := split_authority r in (String b authority, tail)
  end.

Module HttpsUrl.
Record t := Make { origin : Origin.t; path : string; query : option string }.

#[global] Instance eq_dec : EqDecision t.
Proof. solve_decision. Defined.

(** [parse], past the check of the bytes. *)
Definition parse_parts (text : string) : result t UrlError.t :=
  match str_strip_prefix "https:" text with
  | None => Err UrlError.NotHttps
  | Some rest =>
      let? rest := ok_or (str_strip_prefix "//" rest) UrlError.MissingAuthority in
      let '(authority, tail) := split_authority rest in
      let? origin := parse_authority authority in
      let? (path, query) := parse_tail tail in
      Ok (Make origin path query)
  end.

Definition parse (text : string) : result t UrlError.t :=
  let? _ := check_text text in
  parse_parts text.

Definition request_target (self : t) : string :=
  match query self with Some query => path self +:+ "?" +:+ query | None => path self end.

Definition canonical (self : t) : string := Origin.display (origin self) +:+ request_target self.

(** The path up to its last [/]. *)
Definition directory (self : t) : string :=
  match str_rsplit_once "/" (path self) with Some (before, _) => before +:+ "/" | None => "/" end.

Definition resolve (self : t) (reference : string) : result t UrlError.t :=
  let? _ := check_text reference in
  if str_contains "#" reference then Err UrlError.Fragment
  else if str_starts_with "//" reference then parse ("https:" +:+ reference)
  else if has_scheme reference then parse reference
  else
    let joined :=
      if starts_with_char "/" reference then Origin.display (origin self) +:+ reference
      else if starts_with_char "?" reference then Origin.display (origin self) +:+ path self +:+ reference
      else Origin.display (origin self) +:+ directory self +:+ reference in
    parse joined.
End HttpsUrl.

(** ** On concrete texts *)

Definition canonical_of (text : string) : result string UrlError.t :=
  let? url := HttpsUrl.parse text in Ok (HttpsUrl.canonical url).

Example canonical_port : canonical_of "https://a.b?q=%0a" = Ok "https://a.b:443/?q=%0A"%string.
Proof. by vm_compute. Qed.

Example escaped_dots : canonical_of "https://a.b/x/.%2e/y" = Err UrlError.DotSegment.
Proof. by vm_compute. Qed.

Example hidden_userinfo : canonical_of "https://a.b@evil.test/" = Err UrlError.Userinfo.
Proof. by vm_compute. Qed.

(** * What a URL's text is *)

(** A value an escape may spell. *)
Definition escapable (controls : bool) (value : N) : Prop :=
  value <> 0%N /\ (controls = true -> (32 <= value)%N /\ value <> 127%N).

Definition escaped (high low : ascii) : N := hex_value (ascii_uppercase high) * 16 + hex_value (ascii_uppercase low).

(** A text and its canonical spelling: the same bytes, escapes in uppercase. *)
Inductive spells (allowed : ascii -> bool) (controls : bool) : string -> string -> Prop :=
| spells_nil : spells allowed controls "" ""
| spells_byte b r r' : b <> "%"%char -> allowed b = true -> spells allowed controls r r' ->
    spells allowed controls (String b r) (String b r')
| spells_escape h l r r' : is_hexdigit h = true -> is_hexdigit l = true -> escapable controls (escaped h l) ->
    spells allowed controls r r' ->
    spells allowed controls (String "%" (String h (String l r)))
      (String "%" (String (ascii_uppercase h) (String (ascii_uppercase l) r'))).

Lemma escapable_spec controls value :
  ((value =? 0)%N || (controls && ((value <? 32)%N || (value =? 127)%N))) = false <-> escapable controls value.
Proof.
  unfold escapable. rewrite orb_false_iff, andb_false_iff, orb_false_iff, N.eqb_neq, N.ltb_ge, N.eqb_neq.
  destruct controls; naive_solver.
Qed.

Lemma canonical_escapes_spells allowed controls refusal s t :
  canonical_escapes s allowed controls refusal = Ok t <-> spells allowed controls s t.
Proof.
  split.
  - assert (exists n, String.length s <= n) as [n Hn] by eauto. revert s t Hn.
    induction n as [|n IH]; intros [|b s] t Hn; cbn [String.length] in Hn; try lia; cbn [canonical_escapes];
      try (intros [= <-]; constructor).
    destruct (Ascii.eqb_spec b "%") as [->|Hb].
    + destruct s as [|h [|l s]]; try done. destruct (is_hexdigit h) eqn:Eh, (is_hexdigit l) eqn:El; try done.
      cbn [negb orb].
      cbv zeta. destruct ((_ =? 0)%N || _) eqn:Ev; [done|]. apply escapable_spec in Ev.
      destruct (canonical_escapes s allowed controls refusal) as [out|] eqn:E; [|done]. intros [= <-].
      apply spells_escape; try done. apply IH; [cbn in Hn; lia|done].
    + destruct (allowed b) eqn:Ea; [|done].
      destruct (canonical_escapes s allowed controls refusal) as [out|] eqn:E; [|done]. intros [= <-].
      apply spells_byte; try done. apply IH; [lia|done].
  - induction 1 as [|b r r' Hb Ha _ IH|h l r r' Hh Hl Hv _ IH]; [done|..]; cbn [canonical_escapes].
    + rewrite (proj2 (Ascii.eqb_neq _ _)), Ha, IH by done. done.
    + rewrite Ascii.eqb_refl, Hh, Hl, IH. cbn [negb orb]. cbv zeta.
      apply escapable_spec in Hv. unfold escaped in Hv. by rewrite Hv.
Qed.

Lemma uppercase_hexdigit a : is_hexdigit a = true -> is_hexdigit (ascii_uppercase a) = true.
Proof.
  intros H. assert (implb (is_hexdigit a) (is_hexdigit (ascii_uppercase a)) = true) as Hi; [|by rewrite H in Hi].
  clear H. revert a. apply ascii_forall. by vm_compute.
Qed.

Lemma uppercase_twice a : ascii_uppercase (ascii_uppercase a) = ascii_uppercase a.
Proof. apply Ascii.eqb_eq. revert a. apply ascii_forall. by vm_compute. Qed.

(** A canonical spelling is its own. *)
Lemma spells_canonical allowed controls s t : spells allowed controls s t -> spells allowed controls t t.
Proof.
  induction 1 as [|b r r' Hb Ha _ IH|h l r r' Hh Hl Hv _ IH]; [constructor|by apply spells_byte|].
  rewrite <- (uppercase_twice h) at 2. rewrite <- (uppercase_twice l) at 2.
  apply spells_escape; [by apply uppercase_hexdigit..| |done].
  unfold escaped in *. by rewrite !uppercase_twice.
Qed.

(** The bytes of either. *)
Lemma spells_bytes (f allowed : ascii -> bool) controls s t :
  spells allowed controls s t -> f "%"%char = true -> (forall b, allowed b = true -> f b = true) ->
  (forall b, is_hexdigit b = true -> f b = true) -> str_all f s = true /\ str_all f t = true.
Proof.
  intros H Hp Ha Hh. induction H as [|b r r' Hb Hab _ [IH1 IH2]|h l r r' Hhh Hhl _ _ [IH1 IH2]]; [done|..]; cbn [str_all].
  - by rewrite Ha, IH1, IH2.
  - rewrite Hp, !Hh, IH1, IH2 by (done || by apply uppercase_hexdigit). done.
Qed.

Lemma spells_no c allowed controls s t :
  spells allowed controls s t -> Ascii.eqb "%" c = false -> allowed c = false -> is_hexdigit c = false ->
  str_contains c s = false /\ str_contains c t = false.
Proof.
  intros H Hp Ha Hh.
  destruct (spells_bytes (fun b => negb (Ascii.eqb b c)) _ _ _ _ H) as [H1 H2].
  - by rewrite Hp.
  - intros b Hb. apply negb_true_iff, Ascii.eqb_neq. by intros ->; congruence.
  - intros b Hb. apply negb_true_iff, Ascii.eqb_neq. by intros ->; congruence.
  - split; eapply str_all_not_contains; [|eassumption| |eassumption]; cbn; by rewrite Ascii.eqb_refl.
Qed.

Definition host_ok (host : string) : Prop := is_host host = true /\ is_address_literal host = false.

Definition origin_ok (o : Origin.t) : Prop := host_ok (Origin.host o) /\ (1 <= Origin.port o <= U16_MAX)%N.

Definition authority_of (authority : string) (o : Origin.t) : Prop :=
  authority = Origin.host o /\ Origin.port o = HTTPS_DEFAULT_PORT \/
  authority = Origin.host o +:+ ":" +:+ show_N (Origin.port o).

Definition path_of (text path : string) : Prop :=
  starts_with_char "/" text = true /\ spells path_byte true text path /\
  Forall (fun segment => dot_segment segment = false) (str_split "/" path).

Definition query_of (text query : string) : Prop := spells query_byte false text query.

Definition tail_of (tail path : string) (query : option string) : Prop :=
  exists p q, tail = p +:+ q /\ (p = ""%string /\ path = "/"%string \/ path_of p path) /\
    (q = ""%string /\ query = None \/ exists text q', q = "?" +:+ text /\ query = Some q' /\ query_of text q').

(** A text is one of a URL's spellings. *)
Definition written (text : string) (u : HttpsUrl.t) : Prop :=
  exists authority tail, text = "https://" +:+ authority +:+ tail /\ origin_ok (HttpsUrl.origin u) /\
    authority_of authority (HttpsUrl.origin u) /\ tail_of tail (HttpsUrl.path u) (HttpsUrl.query u).

Lemma host_no c host : host_ok host -> is_label_byte c = false -> Ascii.eqb "." c = false -> str_contains c host = false.
Proof. intros [H _] Hc Hd. by apply is_host_no. Qed.

Lemma check_host_Ok host v : check_host host = Ok v <-> host_ok host.
Proof.
  unfold check_host, host_ok. destruct v. destruct (is_host host) eqn:Eh.
  - assert (starts_with_char "[" host = false) as -> by (apply starts_no_contains; by apply is_host_no).
    destruct (is_address_literal host); naive_solver.
  - destruct (starts_with_char "[" host); cbn; naive_solver.
Qed.

Lemma origin_new_Ok host port o : (port <= U16_MAX)%N -> Origin.new host port = Ok o <-> o = Origin.Make host port /\
  origin_ok o.
Proof.
  intros Hp. unfold Origin.new, origin_ok. destruct (check_host host) as [v|e] eqn:E.
  - apply check_host_Ok in E. destruct (N.eqb_spec port 0) as [->|Hn].
    + split; [done|]. intros [-> [_ H]]. cbn in H. lia.
    + split; [intros [= <-]|intros [-> _]; done]. cbn. split; [done|split; [done|lia]].
  - split; [done|]. intros [-> [H _]]. cbn in H. by rewrite (proj2 (check_host_Ok host tt)) in E.
Qed.

Lemma parse_port_Ok text port : parse_port text = Ok port <-> text = show_N port /\ (1 <= port <= U16_MAX)%N.
Proof.
  unfold parse_port. split.
  - destruct (is_empty text || _ || _ || _) eqn:E; [done|].
    apply orb_false_iff in E as [[[E1 E2]%orb_false_iff E3]%orb_false_iff E4].
    apply negb_false_iff in E4. destruct (parse_uint U16_MAX text) as [p|] eqn:Ep; [|done].
    destruct (N.ltb_spec 0 p); [|done]. intros [= <-]. pose proof (parse_uint_bound _ _ _ Ep).
    split; [|lia]. symmetry. apply (parse_uint_canonical U16_MAX); [|done]. unfold canonical_decimal.
    by rewrite E1, E3, E4, andb_false_r.
  - intros [-> Hp]. pose proof (show_N_canonical port) as Hc. unfold canonical_decimal in Hc.
    apply andb_true_iff in Hc as [[_ _]%andb_true_iff Hc]. rewrite show_N_not_empty, show_N_digits. cbn [orb negb].
    rewrite (proj2 (Nat.ltb_ge 5 _)) by (apply show_u16_length; lia). cbn [orb].
    assert (starts_with_char "0" (show_N port) = false) as ->.
    { apply not_true_iff_false. intros H0. rewrite H0, andb_true_r in Hc. apply negb_true_iff, Nat.ltb_ge in Hc.
      pose proof (parse_N_show port) as Hs. destruct (show_N port) as [|a [|b r]] eqn:Es; [done| |cbn in Hc; lia].
      cbn in H0. apply Ascii.eqb_eq in H0 as ->. injection Hs as <-. lia. }
    cbn [orb]. rewrite parse_uint_show by lia. by rewrite (proj2 (N.ltb_lt 0 port)) by lia.
Qed.

Lemma parse_authority_Ok authority o : parse_authority authority = Ok o <-> origin_ok o /\ authority_of authority o.
Proof.
  unfold parse_authority, authority_of. split.
  - destruct (is_empty authority); [done|]. destruct (str_contains "@" authority); [done|].
    destruct (str_split_once ":" authority) as [[host port]|] eqn:Es.
    + apply str_split_once_Some in Es as [-> _]. destruct (check_host host) as [v|] eqn:Eh; [|done].
      destruct (parse_port port) as [p|] eqn:Ep; [|done]. apply parse_port_Ok in Ep as [-> Hp].
      intros [-> Ho]%origin_new_Ok; [|lia]. split; [done|by right].
    + intros [-> Ho]%origin_new_Ok; [|by vm_compute]. split; [done|by left].
  - intros [Ho Ha]. pose proof Ho as [Hh Hp]. destruct o as [host port]. cbn in *.
    assert (forall c, is_label_byte c = false -> Ascii.eqb "." c = false -> str_contains c host = false) as Hn
      by (intros; by apply host_no).
    assert (is_empty host = false) as He by (destruct Hh as [(H & _)%is_host_spec _]; by destruct host).
    destruct Ha as [[-> ->] | ->].
    + rewrite He, Hn, (proj2 (str_split_once_None _ _)) by by (done || apply Hn). apply origin_new_Ok; [lia|done].
    + assert (is_empty (host +:+ String ":" (show_N port)) = false) as -> by by destruct host.
      rewrite str_contains_app, Hn by done. cbn [str_contains]. rewrite show_N_no by done. cbn [orb].
      change (Ascii.eqb ":" "@") with false. cbn [orb]. rewrite str_split_once_app by by apply Hn.
      rewrite (proj2 (check_host_Ok host tt)), (proj2 (parse_port_Ok _ port)) by done. apply origin_new_Ok; [lia|done].
Qed.

Lemma canonical_path_Ok text path : canonical_path text = Ok path <-> path_of text path.
Proof.
  unfold canonical_path, path_of. destruct (starts_with_char "/" text); [|naive_solver]. cbn [negb].
  destruct (canonical_escapes text path_byte true UrlError.Path) as [c|] eqn:E.
  - apply canonical_escapes_spells in E as Hc. destruct (existsb dot_segment (str_split "/" c)) eqn:Ed.
    + split; [done|]. intros (_ & Hs & Hf). apply (canonical_escapes_spells _ _ UrlError.Path) in Hs.
      assert (c = path) as -> by congruence. apply existsb_exists in Ed as (x & Hx%list_elem_of_In & Hd).
      rewrite Forall_forall in Hf. specialize (Hf x Hx). congruence.
    + assert (Forall (fun segment => dot_segment segment = false) (str_split "/" c)) as Hf.
      { apply Forall_forall. intros x Hx. apply not_true_iff_false. intros Hd. apply not_true_iff_false in Ed. apply Ed.
        apply existsb_exists. exists x. by rewrite <- list_elem_of_In. }
      split; [by intros [= <-]|]. intros (_ & Hs & _). apply (canonical_escapes_spells _ _ UrlError.Path) in Hs.
      congruence.
  - split; [done|]. intros (_ & Hs & _). apply (canonical_escapes_spells _ _ UrlError.Path) in Hs. congruence.
Qed.

Lemma canonical_query_Ok text query : canonical_query text = Ok query <-> query_of text query.
Proof. apply canonical_escapes_spells. Qed.

Lemma path_of_no c text path :
  path_of text path -> Ascii.eqb "%" c = false -> path_byte c = false -> is_hexdigit c = false ->
  str_contains c text = false /\ str_contains c path = false.
Proof. intros (_ & H & _) Hp Ha Hh. by eapply spells_no. Qed.

Lemma query_of_no c text query :
  query_of text query -> Ascii.eqb "%" c = false -> query_byte c = false -> is_hexdigit c = false ->
  str_contains c text = false /\ str_contains c query = false.
Proof. intros H Hp Ha Hh. by eapply spells_no. Qed.

Lemma parse_tail_Ok tail path query : parse_tail tail = Ok (path, query) <-> tail_of tail path query.
Proof.
  unfold parse_tail, tail_of. split.
  - destruct (str_contains "#" tail); [done|].
    destruct (str_split_once "?" tail) as [[p q]|] eqn:Es.
    + apply str_split_once_Some in Es as [-> _].
      destruct (if is_empty p then _ else _) as [p'|] eqn:Ep; [|done].
      destruct (canonical_query q) as [q'|] eqn:Eq; [|done]. intros [= <- <-]. apply canonical_query_Ok in Eq.
      exists p, ("?" +:+ q). split; [done|]. split; [|right; by exists q, q'].
      destruct (is_empty p) eqn:He; [left|right; by apply canonical_path_Ok].
      apply is_empty_true in He. by injection Ep as <-.
    + destruct (if is_empty tail then _ else _) as [p'|] eqn:Ep; [|done]. intros [= <- <-].
      exists tail, ""%string. split; [by rewrite string_app_nil_r|]. split; [|by left].
      destruct (is_empty tail) eqn:He; [left|right; by apply canonical_path_Ok].
      apply is_empty_true in He. by injection Ep as <-.
  - intros (p & q & -> & Hp & Hq).
    assert (str_contains "#" p = false /\ str_contains "?" p = false /\
      (if is_empty p then Ok "/"%string else canonical_path p) = Ok path) as (Hp1 & Hp2 & Hp3).
    { destruct Hp as [[-> ->]|Hp]; [done|]. 
      split_and!; [by apply (path_of_no "#" _ _ Hp)|by apply (path_of_no "?" _ _ Hp)|].
      destruct p; [by destruct Hp|]. by apply canonical_path_Ok. }
    destruct Hq as [[-> ->]|(text & q' & -> & -> & Hq)].
    + rewrite string_app_nil_r, Hp1, (proj2 (str_split_once_None _ _)) by done. by rewrite Hp3.
    + rewrite str_contains_app, Hp1. cbn [orb]. destruct (query_of_no "#" _ _ Hq) as [Hq1 _]; [done..|].
      cbn [str_contains String.append]. rewrite Hq1. change (Ascii.eqb "?" "#" || false) with false. cbv iota.
      rewrite str_split_once_app by done. rewrite Hp3. by rewrite (proj2 (canonical_query_Ok _ _) Hq).
Qed.

Definition delimiter : ascii -> bool := one_of ["/"; "?"; "#"]%char.

(** A text before the first delimiter, and the rest. *)
Lemma split_authority_spec s a t :
  split_authority s = (a, t) <->
  s = a +:+ t /\ str_all (fun b => negb (delimiter b)) a = true /\
  match t with String b _ => delimiter b = true | EmptyString => True end.
Proof.
  revert a t. induction s as [|b s IH]; intros a t; cbn [split_authority].
  - split; [by intros [= <- <-]|]. intros (E & _ & _). by destruct a, t.
  - change (one_of _ b) with (delimiter b). destruct (delimiter b) eqn:Eb.
    + split; [by intros [= <- <-]|]. intros (E & Ha & _). destruct a as [|x a]; [cbn in E; congruence|].
      injection E as -> _. cbn [str_all] in Ha. by rewrite Eb in Ha.
    + destruct (split_authority s) as [a' t'] eqn:E. split.
      * intros [= <- <-]. destruct (proj1 (IH a' t') eq_refl) as (-> & Ha & Ht). split_and!; [done| |done].
        cbn [str_all]. by rewrite Eb.
      * intros (Es & Ha & Ht). destruct a as [|x a].
        -- cbn in Es. subst t. by rewrite Eb in Ht.
        -- injection Es as -> ->. cbn [str_all] in Ha. apply andb_true_iff in Ha as [_ Ha].
           by injection (proj2 (IH a t) (conj eq_refl (conj Ha Ht))) as -> ->.
Qed.

Lemma str_all_of_no (f : ascii -> bool) s : (forall c, f c = false -> str_contains c s = false) -> str_all f s = true.
Proof.
  induction s as [|b s IH]; intros H; [done|]. cbn [str_all]. apply andb_true_iff. split.
  - apply not_false_iff_true. intros Hb. specialize (H b Hb). cbn in H. by rewrite Ascii.eqb_refl in H.
  - apply IH. intros c Hc. specialize (H c Hc). cbn in H. by apply orb_false_iff in H as [_ ?].
Qed.

(** The bytes of an authority. *)
Lemma authority_bytes f authority o :
  origin_ok o -> authority_of authority o ->
  (forall c, f c || (negb (is_label_byte c) && negb (Ascii.eqb "." c) && negb (is_digit c) && negb
    (Ascii.eqb ":" c)) = true) ->
  str_all f authority = true.
Proof.
  intros [Hh _] Ha Hf. apply str_all_of_no. intros c Hc. specialize (Hf c). rewrite Hc in Hf. cbn [orb] in Hf.
  apply andb_true_iff in Hf as [[[H1 H2]%andb_true_iff H3]%andb_true_iff H4].
  apply negb_true_iff in H1, H2, H3, H4. destruct Ha as [[-> _] | ->]; [by apply host_no|].
  rewrite str_contains_app, host_no by done. cbn [orb String.append str_contains]. by rewrite H4, show_N_no.
Qed.

Lemma authority_no_delimiter authority o : origin_ok o -> authority_of authority o ->
  str_all (fun b => negb (delimiter b)) authority = true.
Proof. intros Ho Ha. apply (authority_bytes _ _ _ Ho Ha). apply ascii_forall. by vm_compute. Qed.

Lemma tail_begins tail path query : tail_of tail path query ->
  match tail with String b _ => delimiter b = true | EmptyString => True end.
Proof.
  intros (p & q & -> & [[-> _]|(Hs & _)] & Hq).
  - by destruct Hq as [[-> _]|(text & q' & -> & _)].
  - destruct p as [|b p]; [done|]. cbn in *. apply Ascii.eqb_eq in Hs as ->. done.
Qed.

Lemma parse_parts_Ok text u : HttpsUrl.parse_parts text = Ok u <-> written text u.
Proof.
  unfold HttpsUrl.parse_parts, written. split.
  - destruct (str_strip_prefix "https:" text) as [r|] eqn:E1; [|done]. apply str_strip_prefix_Some in E1 as ->.
    destruct (str_strip_prefix "//" r) as [r'|] eqn:E2; [|done]. apply str_strip_prefix_Some in E2 as ->. cbn [ok_or].
    destruct (split_authority r') as [a t] eqn:Es. apply split_authority_spec in Es as (-> & _ & _).
    destruct (parse_authority a) as [o|] eqn:Ea; [|done]. apply parse_authority_Ok in Ea as [Ho Ha].
    destruct (parse_tail t) as [[p q]|] eqn:Et; [|done]. apply parse_tail_Ok in Et. intros [= <-].
    exists a, t. by split_and!.
  - intros (a & t & -> & Ho & Ha & Ht).
    assert (str_strip_prefix "https:" ("https://" +:+ a +:+ t) = Some ("//" +:+ a +:+ t)) as ->
      by by apply str_strip_prefix_Some.
    assert (str_strip_prefix "//" ("//" +:+ a +:+ t) = Some (a +:+ t)) as -> by by apply str_strip_prefix_Some.
    cbn [ok_or]. assert (split_authority (a +:+ t) = (a, t)) as ->.
    { apply split_authority_spec. split_and!; [done|by eapply authority_no_delimiter|by eapply tail_begins]. }
    rewrite (proj2 (parse_authority_Ok a _)), (proj2 (parse_tail_Ok t _ _) Ht) by done. by destruct u.
Qed.

(** ** Canonical texts *)

Definition url_ok (u : HttpsUrl.t) : Prop :=
  origin_ok (HttpsUrl.origin u) /\ path_of (HttpsUrl.path u) (HttpsUrl.path u) /\
  match HttpsUrl.query u with Some q => query_of q q | None => True end.

Lemma path_of_canonical text path : path_of text path -> path_of path path.
Proof.
  intros (Hs & Hp & Hf). split; [|by split; [eapply spells_canonical|]].
  inversion Hp as [|b r r' Hb Ha _ E1 E2|h l r r' _ _ _ _ E1 E2]; subst; [done..|]. done.
Qed.

Lemma root_path : path_of "/" "/".
Proof. split; [done|split; [|by repeat constructor]]. apply spells_byte; [done|done|constructor]. Qed.

Lemma written_url_ok text u : written text u -> url_ok u.
Proof.
  intros (a & t & _ & Ho & _ & (p & q & _ & Hp & Hq)). split_and!; [done| |].
  - destruct Hp as [[_ ->]|Hp]; [apply root_path|by eapply path_of_canonical].
  - destruct Hq as [[_ ->]|(x & q' & _ & -> & Hq)]; [done|]. by eapply spells_canonical.
Qed.

Lemma target_tail u : url_ok u -> tail_of (HttpsUrl.request_target u) (HttpsUrl.path u) (HttpsUrl.query u).
Proof.
  intros (_ & Hp & Hq). unfold HttpsUrl.request_target. destruct (HttpsUrl.query u) as [q|].
  - exists (HttpsUrl.path u), ("?" +:+ q). split; [done|]. split; [by right|]. right. by exists q, q.
  - exists (HttpsUrl.path u), ""%string. split; [by rewrite string_app_nil_r|]. split; [by right|by left].
Qed.

Lemma canonical_written u : url_ok u -> written (HttpsUrl.canonical u) u.
Proof.
  intros Hu. pose proof Hu as (Ho & _).
  exists (Origin.host (HttpsUrl.origin u) +:+ ":" +:+ show_N (Origin.port (HttpsUrl.origin u))),
    (HttpsUrl.request_target u).
  split_and!; [|done|by right|by apply target_tail].
  unfold HttpsUrl.canonical, Origin.display. by rewrite !string_app_assoc.
Qed.

Lemma visible_tail tail path query : tail_of tail path query -> str_all (in_range 33 126) tail = true.
Proof.
  assert (forall b, path_byte b = true -> in_range 33 126 b = true) as Hpath.
  { intros b Hb. assert (implb (path_byte b) (in_range 33 126 b) = true) as Hi; [|by rewrite Hb in Hi].
    clear Hb. revert b. apply ascii_forall. by vm_compute. }
  assert (forall b, query_byte b = true -> in_range 33 126 b = true) as Hquery.
  { intros b Hb. assert (implb (query_byte b) (in_range 33 126 b) = true) as Hi; [|by rewrite Hb in Hi].
    clear Hb. revert b. apply ascii_forall. by vm_compute. }
  assert (forall b, is_hexdigit b = true -> in_range 33 126 b = true) as Hhex.
  { intros b Hb. assert (implb (is_hexdigit b) (in_range 33 126 b) = true) as Hi; [|by rewrite Hb in Hi].
    clear Hb. revert b. apply ascii_forall. by vm_compute. }
  intros (p & q & -> & Hp & Hq). rewrite str_all_app. apply andb_true_iff. split.
  - destruct Hp as [[-> _]|(_ & Hp & _)]; [done|]. by apply (spells_bytes (in_range 33 126) _ _ _ _ Hp).
  - destruct Hq as [[-> _]|(x & q' & -> & _ & Hq)]; [done|]. by apply (spells_bytes (in_range 33 126) _ _ _ _ Hq).
Qed.

Lemma check_text_Ok text v : check_text text = Ok v <-> text <> ""%string /\ String.length text <= MAX_URL_BYTES /\
  str_all (in_range 33 126) text = true.
Proof.
  unfold check_text. destruct v. destruct (is_empty text) eqn:E.
  - apply is_empty_true in E. naive_solver.
  - assert (text <> ""%string) by by intros ->. destruct (Nat.ltb_spec MAX_URL_BYTES (String.length text)).
    + split; [done|]. intros (_ & ? & _). lia.
    + destruct (str_all _ text); naive_solver.
Qed.

Lemma written_checked text u : written text u -> String.length text <= MAX_URL_BYTES -> check_text text = Ok ().
Proof.
  intros (a & t & -> & Ho & Ha & Ht) Hl. apply check_text_Ok. split_and!; [done|done|].
  rewrite !str_all_app, (visible_tail _ _ _ Ht), andb_true_r. apply andb_true_iff. split; [done|].
  apply (authority_bytes _ _ _ Ho Ha). apply ascii_forall. by vm_compute.
Qed.

(** A text parses exactly as the URL it is a spelling of. *)
Lemma parse_Ok text u : HttpsUrl.parse text = Ok u <-> written text u /\ String.length text <= MAX_URL_BYTES.
Proof.
  unfold HttpsUrl.parse. split.
  - destruct (check_text text) as [v|] eqn:Ec; [|done]. apply check_text_Ok in Ec as (_ & Hl & _).
    by intros ?%parse_parts_Ok.
  - intros [Hw Hl]. rewrite (written_checked _ _ Hw Hl). by apply parse_parts_Ok.
Qed.

Lemma written_unique text u v : written text u -> written text v -> u = v.
Proof. intros Hu%parse_parts_Ok Hv%parse_parts_Ok. congruence. Qed.

(** ** References *)

Lemma str_rsplit_once_Some c s h t : str_rsplit_once c s = Some (h, t) -> s = h +:+ String c t.
Proof.
  revert h t. induction s as [|a s IH]; intros h t; cbn [str_rsplit_once]; [done|].
  destruct (str_rsplit_once c s) as [[h' t']|] eqn:E.
  - intros [= <- <-]. cbn. by rewrite (IH h' t').
  - destruct (Ascii.eqb_spec a c) as [->|]; [by intros [= <- <-]|done].
Qed.

Lemma directory_path u : url_ok u -> exists before after, HttpsUrl.directory u = before +:+ "/" /\
  HttpsUrl.path u = before +:+ "/" +:+ after.
Proof.
  intros (_ & (Hs & _) & _). unfold HttpsUrl.directory.
  destruct (str_rsplit_once "/" (HttpsUrl.path u)) as [[h t]|] eqn:E.
  - apply str_rsplit_once_Some in E. by exists h, t.
  - exfalso. destruct (HttpsUrl.path u) as [|a s]; [done|]. cbn in Hs. apply Ascii.eqb_eq in Hs as ->.
    cbn [str_rsplit_once] in E. destruct (str_rsplit_once "/" s) as [[? ?]|]; [done|]. done.
Qed.

Lemma spells_length allowed controls s t : spells allowed controls s t -> String.length s = String.length t.
Proof. induction 1; cbn; lia. Qed.

Lemma spells_unique allowed controls s t t' : spells allowed controls s t -> spells allowed controls s t' -> t = t'.
Proof. intros H%(canonical_escapes_spells _ _ UrlError.Path) H'%(canonical_escapes_spells _ _ UrlError.Path).
congruence. Qed.

(** A text cut at a slash, which no escape holds. *)
Lemma spells_cut allowed controls a b t :
  spells allowed controls (a +:+ String "/" b) t ->
  exists ta tb, t = ta +:+ String "/" tb /\ spells allowed controls a ta /\ spells allowed controls b tb.
Proof.
  intros H. remember (a +:+ String "/" b) as s eqn:E. revert a E.
  induction H as [|c r r' Hc Ha Hr IH|h l r r' Hh Hl Hv Hr IH]; intros a E.
  - by destruct a.
  - destruct a as [|x a]; injection E as -> ->.
    + exists ""%string, r'. split; [done|]. split; [constructor|done].
    + destruct (IH a eq_refl) as (ta & tb & -> & H1 & H2). exists (String x ta), tb. split; [done|].
      split; [by apply spells_byte|done].
  - destruct a as [|x [|y [|z a]]]; cbn in E; injection E as; subst; try done.
    destruct (IH a eq_refl) as (ta & tb & -> & H1 & H2).
    exists (String "%" (String (ascii_uppercase y) (String (ascii_uppercase z) ta))), tb.
    split; [done|]. split; [by apply spells_escape|done].
Qed.

Lemma written_at o tail v :
  origin_ok o -> match tail with String b _ => delimiter b = true | EmptyString => True end ->
  written (Origin.display o +:+ tail) v ->
  HttpsUrl.origin v = o /\ tail_of tail (HttpsUrl.path v) (HttpsUrl.query v).
Proof.
  intros Ho Hb (a & t & E & Hov & Ha & Ht). unfold Origin.display in E. rewrite !string_app_assoc in E.
  apply str_app_inj in E.
  set (a0 := Origin.host o +:+ ":" +:+ show_N (Origin.port o)).
  assert (authority_of a0 o) as Ha0 by by right.
  assert (a0 +:+ tail = a +:+ t) as E' by (unfold a0; rewrite !string_app_assoc; exact E).
  assert (split_authority (a0 +:+ tail) = (a0, tail)) as S1 by (apply split_authority_spec; split_and!;
    [done|exact (authority_no_delimiter _ _ Ho Ha0)|done]).
  assert (split_authority (a0 +:+ tail) = (a, t)) as S2 by (apply split_authority_spec; split_and!;
    [done|exact (authority_no_delimiter _ _ Hov Ha)|by eapply tail_begins]).
  assert (a = a0 /\ t = tail) as [-> ->] by (split; congruence). split; [|done].
  pose proof (proj2 (parse_authority_Ok a0 o) (conj Ho Ha0)).
  pose proof (proj2 (parse_authority_Ok a0 _) (conj Hov Ha)). congruence.
Qed.

(** The path and query a reference without an origin leads to. *)
Definition relative_of (u : HttpsUrl.t) (reference path : string) (query : option string) : Prop :=
  if starts_with_char "/" reference then tail_of reference path query
  else if starts_with_char "?" reference then
    path = HttpsUrl.path u /\ exists text q, reference = "?" +:+ text /\ query = Some q /\ query_of text q
  else exists rest, path = HttpsUrl.directory u +:+ rest /\ tail_of (HttpsUrl.directory u +:+ reference) path query.

Lemma directory_kept u reference path query :
  url_ok u -> starts_with_char "/" reference = false -> starts_with_char "?" reference = false ->
  tail_of (HttpsUrl.directory u +:+ reference) path query -> exists rest, path = HttpsUrl.directory u +:+ rest.
Proof.
  intros Hu H1 H2 Ht. pose proof Hu as (_ & (_ & Hs & _) & _).
  destruct (directory_path u Hu) as (before & after & Ed & Ep). rewrite Ed in *. rewrite Ep in Hs.
  apply spells_cut in Hs as (ta & tb & Eab & Hs & _).
  assert (ta = before) as ->.
  { apply spells_length in Hs as Hl. clear - Eab Hl. revert ta Eab Hl.
    induction before as [|a s IH]; intros [|x ta]; cbn; try done.
    intros [= -> E] [= Hl]. by rewrite (IH ta). }
  pose proof Ht as (p & q & E & Hp & Hq).
  assert (exists r, p = before +:+ String "/" r) as [r ->].
  { rewrite string_app_assoc in E. assert (str_contains "?" before = false) as Hb.
    { eapply spells_no; [exact Hs|done..]. }
    assert (sprefix (before +:+ "/") (p +:+ q)) as Hpre by (rewrite <- E; exists reference; by rewrite string_app_assoc).
    destruct (sprefix_total _ _ _ Hpre (sprefix_app p q)) as [[r Er]|[r Er]].
    - exists r. by rewrite Er, string_app_assoc.
    - destruct r as [|c r].
      { exists ""%string. by rewrite string_app_nil_r in Er. }
      exfalso. destruct Hpre as [x Hx]. rewrite Er, !string_app_assoc in Hx. apply str_app_inj in Hx.
      destruct Hq as [[-> _]|(text & q' & -> & _)]; [done|]. cbn in Hx. injection Hx as Ec _. subst c.
      apply (f_equal (str_contains "?")) in Er. rewrite !str_contains_app, Hb in Er. cbn in Er.
      destruct (str_contains "?" p); cbn in Er; done. }
  destruct Hp as [[Hp _]|(_ & Hp & _)]; [by destruct before|].
  apply spells_cut in Hp as (ta & tb' & -> & Hta & _). rewrite (spells_unique _ _ _ _ _ Hta Hs).
  exists tb'. by rewrite string_app_assoc.
Qed.

Lemma resolve_Ok u reference v :
  url_ok u -> HttpsUrl.resolve u reference = Ok v ->
  str_contains "#" reference = false /\
  (if str_starts_with "//" reference then HttpsUrl.parse ("https:" +:+ reference) = Ok v
   else if has_scheme reference then HttpsUrl.parse reference = Ok v
   else HttpsUrl.origin v = HttpsUrl.origin u /\ relative_of u reference (HttpsUrl.path v) (HttpsUrl.query v)).
Proof.
  intros Hu. pose proof Hu as (Ho & Hp & _). unfold HttpsUrl.resolve, relative_of.
  destruct (check_text reference) as [w|] eqn:Ec; [|done].
  apply check_text_Ok in Ec as (Hne & _). destruct (str_contains "#" reference) eqn:Eh; [done|].
  destruct (str_starts_with "//" reference); [done|]. destruct (has_scheme reference); [done|]. cbv zeta.
  intros [Hw Hl]%parse_Ok. split; [done|].
  destruct (starts_with_char "/" reference) eqn:E1; [|destruct (starts_with_char "?" reference) eqn:E2].
  - apply written_at in Hw as [Hov Ht]; [by split|done|]. destruct reference; [done|]. cbn in E1.
    by apply Ascii.eqb_eq in E1 as ->.
  - apply written_at in Hw as [Hov Ht]; [|done|].
    + split; [done|]. apply parse_tail_Ok in Ht. unfold parse_tail in Ht.
      destruct reference as [|b text]; [done|]. cbn in E2. apply Ascii.eqb_eq in E2 as ->.
      destruct (path_of_no "?" _ _ Hp) as [Hq _]; [done..|].
      rewrite str_split_once_app in Ht by done. destruct (str_contains "#" (_ +:+ _)); [done|].
      assert (is_empty (HttpsUrl.path u) = false) as He by (destruct Hp as (Hs & _); by destruct (HttpsUrl.path u)).
      rewrite He, (proj2 (canonical_path_Ok (HttpsUrl.path u) _) Hp) in Ht.
      destruct (canonical_query text) as [q|] eqn:Eq; [|done].
      injection Ht as <- <-. split; [done|]. exists text, q. by apply canonical_query_Ok in Eq.
    + destruct Hp as (Hs & _). destruct (HttpsUrl.path u); [done|]. cbn in *. by apply Ascii.eqb_eq in Hs as ->.
  - apply written_at in Hw as [Hov Ht]; [|done|].
    + split; [done|]. destruct (directory_kept u reference _ _ Hu E1 E2 Ht) as [rest Hr]. by exists rest.
    + destruct (directory_path u Hu) as (before & after & -> & Ep). destruct Hp as (Hs & _). rewrite Ep in Hs.
      destruct before; [done|]. cbn in *. by apply Ascii.eqb_eq in Hs as ->.
Qed.
