(* ===== verification/NetPlan.v ===== *)
(** How a hop of [net.http] is decided: both gates on its canonical actions
    ([dwkd-authority/src/state/query.rs], [state/net_http/plan.rs]), those on the
    credential it asks for ([state/secret_use.rs]), and whether they are such
    that its host is resolved ([state/net_http/ledger.rs]). *)

From stdpp Require Import gmap.
From S2P Require Export Eval Guard SecretShapes Url.

(** A method on the wire ([dwkp/netops.rs]). *)
Module HttpMethod.
Inductive t := Get | Head | Post | Put | Patch | Delete | Options.

#[global] Instance eq_dec : EqDecision t.
Proof. solve_decision. Defined.

Definition permits_body (self : t) : bool := match self with Post | Put | Patch | Delete => true | _ => false end.
End HttpMethod.

(** ** Both gates *)

Module Grant.
Record t := Make { cap_id : string; capability : Capability.t }.
End Grant.

Module DecisionRecord.
Record t := Make {
  required : Capability.t;
  covering : option string;
  policy : Decision.t;
  destination_ip : option IpAddress.t
}.

Definition capability_satisfied (self : t) : bool := is_some (covering self).

Definition policy_satisfied (self : t) : bool := bool_decide (Decision.effect (policy self) = Effect.Allow).

Definition permits (self : t) : bool := capability_satisfied self && policy_satisfied self.
End DecisionRecord.

Definition decide (action : CanonicalAction.t) (granted : list Grant.t) (context : PolicyContext.t)
    (compiled : CompiledPolicy.t) : DecisionRecord.t :=
  let covering :=
    Grant.cap_id <$> List.find (fun grant => Capability.contains (Grant.capability grant)
      (CanonicalAction.capability action)) granted in
  let decision := evaluate compiled action context in
  DecisionRecord.Make (CanonicalAction.capability action) covering decision (CanonicalAction.destination_ip action).

Module Gate.
Record t := Make { record : DecisionRecord.t; obligations_enforced : bool }.

Definition policy_satisfied (self : t) : bool := DecisionRecord.policy_satisfied
  (record self) && obligations_enforced self.

Definition permits (self : t) : bool := DecisionRecord.capability_satisfied (record self) && policy_satisfied self.
End Gate.

(** ** A hop's actions *)

Definition method (m : HttpMethod.t) : Method.t :=
  match m with
  | HttpMethod.Get => Method.Get | HttpMethod.Head => Method.Head | HttpMethod.Post => Method.Post
  | HttpMethod.Put => Method.Put | HttpMethod.Patch => Method.Patch | HttpMethod.Delete => Method.Delete
  | HttpMethod.Options => Method.Options
  end.

(** [AuthorityError::Invariant], with what does not hold. *)
Definition invariant (A : Type) : Type := result A string.

Definition required (host : string) (port : N) (hop_method : HttpMethod.t) (max_requests : N) : invariant Capability.t :=
  let? verb := ok_or (Verb.new Namespace.Network Action.Https) "network.https is not a verb"%string in
  let? endpoint :=
    map_err (fun _ => "a canonical origin is not an endpoint"%string) (Endpoint.parse (host +:+ ":" +:+ show_N port)) in
  let? methods := ok_or (MethodSet.new [method hop_method]) "one method is a method set"%string in
  let constraints := ConstraintSet.Make None None (Some methods) (Some max_requests) None None None None in
  map_err (fun _ => "a network capability does not assemble"%string)
    (Capability.new verb (Scope.Syntactic (SyntacticScope.Endpoint endpoint)) constraints).

(** Whether every obligation is one a hop keeps, and the bound narrowed. *)
Definition obligations (record : DecisionRecord.t) (limit : N) : bool * N :=
  fold_left (fun '(enforced, limit) obligation =>
    match obligation with
    | Obligation.MaxOutputBytes bound =>
        if (1 <=? bound)%N then (enforced, N.min limit (if (bound <=? U32_MAX)%N then bound else U32_MAX))
        else (false, limit)
    | Obligation.AuditLevel _ => (enforced, limit)
    | _ => (false, limit)
    end) (Obligations.as_slice (Decision.obligations (DecisionRecord.policy record))) (true, limit).

Module Facts.
Record t := Make {
  host : string;
  port : N;
  method : HttpMethod.t;
  body_bytes : N;
  next_request : N;
  novelty : Novelty.t;
  addresses : option (list Address.t);
  response_limit : N
}.
End Facts.

Module NetAction.
Record t := Make {
  host : string;
  port : N;
  method : HttpMethod.t;
  body_bytes : N;
  gates : list Gate.t;
  resolved : bool;
  response_limit : N
}.

Definition permits (self : t) : bool := negb (length (gates self) =? 0)%nat && forallb Gate.permits (gates self).
End NetAction.

Definition ip_address (address : Address.t) : IpAddress.t :=
  match address with Address.V4 octets => IpAddress.V4 octets | Address.V6 octets => IpAddress.V6 octets end.

(** One evaluation of both gates, and the bound after its obligations. *)
Definition gate (action : CanonicalAction.t) (granted : list Grant.t) (context : PolicyContext.t)
    (compiled : CompiledPolicy.t) (limit : N) : Gate.t * N :=
  let record := decide action granted context compiled in
  let '(obligations_enforced, limit) := obligations record limit in
  (Gate.Make record obligations_enforced, limit).

(** The loop over the pinned addresses. *)
Fixpoint address_gates (base : CanonicalAction.t) (addresses : list Address.t) (granted : list Grant.t)
    (context : PolicyContext.t) (compiled : CompiledPolicy.t) (limit : N) : list Gate.t * N :=
  match addresses with
  | [] => ([], limit)
  | address :: rest =>
      let action := CanonicalAction.with_destination_ip base (ip_address address) in
      let '(g, limit) := gate action granted context compiled limit in
      let '(gates, limit) := address_gates base rest granted context compiled limit in
      (g :: gates, limit)
  end.

Definition base_action (facts : Facts.t) (capability : Capability.t) : CanonicalAction.t :=
  CanonicalAction.with_destination_novelty
    (CanonicalAction.with_byte_count (CanonicalAction.new capability Environment.Host) (Facts.body_bytes facts))
    (Facts.novelty facts).

Definition decide_net (facts : Facts.t) (granted : list Grant.t) (context : PolicyContext.t)
    (compiled : CompiledPolicy.t) : invariant NetAction.t :=
  let? capability := required (Facts.host facts) (Facts.port facts) (Facts.method facts) (Facts.next_request facts) in
  let base := base_action facts capability in
  let '(gates, limit) :=
    match Facts.addresses facts with
    | None => let '(g, limit) := gate base granted context compiled (Facts.response_limit facts) in ([g], limit)
    | Some addresses => address_gates base addresses granted context compiled (Facts.response_limit facts)
    end in
  Ok (NetAction.Make (Facts.host facts) (Facts.port facts) (Facts.method facts) (Facts.body_bytes facts) gates
        (is_some (Facts.addresses facts)) limit).

(** [secret_use::required] and [secret_use::obligations_enforced]. *)
Definition secret_required (handle : SecretHandle.t) : invariant Capability.t :=
  let? verb := ok_or (Verb.new Namespace.Secret Action.Use) "secret.use is not a verb"%string in
  let? label := ok_or (Label.new (SecretHandle.as_str handle)) "a handle is not a label"%string in
  map_err (fun _ => "a secret capability does not assemble"%string)
    (Capability.new verb (Scope.Syntactic (SyntacticScope.CredentialHandle label)) ConstraintSet.unconstrained).

Definition secret_obligations_enforced (record : DecisionRecord.t) : bool :=
  forallb (fun o => match o with Obligation.AuditLevel _ => true | _ => false end)
    (Obligations.as_slice (Decision.obligations (DecisionRecord.policy record))).

Module InjectionAction.
Record t := Make { handle : string; host : string; port : N; gate : Gate.t }.
End InjectionAction.

Definition decide_injection (handle : SecretHandle.t) (host : string) (port : N) (granted : list Grant.t)
    (context : PolicyContext.t) (compiled : CompiledPolicy.t) : invariant InjectionAction.t :=
  let? capability := secret_required handle in
  let record := decide (CanonicalAction.new capability Environment.Host) granted context compiled in
  Ok (InjectionAction.Make (SecretHandle.as_str handle) host port
        (Gate.Make record (secret_obligations_enforced record))).

Module NetPlan.
Record t := Make { net : NetAction.t; injection : option InjectionAction.t }.

Definition permits (self : t) : bool :=
  NetAction.permits (net self) && is_none_or (injection self) (fun i => Gate.permits (InjectionAction.gate i)).

Definition covered (self : t) : bool :=
  forallb (fun g => DecisionRecord.capability_satisfied (Gate.record g)) (NetAction.gates (net self))
  && is_none_or (injection self) (fun i => DecisionRecord.capability_satisfied (Gate.record (InjectionAction.gate i))).
End NetPlan.

Definition resolvable (plan : NetPlan.t) : bool :=
  NetPlan.covered plan
  && is_none_or (NetPlan.injection plan) (fun i => Gate.permits (InjectionAction.gate i))
  && forallb (fun g => Gate.permits g || is_some (Decision.unevaluable (DecisionRecord.policy (Gate.record g))))
       (NetAction.gates (NetPlan.net plan)).
