(* ===== verification/NetHttp.v ===== *)
(** What a [net.http] request is, apart from what is recorded of it: the header
    rules both daemons judge by ([dwk-proto/src/wire/http.rs]), the call made
    canonical ([state/net_http/canon.rs]), a hop's request and what may follow
    it ([net_http/mod.rs], [hop.rs]), the authorisation the broker is sent and
    its own check ([dwk-proto/src/brokerp/http.rs]), and how a resolution and an
    exchange are judged ([mod.rs], [broker/link.rs]). *)

From stdpp Require Import gmap.
From S2P Require Export Digest Egress NetPlan ProtoError.

(** * The header rules *)

Definition MAX_HEADER_NAME_BYTES : nat := 64.
Definition MAX_HEADER_VALUE_BYTES : nat := 4096.
Definition MAX_REQUEST_HEADERS : nat := 32.
Definition MAX_REQUEST_HEADER_BYTES : nat := 8 * 1024.
Definition MAX_KEPT_RESPONSE_HEADERS : nat := 16.
Definition MAX_KEPT_HEADER_VALUE_BYTES : nat := 2048.
Definition MAX_REDIRECTS : N := 5.
Definition MAX_HOPS : N := MAX_REDIRECTS + 1.

Definition REQUEST_HEADERS : list string :=
  ["accept"; "accept-language"; "cache-control"; "content-type"; "if-match"; "if-modified-since"; "if-none-match";
   "if-unmodified-since"; "pragma"; "range"].

Definition OVERRIDE_PREFIXES : list string := ["x-forwarded-"; "x-original-"; "x-http-method"; "x-proxy-"].

Definition OVERRIDE_HEADERS : list string :=
  ["x-real-ip"; "x-client-ip"; "x-host"; "x-method-override"; "x-rewrite-url"; "x-cluster-client-ip";
   "x-envoy-original-path"].

Definition RESPONSE_HEADERS : list string :=
  ["cache-control"; "content-length"; "content-type"; "etag"; "last-modified"; "link"; "location"; "retry-after"].

(** [[..].contains(&name)]. *)
Definition names (l : list string) (name : string) : bool := existsb (String.eqb name) l.

Definition token_mark : ascii -> bool :=
  one_of ["!"; "#"; "$"; "%"; "&"; "'"; "*"; "+"; "-"; "."; "^"; "_"; "`"; "|"; "~"]%char.

Definition lower_tchar (byte : ascii) : bool := is_lower byte || is_digit byte || token_mark byte.

Definition is_header_name (name : string) : bool :=
  (1 <=? String.length name)%nat && (String.length name <=? MAX_HEADER_NAME_BYTES)%nat && str_all lower_tchar name.

(** A space, or a visible byte. *)
Definition header_byte (b : ascii) : bool := Ascii.eqb b " " || in_range 33 126 b.

Definition is_header_value_within (value : string) (max : nat) : bool :=
  (String.length value <=? max)%nat && str_all header_byte value && negb (starts_with_char " " value)
  && negb (str_ends_with " " value).

Definition is_header_value (value : string) : bool := is_header_value_within value MAX_HEADER_VALUE_BYTES.

Definition request_header_allowed (name : string) : bool :=
  if names REQUEST_HEADERS name then true
  else
    match str_strip_prefix "x-" name with
    | None => false
    | Some rest =>
        negb (is_empty rest) && negb (names OVERRIDE_HEADERS name)
        && negb (existsb (fun prefix => str_starts_with prefix name) OVERRIDE_PREFIXES)
    end.

Definition response_header_kept (name : string) : bool := names RESPONSE_HEADERS name.

Module HeaderRefusal.
Inductive t := Invalid | Forbidden.
End HeaderRefusal.

(** The loop of [judge_request_headers]: the names [seen], and their bytes. *)
Fixpoint judge_headers (reserved : list string) (seen : list string) (total : nat) (headers : list (string * string)) :
    result () HeaderRefusal.t :=
  match headers with
  | [] => Ok ()
  | (name, value) :: headers =>
      if negb (is_header_name name) || negb (is_header_value value) || names seen name then Err HeaderRefusal.Invalid
      else
        let seen := seen ++ [name] in
        if (MAX_REQUEST_HEADERS <? length seen)%nat then Err HeaderRefusal.Invalid
        else
          let total := total + String.length name + String.length value in
          if (MAX_REQUEST_HEADER_BYTES <? total)%nat then Err HeaderRefusal.Invalid
          else if negb (request_header_allowed name) || names reserved name then Err HeaderRefusal.Forbidden
          else judge_headers reserved seen total headers
  end.

Definition judge_request_headers (headers : list (string * string)) (reserved : list string) :
    result () HeaderRefusal.t :=
  judge_headers reserved [] 0 headers.

(** * The vocabulary *)

Module ToolRefusalReasonV4.
Inductive t :=
| StaleEpoch | UnknownRun | IdempotencyKeyReused | WorkspaceUnbound | RootReplaced | RootUnavailable
  | UnsupportedPlatform | PathOutsideWorkspace | PathTraversal | PathNotCanonical | NotFound | NotADirectory
  | Symlink | MagicLink | MountCrossing | NameMismatch | NormalizationAmbiguity | SpecialFile | WrongKind
  | MultiplyLinked | WorkspaceRoot | DestinationExists | PatchInconsistent | PatchTooLarge | Race
  | PermissionDenied | DirectoryTooLarge | IoError | ExecutablePathInvalid | ExecutableNotFound
  | ExecutableNotRegular | ExecutableNotExecutable | ExecutableSymlinkLimit | ExecutableUntrusted
  | ExecutableTooLarge | ScriptUnsupported | NotNativeExecutable | ExecutableRace | ArgvTooLarge
  | UnknownProcess | UrlInvalid | PlaintextUnsupported | HeaderInvalid | HeaderForbidden | BodyNotPermitted
  | AddressBlocked | AddressMixed | ResolutionFailed | ResolutionTimeout | SecretInRequest | BudgetExhausted
  | CredentialUnavailable | NetworkUnavailable.

#[global] Instance eq_dec : EqDecision t.
Proof. solve_decision. Defined.

Definition ALL : list t := [StaleEpoch; UnknownRun; IdempotencyKeyReused; WorkspaceUnbound; RootReplaced;
   RootUnavailable; UnsupportedPlatform; PathOutsideWorkspace; PathTraversal; PathNotCanonical; NotFound;
   NotADirectory; Symlink; MagicLink; MountCrossing; NameMismatch; NormalizationAmbiguity; SpecialFile;
   WrongKind; MultiplyLinked; WorkspaceRoot; DestinationExists; PatchInconsistent; PatchTooLarge; Race;
   PermissionDenied; DirectoryTooLarge; IoError; ExecutablePathInvalid; ExecutableNotFound;
   ExecutableNotRegular; ExecutableNotExecutable; ExecutableSymlinkLimit; ExecutableUntrusted;
   ExecutableTooLarge; ScriptUnsupported; NotNativeExecutable; ExecutableRace; ArgvTooLarge; UnknownProcess;
   UrlInvalid; PlaintextUnsupported; HeaderInvalid; HeaderForbidden; BodyNotPermitted; AddressBlocked;
   AddressMixed; ResolutionFailed; ResolutionTimeout; SecretInRequest; BudgetExhausted; CredentialUnavailable;
   NetworkUnavailable].

Definition as_str (x : t) : string :=
  match x with
  | StaleEpoch => "STALE_EPOCH" | UnknownRun => "UNKNOWN_RUN"
  | IdempotencyKeyReused => "IDEMPOTENCY_KEY_REUSED" | WorkspaceUnbound => "WORKSPACE_UNBOUND"
  | RootReplaced => "ROOT_REPLACED" | RootUnavailable => "ROOT_UNAVAILABLE"
  | UnsupportedPlatform => "UNSUPPORTED_PLATFORM" | PathOutsideWorkspace => "PATH_OUTSIDE_WORKSPACE"
  | PathTraversal => "PATH_TRAVERSAL" | PathNotCanonical => "PATH_NOT_CANONICAL" | NotFound => "NOT_FOUND"
  | NotADirectory => "NOT_A_DIRECTORY" | Symlink => "SYMLINK" | MagicLink => "MAGIC_LINK"
  | MountCrossing => "MOUNT_CROSSING" | NameMismatch => "NAME_MISMATCH"
  | NormalizationAmbiguity => "NORMALIZATION_AMBIGUITY" | SpecialFile => "SPECIAL_FILE"
  | WrongKind => "WRONG_KIND" | MultiplyLinked => "MULTIPLY_LINKED" | WorkspaceRoot => "WORKSPACE_ROOT"
  | DestinationExists => "DESTINATION_EXISTS" | PatchInconsistent => "PATCH_INCONSISTENT"
  | PatchTooLarge => "PATCH_TOO_LARGE" | Race => "RACE" | PermissionDenied => "PERMISSION_DENIED"
  | DirectoryTooLarge => "DIRECTORY_TOO_LARGE" | IoError => "IO_ERROR"
  | ExecutablePathInvalid => "EXECUTABLE_PATH_INVALID" | ExecutableNotFound => "EXECUTABLE_NOT_FOUND"
  | ExecutableNotRegular => "EXECUTABLE_NOT_REGULAR" | ExecutableNotExecutable => "EXECUTABLE_NOT_EXECUTABLE"
  | ExecutableSymlinkLimit => "EXECUTABLE_SYMLINK_LIMIT" | ExecutableUntrusted => "EXECUTABLE_UNTRUSTED"
  | ExecutableTooLarge => "EXECUTABLE_TOO_LARGE" | ScriptUnsupported => "SCRIPT_UNSUPPORTED"
  | NotNativeExecutable => "NOT_NATIVE_EXECUTABLE" | ExecutableRace => "EXECUTABLE_RACE"
  | ArgvTooLarge => "ARGV_TOO_LARGE" | UnknownProcess => "UNKNOWN_PROCESS" | UrlInvalid => "URL_INVALID"
  | PlaintextUnsupported => "PLAINTEXT_UNSUPPORTED" | HeaderInvalid => "HEADER_INVALID"
  | HeaderForbidden => "HEADER_FORBIDDEN" | BodyNotPermitted => "BODY_NOT_PERMITTED"
  | AddressBlocked => "ADDRESS_BLOCKED" | AddressMixed => "ADDRESS_MIXED"
  | ResolutionFailed => "RESOLUTION_FAILED" | ResolutionTimeout => "RESOLUTION_TIMEOUT"
  | SecretInRequest => "SECRET_IN_REQUEST" | BudgetExhausted => "BUDGET_EXHAUSTED"
  | CredentialUnavailable => "CREDENTIAL_UNAVAILABLE" | NetworkUnavailable => "NETWORK_UNAVAILABLE"
  end.

#[global] Instance vocabulary : Vocabulary ALL as_str.
Proof. solve_vocabulary. Qed.
End ToolRefusalReasonV4.

Module ToolFailureReasonV4.
Inductive t :=
| ObjectChanged | ObjectUnreadable | TargetOccupied | Conflict | DirectoryNotEmpty | WriteDenied
  | AttributesNotPreserved | SharedDirectory | BrokerUnavailable | BrokerProtocolError | BrokerExecutionError
  | OutcomeUnknown | ExecutableChanged | ExecFailed | ProcessTableFull | BrokerEnvironmentUnsafe
  | ProcessUnobservable | ConnectFailed | TlsFailed | ResponseMalformed | EncodingUnsupported | Timeout
  | AddressBlocked | CredentialFailed.

#[global] Instance eq_dec : EqDecision t.
Proof. solve_decision. Defined.

Definition ALL : list t := [ObjectChanged; ObjectUnreadable; TargetOccupied; Conflict; DirectoryNotEmpty;
   WriteDenied; AttributesNotPreserved; SharedDirectory; BrokerUnavailable; BrokerProtocolError;
   BrokerExecutionError; OutcomeUnknown; ExecutableChanged; ExecFailed; ProcessTableFull;
   BrokerEnvironmentUnsafe; ProcessUnobservable; ConnectFailed; TlsFailed; ResponseMalformed;
   EncodingUnsupported; Timeout; AddressBlocked; CredentialFailed].

Definition as_str (x : t) : string :=
  match x with
  | ObjectChanged => "OBJECT_CHANGED" | ObjectUnreadable => "OBJECT_UNREADABLE"
  | TargetOccupied => "TARGET_OCCUPIED" | Conflict => "CONFLICT" | DirectoryNotEmpty => "DIRECTORY_NOT_EMPTY"
  | WriteDenied => "WRITE_DENIED" | AttributesNotPreserved => "ATTRIBUTES_NOT_PRESERVED"
  | SharedDirectory => "SHARED_DIRECTORY" | BrokerUnavailable => "BROKER_UNAVAILABLE"
  | BrokerProtocolError => "BROKER_PROTOCOL_ERROR" | BrokerExecutionError => "BROKER_EXECUTION_ERROR"
  | OutcomeUnknown => "OUTCOME_UNKNOWN" | ExecutableChanged => "EXECUTABLE_CHANGED"
  | ExecFailed => "EXEC_FAILED" | ProcessTableFull => "PROCESS_TABLE_FULL"
  | BrokerEnvironmentUnsafe => "BROKER_ENVIRONMENT_UNSAFE" | ProcessUnobservable => "PROCESS_UNOBSERVABLE"
  | ConnectFailed => "CONNECT_FAILED" | TlsFailed => "TLS_FAILED" | ResponseMalformed => "RESPONSE_MALFORMED"
  | EncodingUnsupported => "ENCODING_UNSUPPORTED" | Timeout => "TIMEOUT" | AddressBlocked => "ADDRESS_BLOCKED"
  | CredentialFailed => "CREDENTIAL_FAILED"
  end.

#[global] Instance vocabulary : Vocabulary ALL as_str.
Proof. solve_vocabulary. Qed.
End ToolFailureReasonV4.

Module RedirectEnd.
Inductive t :=
| NotFollowed | RedirectLimit | RedirectLoop | RedirectTargetInvalid | RedirectWouldResendBody | HopDenied
  | AddressBlocked | AddressMixed | ResolutionFailed | ResolutionTimeout | BudgetExhausted | RequestTimeout
  | HopFailed.

#[global] Instance eq_dec : EqDecision t.
Proof. solve_decision. Defined.

Definition ALL : list t := [NotFollowed; RedirectLimit; RedirectLoop; RedirectTargetInvalid;
   RedirectWouldResendBody; HopDenied; AddressBlocked; AddressMixed; ResolutionFailed; ResolutionTimeout;
   BudgetExhausted; RequestTimeout; HopFailed].

Definition as_str (x : t) : string :=
  match x with
  | NotFollowed => "NOT_FOLLOWED" | RedirectLimit => "REDIRECT_LIMIT" | RedirectLoop => "REDIRECT_LOOP"
  | RedirectTargetInvalid => "REDIRECT_TARGET_INVALID"
  | RedirectWouldResendBody => "REDIRECT_WOULD_RESEND_BODY" | HopDenied => "HOP_DENIED"
  | AddressBlocked => "ADDRESS_BLOCKED" | AddressMixed => "ADDRESS_MIXED"
  | ResolutionFailed => "RESOLUTION_FAILED" | ResolutionTimeout => "RESOLUTION_TIMEOUT"
  | BudgetExhausted => "BUDGET_EXHAUSTED" | RequestTimeout => "REQUEST_TIMEOUT" | HopFailed => "HOP_FAILED"
  end.

#[global] Instance vocabulary : Vocabulary ALL as_str.
Proof. solve_vocabulary. Qed.
End RedirectEnd.

Module ResolveDisposition.
Inductive t :=
| Resolved | NameBlocked | AddressBlocked | AddressMixed | ResolutionFailed | ResolutionTimeout.

#[global] Instance eq_dec : EqDecision t.
Proof. solve_decision. Defined.

Definition ALL : list t := [Resolved; NameBlocked; AddressBlocked; AddressMixed; ResolutionFailed;
   ResolutionTimeout].

Definition as_str (x : t) : string :=
  match x with
  | Resolved => "RESOLVED" | NameBlocked => "NAME_BLOCKED" | AddressBlocked => "ADDRESS_BLOCKED"
  | AddressMixed => "ADDRESS_MIXED" | ResolutionFailed => "RESOLUTION_FAILED"
  | ResolutionTimeout => "RESOLUTION_TIMEOUT"
  end.

#[global] Instance vocabulary : Vocabulary ALL as_str.
Proof. solve_vocabulary. Qed.
End ResolveDisposition.

Module ExchangeDisposition.
Inductive t :=
| Completed | ResponseMalformed | EncodingUnsupported | Timeout.

#[global] Instance eq_dec : EqDecision t.
Proof. solve_decision. Defined.

Definition ALL : list t := [Completed; ResponseMalformed; EncodingUnsupported; Timeout].

Definition as_str (x : t) : string :=
  match x with
  | Completed => "COMPLETED" | ResponseMalformed => "RESPONSE_MALFORMED"
  | EncodingUnsupported => "ENCODING_UNSUPPORTED" | Timeout => "TIMEOUT"
  end.

#[global] Instance vocabulary : Vocabulary ALL as_str.
Proof. solve_vocabulary. Qed.
End ExchangeDisposition.

Module BrokerRefusal.
Inductive t :=
| ChannelMismatch | DescriptorCount | DescriptorNotRegular | DescriptorNotDirectory | DescriptorNotReadable
  | DescriptorNotPath | IdentityMismatch | ReadFailed | ObjectChanged | TargetOccupied | Conflict
  | DirectoryNotEmpty | WriteDenied | AttributesNotPreserved | SharedDirectory | WorkspaceGroupContract
  | NoSpace | WorkspaceUnverified | Unsupported | DirectoryTooLarge | IoError | DigestMismatch
  | ExecutableUntrusted | ExecSetupFailed | ExecFailed | InheritedDescriptor | ProcessTableFull
  | ProcessIdInUse | UnknownProcess | StaleGeneration | SecretDescriptor | SecretEmpty | SecretTooLarge
  | SecretUnsafeBytes | RuntimeUnavailable | RuntimeFailed | RuntimeOutputMalformed | ImageMissing
  | TopologyUnavailable | EnvironmentNotFound | EnvironmentAmbiguous | ForeignEnvironment | ProxyUnavailable
  | HttpAddressBlocked | HttpConnectFailed | HttpTlsFailed | HttpTimeout | HttpRequestInvalid
  | HttpWorkerFailed | EnvironmentNotClean | WorkloadTableFull | WorkloadInUse.

#[global] Instance eq_dec : EqDecision t.
Proof. solve_decision. Defined.

Definition ALL : list t := [ChannelMismatch; DescriptorCount; DescriptorNotRegular; DescriptorNotDirectory;
   DescriptorNotReadable; DescriptorNotPath; IdentityMismatch; ReadFailed; ObjectChanged; TargetOccupied;
   Conflict; DirectoryNotEmpty; WriteDenied; AttributesNotPreserved; SharedDirectory; WorkspaceGroupContract;
   NoSpace; WorkspaceUnverified; Unsupported; DirectoryTooLarge; IoError; DigestMismatch; ExecutableUntrusted;
   ExecSetupFailed; ExecFailed; InheritedDescriptor; ProcessTableFull; ProcessIdInUse; UnknownProcess;
   StaleGeneration; SecretDescriptor; SecretEmpty; SecretTooLarge; SecretUnsafeBytes; RuntimeUnavailable;
   RuntimeFailed; RuntimeOutputMalformed; ImageMissing; TopologyUnavailable; EnvironmentNotFound;
   EnvironmentAmbiguous; ForeignEnvironment; ProxyUnavailable; HttpAddressBlocked; HttpConnectFailed;
   HttpTlsFailed; HttpTimeout; HttpRequestInvalid; HttpWorkerFailed; EnvironmentNotClean; WorkloadTableFull;
   WorkloadInUse].

Definition as_str (x : t) : string :=
  match x with
  | ChannelMismatch => "CHANNEL_MISMATCH" | DescriptorCount => "DESCRIPTOR_COUNT"
  | DescriptorNotRegular => "DESCRIPTOR_NOT_REGULAR" | DescriptorNotDirectory => "DESCRIPTOR_NOT_DIRECTORY"
  | DescriptorNotReadable => "DESCRIPTOR_NOT_READABLE" | DescriptorNotPath => "DESCRIPTOR_NOT_PATH"
  | IdentityMismatch => "IDENTITY_MISMATCH" | ReadFailed => "READ_FAILED" | ObjectChanged => "OBJECT_CHANGED"
  | TargetOccupied => "TARGET_OCCUPIED" | Conflict => "CONFLICT" | DirectoryNotEmpty => "DIRECTORY_NOT_EMPTY"
  | WriteDenied => "WRITE_DENIED" | AttributesNotPreserved => "ATTRIBUTES_NOT_PRESERVED"
  | SharedDirectory => "SHARED_DIRECTORY" | WorkspaceGroupContract => "WORKSPACE_GROUP_CONTRACT"
  | NoSpace => "NO_SPACE" | WorkspaceUnverified => "WORKSPACE_UNVERIFIED" | Unsupported => "UNSUPPORTED"
  | DirectoryTooLarge => "DIRECTORY_TOO_LARGE" | IoError => "IO_ERROR" | DigestMismatch => "DIGEST_MISMATCH"
  | ExecutableUntrusted => "EXECUTABLE_UNTRUSTED" | ExecSetupFailed => "EXEC_SETUP_FAILED"
  | ExecFailed => "EXEC_FAILED" | InheritedDescriptor => "INHERITED_DESCRIPTOR"
  | ProcessTableFull => "PROCESS_TABLE_FULL" | ProcessIdInUse => "PROCESS_ID_IN_USE"
  | UnknownProcess => "UNKNOWN_PROCESS" | StaleGeneration => "STALE_GENERATION"
  | SecretDescriptor => "SECRET_DESCRIPTOR" | SecretEmpty => "SECRET_EMPTY"
  | SecretTooLarge => "SECRET_TOO_LARGE" | SecretUnsafeBytes => "SECRET_UNSAFE_BYTES"
  | RuntimeUnavailable => "RUNTIME_UNAVAILABLE" | RuntimeFailed => "RUNTIME_FAILED"
  | RuntimeOutputMalformed => "RUNTIME_OUTPUT_MALFORMED" | ImageMissing => "IMAGE_MISSING"
  | TopologyUnavailable => "TOPOLOGY_UNAVAILABLE" | EnvironmentNotFound => "ENVIRONMENT_NOT_FOUND"
  | EnvironmentAmbiguous => "ENVIRONMENT_AMBIGUOUS" | ForeignEnvironment => "FOREIGN_ENVIRONMENT"
  | ProxyUnavailable => "PROXY_UNAVAILABLE" | HttpAddressBlocked => "HTTP_ADDRESS_BLOCKED"
  | HttpConnectFailed => "HTTP_CONNECT_FAILED" | HttpTlsFailed => "HTTP_TLS_FAILED"
  | HttpTimeout => "HTTP_TIMEOUT" | HttpRequestInvalid => "HTTP_REQUEST_INVALID"
  | HttpWorkerFailed => "HTTP_WORKER_FAILED" | EnvironmentNotClean => "ENVIRONMENT_NOT_CLEAN"
  | WorkloadTableFull => "WORKLOAD_TABLE_FULL" | WorkloadInUse => "WORKLOAD_IN_USE"
  end.

#[global] Instance vocabulary : Vocabulary ALL as_str.
Proof. solve_vocabulary. Qed.
End BrokerRefusal.

Module PrivateKind.
Inductive t :=
| Hello | FsRead | FsStat | FsList | FsSearch | FsWrite | FsPatch | FsMove | FsDelete | FsReclaim
  | ProcessStart | ProcessStatus | ProcessKill | SecretProcessStart | EnvironmentPrepare | EnvironmentMeasure
  | EnvironmentDestroy | EnvironmentList | HttpResolve | HttpExchange | HttpCredentialExchange | WorkloadStart
  | WorkloadSecretStart | WorkloadCollect | Outcome.

#[global] Instance eq_dec : EqDecision t.
Proof. solve_decision. Defined.

Definition ALL : list t := [Hello; FsRead; FsStat; FsList; FsSearch; FsWrite; FsPatch; FsMove; FsDelete;
   FsReclaim; ProcessStart; ProcessStatus; ProcessKill; SecretProcessStart; EnvironmentPrepare;
   EnvironmentMeasure; EnvironmentDestroy; EnvironmentList; HttpResolve; HttpExchange; HttpCredentialExchange;
   WorkloadStart; WorkloadSecretStart; WorkloadCollect; Outcome].

Definition as_str (x : t) : string :=
  match x with
  | Hello => "broker.hello" | FsRead => "broker.fs_read" | FsStat => "broker.fs_stat"
  | FsList => "broker.fs_list" | FsSearch => "broker.fs_search" | FsWrite => "broker.fs_write"
  | FsPatch => "broker.fs_patch" | FsMove => "broker.fs_move" | FsDelete => "broker.fs_delete"
  | FsReclaim => "broker.fs_reclaim" | ProcessStart => "broker.process_start"
  | ProcessStatus => "broker.process_status" | ProcessKill => "broker.process_kill"
  | SecretProcessStart => "broker.secret_process_start" | EnvironmentPrepare => "broker.environment_prepare"
  | EnvironmentMeasure => "broker.environment_measure" | EnvironmentDestroy => "broker.environment_destroy"
  | EnvironmentList => "broker.environment_list" | HttpResolve => "broker.http_resolve"
  | HttpExchange => "broker.http_exchange" | HttpCredentialExchange => "broker.http_credential_exchange"
  | WorkloadStart => "broker.workload_start" | WorkloadSecretStart => "broker.workload_secret_start"
  | WorkloadCollect => "broker.workload_collect" | Outcome => "broker.outcome"
  end.

#[global] Instance vocabulary : Vocabulary ALL as_str.
Proof. solve_vocabulary. Qed.
End PrivateKind.

Module Indeterminate.
Inductive t :=
| RestoreFailed | DurabilityUnconfirmed | EffectUnconfirmed | LaunchUnconfirmed | SignalUnconfirmed
  | ExchangeUnconfirmed | EnvironmentUnconfirmed | WorkloadUnconfirmed.

#[global] Instance eq_dec : EqDecision t.
Proof. solve_decision. Defined.

Definition ALL : list t := [RestoreFailed; DurabilityUnconfirmed; EffectUnconfirmed; LaunchUnconfirmed;
   SignalUnconfirmed; ExchangeUnconfirmed; EnvironmentUnconfirmed; WorkloadUnconfirmed].

Definition as_str (x : t) : string :=
  match x with
  | RestoreFailed => "RESTORE_FAILED" | DurabilityUnconfirmed => "DURABILITY_UNCONFIRMED"
  | EffectUnconfirmed => "EFFECT_UNCONFIRMED" | LaunchUnconfirmed => "LAUNCH_UNCONFIRMED"
  | SignalUnconfirmed => "SIGNAL_UNCONFIRMED" | ExchangeUnconfirmed => "EXCHANGE_UNCONFIRMED"
  | EnvironmentUnconfirmed => "ENVIRONMENT_UNCONFIRMED" | WorkloadUnconfirmed => "WORKLOAD_UNCONFIRMED"
  end.

#[global] Instance vocabulary : Vocabulary ALL as_str.
Proof. solve_vocabulary. Qed.
End Indeterminate.

(** * The wire's scalars *)

(** [wire_text!]: at most so many characters, and [validate]. *)
Definition wire_text (max_chars : nat) (validate : string -> bool) (value : string) : bool :=
  (chars_count value <=? max_chars)%nat && validate value.

Module HttpHeaderName.
Record t := Make { as_str : string }.

Definition new (value : string) : option t := then_some (wire_text 64 is_header_name value) (Make value).
End HttpHeaderName.

Module HttpHeaderValue.
Record t := Make { as_str : string }.

Definition new (value : string) : option t := then_some (wire_text 4096 is_header_value value) (Make value).
End HttpHeaderValue.

Module HttpHeader.
Record t := Make { name : HttpHeaderName.t; value : HttpHeaderValue.t }.
End HttpHeader.

(** [BoundedList]. *)
Definition bounded {A} (max : nat) (items : list A) : option (list A) := then_some (length items <=? max)%nat items.

Definition RequestHeaders_new (items : list HttpHeader.t) : option
  (list HttpHeader.t) := bounded MAX_REQUEST_HEADERS items.
Definition ResponseHeaders_new (items : list HttpHeader.t) : option (list HttpHeader.t) :=
  bounded MAX_KEPT_RESPONSE_HEADERS items.

(** [wire_int!]. *)
Definition wire_int (min max value : N) : option N := then_some ((min <=? value)%N && (value <=? max)%N) value.

Definition HttpStatus_new : N -> option N := wire_int 100 599.
Definition HopNumber_new : N -> option N := wire_int 1 6.
Definition ResponseLimit_new : N -> option N := wire_int 1 262144.

Module HexContent.
Record t := Make { as_str : string }.

Definition MAX_CHARS : nat := 512 * 1024.

Definition valid_hex_content (s : string) : bool :=
  (String.length s mod 2 =? 0)%nat && str_all (fun b => is_digit b || in_range 97 102 b) s.

Definition new (value : string) : option t := then_some (wire_text MAX_CHARS valid_hex_content value) (Make value).

Definition from_bytes (bytes : buffer) : option t := new (Sha256Hash.hex (string_of_list_ascii bytes)).

(** [to_digit(16)]. *)
Definition digit (c : ascii) : N :=
  if is_digit c then byte_of c - 48
  else if in_range 97 102 c then byte_of c - 97 + 10
  else if in_range 65 70 c then byte_of c - 65 + 10
  else 0.

Fixpoint pairs (s : string) : buffer :=
  match s with
  | String high (String low r) => ascii_of_N (N.lor (N.shiftl (digit high) 4 mod 256) (digit low)) :: pairs r
  | _ => []
  end.

Definition to_bytes (self : t) : buffer := pairs (as_str self).

Definition byte_len (self : t) : nat := String.length (as_str self) / 2.
End HexContent.

(** An address on the private wire. *)
Module NetAddress.
Record t := Make { as_str : string }.

Definition MAX_PINNED_ADDRESSES : nat := 16.

Definition from_address (address : Address.t) : t :=
  Make (Sha256Hash.hex (string_of_list_ascii (ascii_of_N <$> Address.octets address))).

Definition to_address (self : t) : Address.t :=
  let octets := match HexContent.new (as_str self) with Some h => byte_of <$> HexContent.to_bytes h | None => [] end in
  if (length octets =? 4)%nat then Address.V4 octets
  else if (length octets =? 16)%nat then Address.V6 octets
  else Address.V4 [0; 0; 0; 0]%N.
End NetAddress.

Definition NetAddresses_new (items : list NetAddress.t) : option (list NetAddress.t) :=
  bounded NetAddress.MAX_PINNED_ADDRESSES items.

Module HttpTarget.
Record t := Make { as_str : string }.

Definition valid_target (s : string) : bool :=
  starts_with_char "/" s && (String.length s <=? MAX_URL_BYTES)%nat && str_all (in_range 33 126) s.

Definition new (value : string) : option t := then_some (wire_text (8 * 1024) valid_target value) (Make value).
End HttpTarget.

(** The name and the prefix of the header a credential is put in. *)
Module SecretHeaderName.
Record t := Make { as_str : string }.

Definition valid_header_name (text : string) : bool :=
  negb (is_empty text) && (String.length text <=? 64)%nat && str_all (fun b => is_alphanumeric b || token_mark b) text.

Definition new (value : string) : option t := then_some (wire_text 64 valid_header_name value) (Make value).
End SecretHeaderName.

Module SecretHeaderPrefix.
Record t := Make { as_str : string }.

Definition valid_header_prefix (text : string) : bool :=
  negb (is_empty text) && (String.length text <=? 64)%nat && str_all header_byte text.

Definition new (value : string) : option t := then_some (wire_text 64 valid_header_prefix value) (Make value).
End SecretHeaderPrefix.

Module HttpCredential.
Record t := Make { handle : string; header_name : SecretHeaderName.t; header_prefix : option SecretHeaderPrefix.t }.
End HttpCredential.

(** * The call, canonical *)

Module NetHttpCall.
Record t := Make {
  method : HttpMethod.t;
  url : string;
  headers : option (list HttpHeader.t);
  body : option HexContent.t;
  credential_handle : option string;
  follow_redirects : bool;
  max_response_bytes : option N
}.
End NetHttpCall.

Module Canonical.
Record t := Make {
  method : HttpMethod.t;
  url : HttpsUrl.t;
  headers : list (string * string);
  body : buffer;
  credential : option string;
  follow_redirects : bool;
  max_response_bytes : option N
}.
End Canonical.

Definition other_scheme (text : string) : bool :=
  match str_split_once ":" text with
  | None => false
  | Some (scheme, _) => scheme_shaped scheme && negb (String.eqb (to_ascii_lowercase scheme) "https")
  end.

Definition header_pair (h : HttpHeader.t) : string * string :=
  (HttpHeaderName.as_str (HttpHeader.name h), HttpHeaderValue.as_str (HttpHeader.value h)).

(** A text's bytes. *)
Definition as_bytes (text : string) : buffer := list_ascii_of_string text.

Definition header_refusal (refusal : HeaderRefusal.t) : ToolRefusalReasonV4.t :=
  match refusal with
  | HeaderRefusal.Invalid => ToolRefusalReasonV4.HeaderInvalid
  | HeaderRefusal.Forbidden => ToolRefusalReasonV4.HeaderForbidden
  end.

Definition canonicalize (call : NetHttpCall.t) (reserved : list string) (holds_secret : buffer -> bool) :
    result Canonical.t ToolRefusalReasonV4.t :=
  let text := NetHttpCall.url call in
  if other_scheme text then Err ToolRefusalReasonV4.PlaintextUnsupported
  else
    let? url := map_err (fun _ => ToolRefusalReasonV4.UrlInvalid) (HttpsUrl.parse text) in
    if name_blocked (Origin.host (HttpsUrl.origin url)) then Err ToolRefusalReasonV4.AddressBlocked
    else
      let headers := match NetHttpCall.headers call with Some list => header_pair <$> list | None => [] end in
      let? _ := map_err header_refusal (judge_request_headers headers reserved) in
      let body := match NetHttpCall.body call with Some h => HexContent.to_bytes h | None => [] end in
      if is_some (NetHttpCall.body call) && negb (HttpMethod.permits_body (NetHttpCall.method call))
      then Err ToolRefusalReasonV4.BodyNotPermitted
      else if holds_secret (as_bytes (HttpsUrl.canonical url))
              || existsb (fun '(_, v) => holds_secret (as_bytes v)) headers || holds_secret body
      then Err ToolRefusalReasonV4.SecretInRequest
      else
        Ok (Canonical.Make (NetHttpCall.method call) url headers body (NetHttpCall.credential_handle call)
              (NetHttpCall.follow_redirects call) (NetHttpCall.max_response_bytes call)).

(** * A hop *)

Module HopRequest.
Record t := Make {
  number : N;
  method : HttpMethod.t;
  url : HttpsUrl.t;
  headers : list (string * string);
  body : buffer;
  credential : bool
}.

Definition first (canonical : Canonical.t) : t :=
  Make 1 (Canonical.method canonical) (Canonical.url canonical) (Canonical.headers canonical)
    (Canonical.body canonical) (is_some (Canonical.credential canonical)).

Definition next (self : t) (canonical : Canonical.t) (url : HttpsUrl.t) (method : HttpMethod.t) : t :=
  let home := bool_decide (HttpsUrl.origin url = HttpsUrl.origin (Canonical.url canonical)) in
  Make (N.min (number self + 1) U8_MAX) method url
    (if home then Canonical.headers canonical else [])
    [] (home && is_some (Canonical.credential canonical)).

Definition host (self : t) : string := Origin.host (HttpsUrl.origin (url self)).
Definition port (self : t) : N := Origin.port (HttpsUrl.origin (url self)).
End HopRequest.

Module Next.
Inductive t := Hop (url : HttpsUrl.t) (method : HttpMethod.t) | End (why : option RedirectEnd.t).
End Next.

Definition redirects (status : N) : bool := existsb (N.eqb status) [301; 302; 303; 307; 308]%N.

(** The method a followed redirect is asked with. *)
Definition redirect_method (status : N) (method : HttpMethod.t) : option HttpMethod.t :=
  if (status =? 303)%N then
    Some (if bool_decide (method = HttpMethod.Head) then HttpMethod.Head else HttpMethod.Get)
  else if HttpMethod.permits_body method then None
  else Some method.

Definition next (status : N) (location : option string) (base : HttpsUrl.t) (method : HttpMethod.t) (follow : bool)
    (hop : N) (visited : list string) : Next.t :=
  if negb (redirects status) then Next.End None
  else
    match location with
    | None => Next.End None
    | Some location =>
        if negb follow then Next.End (Some RedirectEnd.NotFollowed)
        else
          match HttpsUrl.resolve base location with
          | Err _ => Next.End (Some RedirectEnd.RedirectTargetInvalid)
          | Ok url =>
              match redirect_method status method with
              | None => Next.End (Some RedirectEnd.RedirectWouldResendBody)
              | Some method =>
                  if (MAX_HOPS <=? hop)%N then Next.End (Some RedirectEnd.RedirectLimit)
                  else if names visited (HttpsUrl.canonical url) then Next.End (Some RedirectEnd.RedirectLoop)
                  else Next.Hop url method
              end
          end
    end.

(** * What the broker is sent, and its own check of it *)

Module HopSpec.
Record t := Make {
  hop : N;
  method : HttpMethod.t;
  host : EgressHost.t;
  port : EgressPort.t;
  target : HttpTarget.t;
  headers : list HttpHeader.t;
  body : option HexContent.t;
  addresses : list NetAddress.t;
  response_limit : N;
  credential : option HttpCredential.t
}.
End HopSpec.

Definition wire_header (header : string * string) : option HttpHeader.t :=
  name ← HttpHeaderName.new header.1;
  value ← HttpHeaderValue.new header.2;
  Some (HttpHeader.Make name value).

Definition hop_spec (hop : HopRequest.t) (addresses : list Address.t) (limit : N) (credential : option HttpCredential.t) :
    invariant HopSpec.t :=
  let? headers := ok_or (mapM wire_header (HopRequest.headers hop) ≫= RequestHeaders_new)
    "a judged header does not fit the private wire"%string in
  let? body :=
    match HopRequest.body hop with
    | [] => Ok None
    | bytes => let? body := ok_or (HexContent.from_bytes bytes) "a body does not fit"%string in Ok (Some body)
    end in
  let? number := ok_or (HopNumber_new (HopRequest.number hop)) "a hop number"%string in
  let? host := ok_or (EgressHost.new (HopRequest.host hop)) "a canonical host"%string in
  let? port := ok_or (EgressPort.new (HopRequest.port hop)) "a port"%string in
  let? target := ok_or (HttpTarget.new (HttpsUrl.request_target (HopRequest.url hop))) "a request target"%string in
  let? addresses :=
    ok_or (NetAddresses_new (NetAddress.from_address <$> take NetAddress.MAX_PINNED_ADDRESSES addresses))
      "the pinned addresses"%string in
  let? response_limit := ok_or (ResponseLimit_new limit) "a response bound"%string in
  Ok (HopSpec.Make number (HopRequest.method hop) host port target headers body addresses response_limit credential).

Module Common.
Record t := Make { channel : string; invocation_id : string }.
End Common.

Module HttpExchangeAuthorisation.
Record t := Make {
  kind : PrivateKind.t;
  protocol : N;
  common : Common.t;
  spec : HopSpec.t;
  descriptors : N
}.

Definition PROTOCOL : N := 11.

Definition new (common : Common.t) (spec : HopSpec.t) : t :=
  let '(kind, descriptors) :=
    if is_some (HopSpec.credential spec) then (PrivateKind.HttpCredentialExchange, 1%N)
    else (PrivateKind.HttpExchange, 0%N) in
  Make kind PROTOCOL common spec descriptors.

Definition url (self : t) : result HttpsUrl.t ProtocolError.t :=
  let spec := spec self in
  let text :=
    "https://" +:+ EgressHost.as_str (HopSpec.host spec) +:+ ":" +:+ show_N (EgressPort.get (HopSpec.port spec))
    +:+ HttpTarget.as_str (HopSpec.target spec) in
  let? url := map_err (fun _ => ProtocolError.schema Violation.InvalidFormat "/target") (HttpsUrl.parse text) in
  if negb (String.eqb (HttpsUrl.request_target url) (HttpTarget.as_str (HopSpec.target spec)))
  then Err (ProtocolError.schema Violation.InvalidFormat "/target")
  else Ok url.
End HttpExchangeAuthorisation.

Definition inconsistent (path : string) : ProtocolError.t := ProtocolError.schema Violation.Inconsistent path.

Definition MAX_NET_REQUEST_BODY_BYTES : nat := 256 * 1024.

Definition check_exchange (exchange : HttpExchangeAuthorisation.t) : result () ProtocolError.t :=
  let spec := HttpExchangeAuthorisation.spec exchange in
  let? credential :=
    match HttpExchangeAuthorisation.kind exchange with
    | PrivateKind.HttpExchange => Ok false
    | PrivateKind.HttpCredentialExchange => Ok true
    | _ => Err (inconsistent "/kind")
    end in
  if negb (Bool.eqb credential (is_some (HopSpec.credential spec))) then Err (inconsistent "/credential")
  else
    let? _ := HttpExchangeAuthorisation.url exchange in
    if is_some (HopSpec.body spec) && negb (HttpMethod.permits_body (HopSpec.method spec)) then Err (inconsistent "/body")
    else if negb (is_none_or (HopSpec.body spec)
      (fun body => HexContent.byte_len body <=? MAX_NET_REQUEST_BODY_BYTES)%nat)
    then Err (inconsistent "/body")
    else if (length (HopSpec.addresses spec) =? 0)%nat then Err (inconsistent "/addresses")
    else
      let reserved :=
        match HopSpec.credential spec with
        | Some c => [to_ascii_lowercase (SecretHeaderName.as_str (HttpCredential.header_name c))]
        | None => []
        end in
      let? _ := map_err (fun _ => inconsistent "/headers")
                  (judge_request_headers (header_pair <$> HopSpec.headers spec) reserved) in
      Ok ().

(** * The broker's answers *)

Module BrokerFailure.
Inductive t :=
| NotConfigured
| Unreachable
| PeerRefused
| Protocol
| Refused (refusal : BrokerRefusal.t)
| Indeterminate (why : Indeterminate.t).
End BrokerFailure.

Module BrokerError.
Record t := Make { failure : BrokerFailure.t; sent : bool }.

Definition before_sending (failure : BrokerFailure.t) : t := Make failure false.
Definition after_sending (failure : BrokerFailure.t) : t := Make failure true.
End BrokerError.

Module HttpResolveDone.
Record t := Make { disposition : ResolveDisposition.t; addresses : list NetAddress.t }.
End HttpResolveDone.

Module HttpExchangeDone.
Record t := Make {
  disposition : ExchangeDisposition.t;
  status : option N;
  headers : list HttpHeader.t;
  location : option string;
  body : HexContent.t;
  truncated : bool;
  headers_dropped : N;
  cookies_dropped : N;
  credential_echoes : N;
  bytes_sent : N;
  bytes_received : N
}.
End HttpExchangeDone.

(** [resolution] and [exchanged]: an answer checked against what was sent. *)
Definition resolution (done : HttpResolveDone.t) : result HttpResolveDone.t BrokerFailure.t :=
  let resolved := bool_decide (HttpResolveDone.disposition done = ResolveDisposition.Resolved) in
  if Bool.eqb resolved (length (HttpResolveDone.addresses done) =? 0)%nat then Err BrokerFailure.Protocol else Ok done.

Definition exchanged (done : HttpExchangeDone.t) (response_limit : N) (credential : bool) :
    result HttpExchangeDone.t BrokerFailure.t :=
  if negb credential && (0 <? HttpExchangeDone.credential_echoes done)%N then Err BrokerFailure.Protocol
  else if (N.to_nat response_limit <? HexContent.byte_len
    (HttpExchangeDone.body done))%nat then Err BrokerFailure.Protocol
  else
    let kept :=
      forallb (fun header => let name := HttpHeaderName.as_str (HttpHeader.name header) in
                 negb (String.eqb name "location") && response_header_kept name) (HttpExchangeDone.headers done) in
    if negb kept then Err BrokerFailure.Protocol
    else
      let completed := bool_decide (HttpExchangeDone.disposition done = ExchangeDisposition.Completed) in
      if completed && negb (is_some (HttpExchangeDone.status done)) then Err BrokerFailure.Protocol
      else if negb completed
              && (negb (length (HttpExchangeDone.headers done) =? 0)%nat || is_some (HttpExchangeDone.location done))
      then Err BrokerFailure.Protocol
      else Ok done.

(** What the channel does with an operation: it fails before the authorisation
    is sent or after, the broker refuses or cannot tell, or it answers. *)
Module Channel.
Inductive t (A : Type) :=
| Before (failure : BrokerFailure.t)
| After (common : Common.t) (failure : BrokerFailure.t)
| Refused (common : Common.t) (why : BrokerRefusal.t)
| Indeterminate (common : Common.t) (why : Indeterminate.t)
| Done (common : Common.t) (done : A).
End Channel.

(** [link::perform] of a resolution. *)
Definition perform_resolve (channel : Channel.t HttpResolveDone.t) : result HttpResolveDone.t BrokerError.t :=
  match channel with
  | Channel.Before _ failure => Err (BrokerError.before_sending failure)
  | Channel.After _ _ failure => Err (BrokerError.after_sending failure)
  | Channel.Refused _ _ why => Err (BrokerError.after_sending (BrokerFailure.Refused why))
  | Channel.Indeterminate _ _ why => Err (BrokerError.after_sending (BrokerFailure.Indeterminate why))
  | Channel.Done _ _ done => map_err BrokerError.after_sending (resolution done)
  end.

(** ... and of an exchange: the authorisation sent, if one was, and the answer. *)
Definition perform_exchange (spec : HopSpec.t) (secret : bool) (channel : Channel.t HttpExchangeDone.t) :
    option HttpExchangeAuthorisation.t * result HttpExchangeDone.t BrokerError.t :=
  let prepared (common : Common.t) : result HttpExchangeAuthorisation.t BrokerError.t :=
    if negb (Bool.eqb (is_some (HopSpec.credential spec)) secret)
    then Err (BrokerError.before_sending BrokerFailure.Protocol)
    else
      let exchange := HttpExchangeAuthorisation.new common spec in
      let? _ := map_err (fun _ => BrokerError.before_sending BrokerFailure.Protocol) (check_exchange exchange) in
      Ok exchange in
  let send (common : Common.t) (answer : result HttpExchangeDone.t BrokerFailure.t) :=
    match prepared common with
    | Err e => (None, Err e)
    | Ok exchange => (Some exchange, map_err BrokerError.after_sending answer)
    end in
  match channel with
  | Channel.Before _ failure => (None, Err (BrokerError.before_sending failure))
  | Channel.After _ common failure => send common (Err failure)
  | Channel.Refused _ common why => send common (Err (BrokerFailure.Refused why))
  | Channel.Indeterminate _ common why => send common (Err (BrokerFailure.Indeterminate why))
  | Channel.Done _ common done =>
      send common (exchanged done (HopSpec.response_limit spec) (is_some (HopSpec.credential spec)))
  end.

(** * How the authority judges them *)

Module Unresolved.
Inductive t := Blocked | Mixed | Failed | Timeout | Unavailable.

Definition refusal (self : t) : ToolRefusalReasonV4.t :=
  match self with
  | Blocked => ToolRefusalReasonV4.AddressBlocked
  | Mixed => ToolRefusalReasonV4.AddressMixed
  | Failed => ToolRefusalReasonV4.ResolutionFailed
  | Timeout => ToolRefusalReasonV4.ResolutionTimeout
  | Unavailable => ToolRefusalReasonV4.NetworkUnavailable
  end.

Definition end_ (self : t) : RedirectEnd.t :=
  match self with
  | Blocked => RedirectEnd.AddressBlocked
  | Mixed => RedirectEnd.AddressMixed
  | Failed => RedirectEnd.ResolutionFailed
  | Timeout => RedirectEnd.ResolutionTimeout
  | Unavailable => RedirectEnd.HopFailed
  end.

Definition as_str (self : t) : string :=
  match self with
  | Blocked => "ADDRESS_BLOCKED" | Mixed => "ADDRESS_MIXED" | Failed => "RESOLUTION_FAILED"
  | Timeout => "RESOLUTION_TIMEOUT" | Unavailable => "NETWORK_UNAVAILABLE"
  end.
End Unresolved.

Definition judge_resolution (answer : result HttpResolveDone.t BrokerError.t) (exceptions : list Address.t) :
    result (list Address.t) Unresolved.t :=
  match answer with
  | Err _ => Err Unresolved.Unavailable
  | Ok done =>
      let? _ :=
        match HttpResolveDone.disposition done with
        | ResolveDisposition.Resolved => Ok ()
        | ResolveDisposition.NameBlocked | ResolveDisposition.AddressBlocked => Err Unresolved.Blocked
        | ResolveDisposition.AddressMixed => Err Unresolved.Mixed
        | ResolveDisposition.ResolutionFailed => Err Unresolved.Failed
        | ResolveDisposition.ResolutionTimeout => Err Unresolved.Timeout
        end in
      let addresses := NetAddress.to_address <$> HttpResolveDone.addresses done in
      match judge addresses exceptions with
      | GuardVerdict.Allowed => Ok addresses
      | GuardVerdict.Empty => Err Unresolved.Failed
      | GuardVerdict.Blocked => Err Unresolved.Blocked
      | GuardVerdict.Mixed => Err Unresolved.Mixed
      end
  end.

Module HopEnding.
Record t := Make {
  state : string;
  disposition : string;
  status : option N;
  tls : bool;
  bytes_sent : option N;
  bytes_received : option N;
  injected : bool;
  headers_dropped : N;
  cookies_dropped : N;
  truncated : bool
}.
End HopEnding.

Module SecretEnding.
Inductive t := Injected | Failed (reason : string) | Unknown.
End SecretEnding.

Definition refusal_failure (refusal : BrokerRefusal.t) : ToolFailureReasonV4.t :=
  match refusal with
  | BrokerRefusal.HttpAddressBlocked => ToolFailureReasonV4.AddressBlocked
  | BrokerRefusal.HttpConnectFailed => ToolFailureReasonV4.ConnectFailed
  | BrokerRefusal.HttpTlsFailed => ToolFailureReasonV4.TlsFailed
  | BrokerRefusal.HttpTimeout => ToolFailureReasonV4.Timeout
  | BrokerRefusal.SecretDescriptor | BrokerRefusal.SecretEmpty | BrokerRefusal.SecretTooLarge
  | BrokerRefusal.SecretUnsafeBytes => ToolFailureReasonV4.CredentialFailed
  | BrokerRefusal.ChannelMismatch | BrokerRefusal.DescriptorCount => ToolFailureReasonV4.BrokerProtocolError
  | _ => ToolFailureReasonV4.BrokerExecutionError
  end.

Module Exchanged.
Inductive t :=
| Completed (done : HttpExchangeDone.t)
| Broken (done : HttpExchangeDone.t)
| Refused (refusal : BrokerRefusal.t)
| NotSent (reason : ToolFailureReasonV4.t)
| CredentialFailed
| Unknown.

Definition echoes (self : t) : N :=
  match self with Completed done | Broken done => HttpExchangeDone.credential_echoes done | _ => 0 end.

Definition hop_ending (self : t) : HopEnding.t :=
  let sent state done :=
    HopEnding.Make state (ExchangeDisposition.as_str (HttpExchangeDone.disposition done)) (HttpExchangeDone.status done)
      true (Some (HttpExchangeDone.bytes_sent done)) (Some (HttpExchangeDone.bytes_received done)) true
      (HttpExchangeDone.headers_dropped done) (HttpExchangeDone.cookies_dropped done) (HttpExchangeDone.truncated done) in
  let unsent state disposition := HopEnding.Make state disposition None false None None false 0 0 false in
  match self with
  | Completed done => sent "COMPLETED" done
  | Broken done => sent "FAILED" done
  | Refused refusal => unsent "FAILED" (BrokerRefusal.as_str refusal)
  | NotSent reason => unsent "FAILED" (ToolFailureReasonV4.as_str reason)
  | CredentialFailed => unsent "FAILED" "CREDENTIAL_FAILED"
  | Unknown => unsent "UNKNOWN" "OUTCOME_UNKNOWN"
  end%string.

Definition secret_ending (self : t) (failure : option string) : SecretEnding.t :=
  match self with
  | Completed _ | Broken _ => SecretEnding.Injected
  | Refused refusal => SecretEnding.Failed (BrokerRefusal.as_str refusal)
  | NotSent reason => SecretEnding.Failed (ToolFailureReasonV4.as_str reason)
  | CredentialFailed => SecretEnding.Failed (default "CREDENTIAL_FAILED"%string failure)
  | Unknown => SecretEnding.Unknown
  end.

Definition failure (self : t) : option ToolFailureReasonV4.t :=
  match self with
  | Completed _ | Unknown => None
  | Broken done =>
      Some match HttpExchangeDone.disposition done with
           | ExchangeDisposition.EncodingUnsupported => ToolFailureReasonV4.EncodingUnsupported
           | ExchangeDisposition.Timeout => ToolFailureReasonV4.Timeout
           | _ => ToolFailureReasonV4.ResponseMalformed
           end
  | Refused refusal => Some (refusal_failure refusal)
  | NotSent reason => Some reason
  | CredentialFailed => Some ToolFailureReasonV4.CredentialFailed
  end.
End Exchanged.

Definition classify (answer : result HttpExchangeDone.t BrokerError.t) : Exchanged.t :=
  match answer with
  | Ok done =>
      if bool_decide (HttpExchangeDone.disposition done = ExchangeDisposition.Completed) then Exchanged.Completed done
      else Exchanged.Broken done
  | Err (BrokerError.Make (BrokerFailure.Refused refusal) _) => Exchanged.Refused refusal
  | Err (BrokerError.Make failure false) =>
      Exchanged.NotSent
        match failure with
        | BrokerFailure.Protocol => ToolFailureReasonV4.BrokerProtocolError
        | _ => ToolFailureReasonV4.BrokerUnavailable
        end
  | Err _ => Exchanged.Unknown
  end.

(** * The answer *)

Abbreviation Hits := (gmap HitKind.t N).

(** A response that arrived whole. *)
Module Response.
Record t := Make {
  status : N;
  headers : list HttpHeader.t;
  location : option string;
  body : buffer;
  truncated : bool;
  url : HttpsUrl.t;
  limit : N
}.
End Response.

Module NetHop.
Record t := Make {
  hop : N;
  host : EgressHost.t;
  port : N;
  method : HttpMethod.t;
  status : option N;
  injected : bool
}.
End NetHop.

Module NetHttpResult.
Record t := Make {
  status : N;
  headers : list HttpHeader.t;
  body : HexContent.t;
  truncated : bool;
  hops : list NetHop.t;
  redirect_ended : option RedirectEnd.t
}.
End NetHttpResult.

Definition NetHops_new (items : list NetHop.t) : option (list NetHop.t) := bounded (N.to_nat MAX_HOPS) items.

Definition add_hits (hits more : Hits) : Hits := union_with (fun a b => Some (saturating_add a b)) hits more.

Definition kept_value (value : string) : option HttpHeaderValue.t :=
  if is_header_value_within value MAX_KEPT_HEADER_VALUE_BYTES then HttpHeaderValue.new value else None.

Section answer.
  Context `{Hmac}.

(** Whether a text held nothing, and what it held. *)
Definition clean (index : ExactIndex.t) (text : string) : bool * Hits :=
  let redaction := redact (as_bytes text) index in
  (bool_decide (Redaction.hits redaction = ∅), Redaction.hits redaction).

(** The loop over the kept headers: one that held a secret is dropped whole. *)
Fixpoint keep_headers (index : ExactIndex.t) (headers : list HttpHeader.t) (kept : list HttpHeader.t) (hits : Hits) :
    list HttpHeader.t * Hits :=
  match headers with
  | [] => (kept, hits)
  | header :: headers =>
      let '(c, more) := clean index (HttpHeaderValue.as_str (HttpHeader.value header)) in
      keep_headers index headers (if c then kept ++ [header] else kept) (add_hits hits more)
  end.

(** The [location] as the authority canonicalised it. *)
Definition keep_location (index : ExactIndex.t) (url : HttpsUrl.t) (location : option string)
    (kept : list HttpHeader.t) (hits : Hits) : list HttpHeader.t * Hits :=
  match location with
  | None => (kept, hits)
  | Some location =>
      match HttpsUrl.resolve url location with
      | Err _ => (kept, hits)
      | Ok target =>
          let canonical := HttpsUrl.canonical target in
          let '(c, more) := clean index canonical in
          let hits := add_hits hits more in
          match (if c then name ← HttpHeaderName.new "location"; value ← kept_value canonical;
            Some (HttpHeader.Make name value)
                 else None) with
          | Some header => (kept ++ [header], hits)
          | None => (kept, hits)
          end
      end
  end.

Definition result_of (index : ExactIndex.t) (last : Response.t) (hops : list NetHop.t)
    (redirect_ended : option RedirectEnd.t) : invariant (NetHttpResult.t * Hits) :=
  let '(kept, hits) := keep_headers index (Response.headers last) [] ∅ in
  let '(kept, hits) := keep_location index (Response.url last) (Response.location last) kept hits in
  let redacted := redact_bounded (Response.body last) (N.to_nat (Response.limit last)) index in
  let hits := add_hits hits (Redacted.hits redacted) in
  let? status := ok_or (HttpStatus_new (Response.status last)) "a status"%string in
  let? headers := ok_or (ResponseHeaders_new kept) "the kept headers"%string in
  let? body := ok_or (HexContent.from_bytes (Redacted.bytes redacted)) "a body"%string in
  let? hops := ok_or (NetHops_new hops) "the hops"%string in
  Ok (NetHttpResult.Make status headers body (Response.truncated last || Redacted.cut redacted) hops redirect_ended,
    hits).
End answer.

(** * Facts *)

#[global] Arguments MAX_URL_BYTES : simpl never.
#[global] Arguments MAX_NET_REQUEST_BODY_BYTES : simpl never.
#[global] Arguments MAX_REQUEST_HEADER_BYTES : simpl never.

(** ** Headers *)

(** What a header set the judge takes is. *)
Definition header_ok (reserved : list string) (h : string * string) : Prop :=
  is_header_name h.1 = true /\ is_header_value h.2 = true /\ request_header_allowed h.1 = true /\ h.1 ∉ reserved.

Definition header_bytes (headers : list (string * string)) : nat :=
  foldr (fun h n => String.length h.1 + String.length h.2 + n) 0 headers.

Lemma names_elem l name : names l name = true <-> name ∈ l.
Proof.
  unfold names. rewrite existsb_exists, list_elem_of_In. split; [by intros (x & Hx & ->%String.eqb_eq)|].
  intros H. exists name. by rewrite String.eqb_refl.
Qed.

Lemma names_not_elem l name : names l name = false <-> name ∉ l.
Proof. rewrite <- names_elem. by destruct (names l name). Qed.

Lemma judge_headers_Ok reserved seen total headers :
  judge_headers reserved seen total headers = Ok () <->
  Forall (header_ok reserved) headers /\ NoDup headers.*1 /\ Forall (fun h => h.1 ∉ seen) headers /\
  (headers = [] \/ length seen + length headers <= MAX_REQUEST_HEADERS /\
     total + header_bytes headers <= MAX_REQUEST_HEADER_BYTES).
Proof.
  revert seen total. induction headers as [|[name value] headers IH]; intros seen total; cbn [judge_headers].
  { split; [|done]. intros _. split_and!; [constructor|constructor|constructor|by left]. }
  cbn [header_bytes foldr fmap list_fmap fst snd length]. change (foldr _ 0 headers) with (header_bytes headers).
  rewrite !Forall_cons, NoDup_cons. unfold header_ok at 1. cbn [fst snd].
  destruct (is_header_name name); [|naive_solver]. destruct (is_header_value value); [|naive_solver]. cbn [negb orb].
  destruct (names seen name) eqn:Es; [apply names_elem in Es; naive_solver|]. apply names_not_elem in Es.
  rewrite length_app. cbn [length].
  destruct (Nat.ltb_spec MAX_REQUEST_HEADERS (length seen + 1)); [split; [done|]; naive_solver lia|].
  destruct (Nat.ltb_spec MAX_REQUEST_HEADER_BYTES (total + String.length name + String.length value));
    [split; [done|]; naive_solver lia|].
  destruct (request_header_allowed name); [|naive_solver]. cbn [negb orb].
  destruct (names reserved name) eqn:Er; [apply names_elem in Er; naive_solver|]. apply names_not_elem in Er.
  rewrite IH, length_app. cbn [length]. split.
  - intros (H1 & H2 & H3 & H4). split_and!; try done.
    + rewrite list_elem_of_fmap. intros ([n v] & -> & Hin). rewrite Forall_forall in H3. specialize (H3 _ Hin).
      set_solver.
    + eapply Forall_impl; [apply H3|]. set_solver.
    + right. destruct H4 as [-> |[? ?]]; cbn [length header_bytes foldr]; lia.
  - intros ((_ & H1) & (H2 & H3) & (_ & H4) & H5). split_and!; try done.
    + rewrite Forall_forall in *. intros h Hh. specialize (H4 h Hh).
      intros [Hs|Hs%list_elem_of_singleton]%elem_of_app; [done|].
      apply H2, list_elem_of_fmap. exists h. done.
    + right. destruct H5 as [?|?]; [done|lia].
Qed.

Lemma judge_request_headers_Ok headers reserved :
  judge_request_headers headers reserved = Ok () <->
  Forall (header_ok reserved) headers /\ NoDup headers.*1 /\ length headers <= MAX_REQUEST_HEADERS /\
  header_bytes headers <= MAX_REQUEST_HEADER_BYTES.
Proof.
  unfold judge_request_headers. rewrite judge_headers_Ok. cbn [length Nat.add]. split.
  - intros (H1 & H2 & _ & H3). split_and!; try done; destruct H3 as [->|[? ?]]; try done;
      cbn [length header_bytes foldr]; lia.
  - intros (H1 & H2 & H3 & H4). split_and!; try done; [|by right]. eapply Forall_impl; [apply H1|]. set_solver.
Qed.

(** ** Bytes and addresses on the wire *)

Lemma wire_text_length max validate value :
  String.length value <= max -> validate value = true -> wire_text max validate value = true.
Proof.
  intros Hl Hv. unfold wire_text. rewrite Hv, andb_true_r. apply Nat.leb_le.
  pose proof (chars_count_le value). lia.
Qed.

Lemma hex_valid bytes : HexContent.valid_hex_content (Sha256Hash.hex bytes) = true.
Proof.
  unfold HexContent.valid_hex_content. apply andb_true_iff. split.
  - rewrite Sha256Hash.hex_length, Nat.mul_comm. by rewrite Nat.Div0.mod_mul.
  - induction bytes as [|b r IH]; [done|]. cbn [Sha256Hash.hex str_all]. rewrite IH, andb_true_r. revert b.
    apply ascii_forall. by vm_compute.
Qed.

Lemma pairs_hex bytes : HexContent.pairs (Sha256Hash.hex bytes) = list_ascii_of_string bytes.
Proof.
  induction bytes as [|b r IH]; [done|]. cbn [Sha256Hash.hex HexContent.pairs list_ascii_of_string]. rewrite IH. f_equal.
  apply Ascii.eqb_eq. revert b. apply ascii_forall. by vm_compute.
Qed.

(** At most [MAX_CHARS / 2] bytes are a content, which is read back. *)
Lemma from_bytes_Some bytes :
  length bytes <= MAX_NET_REQUEST_BODY_BYTES ->
  exists h, HexContent.from_bytes bytes = Some h /\ HexContent.to_bytes h = bytes /\ HexContent.byte_len h = length bytes.
Proof.
  intros Hl. assert (String.length (string_of_list_ascii bytes) = length bytes) as Hs.
  { clear Hl. induction bytes as [|b l IH]; [done|]. cbn. by rewrite IH. }
  unfold HexContent.from_bytes, HexContent.new.
  rewrite wire_text_length; [|rewrite Sha256Hash.hex_length, Hs;
    unfold HexContent.MAX_CHARS, MAX_NET_REQUEST_BODY_BYTES in *; lia|apply hex_valid].
  eexists. split; [done|]. unfold HexContent.to_bytes, HexContent.byte_len. cbn [HexContent.as_str]. split.
  - by rewrite pairs_hex, list_ascii_of_string_of_list_ascii.
  - by rewrite Sha256Hash.hex_length, Hs, Nat.mul_comm, Nat.div_mul.
Qed.

Lemma address_wire_roundtrip a : Address.wf a -> NetAddress.to_address (NetAddress.from_address a) = a.
Proof.
  intros [Hb Hl]. unfold NetAddress.to_address, NetAddress.from_address. cbn [NetAddress.as_str].
  assert (HexContent.new (Sha256Hash.hex (string_of_list_ascii (ascii_of_N <$> Address.octets a))) =
          HexContent.from_bytes (ascii_of_N <$> Address.octets a)) as -> by done.
  destruct (from_bytes_Some (ascii_of_N <$> Address.octets a)) as (h & -> & -> & _); [rewrite length_fmap;
    unfold MAX_NET_REQUEST_BODY_BYTES; destruct a; lia|].
  assert (byte_of <$> (ascii_of_N <$> Address.octets a) = Address.octets a) as ->.
  { clear Hl. induction Hb as [|x l Hx _ IH]; [done|]. rewrite !fmap_cons, IH. f_equal. by apply N_ascii_embedding. }
  destruct a as [o|o]; cbn [Address.octets] in *; by rewrite Hl.
Qed.

(** ** The call *)

(** What a call's types hold it to. *)
Definition call_ok (call : NetHttpCall.t) : Prop :=
  match NetHttpCall.body call with Some h => length
    (HexContent.to_bytes h) <= MAX_NET_REQUEST_BODY_BYTES | None => True end.

Definition call_headers (call : NetHttpCall.t) : list (string * string) :=
  match NetHttpCall.headers call with Some list => header_pair <$> list | None => [] end.

Definition call_body (call : NetHttpCall.t) : buffer :=
  match NetHttpCall.body call with Some h => HexContent.to_bytes h | None => [] end.

(** Every byte that would be sent. *)
Definition call_texts (call : NetHttpCall.t) (url : HttpsUrl.t) : list buffer :=
  as_bytes (HttpsUrl.canonical url) :: (as_bytes <$> (call_headers call).*2) ++ [call_body call].

Lemma carries_texts call url holds_secret :
  holds_secret (as_bytes (HttpsUrl.canonical url))
  || existsb (fun '(_, v) => holds_secret (as_bytes v)) (call_headers call) || holds_secret (call_body call) = false <->
  Forall (fun bytes => holds_secret bytes = false) (call_texts call url).
Proof.
  unfold call_texts. rewrite Forall_cons, Forall_app, Forall_singleton, !orb_false_iff, !Forall_fmap.
  assert (existsb (fun '(_, v) => holds_secret (as_bytes v)) (call_headers call) = false <->
          Forall (((fun bytes => holds_secret bytes = false) ∘ as_bytes) ∘ snd) (call_headers call)) as ->; [|tauto].
  induction (call_headers call) as [|[n v] l IH]; cbn [existsb]; [naive_solver|].
  rewrite orb_false_iff, IH, Forall_cons. done.
Qed.

(** A scheme other than [https] and an [https] URL exclude each other. *)
Lemma written_scheme text u : written text u -> other_scheme text = false.
Proof.
  intros (a & t & -> & _). unfold other_scheme.
  change ("https://" +:+ a +:+ t) with ("https" +:+ String ":" ("//" +:+ a +:+ t)).
  by rewrite str_split_once_app.
Qed.

Lemma canonicalize_Ok call reserved holds_secret c :
  canonicalize call reserved holds_secret = Ok c <->
  exists url, HttpsUrl.parse (NetHttpCall.url call) = Ok url /\
    name_blocked (Origin.host (HttpsUrl.origin url)) = false /\
    judge_request_headers (call_headers call) reserved = Ok () /\
    (NetHttpCall.body call <> None -> HttpMethod.permits_body (NetHttpCall.method call) = true) /\
    Forall (fun bytes => holds_secret bytes = false) (call_texts call url) /\
    c = Canonical.Make (NetHttpCall.method call) url (call_headers call) (call_body call)
          (NetHttpCall.credential_handle call) (NetHttpCall.follow_redirects call) (NetHttpCall.max_response_bytes call).
Proof.
  unfold canonicalize. cbv zeta. fold (call_headers call) (call_body call). split.
  - destruct (other_scheme _); [done|]. destruct (HttpsUrl.parse _) as [url|]; [|done]. cbn [map_err].
    destruct (name_blocked _) eqn:En; [done|]. destruct (judge_request_headers _ _) as [[]|] eqn:Ej; [|done].
    cbn [map_err].
    destruct (is_some _ && _) eqn:Eb; [done|]. destruct (_ || holds_secret (call_body call)) eqn:Es; [done|].
    intros [= <-]. exists url. split_and!; try done; [|by apply carries_texts].
    intros Hb. destruct (NetHttpCall.body call); [|done]. cbn in Eb. by apply negb_false_iff in Eb.
  - intros (url & Hu & Hn & Hj & Hb & Hs & ->). apply parse_Ok in Hu as Hw. destruct Hw as [Hw _].
    rewrite (written_scheme _ _ Hw), Hu. cbn [map_err]. rewrite Hn, Hj. cbn [map_err].
    assert (is_some (NetHttpCall.body call) && negb (HttpMethod.permits_body (NetHttpCall.method call)) = false) as ->.
    { destruct (NetHttpCall.body call); [|done]. cbn. by rewrite Hb. }
    apply carries_texts in Hs. by rewrite Hs.
Qed.

(** ** Hops *)

Lemma target_length text u :
  HttpsUrl.parse text = Ok u -> String.length (HttpsUrl.request_target u) <= MAX_URL_BYTES.
Proof.
  intros [(a & t & -> & _ & _ & (p & q & -> & Hp & Hq)) Hl]%parse_Ok. rewrite !str_length_app in Hl.
  assert (String.length (HttpsUrl.path u) <= S (String.length p)) as H1.
  { destruct Hp as [[-> ->]|(_ & Hs & _)]; [done|]. apply spells_length in Hs. lia. }
  assert (match HttpsUrl.query u with Some q' => S (String.length q') = String.length q | None => True end) as H2.
  { destruct Hq as [[-> ->]|(x & q' & -> & -> & Hs)]; [done|]. apply spells_length in Hs. cbn. lia. }
  change (String.length "https://") with 8 in Hl. unfold HttpsUrl.request_target.
  destruct (HttpsUrl.query u) as [q'|]; [rewrite !str_length_app; change (String.length "?") with 1|]; lia.
Qed.

Lemma resolve_parsed base reference u : HttpsUrl.resolve base reference = Ok u -> exists text, HttpsUrl.parse text = Ok u.
Proof.
  unfold HttpsUrl.resolve. destruct (check_text reference); [|done]. destruct (str_contains _ _); [done|].
  destruct (str_starts_with _ _); [by eauto|]. destruct (has_scheme _); by eauto.
Qed.

Lemma next_Hop status location base method follow hop visited url method' :
  next status location base method follow hop visited = Next.Hop url method' <->
  exists reference, redirects status = true /\ location = Some reference /\ follow = true /\
    HttpsUrl.resolve base reference = Ok url /\ redirect_method status method = Some method' /\ (hop < MAX_HOPS)%N /\
    HttpsUrl.canonical url ∉ visited.
Proof.
  unfold next. split.
  - destruct (redirects status); [|done]. cbn [negb]. destruct location as [reference|]; [|done].
    destruct follow; [|done]. cbn [negb]. destruct (HttpsUrl.resolve base reference) as [u|] eqn:Er; [|done].
    destruct (redirect_method status method) as [m|]; [|done]. destruct (N.leb_spec MAX_HOPS hop); [done|].
    destruct (names visited _) eqn:Ev; [done|]. apply names_not_elem in Ev. intros [= <- <-]. by exists reference.
  - intros (reference & -> & -> & -> & -> & -> & Hl & Hv%names_not_elem). cbn [negb].
    by rewrite (proj2 (N.leb_gt _ _) Hl), Hv.
Qed.

(** A hop a request may make: the first, and what a response leads to. *)
Inductive hop_of (canonical : Canonical.t) : HopRequest.t -> Prop :=
| hop_of_first : hop_of canonical (HopRequest.first canonical)
| hop_of_next hop status location visited url method : hop_of canonical hop ->
    next status location (HopRequest.url hop) (HopRequest.method hop) (Canonical.follow_redirects canonical)
      (HopRequest.number hop) visited = Next.Hop url method ->
    hop_of canonical (HopRequest.next hop canonical url method).

(** What a canonical call is. *)
Record canonical_ok (reserved : list string) (c : Canonical.t) : Prop := {
  canonical_url : exists text, HttpsUrl.parse text = Ok (Canonical.url c);
  canonical_headers : judge_request_headers (Canonical.headers c) reserved = Ok ();
  canonical_body : length (Canonical.body c) <= MAX_NET_REQUEST_BODY_BYTES;
  canonical_method : Canonical.body c <> [] -> HttpMethod.permits_body (Canonical.method c) = true
}.

Lemma canonicalize_ok call reserved holds_secret c :
  call_ok call -> canonicalize call reserved holds_secret = Ok c -> canonical_ok reserved c.
Proof.
  intros Hc (url & Hu & _ & Hj & Hb & _ & ->)%canonicalize_Ok. split; cbn.
  - by exists (NetHttpCall.url call).
  - done.
  - unfold call_body. unfold call_ok in Hc. destruct (NetHttpCall.body call); [done|]. cbn. lia.
  - unfold call_body. intros H. apply Hb. by destruct (NetHttpCall.body call).
Qed.

(** What a hop is, whichever it is. *)
Record hop_ok (reserved : list string) (c : Canonical.t) (hop : HopRequest.t) : Prop := {
  hop_url : exists text, HttpsUrl.parse text = Ok (HopRequest.url hop);
  hop_number : (1 <= HopRequest.number hop <= MAX_HOPS)%N;
  hop_headers : judge_request_headers (HopRequest.headers hop) reserved = Ok ();
  hop_body : length (HopRequest.body hop) <= MAX_NET_REQUEST_BODY_BYTES;
  hop_method : HopRequest.body hop <> [] -> HttpMethod.permits_body (HopRequest.method hop) = true;
  hop_kept : (HopRequest.number hop = 1%N /\ hop = HopRequest.first c) \/
    (1 < HopRequest.number hop)%N /\ Canonical.follow_redirects c = true /\ HopRequest.body hop = [];
  hop_away : HttpsUrl.origin (HopRequest.url hop) <> HttpsUrl.origin (Canonical.url c) ->
    HopRequest.headers hop = [] /\ HopRequest.credential hop = false;
  hop_home : HttpsUrl.origin (HopRequest.url hop) = HttpsUrl.origin (Canonical.url c) ->
    HopRequest.headers hop = Canonical.headers c /\ HopRequest.credential hop = is_some (Canonical.credential c)
}.

Lemma hop_of_ok reserved c hop : canonical_ok reserved c -> hop_of c hop -> hop_ok reserved c hop.
Proof.
  intros [Hu Hh Hb Hm]. induction 1 as [|hop status location visited url method _ IH Hn].
  - split; try done; cbn; naive_solver.
  - apply next_Hop in Hn as (reference & _ & _ & Hf & Hr & _ & Hl & _).
    pose proof (hop_number _ _ _ IH) as [H1 _]. unfold MAX_HOPS, MAX_REDIRECTS in *.
    split; cbn; try done; try lia.
    + by eapply resolve_parsed.
    + unfold U8_MAX, MAX_HOPS, MAX_REDIRECTS in *. lia.
    + by case_bool_decide.
    + right. split_and!; [unfold U8_MAX; lia|done|done].
    + intros Ha. by rewrite bool_decide_eq_false_2.
    + intros Ha. by rewrite bool_decide_eq_true_2.
Qed.

(** ** What is sent and what the broker checks *)

Lemma header_name_new name : is_header_name name = true -> HttpHeaderName.new name = Some (HttpHeaderName.Make name).
Proof.
  intros H. unfold HttpHeaderName.new. rewrite wire_text_length; [done| |done].
  unfold is_header_name, MAX_HEADER_NAME_BYTES in H. apply andb_true_iff in H as [[_ H%Nat.leb_le]%andb_true_iff _]. done.
Qed.

Lemma header_value_new value : is_header_value value = true ->
  HttpHeaderValue.new value = Some (HttpHeaderValue.Make value).
Proof.
  intros H. unfold HttpHeaderValue.new. rewrite wire_text_length; [done| |done].
  unfold is_header_value, is_header_value_within, MAX_HEADER_VALUE_BYTES in H.
  by apply andb_true_iff in H as [[[H%Nat.leb_le _]%andb_true_iff _]%andb_true_iff _].
Qed.

(** Judged headers fit the wire, and are read back from it. *)
Lemma wire_headers reserved headers :
  Forall (header_ok reserved) headers -> exists l, mapM wire_header headers = Some l /\ header_pair <$> l = headers.
Proof.
  induction 1 as [|[n v] headers (Hn & Hv & _) _ (l & Hl & He)]; [by exists []|].
  exists (HttpHeader.Make (HttpHeaderName.Make n) (HttpHeaderValue.Make v) :: l).
  split; [|by rewrite fmap_cons, He]. apply mapM_Some in Hl. apply mapM_Some. constructor; [|done].
  unfold wire_header. cbn [fst snd] in *. by rewrite header_name_new, header_value_new.
Qed.

(** Fewer reserved names forbid no more. *)
Lemma judge_fewer headers reserved fewer :
  judge_request_headers headers reserved = Ok () -> (forall name, name ∈ fewer -> name ∈ reserved) ->
  judge_request_headers headers fewer = Ok ().
Proof.
  rewrite !judge_request_headers_Ok. intros (H1 & H2) Hf. split; [|done].
  eapply Forall_impl; [exact H1|]. unfold header_ok. naive_solver.
Qed.

Lemma url_host_new u : url_ok u ->
  EgressHost.new (Origin.host (HttpsUrl.origin u)) = Some (EgressHost.Make (Origin.host (HttpsUrl.origin u))) /\
  EgressPort.new (Origin.port (HttpsUrl.origin u)) = Some (EgressPort.Make (Origin.port (HttpsUrl.origin u))).
Proof.
  intros ([[Hh Hl] Hp] & _). unfold EgressHost.new, EgressPort.new. split.
  - rewrite Hh, Hl, (proj2 (Nat.leb_le _ _) (is_host_chars _ Hh)). done.
  - unfold U16_MAX in Hp. by rewrite !(proj2 (N.leb_le _ _)) by apply Hp.
Qed.

Lemma target_new text u : HttpsUrl.parse text = Ok u ->
  HttpTarget.new (HttpsUrl.request_target u) = Some (HttpTarget.Make (HttpsUrl.request_target u)).
Proof.
  intros Hp. pose proof (target_length _ _ Hp) as Hl. apply parse_Ok in Hp as [Hw _]. apply written_url_ok in Hw.
  unfold HttpTarget.new. rewrite wire_text_length; [done|exact Hl|]. unfold HttpTarget.valid_target.
  pose proof Hw as (_ & (Hs & _) & _). apply target_tail in Hw as Ht'.
  rewrite (visible_tail _ _ _ Ht'), (proj2 (Nat.leb_le _ _) Hl), andb_true_r. unfold HttpsUrl.request_target.
  destruct (HttpsUrl.path u); [done|]. cbn in Hs. destruct (HttpsUrl.query u); cbn; by rewrite Hs.
Qed.

Lemma url_ok_of text u : HttpsUrl.parse text = Ok u -> url_ok u.
Proof. intros [Hw _]%parse_Ok. by eapply written_url_ok. Qed.

(** A hop is always told, whatever its addresses and its bound. *)
Lemma hop_spec_Ok reserved c hop addresses limit credential :
  hop_ok reserved c hop -> (1 <= limit <= 262144)%N ->
  exists spec, hop_spec hop addresses limit credential = Ok spec /\
    HopSpec.hop spec = HopRequest.number hop /\ HopSpec.method spec = HopRequest.method hop /\
    EgressHost.as_str (HopSpec.host spec) = HopRequest.host hop /\
    EgressPort.get (HopSpec.port spec) = HopRequest.port hop /\
    HttpTarget.as_str (HopSpec.target spec) = HttpsUrl.request_target (HopRequest.url hop) /\
    header_pair <$> HopSpec.headers spec = HopRequest.headers hop /\
    match HopSpec.body spec with
    | Some h => HexContent.to_bytes h = HopRequest.body hop /\ HopRequest.body hop <> [] /\
                HexContent.byte_len h = length (HopRequest.body hop)
    | None => HopRequest.body hop = []
    end /\
    HopSpec.addresses spec = NetAddress.from_address <$> take NetAddress.MAX_PINNED_ADDRESSES addresses /\
    HopSpec.response_limit spec = limit /\ HopSpec.credential spec = credential.
Proof.
  intros Hok Hl. destruct (hop_url _ _ _ Hok) as [text Hu]. pose proof (url_ok_of _ _ Hu) as Huo.
  destruct (url_host_new _ Huo) as [Hh Hp]. pose proof (target_new _ _ Hu) as Ht.
  pose proof (hop_headers _ _ _ Hok) as (Hf & _ & Hn & _)%judge_request_headers_Ok.
  destruct (wire_headers _ _ Hf) as (l & Hm & He). unfold hop_spec. rewrite Hm. cbn [mbind option_bind].
  assert (RequestHeaders_new l = Some l) as ->.
  { unfold RequestHeaders_new, bounded. rewrite <- He, length_fmap in Hn. by rewrite (proj2 (Nat.leb_le _ _) Hn). }
  cbn [ok_or]. unfold HopNumber_new, ResponseLimit_new, wire_int. pose proof (hop_number _ _ _ Hok) as Hnum.
  unfold MAX_HOPS, MAX_REDIRECTS in Hnum. unfold HopRequest.host, HopRequest.port in *.
  rewrite !(proj2 (N.leb_le _ _)) by (clear - Hl Hnum; lia). cbn [andb then_some ok_or]. rewrite Hh, Hp, Ht. cbn [ok_or].
  unfold NetAddresses_new, bounded. rewrite length_fmap, length_take.
  rewrite (proj2 (Nat.leb_le _ _)) by apply Nat.le_min_l. cbn [then_some ok_or].
  pose proof (hop_body _ _ _ Hok) as Hb. destruct (HopRequest.body hop) as [|b body] eqn:Eb.
  - eexists. split; [done|]. cbn. done.
  - destruct (from_bytes_Some _ Hb) as (h & -> & Hbytes & Hlen). cbn [ok_or]. eexists. split; [done|]. cbn. done.
Qed.

Lemma parse_too_long text : MAX_URL_BYTES < String.length text -> HttpsUrl.parse text = Err UrlError.TooLong.
Proof.
  intros Hl. unfold HttpsUrl.parse, check_text. rewrite (proj2 (Nat.ltb_lt _ _) Hl). destruct text; [cbn in Hl; lia|done].
Qed.

(** The URL the broker reads back is the hop's, where its canonical text is one. *)
Lemma exchange_url reserved c hop addresses limit credential spec common :
  hop_ok reserved c hop -> (1 <= limit <= 262144)%N -> hop_spec hop addresses limit credential = Ok spec ->
  HttpExchangeAuthorisation.url (HttpExchangeAuthorisation.new common spec) =
  if (String.length (HttpsUrl.canonical (HopRequest.url hop)) <=? MAX_URL_BYTES)%nat then Ok (HopRequest.url hop)
  else Err (ProtocolError.schema Violation.InvalidFormat "/target").
Proof.
  intros Hok Hl Hs. destruct (hop_spec_Ok _ _ _ addresses limit credential Hok Hl) as (spec' & Hs' & Hspec).
  assert (spec' = spec) as -> by congruence. destruct Hspec as (_ & Hm & Hh & Hp & Ht & _).
  destruct (hop_url _ _ _ Hok) as [text Hu]. pose proof (url_ok_of _ _ Hu) as Huo.
  assert (HttpExchangeAuthorisation.spec (HttpExchangeAuthorisation.new common spec) = spec) as Esp.
  { unfold HttpExchangeAuthorisation.new. by destruct (is_some _). }
  unfold HttpExchangeAuthorisation.url. rewrite Esp, Hh, Hp, Ht.
  assert ("https://" +:+ HopRequest.host hop +:+ ":" +:+ show_N (HopRequest.port hop) +:+ HttpsUrl.request_target
    (HopRequest.url hop)
          = HttpsUrl.canonical (HopRequest.url hop)) as ->.
  { unfold HttpsUrl.canonical, Origin.display. by rewrite !string_app_assoc. }
  destruct (Nat.leb_spec (String.length (HttpsUrl.canonical (HopRequest.url hop))) MAX_URL_BYTES) as [Hlen|Hlen].
  - rewrite (proj2 (parse_Ok _ _) (conj (canonical_written _ Huo) Hlen)). cbn [map_err]. by rewrite String.eqb_refl.
  - by rewrite parse_too_long.
Qed.

(** The broker's check of what it is sent: the text of the URL it reads back. *)
Lemma check_exchange_spec reserved c hop addresses limit credential spec common :
  hop_ok reserved c hop -> (1 <= limit <= 262144)%N -> addresses <> [] ->
  (forall cr, credential = Some cr ->
     to_ascii_lowercase (SecretHeaderName.as_str (HttpCredential.header_name cr)) ∈ reserved) ->
  hop_spec hop addresses limit credential = Ok spec ->
  check_exchange (HttpExchangeAuthorisation.new common spec) =
  if (String.length (HttpsUrl.canonical (HopRequest.url hop)) <=? MAX_URL_BYTES)%nat then Ok ()
  else Err (ProtocolError.schema Violation.InvalidFormat "/target").
Proof.
  intros Hok Hl Ha Hr Hs. destruct (hop_spec_Ok _ _ _ addresses limit credential Hok Hl) as (spec' & Hs' & Hspec).
  assert (spec' = spec) as -> by congruence. destruct Hspec as (_ & Hm & Hh & Hp & Ht & Hhd & Hbd & Had & _ & Hcr).
  pose proof (exchange_url _ _ _ _ _ _ _ common Hok Hl Hs) as Hurl.
  assert (HttpExchangeAuthorisation.spec (HttpExchangeAuthorisation.new common spec) = spec) as Esp.
  { unfold HttpExchangeAuthorisation.new. by destruct (is_some _). }
  unfold check_exchange. rewrite Esp.
  assert (exists b, match HttpExchangeAuthorisation.kind (HttpExchangeAuthorisation.new common spec) with
     | PrivateKind.HttpExchange => Ok false | PrivateKind.HttpCredentialExchange => Ok true
     | _ => Err (inconsistent "/kind") end = Ok b /\
       Bool.eqb b (is_some (HopSpec.credential spec)) = true) as (b & -> & ->).
  { unfold HttpExchangeAuthorisation.new. destruct (is_some (HopSpec.credential spec));
      [by exists true|by exists false]. }
  cbn [negb]. rewrite Hurl. destruct (_ <=? MAX_URL_BYTES)%nat; [|done].
  assert (is_some (HopSpec.body spec) && negb (HttpMethod.permits_body (HopSpec.method spec)) = false) as ->.
  { destruct (HopSpec.body spec); [|done]. rewrite Hm, (hop_method _ _ _ Hok); [done|naive_solver]. }
  assert (is_none_or (HopSpec.body spec) (fun body =>
    (HexContent.byte_len body <=? MAX_NET_REQUEST_BODY_BYTES)%nat) = true) as ->.
  { destruct (HopSpec.body spec) as [h|]; [|done]. destruct Hbd as (_ & _ & Hbl). unfold is_none_or. rewrite Hbl.
    apply Nat.leb_le, (hop_body _ _ _ Hok). }
  cbn [negb]. rewrite Had, length_fmap, length_take. destruct addresses as [|a rest]; [done|].
  cbn [length Nat.min Nat.eqb NetAddress.MAX_PINNED_ADDRESSES].
  rewrite Hhd, (judge_fewer _ reserved); [done|apply (hop_headers _ _ _ Hok)|].
  rewrite Hcr. destruct credential as [cr|]; [|set_solver]. intros name ->%list_elem_of_singleton. by apply Hr.
Qed.
