(* ===== verification/NetRun.v ===== *)
(** What a [net.http] request does: its transactions
    ([dwkd-authority/src/state/net_http/ledger.rs], [secret_use.rs],
    [secret/select.rs]), the effects between them, and the loop over its hops
    ([net_http/mod.rs]).

    A transaction reads, of what other operations keep, its [Reads]; a hop meets
    one [World]. A record keeps the fields the request's own code decides; who
    asked, the times and the incarnation, and a URL's digest are left out. *)

From stdpp Require Import gmap.
From S2P Require Export NetHttp StateError.

(** * Secrets, as their metadata has them *)

Module SecretError.
Inductive t :=
| NotConfigured | Revoked | Replaced | BackendUnsupported | BackendUnavailable | BackendDenied | BackendItemMissing
| StoreUntrusted | DecryptFailed | TooLarge | MaterialInvalid | ConsumerNotAllowed | OriginNotAllowed
| InjectionModeUnavailable.

Definition code (self : t) : string :=
  match self with
  | NotConfigured => "NOT_CONFIGURED" | Revoked => "REVOKED" | Replaced => "REPLACED"
  | BackendUnsupported => "BACKEND_UNSUPPORTED" | BackendUnavailable => "BACKEND_UNAVAILABLE"
  | BackendDenied => "BACKEND_DENIED" | BackendItemMissing => "BACKEND_ITEM_MISSING"
  | StoreUntrusted => "STORE_UNTRUSTED" | DecryptFailed => "DECRYPT_FAILED" | TooLarge => "SECRET_TOO_LARGE"
  | MaterialInvalid => "SECRET_MATERIAL_INVALID" | ConsumerNotAllowed => "CONSUMER_NOT_ALLOWED"
  | OriginNotAllowed => "ORIGIN_NOT_ALLOWED" | InjectionModeUnavailable => "INJECTION_MODE_UNAVAILABLE"
  end.
End SecretError.

Module InjectionMode.
Inductive t := Egress | FdAtSpawn | EnvAtSpawn.

#[global] Instance eq_dec : EqDecision t.
Proof. solve_decision. Defined.
End InjectionMode.

(** What a use reads of a secret's metadata. *)
Module SecretMetadata.
Record t := Make {
  handle : SecretHandle.t;
  origins : list Endpoint.t;
  header : option string;
  prefix : option string;
  injection : list InjectionMode.t;
  revoked : bool
}.
End SecretMetadata.

Module InjectionEnvironment.
Inductive t := Host | Sandbox.
End InjectionEnvironment.

(** A consumer is its identity, which only equality is asked of. *)
Module Consumption.
Inductive t (Id : Type) := Egress (origin : Endpoint.t) | Spawn (consumer : Id) (environment : InjectionEnvironment.t).
Arguments Egress {Id}. Arguments Spawn {Id}.
End Consumption.

(** [host_spawn_permitted] of a build a user runs. *)
Definition host_spawn_permitted : bool := false.

Definition select {Id : Type} `{EqDecision Id} (secret : SecretMetadata.t) (consumers : list Id)
    (consumption : Consumption.t Id) : result InjectionMode.t SecretError.t :=
  if SecretMetadata.revoked secret then Err SecretError.Revoked
  else
    match consumption with
    | Consumption.Egress origin =>
        if negb (bool_decide (InjectionMode.Egress ∈ SecretMetadata.injection secret))
        then Err SecretError.InjectionModeUnavailable
        else if negb (existsb (fun allowed => Endpoint.contains allowed origin) (SecretMetadata.origins secret))
        then Err SecretError.OriginNotAllowed
        else Ok InjectionMode.Egress
    | Consumption.Spawn consumer environment =>
        if negb (bool_decide (consumer ∈ consumers)) then Err SecretError.ConsumerNotAllowed
        else
          let? _ :=
            match environment with
            | InjectionEnvironment.Host =>
                if negb host_spawn_permitted then Err SecretError.InjectionModeUnavailable else Ok ()
            | InjectionEnvironment.Sandbox => Ok ()
            end in
          ok_or (List.find (fun mode => bool_decide (mode ∈ SecretMetadata.injection secret))
                   [InjectionMode.FdAtSpawn; InjectionMode.EnvAtSpawn]) SecretError.InjectionModeUnavailable
    end.

(** The origin an injection is bound to, as the private wire spells it. *)
Module SecretOrigin.
Record t := Make { as_str : string }.

Definition host_label (label : string) : bool :=
  negb (is_empty label) && (String.length label <=? 63)%nat && negb (starts_with_char "-" label)
  && negb (str_ends_with "-" label) && str_all is_label_byte label.

Definition valid_secret_origin (text : string) : bool :=
  match str_rsplit_once ":" text with
  | None => false
  | Some (host, port) =>
      negb (is_empty host) && (String.length host <=? 253)%nat && forallb host_label (str_split "." host)
      && (negb (is_empty port) && (String.length port <=? 5)%nat && negb (starts_with_char "0" port)
          && str_all is_digit port
          && match parse_uint U16_MAX port with Some p => (0 <? p)%N | None => false end)
  end.

Definition new (value : string) : option t := then_some (wire_text 259 valid_secret_origin value) (Make value).
End SecretOrigin.

Definition valid_secret_handle (text : string) : bool :=
  match text with
  | EmptyString => false
  | String first rest =>
      is_lower first && (String.length text <=? 64)%nat
      && str_all (fun b => is_lower b || is_digit b || one_of ["."; "_"; "-"]%char b) rest
  end.

(** [header_safe]. *)
Definition header_safe (material : buffer) : bool :=
  negb (existsb (one_of ["013"; "010"; "000"]%char) material).

(** * Budgets *)

Module NetBudget.
Record t := Make { requests : N; bytes_out : N; bytes_in : N; origins : N }.

Definition default : t := Make 100 (8 * 1024 * 1024) (64 * 1024 * 1024) 16.
End NetBudget.

Definition REQUEST_OVERHEAD : N := 512.
Definition CREDENTIAL_CHARGE : N := 32 * 1024 + 160.
Definition HEAD_CHARGE : N := 64 * 1024.

Module Charges.
Record t := Make { out : N; inbound : N }.
End Charges.

Definition len64 {A} (l : list A) : N := N.min (N.of_nat (length l)) U64_MAX.
Definition text64 (s : string) : N := N.min (str_len s) U64_MAX.

Definition charges (hop : HopRequest.t) (response_limit : N) : Charges.t :=
  let headers :=
    fold_left (fun sum '(name, value) =>
      saturating_add sum (saturating_add (saturating_add (text64 name) (text64 value)) 4)) (HopRequest.headers hop) 0%N in
  let out :=
    saturating_add
      (saturating_add
         (saturating_add (saturating_add (len64 (HopRequest.body hop)) headers)
            (text64 (HttpsUrl.request_target (HopRequest.url hop))))
         (text64 (HopRequest.host hop)))
      REQUEST_OVERHEAD in
  Charges.Make (if HopRequest.credential hop then saturating_add out CREDENTIAL_CHARGE else out)
    (saturating_add response_limit HEAD_CHARGE).

(** * What is kept *)

Module NetHopRow.
Record t := Make {
  invocation_id : string;
  hop : N;
  run_id : string;
  method : HttpMethod.t;
  host : string;
  port : N;
  addresses : list NetAddress.t;
  injection_id : option string;
  charge_out : N;
  charge_in : N;
  state : string;
  disposition : option string;
  status : option N;
  tls_established : bool;
  bytes_sent : option N;
  bytes_received : option N
}.
End NetHopRow.

Module NetRequestRow.
Record t := Make {
  invocation_id : string;
  run_id : string;
  method : HttpMethod.t;
  host : string;
  port : N;
  credential_handle : option string;
  follow_redirects : bool;
  state : string;
  failure : option string;
  final_status : option N;
  hops : option N;
  redirect_ended : option string
}.
End NetRequestRow.

Module IdempotencyRow.
Record t := Make { subject : string; session_id : string; key : string; invocation_id : string }.
End IdempotencyRow.

Module InjectionRow.
Record t := Make {
  invocation_id : string;
  run_id : string;
  subject : string;
  session_id : string;
  key : string;
  handle : SecretHandle.t;
  revision : Z;
  consumer : string;
  state : string;
  failure : option string
}.
End InjectionRow.

(** What a request leaves behind, in order: its records, and what it asked of
    the broker and of a secret's backend. *)
Module Effect.
Inductive t :=
| ToolRefused (hop : option HopRequest.t) (reason : ToolRefusalReasonV4.t) (detail : option string)
| ToolDenied (hop : HopRequest.t) (plan : NetPlan.t)
| ToolPreviewed (hop : HopRequest.t) (plan : NetPlan.t)
| SecretDenied (handle origin reason : string)
| NetResolved (invocation : string) (hop : HopRequest.t) (verdict : string) (addresses : list Address.t)
| SecretIntentRecorded (invocation : string) (handle : SecretHandle.t) (origin key : string)
| NetIntentRecorded (invocation : string) (hop : HopRequest.t) (addresses : list Address.t) (novelty : Novelty.t)
    (charges : Charges.t) (injection_id : option string) (plan : NetPlan.t)
| NetHopEnded (invocation : string) (hop : N) (ending : HopEnding.t) (injected : bool) (handle : option SecretHandle.t)
| SecretResolved (invocation : string)
| SecretEnded (invocation : string) (ending : SecretEnding.t) (uses : option N)
| TaintRaised (run : string) (level : TaintLevel.t)
| NetRedirectEnded (invocation : string) (hops : N) (reason : RedirectEnd.t)
| SecretRedactionHit (invocation : string) (hits : Hits)
| NetOutcome (invocation : string) (state : string) (hops : N) (failure : option string) (status : option N)
    (redirect : option string) (body : option (nat * bool))
| Restarted (invocation : string) (hop : option N)
| SecretRestarted (invocation : string) (run : string) (handle : SecretHandle.t)
| Resolve (invocation : string) (host : EgressHost.t)
| BackendRead (handle : SecretHandle.t)
| Registered (handle : SecretHandle.t) (value : buffer)
| Exchange (sent : HttpExchangeAuthorisation.t) (value : option buffer).
End Effect.

Module NetState.
Record t := Make {
  net_hop : list NetHopRow.t;
  net_request : list NetRequestRow.t;
  net_idempotency : list IdempotencyRow.t;
  secret_injection : list InjectionRow.t;
  secret_use : gmap string N;
  index : ExactIndex.t;
  trace : list Effect.t
}.

Definition with_hops (s : t) (rows : list NetHopRow.t) : t :=
  Make rows (net_request s) (net_idempotency s) (secret_injection s) (secret_use s) (index s) (trace s).
Definition with_requests (s : t) (rows : list NetRequestRow.t) : t :=
  Make (net_hop s) rows (net_idempotency s) (secret_injection s) (secret_use s) (index s) (trace s).
Definition with_keys (s : t) (rows : list IdempotencyRow.t) : t :=
  Make (net_hop s) (net_request s) rows (secret_injection s) (secret_use s) (index s) (trace s).
Definition with_injections (s : t) (rows : list InjectionRow.t) : t :=
  Make (net_hop s) (net_request s) (net_idempotency s) rows (secret_use s) (index s) (trace s).
Definition with_uses (s : t) (uses : gmap string N) : t :=
  Make (net_hop s) (net_request s) (net_idempotency s) (secret_injection s) uses (index s) (trace s).
Definition with_index (s : t) (index : ExactIndex.t) : t :=
  Make (net_hop s) (net_request s) (net_idempotency s) (secret_injection s) (secret_use s) index (trace s).
Definition log (s : t) (e : Effect.t) : t :=
  Make (net_hop s) (net_request s) (net_idempotency s) (secret_injection s) (secret_use s) (index s) (trace s ++ [e]).
End NetState.

(** * Steps of a request *)

Definition NetM (A : Type) : Type := NetState.t -> NetState.t * result A AuthorityError.t.

Definition done {A} (a : A) : NetM A := fun s => (s, Ok a).
Definition fail {A} (e : AuthorityError.t) : NetM A := fun s => (s, Err e).
Definition and_then {A B} (m : NetM A) (k : A -> NetM B) : NetM B := fun s =>
  match m s with (s, Ok a) => k a s | (s, Err e) => (s, Err e) end.

Notation "'let!' x := m 'in' k" := (and_then m (fun x => k))
  (at level 200, x pattern, m at level 100, k at level 200) : rust_scope.

(** An invariant that holds, or the error that says which does not. *)
Definition holds {A} (r : invariant A) : NetM A := fun s => (s, map_err AuthorityError.Invariant r).
Definition gets {A} (f : NetState.t -> A) : NetM A := fun s => (s, Ok (f s)).
Definition log (e : Effect.t) : NetM () := fun s => (NetState.log s e, Ok ()).
Definition modify (f : NetState.t -> NetState.t) : NetM () := fun s => (f s, Ok ()).

(** A statement: a constraint or a trigger refuses it. *)
Definition exec (f : NetState.t -> option NetState.t) : NetM () := fun s =>
  match f s with Some s => (s, Ok ()) | None => (s, Err AuthorityError.Sqlite) end.

(** [transact]: all of it, or none of it. *)
Definition transact {A} (commits : bool) (m : NetM A) : NetM A := fun s =>
  match m s with
  | (s', Ok a) => if commits then (s', Ok a) else (s, Err AuthorityError.Sqlite)
  | (_, Err e) => (s, Err e)
  end.

(** ** Statements *)

Definition next_hop (s : NetState.t) (invocation : string) : N :=
  let hops :=
    NetHopRow.hop <$> List.filter (fun r => String.eqb (NetHopRow.invocation_id r) invocation) (NetState.net_hop s) in
  (1 + foldr N.max 0 hops)%N.

(** [INSERT INTO net_hop]: its checks and [net_hop_in_order]. *)
Definition insert_hop (row : NetHopRow.t) (s : NetState.t) : option NetState.t :=
  let same r := String.eqb (NetHopRow.invocation_id r) (NetHopRow.invocation_id row) in
  let open_request r :=
    String.eqb (NetRequestRow.invocation_id r) (NetHopRow.invocation_id row)
    && String.eqb (NetRequestRow.run_id r) (NetHopRow.run_id row) && String.eqb (NetRequestRow.state r) "INTENT" in
  if (NetHopRow.hop row =? next_hop s (NetHopRow.invocation_id row))%N && (NetHopRow.hop row <=? 6)%N
     && existsb open_request (NetState.net_request s)
     && negb (existsb (fun r => same r && String.eqb (NetHopRow.state r) "INTENT") (NetState.net_hop s))
     && negb (length (NetHopRow.addresses row) =? 0)%nat
  then Some (NetState.with_hops s (NetState.net_hop s ++ [row]))
  else None.

(** [INSERT INTO net_request]: its primary key. *)
Definition insert_request (row : NetRequestRow.t) (s : NetState.t) : option NetState.t :=
  if existsb (fun r => String.eqb (NetRequestRow.invocation_id r) (NetRequestRow.invocation_id row))
    (NetState.net_request s)
  then None else Some (NetState.with_requests s (NetState.net_request s ++ [row])).

Definition same_key (subject session_id key : string) (r : IdempotencyRow.t) : bool :=
  String.eqb (IdempotencyRow.subject r) subject && String.eqb (IdempotencyRow.session_id r) session_id
  && String.eqb (IdempotencyRow.key r) key.

Definition insert_key (row : IdempotencyRow.t) (s : NetState.t) : option NetState.t :=
  let rows := NetState.net_idempotency s in
  if existsb (same_key (IdempotencyRow.subject row) (IdempotencyRow.session_id row) (IdempotencyRow.key row)) rows
     || existsb (fun r => String.eqb (IdempotencyRow.invocation_id r) (IdempotencyRow.invocation_id row)) rows
  then None else Some (NetState.with_keys s (rows ++ [row])).

Definition insert_injection (row : InjectionRow.t) (s : NetState.t) : option NetState.t :=
  let rows := NetState.secret_injection s in
  if existsb (fun r => String.eqb (InjectionRow.invocation_id r) (InjectionRow.invocation_id row)) rows
     || existsb (fun r => String.eqb (InjectionRow.subject r) (InjectionRow.subject row)
                          && String.eqb (InjectionRow.session_id r) (InjectionRow.session_id row)
                          && String.eqb (InjectionRow.key r) (InjectionRow.key row)) rows
  then None else Some (NetState.with_injections s (rows ++ [row])).

(** [UPDATE .. WHERE .. AND state = 'INTENT'] that must set one row. *)
Definition update_one {Row} (takes : Row -> bool) (set_ : Row -> Row) (what : string) (rows : list Row) :
    result (list Row) AuthorityError.t :=
  if (length (List.filter takes rows) =? 1)%nat then Ok (map (fun r => if takes r then set_ r else r) rows)
  else Err (AuthorityError.Invariant what).

Definition open_hop (invocation : string) (hop : N) (r : NetHopRow.t) : bool :=
  String.eqb (NetHopRow.invocation_id r) invocation && (NetHopRow.hop r =? hop)%N && String.eqb
    (NetHopRow.state r) "INTENT".

Definition end_hop_row (ending : HopEnding.t) (r : NetHopRow.t) : NetHopRow.t :=
  NetHopRow.Make (NetHopRow.invocation_id r) (NetHopRow.hop r) (NetHopRow.run_id r) (NetHopRow.method r)
    (NetHopRow.host r)
    (NetHopRow.port r) (NetHopRow.addresses r) (NetHopRow.injection_id r) (NetHopRow.charge_out r) (NetHopRow.charge_in r)
    (HopEnding.state ending) (Some (HopEnding.disposition ending)) (HopEnding.status ending) (HopEnding.tls ending)
    (HopEnding.bytes_sent ending) (HopEnding.bytes_received ending).

(** [state != 'COMPLETED' OR (status IS NOT NULL AND tls_established = 1)]. *)
Definition hop_ending_checked (ending : HopEnding.t) : bool :=
  negb (String.eqb (HopEnding.state ending) "COMPLETED") || (is_some (HopEnding.status ending) && HopEnding.tls ending).

Definition open_request (invocation : string) (r : NetRequestRow.t) : bool :=
  String.eqb (NetRequestRow.invocation_id r) invocation && String.eqb (NetRequestRow.state r) "INTENT".

Definition end_request_row (state : string) (failure : option string) (status hops : option N) (redirect : option string)
    (r : NetRequestRow.t) : NetRequestRow.t :=
  NetRequestRow.Make (NetRequestRow.invocation_id r) (NetRequestRow.run_id r) (NetRequestRow.method r)
    (NetRequestRow.host r)
    (NetRequestRow.port r) (NetRequestRow.credential_handle r)
      (NetRequestRow.follow_redirects r) state failure status hops
    redirect.

Definition open_injection (invocation : string) (r : InjectionRow.t) : bool :=
  String.eqb (InjectionRow.invocation_id r) invocation && String.eqb (InjectionRow.state r) "INTENT".

Definition end_injection_row (state : string) (failure : option string) (r : InjectionRow.t) : InjectionRow.t :=
  InjectionRow.Make (InjectionRow.invocation_id r) (InjectionRow.run_id r) (InjectionRow.subject r)
    (InjectionRow.session_id r) (InjectionRow.key r) (InjectionRow.handle r) (InjectionRow.revision r)
    (InjectionRow.consumer r) state failure.

(** A table's update, in a request. *)
Definition update {Row} (table : NetState.t -> list Row) (with_ : NetState.t -> list Row -> NetState.t)
    (takes : Row -> bool) (set_ : Row -> Row) (what : string) : NetM () := fun s =>
  match update_one takes set_ what (table s) with
  | Ok rows => (with_ s rows, Ok ())
  | Err e => (s, Err e)
  end.

(** * What a request is decided with *)

Module Asked.
Record t := Make {
  subject : string;
  session_id : string;
  run_id : string;
  call : NetHttpCall.t;
  key : option string
}.
End Asked.

Module Config.
Record t := Make {
  budget : NetBudget.t;
  exceptions : list Address.t;
  compiled : CompiledPolicy.t;
  secrets : list SecretMetadata.t
}.

Definition metadata (self : t) (handle : SecretHandle.t) : option SecretMetadata.t :=
  List.find (fun s => String.eqb (SecretHandle.as_str (SecretMetadata.handle s)) (SecretHandle.as_str handle))
    (secrets self).

(** [reserved_headers]. *)
Definition reserved_headers (self : t) : list string :=
  to_ascii_lowercase <$> omap SecretMetadata.header (secrets self).
End Config.

(** What one transaction reads of what other operations keep, and the
    identifiers it is given. *)
Module Reads.
Record t := Make {
  fence : bool;
  run_is_held : bool;
  key_elsewhere : bool;
  admission : list Grant.t;
  context : PolicyContext.t;
  check_use : result Z SecretError.t;
  invocation_id : string
}.
End Reads.

(** What one hop meets. *)
Module World.
Record t := Make {
  now_ms : N;
  precheck : Reads.t;
  precheck_commits : bool;
  resolve : Channel.t HttpResolveDone.t;
  resolve_commits : bool;
  intent : Reads.t;
  intent_commits : bool;
  material : result buffer SecretError.t;
  one_shot : result () SecretError.t;
  exchange : Channel.t HttpExchangeDone.t;
  settle_commits : bool
}.
End World.

Module Spent.
Record t := Make { requests : N; bytes_out : N; bytes_in : N; origins : N }.
End Spent.

(** [host || ':' || port]. *)
Definition origin_text (host : string) (port : N) : string := host +:+ ":" +:+ show_N port.
Definition row_origin (r : NetHopRow.t) : string := origin_text (NetHopRow.host r) (NetHopRow.port r).

Definition run_hops (run : string) (s : NetState.t) : list NetHopRow.t :=
  List.filter (fun r => String.eqb (NetHopRow.run_id r) run) (NetState.net_hop s).

Definition sum_of (f : NetHopRow.t -> N) (rows : list NetHopRow.t) : N := foldr N.add 0%N (f <$> rows).

(** The query of a run's hops; the store refuses a sum past an [i64]. *)
Definition spent (run : string) : NetM Spent.t := fun s =>
  let rows := run_hops run s in
  let out := sum_of NetHopRow.charge_out rows in
  let inbound := sum_of NetHopRow.charge_in rows in
  if (Z.to_N I64_MAX <? out)%N || (Z.to_N I64_MAX <? inbound)%N then (s, Err AuthorityError.Sqlite)
  else (s, Ok (Spent.Make (N.of_nat (length rows)) out inbound (N.of_nat (length (remove_dups (row_origin <$> rows)))))).

Definition reached (run host : string) (port : N) (handshake : bool) : NetM bool :=
  gets (fun s => existsb (fun r => String.eqb (NetHopRow.host r) host && (NetHopRow.port r =? port)%N
                                   && (negb handshake || NetHopRow.tls_established r)) (run_hops run s)).

Definition within (budget : NetBudget.t) (spent : Spent.t) (charges : Charges.t) (new_origin : bool) : bool :=
  (Spent.requests spent <? NetBudget.requests budget)%N
  && (saturating_add (Spent.bytes_out spent) (Charges.out charges) <=? NetBudget.bytes_out budget)%N
  && (saturating_add (Spent.bytes_in spent) (Charges.inbound charges) <=? NetBudget.bytes_in budget)%N
  && (negb new_origin || (Spent.origins spent <? NetBudget.origins budget)%N).

Module Prepared.
Record t := Make {
  handle : SecretHandle.t;
  revision : Z;
  metadata : SecretMetadata.t;
  origin : SecretOrigin.t;
  credential : HttpCredential.t
}.
End Prepared.

Module Authorised.
Record t := Make { invocation : string; prepared : Prepared.t }.
End Authorised.

(** What a hop was decided as. *)
Module Assessed.
Record t := Make {
  plan : NetPlan.t;
  prepared : option Prepared.t;
  charges : Charges.t;
  exhausted : bool;
  novelty : Novelty.t
}.
End Assessed.

Module Located.
Inductive t :=
| Refused (reason : ToolRefusalReasonV4.t)
| Denied (plan : NetPlan.t)
| Previewed (plan : NetPlan.t)
| Resolve (canonical : Canonical.t) (invocation : string).
End Located.

Module Intent.
Inductive t :=
| Refused (reason : ToolRefusalReasonV4.t)
| Denied (plan : NetPlan.t)
| Exhausted
| Recorded (plan : NetPlan.t) (injection : option Authorised.t).
End Intent.

Module RequestEnding.
Inductive t :=
| Completed (status : N) (redirect_ended : option RedirectEnd.t) (body_bytes : nat) (truncated : bool)
| Failed (reason : ToolFailureReasonV4.t)
| Unknown.
End RequestEnding.

(** A request in flight. *)
Module Chain.
Record t := Make {
  invocation : string;
  canonical : Canonical.t;
  pins : gmap string (list Address.t);
  visited : list string;
  hops : list NetHop.t;
  plan : option NetPlan.t;
  last : option Response.t;
  echoes : Hits;
  started_ms : N
}.

Definition new (invocation : string) (canonical : Canonical.t) (started_ms : N) : t :=
  Make invocation canonical ∅ [] [] None None ∅ started_ms.

Definition pin (c : t) (host : string) (addresses : list Address.t) : t :=
  Make (invocation c) (canonical c) (<[host := addresses]> (pins c)) (visited c) (hops c) (plan c) (last c) (echoes c)
    (started_ms c).

(** A hop was recorded: the first one's plan, and the URL. *)
Definition visit (c : t) (hop : HopRequest.t) (recorded : NetPlan.t) : t :=
  Make (invocation c) (canonical c) (pins c) (visited c ++ [HttpsUrl.canonical (HopRequest.url hop)]) (hops c)
    (if (HopRequest.number hop =? 1)%N then Some recorded else plan c) (last c) (echoes c) (started_ms c).

Definition echo (c : t) (more : Hits) : t :=
  Make (invocation c) (canonical c) (pins c) (visited c) (hops c) (plan c) (last c) (add_hits (echoes c) more)
    (started_ms c).

Definition push (c : t) (hop : NetHop.t) : t :=
  Make (invocation c) (canonical c) (pins c) (visited c) (hops c ++ [hop]) (plan c) (last c) (echoes c) (started_ms c).

Definition answered (c : t) (response : Response.t) : t :=
  Make (invocation c) (canonical c) (pins c) (visited c) (hops c) (plan c) (Some response) (echoes c) (started_ms c).
End Chain.

Module NetReply.
Inductive t :=
| Refused (reason : ToolRefusalReasonV4.t)
| Denied (plan : NetPlan.t)
| Previewed (plan : NetPlan.t)
| Done (invocation : string) (plan : NetPlan.t) (output : NetHttpResult.t)
| Failed (invocation : string) (reason : ToolFailureReasonV4.t).
End NetReply.

Module Step.
Inductive t := Answer (reply : NetReply.t) | Next (hop : HopRequest.t).
End Step.

Definition RESPONSE_LIMIT : N := 262144.
Definition REQUEST_DEADLINE_MS : N := 300000.

Section request.
  Context `{Hmac} (cfg : Config.t) (asked : Asked.t).

Definition limit : N :=
  match NetHttpCall.max_response_bytes
    (Asked.call asked) with Some l => N.min l RESPONSE_LIMIT | None => RESPONSE_LIMIT end.

(** * The transactions *)

Definition key_bound (reads : Reads.t) (key : string) : NetM bool :=
  gets (fun s => existsb (same_key (Asked.subject asked) (Asked.session_id asked) key) (NetState.net_idempotency s)
                 || Reads.key_elsewhere reads).

Definition standing (reads : Reads.t) (check_key : bool) : NetM (option ToolRefusalReasonV4.t) :=
  if negb (Reads.fence reads) then done (Some ToolRefusalReasonV4.StaleEpoch)
  else if negb (Reads.run_is_held reads) then done (Some ToolRefusalReasonV4.UnknownRun)
  else if check_key then
    let! key := holds (ok_or (Asked.key asked) "a version-4 invocation arrived without an idempotency key"%string) in
    let! bound := key_bound reads key in
    done (if bound then Some ToolRefusalReasonV4.IdempotencyKeyReused else None)
  else done None.

Definition refuse (hop : option HopRequest.t) (reason : ToolRefusalReasonV4.t) (detail : option string) :
    NetM ToolRefusalReasonV4.t :=
  let! _ := log (Effect.ToolRefused hop reason detail) in
  done reason.

(** [secret_use::deny]. *)
Definition secret_deny {A} (handle origin reason : string) : NetM (result A string) :=
  let! _ := log (Effect.SecretDenied handle origin reason) in
  done (Err reason).

Definition prepare (reads : Reads.t) (handle origin : string) : NetM (result Prepared.t string) :=
  match SecretHandle.new handle, SecretOrigin.new origin with
  | Some h, Some o =>
      match Endpoint.parse (SecretOrigin.as_str o) with
      | Err _ => secret_deny handle origin "MALFORMED_REQUEST"
      | Ok endpoint =>
          match Config.metadata cfg h with
          | None => secret_deny handle origin (SecretError.code SecretError.NotConfigured)
          | Some metadata =>
              match Reads.check_use reads with
              | Err error => secret_deny handle origin (SecretError.code error)
              | Ok revision =>
                  match select (Id := ()) metadata [] (Consumption.Egress endpoint) with
                  | Err error => secret_deny handle origin (SecretError.code error)
                  | Ok mode =>
                      if negb (bool_decide (mode = InjectionMode.Egress))
                      then fail (AuthorityError.Invariant "an egress use selected another mode")
                      else
                        match SecretMetadata.header metadata ≫= SecretHeaderName.new with
                        | None => secret_deny handle origin (SecretError.code SecretError.InjectionModeUnavailable)
                        | Some header_name =>
                            let header_prefix := SecretMetadata.prefix metadata ≫= SecretHeaderPrefix.new in
                            let wire_handle :=
                              then_some (wire_text 64 valid_secret_handle (SecretHandle.as_str h))
                                (SecretHandle.as_str h) in
                            let! wire_handle := holds (ok_or wire_handle "a handle does not fit the wire"%string) in
                            done (Ok (Prepared.Make h revision metadata o
                                        (HttpCredential.Make wire_handle header_name header_prefix)))
                        end
                  end
              end
          end
      end
  | _, _ => secret_deny handle origin "MALFORMED_REQUEST"
  end.

Definition facts (hop : HopRequest.t) (addresses : option (list Address.t)) (spent : Spent.t) (novelty : Novelty.t) :
    Facts.t :=
  Facts.Make (HopRequest.host hop) (HopRequest.port hop) (HopRequest.method hop) (len64 (HopRequest.body hop))
    (N.min (saturating_add (Spent.requests spent) 1) U32_MAX) novelty addresses limit.

Definition assess (reads : Reads.t) (hop : HopRequest.t) (addresses : option (list Address.t)) :
    NetM (result Assessed.t string) :=
  let run := Asked.run_id asked in
  let host := HopRequest.host hop in let port := HopRequest.port hop in
  let! prepared :=
    match NetHttpCall.credential_handle (Asked.call asked), HopRequest.credential hop with
    | Some handle, true =>
        let! prepared := prepare reads handle (origin_text host port) in
        done match prepared with Ok p => Ok (Some p) | Err detail => Err detail end
    | _, _ => done (Ok None)
    end in
  match prepared with
  | Err detail => done (Err detail)
  | Ok prepared =>
      let! spent := spent run in
      let! seen := reached run host port true in
      let novelty := if seen then Novelty.Seen else Novelty.Novel in
      let! known := reached run host port false in
      let! net := holds (decide_net (facts hop addresses spent novelty) (Reads.admission reads) (Reads.context reads)
                           (Config.compiled cfg)) in
      let! injection :=
        match prepared with
        | None => done None
        | Some p =>
            let! decided := holds (decide_injection (Prepared.handle p) host port (Reads.admission reads)
                                     (Reads.context reads) (Config.compiled cfg)) in
            done (Some decided)
        end in
      let charges := charges hop (NetAction.response_limit net) in
      done (Ok (Assessed.Make (NetPlan.Make net injection) prepared charges
                  (negb (within (Config.budget cfg) spent charges (negb known))) novelty))
  end.

(** [deny], with the injection's gates judged by [refused_by_gates]. *)
Definition deny (hop : HopRequest.t) (plan : NetPlan.t) : NetM () :=
  let! _ :=
    match NetPlan.injection plan with
    | None => done ()
    | Some injection =>
        let record := Gate.record (InjectionAction.gate injection) in
        let origin := origin_text (InjectionAction.host injection) (InjectionAction.port injection) in
        if negb (DecisionRecord.capability_satisfied record)
        then log (Effect.SecretDenied (InjectionAction.handle injection) origin "CAPABILITY_NOT_GRANTED")
        else if negb (DecisionRecord.policy_satisfied record)
        then log (Effect.SecretDenied (InjectionAction.handle injection) origin "POLICY_DENIED")
        else if negb (secret_obligations_enforced record)
        then log (Effect.SecretDenied (InjectionAction.handle injection) origin "OBLIGATION_UNENFORCEABLE")
        else done ()
    end in
  log (Effect.ToolDenied hop plan).

Definition locate (reads : Reads.t) (preview : bool) : NetM Located.t :=
  let! stands := standing reads (negb preview) in
  match stands with
  | Some reason => let! reason := refuse None reason None in done (Located.Refused reason)
  | None =>
      let! index := gets NetState.index in
      match canonicalize (Asked.call asked) (Config.reserved_headers cfg) (fun bytes => holds_value bytes index) with
      | Err reason => let! reason := refuse None reason None in done (Located.Refused reason)
      | Ok canonical =>
          let hop := HopRequest.first canonical in
          let! assessed := assess reads hop None in
          match assessed with
          | Err detail =>
              let! reason := refuse (Some hop) ToolRefusalReasonV4.CredentialUnavailable (Some detail) in
              done (Located.Refused reason)
          | Ok assessed =>
              let plan := Assessed.plan assessed in
              if preview then
                if Assessed.exhausted assessed && resolvable plan then
                  let! reason := refuse (Some hop) ToolRefusalReasonV4.BudgetExhausted None in
                  done (Located.Refused reason)
                else
                  let! _ := log (Effect.ToolPreviewed hop plan) in
                  done (Located.Previewed plan)
              else if negb (resolvable plan) then
                let! _ := deny hop plan in
                done (Located.Denied plan)
              else if Assessed.exhausted assessed then
                let! reason := refuse (Some hop) ToolRefusalReasonV4.BudgetExhausted None in
                done (Located.Refused reason)
              else done (Located.Resolve canonical (Reads.invocation_id reads))
          end
      end
  end.

Definition precheck (reads : Reads.t) (hop : HopRequest.t) : NetM (option RedirectEnd.t) :=
  let! stands := standing reads false in
  match stands with
  | Some _ => done (Some RedirectEnd.HopDenied)
  | None =>
      let! assessed := assess reads hop None in
      match assessed with
      | Err _ => done (Some RedirectEnd.HopDenied)
      | Ok assessed =>
          if negb (resolvable (Assessed.plan assessed)) then
            let! _ := log (Effect.ToolDenied hop (Assessed.plan assessed)) in
            done (Some RedirectEnd.HopDenied)
          else if Assessed.exhausted assessed then done (Some RedirectEnd.BudgetExhausted)
          else done None
      end
  end.

Definition record_resolution (invocation : string) (hop : HopRequest.t)
    (resolution : result (list Address.t) Unresolved.t) : NetM () :=
  match resolution with
  | Ok addresses => log (Effect.NetResolved invocation hop "RESOLVED" addresses)
  | Err unresolved =>
      let! _ := log (Effect.NetResolved invocation hop (Unresolved.as_str unresolved) []) in
      if (HopRequest.number hop =? 1)%N then
        let! _ := refuse (Some hop) (Unresolved.refusal unresolved) None in
        done ()
      else done ()
  end.

(** [secret_use::record_intent]. *)
Definition record_secret_intent (reads : Reads.t) (key : string) (prepared : Prepared.t) : NetM Authorised.t :=
  let invocation := Reads.invocation_id reads in
  let origin := SecretOrigin.as_str (Prepared.origin prepared) in
  let! _ := exec (insert_injection
              (InjectionRow.Make invocation (Asked.run_id asked) (Asked.subject asked) (Asked.session_id asked) key
                 (Prepared.handle prepared) (Prepared.revision prepared) origin "INTENT" None)) in
  let! _ := log (Effect.SecretIntentRecorded invocation (Prepared.handle prepared) origin key) in
  done (Authorised.Make invocation prepared).

Definition record_request (invocation : string) (canonical : Canonical.t) (hop : HopRequest.t) : NetM () :=
  let! _ := exec (insert_request
              (NetRequestRow.Make invocation (Asked.run_id asked) (HopRequest.method hop) (HopRequest.host hop)
                 (HopRequest.port hop) (Canonical.credential canonical) (Canonical.follow_redirects canonical) "INTENT"
                 None None None None)) in
  let! key := holds (ok_or (Asked.key asked) "a version-4 invocation arrived without an idempotency key"%string) in
  exec (insert_key (IdempotencyRow.Make (Asked.subject asked) (Asked.session_id asked) key invocation)).

(** [i64::try_from(v).unwrap_or(i64::MAX)]. *)
Definition column (v : N) : N := N.min v (Z.to_N I64_MAX).

Definition hop_row (invocation : string) (hop : HopRequest.t) (addresses : list Address.t) (charges : Charges.t)
    (injection : option Authorised.t) : NetHopRow.t :=
  NetHopRow.Make invocation (HopRequest.number hop) (Asked.run_id asked) (HopRequest.method hop) (HopRequest.host hop)
    (HopRequest.port hop) (NetAddress.from_address <$> take NetAddress.MAX_PINNED_ADDRESSES addresses)
    (Authorised.invocation <$> injection) (column (Charges.out charges)) (column
      (Charges.inbound charges)) "INTENT" None None
    false None None.

Definition record_hop (invocation : string) (hop : HopRequest.t) (addresses : list Address.t) (charges : Charges.t)
    (novelty : Novelty.t) (injection : option Authorised.t) (plan : NetPlan.t) : NetM () :=
  let! _ := exec (insert_hop (hop_row invocation hop addresses charges injection)) in
  log (Effect.NetIntentRecorded invocation hop addresses novelty charges (Authorised.invocation <$> injection) plan).

(** The key of a hop's credential. *)
Definition hop_key (invocation : string) (hop : HopRequest.t) : string :=
  invocation +:+ ":" +:+ show_N (HopRequest.number hop).

Definition record_intent (reads : Reads.t) (invocation : string) (canonical : Canonical.t) (hop : HopRequest.t)
    (addresses : list Address.t) : NetM Intent.t :=
  let first := (HopRequest.number hop =? 1)%N in
  (* What a first hop's refusal records. *)
  let refused reason detail :=
    if first then let! _ := refuse (Some hop) reason detail in done () else done () in
  let! stands := standing reads first in
  match stands with
  | Some reason => let! _ := refused reason None in done (Intent.Refused reason)
  | None =>
      let! assessed := assess reads hop (Some addresses) in
      match assessed with
      | Err detail =>
          let! _ := refused ToolRefusalReasonV4.CredentialUnavailable (Some detail) in
          done (Intent.Refused ToolRefusalReasonV4.CredentialUnavailable)
      | Ok (Assessed.Make plan prepared charges exhausted novelty) =>
          if negb (NetPlan.permits plan) then
            let! _ := deny hop plan in
            done (Intent.Denied plan)
          else if exhausted then
            let! _ := refused ToolRefusalReasonV4.BudgetExhausted None in
            done Intent.Exhausted
          else
            let! _ := if first then record_request invocation canonical hop else done () in
            let! injection :=
              match prepared, NetPlan.injection plan with
              | Some prepared, Some _ =>
                  let! authorised := record_secret_intent reads (hop_key invocation hop) prepared in
                  done (Some authorised)
              | None, None => done None
              | _, _ =>
                  fail (AuthorityError.Invariant
                          "a credential was prepared without its decision, or decided without preparing")
              end in
            let! _ := record_hop invocation hop addresses charges novelty injection plan in
            done (Intent.Recorded plan injection)
      end
  end.

(** [secret_use::record_outcome], with [count_use]. *)
Definition record_outcome (authorised : Authorised.t) (ending : SecretEnding.t) (resolved : bool) : NetM () :=
  let '(state, failure) :=
    match ending with
    | SecretEnding.Injected => ("INJECTED", None)
    | SecretEnding.Failed reason => ("FAILED", Some reason)
    | SecretEnding.Unknown => ("UNKNOWN", None)
    end%string in
  let invocation := Authorised.invocation authorised in
  let! _ := update NetState.secret_injection NetState.with_injections (open_injection invocation)
              (end_injection_row state failure) "a secret use was not open" in
  let! _ := if resolved then log (Effect.SecretResolved invocation) else done () in
  match ending with
  | SecretEnding.Injected =>
      let handle := SecretHandle.as_str (Prepared.handle (Authorised.prepared authorised)) in
      let! uses := gets (fun s => default 0%N (NetState.secret_use s !! handle) + 1)%N in
      let! _ := modify (fun s => NetState.with_uses s (<[handle := uses]> (NetState.secret_use s))) in
      log (Effect.SecretEnded invocation ending (Some uses))
  | _ => log (Effect.SecretEnded invocation ending None)
  end.

Definition end_hop (invocation : string) (hop : HopRequest.t) (ending : HopEnding.t)
    (secret : option (Authorised.t * SecretEnding.t * bool)) : NetM () :=
  let! _ :=
    if hop_ending_checked ending then
      update NetState.net_hop NetState.with_hops (open_hop invocation (HopRequest.number hop)) (end_hop_row ending)
        "a hop was not open"
    else fail AuthorityError.Sqlite in
  let! _ :=
    match secret with
    | Some (authorised, secret_ending, resolved) => record_outcome authorised secret_ending resolved
    | None => done ()
    end in
  let! _ :=
    if is_some (HopEnding.status ending) then log (Effect.TaintRaised (Asked.run_id asked) TaintLevel.ExternalUntrusted)
    else done () in
  log (Effect.NetHopEnded invocation (HopRequest.number hop) ending (is_some secret && HopEnding.injected ending)
         ((fun s => Prepared.handle (Authorised.prepared s.1.1)) <$> secret)).

Definition end_redirect (invocation : string) (hops : N) (why : RedirectEnd.t) : NetM () :=
  log (Effect.NetRedirectEnded invocation hops why).

(** [secrets::audit_hits]. *)
Definition audit_hits (invocation : string) (hits : Hits) : NetM () :=
  if bool_decide (hits = ∅) then done () else log (Effect.SecretRedactionHit invocation hits).

(** [hops IS NULL OR hops BETWEEN 1 AND 6], and a status an answer may have. *)
Definition request_ending_checked (hops : N) (status : option N) : bool :=
  (1 <=? hops)%N && (hops <=? 6)%N && is_none_or status (fun status => (100 <=? status)%N && (status <=? 599)%N).

Definition end_request (invocation : string) (ending : RequestEnding.t) (hops : N) (hits : Hits) : NetM () :=
  let '(state, failure, status, redirect, body) :=
    match ending with
    | RequestEnding.Completed status redirect_ended body_bytes truncated =>
        ("COMPLETED", None, Some status, RedirectEnd.as_str <$> redirect_ended, Some (body_bytes, truncated))
    | RequestEnding.Failed reason => ("FAILED", Some (ToolFailureReasonV4.as_str reason), None, None, None)
    | RequestEnding.Unknown => ("UNKNOWN", None, None, None, None)
    end%string in
  let! _ :=
    if request_ending_checked hops status then
      update NetState.net_request NetState.with_requests (open_request invocation)
        (end_request_row state failure status (Some hops) redirect) "a request was not open"
    else fail AuthorityError.Sqlite in
  let! _ := audit_hits invocation hits in
  log (Effect.NetOutcome invocation state hops failure status redirect body).

(** * A request's hops *)

(** A secret use, how it ended, and whether its value was read. *)
Definition SecretOutcome : Type := Authorised.t * SecretEnding.t * bool.

(** [net_finish]: the answer, redacted; the ended hop's outcome and the
    request's, in one transaction. *)
Definition net_finish (commits : bool) (chain : Chain.t)
    (hop : option (HopRequest.t * HopEnding.t * option SecretOutcome)) (why : option RedirectEnd.t) : NetM NetReply.t :=
  let! last := holds (ok_or (Chain.last chain) "a chain ended without a response"%string) in
  let! index := gets NetState.index in
  let! (output, hits) := holds (result_of index last (Chain.hops chain) why) in
  let hits := add_hits hits (Chain.echoes chain) in
  let! plan := holds (ok_or (Chain.plan chain) "a chain ended without a plan"%string) in
  let hops := N.min (N.of_nat (length (Chain.hops chain))) U8_MAX in
  let invocation := Chain.invocation chain in
  let! _ :=
    transact commits
      (let! _ :=
         match hop with
         | Some (hop, ending, secret) => end_hop invocation hop ending secret
         | None => done ()
         end in
       let! _ := match why with Some why => end_redirect invocation hops why | None => done () end in
       end_request invocation
         (RequestEnding.Completed (Response.status last) why (HexContent.byte_len (NetHttpResult.body output))
            (NetHttpResult.truncated output)) hops hits) in
  done (NetReply.Done invocation plan output).

Definition net_end (commits : bool) (chain : Chain.t) (why : RedirectEnd.t) : NetM Step.t :=
  let! reply := net_finish commits chain None (Some why) in
  done (Step.Answer reply).

(** [net_addresses]: the pinned addresses and the chain with its pins, or the
    step instead. *)
Definition net_addresses (world : World.t) (chain : Chain.t) (hop : HopRequest.t) :
    NetM (result (Chain.t * list Address.t) Step.t) :=
  let first := (HopRequest.number hop =? 1)%N in
  let end_ why := let! step := net_end (World.settle_commits world) chain why in done (Err step) in
  let! early :=
    if first then done None
    else if (REQUEST_DEADLINE_MS <? saturating_sub (World.now_ms world) (Chain.started_ms chain))%N
    then done (Some RedirectEnd.RequestTimeout)
    else if name_blocked (HopRequest.host hop) then done (Some RedirectEnd.AddressBlocked)
    else
      match Chain.pins chain !! HopRequest.host hop with
      | Some _ => done None
      | None => transact (World.precheck_commits world) (precheck (World.precheck world) hop)
      end in
  match early with
  | Some why => end_ why
  | None =>
      match Chain.pins chain !! HopRequest.host hop with
      | Some pinned => done (Ok (chain, pinned))
      | None =>
          let! host := holds (ok_or (EgressHost.new (HopRequest.host hop)) "a canonical host is not a host"%string) in
          let! _ := log (Effect.Resolve (Chain.invocation chain) host) in
          let resolution := judge_resolution (perform_resolve (World.resolve world)) (Config.exceptions cfg) in
          let! _ := transact (World.resolve_commits world)
                      (record_resolution (Chain.invocation chain) hop resolution) in
          match resolution with
          | Ok addresses => done (Ok (Chain.pin chain (HopRequest.host hop) addresses, addresses))
          | Err unresolved =>
              if first then done (Err (Step.Answer (NetReply.Refused (Unresolved.refusal unresolved))))
              else end_ (Unresolved.end_ unresolved)
          end
      end
  end.

Definition net_intent (world : World.t) (chain : Chain.t) (hop : HopRequest.t) (addresses : list Address.t) :
    NetM (result (NetPlan.t * option Authorised.t) Step.t) :=
  let first := (HopRequest.number hop =? 1)%N in
  let! intent := transact (World.intent_commits world)
                   (record_intent (World.intent world) (Chain.invocation chain) (Chain.canonical chain) hop addresses) in
  let refused reason := done (Err (Step.Answer (NetReply.Refused reason))) in
  let end_ why := let! step := net_end (World.settle_commits world) chain why in done (Err step) in
  match intent with
  | Intent.Recorded plan injection => done (Ok (plan, injection))
  | Intent.Refused reason => if first then refused reason else end_ RedirectEnd.HopDenied
  | Intent.Denied plan =>
      if first then done (Err (Step.Answer (NetReply.Denied plan))) else end_ RedirectEnd.HopDenied
  | Intent.Exhausted =>
      if first then refused ToolRefusalReasonV4.BudgetExhausted else end_ RedirectEnd.BudgetExhausted
  end.

(** [exchange]: how it ended, why a handover failed, and whether the value was
    read. *)
Definition exchange (world : World.t) (chain : Chain.t) (hop : HopRequest.t) (addresses : list Address.t) (limit : N)
    (injection : option Authorised.t) : NetM (Exchanged.t * option string * bool) :=
  let perform (credential : option HttpCredential.t) (secret : option buffer) (resolved : bool) :
      NetM (Exchanged.t * option string * bool) :=
    let! spec := holds (hop_spec hop addresses limit credential) in
    let '(sent, answer) := perform_exchange spec (is_some secret) (World.exchange world) in
    let! _ := match sent with Some sent => log (Effect.Exchange sent secret) | None => done () end in
    done (NetHttp.classify answer, None, resolved) in
  match injection with
  | None => perform None None false
  | Some authorised =>
      let prepared := Authorised.prepared authorised in
      let! _ := log (Effect.BackendRead (Prepared.handle prepared)) in
      match World.material world with
      | Err error => done (Exchanged.CredentialFailed, Some (SecretError.code error), false)
      | Ok material =>
          let! _ := modify (fun s => NetState.with_index s (ExactIndex.insert (NetState.index s)
            (Prepared.handle prepared) material).2) in
          let! _ := log (Effect.Registered (Prepared.handle prepared) material) in
          if negb (header_safe material)
          then done (Exchanged.CredentialFailed, Some (SecretError.code SecretError.MaterialInvalid), true)
          else
            match World.one_shot world with
            | Err error => done (Exchanged.CredentialFailed, Some (SecretError.code error), true)
            | Ok _ => perform (Some (Prepared.credential prepared)) (Some material) true
            end
      end
  end.

Definition net_settle (world : World.t) (chain : Chain.t) (hop : HopRequest.t) (exchanged : Exchanged.t)
    (secret : option SecretOutcome) (limit : N) : NetM (Chain.t * Step.t) :=
  let first := (HopRequest.number hop =? 1)%N in
  let invocation := Chain.invocation chain in
  let ending := Exchanged.hop_ending exchanged in
  let! number := holds (ok_or (HopNumber_new (HopRequest.number hop)) "a hop number"%string) in
  let! host := holds (ok_or (EgressHost.new (HopRequest.host hop)) "a canonical host"%string) in
  let! port := holds (ok_or (EgressPort.new (HopRequest.port hop)) "a port"%string) in
  let chain :=
    Chain.push chain
      (NetHop.Make number host (EgressPort.get port) (HopRequest.method hop) (HopEnding.status ending ≫= HttpStatus_new)
         (is_some secret && HopEnding.injected ending)) in
  let failure := Exchanged.failure exchanged in
  let! (chain, follows) :=
    match exchanged with
    | Exchanged.Completed done_ =>
        let! status := holds (ok_or (HttpExchangeDone.status done_) "a completed exchange without a status"%string) in
        let location := HttpExchangeDone.location done_ in
        let next :=
          next status location (HopRequest.url hop) (HopRequest.method hop)
            (Canonical.follow_redirects (Chain.canonical chain)) (HopRequest.number hop) (Chain.visited chain) in
        done (Chain.answered chain
                (Response.Make status (HttpExchangeDone.headers done_) location
                   (HexContent.to_bytes (HttpExchangeDone.body done_)) (HttpExchangeDone.truncated done_)
                   (HopRequest.url hop) limit), Some next)
    | _ => done (chain, None)
    end in
  match follows with
  | Some (Next.Hop url method) =>
      let! _ := transact (World.settle_commits world) (end_hop invocation hop ending secret) in
      done (chain, Step.Next (HopRequest.next hop (Chain.canonical chain) url method))
  | Some (Next.End why) =>
      let! reply := net_finish (World.settle_commits world) chain (Some (hop, ending, secret)) why in
      done (chain, Step.Answer reply)
  | None =>
      if negb first then
        let! reply :=
          net_finish (World.settle_commits world) chain (Some (hop, ending, secret)) (Some RedirectEnd.HopFailed) in
        done (chain, Step.Answer reply)
      else
        let! reply :=
          transact (World.settle_commits world)
            (let! _ := end_hop invocation hop ending secret in
             let! _ := end_request invocation
                         match failure with
                         | Some reason => RequestEnding.Failed reason
                         | None => RequestEnding.Unknown
                         end 1 (Chain.echoes chain) in
             done (NetReply.Failed invocation (default ToolFailureReasonV4.OutcomeUnknown failure))) in
        done (chain, Step.Answer reply)
  end.

Definition net_hop (world : World.t) (chain : Chain.t) (hop : HopRequest.t) : NetM (Chain.t * Step.t) :=
  let! addresses := net_addresses world chain hop in
  match addresses with
  | Err step => done (chain, step)
  | Ok (chain, addresses) =>
      let! recorded := net_intent world chain hop addresses in
      match recorded with
      | Err step => done (chain, step)
      | Ok (plan, injection) =>
          let chain := Chain.visit chain hop plan in
          let limit := NetAction.response_limit (NetPlan.net plan) in
          let! (exchanged, secret_failure, resolved) := exchange world chain hop addresses limit injection in
          let echoes := Exchanged.echoes exchanged in
          let chain :=
            match injection with
            | Some authorised =>
                if (0 <? echoes)%N
                then Chain.echo chain {[HitKind.Handle (Prepared.handle (Authorised.prepared authorised)) := echoes]}
                else chain
            | None => chain
            end in
          let secret := (fun a => (a, Exchanged.secret_ending exchanged secret_failure, resolved)) <$> injection in
          net_settle world chain hop exchanged secret limit
      end
  end.

(** The loop of [net_invoke]; [None] is one that has not ended. *)
Fixpoint net_loop (fuel : nat) (worlds : N ->
  World.t) (chain : Chain.t) (hop : HopRequest.t) : NetM (option NetReply.t) :=
  match fuel with
  | 0 => done None
  | S fuel =>
      let! (chain, step) := net_hop (worlds (HopRequest.number hop)) chain hop in
      match step with
      | Step.Answer reply => done (Some reply)
      | Step.Next next => net_loop fuel worlds chain next
      end
  end.

Definition net_invoke (fuel : nat) (reads : Reads.t) (commits : bool) (started_ms : N) (worlds : N -> World.t) :
    NetM (option NetReply.t) :=
  let! located := transact commits (locate reads false) in
  match located with
  | Located.Refused reason => done (Some (NetReply.Refused reason))
  | Located.Denied plan => done (Some (NetReply.Denied plan))
  | Located.Previewed _ => fail (AuthorityError.Invariant "an invocation was answered as a preview")
  | Located.Resolve canonical invocation =>
      net_loop fuel worlds (Chain.new invocation canonical started_ms) (HopRequest.first canonical)
  end.

Definition net_preview (reads : Reads.t) (commits : bool) : NetM NetReply.t :=
  let! located := transact commits (locate reads true) in
  match located with
  | Located.Refused reason => done (NetReply.Refused reason)
  | Located.Previewed plan => done (NetReply.Previewed plan)
  | _ => fail (AuthorityError.Invariant "a preview was answered as an invocation")
  end.
End request.

(** * At start *)

Fixpoint each {A} (f : A -> NetM ()) (l : list A) : NetM () :=
  match l with
  | [] => done ()
  | a :: l => let! _ := f a in each f l
  end.

(** The bodies of the two loops of [reconcile_open]. *)
Definition end_open_hop (r : NetHopRow.t) : NetM () :=
  let ending :=
    HopEnding.Make "UNKNOWN" "OUTCOME_UNKNOWN" (NetHopRow.status r) (NetHopRow.tls_established r)
      (NetHopRow.bytes_sent r) (NetHopRow.bytes_received r) false 0 0 false in
  let! _ := update NetState.net_hop NetState.with_hops (open_hop (NetHopRow.invocation_id r) (NetHopRow.hop r))
              (end_hop_row ending) "an open hop could not be ended" in
  log (Effect.Restarted (NetHopRow.invocation_id r) (Some (NetHopRow.hop r))).

Definition hops_of (invocation : string) (hops : list NetHopRow.t) : N :=
  N.of_nat (length (List.filter (fun h => String.eqb (NetHopRow.invocation_id h) invocation) hops)).

Definition end_open_request (r : NetRequestRow.t) : NetM () :=
  let invocation := NetRequestRow.invocation_id r in
  let! hops := gets (fun s => hops_of invocation (NetState.net_hop s)) in
  let! _ := update NetState.net_request NetState.with_requests (open_request invocation)
              (end_request_row "UNKNOWN" None None (then_some
                (0 <? hops)%N hops) None) "an open request could not be ended" in
  log (Effect.Restarted invocation None).

(** [net_http::reconcile_open]: what a previous incarnation left open, ended [UNKNOWN]. *)
Definition reconcile_open : NetM N :=
  let! hops := gets (fun s => List.filter (fun r => String.eqb (NetHopRow.state r) "INTENT") (NetState.net_hop s)) in
  let! _ := each end_open_hop hops in
  let! requests :=
    gets (fun s => List.filter (fun r => String.eqb (NetRequestRow.state r) "INTENT") (NetState.net_request s)) in
  let! _ := each end_open_request requests in
  done (N.of_nat (length requests)).

(** The body of the loop of [secret_use::reconcile_open]. *)
Definition end_open_injection (r : InjectionRow.t) : NetM () :=
  let invocation := InjectionRow.invocation_id r in
  let! _ := update NetState.secret_injection NetState.with_injections (open_injection invocation)
              (fun r => end_injection_row "UNKNOWN" (InjectionRow.failure r) r) "an open secret use could not be ended" in
  log (Effect.SecretRestarted invocation (InjectionRow.run_id r) (InjectionRow.handle r)).

(** [secret_use::reconcile_open]: secrets a previous incarnation may have handed over, ended [UNKNOWN]. *)
Definition reconcile_injections : NetM N :=
  let! injections :=
    gets (fun s => List.filter (fun r => String.eqb (InjectionRow.state r) "INTENT") (NetState.secret_injection s)) in
  let! _ := each end_open_injection injections in
  done (N.of_nat (length injections)).

(** The two in the order [begin_incarnation] runs them. *)
Definition reconcile : NetM (N * N) :=
  let! secret_unknown := reconcile_injections in
  let! net_unknown := reconcile_open in
  done (secret_unknown, net_unknown).
