(* ===== verification/NetTheorems.v ===== *)
(** What [net.http] promises: its URLs, what the broker accepts of what it is
    sent, what is sent and where, the budgets, how a request ends, and what its
    answer holds. *)

From Stdlib Require Import Sorted.
From stdpp Require Import gmap sorting.
From S2P Require Export NetRun RedactTheorems.

(** * Steps *)

Lemma and_then_inv {A B} (m : NetM A) (k : A -> NetM B) s s' r :
  and_then m k s = (s', r) ->
  (exists s1 a, m s = (s1, Ok a) /\ k a s1 = (s', r)) \/ (exists e, m s = (s', Err e) /\ r = Err e).
Proof. unfold and_then. destruct (m s) as [s1 [a|e]] eqn:E; [left; by exists s1, a|right; exists e; naive_solver]. Qed.

Lemma net_and_then_Ok {A B} (m : NetM A) (k : A -> NetM B) s s' b :
  and_then m k s = (s', Ok b) -> exists s1 a, m s = (s1, Ok a) /\ k a s1 = (s', Ok b).
Proof. intros [H|(e & _ & [=])]%and_then_inv. done. Qed.

Lemma transact_inv {A} commits (m : NetM A) s s' r :
  transact commits m s = (s', r) -> (exists a, m s = (s', Ok a) /\ r = Ok a) \/ s' = s /\ exists e, r = Err e.
Proof. unfold transact. destruct (m s) as [s1 [a|e]]; [destruct commits|]; naive_solver. Qed.

Lemma transact_Ok {A} commits (m : NetM A) s s' a : transact commits m s = (s', Ok a) -> m s = (s', Ok a).
Proof. intros [(b & ? & [= <-])|(_ & e & [=])]%transact_inv. done. Qed.

Lemma holds_Ok {A} (r : invariant A) s s' a : holds r s = (s', Ok a) -> s' = s /\ r = Ok a.
Proof. unfold holds. destruct r; naive_solver. Qed.

(** ** A step that keeps a relation, however it ends *)

Definition keeps {A} (R : NetState.t -> NetState.t -> Prop) (m : NetM A) : Prop := forall s, R s (m s).1.

Section keeps.
  Context (R : NetState.t -> NetState.t -> Prop) `{!PreOrder R}.

Lemma net_keeps_done {A} (a : A) : keeps R (done a).
Proof. intros s. reflexivity. Qed.

Lemma net_keeps_fail {A} e : keeps R (@fail A e).
Proof. intros s. reflexivity. Qed.

Lemma keeps_gets {A} (f : NetState.t -> A) : keeps R (gets f).
Proof. intros s. reflexivity. Qed.

Lemma keeps_holds {A} (r : invariant A) : keeps R (holds r).
Proof. intros s. reflexivity. Qed.

Lemma net_keeps_bind {A B} (m : NetM A) (k : A -> NetM B) : keeps R m -> (forall a, keeps R (k a)) ->
  keeps R (and_then m k).
Proof.
  intros Hm Hk s. unfold and_then. specialize (Hm s). destruct (m s) as [s1 [a|e]]; [|done].
  etransitivity; [exact Hm|apply Hk].
Qed.

Lemma keeps_transact {A} commits (m : NetM A) : keeps R m -> keeps R (transact commits m).
Proof. intros Hm s. unfold transact. specialize (Hm s). destruct (m s) as [s1 [a|e]]; [destruct commits|]; done. Qed.
End keeps.

Lemma keeps_run {A} R (m : NetM A) s s' r : keeps R m -> m s = (s', r) -> R s s'.
Proof. intros Hm E. specialize (Hm s). by rewrite E in Hm. Qed.

(** What operations keep, by name. *)
Create HintDb kept.

(** Takes a step apart, down to what is known of its parts. *)
Ltac keep :=
  repeat first
    [ solve [auto with kept nocore] | progress cbv zeta | apply net_keeps_done | apply net_keeps_fail | apply keeps_gets |
      apply keeps_holds
    | apply keeps_transact | apply net_keeps_bind | match goal with |- PreOrder _ => typeclasses eauto end
    | progress intros | assumption
    | match goal with |- keeps _ (match ?x with _ => _ end) => destruct x end ].

Lemma from_bytes_to_bytes bytes h : HexContent.from_bytes bytes = Some h -> HexContent.to_bytes h = bytes.
Proof.
  unfold HexContent.from_bytes, HexContent.new. destruct (wire_text _ _ _); [|done]. intros [= <-].
  unfold HexContent.to_bytes. cbn [HexContent.as_str]. by rewrite pairs_hex, list_ascii_of_string_of_list_ascii.
Qed.

(** * A step that only records *)

(** What is not: the intent of a hop, and what is asked outside. *)
Definition plain (e : Effect.t) : bool :=
  match e with
  | Effect.NetIntentRecorded _ _ _ _ _ _ _ | Effect.Resolve _ _ | Effect.BackendRead _ | Effect.Registered _ _
  | Effect.Exchange _ _ => false
  | _ => true
  end.

(** A hop's row, as its intent fixes it. *)
Definition intent_of (r : NetHopRow.t) : NetHopRow.t :=
  end_hop_row (HopEnding.Make "INTENT" "" None false None None false 0 0 false) r.

Definition intents (s : NetState.t) : list NetHopRow.t := intent_of <$> NetState.net_hop s.

Record quiet (s s' : NetState.t) : Prop := {
  quiet_hops : intents s' = intents s;
  quiet_index : NetState.index s' = NetState.index s;
  quiet_trace : exists new, NetState.trace s' = NetState.trace s ++ new /\ Forall (fun e => plain e = true) new
}.

#[export] Instance quiet_preorder : PreOrder quiet.
Proof.
  split; [intros s; split; [done|done|exists []; by rewrite app_nil_r]|].
  intros s1 s2 s3 [H1 H2 (n & H3 & H4)] [G1 G2 (n' & G3 & G4)]. split; [congruence|congruence|].
  exists (n ++ n'). rewrite G3, H3, <- app_assoc. split; [done|by apply Forall_app].
Qed.

Lemma quiet_log e : plain e = true -> keeps quiet (log e).
Proof. intros He s. split; [done|done|]. exists [e]. split; [done|by constructor]. Qed.

Lemma intent_of_end ending r : intent_of (end_hop_row ending r) = intent_of r.
Proof. done. Qed.

Lemma quiet_end_hop takes ending what : keeps quiet (update NetState.net_hop NetState.with_hops takes
  (end_hop_row ending) what).
Proof.
  intros s. unfold update, update_one. destruct (_ =? 1); [|reflexivity].
  split; [|done|exists []; by rewrite app_nil_r]. unfold intents. cbn. rewrite <- list_fmap_compose.
  apply list_fmap_ext. intros _ r _. cbn. by destruct (takes r).
Qed.

(** Any other table's update. *)
Lemma quiet_other {A} (m : NetM A) :
  (forall s, NetState.net_hop (m s).1 = NetState.net_hop s /\ NetState.index (m s).1 = NetState.index s /\
             NetState.trace (m s).1 = NetState.trace s) -> keeps quiet m.
Proof.
  intros H s. destruct (H s) as (H1 & H2 & H3). split; [unfold intents; by rewrite H1|done|].
  exists []. by rewrite app_nil_r.
Qed.

Lemma quiet_update {Row} (table : NetState.t -> list Row) with_ takes set_ what :
  (forall s rows, NetState.net_hop (with_ s rows) = NetState.net_hop s /\
    NetState.index (with_ s rows) = NetState.index s /\
                  NetState.trace (with_ s rows) = NetState.trace s) ->
  keeps quiet (update table with_ takes set_ what).
Proof. intros H. apply quiet_other. intros s. unfold update, update_one. destruct (_ =? 1); [apply H|done]. Qed.

Ltac quiet :=
  keep;
  first
    [ apply quiet_log; done
    | apply quiet_end_hop
    | apply quiet_update; done
    | apply quiet_other; intros ?; cbn; done ].

Section request.
  Context `{HM : Hmac} (cfg : Config.t) (asked : Asked.t).

Lemma standing_quiet reads check_key : keeps quiet (standing asked reads check_key).
Proof. unfold standing, key_bound. quiet. Qed.

Lemma standing_stands reads check_key s s' : standing asked reads check_key s = (s', Ok None) ->
  s' = s /\ Reads.fence reads = true /\ Reads.run_is_held reads = true.
Proof.
  unfold standing. destruct (Reads.fence reads), (Reads.run_is_held reads); cbn [negb]; try done. intros H.
  cut (s' = s); [done|]. revert H.
  destruct check_key; [|by intros [= <-]]. intros (s2 & key & [-> _]%holds_Ok & H)%net_and_then_Ok.
  by apply net_and_then_Ok in H as (s3 & b & [= <- _] & [= <- _]).
Qed.

Lemma refuse_quiet hop reason detail : keeps quiet (refuse hop reason detail).
Proof. unfold refuse. quiet. Qed.

Lemma prepare_quiet reads handle origin : keeps quiet (prepare cfg reads handle origin).
Proof. unfold prepare, secret_deny. quiet. Qed.

Lemma spent_quiet run : keeps quiet (spent run).
Proof. intros s. unfold spent. by destruct (_ || _). Qed.

#[local] Hint Resolve standing_quiet refuse_quiet prepare_quiet spent_quiet : kept.

Lemma assess_quiet reads hop addresses : keeps quiet (assess cfg asked reads hop addresses).
Proof. unfold assess, reached. quiet. Qed.

Lemma deny_quiet hop plan : keeps quiet (deny hop plan).
Proof. unfold deny. quiet. Qed.

#[local] Hint Resolve assess_quiet deny_quiet : kept.

Lemma locate_quiet reads preview : keeps quiet (locate cfg asked reads preview).
Proof. unfold locate. quiet. Qed.

Lemma precheck_quiet reads hop : keeps quiet (precheck cfg asked reads hop).
Proof. unfold precheck. quiet. Qed.

Lemma record_resolution_quiet invocation hop resolution : keeps quiet (record_resolution invocation hop resolution).
Proof. unfold record_resolution. quiet. Qed.

Lemma record_outcome_quiet authorised ending resolved : keeps quiet (record_outcome authorised ending resolved).
Proof. unfold record_outcome. destruct ending; quiet. Qed.

#[local] Hint Resolve locate_quiet precheck_quiet record_resolution_quiet record_outcome_quiet : kept.

Lemma end_hop_quiet invocation hop ending secret : keeps quiet (end_hop asked invocation hop ending secret).
Proof. unfold end_hop. quiet. Qed.

Lemma end_request_quiet invocation ending hops hits : keeps quiet (end_request invocation ending hops hits).
Proof. unfold end_request, audit_hits. destruct ending; quiet. Qed.

#[local] Hint Resolve end_hop_quiet end_request_quiet : kept.

Lemma net_finish_quiet commits chain hop why : keeps quiet (net_finish asked commits chain hop why).
Proof. unfold net_finish, end_redirect. quiet. Qed.

#[local] Hint Resolve net_finish_quiet : kept.

Lemma net_end_quiet commits chain why : keeps quiet (net_end asked commits chain why).
Proof. unfold net_end. quiet. Qed.

#[local] Hint Resolve net_end_quiet : kept.

Lemma net_settle_quiet world chain hop exchanged secret limit :
  keeps quiet (net_settle asked world chain hop exchanged secret limit).
Proof. unfold net_settle. quiet. Qed.

#[local] Hint Resolve net_settle_quiet : kept.

(** ** What a hop is decided with *)

(** A credential that the operator's metadata gives an origin. *)
Record usable (reads : Reads.t) (handle origin : string) (p : Prepared.t) : Prop := {
  usable_handle : SecretHandle.new handle = Some (Prepared.handle p);
  usable_metadata : Config.metadata cfg (Prepared.handle p) = Some (Prepared.metadata p);
  usable_live : SecretMetadata.revoked (Prepared.metadata p) = false;
  usable_mode : InjectionMode.Egress ∈ SecretMetadata.injection (Prepared.metadata p);
  usable_revision : Reads.check_use reads = Ok (Prepared.revision p);
  usable_origin : exists endpoint allowed, Endpoint.parse origin = Ok endpoint /\
    allowed ∈ SecretMetadata.origins (Prepared.metadata p) /\ Endpoint.contains allowed endpoint = true;
  usable_header : SecretMetadata.header (Prepared.metadata p)
                  = Some (SecretHeaderName.as_str (HttpCredential.header_name (Prepared.credential p)))
}.

Lemma select_egress metadata consumers origin mode :
  select (Id := ()) metadata consumers (Consumption.Egress origin) = Ok mode ->
  mode = InjectionMode.Egress /\ SecretMetadata.revoked metadata = false /\
  InjectionMode.Egress ∈ SecretMetadata.injection metadata /\
  exists allowed, allowed ∈ SecretMetadata.origins metadata /\ Endpoint.contains allowed origin = true.
Proof.
  unfold select. destruct (SecretMetadata.revoked metadata); [done|]. case_bool_decide; [|done]. cbn [negb].
  destruct (existsb _ _) eqn:E; [|done]. intros [= <-]. apply existsb_exists in E as (a & Ha%list_elem_of_In & Hc).
  naive_solver.
Qed.

Lemma prepare_Ok reads handle origin s s' p :
  prepare cfg reads handle origin s = (s', Ok (Ok p)) -> s' = s /\ usable reads handle origin p.
Proof.
  unfold prepare. destruct (SecretHandle.new handle) as [h|] eqn:Eh; [|done].
  destruct (SecretOrigin.new origin) as [o|] eqn:Eo; [|done].
  assert (SecretOrigin.as_str o = origin) as ->.
  { unfold SecretOrigin.new in Eo. destruct (wire_text _ _ _); [|done]. cbn in Eo. by injection Eo as <-. }
  destruct (Endpoint.parse origin) as [endpoint|] eqn:Ee; [|done].
  destruct (Config.metadata cfg h) as [m|] eqn:Em; [|done]. destruct (Reads.check_use reads) as [rev|] eqn:Er; [|done].
  destruct (select m [] (Consumption.Egress endpoint)) as [mode|] eqn:Es; [|done].
  apply select_egress in Es as (-> & Hr & Hi & allowed & Ha & Hc). cbn.
  destruct (SecretMetadata.header m ≫= SecretHeaderName.new) as [name|] eqn:En; [|done].
  intros (s1 & wire & [-> Hw]%holds_Ok & [= <- <-])%net_and_then_Ok. split; [done|].
  apply bind_Some in En as (text & Et & En). unfold SecretHeaderName.new in En. destruct (wire_text _ _ _); [|done].
  injection En as <-. split; cbn; try done. by exists endpoint, allowed.
Qed.

(** What a decision of a hop was made of. *)
Record assessed (reads : Reads.t) (hop : HopRequest.t) (addresses : option (list Address.t)) (s : NetState.t)
    (a : Assessed.t) (spent_ : Spent.t) : Prop := {
  assessed_spent : spent (Asked.run_id asked) s = (s, Ok spent_);
  assessed_net : decide_net (facts asked hop addresses spent_ (Assessed.novelty a)) (Reads.admission reads)
    (Reads.context reads)
                   (Config.compiled cfg) = Ok (NetPlan.net (Assessed.plan a));
  assessed_charges : Assessed.charges a = charges hop (NetAction.response_limit (NetPlan.net (Assessed.plan a)));
  assessed_within : Assessed.exhausted a = false ->
    within (Config.budget cfg) spent_ (Assessed.charges a)
      (negb (existsb (fun r => String.eqb (NetHopRow.host r) (HopRequest.host hop) &&
        (NetHopRow.port r =? HopRequest.port hop)%N)
               (run_hops (Asked.run_id asked) s))) = true;
  assessed_prepared : match Assessed.prepared a with
    | Some p => HopRequest.credential hop = true /\
        (exists handle, NetHttpCall.credential_handle (Asked.call asked) = Some handle /\
           usable reads handle (origin_text (HopRequest.host hop) (HopRequest.port hop)) p) /\
        exists i, NetPlan.injection (Assessed.plan a) = Some i /\
          decide_injection (Prepared.handle p) (HopRequest.host hop) (HopRequest.port hop) (Reads.admission reads)
            (Reads.context reads) (Config.compiled cfg) = Ok i
    | None => NetPlan.injection (Assessed.plan a) = None
    end
}.

Lemma existsb_ext' {A} (f g : A -> bool) l : (forall a, f a = g a) -> existsb f l = existsb g l.
Proof. intros E. induction l as [|a l IH]; [done|]. cbn. by rewrite E, IH. Qed.

Lemma assess_Ok reads hop addresses s s' a :
  assess cfg asked reads hop addresses s = (s', Ok (Ok a)) -> s' = s /\
    exists spent_, assessed reads hop addresses s a spent_.
Proof.
  unfold assess. intros (s1 & prepared & Hp & H)%net_and_then_Ok.
  assert (forall p, prepared = Ok p -> s1 = s /\
    match p with
    | Some p => HopRequest.credential hop = true /\
        exists handle, NetHttpCall.credential_handle (Asked.call asked) = Some handle /\
           usable reads handle (origin_text (HopRequest.host hop) (HopRequest.port hop)) p
    | None => True end) as Hprep.
  { intros p ->. destruct (NetHttpCall.credential_handle (Asked.call asked)) as [handle|] eqn:Eh;
      [destruct (HopRequest.credential hop) eqn:Ec|]; try (injection Hp as <- <-; done).
    apply net_and_then_Ok in Hp as (s2 & [q|e] & Hq & [= <- <-]). apply prepare_Ok in Hq as [-> Hq]. split; [done|].
    naive_solver. }
  clear Hp. destruct prepared as [p|e]; [|done]. destruct (Hprep p eq_refl) as [-> Hp]. clear Hprep.
  apply net_and_then_Ok in H as (s2 & sp & Hs & H).
  assert (s2 = s) as -> by (unfold spent in Hs; destruct (_ || _) in Hs; naive_solver).
  apply net_and_then_Ok in H as (s3 & seen & [= <- Eseen] & H).
  apply net_and_then_Ok in H as (s4 & known & [= <- Eknown] & H).
  apply net_and_then_Ok in H as (s5 & net & [-> Hnet]%holds_Ok & H).
  apply net_and_then_Ok in H as (s6 & inj & Hi & [= -> <-]).
  assert (s' = s /\ match p with
    | Some p => exists i, inj = Some i /\ decide_injection (Prepared.handle p) (HopRequest.host hop) (HopRequest.port hop)
         (Reads.admission reads) (Reads.context reads) (Config.compiled cfg) = Ok i
    | None => inj = None end) as [-> Hinj].
  { destruct p as [p|]; [|by injection Hi as <- <-].
    apply net_and_then_Ok in Hi as (s7 & i & [-> Hd]%holds_Ok & [= <- <-]). naive_solver. }
  split; [done|]. exists sp. split; cbn; try done.
  - intros Hx%negb_false_iff. rewrite <- Hx, <- Eknown. do 2 f_equal. apply existsb_ext'. intros r.
    by rewrite andb_true_r.
  - destruct p; naive_solver.
Qed.

(** A hop its intent allows: decided with every address, within the budgets. *)
Record allowed (reads : Reads.t) (hop : HopRequest.t) (addresses : list Address.t) (s : NetState.t) (a : Assessed.t)
    (spent_ : Spent.t) : Prop := {
  allowed_assessed : assessed reads hop (Some addresses) s a spent_;
  allowed_permits : NetPlan.permits (Assessed.plan a) = true;
  allowed_within : Assessed.exhausted a = false;
  allowed_standing : Reads.fence reads = true /\ Reads.run_is_held reads = true
}.

Lemma net_exec_Ok f s s' a : exec f s = (s', Ok a) -> f s = Some s'.
Proof. unfold exec. destruct (f s); naive_solver. Qed.

Lemma insert_hop_Some row s s' :
  insert_hop row s = Some s' ->
  s' = NetState.with_hops s (NetState.net_hop s ++ [row]) /\
  NetHopRow.hop row = next_hop s (NetHopRow.invocation_id row) /\
  (exists r, r ∈ NetState.net_request s /\ NetRequestRow.invocation_id r = NetHopRow.invocation_id row /\
     NetRequestRow.run_id r = NetHopRow.run_id row /\ NetRequestRow.state r = "INTENT"%string) /\
  (forall r, r ∈ NetState.net_hop s -> NetHopRow.invocation_id r = NetHopRow.invocation_id row ->
    NetHopRow.state r <> "INTENT"%string).
Proof.
  unfold insert_hop. destruct (_ && _) eqn:E; [|done]. intros [= <-].
  apply andb_true_iff in E as [[[[E1 _]%andb_true_iff E2]%andb_true_iff E3]%andb_true_iff _].
  split; [done|]. split; [by apply N.eqb_eq|]. split.
  - apply existsb_exists in E2 as
      (r & Hr%list_elem_of_In & [[H1%String.eqb_eq H2%String.eqb_eq]%andb_true_iff H3%String.eqb_eq]%andb_true_iff).
    by exists r.
  - intros r Hr Hi Hs. apply negb_true_iff, not_true_iff_false in E3. apply E3, existsb_exists. exists r.
    rewrite Hi, Hs, !String.eqb_refl. split; [by apply list_elem_of_In|done].
Qed.

(** Quiet, and the hops' rows untouched. *)
Definition still (s s' : NetState.t) : Prop := NetState.net_hop s' = NetState.net_hop s /\ quiet s s'.

#[local] Instance still_preorder : PreOrder still.
Proof.
  split; [by intros s; split|]. intros s1 s2 s3 [H1 H2] [G1 G2]. split; [congruence|by etransitivity].
Qed.

Lemma still_log e : plain e = true -> keeps still (log e).
Proof. intros He s. split; [done|by apply quiet_log]. Qed.

Lemma still_exec f :
  (forall s s', f s = Some s' -> NetState.net_hop s' = NetState.net_hop s /\ NetState.index s' = NetState.index s /\
                                 NetState.trace s' = NetState.trace s) -> keeps still (exec f).
Proof.
  intros H. assert (forall s, NetState.net_hop (exec f s).1 = NetState.net_hop s /\
    NetState.index (exec f s).1 = NetState.index s /\
     NetState.trace (exec f s).1 = NetState.trace s) as Hf by (intros s; unfold exec; destruct (f s) eqn:E;
       [by apply H|done]).
  intros s. split; [apply Hf|by apply quiet_other].
Qed.

Lemma record_request_still invocation canonical hop : keeps still (record_request asked invocation canonical hop).
Proof.
  unfold record_request. keep; apply still_exec; intros s s'; unfold insert_request, insert_key;
    destruct (existsb _ _); cbn [orb]; try destruct (existsb _ _); naive_solver.
Qed.

Lemma record_secret_intent_still reads key prepared : keeps still (record_secret_intent asked reads key prepared).
Proof.
  unfold record_secret_intent. keep; [|by apply still_log]. apply still_exec. intros s s'. unfold insert_injection.
  destruct (_ || _); naive_solver.
Qed.

#[local] Hint Resolve record_request_still record_secret_intent_still : kept.

(** What recording an intent leaves: the request's own tables aside, one row
    and its record, as the hop was decided. *)
Lemma record_intent_Ok reads invocation canonical hop addresses s s' intent :
  record_intent cfg asked reads invocation canonical hop addresses s = (s', Ok intent) ->
  match intent with
  | Intent.Recorded plan injection =>
      exists a spent_ s1, allowed reads hop addresses s a spent_ /\ plan = Assessed.plan a /\
        (Authorised.prepared <$> injection) = Assessed.prepared a /\
        quiet s s1 /\ NetState.net_hop s1 = NetState.net_hop s /\
        insert_hop (hop_row asked invocation hop addresses (Assessed.charges a) injection) s1
        = Some (NetState.with_hops s1 (NetState.net_hop s1 ++ [hop_row asked invocation hop addresses
          (Assessed.charges a) injection])) /\
        s' = NetState.log (NetState.with_hops s1 (NetState.net_hop s1 ++ [hop_row asked invocation hop addresses
          (Assessed.charges a) injection]))
               (Effect.NetIntentRecorded invocation hop addresses (Assessed.novelty a) (Assessed.charges a)
                  (Authorised.invocation <$> injection) plan)
  | _ => quiet s s'
  end.
Proof.
  unfold record_intent. intros H. apply net_and_then_Ok in H as (s1 & stands & Hs & H).
  pose proof (keeps_run quiet _ _ _ _ (standing_quiet _ _) Hs) as Hq1.
  destruct stands as [reason|].
  { apply net_and_then_Ok in H as (s2 & u & Hr & [= <- <-]). etransitivity; [exact Hq1|].
    eapply keeps_run; [|exact Hr]. quiet. }
  apply standing_stands in Hs as (-> & Hstand). clear Hq1. apply net_and_then_Ok in H as (s1 & assessed_ & Ha & H).
  pose proof (keeps_run quiet _ _ _ _ (assess_quiet _ _ _) Ha) as Hq1. destruct assessed_ as [a|detail].
  2: { apply net_and_then_Ok in H as (s2 & u & Hr & [= <- <-]). etransitivity; [exact Hq1|].
       eapply keeps_run; [|exact Hr].
       quiet. }
  clear Hq1. apply assess_Ok in Ha as [-> [sp Ha]]. destruct a as [plan prepared ch exhausted novelty].
  destruct (NetPlan.permits plan) eqn:Ep; cbn [negb] in H.
  2: { apply net_and_then_Ok in H as (s2 & u & Hr & [= <- <-]). eapply keeps_run; [|exact Hr]. quiet. }
  destruct exhausted.
  { apply net_and_then_Ok in H as (s2 & u & Hr & [= <- <-]). eapply keeps_run; [|exact Hr]. quiet. }
  apply net_and_then_Ok in H as (s2 & u & Hreq & H). apply net_and_then_Ok in H as (s3 & injection & Hinj & H).
  apply net_and_then_Ok in H as (s4 & u' & Hh & [= <- <-]).
  exists (Assessed.Make plan prepared ch false novelty), sp.

  assert (still s s2) as H2 by (eapply keeps_run; [|exact Hreq]; keep).
  assert (still s2 s3) as H3 by (eapply keeps_run; [|exact Hinj]; keep).
  assert (still s s3) as [Hrows Hq] by by etransitivity.
  apply net_and_then_Ok in Hh as (s5 & u'' & Hins%net_exec_Ok & [= <-]).
  pose proof (insert_hop_Some _ _ _ Hins) as (-> & _). exists s3. split_and!; try done.
  destruct prepared as [p|], (NetPlan.injection plan); cbn in Hinj; try done.
  - apply net_and_then_Ok in Hinj as (s6 & au & Hau & [= <- <-]). unfold record_secret_intent in Hau.
    apply net_and_then_Ok in Hau as (s7 & w & _ & Hau). by apply net_and_then_Ok in Hau as (s8 & w' & _ & [= <- <-]).
  - by injection Hinj as <- <-.
Qed.

(** ** What is asked outside a transaction *)

Definition asking (invocation : string) (e : Effect.t) : Prop :=
  plain e = true \/ exists host, e = Effect.Resolve invocation host.

(** Quiet, but for hosts to resolve. *)
Record asks (invocation : string) (s s' : NetState.t) : Prop := {
  asks_hops : intents s' = intents s;
  asks_index : NetState.index s' = NetState.index s;
  asks_trace : exists new, NetState.trace s' = NetState.trace s ++ new /\ Forall (asking invocation) new
}.

#[local] Instance asks_preorder invocation : PreOrder (asks invocation).
Proof.
  split; [intros s; split; [done|done|exists []; by rewrite app_nil_r]|].
  intros s1 s2 s3 [H1 H2 (n & H3 & H4)] [G1 G2 (n' & G3 & G4)]. split; [congruence|congruence|].
  exists (n ++ n'). rewrite G3, H3, <- app_assoc. split; [done|by apply Forall_app].
Qed.

Lemma quiet_asks invocation s s' : quiet s s' -> asks invocation s s'.
Proof.
  intros [H1 H2 (n & H3 & H4)]. split; [done|done|]. exists n. split; [done|].
  eapply Forall_impl; [exact H4|]. intros e He. by left.
Qed.

Lemma keeps_quiet_asks {A} invocation (m : NetM A) : keeps quiet m -> keeps (asks invocation) m.
Proof. intros Hm s. apply quiet_asks, Hm. Qed.

#[local] Hint Resolve keeps_quiet_asks : kept.

Definition pinned_ok (addresses : list Address.t) : Prop :=
  addresses <> [] /\ Forall (passes (Config.exceptions cfg)) addresses.

Lemma judge_resolution_Ok answer addresses :
  judge_resolution answer (Config.exceptions cfg) = Ok addresses -> pinned_ok addresses.
Proof.
  unfold judge_resolution. destruct answer as [d|]; [|done]. destruct (HttpResolveDone.disposition d); try done.
  destruct (judge _ _) eqn:E; try done. intros [= <-]. by apply judge_allowed in E.
Qed.

Lemma net_addresses_asks world chain hop : keeps (asks (Chain.invocation chain))
  (net_addresses cfg asked world chain hop).
Proof.
  unfold net_addresses. keep.
  match goal with |- keeps _ (log ?e) => intros s; split; [done|done|]; exists [e] end.
  split; [done|]. constructor; [|done]. right. by eexists.
Qed.

Lemma net_addresses_Ok world chain hop s s' chain' addresses :
  net_addresses cfg asked world chain hop s = (s', Ok (Ok (chain', addresses))) ->
  (forall pins_ok : string -> list Address.t -> Prop,
     (forall found, judge_resolution (perform_resolve (World.resolve world)) (Config.exceptions cfg) = Ok found ->
        pins_ok (HopRequest.host hop) found) ->
     map_Forall pins_ok (Chain.pins chain) -> pins_ok (HopRequest.host hop) addresses /\
       map_Forall pins_ok (Chain.pins chain')) /\
  (HopRequest.number hop <> 1%N -> name_blocked (HopRequest.host hop) = false) /\
  exists pins, chain' = Chain.Make (Chain.invocation chain) (Chain.canonical chain) pins (Chain.visited chain)
    (Chain.hops chain) (Chain.plan chain) (Chain.last chain) (Chain.echoes chain) (Chain.started_ms chain).
Proof.
  unfold net_addresses. intros (s1 & early & He & H)%net_and_then_Ok.
  assert (early = None -> HopRequest.number hop <> 1%N -> name_blocked (HopRequest.host hop) = false) as Hname.
  { intros -> Hn. rewrite (proj2 (N.eqb_neq _ _) Hn) in He. destruct (_ <? _)%N; [done|]. by destruct (name_blocked _). }
  clear He. destruct early as [why|]. { by apply net_and_then_Ok in H as (s2 & st & _ & [= _ ]). }
  destruct (Chain.pins chain !! HopRequest.host hop) as [pinned|] eqn:Ep.
  { injection H as <- <- <-. split_and!; [|by apply Hname|by destruct chain; eexists]. intros ok _ Hpins.
    split; [exact (Hpins _ _ Ep)|done]. }
  apply net_and_then_Ok in H as (s2 & host & _ & H). apply net_and_then_Ok in H as (s3 & u & _ & H).
  apply net_and_then_Ok in H as (s4 & u' & _ & H). destruct (judge_resolution _ _) as [a|e] eqn:Ej.
  - injection H as <- <- <-. split_and!; [|by apply Hname|by eexists]. intros ok Hnew Hpins. split; [by apply Hnew|].
    apply map_Forall_insert_2; [by apply Hnew|done].
  - destruct (HopRequest.number hop =? 1)%N; [by injection H|]. by apply net_and_then_Ok in H as (s5 & st & _ & [= _]).
Qed.

Definition credential_of (injection : option Authorised.t) : option HttpCredential.t :=
  (fun a => Prepared.credential (Authorised.prepared a)) <$> injection.

(** What a credential's handing over asks, and what the return path learns. *)
Inductive handed (world : World.t) :
    option Authorised.t -> ExactIndex.t -> ExactIndex.t -> list Effect.t -> option buffer -> Prop :=
| handed_none index : handed world None index index [] None
| handed_unread a index :
    handed world (Some a) index index [Effect.BackendRead (Prepared.handle (Authorised.prepared a))] None
| handed_read a index value :
    World.material world = Ok value ->
    let handle := Prepared.handle (Authorised.prepared a) in
    handed world (Some a) index (ExactIndex.insert index handle value).2 [Effect.BackendRead handle;
      Effect.Registered handle value]
      (if header_safe value then Some value else None).

(** What is sent, if anything is: the hop, as the broker accepts it. *)
Inductive sent_of (hop : HopRequest.t) (addresses : list Address.t) (limit : N) (injection : option Authorised.t)
    (value : option buffer) : list Effect.t -> Prop :=
| sent_nothing : sent_of hop addresses limit injection value []
| sent_hop common spec : hop_spec hop addresses limit (credential_of injection) = Ok spec ->
    check_exchange (HttpExchangeAuthorisation.new common spec) = Ok () -> is_some value = is_some injection ->
    sent_of hop addresses limit injection value [Effect.Exchange (HttpExchangeAuthorisation.new common spec) value].

Lemma perform_exchange_sent spec secret channel sent answer :
  perform_exchange spec secret channel = (Some sent, answer) ->
  exists common, sent = HttpExchangeAuthorisation.new common spec /\ check_exchange sent = Ok ().
Proof.
  unfold perform_exchange. destruct (negb _).
  - destruct channel; done.
  - destruct channel as [f|c f|c w|c w|c d]; try done;
      destruct (check_exchange (HttpExchangeAuthorisation.new c spec)) as [[]|] eqn:E;
      try done; intros [= <- _]; by exists c.
Qed.

(** The order to the broker, once the credential is in hand. *)
Lemma perform_shape world hop addresses limit (injection : option Authorised.t) value resolved s s' r :
  is_some value = is_some injection ->
  (let! spec := holds (hop_spec hop addresses limit (credential_of injection)) in
   let '(sent, answer) := perform_exchange spec (is_some value) (World.exchange world) in
   let! _ := match sent with Some sent => log (Effect.Exchange sent value) | None => done () end in
   done (NetHttp.classify answer, None (A := string), resolved : bool)) s = (s', r) ->
  NetState.net_hop s' = NetState.net_hop s /\ NetState.index s' = NetState.index s /\
  exists sent, NetState.trace s' = NetState.trace s ++ sent /\ sent_of hop addresses limit injection value sent.
Proof.
  intros Hv [(s1 & spec & [-> Hs]%holds_Ok & H)|(e & He & ->)]%and_then_inv.
  - destruct (perform_exchange spec (is_some value) (World.exchange world)) as [[sent|] answer] eqn:Ep.
    + injection H as <- <-. apply perform_exchange_sent in Ep as (common & -> & Hc). split; [done|]. split; [done|].
      eexists. split; [done|]. by constructor.
    + injection H as <- <-. split; [done|]. split; [done|]. exists []. split; [by rewrite app_nil_r|constructor].
  - unfold holds in He. injection He as <- _. split; [done|]. split; [done|]. exists [].
    split; [by rewrite app_nil_r|constructor].
Qed.

Lemma exchange_shape world chain hop addresses limit injection s s' r :
  exchange world chain hop addresses limit injection s = (s', r) ->
  NetState.net_hop s' = NetState.net_hop s /\
  exists mid value sent, NetState.trace s' = NetState.trace s ++ mid ++ sent /\
    handed world injection (NetState.index s) (NetState.index s') mid value /\
      sent_of hop addresses limit injection value sent.
Proof.
  unfold exchange. destruct injection as [a|].
  - set (handle := Prepared.handle (Authorised.prepared a)). cbv zeta.
    intros [(s1 & u & [= <- _] & H)|(e & [=] & _)]%and_then_inv.
    destruct (World.material world) as [material|error] eqn:Em.
    2: { injection H as <- <-. split; [done|]. exists [Effect.BackendRead handle], None, []. split; [done|].
         split; constructor. }
    apply and_then_inv in H as [(s2 & u' & [= <- _] & H)|(e & [=] & _)].
    apply and_then_inv in H as [(s3 & u'' & [= <- _] & H)|(e & [=] & _)].
    set (mid := [Effect.BackendRead handle; Effect.Registered handle material]).
    assert (handed world (Some a) (NetState.index s) (ExactIndex.insert (NetState.index s) handle material).2 mid
              (if header_safe material then Some material else None)) as Hh by by apply handed_read.
    assert (forall l, ((NetState.trace s ++ [Effect.BackendRead handle]) ++ [Effect.Registered handle material]) ++ l
                      = NetState.trace s ++ mid ++ l) as Et by (intros l; by rewrite <- !app_assoc).
    destruct (header_safe material); cbn [negb] in H.
    2: { injection H as <- <-. split; [done|]. exists mid, None, []. rewrite <- Et, app_nil_r. split; [done|].
         split; [exact Hh|constructor]. }
    destruct (World.one_shot world) as [w|error].
    2: { injection H as <- <-. split; [done|]. exists mid, (Some material), []. rewrite <- Et, app_nil_r.
         split; [done|]. split; [exact Hh|constructor]. }
    apply (perform_shape world hop addresses limit (Some a) (Some material)) in H as (H1 & H2 & sent & H3 & H4); [|done].
    split; [exact H1|]. exists mid, (Some material), sent. rewrite H3, H2.
    cbn [NetState.trace NetState.log NetState.with_index NetState.index].
    rewrite Et. done.
  - intros (H1 & H2 & sent & H3 & H4)%(perform_shape world hop addresses limit None None); [|done].
    split; [exact H1|]. exists [], None, sent. rewrite H2. split; [exact H3|]. split; [constructor|done].
Qed.

(** ** A request's hops, and the trace they leave *)

Section worlds.
  Context (worlds : N -> World.t).

(** The addresses a host has been given: a resolution's, whose every address
    passes the guard. *)
Definition answered_for (hops : list HopRequest.t) (host : string) (addresses : list Address.t) : Prop :=
  exists h, h ∈ hops /\ HopRequest.host h = host /\
    judge_resolution (perform_resolve (World.resolve (worlds (HopRequest.number h))))
      (Config.exceptions cfg) = Ok addresses.

(** What a hop is sent on: a name and addresses that pass the guard, and a
    decision with every one of them. *)
Record granted_hop (hops : list HopRequest.t) (hop : HopRequest.t) (addresses : list Address.t) (plan : NetPlan.t)
    (injection : option Authorised.t) (ch : Charges.t) : Prop := {
  hop_resolved : answered_for hops (HopRequest.host hop) addresses;
  hop_named : name_blocked (HopRequest.host hop) = false;
  hop_decided : exists s a spent_, allowed (World.intent (worlds (HopRequest.number hop))) hop addresses s a spent_ /\
    plan = Assessed.plan a /\ Authorised.prepared <$> injection = Assessed.prepared a /\ ch = Assessed.charges a
}.

Inductive chronicle (invocation : string) : list HopRequest.t -> list Effect.t -> Prop :=
| chronicle_nil : chronicle invocation [] []
| chronicle_asking hops t e : chronicle invocation hops t -> asking invocation e -> chronicle invocation hops (t ++ [e])
| chronicle_hop hops t hop addresses plan injection novelty ch index index' mid value sent :
    chronicle invocation hops t -> granted_hop (hops ++ [hop]) hop addresses plan injection ch ->
    handed (worlds (HopRequest.number hop)) injection index index' mid value ->
    sent_of hop addresses (NetAction.response_limit (NetPlan.net plan)) injection value sent ->
    chronicle invocation (hops ++ [hop])
      (t ++ Effect.NetIntentRecorded invocation hop addresses novelty ch
        (Authorised.invocation <$> injection) plan :: mid ++ sent).

Lemma chronicle_asks invocation hops t new :
  chronicle invocation hops t -> Forall (asking invocation) new -> chronicle invocation hops (t ++ new).
Proof.
  intros Ht Hn. revert t Ht. induction Hn as [|e new He _ IH]; intros t Ht; [by rewrite app_nil_r|].
  change (e :: new) with ([e] ++ new). rewrite app_assoc. by apply IH, chronicle_asking.
Qed.

Lemma chronicle_quiet invocation hops t new :
  chronicle invocation hops t -> Forall (fun e => plain e = true) new -> chronicle invocation hops (t ++ new).
Proof. intros Ht Hn. apply chronicle_asks; [done|]. eapply Forall_impl; [exact Hn|]. intros e He. by left. Qed.

(** The hops of a request, in order: each URL once, numbered from one. *)
Record itinerary (canonical : Canonical.t) (hops : list HopRequest.t) : Prop := {
  itinerary_once : NoDup ((fun h => HttpsUrl.canonical (HopRequest.url h)) <$> hops);
  itinerary_numbers : HopRequest.number <$> hops = N.of_nat <$> seq 1 (length hops);
  itinerary_hops : Forall (hop_of canonical) hops
}.

Record chain_ok (canonical : Canonical.t) (chain : Chain.t) (hop : HopRequest.t) (hops : list HopRequest.t) : Prop := {
  chain_canonical : Chain.canonical chain = canonical;
  chain_pins : map_Forall (answered_for hops) (Chain.pins chain);
  chain_hop : hop_of canonical hop;
  chain_visited : Chain.visited chain = (fun h => HttpsUrl.canonical (HopRequest.url h)) <$> hops;
  chain_fresh : HttpsUrl.canonical (HopRequest.url hop) ∉ Chain.visited chain;
  chain_number : HopRequest.number hop = N.of_nat (S (length hops));
  chain_itinerary : itinerary canonical hops
}.

Lemma itinerary_snoc canonical chain hop hops : chain_ok canonical chain hop hops -> itinerary canonical (hops ++ [hop]).
Proof.
  intros [_ _ Hh Hv Hf Hn [H1 H2 H3]]. rewrite Hv in Hf. split.
  - rewrite fmap_app. apply NoDup_app. split_and!; [done| |apply NoDup_singleton].
    intros x Hx ->%list_elem_of_singleton. done.
  - rewrite fmap_app, H2, length_app, Nat.add_comm. cbn [length Nat.add]. rewrite seq_S, fmap_app. cbn. by rewrite Hn.
  - apply Forall_app. split; [done|]. by constructor.
Qed.

Lemma net_settle_Next world chain hop exchanged secret limit s s' chain' hop' :
  net_settle asked world chain hop exchanged secret limit s = (s', Ok (chain', Step.Next hop')) ->
  (exists status location url method,
     next status location (HopRequest.url hop) (HopRequest.method hop) (Canonical.follow_redirects
       (Chain.canonical chain))
       (HopRequest.number hop) (Chain.visited chain) = Next.Hop url method /\
     hop' = HopRequest.next hop (Chain.canonical chain) url method) /\
  Chain.canonical chain' = Chain.canonical chain /\ Chain.invocation chain' = Chain.invocation chain /\
  Chain.pins chain' = Chain.pins chain /\ Chain.visited chain' = Chain.visited chain.
Proof.
  unfold net_settle. intros (s1 & number & _ & H)%net_and_then_Ok. apply net_and_then_Ok in H as (s2 & host & _ & H).
  apply net_and_then_Ok in H as (s3 & port & _ & H). apply net_and_then_Ok in H as (s4 & [c f] & Hf & H).
  destruct exchanged as [d| | | | |]; try (injection Hf as <- <- <-; destruct (negb _);
    apply net_and_then_Ok in H as (s5 & x & _ & [=])).
  apply net_and_then_Ok in Hf as (s5 & status & _ & [= <- <- <-]). cbn [Chain.visited Chain.push Chain.canonical] in H.
  destruct (next _ _ _ _ _ _ _) as [url method|why] eqn:En.
  - apply net_and_then_Ok in H as (s6 & u & _ & [= <- <- <-]). split; [|done].
    by exists status, (HttpExchangeDone.location d), url, method.
  - apply net_and_then_Ok in H as (s6 & reply & _ & [=]).
Qed.

Lemma hop_of_number c hop : hop_of c hop -> (1 <= HopRequest.number hop <= MAX_HOPS)%N.
Proof.
  induction 1 as [|hop status location visited url method _ IH Hn]; [done|].
  apply next_Hop in Hn as (_ & _ & _ & _ & _ & _ & Hl & _). cbn. unfold U8_MAX, MAX_HOPS, MAX_REDIRECTS in *. lia.
Qed.

Lemma hop_of_one c hop : hop_of c hop -> HopRequest.number hop = 1%N -> hop = HopRequest.first c.
Proof.
  intros [|hop' status location visited url method H Hn]; [done|]. apply hop_of_number in H. cbn. unfold U8_MAX. lia.
Qed.

(** A step taken instead of a hop's is an answer. *)
Lemma net_end_answers {A} commits chain why s s' (step : result A Step.t) :
  (let! step := net_end asked commits chain why in done (Err step)) s = (s', Ok step) ->
  exists reply, step = Err (Step.Answer reply).
Proof.
  intros (s1 & st & H & [= _ <-])%net_and_then_Ok. apply net_and_then_Ok in H as (s2 & reply & _ & [= _ <-]).
  by exists reply.
Qed.

Lemma net_addresses_Err world chain hop s s' step :
  net_addresses cfg asked world chain hop s = (s', Ok (Err step)) -> exists reply, step = Step.Answer reply.
Proof.
  unfold net_addresses. intros (s1 & early & _ & H)%net_and_then_Ok. destruct early as [why|].
  { apply net_end_answers in H as [reply [= ->]]. by exists reply. }
  destruct (Chain.pins chain !! HopRequest.host hop); [done|].
  apply net_and_then_Ok in H as (s2 & host & _ & H). apply net_and_then_Ok in H as (s3 & u & _ & H).
  apply net_and_then_Ok in H as (s4 & u' & _ & H). destruct (judge_resolution _ _) as [a|e]; [done|].
  destruct (HopRequest.number hop =? 1)%N; [injection H as _ <-; by eexists|].
  apply net_end_answers in H as [reply [= ->]]. by exists reply.
Qed.

Lemma net_intent_inv world chain hop addresses s s' r :
  net_intent cfg asked world chain hop addresses s = (s', r) ->
  (exists plan injection, r = Ok (Ok (plan, injection)) /\
     record_intent cfg asked (World.intent world) (Chain.invocation chain) (Chain.canonical chain) hop addresses s
     = (s', Ok (Intent.Recorded plan injection))) \/
  quiet s s' /\ forall x, r = Ok x -> exists reply, x = Err (Step.Answer reply).
Proof.
  unfold net_intent. intros [(s1 & intent & Hi%transact_Ok & H)|(e & He%transact_inv & ->)]%and_then_inv.
  2: { destruct He as [(a & _ & [=])|[-> _]]. right. split; [reflexivity|done]. }
  apply record_intent_Ok in Hi as Hq.
  assert (forall why, (let! step := net_end asked (World.settle_commits world) chain why in done (Err step)) s1 = (s',
    r) ->
     quiet s1 s' /\ forall x : result (NetPlan.t * option Authorised.t) Step.t, r = Ok x ->
       exists reply, x = Err (Step.Answer reply)) as Hend.
  { intros why E. split; [eapply keeps_run; [|exact E]; keep|]. intros x ->. by eapply net_end_answers. }
  destruct intent as [reason|plan| |plan injection].
  4: { injection H as <- <-. left. by exists plan, injection. }
  all: right; destruct (HopRequest.number hop =? 1)%N; [injection H as <- <-; split; [done|]; intros x [= <-];
         by eexists|].
  all: apply Hend in H as [H1 H2]; split; [by etransitivity|done].
Qed.

(** What the first answer leaves of a hop: nothing is sent. *)
Lemma net_hop_chronicle canonical chain hop hops t0 t s s' r :
  net_hop cfg asked (worlds (HopRequest.number hop)) chain hop s = (s', r) -> chain_ok canonical chain hop hops ->
  name_blocked (Origin.host (HttpsUrl.origin (Canonical.url canonical))) = false ->
  NetState.trace s = t0 ++ t -> chronicle (Chain.invocation chain) hops t ->
  exists hops' t', NetState.trace s' = t0 ++ t' /\ chronicle (Chain.invocation chain) hops' t' /\
    itinerary canonical hops' /\
    forall chain' hop', r = Ok (chain', Step.Next hop') ->
      chain_ok canonical chain' hop' hops' /\ Chain.invocation chain' = Chain.invocation chain /\ hops' = hops ++ [hop].
Proof.
  set (world := worlds (HopRequest.number hop)). intros H Hok Hname Ht Hc.
  pose proof (chain_itinerary _ _ _ _ Hok) as Hit. unfold net_hop in H.
  assert (forall s1, asks (Chain.invocation chain) s s1 -> exists t1, NetState.trace s1 = t0 ++ t1 /\
            chronicle (Chain.invocation chain) hops t1) as Hasks.
  { intros s1 [_ _ (n & Hn & Hf)]. exists (t ++ n). rewrite Hn, Ht, app_assoc. split; [done|by apply chronicle_asks]. }
  apply and_then_inv in H as [(s1 & ad & Ha & H)|(e & Ha & ->)].
  2: { apply (keeps_run _ _ _ _ _ (net_addresses_asks world chain hop)), Hasks in Ha as (t1 & H1 & H2).
       by exists hops, t1. }
  pose proof (keeps_run _ _ _ _ _ (net_addresses_asks world chain hop) Ha) as Hq1.
  destruct ad as [[chain1 addresses]|step].
  2: { apply net_addresses_Err in Ha as [reply ->]. injection H as <- <-. apply Hasks in Hq1 as (t1 & H1 & H2).
       exists hops, t1. by split_and!. }
  apply net_addresses_Ok in Ha as (Hpins & Hnm & pins & ->).
  destruct (Hpins (answered_for (hops ++ [hop]))) as [Had Hpins1]; clear Hpins.
  { intros found Hf. exists hop. split_and!; [set_solver|done|exact Hf]. }
  { intros h found (h' & Hh & ?)%(chain_pins _ _ _ _ Hok). exists h'. split; [set_solver|done]. }
  apply and_then_inv in H as [(s2 & recorded & Hi & H)|(e & Hi & ->)].
  2: { apply net_intent_inv in Hi as [(? & ? & [=] & _)|[Hq _]]. apply (quiet_asks (Chain.invocation chain)) in Hq.
       apply (transitivity Hq1), Hasks in Hq as (t1 & H1 & H2). by exists hops, t1. }
  apply net_intent_inv in Hi as [(plan & injection & [= ->] & Hi)|[Hq Hr]].
  2: { destruct (Hr _ eq_refl) as [reply ->]. injection H as <- <-. apply (quiet_asks (Chain.invocation chain)) in Hq.
       apply (transitivity Hq1), Hasks in Hq as (t1 & H1 & H2). by exists hops, t1. }
  pose proof (record_intent_Ok _ _ _ _ _ _ _ _ Hi) as (a & sp & s3 & Hal & -> & Hprep & Hq & _ & _ & ->). clear Hi.
  cbn [Chain.invocation Chain.canonical] in *. apply (quiet_asks (Chain.invocation chain)) in Hq.
  apply (transitivity Hq1), Hasks in Hq as (t1 & H1 & H2). set (plan := Assessed.plan a) in *.
  set (row := hop_row _ _ _ _ _ _) in H. set (s2 := NetState.log _ _) in H.
  assert (granted_hop (hops ++ [hop]) hop addresses plan injection (Assessed.charges a)) as Hg.
  { split; [done| |by exists s1, a, sp]. destruct (decide (HopRequest.number hop = 1%N)) as [H1n|]; [|by apply Hnm].
    by rewrite (hop_of_one _ _ (chain_hop _ _ _ _ Hok) H1n). }
  assert (forall s4 mid value sent, handed world injection (NetState.index s2) (NetState.index s4) mid value ->
     sent_of hop addresses (NetAction.response_limit (NetPlan.net plan)) injection value sent ->
     NetState.trace s4 = NetState.trace s2 ++ mid ++ sent ->
     exists t4, NetState.trace s4 = t0 ++ t4 /\ chronicle (Chain.invocation chain) (hops ++ [hop]) t4) as Hmade.
  { intros s4 mid value sent Hh Hs E. eexists. split; [|eapply (chronicle_hop _ _ _ _ _ _ _ _ _ _ _ _ _ _ H2 Hg Hh Hs)].
    rewrite E. unfold s2. cbn. by rewrite H1, <- !app_assoc. }
  apply and_then_inv in H as [(s4 & [[ex sf] res] & He & H)|(e & He & ->)];
    apply exchange_shape in He as (_ & mid & value & sent & Ht4 & Hh & Hsent);
    destruct (Hmade _ _ _ _ Hh Hsent Ht4) as (t4 & Ht4' & Hc4); clear Hmade.
  2: { exists (hops ++ [hop]), t4. split_and!; [done|done|by eapply itinerary_snoc|done]. }
  pose proof (keeps_run _ _ _ _ _ (net_settle_quiet _ _ _ _ _ _) H) as [_ _ (n & Hn & Hf)].
  exists (hops ++ [hop]), (t4 ++ n). split_and!;
    [by rewrite Hn, Ht4', app_assoc|by apply chronicle_quiet|by eapply itinerary_snoc|].
  intros chain' hop' ->. apply net_settle_Next in H as
    ((status & location & url & method & Hnext & ->) & H5 & H6 & H7 & H8).
  set (chain2 := match injection with Some _ => _ | None => _ end) in *.
  assert (Chain.canonical chain2 = Chain.canonical chain /\ Chain.invocation chain2 = Chain.invocation chain /\
          Chain.pins chain2 = pins /\ Chain.visited chain2 = Chain.visited chain ++ [HttpsUrl.canonical
            (HopRequest.url hop)])
    as (E1 & E2 & E3 & E4) by (unfold chain2; destruct injection; [destruct (_ <? _)%N|]; done).
  rewrite E1, E4, (chain_canonical _ _ _ _ Hok) in *. clearbody chain2.
  split; [|split; [congruence|done]]. pose proof (proj1 (next_Hop _ _ _ _ _ _ _ _ _) Hnext) as
    (ref & _ & _ & _ & _ & _ & Hlt & Hfr).
  split.
  - congruence.
  - by rewrite H7, E3.
  - eapply hop_of_next; [apply (chain_hop _ _ _ _ Hok)|exact Hnext].
  - rewrite H8, fmap_app, (chain_visited _ _ _ _ Hok). done.
  - rewrite H8. done.
  - cbn. rewrite (chain_number _ _ _ _ Hok) in *. rewrite length_app. cbn [length].
    unfold MAX_HOPS, MAX_REDIRECTS, U8_MAX in *. lia.
  - by eapply itinerary_snoc.
Qed.

Lemma net_loop_chronicle canonical fuel chain hop hops t0 t s s' r :
  net_loop cfg asked fuel worlds chain hop s = (s', r) -> chain_ok canonical chain hop hops ->
  name_blocked (Origin.host (HttpsUrl.origin (Canonical.url canonical))) = false ->
  NetState.trace s = t0 ++ t -> chronicle (Chain.invocation chain) hops t ->
  exists hops' t', NetState.trace s' = t0 ++ t' /\ chronicle (Chain.invocation chain) hops' t' /\
    itinerary canonical hops'.
Proof.
  revert chain hop hops t s. induction fuel as [|fuel IH]; intros chain hop hops t s H Hok Hn Ht Hc.
  { injection H as <- <-. exists hops, t. split_and!; [done|done|apply (chain_itinerary _ _ _ _ Hok)]. }
  cbn [net_loop] in H. apply and_then_inv in H as [(s1 & [chain1 step] & Hh & H)|(e & Hh & ->)];
    pose proof (net_hop_chronicle _ _ _ _ _ _ _ _ _ Hh Hok Hn Ht Hc) as (hops1 & t1 & H1 & H2 & H3 & H4).
  2: { by exists hops1, t1. }
  destruct step as [reply|hop1]; [injection H as <- <-; by exists hops1, t1|].
  destruct (H4 _ _ eq_refl) as (Hok1 & Hi & _). rewrite <- Hi in *. by eapply IH.
Qed.

(** The hops left bound the loop: more fuel changes nothing. *)
Lemma net_loop_ends canonical fuel chain hop hops s :
  chain_ok canonical chain hop hops ->
  name_blocked (Origin.host (HttpsUrl.origin (Canonical.url canonical))) = false ->
  (exists t0 t, NetState.trace s = t0 ++ t /\ chronicle (Chain.invocation chain) hops t) ->
  (MAX_HOPS < N.of_nat fuel + HopRequest.number hop)%N ->
  (net_loop cfg asked fuel worlds chain hop s).2 <> Ok None /\
  net_loop cfg asked (S fuel) worlds chain hop s = net_loop cfg asked fuel worlds chain hop s.
Proof.
  revert chain hop hops s. induction fuel as [|fuel IH]; intros chain hop hops s Hok Hn (t0 & t & Ht & Hc) Hf.
  { pose proof (hop_of_number _ _ (chain_hop _ _ _ _ Hok)). lia. }
  change (net_loop cfg asked (S (S fuel)) worlds chain hop) with
    (and_then (net_hop cfg asked (worlds (HopRequest.number hop)) chain hop) (fun '(chain, step) =>
       match step with Step.Answer reply => done (Some reply) | Step.Next next => net_loop cfg asked
         (S fuel) worlds chain next end)).
  change (net_loop cfg asked (S fuel) worlds chain hop) with
    (and_then (net_hop cfg asked (worlds (HopRequest.number hop)) chain hop) (fun '(chain, step) =>
       match step with Step.Answer reply => done
         (Some reply) | Step.Next next => net_loop cfg asked fuel worlds chain next end)).
  unfold and_then. destruct (net_hop cfg asked _ chain hop s) as [s1 [[chain1 step]|e]] eqn:Eh; [|done].
  destruct step as [reply|hop1]; [done|].
  pose proof (net_hop_chronicle _ _ _ _ _ _ _ _ _ Eh Hok Hn Ht Hc) as (hops1 & t1 & H1 & H2 & _ & H4).
  destruct (H4 _ _ eq_refl) as (Hok1 & Hi & ->). rewrite <- Hi in *.
  apply (IH chain1 hop1 (hops ++ [hop]) s1 Hok1 Hn); [by exists t0, t1|].
  pose proof (chain_number _ _ _ _ Hok1) as N1. pose proof (chain_number _ _ _ _ Hok) as N0.
  rewrite length_app in N1. cbn [length] in N1. lia.
Qed.

Lemma locate_Resolve reads s s' canonical invocation :
  locate cfg asked reads false s = (s', Ok (Located.Resolve canonical invocation)) ->
  NetState.trace s' = NetState.trace s /\ invocation = Reads.invocation_id reads /\
  canonicalize (Asked.call asked) (Config.reserved_headers cfg) (fun bytes => holds_value bytes
    (NetState.index s)) = Ok canonical.
Proof.
  unfold locate. intros (s1 & stands & Hs & H)%net_and_then_Ok. destruct stands as [reason|].
  { by apply net_and_then_Ok in H as (s2 & r & _ & [=]). }
  apply standing_stands in Hs as (-> & _).
  apply net_and_then_Ok in H as (s2 & index & [= <- <-] & H).
  destruct (canonicalize _ _ _) as [c|reason]; [|by apply net_and_then_Ok in H as (s2 & r & _ & [=])].
  apply net_and_then_Ok in H as (s2 & assessed_ & Ha & H).
  destruct assessed_ as [a|detail]; [|by apply net_and_then_Ok in H as (s3 & r & _ & [=])].
  apply assess_Ok in Ha as [-> _]. destruct (negb (resolvable _)); [by apply net_and_then_Ok in H as (s3 & r & _ & [=])|].
  destruct (Assessed.exhausted a); [by apply net_and_then_Ok in H as (s3 & r & _ & [=])|]. by injection H as <- <- <-.
Qed.

Lemma first_chain_ok reserved holds_secret canonical invocation started :
  canonicalize (Asked.call asked) reserved holds_secret = Ok canonical ->
  chain_ok canonical (Chain.new invocation canonical started) (HopRequest.first canonical) [] /\
  name_blocked (Origin.host (HttpsUrl.origin (Canonical.url canonical))) = false.
Proof.
  intros (url & _ & Hn & _ & _ & _ & ->)%canonicalize_Ok. split; [|done].
  split; try done; [constructor|set_solver|]. split; constructor.
Qed.

(** The trace of a request: what its call, canonical, made of its hops. *)
Lemma net_invoke_chronicle fuel reads commits started s s' r :
  net_invoke cfg asked fuel reads commits started worlds s = (s', r) ->
  exists t, NetState.trace s' = NetState.trace s ++ t /\
    (Forall (fun e => plain e = true) t \/
     exists canonical hops,
       canonicalize (Asked.call asked) (Config.reserved_headers cfg) (fun bytes => holds_value bytes
         (NetState.index s)) = Ok canonical /\
       chronicle (Reads.invocation_id reads) hops t /\ itinerary canonical hops).
Proof.
  unfold net_invoke. intros [(s1 & located & Hl & H)|(e & Hl & ->)]%and_then_inv.
  2: { pose proof (keeps_run quiet _ _ _ _ (keeps_transact _ _ _ (locate_quiet _ _)) Hl) as [_ _ (t & Ht & Hf)].
       exists t. split; [done|by left]. }
  pose proof (keeps_run quiet _ _ _ _ (keeps_transact _ _ _ (locate_quiet _ _)) Hl) as [_ _ (t & Ht & Hf)].
  destruct located as [reason|plan|plan|canonical invocation]; try (injection H as <- <-; exists t; split;
    [done|by left]).
  apply transact_Ok, locate_Resolve in Hl as (E & -> & Hc).
  destruct (first_chain_ok _ _ _ (Reads.invocation_id reads) started Hc) as [Hok Hn].
  destruct (net_loop_chronicle canonical _ _ _ [] (NetState.trace s) [] _ _ _ H Hok Hn) as (hops & t' & H1 & H2 & H3);
    [by rewrite E, app_nil_r|constructor|]. exists t'. split; [done|]. right. by exists canonical, hops.
Qed.

Lemma split_elsewhere {A} (l k before after : list A) x :
  l ++ k = before ++ x :: after -> x ∉ k -> exists after', l = before ++ x :: after'.
Proof.
  intros E Hx. apply app_eq_inv in E as [(m & -> & E)|(m & -> & E)].
  - destruct m as [|y m]; [set_solver|]. injection E as <- ->. by exists m.
  - set_solver.
Qed.

(** Each exchange, with what went before it in the trace. *)
Record sent_as (invocation : string) (hops : list HopRequest.t) (before : list Effect.t)
  (sent : HttpExchangeAuthorisation.t)
    (value : option buffer) (hop : HopRequest.t) (addresses : list Address.t) (plan : NetPlan.t)
    (injection : option Authorised.t) : Prop := {
  sent_hop_in : hop ∈ hops;
  sent_granted : exists ch, granted_hop hops hop addresses plan injection ch /\
    exists novelty id, Effect.NetIntentRecorded invocation hop addresses novelty ch id plan ∈ before;
  sent_spec : hop_spec hop addresses (NetAction.response_limit (NetPlan.net plan)) (credential_of injection)
              = Ok (HttpExchangeAuthorisation.spec sent);
  sent_checked : check_exchange sent = Ok ();
  sent_value : match injection, value with
    | Some a, Some bytes => World.material (worlds (HopRequest.number hop)) = Ok bytes /\ header_safe bytes = true /\
        Effect.Registered (Prepared.handle (Authorised.prepared a)) bytes ∈ before
    | None, None => True
    | _, _ => False
    end
}.

Lemma granted_more hops more hop addresses plan injection ch :
  granted_hop hops hop addresses plan injection ch -> granted_hop (hops ++ more) hop addresses plan injection ch.
Proof. intros [(h & Hh & Hr) H2 H3]. split; [|done|done]. exists h. split; [set_solver|done]. Qed.

Lemma sent_more invocation hops more before sent value hop addresses plan injection :
  sent_as invocation hops before sent value hop addresses plan injection ->
  sent_as invocation (hops ++ more) before sent value hop addresses plan injection.
Proof.
  intros [H1 (ch & H2 & H3) H4 H5 H6]. split; [set_solver| |done..]. exists ch. split; [by apply granted_more|done].
Qed.

Lemma asking_not_sent invocation sent value : ~ asking invocation (Effect.Exchange sent value).
Proof. by intros [?|[h ?]]. Qed.

Lemma spec_new common spec : HttpExchangeAuthorisation.spec (HttpExchangeAuthorisation.new common spec) = spec.
Proof. unfold HttpExchangeAuthorisation.new. by destruct (is_some _). Qed.

(** What is handed over is not an exchange. *)
Lemma handed_not_sent world injection i i' mid value sent v :
  handed world injection i i' mid value -> Effect.Exchange sent v ∉ mid.
Proof. intros [|a|a]; set_solver. Qed.

Lemma chronicle_sent invocation hops t before sent value after :
  chronicle invocation hops t -> t = before ++ Effect.Exchange sent value :: after ->
  exists hop addresses plan injection, sent_as invocation hops before sent value hop addresses plan injection.
Proof.
  intros Hc. revert after. induction Hc as [|hops t e Hc IH He|hops t hop addresses plan injection novelty ch i i' mid
    v new Hc IH Hg Hh Hs];
    intros after E.
  - by destruct before.
  - apply split_elsewhere in E as [after' ->]; [by eapply IH|]. intros <-%list_elem_of_singleton.
    by apply asking_not_sent in He.
  - set (intent := Effect.NetIntentRecorded _ _ _ _ _ _ _) in *.
    pose proof (handed_not_sent _ _ _ _ _ _ sent value Hh) as Hm.
    destruct Hs as [|common spec Hspec Hcheck Hv].
    { rewrite app_nil_r in E. apply split_elsewhere in E as [after' ->]; [|set_solver].
      destruct (IH _ eq_refl) as (h & a & p & inj & H). exists h, a, p, inj. by apply sent_more. }
    destruct after as [|x after _] using rev_ind.
    + rewrite app_comm_cons, app_assoc in E. apply app_inj_tail in E as [<- [= <- <-]].
      exists hop, addresses, plan, injection.
      split; [set_solver|exists ch; split; [done|]; exists novelty, (Authorised.invocation <$> injection);
        set_solver|by rewrite spec_new|done|].
      destruct Hh as [|a index|a index bytes Hb]; [done|done|]. destruct (header_safe bytes) eqn:Es; [|done].
      split_and!; [done|done|set_solver].
    + rewrite (app_comm_cons mid), (app_comm_cons after), !app_assoc in E. apply app_inj_tail in E as [E _].
      apply split_elsewhere in E as [after' ->]; [|set_solver].
      destruct (IH _ eq_refl) as (h & a & p & inj & H). exists h, a, p, inj. by apply sent_more.
Qed.

Definition exchanges (t : list Effect.t) : list HttpExchangeAuthorisation.t :=
  omap (fun e => match e with Effect.Exchange sent _ => Some sent | _ => None end) t.

(** What is sent is the hop, and nothing that it does not have. *)
Record carries (hop : HopRequest.t) (injection : option Authorised.t) (spec : HopSpec.t) : Prop := {
  carries_number : HopSpec.hop spec = HopRequest.number hop;
  carries_method : HopSpec.method spec = HopRequest.method hop;
  carries_host : EgressHost.as_str (HopSpec.host spec) = HopRequest.host hop;
  carries_port : EgressPort.get (HopSpec.port spec) = HopRequest.port hop;
  carries_target : HttpTarget.as_str (HopSpec.target spec) = HttpsUrl.request_target (HopRequest.url hop);
  carries_headers : header_pair <$> HopSpec.headers spec = HopRequest.headers hop;
  carries_body : from_option HexContent.to_bytes [] (HopSpec.body spec) = HopRequest.body hop /\
    (HopRequest.body hop = [] -> HopSpec.body spec = None);
  carries_credential : HopSpec.credential spec = credential_of injection
}.

Lemma wire_header_pairs headers l : mapM wire_header headers = Some l -> header_pair <$> l = headers.
Proof.
  intros H%mapM_Some. induction H as [|[name value] header headers l Hw _ IH]; [done|]. rewrite fmap_cons, IH. f_equal.
  unfold wire_header in Hw. cbn [fst snd] in Hw. unfold HttpHeaderName.new, HttpHeaderValue.new in Hw.
  destruct (wire_text 64 _ _); [|done]. cbn in Hw. destruct (wire_text 4096 _ _); [|done]. by injection Hw as <-.
Qed.

Lemma hop_spec_carries hop addresses limit injection spec :
  hop_spec hop addresses limit (credential_of injection) = Ok spec -> carries hop injection spec.
Proof.
  unfold hop_spec. destruct (mapM _ _ ≫= _) as [headers|] eqn:Eh; [|done]. cbn [ok_or].
  destruct (match HopRequest.body hop with [] => _ | _ => _ end) as [body|] eqn:Eb; [|done].
  destruct (HopNumber_new _) as [number|] eqn:En; [|done]. destruct (EgressHost.new _) as [host|] eqn:Eho; [|done].
  destruct (EgressPort.new _) as [port|] eqn:Ep; [|done]. destruct (HttpTarget.new _) as [target|] eqn:Et; [|done].
  destruct (NetAddresses_new _) as [wire|]; [|done]. destruct (ResponseLimit_new _) as [rl|]; [|done]. cbn. intros [= <-].
  unfold EgressHost.new in Eho. destruct (_ && _) in Eho; [|done]. injection Eho as <-.
  unfold EgressPort.new in Ep. destruct (_ && _) in Ep; [|done]. injection Ep as <-.
  unfold HttpTarget.new in Et. destruct (wire_text _ _ _); [|done]. injection Et as <-.
  unfold HopNumber_new, wire_int in En. destruct (_ && _) in En; [|done]. injection En as <-.
  apply bind_Some in Eh as (l & Hl & Eh). unfold RequestHeaders_new, bounded in Eh. destruct (_ <=? _)%nat; [|done].
  injection Eh as <-.
  split; try done; cbn [HopSpec.headers HopSpec.body]; [by apply wire_header_pairs|].
  destruct (HopRequest.body hop) as [|b bytes] eqn:Ebody; [by injection Eb as <-|].
  destruct (HexContent.from_bytes _) as [h|] eqn:Ef; [|done]. injection Eb as <-. split; [|done]. cbn [from_option].
  by eapply from_bytes_to_bytes.
Qed.

(** The hops whose exchanges a trace holds, in order, each once. *)
Lemma chronicle_exchanges invocation hops t :
  chronicle invocation hops t ->
  exists went, went `sublist_of` hops /\
    Forall2 (fun hop sent => exists injection, carries hop injection (HttpExchangeAuthorisation.spec sent) /\
               (HopRequest.credential hop = false -> injection = None)) went (exchanges t).
Proof.
  assert (forall t k, exchanges (t ++ k) = exchanges t ++ exchanges k) as Happ by (intros; apply omap_app).
  induction 1 as [|hops t e Hc IH He|hops t hop addresses plan injection novelty ch i i' mid v new Hc IH Hg Hh Hs].
  - by exists [].
  - destruct IH as (went & H1 & H2). exists went. rewrite Happ. split; [done|].
    assert (exchanges [e] = []) as -> by (destruct He as [He|[h ->]]; [by destruct e|done]). by rewrite app_nil_r.
  - destruct IH as (went & H1 & H2). rewrite Happ. cbn [exchanges omap list_omap]. rewrite omap_app.
    assert (exchanges mid = []) as Em by (by destruct Hh). unfold exchanges in Em. rewrite Em. cbn [app].
    destruct Hs as [|common spec Hspec _ _].
    { exists went. split; [by apply sublist_inserts_r|]. cbn. by rewrite app_nil_r. }
    exists (went ++ [hop]). split; [by apply sublist_app|]. apply Forall2_app; [done|]. cbn. constructor; [|done].
    exists injection. rewrite spec_new. split; [by eapply hop_spec_carries|]. intros Hf.
    destruct Hg as [_ _ (s & a & sp & [[_ _ _ _ Hp] _ _ _] & _ & E & _)]. rewrite <- E in Hp.
    destruct injection as [au|]; [|done].
    cbn in Hp. destruct Hp as [Hp _]. congruence.
Qed.

End worlds.

(** ** Budgets *)

Definition run_rows (run : string) (rows : list NetHopRow.t) : list NetHopRow.t :=
  List.filter (fun r => String.eqb (NetHopRow.run_id r) run) rows.

(** What a run's hops have been charged is within its budget. *)
Definition rows_fit (rows : list NetHopRow.t) : Prop :=
  (N.of_nat (length rows) <= NetBudget.requests (Config.budget cfg))%N /\
  (sum_of NetHopRow.charge_out rows <= NetBudget.bytes_out (Config.budget cfg))%N /\
  (sum_of NetHopRow.charge_in rows <= NetBudget.bytes_in (Config.budget cfg))%N /\
  (N.of_nat (length (remove_dups (row_origin <$> rows))) <= NetBudget.origins (Config.budget cfg))%N.

Definition fits (run : string) (s : NetState.t) : Prop := rows_fit (run_hops run s).

Lemma run_hops_intents run s : intent_of <$> run_hops run s = run_rows run (intents s).
Proof.
  unfold run_hops, run_rows, intents. induction (NetState.net_hop s) as [|r rows IH]; [done|].
  cbn [List.filter fmap list_fmap]. change (NetHopRow.run_id (intent_of r)) with (NetHopRow.run_id r).
  destruct (String.eqb _ _); [by rewrite fmap_cons, IH|done].
Qed.

Lemma rows_fit_intents rows : rows_fit (intent_of <$> rows) <-> rows_fit rows.
Proof.
  unfold rows_fit, sum_of. by rewrite length_fmap, <- !list_fmap_compose.
Qed.

Definition budgeted (s s' : NetState.t) : Prop := forall run, fits run s -> fits run s'.

#[local] Instance budgeted_preorder : PreOrder budgeted.
Proof. split; [by intros s run|]. intros s1 s2 s3 H1 H2 run H. by apply H2, H1. Qed.

Lemma same_intents_budgeted s s' : intents s' = intents s -> budgeted s s'.
Proof.
  intros E run H. apply rows_fit_intents. rewrite run_hops_intents, E, <- run_hops_intents. by apply rows_fit_intents.
Qed.

Lemma dups_snoc (l : list string) x :
  length (remove_dups (l ++ [x])) <= (if bool_decide (x ∈ l) then 0 else 1) + length (remove_dups l).
Proof.
  assert (remove_dups (l ++ [x]) ⊆+ (if bool_decide (x ∈ l) then [] else [x]) ++ remove_dups l) as H%submseteq_length.
  { apply NoDup_submseteq; [apply NoDup_remove_dups|]. intros y.
    rewrite elem_of_remove_dups, !elem_of_app, elem_of_remove_dups.
    case_bool_decide; set_solver. }
  rewrite length_app in H. by case_bool_decide.
Qed.

Lemma sum_snoc f rows row : sum_of f (rows ++ [row]) = (sum_of f rows + f row)%N.
Proof. unfold sum_of. rewrite fmap_app, foldr_app. cbn. induction rows as [|r rows IH]; cbn; [lia|]. rewrite IH. lia. Qed.

Lemma sum_charged f rows row c b :
  (sum_of f rows <= Z.to_N I64_MAX)%N -> f row = column c -> (saturating_add (sum_of f rows) c <= b)%N ->
  (sum_of f (rows ++ [row]) <= b)%N.
Proof.
  intros Hi Hf Hs. rewrite sum_snoc, Hf. unfold column, saturating_add in *.
  assert (Z.to_N I64_MAX + Z.to_N I64_MAX <= U64_MAX)%N as Hm by (by apply N.leb_le; vm_compute).
  revert Hi Hs Hm. generalize (Z.to_N I64_MAX), U64_MAX. lia.
Qed.

(** A hop allowed fits, as it is charged. *)
Lemma allowed_fits reads hop addresses s a spent_ invocation injection run :
  allowed reads hop addresses s a spent_ -> fits run s ->
  rows_fit (run_rows run (NetState.net_hop s ++ [hop_row asked invocation hop addresses (Assessed.charges a) injection])).
Proof.
  intros [[Hsp _ _ Hw _] _ Hx _]. specialize (Hw Hx). unfold fits. unfold run_rows. rewrite List.filter_app.
  cbn [List.filter].
  change (List.filter _ (NetState.net_hop s)) with (run_hops run s).
  change (NetHopRow.run_id (hop_row _ _ _ _ _ _)) with (Asked.run_id asked).
  destruct (String.eqb_spec (Asked.run_id asked) run) as [<-|]; [|by rewrite app_nil_r].
  set (rows := run_hops (Asked.run_id asked) s) in *. set (row := hop_row _ _ _ _ _ _).
  unfold spent in Hsp. fold rows in Hsp. destruct (_ || _) eqn:Eo in Hsp; [done|]. injection Hsp as <-.
  apply orb_false_iff in Eo as [Eo1%N.ltb_ge Eo2%N.ltb_ge].
  unfold within in Hw. cbn [Spent.requests Spent.bytes_out Spent.bytes_in Spent.origins] in Hw.
  apply andb_true_iff in Hw as [[[W1%N.ltb_lt W2%N.leb_le]%andb_true_iff W3%N.leb_le]%andb_true_iff W4%orb_true_iff].
  intros (F1 & F2 & F3 & F4).
  split_and!.
  - rewrite length_app. cbn [length]. clear - W1. lia.
  - by eapply sum_charged.
  - by eapply sum_charged.
  - rewrite fmap_app. cbn [fmap list_fmap]. pose proof (dups_snoc (row_origin <$> rows) (row_origin row)) as Hd.
    case_bool_decide as Hin; [lia|]. destruct W4 as [W4|W4%N.ltb_lt]; [|lia].
    apply negb_true_iff, negb_false_iff in W4. exfalso. apply Hin.
    apply existsb_exists in W4 as (r & Hr%list_elem_of_In & [Eh%String.eqb_eq Ep%N.eqb_eq]%andb_true_iff).
    apply list_elem_of_fmap. exists r. split; [|done]. unfold row_origin, row. cbn. by rewrite Eh, Ep.
Qed.

Lemma net_intent_budgeted world chain hop addresses : keeps budgeted (net_intent cfg asked world chain hop addresses).
Proof.
  intros s. destruct (net_intent cfg asked world chain hop addresses s) as [s' r] eqn:E. cbn.
  apply net_intent_inv in E as [(plan & injection & -> & Hr)|[Hq _]]; [|by apply same_intents_budgeted, quiet_hops].
  apply record_intent_Ok in Hr as (a & sp & s1 & Hal & -> & _ & _ & Hrows & _ & ->). intros run Hf.
  unfold fits, run_hops. cbn [NetState.net_hop NetState.log NetState.with_hops]. rewrite Hrows. by eapply allowed_fits.
Qed.

Lemma net_hop_budgeted world chain hop : keeps budgeted (net_hop cfg asked world chain hop).
Proof.
  unfold net_hop. apply net_keeps_bind; [typeclasses eauto| |].
  { intros s. apply same_intents_budgeted, (asks_hops _ _ _ (net_addresses_asks world chain hop s)). }
  intros [[chain1 addresses]|step]; [|apply net_keeps_done; typeclasses eauto].
  apply net_keeps_bind; [typeclasses eauto|apply net_intent_budgeted|].
  intros [[plan injection]|step]; [|apply net_keeps_done; typeclasses eauto].
  cbv zeta. apply net_keeps_bind; [typeclasses eauto| |].
  - intros s. destruct (exchange _ _ _ _ _ _ s) as [s' r] eqn:E. apply exchange_shape in E as [E _].
    apply same_intents_budgeted. unfold intents. cbn [fst]. by rewrite E.
  - intros [[ex sf] res] s. by apply same_intents_budgeted, quiet_hops, net_settle_quiet.
Qed.

Lemma net_invoke_budgeted fuel reads commits started worlds : keeps budgeted
  (net_invoke cfg asked fuel reads commits started worlds).
Proof.
  assert (forall chain hop, keeps budgeted (net_loop cfg asked fuel worlds chain hop)) as Hl.
  { induction fuel as [|n IH]; intros chain hop; cbn [net_loop]; [apply net_keeps_done; typeclasses eauto|].
    apply net_keeps_bind; [typeclasses eauto|apply net_hop_budgeted|].
    intros [c [reply|h]]; [apply net_keeps_done; typeclasses eauto|apply IH]. }
  unfold net_invoke. apply net_keeps_bind; [typeclasses eauto| |].
  - intros s. apply same_intents_budgeted, quiet_hops. apply (keeps_transact quiet), locate_quiet.
  - intros [| | |]; try (apply net_keeps_done || apply net_keeps_fail; typeclasses eauto). apply Hl.
Qed.

(** ** What the return path has learnt *)

(** The values an index was given, in order. *)
Definition learnt (t : list Effect.t) : list IndexOp.t :=
  omap (fun e => match e with Effect.Registered handle value => Some (IndexOp.Insert handle value) | _ => None end) t.

Definition learns (s s' : NetState.t) : Prop :=
  exists t, NetState.trace s' = NetState.trace s ++ t /\
    NetState.index s' = fold_left index_step (learnt t) (NetState.index s).

#[local] Instance learns_preorder : PreOrder learns.
Proof.
  split; [intros s; exists []; by rewrite app_nil_r|]. intros s1 s2 s3 (t1 & H1 & H2) (t2 & H3 & H4). exists (t1 ++ t2).
  rewrite H3, H1, <- app_assoc. split; [done|]. unfold learnt in *. by rewrite omap_app, fold_left_app, <- H2.
Qed.

Lemma learnt_asking invocation t : Forall (asking invocation) t -> learnt t = [].
Proof. induction 1 as [|e t [He|[h ->]] _ IH]; [done| |done]. destruct e; done. Qed.

Lemma asks_learns invocation s s' : asks invocation s s' -> learns s s'.
Proof. intros [_ Hi (t & Ht & Hf)]. exists t. by rewrite (learnt_asking _ _ Hf). Qed.

Lemma quiet_learns s s' : quiet s s' -> learns s s'.
Proof. intros H. by eapply (asks_learns ""%string), quiet_asks. Qed.

Lemma sent_learnt hop addresses limit injection value sent : sent_of hop addresses limit injection value sent ->
  learnt sent = [].
Proof. by intros [|]. Qed.

Lemma net_hop_learns world chain hop : keeps learns (net_hop cfg asked world chain hop).
Proof.
  unfold net_hop. apply net_keeps_bind; [typeclasses eauto| |].
  { intros s. eapply asks_learns, net_addresses_asks. }
  intros [[chain1 addresses]|step]; [|apply net_keeps_done; typeclasses eauto].
  apply net_keeps_bind; [typeclasses eauto| |].
  { intros s. destruct (net_intent cfg asked world chain1 hop addresses s) as [s' r] eqn:E. cbn.
    apply net_intent_inv in E as [(plan & injection & -> & Hr)|[Hq _]]; [|by apply quiet_learns].
    apply record_intent_Ok in Hr as (a & sp & s1 & _ & -> & _ & Hq & _ & _ & ->).
    etransitivity; [apply (quiet_learns _ _ Hq)|].
    by eexists. }
  intros [[plan injection]|step]; [|apply net_keeps_done; typeclasses eauto].
  cbv zeta. apply net_keeps_bind; [typeclasses eauto| |].
  - intros s. destruct (exchange _ _ _ _ _ _ s) as [s' r] eqn:E.
    apply exchange_shape in E as (_ & mid & value & sent & Ht & Hh & Hs).
    exists (mid ++ sent). split; [done|]. unfold learnt. rewrite omap_app. fold (learnt sent).
    rewrite (sent_learnt _ _ _ _ _ _ Hs), app_nil_r.
    cbn [fst]. by destruct Hh.
  - intros [[ex sf] res] s. apply quiet_learns, net_settle_quiet.
Qed.

Lemma net_loop_learns fuel worlds chain hop : keeps learns (net_loop cfg asked fuel worlds chain hop).
Proof.
  revert chain hop. induction fuel as [|n IH]; intros chain hop; cbn [net_loop]; [apply net_keeps_done;
    typeclasses eauto|].
  apply net_keeps_bind; [typeclasses eauto|apply net_hop_learns|].
  intros [c [reply|h]]; [apply net_keeps_done; typeclasses eauto|apply IH].
Qed.

Lemma net_invoke_learns fuel reads commits started worlds : keeps learns
  (net_invoke cfg asked fuel reads commits started worlds).
Proof.
  unfold net_invoke. apply net_keeps_bind; [typeclasses eauto| |].
  - intros s. apply quiet_learns. apply (keeps_transact quiet), locate_quiet.
  - intros [| | |]; try (apply net_keeps_done || apply net_keeps_fail; typeclasses eauto). apply net_loop_learns.
Qed.

(** ** What is answered *)

(** An answer that is a result is of the index as it is left. *)
Definition answered (s : NetState.t) (reply : NetReply.t) : Prop :=
  forall invocation plan output, reply = NetReply.Done invocation plan output ->
  exists last hops why hits, result_of (NetState.index s) last hops why = Ok (output, hits).

Lemma net_finish_answered commits chain hop why s s' reply :
  net_finish asked commits chain hop why s = (s', Ok reply) -> answered s' reply.
Proof.
  intros H. pose proof (keeps_run quiet _ _ _ _ (net_finish_quiet _ _ _ _) H) as [_ Hi _]. unfold net_finish in H.
  apply net_and_then_Ok in H as (s1 & last & [-> _]%holds_Ok & H).
  apply net_and_then_Ok in H as (s2 & index & [= <- <-] & H).
  apply net_and_then_Ok in H as (s3 & [output hits] & [-> Hr]%holds_Ok & H).
  apply net_and_then_Ok in H as (s4 & plan & [-> _]%holds_Ok & H). apply net_and_then_Ok in H as (s5 & u & _ & [= -> <-]).
  intros inv p out [= <- <- <-]. rewrite Hi. by exists last, (Chain.hops chain), why, hits.
Qed.

Lemma net_end_answered {A} commits chain why s s' reply :
  (let! step := net_end asked commits chain why in done (Err (A := A) step)) s = (s', Ok (Err (Step.Answer reply))) ->
    answered s' reply.
Proof.
  intros (s1 & st & H & [= <- ->])%net_and_then_Ok. apply net_and_then_Ok in H as (s2 & r & H & [= <- <-]).
  by eapply net_finish_answered.
Qed.

Lemma net_hop_answered world chain hop s s' chain' reply :
  net_hop cfg asked world chain hop s = (s', Ok (chain', Step.Answer reply)) -> answered s' reply.
Proof.
  unfold net_hop. intros (s1 & ad & Ha & H)%net_and_then_Ok. destruct ad as [[chain1 addresses]|step].
  2: { injection H as <- <- ->. unfold net_addresses in Ha. apply net_and_then_Ok in Ha as (s2 & early & _ & Ha).
       destruct early as [why|]; [by eapply net_end_answered|].
       destruct (Chain.pins chain !! HopRequest.host hop); [done|]. apply net_and_then_Ok in Ha as (s3 & host & _ & Ha).
       apply net_and_then_Ok in Ha as (s4 & u & _ & Ha). apply net_and_then_Ok in Ha as (s5 & u' & _ & Ha).
       destruct (judge_resolution _ _); [done|]. destruct (HopRequest.number hop =? 1)%N; [|by eapply net_end_answered].
       injection Ha as <- <-. by intros ? ? ? [=]. }
  apply net_and_then_Ok in H as (s2 & recorded & Hi & H). destruct recorded as [[plan injection]|step].
  2: { injection H as <- <- ->. unfold net_intent in Hi. apply net_and_then_Ok in Hi as (s3 & intent & _ & Hi).
       destruct intent as [reason|plan| |plan injection]; [..|done]; destruct (HopRequest.number hop =? 1)%N;
         try (by eapply net_end_answered); injection Hi as <- <-; by intros ? ? ? [=]. }
  apply net_and_then_Ok in H as (s3 & [[ex sf] res] & _ & H).
  set (chain2 := match injection with Some _ => _ | None => _ end) in H.
  clearbody chain2. unfold net_settle in H. apply net_and_then_Ok in H as (s4 & number & _ & H).
  apply net_and_then_Ok in H as (s5 & host & _ & H). apply net_and_then_Ok in H as (s6 & port & _ & H).
  apply net_and_then_Ok in H as (s7 & [c f] & _ & H). destruct f as [[url method|why]|].
  - by apply net_and_then_Ok in H as (s8 & u & _ & [=]).
  - apply net_and_then_Ok in H as (s8 & r & Hf & [= <- _ <-]). by eapply net_finish_answered.
  - destruct (negb _).
    + apply net_and_then_Ok in H as (s8 & r & Hf & [= <- _ <-]). by eapply net_finish_answered.
    + apply net_and_then_Ok in H as (s8 & r & Hf%transact_Ok & [= <- _ <-]).
      apply net_and_then_Ok in Hf as (s9 & u & _ & Hf).
      apply net_and_then_Ok in Hf as (s10 & u' & _ & [= _ <-]). by intros ? ? ? [=].
Qed.

Lemma net_invoke_answered fuel reads commits started worlds s s' reply :
  net_invoke cfg asked fuel reads commits started worlds s = (s', Ok (Some reply)) -> answered s' reply.
Proof.
  unfold net_invoke. intros (s1 & located & _ & H)%net_and_then_Ok.
  destruct located as [reason|plan|plan|canonical invocation]; try (injection H as <- <-; by intros ? ? ? [=]); [done|].
  revert H. generalize (Chain.new invocation canonical started), (HopRequest.first canonical). clear reads commits.
  revert s1.
  induction fuel as [|fuel IH]; intros s1 chain hop H; [done|]. cbn [net_loop] in H.
  apply net_and_then_Ok in H as (s2 & [c [r|h]] & Hh & H); [|by eapply IH]. injection H as <- <-.
  by eapply net_hop_answered.
Qed.

End request.

(** ** What an answer holds *)

(** No live value occurs in a text. *)
Definition holds_none (live : gmap SecretHandle.t buffer) (text : buffer) : Prop :=
  forall handle value start, live !! handle = Some value -> start + length value <= length text ->
    window text (length value) start <> value.

Lemma no_hits_no_parts parts hits :
  (forall k, hits !! k = hits_of (count_of k (kinds_of parts))) -> hits = (∅ : Hits) -> parts = [].
Proof.
  intros H ->. destruct parts as [|[[kept kind] cut] parts]; [done|]. specialize (H kind). rewrite lookup_empty in H.
  unfold count_of, kinds_of in H. cbn in H. rewrite bool_decide_eq_true_2 in H by done. unfold hits_of in H.
  cbn [length] in H.
  destruct (N.eqb_spec (N.of_nat (S (length (List.filter (fun x => bool_decide (x = kind)) (map (fun '(_, k,
    _) => k) parts))))) 0); [lia|done].
Qed.

Section answers.
  Context `{HM : Hmac} (random : option (buffer * N)) (self : ExactIndex.t) (Hnew : ExactIndex.new random = Ok self).
  Context (ops : list IndexOp.t).
  #[local] Abbreviation index := (fold_left index_step ops self).
  #[local] Abbreviation live := (live_after ops).

Lemma clean_holds_none text hits : clean index text = (true, hits) -> holds_none live (as_bytes text).
Proof.
  intros [= Hc%bool_decide_eq_true _].
  destruct (redact_spans_parts _ _ (found_within _ _ Hnew ops (as_bytes text))) as
    (parts & rest & Hi & _ & Hm & _ & _ & Hh).
  assert (parts = []) as -> by by eapply no_hits_no_parts. intros handle value start Hv.
  eapply kept_free; [done|exact Hi|exact Hm| |exact Hv]. by apply list_elem_of_singleton.
Qed.

Lemma keep_headers_kept headers kept hits :
  (keep_headers index headers kept hits).1
  = kept ++ List.filter (fun header => (clean index (HttpHeaderValue.as_str (HttpHeader.value header))).1) headers.
Proof.
  revert kept hits. induction headers as [|header headers IH]; intros kept hits; [by rewrite app_nil_r|].
  cbn [keep_headers List.filter]. destruct (clean _ _) as [[] more]; rewrite IH; [|done]. by rewrite <- app_assoc.
Qed.

(** The [location] an answer holds: a URL's canonical text, clean. *)
Definition location_of (url : HttpsUrl.t) (location : option string) (header : HttpHeader.t) : Prop :=
  exists text target, location = Some text /\ HttpsUrl.resolve url text = Ok target /\
    HttpHeaderName.as_str (HttpHeader.name header) = "location"%string /\
    HttpHeaderValue.as_str (HttpHeader.value header) = HttpsUrl.canonical target.

Lemma keep_location_kept url location kept hits header :
  header ∈ (keep_location index url location kept hits).1 ->
  header ∈ kept \/
  location_of url location header /\ (clean index (HttpHeaderValue.as_str (HttpHeader.value header))).1 = true.
Proof.
  unfold keep_location. destruct location as [text|]; [|by left].
  destruct (HttpsUrl.resolve url text) as [target|] eqn:Er; [|by left].
  destruct (clean index (HttpsUrl.canonical target)) as [[] more] eqn:Ec; [|by left].
  destruct (HttpHeaderName.new "location") as [name|] eqn:En; [|by left]. cbn [mbind option_bind].
  destruct (kept_value _) as [value|] eqn:Ev; [|by left].
  cbn [option_bind mbind fst]. intros [H| ->%list_elem_of_singleton]%elem_of_app; [by left|]. right.
  cbn [HttpHeader.value HttpHeader.name].
  assert (HttpHeaderValue.as_str value = HttpsUrl.canonical target) as Hv.
  { unfold kept_value, HttpHeaderValue.new in Ev. destruct (is_header_value_within _ _); [|done].
    destruct (wire_text _ _ _); [|done].
    by injection Ev as <-. }
  assert (HttpHeaderName.as_str name = "location"%string) as Hn by (vm_compute in En; by injection En as <-).
  rewrite Hv, Ec. split; [|done]. by exists text, target.
Qed.

Lemma result_of_holds last hops why output hits :
  result_of index last hops why = Ok (output, hits) ->
  NetHttpResult.hops output = hops /\ NetHttpResult.redirect_ended output = why /\
  NetHttpResult.status output = Response.status last /\
  Forall (fun header => (header ∈ Response.headers last \/ location_of (Response.url last)
    (Response.location last) header) /\
            holds_none live (as_bytes (HttpHeaderValue.as_str (HttpHeader.value header))))
              (NetHttpResult.headers output) /\
  exists parts rest, Response.body last = read_parts parts rest /\
    HexContent.to_bytes (NetHttpResult.body output) = take (N.to_nat (Response.limit last)) (written_parts parts rest) /\
    Forall (holds_none live) (kept_parts parts rest) /\
    (NetHttpResult.truncated output = false ->
      HexContent.to_bytes (NetHttpResult.body output) = written_parts parts rest).
Proof.
  unfold result_of. destruct (keep_headers _ _ _ _) as [kept1 hits1] eqn:E1.
  destruct (keep_location _ _ _ _ _) as [kept hits2] eqn:E2.
  destruct (ok_or (HttpStatus_new _) _) as [status|] eqn:Es; [|done].
  destruct (ok_or (ResponseHeaders_new kept) _) as [headers|] eqn:Eh; [|done].
  destruct (ok_or (HexContent.from_bytes _) _) as [body|] eqn:Eb; [|done].
  destruct (ok_or (NetHops_new hops) _) as [hops'|] eqn:Ehp; [|done].
  cbn. intros [= <- _]. cbn.
  assert (hops' = hops) as -> by (unfold NetHops_new, bounded in Ehp; destruct (_ <=? _)%nat; naive_solver).
  assert (headers = kept) as -> by (unfold ResponseHeaders_new, bounded in Eh; destruct (_ <=? _)%nat; naive_solver).
  assert (status = Response.status last) as -> by (unfold HttpStatus_new, wire_int in Es; destruct (_ && _);
    naive_solver).
  split_and!; try done.
  - apply Forall_forall. intros header Hh. pose proof (f_equal fst E2) as H2. cbn in H2. rewrite <- H2 in Hh.
    assert ((header ∈ Response.headers last \/ location_of (Response.url last) (Response.location last) header) /\
            (clean index (HttpHeaderValue.as_str (HttpHeader.value header))).1 = true) as [Ho Hc].
    { apply keep_location_kept in Hh as [Hh|[Hl Hc]]; [|split; [by right|done]]. pose proof (f_equal fst E1) as H1.
      cbn in H1.
      rewrite keep_headers_kept in H1. subst kept1. apply list_elem_of_In, filter_In in Hh as [Hh Hc].
      split; [left; by apply list_elem_of_In|done]. }
    split; [done|]. destruct (clean _ _) as [c more] eqn:Ec; cbn in Hc; subst c. by eapply clean_holds_none.
  - destruct (redact_spans_parts _ _ (found_within _ _ Hnew ops (Response.body last))) as
      (parts & rest & Hi & Hb & Hm & _).
    exists parts, rest. split; [done|].
    assert (HexContent.to_bytes body = Redacted.bytes (redact_bounded (Response.body last) (N.to_nat
      (Response.limit last)) index)) as Hby.
    { destruct (HexContent.from_bytes _) as [h|] eqn:Ef; [|done]. injection Eb as <-. by eapply from_bytes_to_bytes. }
    rewrite Hby. unfold redact_bounded. cbv zeta. cbn [Redacted.bytes Redacted.cut].
    change (redact_spans _ (found self ops ?i)) with (redact i index) in Hb.
    rewrite Hb. split_and!.
    + destruct (Nat.ltb_spec (N.to_nat (Response.limit last)) (length (written_parts parts rest)));
        [done|by rewrite take_ge].
    + apply Forall_forall. intros kept' Hk handle value start Hv Hl. by eapply kept_free.
    + intros [_ Hc]%orb_false_iff. change ((N.to_nat (Response.limit last) <? length
        (written_parts parts rest))%nat = false) in Hc.
      by rewrite Hc.
Qed.
End answers.

(** * What is decided *)

Section decided.
  Context (granted : list Grant.t) (context : PolicyContext.t) (compiled : CompiledPolicy.t).

(** A grant covers an action, and the policy allows it. *)
Definition permitted (action : CanonicalAction.t) : Prop :=
  (exists grant, grant ∈ granted /\
    Capability.contains (Grant.capability grant) (CanonicalAction.capability action) = true) /\
  Decision.effect (evaluate compiled action context) = PolicyContext.Effect.Allow.

Lemma decide_permits action : DecisionRecord.permits
  (NetPlan.decide action granted context compiled) = true <-> permitted action.
Proof.
  unfold DecisionRecord.permits, DecisionRecord.capability_satisfied, DecisionRecord.policy_satisfied, permitted. cbn.
  rewrite andb_true_iff, bool_decide_eq_true. apply and_iff_compat_r.
  destruct (List.find _ granted) as [g|] eqn:E; cbn.
  - apply List.find_some in E as [Hg%list_elem_of_In Hc]. split; [|done]. by exists g.
  - split; [done|]. intros (g & Hg%list_elem_of_In & Hc). by rewrite (List.find_none _ _ E _ Hg) in Hc.
Qed.

Lemma gate_permits g : Gate.permits g = true -> DecisionRecord.permits (Gate.record g) = true.
Proof.
  unfold Gate.permits, Gate.policy_satisfied, DecisionRecord.permits. intros [H1 [H2 _]%andb_true_iff]%andb_true_iff.
  by rewrite H1, H2.
Qed.

Lemma address_gates_permits base addresses limit :
  forallb Gate.permits (address_gates base addresses granted context compiled limit).1 = true ->
  Forall (fun address => permitted (CanonicalAction.with_destination_ip base (ip_address address))) addresses.
Proof.
  revert limit. induction addresses as [|address addresses IH]; intros limit H; [constructor|].
  cbn [address_gates] in H. unfold gate in H.
  destruct (obligations _ limit) as [enforced limit'] eqn:Eo. specialize (IH limit').
  destruct (address_gates base addresses granted context compiled limit') as [gates limit2]. cbn [fst forallb] in *.
  apply andb_true_iff in H as [Hg%gate_permits Hr]. constructor; [by apply decide_permits|by apply IH].
Qed.

Lemma decide_net_permits facts net addresses :
  decide_net facts granted context compiled = Ok net -> NetAction.permits net = true ->
  Facts.addresses facts = Some addresses ->
  exists capability, required (Facts.host facts) (Facts.port facts) (Facts.method facts)
    (Facts.next_request facts) = Ok capability /\
    Forall (fun address => permitted (CanonicalAction.with_destination_ip (base_action facts capability)
      (ip_address address)))
      addresses.
Proof.
  unfold decide_net. destruct (required _ _ _ _) as [capability|] eqn:Er; [|done]. intros Hd Hp Ha. rewrite Ha in Hd.
  cbv zeta in Hd.
  pose proof (address_gates_permits (base_action facts capability) addresses (Facts.response_limit facts)) as Hg.
  destruct (address_gates _ _ _ _ _ _) as [gates limit]. cbn [fst] in Hg. injection Hd as <-.
  apply andb_true_iff in Hp as [_ Hp]. exists capability. split; [done|by apply Hg].
Qed.

Lemma decide_injection_permits handle host port i :
  decide_injection handle host port granted context compiled = Ok i -> Gate.permits (InjectionAction.gate i) = true ->
  exists capability, secret_required handle = Ok capability /\
    permitted (CanonicalAction.new capability Environment.Host).
Proof.
  unfold decide_injection. destruct (secret_required handle) as [capability|]; [|done]. cbn.
  intros [= <-] Hg%gate_permits.
  exists capability. split; [done|by apply decide_permits].
Qed.
End decided.

(** * Promises *)

(** A hop as one transaction's reads allow it, at every address it may be sent
    to, and its credential where it has one. *)
Definition hop_allowed `{Hmac} (cfg : Config.t) (asked : Asked.t) (reads : Reads.t) (hop : HopRequest.t)
    (addresses : list Address.t) : Prop :=
  Reads.fence reads = true /\ Reads.run_is_held reads = true /\
  exists spent novelty capability, let facts := facts asked hop (Some addresses) spent novelty in
    required (HopRequest.host hop) (HopRequest.port hop) (HopRequest.method hop)
      (Facts.next_request facts) = Ok capability /\
    Forall (fun address =>
              permitted (Reads.admission reads) (Reads.context reads) (Config.compiled cfg)
                (CanonicalAction.with_destination_ip (base_action facts capability) (ip_address address))) addresses.

Definition credential_allowed (cfg : Config.t) (asked : Asked.t) (reads : Reads.t) (hop : HopRequest.t)
  (p : Prepared.t) : Prop :=
  HopRequest.credential hop = true /\
  (exists handle, NetHttpCall.credential_handle (Asked.call asked) = Some handle /\
     usable cfg reads handle (origin_text (HopRequest.host hop) (HopRequest.port hop)) p) /\
  exists capability, secret_required (Prepared.handle p) = Ok capability /\
    permitted (Reads.admission reads) (Reads.context reads) (Config.compiled cfg)
      (CanonicalAction.new capability Environment.Host).

Lemma allowed_hop `{Hmac} cfg asked reads hop addresses s a spent_ :
  allowed cfg asked reads hop addresses s a spent_ ->
  hop_allowed cfg asked reads hop addresses /\
  (forall p, Assessed.prepared a = Some p -> credential_allowed cfg asked reads hop p).
Proof.
  intros [[_ Hnet _ _ Hprep] Hp _ [Hf Hr]]. unfold NetPlan.permits in Hp. apply andb_true_iff in Hp as [Hn Hi]. split.
  - split_and!; [done|done|]. destruct (decide_net_permits _ _ _ _ _ _ Hnet Hn eq_refl) as (capability & Hc & Hall).
    by exists spent_, (Assessed.novelty a), capability.
  - intros p Ep. rewrite Ep in Hprep. destruct Hprep as (Hcred & Hu & i & Ei & Hd). split_and!; [done|done|].
    rewrite Ei in Hi. by eapply decide_injection_permits.
Qed.

(** ** Sorted lists *)

Lemma seq_sorted a n : StronglySorted N.lt (N.of_nat <$> seq a n).
Proof.
  revert a. induction n as [|n IH]; intros a; cbn; constructor; [apply IH|]. apply Forall_fmap, Forall_seq.
  intros j Hj. cbn. lia.
Qed.

Lemma sublist_sorted {A} (R : A -> A -> Prop) l k : l `sublist_of` k -> StronglySorted R k -> StronglySorted R l.
Proof.
  induction 1 as [|x l k Hs IH|x l k Hs IH]; intros Hk; [done|..]; apply StronglySorted_inv in Hk as [Hk Hx];
    [|by apply IH].
  constructor; [by apply IH|]. rewrite Forall_forall in *. intros y Hy.
  by eapply Hx, elem_of_submseteq, sublist_submseteq.
Qed.

Lemma length_hops canonical hops : itinerary canonical hops -> length hops <= 6.
Proof.
  intros [_ H2 H3]. destruct hops as [|hop hops _] using rev_ind; [cbn; lia|].
  apply Forall_app in H3 as [_ [H3 _]%Forall_cons].
  apply hop_of_number in H3. rewrite length_app, Nat.add_comm in H2. cbn [length Nat.add] in H2.
  rewrite seq_S, !fmap_app in H2.
  apply app_inj_2 in H2 as [_ [= E]]; [|done]. rewrite E in H3. rewrite length_app. cbn [length].
  unfold MAX_HOPS, MAX_REDIRECTS in H3. lia.
Qed.

(** C28: A text parses as a URL exactly when it is one of the URL's spellings and within bounds. The canonical text is
  itself a
    spelling of the URL, of no other, and is read back as it wherever it is within bounds too; one spelling's URL is no
    other's. A reference resolves within the rules of its form: one with an authority or a scheme is parsed whole,
      any other
    keeps the origin and leads to a path from the root, to a query of the same path, or below the directory. *)
Theorem url_exact text u :
  (HttpsUrl.parse text = Ok u <-> written text u /\ String.length text <= MAX_URL_BYTES) /\
  (HttpsUrl.parse text = Ok u ->
   (forall v, written (HttpsUrl.canonical u) v <-> v = u) /\
   HttpsUrl.parse (HttpsUrl.canonical u)
   = (if (String.length (HttpsUrl.canonical u) <=? MAX_URL_BYTES)%nat then Ok u else Err UrlError.TooLong) /\
   forall reference v, HttpsUrl.resolve u reference = Ok v ->
     url_ok v /\ str_contains "#" reference = false /\
     (if str_starts_with "//" reference then HttpsUrl.parse ("https:" +:+ reference) = Ok v
      else if has_scheme reference then HttpsUrl.parse reference = Ok v
      else HttpsUrl.origin v = HttpsUrl.origin u /\ relative_of u reference (HttpsUrl.path v) (HttpsUrl.query v))).
Proof.
  split; [apply parse_Ok|]. intros Hp. pose proof (url_ok_of _ _ Hp) as Hu. pose proof (canonical_written _ Hu) as Hc.
  split_and!.
  - intros v. split; [intros Hv; by eapply written_unique|by intros ->].
  - destruct (Nat.leb_spec (String.length (HttpsUrl.canonical u)) MAX_URL_BYTES) as [Hl|Hl]; [by apply parse_Ok|].
    by apply parse_too_long.
  - intros reference v Hr. destruct (resolve_parsed _ _ _ Hr) as [x Hx%url_ok_of]. split; [done|by apply resolve_Ok].
Qed.

(** C29: What the authority sends for a hop is what the broker accepts: whatever call was canonicalised and whatever
  redirects
    led to the hop, the exchange is built, and the broker's checks of it pass and read the hop's URL back, provided the
    URL's canonical text is within the bound of a URL; otherwise they refuse it. *)
Theorem exchange_agrees call reserved holds_secret c hop addresses limit credential common :
  call_ok call -> canonicalize call reserved holds_secret = Ok c -> hop_of c hop ->
  (1 <= limit <= 262144)%N -> addresses <> [] ->
  (forall cr, credential = Some cr ->
    to_ascii_lowercase (SecretHeaderName.as_str (HttpCredential.header_name cr)) ∈ reserved) ->
  exists spec, hop_spec hop addresses limit credential = Ok spec /\
    let sent := HttpExchangeAuthorisation.new common spec in
    if (String.length (HttpsUrl.canonical (HopRequest.url hop)) <=? MAX_URL_BYTES)%nat
    then check_exchange sent = Ok () /\ HttpExchangeAuthorisation.url sent = Ok (HopRequest.url hop)
    else check_exchange sent = Err (ProtocolError.schema Violation.InvalidFormat "/target").
Proof.
  intros Hcall Hc Hhop Hl Ha Hr. pose proof (hop_of_ok _ _ _ (canonicalize_ok _ _ _ _ Hcall Hc) Hhop) as Hok.
  destruct (hop_spec_Ok _ _ _ addresses limit credential Hok Hl) as (spec & Hs & _). exists spec. split; [done|].
  cbv zeta.
  rewrite (check_exchange_spec _ _ _ _ _ _ _ common Hok Hl Ha Hr Hs), (exchange_url _ _ _ _ _ _ _ common Hok Hl Hs).
  by destruct (_ <=? MAX_URL_BYTES)%nat.
Qed.

(** C9: Nothing is sent that was not granted. Every exchange a request orders is of one of its hops,
  after the hop's intent
    was recorded: the lease was current and the run held, its host is not a local name, its addresses are what the host
    resolved to, all of them public or excepted, and at every one of them a grant covered the hop and the policy allowed
    it. A credential goes out only with a hop that asks for it, to an origin the operator's metadata gives it, itself
    granted and allowed, and only after its value was registered for redaction. *)
Theorem exchanges_granted `{Hmac} cfg asked fuel reads commits started worlds s s' r :
  net_invoke cfg asked fuel reads commits started worlds s = (s', r) ->
  exists hops t, NetState.trace s' = NetState.trace s ++ t /\
    (hops <> [] -> exists canonical,
       canonicalize (Asked.call asked) (Config.reserved_headers cfg) (fun bytes => holds_value bytes
         (NetState.index s)) = Ok canonical /\
       itinerary canonical hops) /\
    forall before sent value after, t = before ++ Effect.Exchange sent value :: after ->
    exists hop addresses plan injection, let now := worlds (HopRequest.number hop) in
      hop ∈ hops /\
      (exists novelty ch id, Effect.NetIntentRecorded
        (Reads.invocation_id reads) hop addresses novelty ch id plan ∈ before) /\
      hop_spec hop addresses (NetAction.response_limit (NetPlan.net plan)) (credential_of injection)
      = Ok (HttpExchangeAuthorisation.spec sent) /\ check_exchange sent = Ok () /\
      name_blocked (HopRequest.host hop) = false /\ answered_for cfg worlds hops (HopRequest.host hop) addresses /\
      addresses <> [] /\ Forall (passes (Config.exceptions cfg)) addresses /\
      hop_allowed cfg asked (World.intent now) hop addresses /\
      match injection, value with
      | Some a, Some bytes =>
          credential_allowed cfg asked (World.intent now) hop (Authorised.prepared a) /\
          World.material now = Ok bytes /\ header_safe bytes = true /\
          Effect.Registered (Prepared.handle (Authorised.prepared a)) bytes ∈ before
      | None, None => True
      | _, _ => False
      end.
Proof.
  intros (t & Ht & [Hq|(canonical & hops & Hc & Hch & Hi)])%net_invoke_chronicle.
  - exists [], t. split_and!; [done|done|]. intros before sent value after ->.
    apply Forall_app in Hq as [_ [Hq _]%Forall_cons]. done.
  - exists hops, t. split_and!; [done|by exists canonical|]. intros before sent value after E.
    destruct (chronicle_sent _ _ _ _ _ _ _ _ _ _ Hch E) as (hop & addresses & plan & injection & Hs).
    destruct Hs as [H1 (ch & [Hr Hn (s1 & a & sp & Ha & -> & Hp & ->)] & novelty & id & H2) H3 H4 H5].
    destruct (allowed_hop _ _ _ _ _ _ _ _ Ha) as [Hal Hcr].
    assert (pinned_ok cfg addresses) as [Hne Hpass] by (destruct Hr as (h & _ & _ & Hj);
      by apply judge_resolution_Ok in Hj).
    exists hop, addresses, (Assessed.plan a), injection.
    split_and!; try done; [by exists novelty, (Assessed.charges a), id|].
    destruct injection as [au|], value as [bytes|]; try done. split; [|done]. apply Hcr. by rewrite <- Hp.
Qed.

(** The origin of what is sent. *)
Definition sent_origin (spec : HopSpec.t) : string * N := (EgressHost.as_str (HopSpec.host spec),
  EgressPort.get (HopSpec.port spec)).

Definition sent_url (spec : HopSpec.t) : string * N * string := (sent_origin spec,
  HttpTarget.as_str (HopSpec.target spec)).

(** What a hop is, whatever its call. *)
Lemma hop_of_kept c hop :
  hop_of c hop ->
  (HopRequest.number hop = 1%N /\ hop = HopRequest.first c \/
   (1 < HopRequest.number hop)%N /\ Canonical.follow_redirects c = true /\ HopRequest.body hop = [] /\
   HttpMethod.permits_body (HopRequest.method hop) = false) /\
  (HopRequest.headers hop = Canonical.headers c \/ HopRequest.headers hop = []) /\
  (HttpsUrl.origin (HopRequest.url hop) <> HttpsUrl.origin (Canonical.url c) ->
   HopRequest.headers hop = [] /\ HopRequest.credential hop = false).
Proof.
  intros [|hop' status location visited url method Hp Hn]; [split_and!; [by left|by left|done]|].
  apply hop_of_number in Hp as [Hlo _]. apply next_Hop in Hn as (reference & _ & _ & Hf & _ & Hm & Hl & _). cbn.
  split_and!.
  - right. split_and!; [unfold U8_MAX, MAX_HOPS, MAX_REDIRECTS in *; lia|done|done|]. unfold redirect_method in Hm.
    destruct (_ =? _)%N; [injection Hm as <-; by case_bool_decide|].
    destruct (HttpMethod.permits_body (HopRequest.method hop')) eqn:E; [done|].
    by injection Hm as <-.
  - case_bool_decide; [by left|by right].
  - intros Hne. by rewrite bool_decide_eq_false_2.
Qed.

(** C15: A redirect takes nothing with it. What a request sends, at most six times, is numbered upwards, never to one URL
    twice. Only the first carries a body, and none but it where redirects are not followed; a later one never has a
    method that permits a body. Another origin than the call's gets neither its headers nor its credential. *)
Theorem redirects_carry_nothing `{Hmac} cfg asked fuel reads commits started worlds s s' r :
  net_invoke cfg asked fuel reads commits started worlds s = (s', r) ->
  exists t, NetState.trace s' = NetState.trace s ++ t /\
    let specs := HttpExchangeAuthorisation.spec <$> exchanges t in
    length specs <= 6 /\ StronglySorted N.lt (HopSpec.hop <$> specs) /\ NoDup (sent_url <$> specs) /\
    Forall (fun spec => exists url, HttpsUrl.parse (NetHttpCall.url (Asked.call asked)) = Ok url /\
      let origin := HttpsUrl.origin url in
      (HopSpec.hop spec = 1%N ->
         HopSpec.method spec = NetHttpCall.method (Asked.call asked) /\
         sent_url spec = (Origin.host origin, Origin.port origin, HttpsUrl.request_target url) /\
         header_pair <$> HopSpec.headers spec = call_headers (Asked.call asked) /\
         from_option HexContent.to_bytes [] (HopSpec.body spec) = call_body (Asked.call asked)) /\
      (HopSpec.hop spec <> 1%N ->
         NetHttpCall.follow_redirects (Asked.call asked) = true /\ HopSpec.body spec = None /\
         HttpMethod.permits_body (HopSpec.method spec) = false) /\
      (header_pair <$> HopSpec.headers spec = call_headers (Asked.call asked) \/ HopSpec.headers spec = []) /\
      (sent_origin spec <> (Origin.host origin, Origin.port origin) ->
         HopSpec.headers spec = [] /\ HopSpec.credential spec = None)) specs.
Proof.
  intros (t & Ht & [Hq|(canonical & hops & Hc & Hch & [Hi1 Hi2 Hi3])])%net_invoke_chronicle; exists t; (split; [done|]).
  - assert (exchanges t = []) as ->.
    { clear Ht. induction Hq as [|e t He _ IH]; [done|]. by destruct e. }
    cbn. split_and!; [lia|constructor..].
  - apply chronicle_exchanges in Hch as (went & Hw & Hf).
    assert (HopSpec.hop <$> (HttpExchangeAuthorisation.spec <$> exchanges t) = HopRequest.number <$> went) as En.
    { clear - Hf. induction Hf as [|hop sent went l (i & Hc & _) _ IH]; [done|]. rewrite !fmap_cons, IH.
      by rewrite (carries_number _ _ _ Hc). }
    cbv zeta. split_and!.
    + rewrite length_fmap, <- (Forall2_length _ _ _ Hf). apply sublist_length in Hw. etransitivity; [exact Hw|].
      apply length_hops with canonical. by split.
    + rewrite En. apply (fmap_sublist HopRequest.number) in Hw. rewrite Hi2 in Hw. eapply sublist_sorted; [exact Hw|].
      apply seq_sorted.
    + apply (NoDup_fmap_1 (fun '(host, port, target) => "https://" +:+ (host +:+ ":" +:+ show_N port) +:+ target)).
      replace (_ <$> (sent_url <$> _)) with ((fun h => HttpsUrl.canonical (HopRequest.url h)) <$> went).
      { eapply sublist_NoDup; [exact Hi1|]. by apply fmap_sublist. }
      clear - Hf. induction Hf as [|hop sent went l (i & Hc & _) _ IH]; [done|]. rewrite !fmap_cons, IH. f_equal.
      unfold sent_url, sent_origin. rewrite (carries_host _ _ _ Hc), (carries_port _ _ _ Hc), (carries_target _ _ _ Hc).
      unfold HttpsUrl.canonical, Origin.display, HopRequest.host, HopRequest.port. by rewrite !string_app_assoc.
    + apply canonicalize_Ok in Hc as (url & Hu & _ & _ & _ & _ & Ecan). apply Forall_fmap, Forall_forall. intros sent Hin.
      apply list_elem_of_lookup in Hin as [n Hn].
      destruct (Forall2_lookup_r _ _ _ _ _ Hf Hn) as (hop & Hhop & injection & Hca & Hno).
      assert (hop ∈ hops) as Hin by (eapply elem_of_submseteq;
        [by eapply list_elem_of_lookup_2|by apply sublist_submseteq]).
      rewrite Forall_forall in Hi3. apply Hi3, hop_of_kept in Hin as (Hk1 & Hk2 & Hk3). subst canonical. cbn in *.
      exists url. cbn. rewrite (carries_number _ _ _ Hca), (carries_method _ _ _ Hca), (carries_headers _ _ _ Hca).
      destruct (carries_body _ _ _ Hca) as [Hb Hb0].
      assert (forall l : list HttpHeader.t, header_pair <$> l = [] -> l = []) as Hnil by (by intros [|]).
      split_and!; [done|..].
      * intros E1. destruct Hk1 as [[_ ->]|[? _]]; [|lia]. cbn in *.
        unfold sent_url, sent_origin. by rewrite (carries_host _ _ _ Hca), (carries_port _ _ _ Hca),
          (carries_target _ _ _ Hca).
      * intros Hne. destruct Hk1 as [[? _]|(_ & ? & ? & ?)]; [done|]. split_and!; [done|by apply Hb0|done].
      * destruct Hk2 as [->|E]; [by left|right]. apply Hnil. by rewrite (carries_headers _ _ _ Hca).
      * unfold sent_origin. rewrite (carries_host _ _ _ Hca), (carries_port _ _ _ Hca). intros Ho.
        destruct Hk3 as [E1 E2].
        { intros E. apply Ho. unfold HopRequest.host, HopRequest.port. by rewrite E. }
        split; [apply Hnil; by rewrite (carries_headers _ _ _ Hca)|]. by rewrite (carries_credential _ _ _ Hca), (Hno E2).
Qed.

(** C17: A request ends: six turns of its loop suffice, and more change nothing. *)
Theorem request_ends `{Hmac} cfg asked fuel reads commits started worlds s :
  6 <= fuel ->
  (net_invoke cfg asked fuel reads commits started worlds s).2 <> Ok None /\
  net_invoke cfg asked fuel reads commits started worlds s = net_invoke cfg asked 6 reads commits started worlds s.
Proof.
  intros Hf.
  assert (forall n, 6 <= n -> (net_invoke cfg asked n reads commits started worlds s).2 <> Ok None /\
            net_invoke cfg asked (S n) reads commits started worlds s = net_invoke cfg asked n reads commits started
              worlds s) as Hn.
  { intros n Hn. unfold net_invoke, and_then. destruct (transact _ _ s) as [s1 [located|e]] eqn:El; [|done].
    destruct located as [reason|plan|plan|canonical invocation]; try done.
    apply transact_Ok, locate_Resolve in El as (_ & _ & Hc).
    destruct (first_chain_ok cfg asked worlds _ _ _ invocation started Hc) as [Hok Hnm].
    apply (net_loop_ends cfg asked worlds canonical n _ _ [] s1 Hok Hnm); [|cbn; unfold MAX_HOPS, MAX_REDIRECTS; lia].
    exists (NetState.trace s1), []. split; [by rewrite app_nil_r|constructor]. }
  split; [by apply Hn|]. induction Hf as [|n Hf IH]; [done|]. rewrite <- IH. by apply Hn.
Qed.

(** C16: A run's budgets hold: if what its hops were charged is within them, it is after any request, of this run or
    another: hops, bytes out, bytes in, origins. *)
Theorem net_budgets_hold `{Hmac} cfg asked fuel reads commits started worlds s s' r run :
  net_invoke cfg asked fuel reads commits started worlds s = (s', r) ->
  rows_fit cfg (run_hops run s) -> rows_fit cfg (run_hops run s').
Proof. intros E. apply (keeps_run _ _ _ _ _ (net_invoke_budgeted cfg asked fuel reads commits started worlds) E). Qed.


(** * At start *)

Definition hop_id (r : NetHopRow.t) : string * N := (NetHopRow.invocation_id r, NetHopRow.hop r).

(** The primary keys of a request's tables. *)
Definition keyed (s : NetState.t) : Prop :=
  NoDup (hop_id <$> NetState.net_hop s) /\ NoDup (NetRequestRow.invocation_id <$> NetState.net_request s) /\
  NoDup (InjectionRow.invocation_id <$> NetState.secret_injection s).

Definition keeps_keyed (s s' : NetState.t) : Prop := keyed s -> keyed s'.

#[local] Instance keeps_keyed_preorder : PreOrder keeps_keyed.
Proof. split; [by intros s H|]. intros s1 s2 s3 H1 H2 H. by apply H2, H1. Qed.

(** The tables with a key. *)
Definition rows_of (s : NetState.t) := (NetState.net_hop s, NetState.net_request s, NetState.secret_injection s).

Lemma same_rows_keyed s s' : rows_of s' = rows_of s -> keeps_keyed s s'.
Proof. intros [= E1 E2 E3] (H1 & H2 & H3). split_and!; by rewrite ?E1, ?E2, ?E3. Qed.

Lemma other_keyed {A} (m : NetM A) : (forall s, rows_of (m s).1 = rows_of s) -> keeps keeps_keyed m.
Proof. intros H s. by apply same_rows_keyed. Qed.

(** A row with a key no other has. *)
Lemma NoDup_fresh {A K} (key : A -> K) (takes : A -> bool) rows row :
  existsb takes rows = false -> (forall r, key r = key row -> takes r = true) ->
  NoDup (key <$> rows) -> NoDup (key <$> rows ++ [row]).
Proof.
  intros E Ht Hn. rewrite fmap_app. apply NoDup_app. split_and!; [done| |apply NoDup_singleton].
  intros x (r & -> & Hr)%list_elem_of_fmap E'%list_elem_of_singleton.
  apply not_true_iff_false in E. apply E, existsb_exists. exists r. split; [by apply list_elem_of_In|by apply Ht].
Qed.

(** An update of rows leaves their keys. *)
Lemma update_one_key {Row K} (key : Row -> K) takes set_ what rows rows' :
  (forall r, key (set_ r) = key r) -> update_one takes set_ what rows = Ok rows' -> key <$> rows' = key <$> rows.
Proof.
  intros Hk. unfold update_one. destruct (_ =? 1); [|done]. intros [= <-].
  change (map ?f ?l) with (f <$> l). rewrite <- list_fmap_compose. apply list_fmap_ext.
  intros _ r _. cbn. by destruct (takes r).
Qed.

Lemma next_hop_fresh s invocation n :
  (invocation, n) ∈ hop_id <$> NetState.net_hop s -> (n < next_hop s invocation)%N.
Proof.
  intros (r & [= -> ->] & Hr)%list_elem_of_fmap. unfold next_hop.
  assert (NetHopRow.hop r ∈ NetHopRow.hop <$> List.filter (fun x => String.eqb (NetHopRow.invocation_id x)
    (NetHopRow.invocation_id r)) (NetState.net_hop s)) as Hin.
  { apply list_elem_of_fmap. exists r. split; [done|]. apply list_elem_of_In, filter_In.
    split; [by apply list_elem_of_In|apply String.eqb_refl]. }
  revert Hin. generalize (NetHopRow.hop <$> List.filter (fun x => String.eqb (NetHopRow.invocation_id x)
    (NetHopRow.invocation_id r)) (NetState.net_hop s)).
  induction l as [|x l IH]; [by intros ?%not_elem_of_nil|]. cbn. intros [<-|Hin]%elem_of_cons; [lia|].
  specialize (IH Hin). lia.
Qed.

Lemma insert_hop_keyed row : keeps keeps_keyed (exec (insert_hop row)).
Proof.
  intros s [H1 H2]. unfold exec. destruct (insert_hop row s) as [s'|] eqn:E; [|done].
  apply insert_hop_Some in E as (-> & En & _). split; [|done]. cbn. rewrite fmap_app. apply NoDup_app.
  split_and!; [done| |apply NoDup_singleton].
  intros x Hx ->%list_elem_of_singleton. unfold hop_id in Hx. apply next_hop_fresh in Hx. lia.
Qed.

Lemma insert_request_keyed row : keeps keeps_keyed (exec (insert_request row)).
Proof.
  intros s (H1 & H2 & H3). unfold exec, insert_request. destruct (existsb _ _) eqn:E; [done|]. split_and!; [done| |done].
  refine (NoDup_fresh _ _ _ _ E _ H2). intros r ->. apply String.eqb_refl.
Qed.

Lemma insert_injection_keyed row : keeps keeps_keyed (exec (insert_injection row)).
Proof.
  intros s (H1 & H2 & H3). unfold exec, insert_injection. destruct (existsb _ _) eqn:E; [done|].
  cbn [orb]. case (existsb _ _); [by split_and!|]. split_and!; [done|done|].
  refine (NoDup_fresh _ _ _ _ E _ H3). intros r ->. apply String.eqb_refl.
Qed.

Lemma insert_key_keyed row : keeps keeps_keyed (exec (insert_key row)).
Proof. apply other_keyed. intros s. unfold exec, insert_key. by destruct (_ || _). Qed.

Lemma update_hops_keyed takes ending what : keeps keeps_keyed (update NetState.net_hop NetState.with_hops takes
  (end_hop_row ending) what).
Proof.
  intros s (H1 & H2 & H3). unfold update. destruct (update_one _ _ _ _) as [rows|] eqn:E; [|done].
  split_and!; [|done|done]. cbn. by rewrite (fun H => update_one_key hop_id _ _ _ _ _ H E).
Qed.

Lemma update_requests_keyed takes state failure status hops redirect what :
  keeps keeps_keyed (update NetState.net_request NetState.with_requests takes
    (end_request_row state failure status hops redirect) what).
Proof.
  intros s (H1 & H2 & H3). unfold update. destruct (update_one _ _ _ _) as [rows|] eqn:E; [|done].
  split_and!; [done| |done]. cbn. by rewrite (fun H => update_one_key NetRequestRow.invocation_id _ _ _ _ _ H E).
Qed.

Lemma update_injections_keyed takes state failure what :
  keeps keeps_keyed (update NetState.secret_injection NetState.with_injections takes
    (end_injection_row state failure) what).
Proof.
  intros s (H1 & H2 & H3). unfold update. destruct (update_one _ _ _ _) as [rows|] eqn:E; [|done].
  split_and!; [done|done|]. cbn. by rewrite (fun H => update_one_key InjectionRow.invocation_id _ _ _ _ _ H E).
Qed.

#[local] Hint Resolve insert_hop_keyed insert_request_keyed insert_key_keyed insert_injection_keyed update_hops_keyed
  update_requests_keyed update_injections_keyed : kept.

Ltac keyed := keep; try (apply other_keyed; intros ?; by cbn).

Section keyed.
  Context `{HM : Hmac} (cfg : Config.t) (asked : Asked.t).

Lemma spent_keyed run : keeps keeps_keyed (spent run).
Proof. apply other_keyed. intros s. unfold spent. by destruct (_ || _). Qed.

#[local] Hint Resolve spent_keyed : kept.

Lemma locate_keyed reads preview : keeps keeps_keyed (locate cfg asked reads preview).
Proof. unfold locate, standing, key_bound, refuse, assess, prepare, secret_deny, reached, deny. keyed. Qed.

Lemma precheck_keyed reads hop : keeps keeps_keyed (precheck cfg asked reads hop).
Proof. unfold precheck, standing, key_bound, assess, prepare, secret_deny, reached. keyed. Qed.

Lemma record_intent_keyed reads invocation canonical hop addresses :
  keeps keeps_keyed (record_intent cfg asked reads invocation canonical hop addresses).
Proof.
  unfold record_intent, standing, key_bound, refuse, assess, prepare, secret_deny, reached, deny, record_request,
    record_secret_intent, record_hop. keyed.
Qed.

Lemma end_hop_keyed invocation hop ending secret : keeps keeps_keyed (end_hop asked invocation hop ending secret).
Proof. unfold end_hop, record_outcome. keyed. Qed.

Lemma end_request_keyed invocation ending hops hits : keeps keeps_keyed (end_request invocation ending hops hits).
Proof. unfold end_request, audit_hits. keyed. Qed.

#[local] Hint Resolve locate_keyed precheck_keyed record_intent_keyed end_hop_keyed end_request_keyed : kept.

Lemma net_finish_keyed commits chain hop why : keeps keeps_keyed (net_finish asked commits chain hop why).
Proof. unfold net_finish, end_redirect. keyed. Qed.

#[local] Hint Resolve net_finish_keyed : kept.

Lemma net_hop_keyed world chain hop : keeps keeps_keyed (net_hop cfg asked world chain hop).
Proof. unfold net_hop, net_addresses, net_intent, exchange, net_settle, net_end, record_resolution, refuse. keyed. Qed.

#[local] Hint Resolve net_hop_keyed : kept.

Lemma net_invoke_keyed fuel reads commits started worlds :
  keeps keeps_keyed (net_invoke cfg asked fuel reads commits started worlds).
Proof.
  unfold net_invoke. apply net_keeps_bind; [typeclasses eauto|keyed|].
  intros [reason|plan|plan|canonical invocation]; try (apply net_keeps_done || apply net_keeps_fail; typeclasses eauto).
  generalize (Chain.new invocation canonical started), (HopRequest.first canonical).
  induction fuel as [|n IH]; intros chain hop; cbn [net_loop]; keyed.
Qed.
End keyed.

(** A loop that ends every open row of a table in its place. *)
Lemma update_here {Row} (takes : Row -> bool) set_ what pre post r :
  takes r = true -> Forall (fun x => takes x = false) (pre ++ post) ->
  update_one takes set_ what (pre ++ r :: post) = Ok (pre ++ set_ r :: post).
Proof.
  intros Hr [Hpre Hpost]%Forall_app.
  assert (forall l, Forall (fun x => takes x = false) l ->
            List.filter takes l = [] /\ map (fun x => if takes x then set_ x else x) l = l) as Hl.
  { induction 1 as [|x l Hx _ [IH1 IH2]]; [done|]. cbn. by rewrite Hx, IH1, IH2. }
  destruct (Hl _ Hpre) as [F1 M1], (Hl _ Hpost) as [F2 M2]. unfold update_one. rewrite List.filter_app, F1.
  cbn [List.filter app].
  rewrite Hr, F2. cbn [length Nat.eqb]. rewrite map_app, M1. cbn [map]. by rewrite Hr, M2.
Qed.

Lemma once_apart {A K} (key : A -> K) (takes : A -> bool) pre post r :
  NoDup (key <$> pre ++ r :: post) -> (forall x, takes x = true -> key x = key r) ->
  Forall (fun x => takes x = false) (pre ++ post).
Proof.
  intros Hn Ht. rewrite fmap_app, fmap_cons in Hn. apply NoDup_app in Hn as (_ & Hd & [Hp _]%NoDup_cons).
  apply Forall_forall. intros x Hx. destruct (takes x) eqn:E; [|done]. apply Ht in E. exfalso.
  apply elem_of_app in Hx as [Hx|Hx].
  - apply (Hd (key x)); [by apply list_elem_of_fmap_2|]. rewrite E. by left.
  - apply Hp. rewrite <- E. by apply list_elem_of_fmap_2.
Qed.

Section loop.
  Context {Row K : Type} (table : NetState.t -> list Row) (key : Row -> K) (is_open : Row -> bool) (end_ : Row -> Row)
    (said : Row -> Effect.t) (same : NetState.t -> NetState.t -> Prop) `{!PreOrder same} (g : Row -> NetM ()).
  Context (Hkey : forall r, key (end_ r) = key r) (s0 : NetState.t).
  Context (Hstep : forall pre r post s, same s0 s -> table s = pre ++ r :: post -> NoDup (key <$> table s) ->
    is_open r = true ->
    exists s', g r s = (s', Ok ()) /\ table s' = pre ++ end_ r :: post /\ same s s' /\
      NetState.trace s' = NetState.trace s ++ [said r]).

Definition ended (r : Row) : Row := if is_open r then end_ r else r.

Lemma each_ends rest pre s :
  same s0 s -> table s = (ended <$> pre) ++ rest -> NoDup (key <$> table s) ->
  exists s', each g (List.filter is_open rest) s = (s', Ok ()) /\ table s' = ended <$> pre ++ rest /\ same s0 s' /\
    NetState.trace s' = NetState.trace s ++ (said <$> List.filter is_open rest).
Proof.
  revert pre s. induction rest as [|r rest IH]; intros pre s Hs Ht Hn.
  - exists s. cbn. rewrite !app_nil_r in *. done.
  - cbn [List.filter]. assert (forall s1, table s1 = (ended <$> pre ++ [r]) ++ rest ->
      key <$> table s1 = key <$> table s) as Hk.
    { intros s1 ->. rewrite Ht, !fmap_app, <- app_assoc. cbn. do 2 f_equal. unfold ended. by destruct (is_open r). }
    destruct (is_open r) eqn:Er.
    + destruct (Hstep (ended <$> pre) r rest s Hs Ht Hn Er) as (s1 & Hg & Ht1 & Hs1 & Htr).
      assert (table s1 = (ended <$> pre ++ [r]) ++ rest) as Ht1'.
      { rewrite Ht1, fmap_app, <- app_assoc. cbn. unfold ended at 3. by rewrite Er. }
      destruct (IH (pre ++ [r]) s1) as (s' & He & Ht' & Hs' & Htr'); [by etransitivity|done|by rewrite Hk|].
      exists s'. cbn [each]. unfold and_then. rewrite Hg, He, Ht', <- app_assoc. split_and!; try done.
      rewrite Htr', Htr, <- app_assoc. done.
    + destruct (IH (pre ++ [r]) s) as (s' & He & Ht' & Hs' & Htr'); [done| |done|].
      { rewrite Ht, fmap_app, <- app_assoc. cbn. unfold ended at 3. by rewrite Er. }
      exists s'. by rewrite He, Ht', <- app_assoc.
Qed.
End loop.

Definition hop_open (r : NetHopRow.t) : bool := String.eqb (NetHopRow.state r) "INTENT".
Definition request_open (r : NetRequestRow.t) : bool := String.eqb (NetRequestRow.state r) "INTENT".
Definition injection_open (r : InjectionRow.t) : bool := String.eqb (InjectionRow.state r) "INTENT".

(** How a restart ends what it finds open. *)
Definition abandoned_hop (r : NetHopRow.t) : NetHopRow.t :=
  end_hop_row (HopEnding.Make "UNKNOWN" "OUTCOME_UNKNOWN" (NetHopRow.status r) (NetHopRow.tls_established r)
    (NetHopRow.bytes_sent r)
                 (NetHopRow.bytes_received r) false 0 0 false) r.

Definition abandoned_request (hops : list NetHopRow.t) (r : NetRequestRow.t) : NetRequestRow.t :=
  let n := hops_of (NetRequestRow.invocation_id r) hops in
  end_request_row "UNKNOWN" None None (then_some (0 <? n)%N n) None r.

Definition abandoned_injection (r : InjectionRow.t) : InjectionRow.t :=
  end_injection_row "UNKNOWN" (InjectionRow.failure r) r.

(** What no loop touches. *)
Definition rest_of (s : NetState.t) := (NetState.net_idempotency s, NetState.secret_use s, NetState.index s).

(** What each of them does not. *)
Definition but_hops (s : NetState.t) := (NetState.net_request s, NetState.secret_injection s, rest_of s).
Definition but_requests (s : NetState.t) := (NetState.net_hop s, NetState.secret_injection s, rest_of s).
Definition but_injections (s : NetState.t) := (NetState.net_hop s, NetState.net_request s, rest_of s).

Definition same_of {A} (f : NetState.t -> A) (s s' : NetState.t) : Prop := f s' = f s.

#[local] Instance same_of_preorder {A} (f : NetState.t -> A) : PreOrder (same_of f).
Proof. split; [by intros s|]. intros s1 s2 s3. unfold same_of. congruence. Qed.

Lemma hops_of_ended invocation hops : hops_of invocation
  (ended hop_open abandoned_hop <$> hops) = hops_of invocation hops.
Proof.
  unfold hops_of. f_equal. induction hops as [|r hops IH]; [done|]. cbn.
  assert (NetHopRow.invocation_id (ended hop_open abandoned_hop r) = NetHopRow.invocation_id r) as -> by (unfold ended;
    by destruct (hop_open r)).
  destruct (String.eqb _ _); cbn; by rewrite IH.
Qed.

Lemma end_open_hop_here pre r post s :
  NetState.net_hop s = pre ++ r :: post -> NoDup (hop_id <$> NetState.net_hop s) -> hop_open r = true ->
  exists s', end_open_hop r s = (s', Ok ()) /\ NetState.net_hop s' = pre ++ abandoned_hop r :: post /\
    same_of but_hops s s' /\
    NetState.trace s' = NetState.trace s ++ [Effect.Restarted (NetHopRow.invocation_id r) (Some (NetHopRow.hop r))].
Proof.
  intros Ht Hn Ho. assert (open_hop (NetHopRow.invocation_id r) (NetHopRow.hop r) r = true) as Hr.
  { unfold open_hop. unfold hop_open in Ho. by rewrite String.eqb_refl, N.eqb_refl, Ho. }
  rewrite Ht in Hn. pose proof (once_apart hop_id (open_hop (NetHopRow.invocation_id r)
    (NetHopRow.hop r)) pre post r Hn) as Ha.
  eexists. split; [|split; [|split]].
  - unfold end_open_hop, and_then, update. rewrite Ht, update_here; [done|done|]. apply Ha. intros x Hx.
    unfold open_hop in Hx.
    apply andb_true_iff in Hx as [[Hx1%String.eqb_eq Hx2%N.eqb_eq]%andb_true_iff _]. unfold hop_id. congruence.
  - done.
  - done.
  - done.
Qed.

Lemma end_open_request_here hops pre r post s :
  hops_of (NetRequestRow.invocation_id r) (NetState.net_hop s) = hops_of (NetRequestRow.invocation_id r) hops ->
  NetState.net_request s = pre ++ r :: post -> NoDup (NetRequestRow.invocation_id <$> NetState.net_request s) ->
  request_open r = true ->
  exists s', end_open_request r s = (s', Ok ()) /\ NetState.net_request s' = pre ++ abandoned_request hops r :: post /\
    same_of but_requests s s' /\ NetState.trace s' = NetState.trace s ++ [Effect.Restarted
      (NetRequestRow.invocation_id r) None].
Proof.
  intros Hh Ht Hn Ho. assert (open_request (NetRequestRow.invocation_id r) r = true) as Hr.
  { unfold open_request. unfold request_open in Ho. by rewrite String.eqb_refl, Ho. }
  rewrite Ht in Hn. pose proof (once_apart NetRequestRow.invocation_id (open_request
    (NetRequestRow.invocation_id r)) pre post r Hn) as Ha.
  eexists. split; [|split; [|split]].
  - unfold end_open_request, and_then, gets, update. rewrite Ht, update_here; [done|done|]. apply Ha. intros x Hx.
    unfold open_request in Hx. by apply andb_true_iff in Hx as [Hx1%String.eqb_eq _].
  - cbn. rewrite Hh. done.
  - done.
  - done.
Qed.

Lemma end_open_injection_here pre r post s :
  NetState.secret_injection s = pre ++ r :: post -> NoDup (InjectionRow.invocation_id <$> NetState.secret_injection s) ->
  injection_open r = true ->
  exists s', end_open_injection r s = (s', Ok ()) /\
    NetState.secret_injection s' = pre ++ abandoned_injection r :: post /\ same_of but_injections s s' /\
    NetState.trace s' = NetState.trace s ++ [Effect.SecretRestarted
      (InjectionRow.invocation_id r) (InjectionRow.run_id r) (InjectionRow.handle r)].
Proof.
  intros Ht Hn Ho. assert (open_injection (InjectionRow.invocation_id r) r = true) as Hr.
  { unfold open_injection. unfold injection_open in Ho. by rewrite String.eqb_refl, Ho. }
  rewrite Ht in Hn. pose proof (once_apart InjectionRow.invocation_id (open_injection
    (InjectionRow.invocation_id r)) pre post r Hn) as Ha.
  eexists. split; [|split; [|split]].
  - unfold end_open_injection, and_then, update. rewrite Ht, update_here; [done|done|]. apply Ha. intros x Hx.
    unfold open_injection in Hx. by apply andb_true_iff in Hx as [Hx1%String.eqb_eq _].
  - done.
  - done.
  - done.
Qed.

(** What a restart says of what it ends. *)
Definition said_of_hop (r : NetHopRow.t) : Effect.t :=
  Effect.Restarted (NetHopRow.invocation_id r) (Some (NetHopRow.hop r)).
Definition said_of_request (r : NetRequestRow.t) : Effect.t := Effect.Restarted (NetRequestRow.invocation_id r) None.
Definition said_of_injection (r : InjectionRow.t) : Effect.t :=
  Effect.SecretRestarted (InjectionRow.invocation_id r) (InjectionRow.run_id r) (InjectionRow.handle r).

Lemma ended_closed {Row} (is_open : Row -> bool) end_ rows :
  (forall r, is_open (end_ r) = false) -> Forall (fun r => is_open r = false) (ended is_open end_ <$> rows).
Proof. intros H. apply Forall_fmap, Forall_forall. intros r _. cbn. unfold ended. by destruct (is_open r) eqn:E. Qed.

Lemma reconcile_injections_ends s :
  keyed s ->
  exists s', reconcile_injections s = (s',
    Ok (N.of_nat (length (List.filter injection_open (NetState.secret_injection s))))) /\
    NetState.secret_injection s' = ended injection_open abandoned_injection <$> NetState.secret_injection s /\
    same_of but_injections s s' /\
    NetState.trace s' = NetState.trace s ++ (said_of_injection <$> List.filter injection_open
      (NetState.secret_injection s)).
Proof.
  intros (_ & _ & K3).
  destruct (each_ends NetState.secret_injection InjectionRow.invocation_id injection_open abandoned_injection
    said_of_injection (same_of but_injections) end_open_injection (fun _ => eq_refl) s)
    with (rest := NetState.secret_injection s) (pre := @nil InjectionRow.t) (s := s) as (s' & E & T & Ss & Tr);
    [|done|done|done|].
  { intros pre r post s1 _. apply end_open_injection_here. }
  exists s'. unfold reconcile_injections, and_then, gets.
  change (fun r => String.eqb (InjectionRow.state r) "INTENT") with injection_open. by rewrite E.
Qed.

Lemma reconcile_open_ends s :
  keyed s ->
  exists s', reconcile_open s = (s', Ok (N.of_nat (length (List.filter request_open (NetState.net_request s))))) /\
    NetState.net_hop s' = ended hop_open abandoned_hop <$> NetState.net_hop s /\
    NetState.net_request s' = ended request_open (abandoned_request (NetState.net_hop s)) <$> NetState.net_request s /\
    NetState.secret_injection s' = NetState.secret_injection s /\ rest_of s' = rest_of s /\
    NetState.trace s' = NetState.trace s ++ (said_of_hop <$> List.filter hop_open (NetState.net_hop s)) ++
      (said_of_request <$> List.filter request_open (NetState.net_request s)).
Proof.
  intros (K1 & K2 & _).
  destruct (each_ends NetState.net_hop hop_id hop_open abandoned_hop said_of_hop (same_of but_hops) end_open_hop
      (fun _ => eq_refl) s)
    with (rest := NetState.net_hop s) (pre := @nil NetHopRow.t) (s := s) as (s1 & E1 & T1 & S1 & Tr1);
      [|done|done|done|].
  { intros pre r post s1 _. apply end_open_hop_here. }
  injection S1 as Sr Si Sk Su Sx.
  destruct (each_ends NetState.net_request NetRequestRow.invocation_id request_open (abandoned_request
    (NetState.net_hop s)) said_of_request (same_of but_requests) end_open_request (fun _ => eq_refl) s1)
    with (rest := NetState.net_request s1) (pre := @nil NetRequestRow.t) (s := s1) as (s2 & E2 & T2 & S2 & Tr2);
      [|done|done|by rewrite Sr|].
  { intros pre r post s2 S2. apply end_open_request_here. injection S2 as Sh _ _ _ _.
    by rewrite Sh, T1, hops_of_ended. }
  injection S2 as Sh Si2 Sk2 Su2 Sx2.
  unfold reconcile_open, and_then, gets. change (fun r => String.eqb (NetHopRow.state r) "INTENT") with hop_open.
  change (fun r => String.eqb (NetRequestRow.state r) "INTENT") with request_open. rewrite E1, E2. cbn [app] in T1, T2.
  exists s2. unfold rest_of. rewrite Sh, T1, T2, Tr2, Tr1, Si2, Sk2, Su2, Sx2, Si, Sk, Su, Sx, Sr, <- app_assoc. done.
Qed.

(** C21: A restart leaves nothing open. Over tables with their primary keys, which every request keeps, reconciliation
    succeeds: every use of a secret, hop and request that was open is ended UNKNOWN, a hop as far as it had come and a
    request with the hops it had made; every other row and table and the uses counted are as they were; one record is
    made for each, and as many uses and requests are reported as were open. *)
Theorem restart_settles s :
  keyed s ->
  (exists s', reconcile s =
       (s', Ok (N.of_nat (length (List.filter injection_open (NetState.secret_injection s))),
                N.of_nat (length (List.filter request_open (NetState.net_request s))))) /\
     NetState.secret_injection s' = ended injection_open abandoned_injection <$> NetState.secret_injection s /\
     NetState.net_hop s' = ended hop_open abandoned_hop <$> NetState.net_hop s /\
     NetState.net_request s' = ended request_open (abandoned_request (NetState.net_hop s)) <$> NetState.net_request s /\
     Forall (fun r => injection_open r = false) (NetState.secret_injection s') /\
     Forall (fun r => hop_open r = false) (NetState.net_hop s') /\
     Forall (fun r => request_open r = false) (NetState.net_request s') /\
     rest_of s' = rest_of s /\
     NetState.trace s' = NetState.trace s ++
       (said_of_injection <$> List.filter injection_open (NetState.secret_injection s)) ++
       (said_of_hop <$> List.filter hop_open (NetState.net_hop s)) ++
       (said_of_request <$> List.filter request_open (NetState.net_request s))) /\
  (forall (H : Hmac) cfg asked fuel reads commits started worlds,
    keyed (net_invoke cfg asked fuel reads commits started worlds s).1).
Proof.
  intros Hk. split; [|intros; by apply net_invoke_keyed].
  destruct (reconcile_injections_ends s Hk) as (s1 & E1 & T1 & S1 & Tr1). injection S1 as Sh Sr Sk Su Sx.
  destruct (reconcile_open_ends s1) as (s2 & E2 & H2 & R2 & I2 & O2 & Tr2).
  { destruct Hk as (K1 & K2 & K3). split_and!; [by rewrite Sh|by rewrite Sr|]. rewrite T1, <- list_fmap_compose.
    erewrite list_fmap_ext; [exact K3|]. intros _ r _. cbn. unfold ended. by destruct (injection_open r). }
  exists s2. unfold reconcile, and_then. rewrite E1, E2, I2, T1, H2, R2, Tr2, Tr1, O2, Sh, Sr, <- app_assoc.
  split_and!; try done; try (by apply ended_closed). unfold rest_of. by rewrite Sk, Su, Sx.
Qed.

(** * At concrete inputs *)

(** A secret for one origin, a rule that allows, and a request that follows one
    redirect to an answer which echoes what it was sent. *)
Definition demo_metadata : SecretMetadata.t :=
  SecretMetadata.Make api (match Endpoint.parse "a.example:443" with Ok e => [e] | Err _ => [] end)
    (Some "x-api-key"%string) None
    [InjectionMode.Egress] false.

Definition allow_all : Rule.t :=
  Rule.Make (RuleId.Make "allow")
    (SourceLocation.Make "demo.toml" 1) PolicyContext.Effect.Allow Reason.NoMatchingRule When.default
    Unless.default Obligations.none None.

Definition demo_config : Config.t :=
  Config.Make NetBudget.default []
    (CompiledPolicy.Make (ProfileName.Make "demo") [ProfileName.Make "demo"] [allow_all] []) [demo_metadata].

Definition grant_of (c : invariant Capability.t) : list Grant.t := match c with Ok c => [Grant.Make "cap" c] | Err _ =>
  [] end.

Definition demo_reads (id : string) : Reads.t :=
  Reads.Make true true false (grant_of (required "a.example" 443 HttpMethod.Get 10) ++ grant_of (secret_required api))
    (PolicyContext.new PolicyContext.Origin.Interactive TaintLevel.None) (Ok 1%Z) id.

Definition demo_asked : Asked.t :=
  Asked.Make "me" "ses" "run" (NetHttpCall.Make HttpMethod.Get "https://a.example/x" None None
    (Some "api"%string) true None)
    (Some "key"%string).

Definition demo_common : Common.t := Common.Make "chan" "inv".

Definition text_content (text : string) : HexContent.t :=
  match HexContent.from_bytes (bytes_of_text text) with Some h => h | None => HexContent.Make "" end.

Definition demo_done (hop : N) : HttpExchangeDone.t :=
  if (hop =? 1)%N then
    HttpExchangeDone.Make ExchangeDisposition.Completed (Some 302%N) [] (Some "/y"%string)
      (text_content "") false 0 0 0 100 100
  else
    HttpExchangeDone.Make ExchangeDisposition.Completed (Some 200%N) [] None
      (text_content "you sent hunter2hunter2!") false 0 0 1
      100 100.

Definition demo_world (hop : N) : World.t :=
  World.Make 0 (demo_reads "") true
    (Channel.Done _ demo_common (HttpResolveDone.Make ResolveDisposition.Resolved [NetAddress.from_address
      (Address.V4 [93; 184; 216; 34]%N)]))
    true (demo_reads ("inj" +:+ show_N hop)) true (Ok (bytes_of_text "hunter2hunter2")) (Ok ())
      (Channel.Done _ demo_common (demo_done hop)) true.

Definition demo_state : NetState.t := NetState.Make [] [] [] [] ∅ demo_index [].

Definition demo_run : NetState.t * result (option NetReply.t) AuthorityError.t :=
  @net_invoke demo_hmac demo_config demo_asked 6 (demo_reads "inv") true 0 demo_world demo_state.

(** What the caller reads. *)
Definition read_reply (r : result (option NetReply.t) AuthorityError.t) : option (N * string * nat) :=
  match r with
  | Ok (Some (NetReply.Done _ _ output)) =>
      Some (NetHttpResult.status output, string_of_list_ascii (HexContent.to_bytes (NetHttpResult.body output)),
            length (NetHttpResult.hops output))
  | _ => None
  end.

Example demo_answer : read_reply demo_run.2 = Some (200%N, "you sent [redacted:api]!"%string, 2).
Proof. by vm_compute. Qed.

Definition url_of (text : string) : HttpsUrl.t :=
  match HttpsUrl.parse text with Ok u => u | Err _ => HttpsUrl.Make (Origin.Make "" 0) "" None end.

Lemma url_exact_witness :
  HttpsUrl.parse "https://a.example?q=%0a" = Ok (url_of "https://a.example?q=%0a") /\
  HttpsUrl.parse "https://a.example:443/?q=%0A" = Ok (url_of "https://a.example?q=%0a").
Proof.
  assert (HttpsUrl.parse "https://a.example?q=%0a" = Ok (url_of "https://a.example?q=%0a")) as Hp by (by vm_compute).
  split; [exact Hp|]. destruct (url_exact "https://a.example?q=%0a" (url_of "https://a.example?q=%0a")) as [_ Hu].
  destruct (Hu Hp) as (_ & Hc & _). by vm_compute in Hc |- *.
Defined.

Definition demo_call : NetHttpCall.t := Asked.call demo_asked.
Definition demo_credential : HttpCredential.t :=
  HttpCredential.Make "api" (match SecretHeaderName.new "x-api-key" with Some n => n | None => SecretHeaderName.Make ""
    end) None.

Definition demo_canonical : Canonical.t :=
  Canonical.Make HttpMethod.Get (url_of "https://a.example/x") [] [] (Some "api"%string) true None.

Lemma exchange_agrees_witness :
  canonicalize demo_call ["x-api-key"%string] (fun _ => false) = Ok demo_canonical /\
  exists spec, hop_spec (HopRequest.first demo_canonical) [Address.V4 [93; 184; 216;
    34]%N] 262144 (Some demo_credential) = Ok spec /\
    check_exchange (HttpExchangeAuthorisation.new demo_common spec) = Ok ().
Proof.
  assert (canonicalize demo_call ["x-api-key"%string] (fun _ => false) = Ok demo_canonical) as Hc by (by vm_compute).
  split; [exact Hc|].
  destruct (exchange_agrees demo_call ["x-api-key"%string] (fun _ => false) demo_canonical
    (HopRequest.first demo_canonical)
    [Address.V4 [93; 184; 216; 34]%N] 262144 (Some demo_credential) demo_common) as (spec & Hs & Hok);
    [done|exact Hc|constructor|lia|done|intros cr [= <-]; by left|].
  exists spec. split; [exact Hs|]. cbv zeta in Hok.
  assert ((String.length (HttpsUrl.canonical (HopRequest.url
    (HopRequest.first demo_canonical))) <=? MAX_URL_BYTES)%nat = true) as E
    by (by vm_compute).
  rewrite E in Hok. apply Hok.
Defined.

Definition is_exchange (e : Effect.t) : bool := match e with Effect.Exchange _ _ => true | _ => false end.

Lemma demo_runs :
  @net_invoke demo_hmac demo_config demo_asked 6 (demo_reads "inv") true 0 demo_world demo_state = (demo_run.1,
    demo_run.2).
Proof. unfold demo_run. by destruct (net_invoke _ _ _ _ _ _ _ _). Qed.

Lemma demo_exchanges : exists before sent value after,
  NetState.trace demo_run.1 = before ++ Effect.Exchange sent value :: after.
Proof.
  assert (existsb is_exchange (NetState.trace demo_run.1) = true) as (e & He & Hx)%existsb_exists by (by vm_compute).
  apply in_split in He as (before & after & ->). destruct e; try done. by eexists _, _, _, _.
Qed.

Lemma exchanges_granted_witness :
  exists before sent value after, NetState.trace demo_run.1 = before ++ Effect.Exchange sent value :: after /\
  exists hop addresses limit credential,
    hop_spec hop addresses limit credential = Ok (HttpExchangeAuthorisation.spec sent) /\
    addresses <> [] /\ Forall (passes []) addresses /\
    hop_allowed (H := demo_hmac) demo_config demo_asked (World.intent (demo_world (HopRequest.number hop))) hop addresses.
Proof.
  destruct demo_exchanges as (before & sent & value & after & E). exists before, sent, value, after. split; [exact E|].
  destruct (exchanges_granted (H := demo_hmac) demo_config demo_asked 6 (demo_reads "inv") true 0 demo_world demo_state
    demo_run.1 demo_run.2) as (hops & t & Ht & _ & He); [by apply demo_runs|].
  cbn [demo_state NetState.trace app] in Ht. rewrite Ht in E.
  destruct (He _ _ _ _ E) as (hop & addresses & plan & injection & _ & _ & Hs & _ & _ & _ & Hn & Hp & Ha & _).
  exists hop, addresses, (NetAction.response_limit (NetPlan.net plan)), (credential_of injection).
  split; [exact Hs|]. split; [exact Hn|]. split; [exact Hp|exact Ha].
Defined.

Lemma redirects_carry_nothing_witness :
  length (exchanges (NetState.trace demo_run.1)) = 2 /\
  NoDup (sent_url <$> (HttpExchangeAuthorisation.spec <$> exchanges (NetState.trace demo_run.1))).
Proof.
  destruct (redirects_carry_nothing (H := demo_hmac) demo_config demo_asked 6
    (demo_reads "inv") true 0 demo_world demo_state demo_run.1
    demo_run.2) as (t & Ht & _ & _ & Hn & _); [by apply demo_runs|].
  cbn [demo_state NetState.trace app] in Ht. split; [by vm_compute|]. rewrite Ht. exact Hn.
Defined.

Lemma request_ends_witness :
  6 <= 9 /\ @net_invoke demo_hmac demo_config demo_asked 9 (demo_reads "inv") true 0 demo_world demo_state = demo_run.
Proof. split; [lia|]. apply (request_ends (H := demo_hmac)). lia. Defined.

Lemma net_budgets_hold_witness :
  length (run_hops "run" demo_run.1) = 2 /\ rows_fit demo_config (run_hops "run" demo_run.1).
Proof.
  split; [by vm_compute|].
  apply (net_budgets_hold (H := demo_hmac) demo_config demo_asked 6
    (demo_reads "inv") true 0 demo_world demo_state demo_run.1 demo_run.2).
  - by apply demo_runs.
  - cbn. unfold rows_fit. cbn. lia.
Defined.

Definition demo_output : option (string * NetPlan.t * NetHttpResult.t) :=
  match demo_run.2 with Ok (Some (NetReply.Done invocation plan output)) => Some (invocation, plan,
    output) | _ => None end.


(** A request whose outcome is not recorded, and a restart. *)
Definition lost_world (hop : N) : World.t :=
  let w := demo_world hop in
  World.Make (World.now_ms w) (World.precheck w) true (World.resolve w) true (World.intent w) true (World.material w)
    (World.one_shot w)
    (World.exchange w) false.

Definition lost_run : NetState.t :=
  (@net_invoke demo_hmac demo_config demo_asked 6 (demo_reads "inv") true 0 lost_world demo_state).1.

Lemma restart_settles_witness :
  keyed lost_run /\ List.filter hop_open (NetState.net_hop lost_run) <> [] /\
  List.filter injection_open (NetState.secret_injection lost_run) <> [] /\
  exists s, (reconcile lost_run).1 = s /\ Forall (fun r => hop_open r = false) (NetState.net_hop s) /\
    Forall (fun r => request_open r = false) (NetState.net_request s).
Proof.
  assert (keyed lost_run) as Hk by (split; vm_compute; repeat constructor; set_solver).
  split; [exact Hk|]. split; [by vm_compute|]. split; [by vm_compute|].
  destruct (restart_settles lost_run Hk) as [(s & E & _ & _ & _ & _ & H1 & H2 & _) _].
  exists s. rewrite E. split; [done|]. split; [exact H1|exact H2].
Defined.

(** A URL within the bound of a URL whose canonical text is not: what is asked is decided, recorded and charged, and then
    fails, where a text a byte longer is refused as no URL. *)
Fixpoint text_of (n : nat) : string := match n with 0 => "" | S n => String "x" (text_of n) end.

Definition long_asked (n : nat) : Asked.t :=
  Asked.Make "me" "ses" "run" (NetHttpCall.Make HttpMethod.Get ("https://a.example/" +:+ text_of n) None None
    (Some "api"%string) true None)
    (Some "key"%string).

Definition long_run (n : nat) : NetState.t * result (option NetReply.t) AuthorityError.t :=
  @net_invoke demo_hmac demo_config (long_asked n) 6 (demo_reads "inv") true 0 demo_world demo_state.

Definition read_failure (r : result (option NetReply.t) AuthorityError.t) : string :=
  match r with
  | Ok (Some (NetReply.Failed _ reason)) => ToolFailureReasonV4.as_str reason
  | Ok (Some (NetReply.Refused reason)) => ToolRefusalReasonV4.as_str reason
  | _ => ""
  end.

Definition reads_backend (e : Effect.t) : bool := match e with Effect.BackendRead _ => true | _ => false end.

Example longest_url_fails :
  (read_failure (long_run 8174).2, existsb reads_backend (NetState.trace (long_run 8174).1),
    length (NetState.net_hop (long_run 8174).1))
  = ("BROKER_PROTOCOL_ERROR"%string, true, 1).
Proof. by vm_compute. Qed.

Example longer_url_refused :
  (read_failure (long_run 8175).2, length (NetState.net_hop (long_run 8175).1)) = ("URL_INVALID"%string, 0).
Proof. by vm_compute. Qed.
